(* ===== verification/_CoqProject ===== *)
-Q . S2P
Prelude.v
BTree.v
Text.v
Strings.v
Json.v
Wire.v
Proto.v
Email.v
Store.v
SetOps.v
Patch.v
SetMethod.v
Changes.v
ChangesSync.v
ObjectSync.v
EditBase.v
Date.v
MailDate.v
MockTime.v
TextFold.v
Keywords.v
MailboxWire.v
MockMail.v
MockMailSet.v
MockMailbox.v
MailboxForest.v
MockQuery.v
MailSummary.v
Path.v
FolderTree.v
FolderForest.v
FolderEdit.v
FolderBuild.v
FolderWalk.v
FolderListing.v
MailboxListing.v
FolderChange.v
Session.v
ClientGet.v
Tarjan.v
SetChunk.v
SetSend.v
MailFiling.v
MailListing.v
MailRefresh.v
MailPaging.v
MockClient.v
MockReader.v
FolderShared.v
FolderView.v
FolderFollow.v
MailFolders.v
FolderDisk.v
FolderStore.v
FolderServer.v
FolderKept.v
FolderRefresh.v
FolderRaces.v
Octets.v
IoRead.v
PushProto.v
EventStream.v
MockPush.v
EventFrames.v
EventChunks.v
JsonSample.v
PushDelivery.v
PushRefresh.v
PushPump.v
PushSignals.v
PushConverges.v
IpAddr.v
Url.v
EventUrl.v
EventExpand.v
HttpClient.v
PushConnect.v
Collections.v
CollectionFanout.v
PendingDelete.v
