(* ===== verification/Prelude.v ===== *)
(** Verification of evolution-jmap: the JMAP mail, change, set, push and collection logic in Rocq.

    evolution-jmap connects Evolution to a JMAP server. Its Rust workspace is under
    src/rust/crates. The C backends call the sync crates, the sync crates call the client,
    the client calls a server, and the repository has a mock server for its tests. This
    development models both ends of that line and what is between them, and proves what they
    promise to each other.

    ** The program and the files that model it

    Foundations (Rust's own data types, as the program uses them):
    - this file: texts as octet lists ([text], [lit]), [result] with [let?], options with
      [let!], panics ([run]), machine integers ([u64_max], [wrap_u64]), shared tactics and
      generic lemmas;
    - BTree ([BTreeMap], [BTreeSet] as key-sorted lists, [slice::sort_by]), Text
      (decimal numbers), Octets (hexadecimal numbers, UTF-8), Strings ([str] methods), IpAddr ([std::net] addresses),
      IoRead ([std::io] readers), Json ([serde_json::Value]), Wire (serde's
      derived forms as codecs).

    jmap-proto, the protocol:
    - Proto: requests, responses and errors of methods.rs and error.rs, the Mailbox;
    - MailboxWire: the JSON form of the Mailbox of mail.rs;
    - Email: the Email object of mail.rs with its JSON form;
    - Session: session.rs; Date: date.rs; TextFold: text.rs; PushProto: the [StateChange] of
      push.rs.

    jmap-mock, the server:
    - Store: [Store] and [Transaction] of state.rs; SetOps: [store_changes] and [window] of
      setops.rs; SetMethod: [simple_set_with_validation]; Patch: [apply_patch];
    - MockMail, MockMailSet, MockQuery: the mail account and [Email/get], [Email/set],
      [Email/changes] and [Email/query] of mail.rs; MockTime: time.rs;
    - MockMailbox, MailboxForest: [Mailbox/get], [Mailbox/set] and [Mailbox/changes] of mail.rs
      and dispatch.rs, and the forest that they keep;
    - MockPush: the changes that a request pushes (dispatch.rs), the hub of subscribers
      (state.rs) and the event stream of eventsource.rs.

    jmap-client, the client:
    - Changes: [all_changes] of changes.rs with the id budget of limits.rs;
    - ClientGet: the chunked [/get] of client.rs;
    - Tarjan, SetChunk, SetSend: the chunked [/set] of set.rs;
    - Url: url.rs; HttpClient: the requests of client.rs with their retries, and the redirects
      of transport.rs;
    - EventStream: the response and the events of eventsource.rs; EventFrames,
      EventChunks: what its readers do with the octets; EventUrl, EventExpand:
      [parse_url], [expand_url] and the URL of a subscription (also of jmap-backend-core/src/push.rs); PushConnect: the request and the loop that connects again.

    jmap-object-sync, what address books and calendars share:
    - ObjectSync: lib.rs; EditBase: edit_base.rs.

    jmap-mail-sync, the mail client:
    - Path: path.rs; FolderTree, FolderForest, FolderEdit, FolderBuild, FolderWalk,
      FolderListing, MailboxListing, FolderChange, FolderShared: folder.rs and shared.rs;
    - MailFolders: the folder operations of lib.rs; FolderView, FolderFollow: what a tree shows
      of the mailboxes, and how an edit of one follows an edit of the other;
    - FolderDisk: the cache file of folder.rs;
    - Keywords: keywords.rs; MailDate: date.rs; MailSummary: message.rs;
    - MailFiling: mailboxes.rs and the writes of lib.rs;
    - MailListing, MailRefresh, MailPaging: the listing, search and refresh of lib.rs.

    jmap-collection-sync and jmap-backend-collection, the sources of an account:
    - Collections: layout.rs, resources.rs, children.rs, parts.rs, child_source.rs, create.rs
      and delete.rs: what a login offers, and the child source of each collection;
    - CollectionFanout: populate.rs, fan_out.rs, removal.rs, resource_id.rs and child_source.rs
      of the backend: the children written to the registry of evolution-data-server;
    - PendingDelete: pending.rs, and deferred_delete.rs with its threads.

    jmap-mail, the Camel provider:
    - FolderStore: the folder listing of [JmapStore] in store.rs (the held listing with its
      generation, its file, the refresh, the folder vfuncs), without the GObject around it;
    - PushRefresh: the merging worker of push.rs; PushSignals: the signals for a changed folder
      list; PushPump: [dispatch], and the pump of jmap-backend-core/src/push.rs that calls it.

    The pieces together:
    - ChangesSync: the client's [all_changes] against the server's [store_changes];
    - MockClient, MockReader: the mail sync over the chunked client on the mock server, also
      a listing while another client writes;
    - PushDelivery: the event stream of the server through the client's readers (JsonSample is a
      JSON text for its example);
    - PushConverges: a request of another client, its push, the pump, the worker, the refresh of
      the folder list and the viewer of it;
    - FolderServer, FolderKept, FolderRefresh, FolderRaces: the folder operations of the store
      over the client on the mock server, alone, after other clients, and against them.

    ** How the code is translated

    A pure function is a function. A method that calls the server takes the world it acts on
    and returns the next one: the calls are the members of a class ([MethodCaller],
    [MailClient], [MailReader], [FolderClient]), so that a theorem on the sync code holds for every server,
    and the mock server is an instance. What a client theorem needs of a server is a named
    law ([MailServer], [faithful_get], [serves]), proved for the mock; [MailServer] lets other
    clients write between a read and the write that follows it. A [Result] is
    [result], a panic is a value of [run], a [HashMap] a [gmap], and an iteration over one
    takes the order as an argument. serde_json of foreign structs, [str::to_lowercase] and the
    size of a request envelope are arguments, with their documented behaviour as hypotheses. So
    are, for the store, the renewal of a token (it leaves the server alone, [refresh_keeps]),
    the printer and parser of the cache file (they agree up to serde_json's limit of nesting,
    [recursion_limit]) and its atomic replacement ([replace_file]). A lock is held for the
    lines that the code holds it for, so that two threads are a sequence of such steps
    ([SlotCall], [Turn], [system_step]). In PushConverges a pass of the worker is one step, and
    the requests of other clients come between passes. For push, a connection is the pieces in
    which the network delivers its octets ([Conn]), serde_json prints without line ends and
    reads back what it printed ([JsonText]), percent-encoding writes each octet by itself
    ([PercentEncoding]), and what DNS, the sockets and TLS do in an attempt is a value
    ([Network]); for HTTP, the network is a function of all that was sent. A sleep takes the
    time that it is asked for. The registry of evolution-data-server is a class ([Eds]) with the
    laws that its documentation gives ([EdsLaws]). PendingDelete follows one child: another one
    has another key in the map of watched uids. The two clocks are read at one time there, and a
    write of the threads is a step of its own.

    A loop is a fixpoint on its list where it has one. The others have fuel: the pages of
    [/changes] and of [Email/query] have the program's own bounds ([MAX_CHANGES_PAGES],
    [MAX_QUERY_PAGES]) and report the same error at the end; [slice::chunks], the loops of
    the chunked [/get] and the folder walk take the length of their input, which they
    consume in every round, and a walk that ran out of rounds would be an error of its own
    ([walk_unfinished]), which [from_mailboxes_accepts] excludes; the cache file is read with as much fuel as it has nesting;
    redirects and retries have the program's own bounds; a loop over a connection has 2^64 rounds,
    and each round takes an octet of a stream of fewer than 2^63 in [push_stream_delivers]; and
    [get_chunked_requests], [from_mailboxes_accepts] and
    [sort_creation_components_sound] state that they return.

    ** What the theorems show

    - Synchronisation: the log of a store is its history ([store_log_is_history]); a page of
      [/changes] is the net difference of a window ([store_changes_net],
      [store_changes_paging]); the client's pages together are the net difference of the
      whole ([all_changes_sync]), also when the server changes between the pages, and
      within the id budget against any server ([all_changes_bounded]). A cache that applies a
      refresh holds the collection, and what this client saved since the last one, even if another
      client took it away ([classify_refresh]); a mail folder that applies one shows
      the mailbox ([messages_since_refreshes], [messages_lists]), end to end over client
      and mock server in [folder_follows_server]. [paged_query_misses] is the listing that
      loses a message.
    - Writes: every [/set] answers each item once, keeps the store well formed, and patches
      what it says ([simple_set_history], [simple_set_creates], [simple_set_updates],
      [apply_patch_sets], [email_set_filed]); a [/get] or [/set] of any size is split within
      the limits of the server and answers like one call ([get_chunked_requests],
      [get_chunked_answer], [sort_creation_components_sound], [partition_sound],
      [execute_set_chunked_answers], [execute_set_chunked_reports]).
    - Messages: filing is one change of the mailboxes ([file_message_files]); an expunge destroys
      a message only if it had one mailbox when it was read, which loses a message only if another
      client files it elsewhere right then ([expunge_message_safe]); a delete into the trash
      destroys none, whatever others do ([trash_message_keeps]); keyword changes
      patch and replay exactly ([keywords_patch_server], [keywords_replay]).
    - Folders: a listing is accepted or refused by its content, in any order, and gives a
      tree with every mailbox once, loops and deep chains cut ([from_mailboxes_accepts],
      [from_mailboxes_tree]); edits keep it so ([edited_tree_ok],
      [rename_moves]); a listener that follows the signals holds the new tree
      ([change_to_follows]); merged shared accounts and their routing ([merge_shared_owner],
      [merge_shared_paths]).
    - The folder list: the mailboxes of the server stay a forest ([mailbox_set_forest]); the
      list that the store holds stays the list of the server under all operations of the user, for
      names without white space around them and mailboxes within [MAX_DEPTH]
      ([folder_view_kept]; [spaced_name_differs] is another name), sees what other clients did at the next refresh
      ([refresh_catches_up]), does not lose an edit to a late answer ([refresh_keeps_edits])
      and survives a restart without a server ([offline_restart]).
      [held_tree_stays_wrong] is the exception: an edit of the held tree after another client's.
    - Push: the events of the server come through head, chunks and lines as they were sent, cut
      where the network cut them ([push_stream_delivers]); the pump asks for a refresh exactly
      for the requests that changed something watched ([push_refreshes_exactly]); the worker
      answers every request and never runs twice ([refresh_answers_requests]); and all of it
      together brings the folder list and its viewer to the mailboxes of the server
      ([push_converges]).
    - Credentials: a request carries them only to the origin of the session, and a redirect
      carries neither them nor a body elsewhere ([credentials_stay]); the push connection is
      on TLS, to a loopback host, or to the host and port of a plain session URL, whatever
      template the server sends ([push_dials_accepted]), and writes only its
      own request lines, whatever the server made it remember ([push_requests_well_formed]).
    - Sources: the children of a discovery are named apart and lead back to their collections
      ([children_lead_back]); populate and fan-out bring them to the registry and take away only
      what the listings prove gone ([startup_fans_out]); a deleted collection is destroyed no
      sooner than the undo window ([no_early_destroy]), and a thread always attends to it
      ([pending_settles]). [refused_destroy_race] is a delete that gets lost.
    - Texts: round trips and safety of JSON, folding, paths and dates ([email_roundtrip],
      [fold_unfold], [encode_component_safe], [epoch_seconds_panics]), and the versions that
      an edit is resolved against ([extra_keeps_recent]).

    ** Not modelled

    The C side (eds-sys, evo-sys, jmap-backend-*, jmap-config, jmap-ui, and jmap-mail, other than
    the folder listing, push and the child sources: foreign calls into GLib, Camel and Evolution, with no logic that
    can be read without them, which includes the refresh of Camel's open folders); discovery, the
    session, blobs, OAuth and request slots of jmap-client, and the handle that stops a push
    thread; the HTTP server and the fault injection of jmap-mock; the handlers of the other data
    types; the format libraries jmap-ical and jmap-vcard and the clients on top of them; sending
    and importing mail; the serde forms of the objects other than Email, Mailbox and StateChange;
    test helpers and build tools. *)

From Stdlib Require Import Ascii String.
From stdpp Require Import prelude strings sorting.

#[export] Set Default Goal Selector "!".

(** ** Byte strings

    A Rust [str] or [String] is its UTF-8 byte sequence: a [list ascii], one
    [ascii] per octet.  The functions modelled here only look for ASCII
    characters, and an ASCII octet of a UTF-8 text is always a whole character,
    so a walk over the octets and a walk over the characters agree. *)
Abbreviation text := (list ascii) (only parsing).

Definition lit (s : string) : text := String.list_ascii_of_string s.

Declare Scope rust_scope.
Delimit Scope rust_scope with rust.

(** ** Results

    [result A E] is Rust's [Result<A, E>]; [let? x := e in k] is the [?]
    operator on a result and [let! x := e in k] the one on an option. *)
Inductive result (A E : Type) : Type :=
| Ok (a : A)
| Err (e : E).
Arguments Ok {A E} a.
Arguments Err {A E} e.

Definition rbind {A B E} (r : result A E) (f : A -> result B E) : result B E :=
  match r with Ok a => f a | Err e => Err e end.

Definition map_err {A E F} (f : E -> F) (r : result A E) : result A F :=
  match r with Ok a => Ok a | Err e => Err (f e) end.

Definition ok_or {A E} (o : option A) (e : E) : result A E :=
  match o with Some a => Ok a | None => Err e end.

Definition is_ok {A E} (r : result A E) : bool :=
  match r with Ok _ => true | Err _ => false end.

Notation "'let?' x := e 'in' k" := (rbind e (fun x => k))
  (at level 10, x pattern, e at level 100, k at level 200) : rust_scope.
Notation "'let!' x := e 'in' k" := (mbind (M := option) (fun x => k) e)
  (at level 10, x pattern, e at level 100, k at level 200) : rust_scope.

#[export] Instance result_eq_dec {A E} `{EqDecision A, EqDecision E} :
  EqDecision (result A E).
Proof.
  intros [a|a] [b|b]; [destruct (decide (a = b)) | | | destruct (decide (a = b))];
    (by left; subst) || (by right; congruence).
Defined.

Lemma rbind_ok {A B E} (r : result A E) (f : A -> result B E) b :
  rbind r f = Ok b <-> exists a, r = Ok a /\ f a = Ok b.
Proof. destruct r; naive_solver. Qed.

(** A loop [for x in xs { s = body(s, x)?; }]. *)
Fixpoint try_fold {A S E} (body : S -> A -> result S E) (s : S) (xs : list A)
  : result S E :=
  match xs with
  | [] => Ok s
  | x :: xs => rbind (body s x) (fun s' => try_fold body s' xs)
  end.

Lemma try_fold_app {A S E} (body : S -> A -> result S E) s xs ys :
  try_fold body s (xs ++ ys) =
  rbind (try_fold body s xs) (fun s' => try_fold body s' ys).
Proof.
  revert s; induction xs as [|x xs IH]; intros s; simpl; [done|].
  destruct (body s x); simpl; [apply IH | done].
Qed.

(** ** Machine integers

    Unsigned integers are [N], signed ones [Z]; the width is written out where an
    operation can leave it. *)
Definition u64_max : N := 18446744073709551615.
Definition u32_max : N := 4294967295.
Definition u16_max : N := 65535.
Definition i64_max : Z := 9223372036854775807.
Definition i64_min : Z := -9223372036854775808.

Definition wrap_u64 (n : N) : N := (n mod (u64_max + 1))%N.
Definition saturating_add_u64 (a b : N) : N := N.min u64_max (a + b).

Definition in_i64 (n : Z) : Prop := (i64_min <= n <= i64_max)%Z.

Lemma wrap_u64_small n : (n <= u64_max)%N -> wrap_u64 n = n.
Proof. unfold wrap_u64, u64_max. intros. apply N.mod_small. lia. Qed.

(** ** Ordered keys

    The order of a [BTreeMap] or a sort: Rust's [Ord]. *)
Class KeyOrder (K : Type) : Type := {
  ord_cmp : K -> K -> comparison;
  ord_cmp_eq : forall a b, ord_cmp a b = Eq <-> a = b;
  ord_cmp_flip : forall a b, ord_cmp b a = CompOpp (ord_cmp a b);
  ord_cmp_trans : forall a b c,
    ord_cmp a b = Lt -> ord_cmp b c = Lt -> ord_cmp a c = Lt;
}.

#[global] Arguments ord_cmp : simpl never.

Definition klt {K} `{KeyOrder K} (a b : K) : Prop := ord_cmp a b = Lt.

Section key_order.
Context {K : Type} `{KeyOrder K}.
Implicit Types a b c : K.

Lemma ord_cmp_refl a : ord_cmp a a = Eq.
Proof. by apply ord_cmp_eq. Qed.

Lemma klt_irrefl a : ~ klt a a.
Proof. unfold klt. by rewrite ord_cmp_refl. Qed.

Lemma klt_gt a b : ord_cmp a b = Gt <-> klt b a.
Proof. unfold klt. rewrite (ord_cmp_flip a b). destruct (ord_cmp a b); naive_solver. Qed.

Lemma klt_ne a b : klt a b -> a <> b.
Proof. intros Hab ->. by apply klt_irrefl in Hab. Qed.

Lemma klt_total a b : klt a b \/ a = b \/ klt b a.
Proof.
  destruct (ord_cmp a b) eqn:E; [right; left | by left | right; right].
  - by apply ord_cmp_eq.
  - by apply klt_gt.
Qed.
End key_order.

#[export] Instance klt_strict {K} `{KeyOrder K} : StrictOrder klt.
Proof. split; [intros a Ha; by apply klt_irrefl in Ha | intros a b c; apply ord_cmp_trans]. Qed.

#[export] Instance klt_dec {K} `{KeyOrder K} : RelDecision klt.
Proof. intros a b. unfold klt. destruct (ord_cmp a b); [right|left|right]; done. Defined.

(** Rust compares [str]s octet by octet. *)
Definition byte_cmp (a b : ascii) : comparison := (N_of_ascii a ?= N_of_ascii b)%N.

Fixpoint text_cmp (a b : text) : comparison :=
  match a, b with
  | [], [] => Eq
  | [], _ :: _ => Lt
  | _ :: _, [] => Gt
  | x :: a, y :: b =>
      match byte_cmp x y with Eq => text_cmp a b | c => c end
  end.

Lemma N_of_ascii_inj a b : N_of_ascii a = N_of_ascii b -> a = b.
Proof. intros E. by rewrite <- (ascii_N_embedding a), E, ascii_N_embedding. Qed.

Lemma byte_cmp_eq a b : byte_cmp a b = Eq <-> a = b.
Proof.
  unfold byte_cmp. rewrite N.compare_eq_iff. split; [apply N_of_ascii_inj | by intros ->].
Qed.

Lemma text_cmp_eq a b : text_cmp a b = Eq <-> a = b.
Proof.
  revert b; induction a as [|x a IH]; intros [|y b]; simpl; try naive_solver.
  destruct (byte_cmp x y) eqn:E; [| split; intros; try done..].
  - apply byte_cmp_eq in E as ->. rewrite IH. naive_solver.
  - simplify_eq. by rewrite (proj2 (byte_cmp_eq y y) eq_refl) in E.
  - simplify_eq. by rewrite (proj2 (byte_cmp_eq y y) eq_refl) in E.
Qed.

Lemma text_cmp_flip a b : text_cmp b a = CompOpp (text_cmp a b).
Proof.
  revert b; induction a as [|x a IH]; intros [|y b]; simpl; try done.
  unfold byte_cmp. rewrite (N.compare_antisym (N_of_ascii x)).
  by destruct (N_of_ascii x ?= N_of_ascii y)%N; simpl.
Qed.

Lemma text_cmp_trans a b c : text_cmp a b = Lt -> text_cmp b c = Lt -> text_cmp a c = Lt.
Proof.
  revert b c; induction a as [|x a IH]; intros [|y b] [|z c]; simpl; try done.
  unfold byte_cmp.
  destruct (N.compare_spec (N_of_ascii x) (N_of_ascii y)) as [E1|E1|E1]; try done;
    destruct (N.compare_spec (N_of_ascii y) (N_of_ascii z)) as [E2|E2|E2]; try done;
    destruct (N.compare_spec (N_of_ascii x) (N_of_ascii z)) as [E3|E3|E3];
    try done; try lia; eauto.
Qed.

#[export] Instance text_order : KeyOrder text := {|
  ord_cmp := text_cmp;
  ord_cmp_eq := text_cmp_eq;
  ord_cmp_flip := text_cmp_flip;
  ord_cmp_trans := text_cmp_trans;
|}.

(** ** Filters *)
Section filters.
Context {A B : Type}.

Lemma filter_fmap (f : A -> B) (P : B -> Prop) `{!forall x, Decision (P x)} (l : list A) :
  filter P (f <$> l) = f <$> filter (fun x => P (f x)) l.
Proof.
  induction l as [|x l IH]; [done|]. rewrite fmap_cons, !filter_cons, IH. by case_decide.
Qed.

Lemma filter_all (P : A -> Prop) `{!forall x, Decision (P x)} (l : list A) :
  (forall x, x ∈ l -> P x) -> filter P l = l.
Proof.
  induction l as [|x l IH]; [done|]. intros Hl. rewrite filter_cons_True by (apply Hl; left).
  f_equal. apply IH. intros y Hy. apply Hl. by right.
Qed.

Lemma filter_none (P : A -> Prop) `{!forall x, Decision (P x)} (l : list A) :
  (forall x, x ∈ l -> ~ P x) -> filter P l = [].
Proof. intros Hl. apply elem_of_nil_inv. intros x [Hx Hin]%list_elem_of_filter. by eapply Hl. Qed.

Lemma filter_ext_in (P Q : A -> Prop) `{!forall x, Decision (P x)} `{!forall x, Decision (Q x)}
    (l : list A) :
  (forall x, x ∈ l -> P x <-> Q x) -> filter P l = filter Q l.
Proof.
  induction l as [|x l IH]; [done|]. intros Hl. rewrite !filter_cons, IH by (intros; apply Hl; by right).
  assert (P x <-> Q x) by (apply Hl; left). repeat case_decide; naive_solver.
Qed.
End filters.

Lemma nodup_fmap_eq {A B} (f : A -> B) l x y :
  NoDup (f <$> l) -> x ∈ l -> y ∈ l -> f x = f y -> x = y.
Proof.
  induction l as [|a l IH]; [set_solver|]. rewrite fmap_cons. intros [Hn Hl]%NoDup_cons.
  intros [->|Hx]%elem_of_cons [->|Hy]%elem_of_cons E; [done|..|by apply IH].
  - destruct Hn. rewrite E. by apply list_elem_of_fmap_2.
  - destruct Hn. rewrite <- E. by apply list_elem_of_fmap_2.
Qed.

Lemma mjoin_cons {A} (x : list A) (l : list (list A)) : mjoin (x :: l) = x ++ mjoin l.
Proof. done. Qed.

(** Closed decidable propositions, by evaluation. *)
Ltac by_decide := refine (bool_decide_unpack _ _); vm_compute; exact I.

(** ** Panics

    [run A] is a computation that returns or panics, where the difference matters. *)
Inductive run (A : Type) : Type :=
| Done (a : A)
| Panic.
Arguments Done {A} a.
Arguments Panic {A}.

Definition run_map {A B} (f : A -> B) (r : run A) : run B :=
  match r with Done a => Done (f a) | Panic => Panic end.

Definition run_bind {A B} (r : run A) (f : A -> run B) : run B :=
  match r with Done a => f a | Panic => Panic end.
