(* ===== verification/BTree.v ===== *)
(** Ordered maps and sets: Rust's [BTreeMap] and [BTreeSet] as key-sorted lists.

    The list is the iteration order.  [bt_get] looks a key up, [bt_insert] puts a
    binding in its place (replacing the old value of the key), [bt_remove] drops a
    key.  The lookup laws need no invariant; [bt_ok] (strictly increasing keys) is
    what iteration relies on, every operation preserves it, and two ordered maps
    with the same lookups are the same list.

    Also sorting by a comparison ([slice::sort_by], [Ordering::then_with]). *)

From stdpp Require Import prelude sorting.
From S2P Require Import Prelude.
(** [Ordering::then_with]. *)
Definition then_with (a b : comparison) : comparison :=
  match a with Eq => b | _ => a end.

(** [sort_by], the stable sort: an element goes before those that it equals. *)
Fixpoint insert_by {A} (cmp : A -> A -> comparison) (x : A) (l : list A) : list A :=
  match l with
  | [] => [x]
  | y :: l' => match cmp x y with Gt => y :: insert_by cmp x l' | _ => x :: l end
  end.

Definition sort_by {A} (cmp : A -> A -> comparison) (l : list A) : list A :=
  foldr (insert_by cmp) [] l.

Lemma insert_by_perm {A} (cmp : A -> A -> comparison) x l : insert_by cmp x l ≡ₚ x :: l.
Proof. induction l as [|y l IH]; cbn; [done|]. destruct (cmp x y); [done..|]. rewrite IH. constructor. Qed.

Lemma sort_by_perm {A} (cmp : A -> A -> comparison) l : sort_by cmp l ≡ₚ l.
Proof. induction l as [|x l IH]; [done|]. cbn. by rewrite insert_by_perm, IH. Qed.

Section sorting.
Context {A : Type} (cmp : A -> A -> comparison).
Definition not_after (x y : A) : Prop := cmp x y <> Gt.
Hypothesis cmp_flip : forall x y, cmp y x = CompOpp (cmp x y).
Hypothesis cmp_trans : forall x y z, not_after x y -> not_after y z -> not_after x z.

Lemma insert_by_sorted x l : StronglySorted not_after l -> StronglySorted not_after (insert_by cmp x l).
Proof.
  induction 1 as [|y l Hl IH Hy]; cbn; [repeat constructor|]. destruct (cmp x y) eqn:E.
  1-2: constructor; [by constructor|]; constructor; [unfold not_after; congruence|];
    eapply Forall_impl; [exact Hy|]; intros z; apply cmp_trans; unfold not_after; congruence.
  constructor; [done|]. apply Forall_forall. intros z. rewrite insert_by_perm.
  intros [->|Hz]%elem_of_cons; [|by eapply Forall_forall in Hy].
  unfold not_after. rewrite cmp_flip, E. done.
Qed.

Lemma sort_by_sorted l : StronglySorted not_after (sort_by cmp l).
Proof. induction l as [|x l IH]; [constructor|]. by apply insert_by_sorted. Qed.
End sorting.

Lemma then_with_flip a b : CompOpp (then_with a b) = then_with (CompOpp a) (CompOpp b).
Proof. by destruct a. Qed.

Abbreviation btmap K V := (list (K * V)) (only parsing).
Abbreviation btset K := (list K) (only parsing).

Section btree.
Context {K V : Type} `{KeyOrder K} `{EqDecision K}.
Implicit Types (m : btmap K V) (k : K) (v : V).

Fixpoint bt_get k m : option V :=
  match m with
  | [] => None
  | (k', v) :: m => if decide (k = k') then Some v else bt_get k m
  end.

Fixpoint bt_insert k v m : btmap K V :=
  match m with
  | [] => [(k, v)]
  | (k', v') :: m' =>
      match ord_cmp k k' with
      | Lt => (k, v) :: m
      | Eq => (k, v) :: m'
      | Gt => (k', v') :: bt_insert k v m'
      end
  end.

Definition bt_remove k m : btmap K V := filter (fun kv => kv.1 <> k) m.

Definition bt_contains k m : bool := bool_decide (is_Some (bt_get k m)).

Definition bt_of_list (l : list (K * V)) : btmap K V :=
  fold_left (fun m kv => bt_insert kv.1 kv.2 m) l [].

Definition bt_ok m : Prop := StronglySorted klt m.*1.

Lemma bt_get_insert_eq k v m : bt_get k (bt_insert k v m) = Some v.
Proof.
  induction m as [|[k' v'] m IH]; simpl; [by rewrite decide_True|].
  destruct (ord_cmp k k') eqn:E; simpl; try by rewrite decide_True.
  rewrite decide_False; [done|]. apply klt_gt in E. apply klt_ne in E. done.
Qed.

Lemma bt_get_insert_ne k k' v m : k <> k' -> bt_get k' (bt_insert k v m) = bt_get k' m.
Proof.
  intros Hne. induction m as [|[k1 v1] m IH]; simpl; [by rewrite decide_False|].
  destruct (ord_cmp k k1) eqn:E; simpl.
  - apply ord_cmp_eq in E as ->. by rewrite !decide_False.
  - by rewrite (decide_False (P := k' = k)).
  - by rewrite IH.
Qed.

Lemma bt_get_insert k k' v m :
  bt_get k' (bt_insert k v m) = if decide (k = k') then Some v else bt_get k' m.
Proof.
  case_decide; subst; [apply bt_get_insert_eq | by apply bt_get_insert_ne].
Qed.

Lemma bt_get_remove k k' m :
  bt_get k' (bt_remove k m) = if decide (k = k') then None else bt_get k' m.
Proof.
  induction m as [|[k1 v1] m IH]; simpl; [by case_decide|].
  unfold bt_remove in *. rewrite filter_cons. simpl. destruct (decide (k1 = k)) as [->|].
  - rewrite decide_False by naive_solver. rewrite IH. by repeat case_decide.
  - rewrite decide_True by done. simpl. rewrite IH. by repeat case_decide; simplify_eq.
Qed.

Lemma bt_contains_true k m : bt_contains k m = true <-> is_Some (bt_get k m).
Proof. apply bool_decide_eq_true. Qed.

Lemma bt_contains_false k m : bt_contains k m = false <-> bt_get k m = None.
Proof. unfold bt_contains. rewrite bool_decide_eq_false, <- eq_None_not_Some. done. Qed.

Lemma bt_get_Some_elem k v m : bt_get k m = Some v -> (k, v) ∈ m.
Proof.
  induction m as [|[k1 v1] m IH]; simpl; [done|].
  case_decide; intros; simplify_eq; [left | right; auto].
Qed.

Lemma bt_get_None_elem k m : bt_get k m = None <-> k ∉ m.*1.
Proof.
  induction m as [|[k1 v1] m IH]; simpl; [by split; intros; [apply not_elem_of_nil|]|].
  rewrite not_elem_of_cons. case_decide; naive_solver.
Qed.

Lemma bt_key_get k m : k ∈ m.*1 <-> is_Some (bt_get k m).
Proof.
  destruct (bt_get k m) eqn:E.
  - apply bt_get_Some_elem, (list_elem_of_fmap_2 fst) in E. split; eauto.
  - apply bt_get_None_elem in E. split; [done|by intros [? ?]].
Qed.

Lemma bt_insert_keys k v m k' : k' ∈ (bt_insert k v m).*1 <-> k' = k \/ k' ∈ m.*1.
Proof.
  induction m as [|[k1 v1] m IH]; simpl; [rewrite list_elem_of_singleton, elem_of_nil; tauto|].
  destruct (ord_cmp k k1) eqn:E; simpl; rewrite ?elem_of_cons.
  - apply ord_cmp_eq in E as ->. tauto.
  - tauto.
  - rewrite IH. tauto.
Qed.

Lemma elem_of_bt_insert k v m e : e ∈ bt_insert k v m -> e = (k, v) \/ e ∈ m.
Proof.
  induction m as [|[k1 v1] m IH]; simpl; [rewrite list_elem_of_singleton; tauto|].
  destruct (ord_cmp k k1); rewrite !elem_of_cons; tauto.
Qed.

Lemma elem_of_bt_of_list l e : e ∈ bt_of_list l -> e ∈ l.
Proof.
  unfold bt_of_list. enough (forall m, e ∈ fold_left (fun m kv => bt_insert kv.1 kv.2 m) l m -> e ∈ m \/ e ∈ l) as Hfold.
  { intros [?%elem_of_nil|?]%Hfold; done. }
  induction l as [|[k v] l IH]; intros m; cbn [fold_left fst snd]; [by left|].
  rewrite elem_of_cons. intros [[->|?]%elem_of_bt_insert|?]%IH; tauto.
Qed.

Lemma bt_ok_nil : bt_ok [].
Proof. constructor. Qed.

Lemma bt_ok_cons k v m : bt_ok ((k, v) :: m) <-> bt_ok m /\ Forall (klt k) m.*1.
Proof. unfold bt_ok. simpl. split; [by inversion 1 | by intros [??]; constructor]. Qed.

Lemma bt_insert_ok k v m : bt_ok m -> bt_ok (bt_insert k v m).
Proof.
  induction m as [|[k1 v1] m IH]; simpl; intros Hm; [repeat constructor|].
  apply bt_ok_cons in Hm as [Hm Hk]. destruct (ord_cmp k k1) eqn:E.
  - apply ord_cmp_eq in E as ->. by apply bt_ok_cons.
  - apply bt_ok_cons; split; [by apply bt_ok_cons|]. simpl. constructor; [done|].
    eapply Forall_impl; [done|]. intros x Hx. by transitivity k1.
  - apply klt_gt in E. apply bt_ok_cons; split; [by apply IH|].
    apply Forall_forall. intros x [->|Hx]%bt_insert_keys; [done|].
    by eapply Forall_forall in Hk.
Qed.

Lemma bt_filter_ok (P : K * V -> Prop) `{!forall x, Decision (P x)} m :
  bt_ok m -> bt_ok (filter P m).
Proof.
  induction m as [|[k1 v1] m IH]; [done|]. intros [Hm Hk]%bt_ok_cons.
  rewrite filter_cons. case_decide; [|auto].
  apply bt_ok_cons; split; [auto|]. apply Forall_forall.
  intros x Hx. eapply Forall_forall in Hk; [done|].
  apply list_elem_of_fmap in Hx as [y [-> Hy%list_elem_of_filter]].
  apply list_elem_of_fmap. naive_solver.
Qed.

Lemma bt_remove_ok k m : bt_ok m -> bt_ok (bt_remove k m).
Proof. apply bt_filter_ok. Qed.

Lemma bt_ok_nodup m : bt_ok m -> NoDup m.*1.
Proof.
  induction m as [|[k v] m IH]; simpl; [constructor|].
  intros [Hm Hk]%bt_ok_cons. constructor; [|auto].
  intros Hin. eapply Forall_forall in Hk; [|done]. by apply klt_irrefl in Hk.
Qed.

Lemma nodup_bt_get k v m : NoDup m.*1 -> (k, v) ∈ m -> bt_get k m = Some v.
Proof.
  induction m as [|[k1 v1] m IH]; simpl; [by rewrite elem_of_nil|].
  intros [Hn Hm]%NoDup_cons.
  rewrite elem_of_cons. intros [Heq|Hin]; simplify_eq; [by rewrite decide_True|].
  rewrite decide_False; [auto|]. intros ->. apply Hn.
  apply list_elem_of_fmap. by exists (k1, v).
Qed.

Lemma bt_elem_get k v m : bt_ok m -> (k, v) ∈ m <-> bt_get k m = Some v.
Proof.
  intros Hm%bt_ok_nodup. split; [by apply nodup_bt_get|apply bt_get_Some_elem].
Qed.

Lemma bt_ext m1 m2 :
  bt_ok m1 -> bt_ok m2 -> (forall k, bt_get k m1 = bt_get k m2) -> m1 = m2.
Proof.
  revert m2. induction m1 as [|[k1 v1] m1 IH]; intros [|[k2 v2] m2] H1 H2 Hget.
  - done.
  - specialize (Hget k2). simpl in Hget. by rewrite decide_True in Hget.
  - specialize (Hget k1). simpl in Hget. by rewrite decide_True in Hget.
  - apply bt_ok_cons in H1 as [H1 F1]. apply bt_ok_cons in H2 as [H2 F2].
    rewrite Forall_forall in F1, F2.
    assert (k1 = k2) as ->.
    { destruct (klt_total k1 k2) as [L|[->|L]]; [exfalso|done|exfalso].
      - specialize (Hget k1). simpl in Hget. rewrite decide_True in Hget by done.
        rewrite decide_False in Hget by (by apply klt_ne).
        symmetry in Hget. apply bt_get_Some_elem in Hget.
        assert (klt k2 k1) as L'.
        { apply F2. apply list_elem_of_fmap. by exists (k1, v1). }
        apply (klt_irrefl k1). by transitivity k2.
      - specialize (Hget k2). simpl in Hget. rewrite (decide_True (P := k2 = k2)) in Hget by done.
        rewrite decide_False in Hget by (by apply klt_ne).
        apply bt_get_Some_elem in Hget.
        assert (klt k1 k2) as L'.
        { apply F1. apply list_elem_of_fmap. by exists (k2, v2). }
        apply (klt_irrefl k1). by transitivity k2. }
    pose proof (Hget k2) as E. simpl in E. rewrite !decide_True in E by done. simplify_eq.
    f_equal. apply IH; [done..|]. intros k. specialize (Hget k). simpl in Hget.
    case_decide; [|done]. subst.
    transitivity (@None V); [|symmetry]; apply bt_get_None_elem; intros Hin.
    + by apply F1, klt_irrefl in Hin.
    + by apply F2, klt_irrefl in Hin.
Qed.

Lemma bt_of_list_ok l : bt_ok (bt_of_list l).
Proof.
  unfold bt_of_list. generalize bt_ok_nil. generalize (@nil (K * V)).
  induction l as [|[k v] l IH]; simpl; [done|]. intros m Hm. by apply IH, bt_insert_ok.
Qed.

Lemma bt_get_fold l m k v :
  NoDup l.*1 -> (forall k', k' ∈ l.*1 -> bt_get k' m = None) ->
  bt_get k (fold_left (fun m kv => bt_insert kv.1 kv.2 m) l m) = Some v <-> bt_get k m = Some v \/ (k, v) ∈ l.
Proof.
  revert m. induction l as [|[k1 v1] l IH]; intros m; cbn [fold_left fmap list_fmap fst snd].
  { rewrite elem_of_nil. tauto. }
  intros [Hn Hl]%NoDup_cons Hf. rewrite IH, elem_of_cons, bt_get_insert; [|done|].
  - case_decide as Hd.
    + subst k1. assert (bt_get k m = None) as -> by (apply Hf; left).
      assert ((k, v) ∉ l) by (intros Hin; apply Hn, list_elem_of_fmap; by exists (k, v)). naive_solver.
    + naive_solver.
  - intros k' Hk'. rewrite bt_get_insert. case_decide; [by subst|]. apply Hf. by right.
Qed.

Lemma bt_get_of_list l k v : NoDup l.*1 -> bt_get k (bt_of_list l) = Some v <-> (k, v) ∈ l.
Proof. intros Hn. unfold bt_of_list. rewrite bt_get_fold by done. cbn. naive_solver. Qed.

Lemma bt_insert_length_fresh k v m :
  bt_get k m = None -> length (bt_insert k v m) = S (length m).
Proof.
  induction m as [|[k1 v1] m IH]; simpl; [done|]. case_decide; [done|].
  intros Hm. destruct (ord_cmp k k1) eqn:E; simpl; [|done|by rewrite IH].
  by apply ord_cmp_eq in E.
Qed.

Lemma bt_insert_perm k v m : bt_get k m = None -> bt_insert k v m ≡ₚ (k, v) :: m.
Proof.
  induction m as [|[k' v'] m IH]; cbn; [done|]. case_decide; [done|].
  destruct (ord_cmp k k') eqn:E; intros Hk; [apply ord_cmp_eq in E; congruence|done|]. by rewrite IH, Permutation_swap.
Qed.

Lemma bt_insert_length_le k v m : length (bt_insert k v m) <= S (length m).
Proof.
  induction m as [|[k1 v1] m IH]; simpl; [done|].
  destruct (ord_cmp k k1); simpl; lia.
Qed.
End btree.

(** ** Sets *)
Section btset.
Context {K : Type} `{KeyOrder K} `{EqDecision K}.
Implicit Types (s : btset K) (k : K).

Fixpoint bs_insert k s : btset K :=
  match s with
  | [] => [k]
  | k' :: s' =>
      match ord_cmp k k' with
      | Lt => k :: s
      | Eq => s
      | Gt => k' :: bs_insert k s'
      end
  end.

Definition bs_contains k s : bool := bool_decide (k ∈ s).

Definition bs_of_list (l : list K) : btset K := fold_left (fun s k => bs_insert k s) l [].

(** [a.union(&b)], in key order. *)
Definition bs_union (a b : btset K) : btset K := fold_left (fun s k => bs_insert k s) b a.

Definition bs_ok s : Prop := StronglySorted klt s.

Lemma elem_of_bs_insert k k' s : k' ∈ bs_insert k s <-> k' = k \/ k' ∈ s.
Proof.
  induction s as [|k1 s IH]; simpl; [rewrite list_elem_of_singleton, elem_of_nil; tauto|].
  destruct (ord_cmp k k1) eqn:E; rewrite ?elem_of_cons.
  - apply ord_cmp_eq in E as ->. tauto.
  - tauto.
  - rewrite IH. tauto.
Qed.

Lemma bs_insert_ok k s : bs_ok s -> bs_ok (bs_insert k s).
Proof.
  unfold bs_ok. induction s as [|k1 s IH]; simpl; intros Hs; [repeat constructor|].
  inversion Hs as [|?? Hs' Hk]; subst. destruct (ord_cmp k k1) eqn:E; [done| |].
  - constructor; [done|]. constructor; [done|].
    eapply Forall_impl; [done|]. intros x Hx. by transitivity k1.
  - apply klt_gt in E. constructor; [by apply IH|]. apply Forall_forall.
    intros x [->|Hx]%elem_of_bs_insert; [done|]. by eapply Forall_forall in Hk.
Qed.

Lemma elem_of_bs_union k a b : k ∈ bs_union a b <-> k ∈ a \/ k ∈ b.
Proof.
  unfold bs_union. revert a. induction b as [|k' b IH]; simpl; intros a.
  - rewrite elem_of_nil. tauto.
  - rewrite IH, elem_of_bs_insert, elem_of_cons. tauto.
Qed.

Lemma bs_union_ok a b : bs_ok a -> bs_ok (bs_union a b).
Proof.
  unfold bs_union. revert a. induction b as [|k' b IH]; simpl; intros a Ha; [done|].
  by apply IH, bs_insert_ok.
Qed.

Lemma bs_ok_nodup s : bs_ok s -> NoDup s.
Proof.
  unfold bs_ok. induction 1 as [|k s Hs IH Hk]; constructor; [|done].
  intros Hin. eapply Forall_forall in Hk; [|done]. by apply klt_irrefl in Hk.
Qed.

Lemma bs_contains_true k s : bs_contains k s = true <-> k ∈ s.
Proof. apply bool_decide_eq_true. Qed.
End btset.

Create HintDb btree discriminated.
#[export] Hint Resolve bt_ok_nil bt_insert_ok bt_remove_ok bt_of_list_ok bs_insert_ok
  bs_union_ok : btree.
#[export] Hint Constructors StronglySorted : btree.
