(* ===== verification/Text.v ===== *)
(** Decimal numbers as Rust formats and parses them: [to_string], the zero padding of
    [{:02}], and [str::parse] for the integer types. *)

From Stdlib Require Import Ascii String DecimalN DecimalFacts.
From stdpp Require Import prelude strings.
From S2P Require Import Prelude.

(** ** Decimal numbers *)
Fixpoint uint_text (u : Decimal.uint) : text :=
  match u with
  | Decimal.Nil => []
  | Decimal.D0 u => "0"%char :: uint_text u
  | Decimal.D1 u => "1"%char :: uint_text u
  | Decimal.D2 u => "2"%char :: uint_text u
  | Decimal.D3 u => "3"%char :: uint_text u
  | Decimal.D4 u => "4"%char :: uint_text u
  | Decimal.D5 u => "5"%char :: uint_text u
  | Decimal.D6 u => "6"%char :: uint_text u
  | Decimal.D7 u => "7"%char :: uint_text u
  | Decimal.D8 u => "8"%char :: uint_text u
  | Decimal.D9 u => "9"%char :: uint_text u
  end.

(** [n.to_string()] of an unsigned integer. *)
Definition to_dec (n : N) : text := uint_text (N.to_uint n).

Fixpoint text_uint (t : text) : option Decimal.uint :=
  match t with
  | [] => Some Decimal.Nil
  | c :: t =>
      match text_uint t with
      | None => None
      | Some u =>
          match c with
          | "0"%char => Some (Decimal.D0 u)
          | "1"%char => Some (Decimal.D1 u)
          | "2"%char => Some (Decimal.D2 u)
          | "3"%char => Some (Decimal.D3 u)
          | "4"%char => Some (Decimal.D4 u)
          | "5"%char => Some (Decimal.D5 u)
          | "6"%char => Some (Decimal.D6 u)
          | "7"%char => Some (Decimal.D7 u)
          | "8"%char => Some (Decimal.D8 u)
          | "9"%char => Some (Decimal.D9 u)
          | _ => None
          end
      end
  end.

(** The digits of [str::parse] for an unsigned type with the maximum [max]. *)
Definition parse_digits (max : N) (t : text) : option N :=
  match t with
  | [] => None
  | _ =>
      match text_uint t with
      | Some u => if (N.of_uint u <=? max)%N then Some (N.of_uint u) else None
      | None => None
      end
  end.

(** [t.parse::<uN>()]: one leading plus sign is accepted. *)
Definition parse_uint (max : N) (t : text) : option N :=
  match t with
  | "+"%char :: rest => parse_digits max rest
  | _ => parse_digits max t
  end.

Definition parse_u64 (t : text) : option N := parse_uint u64_max t.
Definition parse_u32 (t : text) : option N := parse_uint u32_max t.
Definition parse_u16 (t : text) : option N := parse_uint u16_max t.

(** [t.parse::<i64>()]. *)
Definition parse_i64 (t : text) : option Z :=
  match t with
  | "-"%char :: rest => (fun n => (- Z.of_N n)%Z) <$> parse_digits (Z.to_N (- i64_min)) rest
  | "+"%char :: rest => Z.of_N <$> parse_digits (Z.to_N i64_max) rest
  | _ => Z.of_N <$> parse_digits (Z.to_N i64_max) t
  end.

Lemma text_uint_inv u : text_uint (uint_text u) = Some u.
Proof. induction u; simpl; try done; by rewrite IHu. Qed.

Lemma uint_text_nil u : uint_text u = [] -> u = Decimal.Nil.
Proof. by destruct u. Qed.

Lemma to_uint_nonnil n : N.to_uint n <> Decimal.Nil.
Proof.
  intros E. pose proof (DecimalN.Unsigned.of_to n) as Hn. rewrite E in Hn.
  change (N.of_uint Decimal.Nil) with 0%N in Hn. by subst n.
Qed.

Lemma to_dec_nonempty n : to_dec n <> [].
Proof. intros E%uint_text_nil. by apply to_uint_nonnil in E. Qed.

Definition is_digit (c : ascii) : bool :=
  ((48 <=? N_of_ascii c) && (N_of_ascii c <=? 57))%N.

Lemma uint_text_digits u : Forall (fun c => is_digit c = true) (uint_text u).
Proof. induction u; simpl; constructor; done. Qed.

Lemma to_dec_digits n : Forall (fun c => is_digit c = true) (to_dec n).
Proof. apply uint_text_digits. Qed.

Lemma to_dec_inj a b : to_dec a = to_dec b -> a = b.
Proof.
  unfold to_dec. intros E%(f_equal text_uint). rewrite !text_uint_inv in E.
  simplify_eq. by apply DecimalN.Unsigned.to_uint_inj.
Qed.

Lemma parse_digits_text max u :
  u <> Decimal.Nil -> (N.of_uint u <= max)%N ->
  parse_digits max (uint_text u) = Some (N.of_uint u).
Proof.
  intros Hu Hmax. unfold parse_digits. destruct (uint_text u) eqn:E.
  - by apply uint_text_nil in E.
  - rewrite <- E, text_uint_inv. by rewrite (proj2 (N.leb_le _ _)).
Qed.

Lemma parse_uint_digits max u :
  u <> Decimal.Nil -> (N.of_uint u <= max)%N ->
  parse_uint max (uint_text u) = Some (N.of_uint u).
Proof.
  intros Hu Hmax. rewrite <- (parse_digits_text max u) by done.
  destruct u; simpl; done.
Qed.

Lemma parse_uint_to_dec max n : (n <= max)%N -> parse_uint max (to_dec n) = Some n.
Proof.
  intros Hn. unfold to_dec. rewrite parse_uint_digits.
  - by rewrite DecimalN.Unsigned.of_to.
  - apply to_uint_nonnil.
  - by rewrite DecimalN.Unsigned.of_to.
Qed.

Lemma parse_uint_max max t n : parse_uint max t = Some n -> (n <= max)%N.
Proof.
  assert (forall t, parse_digits max t = Some n -> (n <= max)%N) as H.
  { intros [|c t']; [done|]. unfold parse_digits. destruct (text_uint _); [|done].
    destruct (N.leb_spec (N.of_uint u) max); [by intros [= <-]|done]. }
  unfold parse_uint. repeat case_match; apply H.
Qed.

Lemma parse_u64_to_dec n : (n <= u64_max)%N -> parse_u64 (to_dec n) = Some n.
Proof. apply parse_uint_to_dec. Qed.

(** ** Zero padding: [{n:0w}] of an unsigned integer. *)
Definition pad (w : nat) (n : N) : text :=
  replicate (w - length (to_dec n)) "0"%char ++ to_dec n.

Fixpoint zeros (k : nat) (u : Decimal.uint) : Decimal.uint :=
  match k with O => u | S k => Decimal.D0 (zeros k u) end.

Lemma zeros_text k u : uint_text (zeros k u) = replicate k "0"%char ++ uint_text u.
Proof. induction k; simpl; congruence. Qed.

Lemma zeros_value k u : N.of_uint (zeros k u) = N.of_uint u.
Proof. induction k; simpl; congruence. Qed.

Lemma zeros_nonnil k u : u <> Decimal.Nil -> zeros k u <> Decimal.Nil.
Proof. by destruct k. Qed.

Lemma pad_uint w n : exists k, pad w n = uint_text (zeros k (N.to_uint n)).
Proof. exists (w - length (to_dec n)). by rewrite zeros_text. Qed.

Lemma parse_digits_pad max w n : (n <= max)%N -> parse_digits max (pad w n) = Some n.
Proof.
  intros Hn. destruct (pad_uint w n) as [k ->]. rewrite parse_digits_text.
  - by rewrite zeros_value, DecimalN.Unsigned.of_to.
  - apply zeros_nonnil, to_uint_nonnil.
  - by rewrite zeros_value, DecimalN.Unsigned.of_to.
Qed.

Lemma parse_uint_pad max w n : (n <= max)%N -> parse_uint max (pad w n) = Some n.
Proof.
  intros Hn. rewrite <- (parse_digits_pad max w n) by done.
  destruct (pad_uint w n) as [k ->]. by destruct (zeros k (N.to_uint n)).
Qed.

Lemma parse_i64_pad w n : (Z.of_N n <= i64_max)%Z -> parse_i64 (pad w n) = Some (Z.of_N n).
Proof.
  intros Hn. assert (parse_digits (Z.to_N i64_max) (pad w n) = Some n) as Hp
    by (apply parse_digits_pad; lia).
  destruct (pad_uint w n) as [k E]. rewrite E in *.
  destruct (zeros k (N.to_uint n)); simpl in *; by rewrite ?Hp.
Qed.

Lemma pad_digits w n : Forall (fun c => is_digit c = true) (pad w n).
Proof. destruct (pad_uint w n) as [k ->]. apply uint_text_digits. Qed.

Lemma digits_not c t : Forall (fun c => is_digit c = true) t -> is_digit c = false -> c ∉ t.
Proof. rewrite Forall_forall. intros Ht Hc Hin. specialize (Ht c Hin). congruence. Qed.
