(* ===== verification/Strings.v ===== *)
(** Rust's [str] methods that the program uses, on octet lists.

    Every separator, prefix and character class below is ASCII, so the octet
    positions are character positions.  The lemmas are the round trips and the
    decompositions that the components use: splitting and joining undo each other,
    and replacing one character is a letter-by-letter substitution. *)

From Stdlib Require Import Ascii String.
From stdpp Require Import prelude strings.
From S2P Require Import Prelude.

(** ** Control characters *)
Definition LF : ascii := "010"%char.
Definition CR : ascii := "013"%char.
Definition TAB : ascii := "009"%char.

(** ** Prefixes and suffixes *)
Fixpoint strip_prefix (pat t : text) : option text :=
  match pat, t with
  | [], t => Some t
  | p :: pat, c :: t => if decide (p = c) then strip_prefix pat t else None
  | _ :: _, [] => None
  end.

Definition starts_with (pat t : text) : bool := bool_decide (is_Some (strip_prefix pat t)).

Definition strip_suffix (pat t : text) : option text :=
  reverse <$> strip_prefix (reverse pat) (reverse t).

Definition ends_with (pat t : text) : bool := bool_decide (is_Some (strip_suffix pat t)).

(** [str::contains]. *)
Fixpoint str_contains (needle t : text) : bool :=
  starts_with needle t || match t with [] => false | _ :: t => str_contains needle t end.

(** ** Splitting at a character *)
Fixpoint split_on (sep : ascii) (t : text) : list text :=
  match t with
  | [] => [[]]
  | c :: t =>
      if decide (c = sep) then [] :: split_on sep t
      else
        match split_on sep t with
        | [] => [[c]]
        | piece :: rest => (c :: piece) :: rest
        end
  end.

Fixpoint split_once (sep : ascii) (t : text) : option (text * text) :=
  match t with
  | [] => None
  | c :: t =>
      if decide (c = sep) then Some ([], t)
      else (fun '(a, b) => (c :: a, b)) <$> split_once sep t
  end.

Definition rsplit_once (sep : ascii) (t : text) : option (text * text) :=
  (fun '(a, b) => (reverse b, reverse a)) <$> split_once sep (reverse t).

Fixpoint join (sep : text) (l : list text) : text :=
  match l with
  | [] => []
  | [a] => a
  | a :: l => a ++ sep ++ join sep l
  end.

(** [split_inclusive]: each piece keeps its separator; no empty last piece. *)
Fixpoint split_inclusive (sep : ascii) (t : text) : list text :=
  match t with
  | [] => []
  | c :: t =>
      if decide (c = sep) then [c] :: split_inclusive sep t
      else
        match split_inclusive sep t with
        | [] => [[c]]
        | piece :: rest => (c :: piece) :: rest
        end
  end.

(** ** Replacing

    [str::replace]: the matches from left to right, none overlapping; [skip] counts
    the characters of the current match still to pass over. *)
Fixpoint replace_from (pat to : text) (skip : nat) (t : text) : text :=
  match t with
  | [] => []
  | c :: t' =>
      match skip with
      | S k => replace_from pat to k t'
      | O =>
          if starts_with pat t then to ++ replace_from pat to (length pat - 1) t'
          else c :: replace_from pat to 0 t'
      end
  end.

Definition replace (pat to t : text) : text := replace_from pat to 0 t.

(** ** Character classes and case *)
Definition is_ascii_upper (c : ascii) : bool :=
  (65 <=? N_of_ascii c)%N && (N_of_ascii c <=? 90)%N.
Definition is_ascii_lower (c : ascii) : bool :=
  (97 <=? N_of_ascii c)%N && (N_of_ascii c <=? 122)%N.
Definition is_ascii_alphabetic (c : ascii) : bool := is_ascii_upper c || is_ascii_lower c.
Definition is_ascii_digit (c : ascii) : bool :=
  (48 <=? N_of_ascii c)%N && (N_of_ascii c <=? 57)%N.
Definition is_ascii_alphanumeric (c : ascii) : bool := is_ascii_alphabetic c || is_ascii_digit c.
Definition is_ascii_control (c : ascii) : bool :=
  (N_of_ascii c <? 32)%N || (N_of_ascii c =? 127)%N.
Definition is_ascii (c : ascii) : bool := (N_of_ascii c <? 128)%N.

Definition ascii_lower (c : ascii) : ascii :=
  if is_ascii_upper c then ascii_of_N (N_of_ascii c + 32) else c.

Definition to_ascii_lowercase (t : text) : text := ascii_lower <$> t.

Definition eq_ignore_ascii_case (a b : text) : bool :=
  bool_decide (to_ascii_lowercase a = to_ascii_lowercase b).

(** ** Trimming *)
Fixpoint trim_start_matches (P : ascii -> bool) (t : text) : text :=
  match t with
  | [] => []
  | c :: t' => if P c then trim_start_matches P t' else t
  end.

Definition trim_end_matches (P : ascii -> bool) (t : text) : text :=
  reverse (trim_start_matches P (reverse t)).

Definition trim_matches (P : ascii -> bool) (t : text) : text :=
  trim_end_matches P (trim_start_matches P t).

(** ** Prefix lemmas *)
Lemma strip_prefix_Some pat t rest : strip_prefix pat t = Some rest <-> t = pat ++ rest.
Proof.
  revert t. induction pat as [|p pat IH]; intros [|c t]; simpl; try naive_solver.
  case_decide; rewrite ?IH; naive_solver.
Qed.

Lemma starts_with_true pat t : starts_with pat t = true <-> exists rest, t = pat ++ rest.
Proof.
  unfold starts_with. rewrite bool_decide_eq_true. split.
  - intros [rest Hr]. exists rest. by apply strip_prefix_Some.
  - intros [rest Hr]. exists rest. by apply strip_prefix_Some.
Qed.

Lemma str_contains_true needle t : str_contains needle t = true <-> exists a b, t = a ++ needle ++ b.
Proof.
  induction t as [|c t IH]; cbn [str_contains]; rewrite orb_true_iff, starts_with_true.
  - split; [|by intros ([|]&[|]&?); left; eauto]. intros [[b Hb]|]; [|done]. by exists [], b.
  - rewrite IH. split.
    + intros [[b Hb]|(a&b&->)]; [by exists [], b|by exists (c :: a), b].
    + intros ([|x a]&b&E); [by left; exists b|]. injection E as -> ->. right. eauto.
Qed.

Lemma strip_suffix_Some pat t rest : strip_suffix pat t = Some rest <-> t = rest ++ pat.
Proof.
  unfold strip_suffix. rewrite fmap_Some. setoid_rewrite strip_prefix_Some. split.
  - intros (x & Hx & ->). apply (f_equal reverse) in Hx.
    by rewrite reverse_app, !reverse_involutive in Hx.
  - intros ->. exists (reverse rest). by rewrite reverse_app, reverse_involutive.
Qed.

(** ** Splitting lemmas *)
Lemma split_on_cons sep t : exists piece rest, split_on sep t = piece :: rest.
Proof.
  induction t as [|c t (p & r & IH)]; simpl; [eauto|]. case_decide; [eauto|]. rewrite IH. eauto.
Qed.

Lemma split_on_none sep t : sep ∉ t -> split_on sep t = [t].
Proof.
  induction t as [|c t IH]; simpl; [done|]. intros [Hc Ht]%not_elem_of_cons.
  rewrite decide_False by done. by rewrite IH.
Qed.

Lemma split_on_app sep a b : sep ∉ a -> split_on sep (a ++ sep :: b) = a :: split_on sep b.
Proof.
  induction a as [|c a IH]; simpl; intros Ha; [by rewrite decide_True|].
  apply not_elem_of_cons in Ha as [Hc Ha]. rewrite decide_False by done. by rewrite IH.
Qed.

Lemma join_cons sep a l : l <> [] -> join sep (a :: l) = a ++ sep ++ join sep l.
Proof. by destruct l. Qed.

(** Splitting undoes joining, when no piece holds the separator. *)
Lemma split_join sep l :
  l <> [] -> Forall (fun p => sep ∉ p) l -> split_on sep (join [sep] l) = l.
Proof.
  intros Hne Hl. induction Hl as [|p l Hp Hl IH]; [done|].
  destruct l as [|q l]; [by apply split_on_none|].
  rewrite join_cons by done. simpl. rewrite split_on_app by done. f_equal. by apply IH.
Qed.

Lemma join_split sep t : join [sep] (split_on sep t) = t.
Proof.
  induction t as [|c t IH]; simpl; [done|]. destruct (split_on_cons sep t) as (p & r & E).
  case_decide; subst.
  - rewrite join_cons by (by rewrite E). simpl. by rewrite IH.
  - rewrite E in *. destruct r; simpl in *; by rewrite IH.
Qed.

Lemma split_on_pieces sep t : Forall (fun p => sep ∉ p) (split_on sep t).
Proof.
  induction t as [|c t IH]; simpl; [repeat constructor; apply not_elem_of_nil|].
  case_decide; [by constructor; [apply not_elem_of_nil|]|].
  destruct (split_on sep t).
  { repeat constructor. apply not_elem_of_cons. split; [done|apply not_elem_of_nil]. }
  apply Forall_cons in IH as [Hp Hr]. constructor; [|done]. by apply not_elem_of_cons.
Qed.

Lemma split_once_Some sep t a b :
  split_once sep t = Some (a, b) <-> t = a ++ sep :: b /\ sep ∉ a.
Proof.
  revert a b. induction t as [|c t IH]; intros a b; simpl.
  { split; [done|]. intros [E _]. by destruct a. }
  case_decide; subst.
  - split; [intros [= <- <-]; split; [done|apply not_elem_of_nil]|].
    intros [E Ha]. destruct a; simpl in E; simplify_eq; [done|].
    by destruct Ha; left.
  - rewrite fmap_Some. split.
    + intros ([a' b'] & E & [= -> ->]). apply IH in E as [-> Hn].
      split; [done|]. by apply not_elem_of_cons.
    + intros [E Ha]. destruct a as [|c' a]; simpl in E; simplify_eq.
      apply not_elem_of_cons in Ha as [? Ha]. exists (a, b). split; [|done]. by apply IH.
Qed.

Lemma split_once_None sep t : split_once sep t = None <-> sep ∉ t.
Proof.
  induction t as [|c t IH]; simpl; [split; [intros _; apply not_elem_of_nil|done]|].
  case_decide; subst; [split; [done|]; intros []; left|].
  rewrite fmap_None, IH, not_elem_of_cons. naive_solver.
Qed.

Lemma rsplit_once_None sep t : rsplit_once sep t = None <-> sep ∉ t.
Proof. unfold rsplit_once. rewrite fmap_None, split_once_None. by rewrite elem_of_reverse. Qed.

Lemma rsplit_once_app sep a b : sep ∉ b -> rsplit_once sep (a ++ sep :: b) = Some (a, b).
Proof.
  intros Hb. unfold rsplit_once. assert (split_once sep (reverse (a ++ sep :: b)) = Some (reverse b, reverse a)) as ->; [|cbn; by rewrite !reverse_involutive].
  apply split_once_Some. rewrite reverse_app, reverse_cons, <- app_assoc. split; [done|]. by rewrite elem_of_reverse.
Qed.

Lemma rsplit_once_Some sep t a b : rsplit_once sep t = Some (a, b) -> t = a ++ sep :: b /\ sep ∉ b.
Proof.
  unfold rsplit_once. intros ([x y]&[Hs Hn]%split_once_Some&[= -> ->])%fmap_Some. apply (f_equal reverse) in Hs. rewrite reverse_involutive in Hs.
  rewrite elem_of_reverse. split; [|done]. rewrite Hs, reverse_app, reverse_cons, <- app_assoc. done.
Qed.

Lemma concat_split_inclusive sep t : mjoin (split_inclusive sep t) = t.
Proof.
  induction t as [|c t IH]; simpl; [done|]. case_decide; simpl; [by rewrite IH|].
  destruct (split_inclusive sep t); simpl in *; by rewrite <- ?IH.
Qed.

(** ** Replacing lemmas *)
Lemma starts_with_one c d t : starts_with [c] (d :: t) = bool_decide (c = d).
Proof.
  unfold starts_with. simpl. case_decide; subst.
  - by rewrite !bool_decide_eq_true_2 by eauto.
  - rewrite !bool_decide_eq_false_2; [done|done|]. by intros [].
Qed.

(** Replacing one character substitutes it letter by letter. *)
Lemma replace_char c to t :
  replace [c] to t = mjoin ((fun d => if decide (c = d) then to else [d]) <$> t).
Proof.
  unfold replace. induction t as [|d t IH]; [done|]. cbn [replace_from].
  rewrite starts_with_one, fmap_cons. simpl. rewrite IH.
  case_decide; [by rewrite bool_decide_eq_true_2|by rewrite bool_decide_eq_false_2].
Qed.

Lemma replace_from_skip pat to k a t :
  length a = k -> replace_from pat to k (a ++ t) = replace_from pat to 0 t.
Proof. revert k. induction a as [|c a IH]; intros [|k] E; simplify_eq/=; [done|]. by apply IH. Qed.

Lemma replace_match pat to t :
  pat <> [] -> replace pat to (pat ++ t) = to ++ replace pat to t.
Proof.
  intros Hp. unfold replace. destruct pat as [|p pat]; [done|].
  cbn [app replace_from]. rewrite (proj2 (starts_with_true (p :: pat) _)) by eauto.
  f_equal. apply replace_from_skip. simpl. lia.
Qed.

Lemma replace_step pat to c t :
  starts_with pat (c :: t) = false -> replace pat to (c :: t) = c :: replace pat to t.
Proof. unfold replace. cbn [replace_from]. by intros ->. Qed.

(** ** [str::trim]

    The characters of Unicode's White_Space property, in UTF-8. *)
Definition octets (l : list N) : text := ascii_of_N <$> l.

Definition white_spaces : list text :=
  octets <$>
  [[9]; [10]; [11]; [12]; [13]; [32]; [194; 133]; [194; 160]; [225; 154; 128];
   [226; 128; 128]; [226; 128; 129]; [226; 128; 130]; [226; 128; 131]; [226; 128; 132];
   [226; 128; 133]; [226; 128; 134]; [226; 128; 135]; [226; 128; 136]; [226; 128; 137];
   [226; 128; 138]; [226; 128; 168]; [226; 128; 169]; [226; 128; 175]; [226; 129; 159];
   [227; 128; 128]]%N.

Definition first_Some {A B} (f : A -> option B) (l : list A) : option B :=
  head (omap f l).

Definition strip_space (t : text) : option text := first_Some (fun sp => strip_prefix sp t) white_spaces.
Definition strip_space_end (t : text) : option text := first_Some (fun sp => strip_suffix sp t) white_spaces.

(** [strip] until it no longer applies; a text of [n] octets has at most [n] spaces. *)
Fixpoint strip_all (strip : text -> option text) (n : nat) (t : text) : text :=
  match n with
  | O => t
  | S n => match strip t with Some t => strip_all strip n t | None => t end
  end.

Definition trim_start (t : text) : text := strip_all strip_space (length t) t.
Definition trim_end (t : text) : text := strip_all strip_space_end (length t) t.
Definition trim (t : text) : text := trim_end (trim_start t).

Lemma first_Some_None {A B} (f : A -> option B) l : first_Some f l = None <-> Forall (fun a => f a = None) l.
Proof.
  unfold first_Some. induction l as [|a l IH]; simpl; [by split; intros; [constructor|]|].
  rewrite Forall_cons. destruct (f a) eqn:E; simpl; naive_solver.
Qed.

Lemma strip_all_id strip n t : strip t = None -> strip_all strip n t = t.
Proof. destruct n; simpl; [done|]. by intros ->. Qed.

Lemma trim_id t : strip_space t = None -> strip_space_end t = None -> trim t = t.
Proof. intros H1 H2. unfold trim, trim_start. rewrite strip_all_id by done. by apply strip_all_id. Qed.

Lemma white_spaces_nonempty : Forall (fun sp => sp <> []) white_spaces.
Proof. repeat constructor; discriminate. Qed.

Lemma strip_space_shorter t t' : strip_space t = Some t' -> length t' < length t.
Proof.
  unfold strip_space, first_Some. intros Hh%head_Some_elem_of%list_elem_of_omap.
  destruct Hh as (sp & Hsp & E%strip_prefix_Some). subst t. rewrite length_app.
  pose proof white_spaces_nonempty as Hf. rewrite Forall_forall in Hf.
  specialize (Hf _ Hsp). destruct sp; [done|]. simpl. lia.
Qed.

(** After [trim_start] no white space leads. *)
Lemma trim_start_done t : strip_space (trim_start t) = None.
Proof.
  unfold trim_start. remember (length t) as n eqn:Hn. assert (length t <= n) as Hle by lia.
  clear Hn. revert t Hle. induction n as [|n IH]; intros t Hle; simpl.
  - by destruct t; simpl in Hle; [vm_compute|lia].
  - destruct (strip_space t) as [t'|] eqn:E; [|done]. apply IH.
    apply strip_space_shorter in E. lia.
Qed.

(** A text is blank ([trim] leaves nothing) when it is made of white space only. *)
Definition is_blank (t : text) : bool := bool_decide (trim t = []).

(** ** Lines kept with their ends *)
Lemma split_inclusive_app sep a t :
  sep ∉ a -> split_inclusive sep (a ++ sep :: t) = (a ++ [sep]) :: split_inclusive sep t.
Proof.
  induction a as [|c a IH]; simpl; intros Ha; [by rewrite decide_True|].
  apply not_elem_of_cons in Ha as [Hc Ha]. rewrite decide_False by done. by rewrite IH.
Qed.

Lemma split_inclusive_none sep t : sep ∉ t -> t <> [] -> split_inclusive sep t = [t].
Proof.
  induction t as [|c t IH]; simpl; [done|]. intros [Hc Ht]%not_elem_of_cons _.
  rewrite decide_False by done. destruct t; [done|]. by rewrite IH.
Qed.

(** Induction over the lines of a text. *)
Lemma lines_ind (sep : ascii) (P : text -> Prop) :
  P [] -> (forall t, t <> [] -> sep ∉ t -> P t) ->
  (forall a t, sep ∉ a -> P t -> P (a ++ sep :: t)) -> forall t, P t.
Proof.
  intros Hnil Hlast Hline t. remember (length t) as n eqn:Hn. assert (length t <= n) as Hle by lia.
  clear Hn. revert t Hle. induction n as [|n IH]; intros t Hle.
  { by destruct t; simpl in Hle; [|lia]. }
  destruct (split_once sep t) as [[a b]|] eqn:E.
  - apply split_once_Some in E as [-> Ha]. apply Hline; [done|]. apply IH.
    rewrite length_app in Hle. simpl in Hle. lia.
  - apply split_once_None in E. destruct t; [done|]. by apply Hlast.
Qed.

Lemma trim_start_matches_spec P t :
  exists pre, t = pre ++ trim_start_matches P t /\ Forall (fun c => P c = true) pre /\
    forall c, head (trim_start_matches P t) = Some c -> P c = false.
Proof.
  induction t as [|c t (pre & E & Hp & Hh)]; simpl; [by exists []|].
  destruct (P c) eqn:Ec.
  - exists (c :: pre). split; [by simpl; f_equal|]. split; [by constructor|done].
  - exists []. split; [done|]. split; [done|]. by intros ? [= <-].
Qed.

Lemma trim_end_matches_spec P t :
  exists suf, t = trim_end_matches P t ++ suf /\ Forall (fun c => P c = true) suf /\
    forall c, last (trim_end_matches P t) = Some c -> P c = false.
Proof.
  unfold trim_end_matches. destruct (trim_start_matches_spec P (reverse t)) as (pre & E & Hp & Hh).
  exists (reverse pre). split; [|split].
  - rewrite <- reverse_app, <- E. by rewrite reverse_involutive.
  - by apply Forall_reverse.
  - intros c Hc. apply Hh. by rewrite last_reverse in Hc.
Qed.

(** A character that neither starts nor ends a white space. *)
Definition solid (c : ascii) : bool :=
  forallb (fun sp => negb (bool_decide (head sp = Some c)) && negb (bool_decide (last sp = Some c)))
    white_spaces.

Lemma solid_spec c sp :
  solid c = true -> sp ∈ white_spaces -> head sp <> Some c /\ last sp <> Some c /\ sp <> [].
Proof.
  unfold solid. rewrite forallb_forall. intros Hs Hin. specialize (Hs sp (proj1 (list_elem_of_In _ _) Hin)).
  apply andb_true_iff in Hs as [H1 H2]. apply negb_true_iff, bool_decide_eq_false in H1, H2.
  split; [done|]. split; [done|]. pose proof white_spaces_nonempty as Hn.
  rewrite Forall_forall in Hn. by apply Hn.
Qed.

Lemma solid_start c t : solid c = true -> strip_space (c :: t) = None.
Proof.
  intros Hc. apply first_Some_None, Forall_forall. intros sp Hsp.
  destruct (solid_spec c sp Hc Hsp) as (Hh & _ & Hn). destruct sp as [|x sp]; [done|].
  simpl. rewrite decide_False; [done|]. by intros ->.
Qed.

Lemma solid_end c t : solid c = true -> strip_space_end (t ++ [c]) = None.
Proof.
  intros Hc. apply first_Some_None, Forall_forall. intros sp Hsp.
  destruct (solid_spec c sp Hc Hsp) as (_ & Hl & Hn). destruct (strip_suffix sp (t ++ [c])) eqn:E; [|done].
  apply strip_suffix_Some in E. destruct sp as [|x sp _] using rev_ind; [done|].
  rewrite app_assoc in E. apply app_inj_tail in E as [_ ->]. by rewrite last_snoc in Hl.
Qed.

Lemma first_Some_cons {A B} (f : A -> option B) a l :
  first_Some f (a :: l) = match f a with Some b => Some b | None => first_Some f l end.
Proof. unfold first_Some. simpl. by destruct (f a). Qed.

Lemma strip_suffix_one x c t :
  strip_suffix [x] (t ++ [c]) = if decide (x = c) then Some t else None.
Proof.
  unfold strip_suffix. rewrite reverse_snoc. simpl. case_decide; [|done].
  simpl. by rewrite reverse_involutive.
Qed.

(** ** Character boundaries

    An index is a boundary unless the octet there continues a UTF-8 character. *)
Definition is_continuation (c : ascii) : bool :=
  (128 <=? N_of_ascii c)%N && (N_of_ascii c <? 192)%N.

Definition is_char_boundary (t : text) (i : nat) : bool :=
  match t !! i with
  | Some c => (i =? 0)%nat || negb (is_continuation c)
  | None => (i =? length t)%nat
  end.

(** [str::split_at] panics off a boundary. *)
Definition split_at (t : text) (i : nat) : run (text * text) :=
  if is_char_boundary t i then Done (take i t, drop i t) else Panic.

(** The text from its first character in [P] on, and what is before it. *)
Fixpoint find_split (P : ascii -> bool) (t : text) : option (text * text) :=
  match t with
  | [] => None
  | c :: t' =>
      if P c then Some ([], t)
      else (fun '(a, b) => (c :: a, b)) <$> find_split P t'
  end.

Lemma split_at_ascii t i :
  Forall (fun c => is_ascii c = true) t -> i <= length t -> split_at t i = Done (take i t, drop i t).
Proof.
  intros Ht Hi. unfold split_at, is_char_boundary. destruct (t !! i) as [c|] eqn:E.
  - rewrite Forall_forall in Ht. apply list_elem_of_lookup_2, Ht in E. unfold is_ascii in E.
    unfold is_continuation. apply N.ltb_lt in E. rewrite (proj2 (N.leb_gt 128 _)) by done.
    simpl. by rewrite orb_true_r.
  - apply lookup_ge_None in E. by rewrite (proj2 (Nat.eqb_eq i (length t))) by lia.
Qed.
