(* ===== verification/Json.v ===== *)
(** JSON values: [serde_json::Value].

    A JSON object is a [BTreeMap] from member names to values (the [serde_json] map
    without the [preserve_order] feature); a number is its JSON literal. *)

From stdpp Require Import prelude strings.
From S2P Require Import Prelude BTree.

Unset Elimination Schemes.
Inductive Value : Type :=
| Null
| Bool (b : bool)
| Number (literal : text)
| String (s : text)
| Array (items : list Value)
| Object (map : btmap text Value).
Set Elimination Schemes.

Section value_ind.
Variable P : Value -> Prop.
Hypothesis Pnull : P Null.
Hypothesis Pbool : forall b, P (Bool b).
Hypothesis Pnumber : forall l, P (Number l).
Hypothesis Pstring : forall s, P (String s).
Hypothesis Parray : forall l, Forall P l -> P (Array l).
Hypothesis Pobject : forall m, Forall (fun kv => P kv.2) m -> P (Object m).

Fixpoint Value_ind (v : Value) : P v :=
  match v with
  | Null => Pnull
  | Bool b => Pbool b
  | Number l => Pnumber l
  | String s => Pstring s
  | Array l =>
      Parray l ((fix go (l : list Value) : Forall P l :=
        match l with
        | [] => Forall_nil_2 _
        | v :: l => Forall_cons_2 _ _ _ (Value_ind v) (go l)
        end) l)
  | Object m =>
      Pobject m ((fix go (m : btmap text Value) : Forall (fun kv => P kv.2) m :=
        match m with
        | [] => Forall_nil_2 _
        | kv :: m => Forall_cons_2 _ _ _ (Value_ind kv.2) (go m)
        end) m)
  end.
End value_ind.

#[export] Instance Value_eq_dec : EqDecision Value.
Proof.
  refine (fix go (x y : Value) : Decision (x = y) :=
    match x, y with
    | Null, Null => left eq_refl
    | Bool a, Bool b => cast_if (decide (a = b))
    | Number a, Number b => cast_if (decide (a = b))
    | String a, String b => cast_if (decide (a = b))
    | Array a, Array b => cast_if (@list_eq_dec _ go a b)
    | Object a, Object b =>
        cast_if (@list_eq_dec _ (@prod_eq_dec _ (list_eq_dec) _ go) a b)
    | _, _ => right _
    end); try (clear go; congruence).
Defined.

Definition is_null (v : Value) : bool := match v with Null => true | _ => false end.
Definition as_object (v : Value) : option (btmap text Value) :=
  match v with Object m => Some m | _ => None end.
Definition as_str (v : Value) : option text :=
  match v with String s => Some s | _ => None end.

(** Every object in the value has its members in key order. *)
Fixpoint value_ok (v : Value) : Prop :=
  match v with
  | Array l => (fix go (l : list Value) : Prop :=
      match l with [] => True | v :: l => value_ok v /\ go l end) l
  | Object m => bt_ok m /\ (fix go (m : btmap text Value) : Prop :=
      match m with [] => True | kv :: m => value_ok kv.2 /\ go m end) m
  | _ => True
  end.

Lemma value_ok_array l : value_ok (Array l) <-> Forall value_ok l.
Proof.
  cbn. induction l as [|v l IH]; [by split; [constructor|]|]. by rewrite Forall_cons, IH.
Qed.

Lemma value_ok_object m : value_ok (Object m) <-> bt_ok m /\ Forall (fun e => value_ok e.2) m.
Proof.
  cbn. apply and_iff_compat_l. induction m as [|e m IH]; [by split; [constructor|]|]. by rewrite Forall_cons, IH.
Qed.

Lemma value_ok_get m k v : value_ok (Object m) -> bt_get k m = Some v -> value_ok v.
Proof.
  intros [_ Hm]%value_ok_object Hk%bt_get_Some_elem. rewrite Forall_forall in Hm. by apply Hm in Hk.
Qed.
