(* ===== verification/Wire.v ===== *)
(** The JSON form of the protocol's structs: what serde's derived [Serialize] and
    [Deserialize] do for the attributes that the structs of jmap-proto carry.

    A [codec] is one type's pair of [to_value] and [from_value].  A struct is written as the
    object of its present fields and of its flattened extra members, and read field by
    field: an optional field that is missing or null is [None], a member that no field names
    goes to the extra members, and a member of the wrong shape refuses the value. *)

From Stdlib Require Import Ascii String.
From stdpp Require Import prelude strings.
From S2P Require Import Prelude BTree Text Strings Json.

Local Open Scope rust_scope.

(** [Value::get] of a member and [Value::as_u64]: an integer literal within 64 bits. *)
Definition value_get (v : Value) (key : text) : option Value :=
  match v with Object m => bt_get key m | _ => None end.

Definition as_u64 (v : Value) : option N :=
  match v with
  | Number literal => if forallb is_ascii_digit literal then parse_u64 literal else None
  | _ => None
  end.

Record codec (A : Type) := { enc : A -> Value; dec : Value -> option A }.
Arguments enc {A} c a : rename.
Arguments dec {A} c v : rename.

Definition str_codec : codec text := {| enc := String; dec := as_str |}.

Definition bool_codec : codec bool :=
  {| enc := Bool; dec := fun v => match v with Bool b => Some b | _ => None end |}.

Definition u64_codec : codec N := {| enc := fun n => Number (to_dec n); dec := as_u64 |}.

Definition vec_codec {A} (c : codec A) : codec (list A) :=
  {| enc := fun l => Array (enc c <$> l);
     dec := fun v => match v with Array l => mapM (dec c) l | _ => None end |}.

(** A [BTreeMap] with string keys. *)
Definition map_codec {A} (c : codec A) : codec (btmap text A) :=
  {| enc := fun m => Object (prod_map id (enc c) <$> m);
     dec := fun v => match v with
       | Object m => mapM (fun e => (fun a => (e.1, a)) <$> dec c e.2) m
       | _ => None
       end |}.

(** ** Structs *)
Definition opt_enc {A} (c : codec A) (o : option A) : option Value := enc c <$> o.

(** An optional field: [#[serde(default)]], and null is [None]. *)
Definition read_opt {A} (c : codec A) (name : text) (m : btmap text Value) : option (option A) :=
  match bt_get name m with
  | None | Some Null => Some None
  | Some v => Some <$> dec c v
  end.

(** A required field. *)
Definition read_field {A} (c : codec A) (name : text) (m : btmap text Value) : option A :=
  let! v := bt_get name m in dec c v.

(** A field with a default value, [#[serde(default)]]. *)
Definition read_default {A} (c : codec A) (d : A) (name : text) (m : btmap text Value) : option A :=
  match bt_get name m with None => Some d | Some v => dec c v end.

(** The present fields, then the flattened members. *)
Definition object_of (fields : list (text * option Value)) (extra : btmap text Value) : btmap text Value :=
  bt_of_list (omap (fun f => (fun v => (f.1, v)) <$> f.2) fields ++ extra).

(** [#[serde(flatten)]]: the members that no field names. *)
Definition read_extra (names : list text) (m : btmap text Value) : btmap text Value :=
  filter (fun e => e.1 ∉ names) m.

(** ** Laws

    Writing then reading gives the value back, a value is not written as null, and the two
    directions agree on what is well formed. *)
Record codec_ok {A} (c : codec A) (ok : A -> Prop) : Prop := {
  enc_dec : forall a, ok a -> dec c (enc c a) = Some a;
  enc_nonnull : forall a, enc c a <> Null;
  enc_ok : forall a, ok a -> value_ok (enc c a);
  dec_ok : forall v a, value_ok v -> dec c v = Some a -> ok a;
}.

(** A map in key order, all of whose values satisfy [ok]. *)
Definition map_ok {A} (ok : A -> Prop) (m : btmap text A) : Prop := bt_ok m /\ Forall (fun e => ok e.2) m.

Lemma str_codec_ok : codec_ok str_codec (fun _ => True).
Proof. by split. Qed.

Lemma bool_codec_ok : codec_ok bool_codec (fun _ => True).
Proof. by split. Qed.

Lemma u64_codec_ok : codec_ok u64_codec (fun n => (n <= u64_max)%N).
Proof.
  split; [|done|done|].
  - intros n Hn. cbn. replace (forallb is_ascii_digit (to_dec n)) with true; [by apply parse_u64_to_dec|].
    symmetry. apply forallb_forall. intros c Hc%list_elem_of_In. pose proof (to_dec_digits n) as Hd.
    rewrite Forall_forall in Hd. by apply Hd in Hc.
  - intros [| |literal| | |] n _; try done. cbn. destruct (forallb _ _); [|done]. apply parse_uint_max.
Qed.

Lemma mapM_enc {A B} (f : A -> B) (g : B -> option A) l :
  Forall (fun a => g (f a) = Some a) l -> mapM g (f <$> l) = Some l.
Proof. induction 1 as [|a l Ha _ IH]; [done|]. rewrite fmap_cons. cbn [mapM]. by rewrite Ha; cbn; rewrite IH. Qed.

Lemma vec_codec_ok {A} (c : codec A) ok : codec_ok c ok -> codec_ok (vec_codec c) (Forall ok).
Proof.
  intros [He _ Ho Hd]. split; [|done| |].
  - intros l Hl. cbn. apply mapM_enc. eapply Forall_impl; [exact Hl|]. auto.
  - intros l Hl. cbn [enc vec_codec]. apply value_ok_array, Forall_fmap. eapply Forall_impl; [exact Hl|]. auto.
  - intros [| | | |l|] k; try done. rewrite value_ok_array. intros Hl. cbn. intros Hk%mapM_Some. revert Hl.
    induction Hk as [|v a l k Ha _ IH]; [constructor|]. rewrite Forall_cons. intros [Hv Hl]. constructor; [by eapply Hd|auto].
Qed.

Lemma map_dec_keys {A} (c : codec A) (m : btmap text Value) (k : btmap text A) :
  Forall2 (fun e e' => (fun a => (e.1, a)) <$> dec c e.2 = Some e') m k -> k.*1 = m.*1.
Proof.
  induction 1 as [|[x v] [y a] m k Ha _ IH]; [done|]. cbn in *. apply fmap_Some in Ha as (?&_&[= -> _]). by f_equal.
Qed.

Lemma map_codec_ok {A} (c : codec A) ok : codec_ok c ok -> codec_ok (map_codec c) (map_ok ok).
Proof.
  intros [He _ Ho Hd]. split; [|done| |].
  - intros m [_ Hm]. cbn. apply mapM_enc. eapply Forall_impl; [exact Hm|]. intros [k a] Ha. cbn in *. by rewrite He.
  - intros m [Hk Hm]. cbn [enc map_codec]. apply value_ok_object. split.
    + unfold bt_ok. rewrite <- list_fmap_compose. exact Hk.
    + apply Forall_fmap. eapply Forall_impl; [exact Hm|]. intros e. apply Ho.
  - intros [| | | | |m] k; try done. rewrite value_ok_object. cbn. intros [Hm Hv] Hk%mapM_Some.
    split; [unfold bt_ok; by rewrite (map_dec_keys c _ _ Hk)|]. clear Hm. revert Hv.
    induction Hk as [|[x v] [y a] m k Ha _ IH]; [constructor|]. rewrite Forall_cons. cbn in *. intros [Hx Hv].
    apply fmap_Some in Ha as (?&Ha&[= -> ->]). constructor; [by eapply Hd|auto].
Qed.

Lemma read_opt_enc {A} (c : codec A) ok name m (o : option A) :
  codec_ok c ok -> (forall a, o = Some a -> ok a) -> bt_get name m = opt_enc c o -> read_opt c name m = Some o.
Proof.
  intros [He Hn _ _] Ho Hm. unfold read_opt. rewrite Hm. destruct o as [a|]; [|done]. cbn [opt_enc fmap option_fmap option_map].
  specialize (Hn a). specialize (He a (Ho _ eq_refl)). destruct (enc c a); [done|..]; by rewrite He.
Qed.

Lemma bt_get_app {V} (l1 l2 : btmap text V) k :
  bt_get k (l1 ++ l2) = match bt_get k l1 with Some v => Some v | None => bt_get k l2 end.
Proof. induction l1 as [|[k' v] l1 IH]; [done|]. cbn [app bt_get]. by case_decide. Qed.

Lemma bt_get_of_list_nodup {V} (l : btmap text V) k : NoDup l.*1 -> bt_get k (bt_of_list l) = bt_get k l.
Proof.
  intros Hn. apply option_eq. intros v. rewrite bt_get_of_list by done.
  split; [by apply nodup_bt_get|apply bt_get_Some_elem].
Qed.

Section object.
Variable fields : list (text * option Value).
Variable extra : btmap text Value.
Hypothesis Hfields : NoDup fields.*1.
Hypothesis Hextra : bt_ok extra.
Hypothesis Hapart : Forall (fun e => e.1 ∉ fields.*1) extra.

Let present := omap (fun f : text * option Value => (fun v => (f.1, v)) <$> f.2) fields.

Lemma elem_of_present k v : (k, v) ∈ present <-> (k, Some v) ∈ fields.
Proof.
  unfold present. rewrite list_elem_of_omap. split.
  - intros ([k' [v'|]]&Hin&E); cbn in E; simplify_eq. done.
  - intros Hin. by exists (k, Some v).
Qed.

Lemma present_keys : present.*1 `sublist_of` fields.*1.
Proof.
  unfold present. clear. induction fields as [|[k [v|]] l IH]; cbn; [done|by constructor|by constructor].
Qed.

Lemma present_nodup : NoDup (present ++ extra).*1.
Proof using Hfields Hextra Hapart.
  rewrite fmap_app. apply NoDup_app. split_and!.
  - eapply sublist_NoDup; [exact Hfields|apply present_keys].
  - intros k Hp (e&->&He)%list_elem_of_fmap. rewrite Forall_forall in Hapart. apply (Hapart e He).
    eapply elem_of_submseteq; [exact Hp|]. apply sublist_submseteq, present_keys.
  - by apply bt_ok_nodup.
Qed.

Lemma object_of_ok : bt_ok (object_of fields extra).
Proof. apply bt_of_list_ok. Qed.

Lemma object_get name o : bt_get name fields = Some o -> bt_get name (object_of fields extra) = o.
Proof using Hfields Hextra Hapart.
  intros Hf. pose proof Hf as Hf'. apply bt_get_Some_elem in Hf. unfold object_of. fold present.
  rewrite bt_get_of_list_nodup, bt_get_app by apply present_nodup.
  assert (bt_get name extra = None) as ->.
  { apply bt_get_None_elem. intros (e&->&He)%list_elem_of_fmap. rewrite Forall_forall in Hapart. apply (Hapart e He).
    by apply (list_elem_of_fmap_2 fst) in Hf. }
  destruct (bt_get name present) as [v|] eqn:E.
  - apply bt_get_Some_elem, elem_of_present, (nodup_bt_get _ _ _ Hfields) in E. congruence.
  - destruct o as [v|]; [|done]. apply bt_get_None_elem in E. destruct E. apply elem_of_present in Hf.
    by apply (list_elem_of_fmap_2 fst) in Hf.
Qed.

Lemma object_extra : read_extra fields.*1 (object_of fields extra) = extra.
Proof using Hfields Hextra Hapart.
  apply bt_ext; [apply bt_filter_ok, object_of_ok|done|]. intros k. apply option_eq. intros v.
  rewrite <- !bt_elem_get by (done || apply bt_filter_ok, object_of_ok). unfold read_extra.
  rewrite list_elem_of_filter, bt_elem_get by apply object_of_ok. unfold object_of. fold present.
  rewrite bt_get_of_list by apply present_nodup. cbn [fst]. rewrite elem_of_app. split.
  - intros [Hk [Hp|He]]; [|done]. apply elem_of_present, (list_elem_of_fmap_2 fst) in Hp. done.
  - intros He. split; [|by right]. rewrite Forall_forall in Hapart. by apply (Hapart (k, v)).
Qed.
End object.

Lemma read_object {A} (c : codec A) ok name fields extra (o : option A) :
  codec_ok c ok -> NoDup fields.*1 -> bt_ok extra -> Forall (fun e => e.1 ∉ fields.*1) extra ->
  (name, opt_enc c o) ∈ fields -> (forall a, o = Some a -> ok a) ->
  read_opt c name (object_of fields extra) = Some o.
Proof.
  intros Hc Hf He Ha Hg Ho. eapply read_opt_enc; [exact Hc|exact Ho|]. apply object_get; [done..|]. by apply nodup_bt_get.
Qed.

Lemma bind_read {A B} (o : option A) (f : A -> option B) a r : o = Some a -> f a = r -> (let! x := o in f x) = r.
Proof. by intros -> <-. Qed.

(** Reading a struct after one of its members was changed. *)
Lemma read_opt_agree {A} (c : codec A) name k m m' :
  (forall k', k' <> k -> bt_get k' m' = bt_get k' m) -> name <> k -> read_opt c name m' = read_opt c name m.
Proof. intros Hm Hne. unfold read_opt. by rewrite Hm. Qed.

Lemma read_extra_agree names k m m' :
  bt_ok m -> bt_ok m' -> (forall k', k' <> k -> bt_get k' m' = bt_get k' m) -> k ∈ names ->
  read_extra names m' = read_extra names m.
Proof.
  intros Hm Hm' Hk Hin. unfold read_extra. apply bt_ext; [by apply bt_filter_ok..|].
  intros k'. apply option_eq. intros v. rewrite <- !bt_elem_get by by apply bt_filter_ok.
  rewrite !list_elem_of_filter, !bt_elem_get by done. cbn [fst].
  destruct (decide (k' = k)) as [->|]; [naive_solver|]. by rewrite Hk.
Qed.

(** ** Well-formed structs *)
Lemma read_opt_ok {A} (c : codec A) ok name m o :
  codec_ok c ok -> value_ok (Object m) -> read_opt c name m = Some o -> forall a, o = Some a -> ok a.
Proof.
  intros Hc Hm Hr a ->. unfold read_opt in Hr. destruct (bt_get name m) as [v|] eqn:E; [|done].
  apply value_ok_get in E; [|done]. destruct v; try done; apply fmap_Some in Hr as (?&Hd&[= ->]); by eapply dec_ok.
Qed.

(** Flattened members are in key order and name no field. *)
Definition extra_ok (names : list text) (extra : btmap text Value) : Prop :=
  bt_ok extra /\ Forall (fun e => e.1 ∉ names) extra /\ Forall (fun e => value_ok e.2) extra.

Lemma read_extra_ok names m : value_ok (Object m) -> extra_ok names (read_extra names m).
Proof.
  intros [Hm Hv]%value_ok_object. split_and!; [by apply bt_filter_ok| |].
  - apply Forall_forall. by intros e [He _]%list_elem_of_filter.
  - rewrite Forall_forall in *. intros e [_ He]%list_elem_of_filter. auto.
Qed.

Definition field_ok (f : text * option Value) : Prop := forall v, f.2 = Some v -> value_ok v.

Lemma opt_enc_ok {A} (c : codec A) ok name o :
  codec_ok c ok -> (forall a, o = Some a -> ok a) -> field_ok (name, opt_enc c o).
Proof. intros Hc Ho v. destruct o as [a|]; [|done]. intros [= <-]. eapply enc_ok; [exact Hc|auto]. Qed.

Lemma object_of_value_ok fields extra :
  Forall field_ok fields -> Forall (fun e => value_ok e.2) extra -> value_ok (Object (object_of fields extra)).
Proof.
  rewrite !Forall_forall. intros Hf He. apply value_ok_object. split; [apply bt_of_list_ok|]. apply Forall_forall.
  intros e [([name o]&Hin&Hv)%list_elem_of_omap|Hin]%elem_of_bt_of_list%elem_of_app; [|auto].
  cbn in Hv. apply fmap_Some in Hv as (v&->&->). by apply (Hf _ Hin).
Qed.

(** Reading a struct of which only some members are left. *)
Lemma bt_get_filter_key {V} (P : text * V -> Prop) `{!forall e, Decision (P e)} (m : btmap text V) k :
  (forall v, P (k, v)) -> bt_get k (filter P m) = bt_get k m.
Proof.
  intros Hk. induction m as [|[k' v] m IH]; [done|]. rewrite filter_cons. case_decide as Hp; cbn.
  - by rewrite IH.
  - rewrite IH. case_decide; [|done]. subst. by destruct Hp.
Qed.

Lemma bt_get_filter_none {V} (P : text * V -> Prop) `{!forall e, Decision (P e)} (m : btmap text V) k :
  (forall v, ~ P (k, v)) -> bt_get k (filter P m) = None.
Proof.
  intros Hk. induction m as [|[k' v] m IH]; [done|]. rewrite filter_cons. case_decide as Hp; cbn; [|done].
  rewrite IH. case_decide; [|done]. subst. by destruct (Hk v).
Qed.

Lemma read_opt_filter {A} (c : codec A) name (P : text * Value -> Prop) `{!forall e, Decision (P e)} m :
  (forall v, P (name, v)) -> read_opt c name (filter P m) = read_opt c name m.
Proof. intros Hp. unfold read_opt. by rewrite bt_get_filter_key. Qed.

(** A filter on the names alone. *)
Definition by_name (P : text * Value -> Prop) : Prop := forall name v v', P (name, v) -> P (name, v').

Lemma read_opt_filtered {A} (c : codec A) name (P : text * Value -> Prop) `{!forall e, Decision (P e)} m o :
  by_name P -> read_opt c name m = Some o -> exists o', read_opt c name (filter P m) = Some o'.
Proof.
  intros HP Ho. destruct (decide (P (name, Null))) as [Hn|Hn].
  - exists o. rewrite read_opt_filter; [done|]. intros v. by eapply HP.
  - exists None. unfold read_opt. rewrite bt_get_filter_none; [done|]. intros v Hv. apply Hn. by eapply HP.
Qed.

(** A struct without flattened members is also read from an array, its fields in order. *)
Definition struct_members (names : list text) (v : Value) : option (btmap text Value) :=
  match v with
  | Object m => Some m
  | Array l => if bool_decide (length l <= length names) then Some (zip names l) else None
  | _ => None
  end.

Create HintDb codecs discriminated.
#[export] Hint Resolve str_codec_ok bool_codec_ok u64_codec_ok vec_codec_ok map_codec_ok : codecs.
