(* ===== verification/Proto.v ===== *)
(** The wire types of [jmap-proto] and the error type of [jmap-client]: ids and
    states (opaque strings), the [/changes], [/get] and [/set] arguments and
    responses, the request-, method- and set-level errors, mailboxes, and the errors of
    [jmap-mail-sync]. *)

From stdpp Require Import prelude strings.
From S2P Require Import Prelude BTree Json.

Abbreviation Id := text (only parsing).
Abbreviation State := text (only parsing).

(** ** Errors (jmap-proto/src/error.rs) *)
Record RequestError := {
  re_error_type : text;
  re_status : option N;
  re_detail : option text;
  re_extra : btmap text Value;
}.

Record MethodError := {
  me_error_type : text;
  me_description : option text;
  me_extra : btmap text Value;
}.

Definition method_error_new (error_type : text) : MethodError :=
  {| me_error_type := error_type; me_description := None; me_extra := [] |}.

Definition method_error_with_description (e : MethodError) (description : text) : MethodError :=
  {| me_error_type := me_error_type e;
     me_description := Some description;
     me_extra := me_extra e |}.

Record SetError := {
  se_error_type : text;
  se_description : option text;
  se_properties : option (list text);
  se_extra : btmap text Value;
}.

Definition set_error_new (error_type : text) : SetError :=
  {| se_error_type := error_type; se_description := None;
     se_properties := None; se_extra := [] |}.

Definition set_error_with_description (e : SetError) (description : text) : SetError :=
  {| se_error_type := se_error_type e;
     se_description := Some description;
     se_properties := se_properties e;
     se_extra := se_extra e |}.

Definition INVALID_ARGUMENTS : text := lit "invalidArguments".
Definition SERVER_FAIL : text := lit "serverFail".
Definition STATE_MISMATCH : text := lit "stateMismatch".
Definition CANNOT_CALCULATE_CHANGES : text := lit "cannotCalculateChanges".
Definition NOT_FOUND : text := lit "notFound".
Definition INVALID_PATCH : text := lit "invalidPatch".
Definition INVALID_PROPERTIES : text := lit "invalidProperties".

(** ** Methods (jmap-proto/src/methods.rs) *)
Record GetResponse (T : Type) := {
  gr_account_id : Id;
  gr_state : State;
  gr_list : list T;
  gr_not_found : list Id;
}.
Arguments gr_account_id {T}.
Arguments gr_state {T}.
Arguments gr_list {T}.
Arguments gr_not_found {T}.

Record SetRequest (T : Type) := {
  sr_account_id : Id;
  sr_if_in_state : option State;
  sr_create : option (btmap text T);
  sr_update : option (btmap Id Value);
  sr_destroy : option (list Id);
}.
Arguments sr_account_id {T}.
Arguments sr_if_in_state {T}.
Arguments sr_create {T}.
Arguments sr_update {T}.
Arguments sr_destroy {T}.
Arguments Build_SetRequest {T}.

Record SetResponse (T : Type) := {
  sp_account_id : Id;
  sp_old_state : option State;
  sp_new_state : option State;
  sp_created : option (btmap text T);
  sp_updated : option (btmap Id (option T));
  sp_destroyed : option (list Id);
  sp_not_created : option (btmap text SetError);
  sp_not_updated : option (btmap Id SetError);
  sp_not_destroyed : option (btmap Id SetError);
}.
Arguments sp_account_id {T}.
Arguments sp_old_state {T}.
Arguments sp_new_state {T}.
Arguments sp_created {T}.
Arguments sp_updated {T}.
Arguments sp_destroyed {T}.
Arguments sp_not_created {T}.
Arguments sp_not_updated {T}.
Arguments sp_not_destroyed {T}.
Arguments Build_SetResponse {T}.

Record ChangesRequest := {
  cr_account_id : Id;
  cr_since_state : State;
  cr_max_changes : option N;
}.

(** [ChangesRequest::new]: no limit on the number of changes. *)
Definition changes_request_new (account_id : Id) (since_state : State) : ChangesRequest :=
  {| cr_account_id := account_id; cr_since_state := since_state; cr_max_changes := None |}.

Record ChangesResponse := {
  cp_account_id : Id;
  cp_old_state : State;
  cp_new_state : State;
  cp_has_more_changes : bool;
  cp_created : list Id;
  cp_updated : list Id;
  cp_destroyed : list Id;
}.

(** ** Client errors (jmap-client/src/error.rs)

    The transport's and the JSON library's own errors are their messages. *)
Inductive Error : Type :=
| Transport (message : text)
| Http (status : N) (problem : option RequestError)
| Method (e : MethodError)
| Set_ (e : SetError)
| Json (message : text)
| Protocol (message : text)
| Cancelled
| TooLarge (size limit : N)
| RequestTooLarge (size limit : N)
| ResponseTooLarge (limit : N)
| OAuthTokenRefused (error : text) (description : option text)
| CrossOriginRedirect (requested followed : text) (rebase_note : option text)
| RedirectCredentialsWithheld (requested followed : text)
| ChunkBoundaryReferenceBroken (creation_id reason : text)
| SetPartiallyApplied (committed : SetResponse Value) (cause : Error)
| RateLimited (retry_after : option N) (method : option text) (problem : option RequestError).

(** ** Mailboxes (jmap-proto/src/mail.rs) *)
Record MailboxRights := {
  mr_may_read_items : option bool;
  mr_may_add_items : option bool;
  mr_may_remove_items : option bool;
  mr_may_set_seen : option bool;
  mr_may_set_keywords : option bool;
  mr_may_create_child : option bool;
  mr_may_rename : option bool;
  mr_may_delete : option bool;
  mr_may_submit : option bool;
  mr_may_share : option bool;
  mr_extra : btmap text Value;
}.

Record Mailbox := {
  mb_id : option Id;
  mb_name : text;
  mb_parent_id : option Id;
  mb_role : option text;
  mb_sort_order : option N;
  mb_total_emails : option N;
  mb_unread_emails : option N;
  mb_total_threads : option N;
  mb_unread_threads : option N;
  mb_is_subscribed : option bool;
  mb_share_with : option (btmap Id MailboxRights);
  mb_my_rights : option MailboxRights;
  mb_extra : btmap text Value;
}.

(** [Mailbox::new]. *)
Definition mailbox_new (name : text) : Mailbox :=
  {| mb_id := None; mb_name := name; mb_parent_id := None; mb_role := None; mb_sort_order := None;
     mb_total_emails := None; mb_unread_emails := None; mb_total_threads := None;
     mb_unread_threads := None; mb_is_subscribed := None; mb_share_with := None;
     mb_my_rights := None; mb_extra := [] |}.

(** ** Mail synchronisation errors (jmap-mail-sync/src/error.rs) *)
Inductive SyncError :=
| Client (e : Error)
| NoSuchMessage (id : Id)
| NoSuchFolder (id : Id)
| NoIdentity (address : text)
| NoOutgoingFolder.

(** [SyncError::protocol]. *)
Definition sync_protocol (message : text) : SyncError := Client (Protocol message).
