(* ===== verification/Email.v ===== *)
(** The Email object and its parts (jmap-proto/src/mail.rs): the structs with their JSON form
    as their serde attributes say. *)

From Stdlib Require Import Ascii String.
From stdpp Require Import prelude strings.
From S2P Require Import Prelude BTree Text Strings Json Wire Proto.

Local Open Scope rust_scope.

Abbreviation UtcDate := text (only parsing).

(** ** Parts without flattened members *)
Record EmailAddress := { ea_name : option text; ea_email : text }.

Definition address_to_value (a : EmailAddress) : Value :=
  Object (object_of [(lit "name", Some (default Null (String <$> ea_name a))); (lit "email", Some (String (ea_email a)))] []).

Definition address_from_value (v : Value) : option EmailAddress :=
  let! m := struct_members [lit "name"; lit "email"] v in
  let! name := read_opt str_codec (lit "name") m in
  let! email := read_field str_codec (lit "email") m in
  Some {| ea_name := name; ea_email := email |}.

Definition address_codec : codec EmailAddress := {| enc := address_to_value; dec := address_from_value |}.

Record EmailHeader := { eh_name : text; eh_value : text }.

Definition header_to_value (h : EmailHeader) : Value :=
  Object (object_of [(lit "name", Some (String (eh_name h))); (lit "value", Some (String (eh_value h)))] []).

Definition header_from_value (v : Value) : option EmailHeader :=
  let! m := struct_members [lit "name"; lit "value"] v in
  let! name := read_field str_codec (lit "name") m in
  let! value := read_field str_codec (lit "value") m in
  Some {| eh_name := name; eh_value := value |}.

Definition header_codec : codec EmailHeader := {| enc := header_to_value; dec := header_from_value |}.

Record EmailBodyValue := { bv_value : text; bv_is_encoding_problem : bool; bv_is_truncated : bool }.

Definition body_value_to_value (b : EmailBodyValue) : Value :=
  Object (object_of [(lit "value", Some (String (bv_value b)));
    (lit "isEncodingProblem", Some (Bool (bv_is_encoding_problem b)));
    (lit "isTruncated", Some (Bool (bv_is_truncated b)))] []).

Definition body_value_from_value (v : Value) : option EmailBodyValue :=
  let! m := struct_members [lit "value"; lit "isEncodingProblem"; lit "isTruncated"] v in
  let! value := read_field str_codec (lit "value") m in
  let! problem := read_default bool_codec false (lit "isEncodingProblem") m in
  let! truncated := read_default bool_codec false (lit "isTruncated") m in
  Some {| bv_value := value; bv_is_encoding_problem := problem; bv_is_truncated := truncated |}.

Definition body_value_codec : codec EmailBodyValue :=
  {| enc := body_value_to_value; dec := body_value_from_value |}.

(** ** Snooze details *)
Record SnoozeDetails := {
  sn_until : UtcDate;
  sn_move_to_mailbox_id : option Id;
  sn_set_keywords : option (btmap text bool);
  sn_extra : btmap text Value;
}.

Definition snooze_fields (s : SnoozeDetails) : list (text * option Value) :=
  [(lit "until", Some (String (sn_until s)));
   (lit "moveToMailboxId", opt_enc str_codec (sn_move_to_mailbox_id s));
   (lit "setKeywords", opt_enc (map_codec bool_codec) (sn_set_keywords s))].

Definition snooze_to_value (s : SnoozeDetails) : Value := Object (object_of (snooze_fields s) (sn_extra s)).

Definition snooze_from_value (v : Value) : option SnoozeDetails :=
  let! m := as_object v in
  let! until := read_field str_codec (lit "until") m in
  let! move := read_opt str_codec (lit "moveToMailboxId") m in
  let! keywords := read_opt (map_codec bool_codec) (lit "setKeywords") m in
  Some {| sn_until := until; sn_move_to_mailbox_id := move; sn_set_keywords := keywords;
          sn_extra := read_extra [lit "until"; lit "moveToMailboxId"; lit "setKeywords"] m |}.

Definition snooze_codec : codec SnoozeDetails := {| enc := snooze_to_value; dec := snooze_from_value |}.

(** ** Body parts: a tree *)
Record PartHead := {
  bp_part_id : option text;
  bp_blob_id : option Id;
  bp_size : option N;
  bp_name : option text;
  bp_content_type : option text;
  bp_charset : option text;
  bp_disposition : option text;
  bp_cid : option text;
  bp_location : option text;
  bp_headers : option (list EmailHeader);
  bp_smime_status : option text;
  bp_smime_errors : option (list text);
  bp_smime_verified_at : option UtcDate;
  bp_extra : btmap text Value;
}.

Unset Elimination Schemes.
Inductive EmailBodyPart := BodyPart (head : PartHead) (sub_parts : option (list EmailBodyPart)).
Set Elimination Schemes.

Definition part_names : list text :=
  [lit "partId"; lit "blobId"; lit "size"; lit "name"; lit "type"; lit "charset"; lit "disposition"; lit "cid";
   lit "location"; lit "subParts"; lit "headers"; lit "smimeStatus"; lit "smimeErrors"; lit "smimeVerifiedAt"].

Definition part_fields (h : PartHead) (sub_parts : option Value) : list (text * option Value) :=
  [(lit "partId", opt_enc str_codec (bp_part_id h));
   (lit "blobId", opt_enc str_codec (bp_blob_id h));
   (lit "size", opt_enc u64_codec (bp_size h));
   (lit "name", opt_enc str_codec (bp_name h));
   (lit "type", opt_enc str_codec (bp_content_type h));
   (lit "charset", opt_enc str_codec (bp_charset h));
   (lit "disposition", opt_enc str_codec (bp_disposition h));
   (lit "cid", opt_enc str_codec (bp_cid h));
   (lit "location", opt_enc str_codec (bp_location h));
   (lit "subParts", sub_parts);
   (lit "headers", opt_enc (vec_codec header_codec) (bp_headers h));
   (lit "smimeStatus", opt_enc str_codec (bp_smime_status h));
   (lit "smimeErrors", opt_enc (vec_codec str_codec) (bp_smime_errors h));
   (lit "smimeVerifiedAt", opt_enc str_codec (bp_smime_verified_at h))].

Fixpoint part_to_value (p : EmailBodyPart) : Value :=
  let '(BodyPart h sub_parts) := p in
  let sub_parts := match sub_parts with Some l => Some (Array (map part_to_value l)) | None => None end in
  Object (object_of (part_fields h sub_parts) (bp_extra h)).

Definition part_head (m : btmap text Value) : option PartHead :=
  let! part_id := read_opt str_codec (lit "partId") m in
  let! blob_id := read_opt str_codec (lit "blobId") m in
  let! size := read_opt u64_codec (lit "size") m in
  let! name := read_opt str_codec (lit "name") m in
  let! content_type := read_opt str_codec (lit "type") m in
  let! charset := read_opt str_codec (lit "charset") m in
  let! disposition := read_opt str_codec (lit "disposition") m in
  let! cid := read_opt str_codec (lit "cid") m in
  let! location := read_opt str_codec (lit "location") m in
  let! headers := read_opt (vec_codec header_codec) (lit "headers") m in
  let! status := read_opt str_codec (lit "smimeStatus") m in
  let! errors := read_opt (vec_codec str_codec) (lit "smimeErrors") m in
  let! verified := read_opt str_codec (lit "smimeVerifiedAt") m in
  Some {| bp_part_id := part_id; bp_blob_id := blob_id; bp_size := size; bp_name := name;
          bp_content_type := content_type; bp_charset := charset; bp_disposition := disposition; bp_cid := cid;
          bp_location := location; bp_headers := headers; bp_smime_status := status; bp_smime_errors := errors;
          bp_smime_verified_at := verified; bp_extra := read_extra part_names m |}.

(** The recursion goes through the member of the object that holds the sub-parts. *)
Fixpoint part_from_value (v : Value) : option EmailBodyPart :=
  match v with
  | Object m =>
      let parts := fix parts (l : list Value) : option (list EmailBodyPart) :=
        match l with
        | [] => Some []
        | v :: l =>
            match part_from_value v, parts l with
            | Some p, Some ps => Some (p :: ps)
            | _, _ => None
            end
        end in
      let sub_parts := (fix get (m' : list (text * Value)) : option (option (list EmailBodyPart)) :=
        match m' with
        | [] => Some None
        | (k, w) :: m' =>
            if decide (lit "subParts" = k) then
              match w with
              | Null => Some None
              | Array l => match parts l with Some ps => Some (Some ps) | None => None end
              | _ => None
              end
            else get m'
        end) m in
      match part_head m, sub_parts with
      | Some h, Some sub_parts => Some (BodyPart h sub_parts)
      | _, _ => None
      end
  | _ => None
  end.

Definition part_codec : codec EmailBodyPart := {| enc := part_to_value; dec := part_from_value |}.

(** ** The message *)
Record Email := {
  em_id : option Id;
  em_blob_id : option Id;
  em_thread_id : option Id;
  em_mailbox_ids : option (btmap Id bool);
  em_keywords : option (btmap text bool);
  em_snoozed : option SnoozeDetails;
  em_size : option N;
  em_received_at : option UtcDate;
  em_message_id : option (list text);
  em_in_reply_to : option (list text);
  em_references : option (list text);
  em_sender : option (list EmailAddress);
  em_from : option (list EmailAddress);
  em_to : option (list EmailAddress);
  em_cc : option (list EmailAddress);
  em_bcc : option (list EmailAddress);
  em_reply_to : option (list EmailAddress);
  em_subject : option text;
  em_sent_at : option text;
  em_has_attachment : option bool;
  em_preview : option text;
  em_body_structure : option EmailBodyPart;
  em_body_values : option (btmap text EmailBodyValue);
  em_text_body : option (list EmailBodyPart);
  em_html_body : option (list EmailBodyPart);
  em_headers : option (list EmailHeader);
  em_attachments : option (list EmailBodyPart);
  em_smime_status : option text;
  em_smime_errors : option (list text);
  em_smime_verified_at : option UtcDate;
  em_extra : btmap text Value;
}.

Definition email_default : Email :=
  {| em_id := None; em_blob_id := None; em_thread_id := None; em_mailbox_ids := None; em_keywords := None;
     em_snoozed := None; em_size := None; em_received_at := None; em_message_id := None; em_in_reply_to := None;
     em_references := None; em_sender := None; em_from := None; em_to := None; em_cc := None; em_bcc := None;
     em_reply_to := None; em_subject := None; em_sent_at := None; em_has_attachment := None; em_preview := None;
     em_body_structure := None; em_body_values := None; em_text_body := None; em_html_body := None;
     em_headers := None; em_attachments := None; em_smime_status := None; em_smime_errors := None;
     em_smime_verified_at := None; em_extra := [] |}.

Definition email_names : list text :=
  [lit "id"; lit "blobId"; lit "threadId"; lit "mailboxIds"; lit "keywords"; lit "snoozed"; lit "size";
   lit "receivedAt"; lit "messageId"; lit "inReplyTo"; lit "references"; lit "sender"; lit "from"; lit "to";
   lit "cc"; lit "bcc"; lit "replyTo"; lit "subject"; lit "sentAt"; lit "hasAttachment"; lit "preview";
   lit "bodyStructure"; lit "bodyValues"; lit "textBody"; lit "htmlBody"; lit "headers"; lit "attachments";
   lit "smimeStatus"; lit "smimeErrors"; lit "smimeVerifiedAt"].

Definition email_fields (e : Email) : list (text * option Value) :=
  [(lit "id", opt_enc str_codec (em_id e));
   (lit "blobId", opt_enc str_codec (em_blob_id e));
   (lit "threadId", opt_enc str_codec (em_thread_id e));
   (lit "mailboxIds", opt_enc (map_codec bool_codec) (em_mailbox_ids e));
   (lit "keywords", opt_enc (map_codec bool_codec) (em_keywords e));
   (lit "snoozed", opt_enc snooze_codec (em_snoozed e));
   (lit "size", opt_enc u64_codec (em_size e));
   (lit "receivedAt", opt_enc str_codec (em_received_at e));
   (lit "messageId", opt_enc (vec_codec str_codec) (em_message_id e));
   (lit "inReplyTo", opt_enc (vec_codec str_codec) (em_in_reply_to e));
   (lit "references", opt_enc (vec_codec str_codec) (em_references e));
   (lit "sender", opt_enc (vec_codec address_codec) (em_sender e));
   (lit "from", opt_enc (vec_codec address_codec) (em_from e));
   (lit "to", opt_enc (vec_codec address_codec) (em_to e));
   (lit "cc", opt_enc (vec_codec address_codec) (em_cc e));
   (lit "bcc", opt_enc (vec_codec address_codec) (em_bcc e));
   (lit "replyTo", opt_enc (vec_codec address_codec) (em_reply_to e));
   (lit "subject", opt_enc str_codec (em_subject e));
   (lit "sentAt", opt_enc str_codec (em_sent_at e));
   (lit "hasAttachment", opt_enc bool_codec (em_has_attachment e));
   (lit "preview", opt_enc str_codec (em_preview e));
   (lit "bodyStructure", opt_enc part_codec (em_body_structure e));
   (lit "bodyValues", opt_enc (map_codec body_value_codec) (em_body_values e));
   (lit "textBody", opt_enc (vec_codec part_codec) (em_text_body e));
   (lit "htmlBody", opt_enc (vec_codec part_codec) (em_html_body e));
   (lit "headers", opt_enc (vec_codec header_codec) (em_headers e));
   (lit "attachments", opt_enc (vec_codec part_codec) (em_attachments e));
   (lit "smimeStatus", opt_enc str_codec (em_smime_status e));
   (lit "smimeErrors", opt_enc (vec_codec str_codec) (em_smime_errors e));
   (lit "smimeVerifiedAt", opt_enc str_codec (em_smime_verified_at e))].

Definition email_to_value (e : Email) : Value := Object (object_of (email_fields e) (em_extra e)).

Definition email_from_value (v : Value) : option Email :=
  let! m := as_object v in
  let! id_ := read_opt str_codec (lit "id") m in
  let! blob_id_ := read_opt str_codec (lit "blobId") m in
  let! thread_id_ := read_opt str_codec (lit "threadId") m in
  let! mailbox_ids_ := read_opt (map_codec bool_codec) (lit "mailboxIds") m in
  let! keywords_ := read_opt (map_codec bool_codec) (lit "keywords") m in
  let! snoozed_ := read_opt snooze_codec (lit "snoozed") m in
  let! size_ := read_opt u64_codec (lit "size") m in
  let! received_at_ := read_opt str_codec (lit "receivedAt") m in
  let! message_id_ := read_opt (vec_codec str_codec) (lit "messageId") m in
  let! in_reply_to_ := read_opt (vec_codec str_codec) (lit "inReplyTo") m in
  let! references_ := read_opt (vec_codec str_codec) (lit "references") m in
  let! sender_ := read_opt (vec_codec address_codec) (lit "sender") m in
  let! from_ := read_opt (vec_codec address_codec) (lit "from") m in
  let! to_ := read_opt (vec_codec address_codec) (lit "to") m in
  let! cc_ := read_opt (vec_codec address_codec) (lit "cc") m in
  let! bcc_ := read_opt (vec_codec address_codec) (lit "bcc") m in
  let! reply_to_ := read_opt (vec_codec address_codec) (lit "replyTo") m in
  let! subject_ := read_opt str_codec (lit "subject") m in
  let! sent_at_ := read_opt str_codec (lit "sentAt") m in
  let! has_attachment_ := read_opt bool_codec (lit "hasAttachment") m in
  let! preview_ := read_opt str_codec (lit "preview") m in
  let! body_structure_ := read_opt part_codec (lit "bodyStructure") m in
  let! body_values_ := read_opt (map_codec body_value_codec) (lit "bodyValues") m in
  let! text_body_ := read_opt (vec_codec part_codec) (lit "textBody") m in
  let! html_body_ := read_opt (vec_codec part_codec) (lit "htmlBody") m in
  let! headers_ := read_opt (vec_codec header_codec) (lit "headers") m in
  let! attachments_ := read_opt (vec_codec part_codec) (lit "attachments") m in
  let! smime_status_ := read_opt str_codec (lit "smimeStatus") m in
  let! smime_errors_ := read_opt (vec_codec str_codec) (lit "smimeErrors") m in
  let! smime_verified_at_ := read_opt str_codec (lit "smimeVerifiedAt") m in
  Some {| em_id := id_; em_blob_id := blob_id_; em_thread_id := thread_id_; em_mailbox_ids := mailbox_ids_;
     em_keywords := keywords_; em_snoozed := snoozed_; em_size := size_; em_received_at := received_at_;
     em_message_id := message_id_; em_in_reply_to := in_reply_to_; em_references := references_;
     em_sender := sender_; em_from := from_; em_to := to_; em_cc := cc_; em_bcc := bcc_; em_reply_to := reply_to_;
     em_subject := subject_; em_sent_at := sent_at_; em_has_attachment := has_attachment_; em_preview := preview_;
     em_body_structure := body_structure_; em_body_values := body_values_; em_text_body := text_body_;
     em_html_body := html_body_; em_headers := headers_; em_attachments := attachments_;
     em_smime_status := smime_status_; em_smime_errors := smime_errors_; em_smime_verified_at := smime_verified_at_;
     em_extra := read_extra email_names m |}.

Definition email_codec : codec Email := {| enc := email_to_value; dec := email_from_value |}.

Definition with_mailbox_ids (x : option (btmap Id bool)) (e : Email) : Email :=
  {| em_id := em_id e; em_blob_id := em_blob_id e; em_thread_id := em_thread_id e; em_mailbox_ids := x;
     em_keywords := em_keywords e; em_snoozed := em_snoozed e; em_size := em_size e;
     em_received_at := em_received_at e; em_message_id := em_message_id e; em_in_reply_to := em_in_reply_to e;
     em_references := em_references e; em_sender := em_sender e; em_from := em_from e; em_to := em_to e;
     em_cc := em_cc e; em_bcc := em_bcc e; em_reply_to := em_reply_to e; em_subject := em_subject e;
     em_sent_at := em_sent_at e; em_has_attachment := em_has_attachment e; em_preview := em_preview e;
     em_body_structure := em_body_structure e; em_body_values := em_body_values e; em_text_body := em_text_body e;
     em_html_body := em_html_body e; em_headers := em_headers e; em_attachments := em_attachments e;
     em_smime_status := em_smime_status e; em_smime_errors := em_smime_errors e;
     em_smime_verified_at := em_smime_verified_at e; em_extra := em_extra e |}.

Definition with_keywords (x : option (btmap text bool)) (e : Email) : Email :=
  {| em_id := em_id e; em_blob_id := em_blob_id e; em_thread_id := em_thread_id e;
     em_mailbox_ids := em_mailbox_ids e; em_keywords := x; em_snoozed := em_snoozed e; em_size := em_size e;
     em_received_at := em_received_at e; em_message_id := em_message_id e; em_in_reply_to := em_in_reply_to e;
     em_references := em_references e; em_sender := em_sender e; em_from := em_from e; em_to := em_to e;
     em_cc := em_cc e; em_bcc := em_bcc e; em_reply_to := em_reply_to e; em_subject := em_subject e;
     em_sent_at := em_sent_at e; em_has_attachment := em_has_attachment e; em_preview := em_preview e;
     em_body_structure := em_body_structure e; em_body_values := em_body_values e; em_text_body := em_text_body e;
     em_html_body := em_html_body e; em_headers := em_headers e; em_attachments := em_attachments e;
     em_smime_status := em_smime_status e; em_smime_errors := em_smime_errors e;
     em_smime_verified_at := em_smime_verified_at e; em_extra := em_extra e |}.

(** ** The codecs are inverse *)
Ltac plain_object := apply object_of_value_ok; [repeat (apply Forall_cons_2; [by intros ? [= <-]|])|]; apply Forall_nil_2.

Lemma address_codec_ok : codec_ok address_codec (fun _ => True).
Proof. split; [by intros [[n|] e] _|by intros []|intros [[n|] e] _; plain_object|done]. Qed.

Lemma header_codec_ok : codec_ok header_codec (fun _ => True).
Proof. split; [by intros [n v] _|by intros []|intros [n v] _; plain_object|done]. Qed.

Lemma body_value_codec_ok : codec_ok body_value_codec (fun _ => True).
Proof. split; [by intros [v b1 b2] _|by intros []|intros [v b1 b2] _; plain_object|done]. Qed.

#[export] Hint Resolve address_codec_ok header_codec_ok body_value_codec_ok : codecs.

(** Closes the condition on an optional field. *)
Ltac field_cond := first [assumption|solve [intros; try (apply Forall_true; intros); done]].

(** Reads one field of a written struct. *)
Ltac read_field :=
  eapply read_object;
    [by eauto with codecs|first [assumption|by_decide]|assumption|assumption
    |repeat (apply list_elem_of_here || apply list_elem_of_further)|field_cond].

Ltac read_struct := repeat (eapply bind_read; [read_field|]); cbv beta.

(** The fields of a struct are well formed. *)
Ltac fields_ok := repeat (apply Forall_cons_2; [eapply opt_enc_ok; [by eauto with codecs|field_cond]|]); apply Forall_nil_2.

Definition snooze_names : list text := [lit "until"; lit "moveToMailboxId"; lit "setKeywords"].

Record snooze_ok (s : SnoozeDetails) : Prop := {
  so_set_keywords : forall m, sn_set_keywords s = Some m -> map_ok (fun _ => True) m;
  so_extra : extra_ok snooze_names (sn_extra s);
}.

Lemma snooze_codec_ok : codec_ok snooze_codec snooze_ok.
Proof.
  split; [|done| |].
  - intros s [Hk (He&Ha&_)]. change snooze_names with (snooze_fields s).*1 in Ha.
    unfold snooze_codec, snooze_to_value, snooze_from_value. cbn [enc dec as_object mbind option_bind].
    unfold read_field. erewrite object_get; [|by_decide|done|done|reflexivity]. cbn [mbind option_bind dec str_codec as_str].
    read_struct. change [lit "until"; lit "moveToMailboxId"; lit "setKeywords"] with (snooze_fields s).*1.
    rewrite object_extra by (done || by_decide). by destruct s.
  - intros s [Hk (_&_&Hv)]. apply object_of_value_ok; [|done]. apply Forall_cons_2; [by intros v [= <-]|fields_ok].
  - intros [| | | | |m] s' Hm; try done. cbn [dec snooze_codec snooze_from_value as_object mbind option_bind].
    intros (x1&_&(x2&_&(x3&Hk&[= <-])%bind_Some)%bind_Some)%bind_Some. split; [|by apply read_extra_ok].
    cbn [sn_set_keywords]. eapply read_opt_ok; [by eauto with codecs|exact Hm|exact Hk].
Qed.

(** *** Body parts *)
Section part_ind.
Variable P : EmailBodyPart -> Prop.
Hypothesis Ppart : forall h sub_parts, (forall l, sub_parts = Some l -> Forall P l) -> P (BodyPart h sub_parts).

Fixpoint EmailBodyPart_ind (p : EmailBodyPart) : P p :=
  match p with
  | BodyPart h sub_parts =>
      Ppart h sub_parts
        (match sub_parts as o return (forall l, o = Some l -> Forall P l) with
         | None => fun l E => False_ind _ (eq_ind (@None (list EmailBodyPart)) (fun o => match o with None => True | Some _ => False end) I _ E)
         | Some l' => fun l E =>
             eq_ind l' (Forall P)
               ((fix go (l : list EmailBodyPart) : Forall P l :=
                  match l with
                  | [] => Forall_nil_2 _
                  | p :: l => Forall_cons_2 _ _ _ (EmailBodyPart_ind p) (go l)
                  end) l') l (f_equal (default l') E)
         end)
  end.
End part_ind.

Definition head_ok (h : PartHead) : Prop :=
  (forall n, bp_size h = Some n -> (n <= u64_max)%N) /\ extra_ok part_names (bp_extra h).

Fixpoint part_ok (p : EmailBodyPart) : Prop :=
  let '(BodyPart h sub_parts) := p in
  head_ok h /\
  match sub_parts with
  | None => True
  | Some l => (fix go (l : list EmailBodyPart) : Prop := match l with [] => True | p :: l => part_ok p /\ go l end) l
  end.

Lemma part_ok_eq h sub_parts :
  part_ok (BodyPart h sub_parts) <-> head_ok h /\ (forall l, sub_parts = Some l -> Forall part_ok l).
Proof.
  cbn. apply and_iff_compat_l. destruct sub_parts as [l|]; [|naive_solver].
  transitivity (Forall part_ok l); [|naive_solver]. induction l as [|p l IH]; [split; [constructor|done]|].
  rewrite Forall_cons. naive_solver.
Qed.

Lemma part_head_written h sub_parts :
  head_ok h -> part_head (object_of (part_fields h sub_parts) (bp_extra h)) = Some h.
Proof.
  intros (Hs&He&Ha&_). change part_names with (part_fields h sub_parts).*1 in Ha. unfold part_head. read_struct.
  change part_names with (part_fields h sub_parts).*1. rewrite object_extra by (done || by_decide). by destruct h.
Qed.

(** The sub-parts are read as a list of parts. *)
Lemma part_from_value_object m :
  part_from_value (Object m) =
  match part_head m, read_opt (vec_codec part_codec) (lit "subParts") m with
  | Some h, Some sub_parts => Some (BodyPart h sub_parts)
  | _, _ => None
  end.
Proof.
  cbn [part_from_value]. destruct (part_head m) as [h|]; [|done]. unfold read_opt.
  match goal with |- match ?sub m with _ => _ end = _ =>
    enough (sub m = match bt_get (lit "subParts") m with
      | None | Some Null => Some None | Some v => Some <$> dec (vec_codec part_codec) v end) as -> end; [done|].
  induction m as [|[k w] m IH]; [done|]. cbn [bt_get]. destruct (decide (lit "subParts" = k)); [|exact IH].
  by destruct w.
Qed.

Lemma part_enc_dec p : part_ok p -> part_from_value (part_to_value p) = Some p.
Proof.
  induction p as [h sub_parts IH] using EmailBodyPart_ind. rewrite part_ok_eq. intros [Hh Hsub]. cbn [part_to_value].
  change (match sub_parts with Some l => Some (Array (map part_to_value l)) | None => None end)
    with (opt_enc (vec_codec part_codec) sub_parts).
  rewrite part_from_value_object, part_head_written by done. destruct Hh as (_&He&Ha&_).
  change part_names with (part_fields h (opt_enc (vec_codec part_codec) sub_parts)).*1 in Ha.
  unfold read_opt. erewrite object_get; [|by_decide|done|exact Ha|reflexivity].
  destruct sub_parts as [l|]; [|done]. cbn [opt_enc fmap option_fmap option_map enc dec vec_codec part_codec].
  rewrite mapM_enc; [done|]. apply Forall_forall. intros p Hp.
  specialize (IH l eq_refl). specialize (Hsub l eq_refl). rewrite Forall_forall in IH, Hsub. by apply IH, Hsub.
Qed.

Lemma part_enc_ok p : part_ok p -> value_ok (part_to_value p).
Proof.
  induction p as [h sub_parts IH] using EmailBodyPart_ind. rewrite part_ok_eq. intros [[Hs (_&_&Hv)] Hsub].
  cbn [part_to_value]. apply object_of_value_ok; [|done]. unfold part_fields.
  repeat (apply Forall_cons_2; [first [eapply opt_enc_ok; [by eauto with codecs|field_cond]|idtac]|]); [|apply Forall_nil_2].
  intros v. destruct sub_parts as [l|]; [|done]. intros [= <-]. apply value_ok_array, Forall_fmap, Forall_forall.
  intros p Hp. specialize (IH l eq_refl). specialize (Hsub l eq_refl). rewrite Forall_forall in IH, Hsub. by apply IH, Hsub.
Qed.

Lemma part_head_dec_ok m h : value_ok (Object m) -> part_head m = Some h -> head_ok h.
Proof.
  intros Hm. unfold part_head. intros (x1&_&(x2&_&(x3&Hsize&H)%bind_Some)%bind_Some)%bind_Some.
  repeat (let x := fresh "x" in apply bind_Some in H as (x&_&H)). injection H as <-.
  split; [exact (read_opt_ok _ _ _ _ _ u64_codec_ok Hm Hsize)|]. by apply read_extra_ok.
Qed.

Lemma part_dec_ok v p : value_ok v -> part_from_value v = Some p -> part_ok p.
Proof.
  set (sound := fun v => forall p, value_ok v -> part_from_value v = Some p -> part_ok p).
  enough (forall v, sound v /\ match v with Array l => Forall sound l | _ => True end) as H by apply (proj1 (H v)).
  clear v p. intros v. induction v as [|b|l|s|l IH|m IH] using Value_ind; try done.
  { split; [done|]. eapply Forall_impl; [exact IH|]. by intros v []. }
  split; [|done]. intros p Hv. rewrite part_from_value_object. destruct (part_head m) as [h|] eqn:Eh; [|done].
  destruct (read_opt _ _ _) as [sub_parts|] eqn:Es; [|done]. intros [= <-]. apply part_ok_eq.
  split; [by eapply part_head_dec_ok|]. intros l ->. unfold read_opt in Es.
  destruct (bt_get (lit "subParts") m) as [w|] eqn:Ew; [|done]. pose proof (value_ok_get _ _ _ Hv Ew) as Hw.
  apply bt_get_Some_elem in Ew. rewrite Forall_forall in IH. specialize (IH _ Ew). cbn [snd] in IH.
  destruct w as [| | | |items|]; try done. apply fmap_Some in Es as (l'&Hl&[= <-]). destruct IH as [_ IH].
  apply value_ok_array in Hw. cbn in Hl. apply mapM_Some in Hl. clear -Hw IH Hl.
  induction Hl as [|v p items l Hp _ IHl]; [constructor|]. apply Forall_cons in Hw as [], IH as [H1 H2].
  constructor; [by apply (H1 p)|auto].
Qed.

Lemma part_codec_ok : codec_ok part_codec part_ok.
Proof. split; [apply part_enc_dec|by intros []|apply part_enc_ok|apply part_dec_ok]. Qed.

#[export] Hint Resolve snooze_codec_ok part_codec_ok : codecs.

(** *** Messages *)
Record email_ok (e : Email) : Prop := {
  eo_mailbox_ids : forall m, em_mailbox_ids e = Some m -> map_ok (fun _ => True) m;
  eo_keywords : forall m, em_keywords e = Some m -> map_ok (fun _ => True) m;
  eo_snoozed : forall s, em_snoozed e = Some s -> snooze_ok s;
  eo_size : forall n, em_size e = Some n -> (n <= u64_max)%N;
  eo_body_structure : forall p, em_body_structure e = Some p -> part_ok p;
  eo_body_values : forall m, em_body_values e = Some m -> map_ok (fun _ => True) m;
  eo_text_body : forall l, em_text_body e = Some l -> Forall part_ok l;
  eo_html_body : forall l, em_html_body e = Some l -> Forall part_ok l;
  eo_attachments : forall l, em_attachments e = Some l -> Forall part_ok l;
  eo_extra : extra_ok email_names (em_extra e);
}.

Lemma email_fields_names e : (email_fields e).*1 = email_names.
Proof. reflexivity. Qed.

Lemma email_names_nodup : NoDup email_names.
Proof. by_decide. Qed.

(** Every property of [e] is what the members [m] read as. *)
Record email_reads (m : btmap text Value) (e : Email) : Prop := {
  er_id : read_opt str_codec (lit "id") m = Some (em_id e);
  er_blob_id : read_opt str_codec (lit "blobId") m = Some (em_blob_id e);
  er_thread_id : read_opt str_codec (lit "threadId") m = Some (em_thread_id e);
  er_mailbox_ids : read_opt (map_codec bool_codec) (lit "mailboxIds") m = Some (em_mailbox_ids e);
  er_keywords : read_opt (map_codec bool_codec) (lit "keywords") m = Some (em_keywords e);
  er_snoozed : read_opt snooze_codec (lit "snoozed") m = Some (em_snoozed e);
  er_size : read_opt u64_codec (lit "size") m = Some (em_size e);
  er_received_at : read_opt str_codec (lit "receivedAt") m = Some (em_received_at e);
  er_message_id : read_opt (vec_codec str_codec) (lit "messageId") m = Some (em_message_id e);
  er_in_reply_to : read_opt (vec_codec str_codec) (lit "inReplyTo") m = Some (em_in_reply_to e);
  er_references : read_opt (vec_codec str_codec) (lit "references") m = Some (em_references e);
  er_sender : read_opt (vec_codec address_codec) (lit "sender") m = Some (em_sender e);
  er_from : read_opt (vec_codec address_codec) (lit "from") m = Some (em_from e);
  er_to : read_opt (vec_codec address_codec) (lit "to") m = Some (em_to e);
  er_cc : read_opt (vec_codec address_codec) (lit "cc") m = Some (em_cc e);
  er_bcc : read_opt (vec_codec address_codec) (lit "bcc") m = Some (em_bcc e);
  er_reply_to : read_opt (vec_codec address_codec) (lit "replyTo") m = Some (em_reply_to e);
  er_subject : read_opt str_codec (lit "subject") m = Some (em_subject e);
  er_sent_at : read_opt str_codec (lit "sentAt") m = Some (em_sent_at e);
  er_has_attachment : read_opt bool_codec (lit "hasAttachment") m = Some (em_has_attachment e);
  er_preview : read_opt str_codec (lit "preview") m = Some (em_preview e);
  er_body_structure : read_opt part_codec (lit "bodyStructure") m = Some (em_body_structure e);
  er_body_values : read_opt (map_codec body_value_codec) (lit "bodyValues") m = Some (em_body_values e);
  er_text_body : read_opt (vec_codec part_codec) (lit "textBody") m = Some (em_text_body e);
  er_html_body : read_opt (vec_codec part_codec) (lit "htmlBody") m = Some (em_html_body e);
  er_headers : read_opt (vec_codec header_codec) (lit "headers") m = Some (em_headers e);
  er_attachments : read_opt (vec_codec part_codec) (lit "attachments") m = Some (em_attachments e);
  er_smime_status : read_opt str_codec (lit "smimeStatus") m = Some (em_smime_status e);
  er_smime_errors : read_opt (vec_codec str_codec) (lit "smimeErrors") m = Some (em_smime_errors e);
  er_smime_verified_at : read_opt str_codec (lit "smimeVerifiedAt") m = Some (em_smime_verified_at e);
  er_extra : read_extra email_names m = em_extra e;
}.

Lemma email_from_reads m e : email_reads m e -> email_from_value (Object m) = Some e.
Proof.
  intros []. unfold email_from_value. cbn [as_object]. refine (bind_read _ _ _ _ eq_refl _). cbv beta.
  repeat (eapply bind_read; [eassumption|cbv beta]). destruct e. cbn in *. by subst.
Qed.

Lemma email_reads_back e : email_ok e -> email_from_value (email_to_value e) = Some e.
Proof.
  intros [Hmi Hkw Hsn Hsize Hbs Hbv Htb Hhb Hat (He&Ha&_)]. rewrite <- (email_fields_names e) in Ha.
  assert (NoDup (email_fields e).*1) as Hn by (rewrite email_fields_names; apply email_names_nodup).
  apply email_from_reads. split; [read_field..|]. by rewrite <- (email_fields_names e), object_extra by done.
Qed.

(** A message that is written as JSON reads back as the same message: no property is
    lost, and properties that the struct does not name are kept. *)
Theorem email_roundtrip e : email_ok e -> email_from_value (email_to_value e) = Some e.
Proof. apply email_reads_back. Qed.

(** A message in one mailbox, with one keyword. *)
Definition sample_email : Email :=
  with_mailbox_ids (Some [(lit "M1", true)]) (with_keywords (Some [(lit "$seen", true)]) email_default).

Lemma email_roundtrip_witness : email_from_value (email_to_value sample_email) = Some sample_email.
Proof.
  apply email_roundtrip. split; cbn; try done.
  - intros m [= <-]. split; repeat constructor.
  - intros m [= <-]. split; repeat constructor.
  - split_and!; constructor.
Defined.

Lemma email_enc_ok e : email_ok e -> value_ok (email_to_value e).
Proof.
  intros [Hmi Hkw Hsn Hsize Hbs Hbv Htb Hhb Hat (_&_&Hv)]. apply object_of_value_ok; [|done]. unfold email_fields. fields_ok.
Qed.

(** ** Patching one property *)
Lemma email_reads_from m e : email_from_value (Object m) = Some e -> email_reads m e.
Proof.
  unfold email_from_value. cbn [as_object]. intros (x&[= <-]&H)%bind_Some.
  repeat (let x := fresh "x" in let Hx := fresh "Hx" in apply bind_Some in H as (x&Hx&H)). injection H as <-. by split.
Qed.

Section patch_member.
Variables (m m' : btmap text Value) (e : Email).
Hypothesis Hm : bt_ok m.
Hypothesis Hm' : bt_ok m'.
Hypothesis He : email_from_value (Object m) = Some e.

Lemma email_with_mailbox_ids ids :
  (forall k, k <> lit "mailboxIds" -> bt_get k m' = bt_get k m) ->
  read_opt (map_codec bool_codec) (lit "mailboxIds") m' = Some ids ->
  email_from_value (Object m') = Some (with_mailbox_ids ids e).
Proof using Hm Hm' He.
  intros Hk Hr. apply email_reads_from in He as []. apply email_from_reads.
  assert (read_extra email_names m' = read_extra email_names m) as Hx by (apply (read_extra_agree _ (lit "mailboxIds")); [done..|by_decide]).
  split; cbn [with_mailbox_ids em_id em_mailbox_ids em_extra]; first [exact Hr|by rewrite Hx
    |by rewrite (read_opt_agree _ _ (lit "mailboxIds") m m') by (exact Hk || by_decide)].
Qed.

Lemma email_with_keywords keywords :
  (forall k, k <> lit "keywords" -> bt_get k m' = bt_get k m) ->
  read_opt (map_codec bool_codec) (lit "keywords") m' = Some keywords ->
  email_from_value (Object m') = Some (with_keywords keywords e).
Proof using Hm Hm' He.
  intros Hk Hr. apply email_reads_from in He as []. apply email_from_reads.
  assert (read_extra email_names m' = read_extra email_names m) as Hx by (apply (read_extra_agree _ (lit "keywords")); [done..|by_decide]).
  split; cbn [with_keywords em_id em_keywords em_extra]; first [exact Hr|by rewrite Hx
    |by rewrite (read_opt_agree _ _ (lit "keywords") m m') by (exact Hk || by_decide)].
Qed.
End patch_member.

(** ** What is read is a well-formed message *)
Lemma email_dec_ok v e : value_ok v -> email_from_value v = Some e -> email_ok e.
Proof.
  intros Hv He. destruct v as [| | | | |m]; try done. apply email_reads_from in He as [].
  split; [eapply read_opt_ok; [by eauto with codecs|exact Hv|eassumption]..|].
  rewrite <- er_extra0. by apply read_extra_ok.
Qed.
