(* ===== verification/Store.v ===== *)
(** The mock server's object store (jmap-mock/src/state.rs: [Store], [Transaction]).

    A store holds the objects of one JMAP type, an id counter, a state counter and
    an append-only change log.  [store_transaction] runs a batch of mutations and
    records them under one new state.  The invariant [store_wf] says that the log is
    sorted, that its last entry carries the current state, that the log entries of
    each id form a life (created, updated any number of times, destroyed, and never
    again), and that ids still to be allocated are unused. *)

From stdpp Require Import prelude strings sorting.
From S2P Require Import Prelude BTree Text Proto.

(** ** Data *)
Inductive ChangeKind := Created | Updated | Destroyed.

#[export] Instance ChangeKind_eq_dec : EqDecision ChangeKind.
Proof. solve_decision. Defined.

Record Change := { ch_state : N; ch_kind : ChangeKind; ch_id : Id }.

Record Store (T : Type) := {
  st_prefix : text;
  st_next_id : N;
  st_state : N;
  st_objects : btmap Id T;
  st_changes : list Change;
}.
Arguments st_prefix {T}.
Arguments st_next_id {T}.
Arguments st_state {T}.
Arguments st_objects {T}.
Arguments st_changes {T}.
Arguments Build_Store {T}.

(** The staging handle of a running transaction. *)
Record Transaction (T : Type) := {
  tx_store : Store T;
  tx_staged : list (ChangeKind * Id);
}.
Arguments tx_store {T}.
Arguments tx_staged {T}.
Arguments Build_Transaction {T}.

Section store.
Context {T : Type}.
Implicit Types (s : Store T) (t : Transaction T) (id : Id) (v : T).

(** ** Operations *)
Definition store_new (prefix : text) : Store T :=
  Build_Store prefix 1 1 [] [].

Definition with_objects s (m : btmap Id T) : Store T :=
  Build_Store (st_prefix s) (st_next_id s) (st_state s) m (st_changes s).

(** The id that [alloc_id] makes from the counter value [n]. *)
Definition id_at s (n : N) : Id := st_prefix s ++ to_dec n.

Definition store_alloc_id s : Id * Store T :=
  (id_at s (st_next_id s),
   Build_Store (st_prefix s) (wrap_u64 (st_next_id s + 1)) (st_state s)
     (st_objects s) (st_changes s)).

Definition store_state s : State := to_dec (st_state s).

Definition store_state_counter s : N := st_state s.

Definition store_get s id : option T := bt_get id (st_objects s).

Definition store_contains s id : bool := bt_contains id (st_objects s).

Definition store_len s : nat := length (st_objects s).

Definition store_is_empty s : bool := bool_decide (st_objects s = []).

Definition store_seed_with_id s id v : Store T :=
  with_objects s (bt_insert id v (st_objects s)).

Definition store_seed s v : Id * Store T :=
  let '(id, s) := store_alloc_id s in (id, store_seed_with_id s id v).

Definition store_changes_since s (since : N) : list Change :=
  filter (fun c => (since < ch_state c)%N) (st_changes s).

Definition transaction_alloc_id t : Id * Transaction T :=
  let '(id, s) := store_alloc_id (tx_store t) in
  (id, Build_Transaction s (tx_staged t)).

Definition transaction_get t id : option T := store_get (tx_store t) id.

Definition transaction_contains t id : bool := store_contains (tx_store t) id.

Definition transaction_create t id v : Transaction T :=
  Build_Transaction
    (with_objects (tx_store t) (bt_insert id v (st_objects (tx_store t))))
    (tx_staged t ++ [(Created, id)]).

Definition transaction_update t id v : bool * Transaction T :=
  if negb (store_contains (tx_store t) id) then (false, t)
  else
    (true,
     Build_Transaction
       (with_objects (tx_store t) (bt_insert id v (st_objects (tx_store t))))
       (tx_staged t ++ [(Updated, id)])).

Definition transaction_destroy t id : bool * Transaction T :=
  match store_get (tx_store t) id with
  | None => (false, t)
  | Some _ =>
      (true,
       Build_Transaction
         (with_objects (tx_store t) (bt_remove id (st_objects (tx_store t))))
         (tx_staged t ++ [(Destroyed, id)]))
  end.

Definition store_transaction {R} s (f : Transaction T -> R * Transaction T) : R * Store T :=
  let '(result, t) := f (Build_Transaction s []) in
  let s := tx_store t in
  match tx_staged t with
  | [] => (result, s)
  | staged =>
      let state := wrap_u64 (st_state s + 1) in
      (result,
       Build_Store (st_prefix s) (st_next_id s) state (st_objects s)
         (st_changes s ++
          ((fun ki => {| ch_state := state; ch_kind := ki.1; ch_id := ki.2 |}) <$> staged)))
  end.
End store.

(** ** The life of an id

    [kinds id evs] are the changes of one id in log order.  [before ks now] is
    whether the id existed before the changes [ks], when it exists now iff [now]. *)
Definition event (c : Change) : ChangeKind * Id := (ch_kind c, ch_id c).

Definition kinds (id : Id) (evs : list (ChangeKind * Id)) : list ChangeKind :=
  (filter (fun e => e.2 = id) evs).*1.

Definition before (ks : list ChangeKind) (now : bool) : bool :=
  match ks with
  | [] => now
  | Created :: _ => false
  | _ => true
  end.

Fixpoint valid_alive (ks : list ChangeKind) (now : bool) : bool :=
  match ks with
  | [] => now
  | Updated :: ks => valid_alive ks now
  | [Destroyed] => negb now
  | _ => false
  end.

Definition valid_life (ks : list ChangeKind) (now : bool) : bool :=
  match ks with
  | [] => true
  | Created :: ks => valid_alive ks now
  | ks => valid_alive ks now
  end.

(** Whether [id] existed in the store at the state [st]. *)
Definition existed_at {T} (s : Store T) (st : N) (id : Id) : bool :=
  before (kinds id (event <$> store_changes_since s st)) (store_contains s id).

Lemma kinds_app id a b : kinds id (a ++ b) = kinds id a ++ kinds id b.
Proof. unfold kinds. by rewrite filter_app, fmap_app. Qed.

Lemma kinds_cons id k i evs :
  kinds id ((k, i) :: evs) = if decide (i = id) then k :: kinds id evs else kinds id evs.
Proof. unfold kinds. rewrite filter_cons. simpl. by case_decide. Qed.

Lemma kinds_snoc id k i evs :
  kinds id (evs ++ [(k, i)]) = if decide (i = id) then kinds id evs ++ [k] else kinds id evs.
Proof.
  rewrite kinds_app. unfold kinds at 2. rewrite filter_cons. simpl.
  case_decide; simpl; by rewrite ?app_nil_r.
Qed.

Lemma valid_alive_snoc ks k :
  k <> Created -> valid_alive ks true = true ->
  valid_alive (ks ++ [k]) (match k with Destroyed => false | _ => true end) = true.
Proof.
  intros Hk. induction ks as [|[] ks IH]; simpl; try done.
  - by destruct k.
  - by destruct ks.
Qed.

Lemma valid_life_snoc ks k :
  k <> Created -> valid_life ks true = true ->
  valid_life (ks ++ [k]) (match k with Destroyed => false | _ => true end) = true.
Proof.
  intros Hk. destruct ks as [|[] ks]; simpl.
  - by destruct k.
  - by apply valid_alive_snoc.
  - by apply valid_alive_snoc.
  - destruct ks; [done|done].
Qed.

Lemma valid_alive_split a b now :
  valid_alive (a ++ b) now = true ->
  valid_alive a (before b now) = true /\ valid_life b now = true /\ (forall c, b <> Created :: c).
Proof.
  induction a as [|[] a IH]; simpl; try done.
  - destruct b as [|[] b]; simpl; naive_solver.
  - destruct a; simpl; [|done]. destruct b; simpl; naive_solver.
Qed.

Lemma valid_life_split a b now :
  valid_life (a ++ b) now = true ->
  valid_life a (before b now) = true /\ valid_life b now = true /\
  (a <> [] -> forall c, b <> Created :: c).
Proof.
  destruct a as [|[] a]; simpl; [naive_solver|..].
  - intros [??]%valid_alive_split. naive_solver.
  - intros [??]%valid_alive_split. naive_solver.
  - intros H. destruct (a ++ b) eqn:E; [|done]. apply app_nil in E as [-> ->]. simpl. naive_solver.
Qed.

Lemma before_app a b now : before (a ++ b) now = before a (before b now).
Proof. by destruct a as [|[] a]. Qed.

(** What the flags of a /changes window say about an id, given its life. *)
Lemma valid_alive_flags ks now :
  valid_alive ks now = true ->
  (Created ∉ ks) /\ ((Destroyed ∈ ks) <-> now = false).
Proof.
  induction ks as [|[] ks IH]; simpl; try done.
  - intros ->. rewrite !elem_of_nil. naive_solver.
  - intros Hv%IH. rewrite !elem_of_cons. naive_solver.
  - destruct ks; [|done]. rewrite !list_elem_of_singleton. destruct now; naive_solver.
Qed.

Lemma valid_life_flags ks now :
  valid_life ks now = true ->
  ((Created ∈ ks) <-> ks <> [] /\ before ks now = false) /\
  ((Destroyed ∈ ks) <-> ks <> [] /\ now = false).
Proof.
  destruct ks as [|[] ks]; simpl.
  - rewrite !elem_of_nil. naive_solver.
  - intros [Hc Hd]%valid_alive_flags. rewrite !elem_of_cons. naive_solver.
  - intros [Hc Hd]%valid_alive_flags. rewrite !elem_of_cons. naive_solver.
  - intros Hv. destruct ks; [|done]. rewrite !list_elem_of_singleton. destruct now; naive_solver.
Qed.

(** ** The invariant

    [life_wf] is the part of the invariant a running transaction keeps as well: it
    reads the log and the staged changes as one list of events. *)
Record life_wf {T} (s : Store T) (evs : list (ChangeKind * Id)) : Prop := {
  lw_objects : bt_ok (st_objects s);
  lw_life : forall id, valid_life (kinds id evs) (store_contains s id) = true;
  lw_fresh : forall n, (st_next_id s <= n)%N ->
    store_contains s (id_at s n) = false /\ kinds (id_at s n) evs = [];
}.

Record store_wf {T} (s : Store T) : Prop := {
  sw_life : life_wf s ((event <$> st_changes s));
  sw_sorted : StronglySorted N.le ((ch_state <$> st_changes s));
  sw_first : Forall (fun c => (1 < ch_state c)%N) (st_changes s);
  sw_last : st_state s = default 1%N (ch_state <$> last (st_changes s));
  sw_bound : (st_state s <= u64_max)%N;
}.

Definition tx_wf {T} (t : Transaction T) : Prop :=
  life_wf (tx_store t) ((event <$> st_changes (tx_store t)) ++ tx_staged t).

(** The mutations a transaction body can make through its handle.  An id given to
    [create] comes from [alloc_id]: it is unused, and the counter is past it. *)
Definition fresh_id {T} (t : Transaction T) (id : Id) : Prop :=
  transaction_contains t id = false /\
  kinds id ((event <$> st_changes (tx_store t)) ++ tx_staged t) = [] /\
  forall n, (st_next_id (tx_store t) <= n)%N -> id <> id_at (tx_store t) n.

Inductive tx_step {T} : Transaction T -> Transaction T -> Prop :=
| TxAlloc t :
    (st_next_id (tx_store t) < u64_max)%N -> tx_step t (transaction_alloc_id t).2
| TxCreate t id v : fresh_id t id -> tx_step t (transaction_create t id v)
| TxUpdate t id v : tx_step t (transaction_update t id v).2
| TxDestroy t id : tx_step t (transaction_destroy t id).2.

Section preserve.
Context {T : Type}.
Implicit Types (s : Store T) (t : Transaction T) (id : Id) (v : T).

Lemma id_at_inj s a b : id_at s a = id_at s b -> a = b.
Proof. unfold id_at. intros E%app_inv_head. by apply to_dec_inj. Qed.

Lemma store_contains_insert s id v id' :
  store_contains (with_objects s (bt_insert id v (st_objects s))) id' =
  bool_decide (id = id') || store_contains s id'.
Proof.
  unfold store_contains, bt_contains. simpl. rewrite bt_get_insert.
  case_decide; [by rewrite (bool_decide_eq_true_2 (id = id'))|].
  by rewrite (bool_decide_eq_false_2 (id = id')).
Qed.

Lemma store_contains_remove s id id' :
  store_contains (with_objects s (bt_remove id (st_objects s))) id' =
  negb (bool_decide (id = id')) && store_contains s id'.
Proof.
  unfold store_contains, bt_contains. simpl. rewrite bt_get_remove.
  case_decide; [by rewrite (bool_decide_eq_true_2 (id = id'))|].
  by rewrite (bool_decide_eq_false_2 (id = id')).
Qed.

Lemma store_contains_get s id : store_contains s id = true <-> is_Some (store_get s id).
Proof. apply bt_contains_true. Qed.

Lemma store_alloc_id_life s evs :
  life_wf s evs -> (st_next_id s < u64_max)%N -> life_wf (store_alloc_id s).2 evs.
Proof.
  intros [Ho Hl Hf] Hn. split; simpl; [done|done|].
  intros n Hle. rewrite wrap_u64_small in Hle by lia. apply Hf. lia.
Qed.

(** The id that [alloc_id] returns is unused, and stays so for later allocations. *)
Lemma store_alloc_id_fresh s evs :
  life_wf s evs ->
  store_contains s (store_alloc_id s).1 = false /\ kinds (store_alloc_id s).1 evs = [].
Proof. intros [_ _ Hf]. apply (Hf (st_next_id s)). lia. Qed.

Lemma life_wf_create s evs id v :
  life_wf s evs -> store_contains s id = false -> kinds id evs = [] ->
  (forall n, (st_next_id s <= n)%N -> id <> id_at s n) ->
  life_wf (with_objects s (bt_insert id v (st_objects s))) (evs ++ [(Created, id)]).
Proof.
  intros [Ho Hl Hf] Hc Hk Hn. split; [by apply bt_insert_ok| |].
  - intros id'. rewrite kinds_snoc, store_contains_insert. case_decide as E.
    + subst. by rewrite Hk, bool_decide_eq_true_2.
    + by rewrite bool_decide_eq_false_2.
  - intros n Hle. destruct (Hf n Hle) as [Hf1 Hf2]. rewrite store_contains_insert, kinds_snoc.
    specialize (Hn n Hle). change (id_at (with_objects s _) n) with (id_at s n).
    by rewrite bool_decide_eq_false_2, decide_False.
Qed.

Lemma life_wf_change s evs k id m :
  life_wf s evs -> k <> Created -> store_contains s id = true -> bt_ok m ->
  (forall id', store_contains (with_objects s m) id' =
    if decide (id = id') then match k with Destroyed => false | _ => true end
    else store_contains s id') ->
  life_wf (with_objects s m) (evs ++ [(k, id)]).
Proof.
  intros [Ho Hl Hf] Hk Hc Hm Hin. split; [done| |].
  - intros id'. rewrite kinds_snoc, Hin. case_decide; [|done]. subst.
    apply valid_life_snoc; [done|]. specialize (Hl id'). by rewrite Hc in Hl.
  - intros n Hle. destruct (Hf n Hle) as [Hf1 Hf2]. rewrite Hin, kinds_snoc.
    change (id_at (with_objects s m) n) with (id_at s n).
    rewrite !decide_False; [done|congruence..].
Qed.

Lemma tx_step_wf t t' : tx_step t t' -> tx_wf t -> tx_wf t'.
Proof.
  unfold tx_wf. intros Hstep Hwf. destruct Hstep as [t Hn|t id v Hf|t id v|t id]; simpl.
  - by apply store_alloc_id_life.
  - destruct Hf as (Hc & Hk & Hn). rewrite app_assoc. by apply life_wf_create.
  - unfold transaction_update. destruct (store_contains (tx_store t) id) eqn:Hc; [|done].
    simpl. rewrite app_assoc. apply life_wf_change; [done|done|done| |].
    + apply bt_insert_ok, Hwf.
    + intros id'. rewrite store_contains_insert. case_decide; subst.
      * by rewrite bool_decide_eq_true_2.
      * by rewrite bool_decide_eq_false_2.
  - unfold transaction_destroy. destruct (store_get (tx_store t) id) eqn:Hg; [|done].
    assert (store_contains (tx_store t) id = true) as Hc
      by (apply store_contains_get; eauto).
    simpl. rewrite app_assoc. apply life_wf_change; [done|done|done| |].
    + apply bt_remove_ok, Hwf.
    + intros id'. rewrite store_contains_remove. case_decide; subst.
      * by rewrite bool_decide_eq_true_2.
      * by rewrite bool_decide_eq_false_2.
Qed.

Lemma tx_steps_wf t t' : rtc tx_step t t' -> tx_wf t -> tx_wf t'.
Proof. induction 1; eauto using tx_step_wf. Qed.

(** A transaction body never touches the log or the state. *)
Lemma tx_steps_log t t' :
  rtc tx_step t t' ->
  st_changes (tx_store t') = st_changes (tx_store t) /\
  st_state (tx_store t') = st_state (tx_store t).
Proof.
  induction 1 as [|t1 t2 t3 Hstep _ IH]; [done|].
  assert (st_changes (tx_store t2) = st_changes (tx_store t1) /\
    st_state (tx_store t2) = st_state (tx_store t1)) as [<- <-]; [|done].
  destruct Hstep as [| |t id v|t id]; simpl; try done.
  - unfold transaction_update. by destruct (negb _).
  - unfold transaction_destroy. by destruct (store_get _ _).
Qed.
End preserve.

(** ** Reachable stores

    A store changes by id allocations and by transactions whose body acts through
    the handle; the counters are not exhausted. *)
Inductive store_step {T} (s : Store T) : Store T -> Prop :=
| StepAlloc :
    (st_next_id s < u64_max)%N -> store_step s (store_alloc_id s).2
| StepTransaction {R} (f : Transaction T -> R * Transaction T) :
    (st_state s < u64_max)%N ->
    rtc tx_step (Build_Transaction s []) (f (Build_Transaction s [])).2 ->
    store_step s (store_transaction s f).2.

Section reach.
Context {T : Type}.
Implicit Types (s : Store T) (t : Transaction T) (id : Id) (v : T).

(** What a transaction appends: entries of one new state. *)
Definition stamp (state : N) (evs : list (ChangeKind * Id)) : list Change :=
  (fun ki => {| ch_state := state; ch_kind := ki.1; ch_id := ki.2 |}) <$> evs.

Lemma event_stamp state evs : event <$> stamp state evs = evs.
Proof.
  induction evs as [|[k i] evs IH]; [done|]. unfold stamp in *. csimpl. by rewrite IH.
Qed.

Lemma last_stamp state evs :
  evs <> [] -> ch_state <$> last (stamp state evs) = Some state.
Proof.
  intros Hne. destruct evs as [|e evs _] using rev_ind; [done|].
  unfold stamp. rewrite fmap_app. simpl. by rewrite last_snoc.
Qed.

Lemma stamp_sorted state evs : StronglySorted N.le (ch_state <$> stamp state evs).
Proof.
  induction evs as [|e evs IH]; simpl; constructor; [done|].
  apply Forall_fmap, Forall_fmap, Forall_forall. intros; simpl; lia.
Qed.

(** The log after a transaction: unchanged, or extended at the next state. *)
Lemma store_transaction_log {R} s (f : Transaction T -> R * Transaction T) t :
  (f (Build_Transaction s [])).2 = t -> rtc tx_step (Build_Transaction s []) t ->
  (st_state s < u64_max)%N ->
  let s' := (store_transaction s f).2 in
  st_objects s' = st_objects (tx_store t) /\ st_next_id s' = st_next_id (tx_store t) /\
  st_prefix s' = st_prefix (tx_store t) /\
  st_changes s' = st_changes s ++ stamp (st_state s + 1) (tx_staged t) /\
  st_state s' = (if decide (tx_staged t = []) then st_state s else st_state s + 1)%N.
Proof.
  intros Ht Hsteps Hb. apply tx_steps_log in Hsteps as [Hlog Hstate]. simpl in Hlog, Hstate.
  unfold store_transaction. destruct (f (Build_Transaction s [])) as [r t']. simpl in Ht. subst t'.
  destruct (tx_staged t) as [|e staged] eqn:E; simpl.
  - by rewrite app_nil_r.
  - rewrite Hlog, Hstate, wrap_u64_small by lia. done.
Qed.

Lemma last_le_state s c :
  store_wf s -> c ∈ st_changes s -> (ch_state c <= st_state s)%N.
Proof.
  intros [_ Hs _ Hlast _] Hin. rewrite Hlast. clear Hlast.
  destruct (st_changes s) as [|c' l _] using rev_ind; [by apply elem_of_nil in Hin|].
  rewrite last_snoc. simpl. rewrite fmap_app in Hs.
  apply elem_of_app in Hin as [Hin|Hin%list_elem_of_singleton]; [|by subst].
  apply (StronglySorted_app_1_elem_of _ _ _ (ch_state c) (ch_state c')) in Hs; [done| |].
  - by apply list_elem_of_fmap_2.
  - simpl. left.
Qed.

Lemma state_pos s : store_wf s -> (1 <= st_state s)%N.
Proof.
  intros [_ _ Hf Hlast _]. rewrite Hlast.
  destruct (last (st_changes s)) as [c|] eqn:E; simpl; [|done].
  rewrite Forall_forall in Hf. apply last_Some_elem_of, Hf in E. lia.
Qed.

Lemma store_step_wf s s' : store_step s s' -> store_wf s -> store_wf s'.
Proof.
  intros Hstep Hwf. destruct Hstep as [Hn|R f Hb Hsteps].
  - destruct Hwf as [Hl ????]. split; simpl; try done. by apply store_alloc_id_life.
  - destruct (store_transaction_log s f _ eq_refl Hsteps Hb) as (Ho & Hn & Hp & Hc & Hst).
    assert (tx_wf (f (Build_Transaction s [])).2) as Htx.
    { eapply tx_steps_wf; [done|]. unfold tx_wf. simpl. rewrite app_nil_r. apply Hwf. }
    pose proof (tx_steps_log _ _ Hsteps) as [Hlog _]. simpl in Hlog.
    set (s' := (store_transaction s f).2) in *. set (t := (f (Build_Transaction s [])).2) in *.
    unfold tx_wf in Htx. rewrite Hlog in Htx.
    split.
    + rewrite Hc, fmap_app, event_stamp. destruct Htx as [H1 H2 H3].
      split; unfold store_contains, id_at in *; by rewrite ?Ho, ?Hp, ?Hn.
    + rewrite Hc, fmap_app. apply StronglySorted_app_2; [|apply Hwf|].
      * intros x1 x2 (c1 & -> & Hc1)%list_elem_of_fmap (c2 & -> & Hc2)%list_elem_of_fmap.
        apply list_elem_of_fmap in Hc2 as (e & -> & _). simpl.
        pose proof (last_le_state s c1 Hwf Hc1). lia.
      * apply stamp_sorted.
    + rewrite Hc. apply Forall_app. split; [apply Hwf|]. apply Forall_forall.
      intros c (e & -> & _)%list_elem_of_fmap. simpl.
      pose proof (state_pos s Hwf). lia.
    + rewrite Hst, Hc. case_decide as E.
      * rewrite E. simpl. rewrite app_nil_r. apply Hwf.
      * rewrite last_app. pose proof (last_stamp (st_state s + 1) _ E) as Hl.
        destruct (last (stamp _ _)); simpl in *; [|done]. by simplify_eq.
    + rewrite Hst. pose proof (sw_bound _ Hwf). case_decide; lia.
Qed.

Lemma store_new_wf prefix : store_wf (store_new (T := T) prefix).
Proof.
  split; simpl.
  - split; simpl; [apply bt_ok_nil | done | done].
  - constructor.
  - constructor.
  - done.
  - unfold u64_max. lia.
Qed.

Lemma store_steps_wf s s' : rtc store_step s s' -> store_wf s -> store_wf s'.
Proof. induction 1; eauto using store_step_wf. Qed.

(** ** History *)
Definition tx_history s0 t : Prop :=
  forall id, before (kinds id (tx_staged t)) (transaction_contains t id) = store_contains s0 id.

Lemma tx_step_history s0 t t' :
  tx_step t t' -> tx_wf t -> tx_history s0 t -> tx_history s0 t'.
Proof.
  unfold tx_history, transaction_contains.
  intros Hstep Hwf Hh id'. rewrite <- Hh. destruct Hstep as [t Hn|t id v Hf|t id v|t id]; simpl.
  - done.
  - destruct Hf as (Hc & Hk & Hn). rewrite kinds_snoc, store_contains_insert. case_decide.
    + subst. rewrite kinds_app in Hk. apply app_nil in Hk as [_ ->].
      simpl. unfold transaction_contains in Hc. by rewrite Hc.
    + by rewrite bool_decide_eq_false_2.
  - unfold transaction_update. destruct (store_contains (tx_store t) id) eqn:Hc; [|done].
    simpl. rewrite kinds_snoc, store_contains_insert. case_decide; subst.
    + rewrite bool_decide_eq_true_2 by done. rewrite Hc, before_app. done.
    + by rewrite bool_decide_eq_false_2.
  - unfold transaction_destroy. destruct (store_get (tx_store t) id) eqn:Hg; [|done].
    assert (store_contains (tx_store t) id = true) as Hc
      by (apply store_contains_get; eauto).
    simpl. rewrite kinds_snoc, store_contains_remove. case_decide; subst.
    + rewrite bool_decide_eq_true_2 by done. rewrite Hc, before_app. done.
    + by rewrite bool_decide_eq_false_2.
Qed.

Lemma tx_steps_history s0 t t' :
  rtc tx_step t t' -> tx_wf t -> tx_history s0 t -> tx_history s0 t'.
Proof. induction 1; eauto using tx_step_wf, tx_step_history. Qed.

Lemma changes_since_app s s' new st :
  st_changes s' = st_changes s ++ new -> Forall (fun c => (st < ch_state c)%N) new ->
  store_changes_since s' st = store_changes_since s st ++ new.
Proof.
  intros Hc Hn. unfold store_changes_since. rewrite Hc, filter_app. f_equal.
  clear Hc. induction Hn as [|c new Hlt _ IH]; [done|]. by rewrite filter_cons_True, IH.
Qed.

Lemma store_step_history s s' st id :
  store_step s s' -> store_wf s -> (st <= st_state s)%N ->
  existed_at s' st id = existed_at s st id /\ (st_state s <= st_state s')%N.
Proof.
  intros Hstep Hwf Hst. destruct Hstep as [Hn|R f Hb Hsteps]; [done|].
  destruct (store_transaction_log s f _ eq_refl Hsteps Hb) as (Ho & Hn & Hp & Hc & Hs').
  split; [|rewrite Hs'; case_decide; lia].
  unfold existed_at. rewrite (changes_since_app s _ _ st Hc).
  - rewrite fmap_app, event_stamp, kinds_app, before_app. f_equal.
    assert (tx_history s (f (Build_Transaction s [])).2) as Hh.
    { eapply tx_steps_history; [done| |by intros ?].
      unfold tx_wf. simpl. rewrite app_nil_r. apply Hwf. }
    rewrite <- Hh. unfold transaction_contains, store_contains. by rewrite Ho.
  - apply Forall_forall. intros c (e & -> & _)%list_elem_of_fmap. simpl. lia.
Qed.

Lemma changes_since_state s : store_wf s -> store_changes_since s (st_state s) = [].
Proof.
  intros Hwf. unfold store_changes_since. apply elem_of_nil_inv.
  intros c [Hlt Hin]%list_elem_of_filter. pose proof (last_le_state s c Hwf Hin). lia.
Qed.

Lemma existed_now s id : store_wf s -> existed_at s (st_state s) id = store_contains s id.
Proof. intros Hwf. unfold existed_at. by rewrite changes_since_state. Qed.

Lemma store_steps_history s s' st id :
  rtc store_step s s' -> store_wf s -> (st <= st_state s)%N ->
  existed_at s' st id = existed_at s st id /\ (st_state s <= st_state s')%N.
Proof.
  intros Hsteps. induction Hsteps as [|s1 s2 s3 H12 _ IH]; intros Hwf Hst; [done|].
  destruct (store_step_history s1 s2 st id H12 Hwf Hst) as [<- Hle].
  destruct (IH (store_step_wf _ _ H12 Hwf)) as [<- ?]; [lia|]. split; [done|lia].
Qed.
End reach.

(** ** Seeded stores

    A server starts from a new store filled by [store_seed], which logs nothing. *)
Section seeds.
Context {T : Type}.
Implicit Types (s : Store T).

Definition seeded (prefix : text) (vs : list T) : Store T :=
  fold_left (fun s v => (store_seed s v).2) vs (store_new prefix).

Lemma store_seed_wf s v :
  store_wf s -> (st_next_id s < u64_max)%N -> store_wf (store_seed s v).2.
Proof.
  intros Hwf Hn. destruct (store_alloc_id_fresh s _ (sw_life _ Hwf)) as [Hc Hk].
  destruct Hwf as [Hl Hs Hf Hlast Hb]. split; try done.
  pose proof (store_alloc_id_life s _ Hl Hn) as [Ho Hv Hfr].
  change (store_seed s v).2 with (with_objects (store_alloc_id s).2
    (bt_insert (store_alloc_id s).1 v (st_objects (store_alloc_id s).2))). split.
  - by apply bt_insert_ok.
  - intros id. rewrite store_contains_insert. case_bool_decide as E; [|apply Hv].
    rewrite <- E. cbn [with_objects st_changes store_alloc_id snd] in *. by rewrite Hk.
  - intros n Hle. destruct (Hfr n Hle) as [Hc' Hk']. rewrite store_contains_insert.
    rewrite bool_decide_eq_false_2; [done|].
    intros E%(id_at_inj s (st_next_id s) n). subst n. simpl in Hle.
    rewrite wrap_u64_small in Hle by lia. lia.
Qed.

Lemma seeded_wf prefix vs :
  (N.of_nat (length vs) < u64_max)%N ->
  store_wf (seeded prefix vs) /\ st_next_id (seeded prefix vs) = (1 + N.of_nat (length vs))%N.
Proof.
  unfold seeded. induction vs as [|v vs IH] using rev_ind; intros Hl.
  { split; [apply store_new_wf|done]. }
  rewrite length_app in Hl. simpl in Hl. destruct IH as [Hwf Hn]; [lia|].
  rewrite fold_left_app. cbn [fold_left]. revert Hwf Hn.
  generalize (fold_left (fun s v => (store_seed s v).2) vs (store_new prefix)). intros s Hwf Hn.
  split.
  - apply store_seed_wf; [done|]. rewrite Hn. lia.
  - simpl. rewrite Hn, length_app, wrap_u64_small; simpl; lia.
Qed.

Lemma seeded_log prefix vs :
  st_changes (seeded prefix vs) = [] /\ st_state (seeded prefix vs) = 1%N.
Proof.
  unfold seeded. induction vs as [|v vs IH] using rev_ind; [done|].
  by rewrite fold_left_app.
Qed.

(** A create whose id was allocated just before, as [/set] does it. *)
Lemma store_create_step s v :
  store_wf s -> (st_next_id s < u64_max)%N -> (st_state s < u64_max)%N ->
  rtc store_step s
    (store_transaction (store_alloc_id s).2
      (fun t => (tt, transaction_create t (store_alloc_id s).1 v))).2.
Proof.
  intros Hwf Hn Hst. eapply rtc_l; [by apply StepAlloc|]. apply rtc_once, StepTransaction; [done|].
  apply rtc_once. simpl. apply TxCreate.
  destruct (store_alloc_id_fresh s _ (sw_life _ Hwf)) as [Hc Hk].
  split; [done|]. split; [by rewrite app_nil_r|]. simpl.
  intros n Hle E%(id_at_inj s). rewrite wrap_u64_small in Hle by lia. lia.
Qed.

Lemma store_update_step s id v :
  (st_state s < u64_max)%N ->
  store_step s (store_transaction s (fun t => transaction_update t id v)).2.
Proof. intros Hst. apply StepTransaction; [done|]. apply rtc_once, TxUpdate. Qed.

Lemma store_destroy_step s id :
  (st_state s < u64_max)%N ->
  store_step s (store_transaction s (fun t => transaction_destroy t id)).2.
Proof. intros Hst. apply StepTransaction; [done|]. apply rtc_once, TxDestroy. Qed.
End seeds.

(** A short history: a seeded object, then one created, then the seed updated, then
    destroyed. *)
Definition example_seed : Store N := seeded (lit "E") [10%N].

Definition example_created : Store N :=
  (store_transaction (store_alloc_id example_seed).2
    (fun t => (tt, transaction_create t (store_alloc_id example_seed).1 20%N))).2.

Definition example_updated : Store N :=
  (store_transaction example_created (fun t => transaction_update t (lit "E1") 11%N)).2.

Definition example_store : Store N :=
  (store_transaction example_updated (fun t => transaction_destroy t (lit "E1"))).2.

Lemma example_reached : rtc store_step example_seed example_store.
Proof.
  etrans.
  { apply (store_create_step example_seed 20%N); [apply seeded_wf|..]; vm_compute; reflexivity. }
  eapply rtc_l; [apply (store_update_step _ (lit "E1") 11%N); vm_compute; reflexivity|].
  apply rtc_once, store_destroy_step. vm_compute. reflexivity.
Qed.

Lemma example_seed_wf : store_wf example_seed.
Proof. apply seeded_wf. vm_compute. reflexivity. Qed.

Lemma example_store_wf : store_wf example_store.
Proof. eapply store_steps_wf; [apply example_reached|apply example_seed_wf]. Qed.

(** Every store reached from a seeded one by id allocations and transactions keeps
    the invariant: the log is sorted and ends at the current state, each id's entries
    form one life (never created twice, nothing after a destroy) that agrees with the
    objects held, and no id still to be allocated is in use. *)
Theorem store_reachable_wf {T} (prefix : text) (vs : list T) (s : Store T) :
  (N.of_nat (length vs) < u64_max)%N -> rtc store_step (seeded prefix vs) s -> store_wf s.
Proof. intros Hl Hsteps. eapply store_steps_wf; [done|]. by apply seeded_wf. Qed.

Lemma store_reachable_wf_witness : store_wf example_store.
Proof.
  apply (store_reachable_wf (lit "E") [10%N]); [vm_compute; reflexivity|].
  apply example_reached.
Defined.

(** The log is a faithful history.  What a later store says of an earlier state,
    from its log and its present objects alone, is what the store held at that state. *)
Theorem store_log_is_history {T} (s s' : Store T) (id : Id) :
  store_wf s -> rtc store_step s s' -> existed_at s' (st_state s) id = store_contains s id.
Proof.
  intros Hwf Hsteps. destruct (store_steps_history s s' (st_state s) id Hsteps Hwf) as [-> _];
    [done|]. by apply existed_now.
Qed.

Lemma store_log_is_history_witness :
  store_contains example_store (lit "E1") = false /\
  existed_at example_store (st_state example_seed) (lit "E1") =
    store_contains example_seed (lit "E1").
Proof.
  split; [vm_compute; reflexivity|].
  apply store_log_is_history; [apply example_seed_wf|apply example_reached].
Defined.
