(* ===== verification/SetOps.v ===== *)
(** The mock server's [/changes] (jmap-mock/src/setops.rs: [store_changes], [window]).

    A request names a state; the answer lists, for a window of whole transitions
    after it, each id in at most one of created, updated and destroyed, and the
    state at the end of the window.  The theorems say that a window is the net
    difference of the store between its two states, that a capped window advances
    and never exceeds the cap unless one transition alone does. *)

From stdpp Require Import prelude strings sorting.
From S2P Require Import Prelude BTree Text Json Proto Store.

(** ** Operations *)
Record Disposition := { d_created : bool; d_updated : bool; d_destroyed : bool }.

Definition disposition_default : Disposition :=
  {| d_created := false; d_updated := false; d_destroyed := false |}.

Definition mark (d : Disposition) (k : ChangeKind) : Disposition :=
  match k with
  | Created => {| d_created := true; d_updated := d_updated d; d_destroyed := d_destroyed d |}
  | Updated => {| d_created := d_created d; d_updated := true; d_destroyed := d_destroyed d |}
  | Destroyed => {| d_created := d_created d; d_updated := d_updated d; d_destroyed := true |}
  end.

(** [by_id.entry(id).or_default()], then one flag set. *)
Definition note_change (by_id : btmap Id Disposition) (c : Change) : btmap Id Disposition :=
  bt_insert (ch_id c)
    (mark (default disposition_default (bt_get (ch_id c) by_id)) (ch_kind c)) by_id.

(** The loop that fills [transitions]: the last entry counts on, or a new one starts. *)
Definition push_transition (transitions : list (N * N)) (c : Change) : list (N * N) :=
  match last transitions with
  | Some (state, count) =>
      if (state =? ch_state c)%N
      then removelast transitions ++ [(state, count + 1)%N]
      else transitions ++ [(ch_state c, 1%N)]
  | None => transitions ++ [(ch_state c, 1%N)]
  end.

(** The loop over [transitions]; [prev] is the state of the entry before. *)
Fixpoint window_loop (cap : N) (prev : option N) (taken end_ : N)
    (transitions : list (N * N)) : N * bool :=
  match transitions with
  | [] => (end_, false)
  | (state, count) :: rest =>
      match prev with
      | Some p =>
          if (cap <? taken + count)%N then (p, true)
          else window_loop cap (Some state) (taken + count) state rest
      | None => window_loop cap (Some state) (taken + count) state rest
      end
  end.

Section set_ops.
Context {T : Type}.
Implicit Types (s : Store T).

Definition window s (since : N) (cap : option N) : N * bool :=
  match cap with
  | None => (store_state_counter s, false)
  | Some cap =>
      window_loop cap None 0 (store_state_counter s)
        (fold_left push_transition (store_changes_since s since) [])
  end.

(** The cap of a request: the smaller of the page size and [maxChanges]. *)
Definition changes_cap (page_size max_changes : option N) : option N :=
  match page_size, max_changes with
  | Some a, Some b => Some (N.min a b)
  | Some a, None => Some a
  | None, b => b
  end.

Definition unrecognized_state (is_invalid_arguments : bool) : MethodError :=
  if is_invalid_arguments
  then method_error_with_description (method_error_new INVALID_ARGUMENTS)
         (lit "invalid JMAP State")
  else method_error_with_description (method_error_new (lit "cannotCalculateChanges"))
         (lit "sinceState was not issued by this server").

(** The last loop of [store_changes]: one list per id, in id order. *)
Definition sort_out (acc : list Id * list Id * list Id) (e : Id * Disposition)
  : list Id * list Id * list Id :=
  let '(created, updated, destroyed) := acc in
  let '(id, d) := e in
  match d_created d, d_destroyed d with
  | true, true => (created, updated, destroyed)
  | true, false => (created ++ [id], updated, destroyed)
  | false, true => (created, updated, destroyed ++ [id])
  | false, false =>
      if d_updated d then (created, updated ++ [id], destroyed)
      else (created, updated, destroyed)
  end.

Definition store_changes s (request : ChangesRequest) (page_size : option N)
    (unrecognized_state_is_invalid_arguments : bool) : result ChangesResponse MethodError :=
  match parse_u64 (cr_since_state request) with
  | None => Err (unrecognized_state unrecognized_state_is_invalid_arguments)
  | Some since =>
      let cap := changes_cap page_size (cr_max_changes request) in
      let '(window_end, has_more_changes) := window s since cap in
      let by_id :=
        fold_left note_change
          (filter (fun c => (ch_state c <= window_end)%N) (store_changes_since s since)) [] in
      let '(created, updated, destroyed) := fold_left sort_out by_id ([], [], []) in
      Ok {| cp_account_id := cr_account_id request;
            cp_old_state := cr_since_state request;
            cp_new_state := to_dec window_end;
            cp_has_more_changes := has_more_changes;
            cp_created := created;
            cp_updated := updated;
            cp_destroyed := destroyed |}
  end.
End set_ops.

(** ** Dispositions *)
Definition flag_of (k : ChangeKind) (d : Disposition) : bool :=
  match k with Created => d_created d | Updated => d_updated d | Destroyed => d_destroyed d end.

Lemma flag_of_mark k k' d : flag_of k (mark d k') = bool_decide (k = k') || flag_of k d.
Proof. by destruct k, k'. Qed.

Lemma note_changes_ok cs m : bt_ok m -> bt_ok (fold_left note_change cs m).
Proof. revert m. induction cs; simpl; intros m Hm; [done|]. by apply IHcs, bt_insert_ok. Qed.

Lemma note_changes_get cs m id :
  bt_get id (fold_left note_change cs m) =
  match kinds id (event <$> cs) with
  | [] => bt_get id m
  | ks => Some (fold_left mark ks (default disposition_default (bt_get id m)))
  end.
Proof.
  revert m. induction cs as [|c cs IH]; intros m; [done|].
  cbn [fold_left]. rewrite IH. unfold note_change at 1 2. rewrite !bt_get_insert.
  rewrite fmap_cons. change (event c) with (ch_kind c, ch_id c). rewrite kinds_cons.
  case_decide as E; [subst; simpl|done].
  by destruct (kinds (ch_id c) (event <$> cs)).
Qed.

Lemma fold_mark_flag ks d k :
  flag_of k (fold_left mark ks d) = true <-> (k ∈ ks) \/ flag_of k d = true.
Proof.
  revert d. induction ks as [|k' ks IH]; intros d; simpl.
  - rewrite elem_of_nil. tauto.
  - rewrite IH, flag_of_mark, orb_true_iff, bool_decide_eq_true, elem_of_cons. tauto.
Qed.

(** The flags of an id in a window are the kinds of its changes there. *)
Lemma note_changes_flag cs id d k :
  bt_get id (fold_left note_change cs []) = Some d ->
  flag_of k d = true <-> (k ∈ kinds id (event <$> cs)).
Proof.
  rewrite note_changes_get. destruct (kinds id _) as [|k0 ks] eqn:E; [done|].
  intros [= <-]. pose proof (fold_mark_flag (k0 :: ks) disposition_default k) as Hf.
  simpl in Hf. rewrite Hf. destruct k; simpl; naive_solver.
Qed.

(** ** Windows

    [expand] writes the transitions back as one state per log entry. *)
Definition expand (ts : list (N * N)) : list N :=
  mjoin ((fun t => replicate (N.to_nat t.2) t.1) <$> ts).

Definition total (ts : list (N * N)) : N := N.of_nat (length (expand ts)).

Definition transitions (cs : list Change) : list (N * N) := fold_left push_transition cs [].

Lemma expand_app a b : expand (a ++ b) = expand a ++ expand b.
Proof. unfold expand. by rewrite fmap_app, join_app. Qed.

Lemma expand_one st n : expand [(st, n)] = replicate (N.to_nat n) st.
Proof. unfold expand. simpl. by rewrite app_nil_r. Qed.

Lemma total_app a b : total (a ++ b) = (total a + total b)%N.
Proof. unfold total. rewrite expand_app, length_app. lia. Qed.

Lemma total_one st n : total [(st, n)] = n.
Proof. unfold total. rewrite expand_one, length_replicate. lia. Qed.

Lemma push_transition_cases ts c :
  (exists ts' n, ts = ts' ++ [(ch_state c, n)] /\
     push_transition ts c = ts' ++ [(ch_state c, n + 1)%N]) \/
  (last ts.*1 <> Some (ch_state c) /\ push_transition ts c = ts ++ [(ch_state c, 1%N)]).
Proof.
  destruct ts as [|[st n] ts _] using rev_ind; [by right|]. unfold push_transition.
  rewrite last_snoc, removelast_last, fmap_app. simpl. rewrite last_snoc.
  destruct (N.eqb_spec st (ch_state c)); [left; subst; eauto | right; naive_solver].
Qed.

Lemma expand_push ts c : expand (push_transition ts c) = expand ts ++ [ch_state c].
Proof.
  destruct (push_transition_cases ts c) as [(ts' & n & -> & ->)|[_ ->]].
  - rewrite !expand_app, !expand_one, N2Nat.inj_add, replicate_add. simpl.
    by rewrite app_assoc.
  - by rewrite expand_app.
Qed.

Lemma transitions_snoc cs c : transitions (cs ++ [c]) = push_transition (transitions cs) c.
Proof. unfold transitions. by rewrite fold_left_app. Qed.

Lemma expand_transitions cs : expand (transitions cs) = ch_state <$> cs.
Proof.
  induction cs as [|c cs IH] using rev_ind; [done|].
  by rewrite transitions_snoc, expand_push, IH, fmap_app.
Qed.

Lemma transitions_pos cs : Forall (fun t => (0 < t.2)%N) (transitions cs).
Proof.
  induction cs as [|c cs IH] using rev_ind; [constructor|]. rewrite transitions_snoc.
  destruct (push_transition_cases (transitions cs) c) as [(ts' & n & E & ->)|[_ ->]].
  - rewrite E in IH. apply Forall_app in IH as [IH _]. apply Forall_app. split; [done|].
    repeat constructor. simpl. lia.
  - apply Forall_app. split; [done|]. repeat constructor.
Qed.

(** With positive counts, the states of a transition list are those of its expansion. *)
Lemma elem_of_expand ts st :
  Forall (fun t => (0 < t.2)%N) ts -> st ∈ expand ts <-> st ∈ ts.*1.
Proof.
  induction 1 as [|[x n] ts Hn _ IH]; [done|].
  change ((x, n) :: ts) with ([(x, n)] ++ ts). rewrite expand_app, fmap_app, !elem_of_app, IH.
  rewrite expand_one, elem_of_replicate. simpl in *. rewrite list_elem_of_singleton.
  split; intros [?|?]; naive_solver lia.
Qed.

Lemma transitions_sorted cs :
  StronglySorted N.le (ch_state <$> cs) -> StronglySorted N.lt (transitions cs).*1.
Proof.
  induction cs as [|c cs IH] using rev_ind; [constructor|]. rewrite fmap_app. intros Hs.
  specialize (IH (StronglySorted_app_1_l _ _ _ Hs)). rewrite transitions_snoc.
  destruct (push_transition_cases (transitions cs) c) as [(ts' & n & E & ->)|[Hlast ->]].
  { by rewrite E, !fmap_app in *. }
  rewrite fmap_app. apply StronglySorted_app_2; [|done|repeat constructor].
  intros x1 x2 Hx1 ->%list_elem_of_singleton. simpl.
  assert (forall x, x ∈ (transitions cs).*1 -> (x <= ch_state c)%N) as Hle.
  { intros x Hx. rewrite <- elem_of_expand, expand_transitions in Hx by apply transitions_pos.
    eapply (StronglySorted_app_1_elem_of _ _ _ _ _ Hs); [done|left]. }
  destruct ((transitions cs).*1) as [|y l _] using rev_ind; [by apply elem_of_nil in Hx1|].
  rewrite last_snoc in Hlast.
  assert (y < ch_state c)%N.
  { assert (y <> ch_state c) by congruence. specialize (Hle y). set_solver by lia. }
  apply elem_of_app in Hx1 as [Hx1| ->%list_elem_of_singleton]; [|done].
  assert (x1 < y)%N; [|lia]. eapply (StronglySorted_app_1_elem_of _ _ _ _ _ IH); [done|left].
Qed.

(** The window is a prefix [d] of the transitions: all of them, or as many as fit
    under the cap and at least one. *)
Lemma window_loop_spec cap prev taken end_ ts e more :
  (forall p, prev = Some p -> end_ = p) ->
  window_loop cap prev taken end_ ts = (e, more) ->
  exists d rest, ts = d ++ rest /\ e = default end_ (last d.*1) /\
    (more = true <-> rest <> []) /\ (prev = None -> ts <> [] -> d <> []) /\
    ((taken + total d <= cap)%N \/ d = [] \/ (prev = None /\ length d = 1)).
Proof.
  revert prev taken end_. induction ts as [|[st n] ts IH]; intros prev taken end_ Hp; simpl.
  { intros [= <- <-]. exists [], []. naive_solver. }
  assert (forall prev' : option N, window_loop cap (Some st) (taken + n) st ts = (e, more) ->
    prev' = None \/ (taken + n <= cap)%N ->
    exists d rest, (st, n) :: ts = d ++ rest /\ e = default end_ (last d.*1) /\
    (more = true <-> rest <> []) /\ d <> [] /\
    ((taken + total d <= cap)%N \/ (prev' = None /\ length d = 1))) as Hgo.
  { intros prev' (d & rest & -> & -> & Hm & _ & Hc)%IH Hpc; [|naive_solver].
    exists ((st, n) :: d), rest. split_and!; [done| |done|done|].
    - rewrite fmap_cons, last_cons. by destruct (last _).
    - change ((st, n) :: d) with ([(st, n)] ++ d). rewrite total_app, total_one.
      destruct Hc as [Hc|[->|[??]]]; [left; lia| |done].
      destruct Hpc; [right; done|left]. unfold total. simpl. lia. }
  destruct prev as [p|].
  - destruct (N.ltb_spec cap (taken + n)); [|intros (d & rest & ?)%(Hgo (Some 0%N))].
    + intros [= <- <-]. exists [], ((st, n) :: ts). rewrite (Hp p) by done. naive_solver.
    + exists d, rest. naive_solver.
    + right. done.
  - intros (d & rest & ?)%(Hgo None); [|by left]. exists d, rest. naive_solver.
Qed.

(** ** What a window covers *)
Section windows.
Context {T : Type}.
Implicit Types (s : Store T).

Definition in_window s (since e : N) : list Change :=
  filter (fun c => (ch_state c <= e)%N) (store_changes_since s since).

Lemma sorted_filter_split (l : list Change) (e : N) :
  StronglySorted N.le (ch_state <$> l) ->
  filter (fun c => (ch_state c <= e)%N) l ++ filter (fun c => (e < ch_state c)%N) l = l.
Proof.
  induction l as [|c l IH]; [done|]. rewrite fmap_cons. intros Hs.
  apply StronglySorted_cons in Hs as [Hc Hs]. rewrite !filter_cons.
  destruct (decide (ch_state c <= e)%N).
  - rewrite (decide_False (P := (e < ch_state c)%N)) by lia. simpl. by rewrite IH.
  - rewrite (decide_True (P := (e < ch_state c)%N)) by lia.
    rewrite Forall_fmap, Forall_forall in Hc. simpl in Hc.
    rewrite filter_none by (intros x Hx%Hc; lia). simpl. f_equal.
    apply filter_all. intros x Hx%Hc. lia.
Qed.

Lemma filter_sorted (P : Change -> Prop) `{!forall c, Decision (P c)} (l : list Change) :
  StronglySorted N.le (ch_state <$> l) -> StronglySorted N.le (ch_state <$> filter P l).
Proof.
  induction l as [|c l IH]; [done|]. rewrite fmap_cons. intros Hs.
  apply StronglySorted_cons in Hs as [Hc Hs]. rewrite filter_cons. case_decide; [|auto].
  rewrite fmap_cons. apply StronglySorted_cons. split; [|auto].
  rewrite Forall_fmap, Forall_forall in *. intros x [_ Hx]%list_elem_of_filter. by apply Hc.
Qed.

Lemma changes_since_split s since e :
  store_wf s -> (since <= e)%N ->
  store_changes_since s since = in_window s since e ++ store_changes_since s e.
Proof.
  intros Hwf Hle. unfold in_window.
  rewrite <- (sorted_filter_split (store_changes_since s since) e) at 1
    by (apply filter_sorted, Hwf).
  f_equal. unfold store_changes_since. rewrite list_filter_filter.
  apply list_filter_iff. intros c. lia.
Qed.

(** The life of an id inside a window. *)
Lemma window_life s since e id :
  store_wf s -> (since <= e)%N ->
  let ks := kinds id (event <$> in_window s since e) in
  valid_life ks (existed_at s e id) = true /\
  existed_at s since id = before ks (existed_at s e id).
Proof.
  intros Hwf Hle. simpl. unfold existed_at.
  rewrite (changes_since_split s since e Hwf Hle), fmap_app, kinds_app, before_app.
  split; [|done].
  assert (exists pre, st_changes s = pre ++ store_changes_since s since) as [pre Hpre].
  { exists (filter (fun c => (ch_state c <= since)%N) (st_changes s)).
    symmetry. apply sorted_filter_split, Hwf. }
  pose proof (lw_life _ _ (sw_life _ Hwf) id) as Hv.
  rewrite Hpre, (changes_since_split s since e Hwf Hle), !fmap_app, !kinds_app in Hv.
  apply valid_life_split in Hv as (_ & Hv & _). by apply valid_life_split in Hv as [? _].
Qed.

Lemma transitions_states s since :
  store_wf s ->
  Forall (fun st => since < st <= st_state s)%N (transitions (store_changes_since s since)).*1.
Proof.
  intros Hwf. apply Forall_forall. intros st.
  rewrite <- elem_of_expand, expand_transitions by apply transitions_pos.
  intros (c & -> & [Hc Hin]%list_elem_of_filter)%list_elem_of_fmap.
  split; [done|]. by apply last_le_state.
Qed.

Lemma transitions_last s since :
  store_wf s -> transitions (store_changes_since s since) <> [] ->
  st_state s ∈ (transitions (store_changes_since s since)).*1.
Proof.
  intros Hwf Hne. pose proof (transitions_states s since Hwf) as Hin.
  rewrite <- elem_of_expand, expand_transitions by apply transitions_pos.
  assert (exists st, st ∈ (transitions (store_changes_since s since)).*1) as [st Hst].
  { destruct (transitions _) as [|[st n] l]; [done|]. exists st. left. }
  rewrite Forall_forall in Hin. specialize (Hin _ Hst).
  rewrite <- elem_of_expand, expand_transitions in Hst by apply transitions_pos.
  apply list_elem_of_fmap in Hst as (c & -> & [Hc Hc']%list_elem_of_filter).
  pose proof (sw_last _ Hwf) as Hl. destruct (last (st_changes s)) as [c'|] eqn:El; simpl in Hl.
  - rewrite Hl. apply list_elem_of_fmap_2, list_elem_of_filter.
    split; [lia|]. by apply last_Some_elem_of in El.
  - apply last_None in El. rewrite El in Hc'. by apply elem_of_nil in Hc'.
Qed.

Lemma window_spec s since cap e more :
  store_wf s -> window s since cap = (e, more) ->
  ((since <= e)%N \/ e = st_state s) /\ (e <= st_state s)%N /\
  (more = false -> e = st_state s) /\ (more = true -> (since < e < st_state s)%N).
Proof.
  intros Hwf. destruct cap as [cap|]; simpl; [|intros [= <- <-]; unfold store_state_counter; naive_solver lia].
  fold (transitions (store_changes_since s since)). intros Hw.
  apply window_loop_spec in Hw as (d & rest & Hts & -> & Hm & Hne & _); [|done].
  pose proof (transitions_sorted _ (filter_sorted _ _ (sw_sorted _ Hwf)
    : StronglySorted N.le (ch_state <$> store_changes_since s since))) as Hsort.
  pose proof (transitions_states s since Hwf) as Hin.
  pose proof (transitions_last s since Hwf) as Hlast.
  rewrite Hts in Hsort, Hin, Hlast, Hne. clear Hts.
  destruct d as [|[st n] d _] using rev_ind.
  { destruct rest; [|by destruct Hne]. simpl. naive_solver lia. }
  rewrite fmap_app in *. simpl. rewrite last_snoc. simpl.
  rewrite !fmap_app, !Forall_app in Hin. destruct Hin as [[_ [Hst _]%Forall_cons] Hrest].
  simpl in Hst. split; [lia|]. split; [lia|]. split.
  - intros ->. destruct rest as [|x rest]; [|by discriminate (proj2 Hm)].
    rewrite app_nil_r in *.
    assert (st_state s ∈ d.*1 ++ [st]) as [Hl|Hl%list_elem_of_singleton]%elem_of_app
      by (simpl in Hlast; rewrite app_nil_r, fmap_app in Hlast; apply Hlast; by destruct d).
    + rewrite fmap_app in Hsort.
      pose proof (StronglySorted_app_1_elem_of _ _ _ (st_state s) st Hsort Hl) as Hlt.
      specialize (Hlt ltac:(by left)). lia.
    + done.
  - intros ->. destruct rest as [|x rest]; [by destruct (proj1 Hm eq_refl)|].
    rewrite !fmap_app in Hsort.
    pose proof (StronglySorted_app_1_elem_of _ _ _ st x.1 Hsort) as Hlt.
    specialize (Hlt ltac:(rewrite elem_of_app; right; by left) ltac:(by left)).
    simpl in Hrest. apply Forall_cons in Hrest as [Hx _]. lia.
Qed.
(** A capped window has at most [cap] log entries, unless its first transition alone
    has more. *)
Lemma window_entries s since cap e more :
  store_wf s -> window s since (Some cap) = (e, more) ->
  (N.of_nat (length (in_window s since e)) <= cap)%N \/
  Forall (fun c => ch_state c = e) (in_window s since e).
Proof.
  intros Hwf. simpl. fold (transitions (store_changes_since s since)). intros Hw.
  apply window_loop_spec in Hw as (d & rest & Hts & He & _ & Hne & Hcap); [|done].
  pose proof (transitions_sorted _ (filter_sorted _ _ (sw_sorted _ Hwf)
    : StronglySorted N.le (ch_state <$> store_changes_since s since))) as Hsort.
  pose proof (transitions_pos (store_changes_since s since)) as Hpos.
  pose proof (expand_transitions (store_changes_since s since)) as Hex.
  rewrite Hts in Hsort, Hpos, Hex, Hne. clear Hts. apply Forall_app in Hpos as [Hpd Hpr].
  assert (ch_state <$> in_window s since e = expand d) as Hw.
  { unfold in_window.
    trans (filter (fun n => (n <= e)%N) (ch_state <$> store_changes_since s since));
      [symmetry; apply filter_fmap|].
    rewrite <- Hex, expand_app, filter_app.
    destruct d as [|[st n] d _] using rev_ind.
    { destruct rest; [done|by destruct Hne]. }
    rewrite fmap_app in He, Hsort. simpl in He. rewrite last_snoc in He. simpl in He.
    rewrite fmap_app in Hsort. simpl in Hsort. subst e.
    replace (filter _ (expand rest)) with (@nil N).
    - rewrite app_nil_r. apply filter_all. intros x.
      rewrite elem_of_expand, fmap_app, elem_of_app by done. simpl.
      rewrite list_elem_of_singleton.
      intros [Hx| ->]; [|done]. apply StronglySorted_app_1_l in Hsort.
      pose proof (StronglySorted_app_1_elem_of _ _ _ x st Hsort Hx) as Hlt.
      specialize (Hlt ltac:(by left)). lia.
    - symmetry. apply filter_none. intros x Hr Hx. rewrite elem_of_expand in Hr by done.
      pose proof (StronglySorted_app_1_elem_of _ _ _ st x Hsort) as Hlt.
      specialize (Hlt ltac:(rewrite elem_of_app; right; by left) Hr). lia. }
  apply (f_equal length) in Hw as Hl. rewrite length_fmap in Hl.
  destruct Hcap as [Hc|[-> |[_ Hd]]].
  - left. rewrite Hl. unfold total in Hc. lia.
  - left. rewrite Hl. simpl. lia.
  - right. destruct d as [|[st n] [|]]; try done. simpl in He. subst st.
    rewrite expand_one in Hw. apply Forall_forall. intros c Hc.
    apply (list_elem_of_fmap_2 ch_state) in Hc. rewrite Hw in Hc.
    by apply elem_of_replicate in Hc as [-> _].
Qed.
End windows.

(** ** The answer to a request *)
Section answers.
Context {T : Type}.
Implicit Types (s : Store T).

(** The id has a log entry after [a] and not after [b]. *)
Definition touched s (a b : N) (id : Id) : Prop :=
  exists c, (c ∈ st_changes s) /\ ch_id c = id /\ (a < ch_state c <= b)%N.

(** The specification: what became, was changed and ceased between two states. *)
Record net_change s (a b : N) (created updated destroyed : list Id) : Prop := {
  nc_created : forall id, (id ∈ created) <->
    existed_at s a id = false /\ existed_at s b id = true;
  nc_updated : forall id, (id ∈ updated) <->
    existed_at s a id = true /\ existed_at s b id = true /\ touched s a b id;
  nc_destroyed : forall id, (id ∈ destroyed) <->
    existed_at s a id = true /\ existed_at s b id = false;
}.

Lemma kinds_touched s a b id :
  kinds id (event <$> in_window s a b) <> [] <-> touched s a b id.
Proof.
  split.
  - intros Hk. destruct (kinds id _) as [|k ks] eqn:E; [done|].
    assert (k ∈ kinds id (event <$> in_window s a b)) as Hin by (rewrite E; left).
    apply list_elem_of_fmap in Hin as ([k' id'] & -> & [Hid Hin]%list_elem_of_filter).
    apply list_elem_of_fmap in Hin as (c & [= -> ->] & Hc).
    apply list_elem_of_filter in Hc as [Hle [Hlt Hc]%list_elem_of_filter]. by exists c.
  - intros (c & Hc & <- & Hlt) Hnil.
    assert (ch_kind c ∈ kinds (ch_id c) (event <$> in_window s a b)) as Hin.
    { apply list_elem_of_fmap. exists (event c). split; [done|].
      apply list_elem_of_filter. split; [done|]. apply list_elem_of_fmap_2.
      apply list_elem_of_filter. split; [lia|]. apply list_elem_of_filter. split; [lia|done]. }
    rewrite Hnil in Hin. by apply elem_of_nil in Hin.
Qed.

Lemma sort_out_spec m c u d :
  fold_left sort_out m (c, u, d) =
  (c ++ (filter (fun e => d_created e.2 = true /\ d_destroyed e.2 = false) m).*1,
   u ++ (filter (fun e => d_created e.2 = false /\ d_destroyed e.2 = false /\
                          d_updated e.2 = true) m).*1,
   d ++ (filter (fun e => d_created e.2 = false /\ d_destroyed e.2 = true) m).*1).
Proof.
  revert c u d. induction m as [|[id [cr up de]] m IH]; intros c u d; cbn [fold_left].
  { by rewrite !app_nil_r. }
  rewrite !filter_cons. destruct cr, de, up; cbn [sort_out d_created d_updated d_destroyed snd];
    rewrite IH; repeat case_decide; try (exfalso; intuition congruence); csimpl;
    by rewrite <- ?app_assoc.
Qed.

Lemma window_beyond s since :
  store_wf s -> (st_state s < since)%N ->
  store_changes_since s since = [].
Proof.
  intros Hwf Hlt. apply filter_none. intros c Hc%last_le_state; [|done]. lia.
Qed.

(** The flags an id gets in a window tell whether it existed at the two ends. *)
Lemma window_flags s a b id :
  store_wf s -> (a <= b)%N \/ b = st_state s ->
  match bt_get id (fold_left note_change (in_window s a b) []) with
  | Some d =>
      touched s a b id /\ d_created d = negb (existed_at s a id) /\
      d_destroyed d = negb (existed_at s b id) /\
      (d_created d = false -> d_destroyed d = false -> d_updated d = true)
  | None => existed_at s a id = existed_at s b id /\ ~ touched s a b id
  end.
Proof.
  intros Hwf Hab.
  assert (valid_life (kinds id (event <$> in_window s a b)) (existed_at s b id) = true /\
    existed_at s a id = before (kinds id (event <$> in_window s a b)) (existed_at s b id))
    as [Hv Hb].
  { destruct (decide (a <= b)%N) as [Hle|Hgt]; [by apply window_life|].
    destruct Hab as [?| ->]; [done|]. unfold in_window, existed_at.
    by rewrite window_beyond, changes_since_state by (done || lia). }
  destruct (bt_get id _) as [d|] eqn:Hg.
  - pose proof (note_changes_flag _ _ _ Created Hg) as Hc.
    pose proof (note_changes_flag _ _ _ Updated Hg) as Hu.
    pose proof (note_changes_flag _ _ _ Destroyed Hg) as Hd.
    rewrite note_changes_get in Hg. simpl in Hc, Hu, Hd.
    rewrite <- kinds_touched. destruct (valid_life_flags _ _ Hv) as [Hc' Hd'].
    rewrite Hb. destruct (kinds id _) as [|k ks]; [done|]. split; [done|].
    rewrite Hc' in Hc. rewrite Hd' in Hd. clear Hg Hv Hb.
    split; [destruct (d_created d), (before _ _); naive_solver|].
    split; [destruct (d_destroyed d), (existed_at s b id); naive_solver|].
    intros Ec Ed. apply Hu. rewrite Ec in Hc. rewrite Ed in Hd. clear Hu Ec Ed.
    destruct k; [|by left|]; exfalso.
    + clear Hd. naive_solver.
    + assert (Destroyed ∈ Destroyed :: ks) as [? ?]%Hd' by left. naive_solver.
  - rewrite note_changes_get in Hg. rewrite <- kinds_touched.
    rewrite Hb. destruct (kinds id _); [|done]. by split; [|intros []].
Qed.

Lemma elem_of_sorted_out (P : Id * Disposition -> Prop) `{!forall d, Decision (P d)}
    (m : btmap Id Disposition) id :
  bt_ok m -> (id ∈ (filter P m).*1) <-> exists d, bt_get id m = Some d /\ P (id, d).
Proof.
  intros Hm. rewrite list_elem_of_fmap. split.
  - intros ([id' d] & -> & [HP Hin]%list_elem_of_filter). exists d.
    split; [by apply bt_elem_get|done].
  - intros (d & Hg & HP). exists (id, d). split; [done|].
    apply list_elem_of_filter. split; [done|]. by apply bt_get_Some_elem.
Qed.

Lemma window_net s a b c u d :
  store_wf s -> (a <= b)%N \/ b = st_state s ->
  fold_left sort_out (fold_left note_change (in_window s a b) []) ([], [], []) = (c, u, d) ->
  net_change s a b c u d.
Proof.
  intros Hwf Hab. rewrite sort_out_spec. intros [= <- <- <-].
  assert (bt_ok (fold_left note_change (in_window s a b) [])) as Hok
    by (apply note_changes_ok; constructor).
  split; intros id; pose proof (window_flags s a b id Hwf Hab) as Hf; simpl.
  - rewrite elem_of_sorted_out by done. simpl.
    destruct (bt_get id _) as [d|]; [|naive_solver congruence].
    destruct Hf as (_ & Hc & Hd & _). split; [intros (? & [= <-] & Hf)|intros Hf; exists d];
      destruct (existed_at s a id), (existed_at s b id); simpl in *; naive_solver.
  - rewrite elem_of_sorted_out by done. simpl.
    destruct (bt_get id _) as [d|]; [|naive_solver congruence].
    destruct Hf as (Ht & Hc & Hd & Hu). split.
    + intros (? & [= <-] & Hf).
      destruct (existed_at s a id), (existed_at s b id); simpl in *; naive_solver congruence.
    + intros (Ha & Hb & _). rewrite Ha in Hc. rewrite Hb in Hd. exists d. simpl in *. auto.
  - rewrite elem_of_sorted_out by done. simpl.
    destruct (bt_get id _) as [d|]; [|naive_solver congruence].
    destruct Hf as (_ & Hc & Hd & _). split; [intros (? & [= <-] & Hf)|intros Hf; exists d];
      destruct (existed_at s a id), (existed_at s b id); simpl in *; naive_solver.
Qed.

Lemma note_changes_length cs m :
  length (fold_left note_change cs m) <= length m + length cs.
Proof.
  revert m. induction cs as [|c cs IH]; intros m; simpl; [lia|].
  etrans; [apply IH|]. unfold note_change.
  pose proof (bt_insert_length_le (ch_id c)
    (mark (default disposition_default (bt_get (ch_id c) m)) (ch_kind c)) m). lia.
Qed.

Lemma sort_out_length m c u d c' u' d' :
  fold_left sort_out m (c, u, d) = (c', u', d') ->
  length c' + length u' + length d' <= length c + length u + length d + length m.
Proof.
  revert c u d. induction m as [|[id [cr up de]] m IH]; intros c u d; cbn [fold_left].
  { intros [= <- <- <-]. simpl. lia. }
  destruct cr, de, up; cbn [sort_out d_created d_updated d_destroyed];
    intros Hf%IH; rewrite ?length_app in Hf; simpl in *; lia.
Qed.

Lemma sorted_out_sorted (P : Id * Disposition -> Prop) `{!forall d, Decision (P d)}
    (m : btmap Id Disposition) :
  bt_ok m -> StronglySorted klt (filter P m).*1.
Proof. intros Hm. by apply (bt_filter_ok P m). Qed.

(** The whole answer, in the terms the claims use. *)
Lemma store_changes_answer s request page_size flag since :
  store_wf s -> parse_u64 (cr_since_state request) = Some since ->
  exists e r, store_changes s request page_size flag = Ok r /\
    window s since (changes_cap page_size (cr_max_changes request)) = (e, cp_has_more_changes r) /\
    cp_account_id r = cr_account_id request /\ cp_old_state r = cr_since_state request /\
    cp_new_state r = to_dec e /\
    net_change s since e (cp_created r) (cp_updated r) (cp_destroyed r) /\
    StronglySorted klt (cp_created r) /\ StronglySorted klt (cp_updated r) /\
    StronglySorted klt (cp_destroyed r) /\
    length (cp_created r) + length (cp_updated r) + length (cp_destroyed r) <=
      length (in_window s since e).
Proof.
  intros Hwf Hp. unfold store_changes. rewrite Hp.
  destruct (window s since _) as [e more] eqn:Hw.
  fold (in_window s since e).
  destruct (fold_left sort_out _ _) as [[c u] d] eqn:Hs.
  exists e. eexists. split; [reflexivity|]. simpl.
  destruct (window_spec _ _ _ _ _ Hwf Hw) as [Hse _].
  repeat (split; [done|]). split; [by apply window_net|].
  pose proof (sort_out_length _ _ _ _ _ _ _ Hs) as Hlen.
  pose proof (note_changes_length (in_window s since e) []) as Hlen'. simpl in Hlen, Hlen'.
  rewrite sort_out_spec in Hs. injection Hs as <- <- <-.
  assert (bt_ok (fold_left note_change (in_window s since e) [])) as Hok
    by (apply note_changes_ok; constructor).
  split; [by apply sorted_out_sorted|]. split; [by apply sorted_out_sorted|].
  split; [by apply sorted_out_sorted|]. lia.
Qed.
End answers.

Lemma net_change_nodup {T} (s : Store T) a b c u d :
  net_change s a b c u d -> NoDup c -> NoDup u -> NoDup d -> NoDup (c ++ u ++ d).
Proof.
  intros [Hc Hu Hd] Nc Nu Nd. apply NoDup_app. split; [done|]. split.
  - intros id Hin%Hc. rewrite elem_of_app, Hu, Hd. naive_solver congruence.
  - apply NoDup_app. split; [done|]. split; [|done].
    intros id Hin%Hu. rewrite Hd. naive_solver congruence.
Qed.

(** ** Claims *)

(** C16: a [/changes] answer is the net difference of the store between the state asked
    from and the state it names: created ids are those that came to exist, destroyed ids
    those that ceased to, updated ids those that existed at both ends and have a log
    entry between, and every id is in at most one list, once. *)
Theorem store_changes_net {T} (s : Store T) request page_size flag since :
  store_wf s -> parse_u64 (cr_since_state request) = Some since ->
  exists e r, store_changes s request page_size flag = Ok r /\
    cp_old_state r = cr_since_state request /\ cp_new_state r = to_dec e /\
    net_change s since e (cp_created r) (cp_updated r) (cp_destroyed r) /\
    NoDup (cp_created r ++ cp_updated r ++ cp_destroyed r).
Proof.
  intros Hwf Hp.
  destruct (store_changes_answer s request page_size flag since Hwf Hp)
    as (e & r & Hr & _ & _ & Ho & Hn & Hnet & Sc & Su & Sd & _).
  exists e, r. repeat (split; [done|]).
  eapply net_change_nodup; [done|..]; by apply bs_ok_nodup.
Qed.

Lemma store_changes_net_witness :
  exists e r, store_changes example_store (changes_request_new (lit "a") (lit "1")) None false = Ok r /\
    cp_old_state r = lit "1" /\ cp_new_state r = to_dec e /\
    net_change example_store 1 e (cp_created r) (cp_updated r) (cp_destroyed r) /\
    NoDup (cp_created r ++ cp_updated r ++ cp_destroyed r).
Proof.
  apply (store_changes_net example_store (changes_request_new (lit "a") (lit "1")) None false 1);
    [apply example_store_wf|vm_compute; reflexivity].
Defined.

(** C22: paging of [/changes].  A last page ends at the store's current state; a page
    with more to come ends strictly between the state asked from and the current one,
    so following pages advances; and a page lists no more ids than the cap, unless the
    one transition it covers is larger. *)
Theorem store_changes_paging {T} (s : Store T) request page_size flag since :
  store_wf s -> parse_u64 (cr_since_state request) = Some since ->
  exists e r, store_changes s request page_size flag = Ok r /\ cp_new_state r = to_dec e /\
    (cp_has_more_changes r = false -> e = st_state s) /\
    (cp_has_more_changes r = true -> (since < e < st_state s)%N) /\
    forall cap, changes_cap page_size (cr_max_changes request) = Some cap ->
      (N.of_nat (length (cp_created r) + length (cp_updated r) + length (cp_destroyed r)) <= cap)%N \/
      (forall c, c ∈ st_changes s -> (since < ch_state c <= e)%N -> ch_state c = e).
Proof.
  intros Hwf Hp.
  destruct (store_changes_answer s request page_size flag since Hwf Hp)
    as (e & r & Hr & Hw & _ & _ & Hn & _ & _ & _ & _ & Hlen).
  exists e, r. split; [done|]. split; [done|].
  destruct (window_spec _ _ _ _ _ Hwf Hw) as (_ & _ & Hlast & Hmore).
  split; [done|]. split; [done|]. intros cap Hcap. rewrite Hcap in Hw.
  destruct (window_entries _ _ _ _ _ Hwf Hw) as [Hle|Hone]; [left; lia|right].
  intros c Hc Hin. rewrite Forall_forall in Hone. apply Hone.
  apply list_elem_of_filter. split; [lia|]. apply list_elem_of_filter. split; [lia|done].
Qed.

Lemma store_changes_paging_witness :
  exists e r, store_changes example_store (changes_request_new (lit "a") (lit "1")) (Some 1%N) false = Ok r /\
    cp_new_state r = to_dec e /\
    (cp_has_more_changes r = false -> e = st_state example_store) /\
    (cp_has_more_changes r = true -> (1 < e < st_state example_store)%N) /\
    forall cap, changes_cap (Some 1%N) None = Some cap ->
      (N.of_nat (length (cp_created r) + length (cp_updated r) + length (cp_destroyed r)) <= cap)%N \/
      (forall c, c ∈ st_changes example_store -> (1 < ch_state c <= e)%N -> ch_state c = e).
Proof.
  apply (store_changes_paging example_store (changes_request_new (lit "a") (lit "1")) (Some 1%N) false 1);
    [apply example_store_wf|vm_compute; reflexivity].
Defined.

(** A [sinceState] that is not a 64-bit decimal number is refused, with the error
    type the server is configured for, whatever the store holds. *)
Theorem store_changes_bad_state {T} (s : Store T) request page_size flag :
  parse_u64 (cr_since_state request) = None <->
  exists e, store_changes s request page_size flag = Err e /\
    me_error_type e = (if flag then INVALID_ARGUMENTS else CANNOT_CALCULATE_CHANGES).
Proof.
  unfold store_changes. destruct (parse_u64 _) as [since|].
  - split; [done|]. destruct (window _ _ _), (fold_left sort_out _ _) as [[? ?] ?].
    by intros (e & ? & _).
  - split; [|done]. intros _. eexists. split; [reflexivity|]. by destruct flag.
Qed.
