(* ===== verification/Patch.v ===== *)
(** JSON Pointer segments and PatchObject updates.

    [escape_pointer_segment] (jmap-proto/src/text.rs) and [member]
    (jmap-mail-sync/src/pointer.rs) make the key of a patch; [apply_patch]
    (jmap-mock/src/patch.rs) reads the keys back and applies them.  The theorems say
    that reading undoes escaping, that one patch entry sets or removes exactly the
    value its path addresses, and that every path that is neither above nor below it
    keeps its value. *)

From Stdlib Require Import Ascii String.
From stdpp Require Import prelude strings.
From S2P Require Import Prelude BTree Strings Json.
Open Scope rust_scope.

(** ** Operations *)
Definition escape_pointer_segment (segment : text) : text :=
  replace (lit "/") (lit "~1") (replace (lit "~") (lit "~0") segment).

Definition member (property name : text) : text :=
  property ++ lit "/" ++ escape_pointer_segment name.

Definition unescape_segment (segment : text) : text :=
  replace (lit "~0") (lit "~") (replace (lit "~1") (lit "/") segment).

Definition patch_segments (path : text) : list text :=
  unescape_segment <$> split_on "/"%char path.

(** The walk down [parents] with a mutable borrow, and the change at the leaf.  The
    first component is the target afterwards, which a failed walk can have changed. *)
Fixpoint patch_walk (path leaf : text) (new_value : Value) (parents : list text)
    (current : Value) : Value * result unit text :=
  match parents, current with
  | [], Object map =>
      (Object (if is_null new_value then bt_remove leaf map else bt_insert leaf new_value map),
       Ok tt)
  | [], _ => (current, Err (path ++ lit ": parent is not an object"))
  | parent :: parents, Object map =>
      let child := default (Object []) (bt_get parent map) in
      let '(child, r) := patch_walk path leaf new_value parents child in
      (Object (bt_insert parent child map), r)
  | parent :: _, _ => (current, Err (path ++ lit ": " ++ parent ++ lit " is not an object"))
  end.

Definition apply_entry (target : Value) (path : text) (new_value : Value)
  : Value * result unit text :=
  let segments := patch_segments path in
  match last segments with
  | None => (target, Err (lit "empty patch path"))
  | Some leaf => patch_walk path leaf new_value (removelast segments) target
  end.

Fixpoint apply_entries (target : Value) (patch : btmap text Value)
  : Value * result unit text :=
  match patch with
  | [] => (target, Ok tt)
  | (path, new_value) :: patch =>
      match apply_entry target path new_value with
      | (target, Ok _) => apply_entries target patch
      | (target, Err e) => (target, Err e)
      end
  end.

Definition apply_patch (target : Value) (patch : btmap text Value)
  : Value * result unit text :=
  match target with
  | Object _ => apply_entries target patch
  | _ => (target, Err (lit "patch target is not an object"))
  end.

(** ** Escaping *)
Definition escape_char (c : ascii) : text :=
  if decide (c = "~"%char) then lit "~0" else if decide (c = "/"%char) then lit "~1" else [c].

Lemma escape_chars t : escape_pointer_segment t = mjoin (escape_char <$> t).
Proof.
  unfold escape_pointer_segment. change (lit "~") with ["~"%char].
  change (lit "/") with ["/"%char]. rewrite !replace_char.
  induction t as [|c t IH]; [done|]. rewrite !fmap_cons, !mjoin_cons.
  rewrite fmap_app, join_app, IH. f_equal. unfold escape_char.
  repeat case_decide; subst; try done. simpl. by rewrite decide_False by congruence.
Qed.

Lemma unescape_slash t :
  replace (lit "~1") (lit "/") (mjoin (escape_char <$> t)) =
  replace ["~"%char] (lit "~0") t.
Proof.
  induction t as [|c t IH]; [done|]. rewrite fmap_cons, mjoin_cons.
  rewrite (replace_char "~") in *. rewrite fmap_cons, mjoin_cons.
  rewrite <- IH. unfold escape_char at 1. destruct (decide (c = "~"%char)) as [->|Hc].
  { rewrite decide_True by done. cbn [lit app String.list_ascii_of_string].
    by rewrite !replace_step. }
  destruct (decide ("~"%char = c)); [congruence|]. case_decide; subst.
  - by rewrite replace_match.
  - cbn [app]. rewrite replace_step; [done|]. unfold starts_with. simpl.
    rewrite decide_False by congruence. by rewrite bool_decide_eq_false_2 by (intros []; done).
Qed.

Lemma unescape_tilde t :
  replace (lit "~0") (lit "~") (replace ["~"%char] (lit "~0") t) = t.
Proof.
  rewrite replace_char. induction t as [|c t IH]; [done|]. rewrite fmap_cons, mjoin_cons. case_decide; subst.
  - rewrite replace_match by done. by rewrite IH.
  - cbn [app]. rewrite replace_step; [by rewrite IH|]. unfold starts_with. simpl.
    rewrite decide_False by done. by rewrite bool_decide_eq_false_2 by (intros []; done).
Qed.

Lemma unescape_escape t : unescape_segment (escape_pointer_segment t) = t.
Proof. unfold unescape_segment. by rewrite escape_chars, unescape_slash, unescape_tilde. Qed.

Lemma escape_no_slash t : "/"%char ∉ escape_pointer_segment t.
Proof.
  rewrite escape_chars. intros (x & Hx & (c & -> & _)%list_elem_of_fmap)%list_elem_of_join.
  unfold escape_char in Hx. revert Hx. repeat case_decide; simpl; rewrite ?elem_of_cons, ?elem_of_nil;
    naive_solver.
Qed.

(** The segments of a pointer made of escaped names are the names. *)
Lemma patch_segments_join names :
  names <> [] -> patch_segments (join (lit "/") (escape_pointer_segment <$> names)) = names.
Proof.
  intros Hn. unfold patch_segments. change (lit "/") with ["/"%char].
  rewrite split_join.
  - rewrite <- list_fmap_compose. rewrite <- (list_fmap_id names) at 2.
    apply list_fmap_ext. intros _ t _. apply unescape_escape.
  - by destruct names.
  - apply Forall_fmap, Forall_forall. intros t _. apply escape_no_slash.
Qed.

(** ** What a patch does

    [get_path] reads a value by its path, as a client would. *)
Fixpoint get_path (p : list text) (v : Value) : option Value :=
  match p with
  | [] => Some v
  | k :: p =>
      match v with
      | Object map => bt_get k map ≫= get_path p
      | _ => None
      end
  end.

(** The value a patch entry leaves at its path. *)
Definition patched (new_value : Value) : option Value :=
  if is_null new_value then None else Some new_value.

(** Two paths of which neither addresses a part of the other. *)
Definition apart (p q : list text) : Prop := ~ p `prefix_of` q /\ ~ q `prefix_of` p.

Lemma apart_cons k p q : apart (k :: p) (k :: q) <-> apart p q.
Proof.
  unfold apart. split; intros [H1 H2]; split; intros Hp.
  - by apply H1, prefix_cons.
  - by apply H2, prefix_cons.
  - by apply H1, (prefix_cons_inv_2 k k).
  - by apply H2, (prefix_cons_inv_2 k k).
Qed.

Lemma patch_walk_get path leaf nv parents v v' :
  patch_walk path leaf nv parents v = (v', Ok tt) ->
  get_path (parents ++ [leaf]) v' = patched nv.
Proof.
  revert v v'. induction parents as [|k parents IH]; intros v v'; simpl; destruct v; try done.
  - intros [= <-]. unfold patched. destruct (is_null nv).
    + by rewrite bt_get_remove, decide_True.
    + by rewrite bt_get_insert_eq.
  - destruct (patch_walk _ _ _ _ _) as [c r] eqn:E. intros [= <- ->].
    rewrite bt_get_insert_eq. simpl. by eapply IH.
Qed.

Lemma patch_walk_frame path leaf nv parents v v' r q :
  patch_walk path leaf nv parents v = (v', r) -> apart (parents ++ [leaf]) q ->
  get_path q v' = get_path q v.
Proof.
  revert v v' q. induction parents as [|k parents IH]; intros v v' q; simpl;
    (destruct v; [by intros [= <- <-]..|]).
  - intros [= <- <-] Hq. destruct q as [|k q]; [by destruct Hq as [_ []]; apply prefix_nil|].
    simpl. assert (leaf <> k).
    { intros ->. destruct Hq as [[] _]. apply prefix_cons, prefix_nil. }
    destruct (is_null nv); [rewrite bt_get_remove|rewrite bt_get_insert]; by rewrite decide_False.
  - destruct (patch_walk _ _ _ _ _) as [c r'] eqn:E. intros [= <- <-] Hq.
    destruct q as [|k' q]; [by destruct Hq as [_ []]; apply prefix_nil|]. simpl.
    rewrite bt_get_insert. case_decide; [subst k'|done].
    rewrite apart_cons in Hq. simpl. rewrite (IH _ _ _ E Hq).
    destruct (bt_get k map) as [c'|]; simpl; [done|].
    destruct q as [|k' q]; [|done]. by destruct Hq as [_ []]; apply prefix_nil.
Qed.

(** A walk fails exactly when its path crosses a value that is not an object. *)
Lemma patch_walk_error path leaf nv parents v :
  is_ok (patch_walk path leaf nv parents v).2 = false <->
  exists q w, q `prefix_of` parents /\ get_path q v = Some w /\ as_object w = None.
Proof.
  revert v. induction parents as [|k parents IH]; intros v.
  - transitivity (as_object v = None); [by destruct v|]. split.
    + intros Hv. exists [], v. split; [apply prefix_nil|done].
    + intros (q & w & Hq%prefix_nil_inv & Hg & Hw). subst. by simplify_eq/=.
  - destruct v as [| | | | |map]; simpl;
      try (split; [intros _; eexists [], _; split; [apply prefix_nil|done]|done]).
    destruct (patch_walk _ _ _ _ _) as [c r] eqn:E. simpl.
    specialize (IH (default (Object []) (bt_get k map))). rewrite E in IH. simpl in IH.
    rewrite IH. split.
    + intros (q & w & Hq & Hg & Hw). exists (k :: q), w. split; [by apply prefix_cons|].
      simpl. destruct (bt_get k map); [done|]. simpl in Hg.
      destruct q; simpl in Hg; by simplify_eq.
    + intros (q & w & Hq & Hg & Hw). destruct q as [|k' q]; [by simplify_eq/=|].
      apply prefix_cons_inv_1 in Hq as Hk. subst k'. apply prefix_cons_inv_2 in Hq.
      simpl in Hg. exists q, w. split; [done|]. destruct (bt_get k map); [done|]. done.
Qed.

Lemma patch_segments_snoc path :
  exists leaf, last (patch_segments path) = Some leaf /\
    removelast (patch_segments path) ++ [leaf] = patch_segments path.
Proof.
  unfold patch_segments. destruct (split_on_cons "/" path) as (p & r & ->).
  rewrite fmap_cons. generalize (unescape_segment <$> r). intros l.
  destruct (exists_last (l := unescape_segment p :: l)) as (l' & a & ->); [done|].
  exists a. by rewrite last_snoc, removelast_last.
Qed.

Lemma apply_entry_get t path nv t' :
  apply_entry t path nv = (t', Ok tt) -> get_path (patch_segments path) t' = patched nv.
Proof.
  unfold apply_entry. destruct (patch_segments_snoc path) as (leaf & -> & E).
  intros Hw%patch_walk_get. by rewrite E in Hw.
Qed.

Lemma apply_entry_frame t path nv t' r q :
  apply_entry t path nv = (t', r) -> apart (patch_segments path) q ->
  get_path q t' = get_path q t.
Proof.
  unfold apply_entry. destruct (patch_segments_snoc path) as (leaf & -> & E).
  intros Hw Hq. eapply patch_walk_frame; [done|]. by rewrite E.
Qed.

Lemma apply_entry_error t path nv :
  is_ok (apply_entry t path nv).2 = false <->
  exists q w, q `prefix_of` removelast (patch_segments path) /\
    get_path q t = Some w /\ as_object w = None.
Proof.
  unfold apply_entry. destruct (patch_segments_snoc path) as (leaf & -> & E).
  apply patch_walk_error.
Qed.

(** No entry of the patch addresses a part of another's value (RFC 8620 section 5.3). *)
Definition patch_apart (patch : btmap text Value) : Prop :=
  forall i j a b, patch !! i = Some a -> patch !! j = Some b -> i <> j ->
    apart (patch_segments a.1) (patch_segments b.1).

Lemma apply_entries_frame t patch t' r q :
  apply_entries t patch = (t', r) ->
  Forall (fun e => apart (patch_segments e.1) q) patch -> get_path q t' = get_path q t.
Proof.
  revert t. induction patch as [|[path nv] patch IH]; intros t; simpl.
  { by intros [= <- <-]. }
  destruct (apply_entry t path nv) as [t1 [[]|e]] eqn:E; intros Ha [Hq Hr]%Forall_cons.
  - rewrite (IH _ Ha Hr). by eapply apply_entry_frame.
  - simplify_eq. by eapply apply_entry_frame.
Qed.

Lemma apply_entries_get t patch t' path nv :
  apply_entries t patch = (t', Ok tt) -> patch_apart patch ->
  (path, nv) ∈ patch -> get_path (patch_segments path) t' = patched nv.
Proof.
  revert t. induction patch as [|[path1 nv1] patch IH]; intros t; simpl.
  { intros _ _ Hin. by apply elem_of_nil in Hin. }
  destruct (apply_entry t path1 nv1) as [t1 [[]|e]] eqn:E; [|done].
  intros Ha Hp [Heq|Hin]%elem_of_cons.
  - simplify_eq. rewrite (apply_entries_frame _ _ _ _ _ Ha); [by eapply apply_entry_get|].
    apply Forall_forall. intros e [i Hi]%list_elem_of_lookup_1.
    by apply (Hp (S i) 0 e (path1, nv1)).
  - eapply IH; [done| |done]. intros i j a b Hi Hj Hij.
    apply (Hp (S i) (S j)); [done|done|congruence].
Qed.

(** ** Claims *)

(** Reading a JSON Pointer undoes writing it: the segments that the server splits
    out of a key are the member names that the client escaped into it, whatever
    slashes and tildes they hold. *)
Theorem pointer_roundtrip (names : list text) :
  names <> [] ->
  patch_segments (join (lit "/") (escape_pointer_segment <$> names)) = names.
Proof. apply patch_segments_join. Qed.

Lemma pointer_roundtrip_witness :
  patch_segments (join (lit "/") (escape_pointer_segment <$> [lit "keywords"; lit "a/b~1"]))
  = [lit "keywords"; lit "a/b~1"].
Proof. apply pointer_roundtrip. done. Defined.

(** A patch that is applied leaves at each of its paths the entry's value (nothing,
    for a null), and every path apart from all entries reads as before. *)
Theorem apply_patch_sets (target target' : Value) (patch : btmap text Value) :
  patch_apart patch -> apply_patch target patch = (target', Ok tt) ->
  (forall path v, (path, v) ∈ patch -> get_path (patch_segments path) target' = patched v) /\
  (forall q, Forall (fun e => apart (patch_segments e.1) q) patch ->
     get_path q target' = get_path q target).
Proof.
  intros Hp. destruct target; simpl; try done. intros Ha. split.
  - intros path v Hin. by eapply apply_entries_get.
  - intros q Hq. by eapply apply_entries_frame.
Qed.

Definition example_target : Value :=
  Object [(lit "keywords", Object [(lit "$draft", Bool true)]); (lit "subject", String (lit "x"))].

Definition example_patch : btmap text Value :=
  [(lit "keywords/$seen", Bool true); (lit "subject", Null)].

Lemma example_patch_apart : patch_apart example_patch.
Proof.
  assert (apart (patch_segments (lit "keywords/$seen")) (patch_segments (lit "subject"))) as Ha.
  { split; intros [k E]; vm_compute in E; discriminate E. }
  intros [|[|i]] [|[|j]] a b; simpl; intros; simplify_eq; try done.
  destruct Ha. by split.
Qed.

Lemma apply_patch_sets_witness :
  (forall path v, (path, v) ∈ example_patch ->
     get_path (patch_segments path) (apply_patch example_target example_patch).1 = patched v) /\
  (forall q, Forall (fun e => apart (patch_segments e.1) q) example_patch ->
     get_path q (apply_patch example_target example_patch).1 = get_path q example_target).
Proof.
  apply apply_patch_sets; [apply example_patch_apart|]. vm_compute. reflexivity.
Defined.

(** One patch entry is refused exactly when its path crosses an existing value that
    is not an object; a missing parent never refuses it. *)
Theorem apply_patch_refuses (m : btmap text Value) (path : text) (v : Value) :
  is_ok (apply_patch (Object m) [(path, v)]).2 = false <->
  exists q w, q `prefix_of` removelast (patch_segments path) /\
    get_path q (Object m) = Some w /\ as_object w = None.
Proof.
  rewrite <- (apply_entry_error (Object m) path v). simpl.
  by destruct (apply_entry (Object m) path v) as [t [[]|e]].
Qed.

(** ** Patching keeps every object in key order *)
Lemma value_ok_insert k v m : value_ok (Object m) -> value_ok v -> value_ok (Object (bt_insert k v m)).
Proof.
  rewrite !value_ok_object, !Forall_forall. intros [Hm Hv] Hn. split; [by apply bt_insert_ok|].
  intros e [->|?]%elem_of_bt_insert; auto.
Qed.

Lemma value_ok_remove k m : value_ok (Object m) -> value_ok (Object (bt_remove k m)).
Proof.
  rewrite !value_ok_object, !Forall_forall. intros [Hm Hv]. split; [by apply bt_remove_ok|].
  intros e [_ ?]%list_elem_of_filter. auto.
Qed.

Lemma patch_walk_ok path leaf nv parents v :
  value_ok v -> value_ok nv -> value_ok (patch_walk path leaf nv parents v).1.
Proof.
  intros Hv Hn. revert v Hv. induction parents as [|k parents IH]; intros [| | | | |m] Hv; try done.
  - cbn [patch_walk fst]. destruct (is_null nv); [by apply value_ok_remove|by apply value_ok_insert].
  - cbn [patch_walk]. specialize (IH (default (Object []) (bt_get k m))).
    destruct (patch_walk path leaf nv parents (default (Object []) (bt_get k m))) as [child r]. cbn [fst] in *.
    apply value_ok_insert; [done|]. apply IH. destruct (bt_get k m) eqn:E; [by eapply value_ok_get|].
    apply value_ok_object. split; [apply bt_ok_nil|constructor].
Qed.

Lemma apply_entries_ok t patch :
  value_ok t -> Forall (fun e => value_ok e.2) patch -> value_ok (apply_entries t patch).1.
Proof.
  intros Ht Hp. revert t Ht. induction Hp as [|[path nv] patch Hn _ IH]; intros t Ht; [done|]. cbn [apply_entries].
  assert (value_ok (apply_entry t path nv).1) as Hw by (unfold apply_entry; case_match; [by apply patch_walk_ok|done]).
  destruct (apply_entry t path nv) as [t' []]; [by apply IH|done].
Qed.

Lemma apply_patch_ok t patch :
  value_ok t -> Forall (fun e => value_ok e.2) patch -> value_ok (apply_patch t patch).1.
Proof. intros Ht Hp. destruct t; try done. by apply apply_entries_ok. Qed.

(** ** Patches of the members of one property

    [pointer::member] makes the keys; a keyword change and a filing patch the members of
    one property only. *)
Definition member_patch (property : text) (entries : list (text * Value)) : btmap text Value :=
  fold_left (fun patch e => bt_insert (member property e.1) e.2 patch) entries [].

Definition set_member (members : btmap text Value) (e : text * Value) : btmap text Value :=
  if is_null e.2 then bt_remove e.1 members else bt_insert e.1 e.2 members.

(** The members of a property that is absent or an object. *)
Definition members_of (property : text) (m : btmap text Value) : option (btmap text Value) :=
  match bt_get property m with
  | None => Some []
  | Some (Object members) => Some members
  | Some _ => None
  end.

Section member.
Variable property : text.
Hypothesis Hslash : "/"%char ∉ property.
Hypothesis Htilde : "~"%char ∉ property.

Lemma patch_segments_member name : patch_segments (member property name) = [property; name].
Proof using Hslash Htilde.
  assert (escape_pointer_segment property = property) as Hp.
  { rewrite escape_chars. induction property as [|c p IH]; [done|].
    apply not_elem_of_cons in Hslash as [Hs ?], Htilde as [Ht ?].
    rewrite fmap_cons, mjoin_cons, IH by done. unfold escape_char.
    by rewrite !decide_False. }
  unfold member. rewrite <- Hp at 1. by apply (patch_segments_join [property; name]).
Qed.

Lemma member_inj name name' : member property name = member property name' -> name = name'.
Proof using Hslash Htilde.
  intros E. pose proof (patch_segments_member name) as H1. rewrite E, patch_segments_member in H1. by simplify_eq.
Qed.

Lemma apply_member m members name v :
  members_of property m = Some members ->
  apply_entry (Object m) (member property name) v =
  (Object (bt_insert property (Object (set_member members (name, v))) m), Ok tt).
Proof using Hslash Htilde.
  unfold members_of, apply_entry. intros Hm. rewrite patch_segments_member. cbn [last removelast patch_walk].
  destruct (bt_get property m) as [[]|]; simplify_eq; done.
Qed.

Lemma member_patch_of_list entries :
  member_patch property entries = bt_of_list ((fun e => (member property e.1, e.2)) <$> entries).
Proof.
  unfold member_patch, bt_of_list. generalize (@nil (text * Value)). induction entries as [|e l IH]; intros p; [done|].
  rewrite fmap_cons. cbn [fold_left]. apply IH.
Qed.

Lemma member_patch_elem entries path v :
  NoDup entries.*1 ->
  (path, v) ∈ member_patch property entries <-> exists name, path = member property name /\ (name, v) ∈ entries.
Proof using Hslash Htilde.
  intros Hn. rewrite member_patch_of_list, bt_elem_get by apply bt_of_list_ok. rewrite bt_get_of_list.
  - rewrite list_elem_of_fmap. split; [intros ([n w]&[= -> ->]&?); eauto|intros (n&->&?); by exists (n, v)].
  - rewrite <- list_fmap_compose. change (NoDup ((member property ∘ fst) <$> entries)).
    rewrite list_fmap_compose. apply NoDup_fmap_2_strong; [|done]. intros n n' _ _. apply member_inj.
Qed.

(** The patch in the order of its keys is a list of member entries again. *)
Lemma member_patch_sorted entries :
  NoDup entries.*1 ->
  exists sorted, member_patch property entries = (fun e => (member property e.1, e.2)) <$> sorted /\
    NoDup sorted.*1 /\ forall e, e ∈ sorted <-> e ∈ entries.
Proof using Hslash Htilde.
  intros Hn. pose proof (fun path v => member_patch_elem entries path v Hn) as Hp.
  assert (bt_ok (member_patch property entries)) as Hok by (rewrite member_patch_of_list; apply bt_of_list_ok).
  set (name_of := fun path : text => default [] (patch_segments path !! 1)).
  assert (forall n, name_of (member property n) = n) as Hname by (intros n; unfold name_of; by rewrite patch_segments_member).
  exists ((fun e => (name_of e.1, e.2)) <$> member_patch property entries).
  assert (forall e, e ∈ ((fun e => (name_of e.1, e.2)) <$> member_patch property entries) <-> e ∈ entries) as He.
  { intros [n v]. rewrite list_elem_of_fmap. split.
    - intros ([path w]&[= -> ->]&(n'&->&Hin)%Hp). cbn [fst]. by rewrite Hname.
    - intros Hin. exists (member property n, v). cbn [fst snd]. rewrite Hname, Hp. eauto. }
  split_and!; [|  |exact He].
  - rewrite <- list_fmap_compose. rewrite <- (list_fmap_id (member_patch property entries)) at 1.
    apply list_fmap_ext. intros i [path v] Hi%list_elem_of_lookup_2. apply Hp in Hi as (n&->&_). cbn. by rewrite Hname.
  - rewrite <- list_fmap_compose. apply bt_ok_nodup in Hok.
    change (NoDup ((name_of ∘ fst) <$> member_patch property entries)). rewrite list_fmap_compose.
    apply NoDup_fmap_2_strong; [|done]. intros p1 p2 ([? v1]&->&H1)%list_elem_of_fmap ([? v2]&->&H2)%list_elem_of_fmap.
    apply Hp in H1 as (n1&->&_), H2 as (n2&->&_). cbn [fst]. rewrite !Hname. by intros ->.
Qed.

(** The walk over a list of member entries is the fold of [set_member]. *)
Lemma apply_members m members entries :
  members_of property m = Some members ->
  exists m', apply_entries (Object m) ((fun e => (member property e.1, e.2)) <$> entries) = (Object m', Ok tt) /\
    members_of property m' = Some (fold_left set_member entries members) /\
    (forall k, k <> property -> bt_get k m' = bt_get k m) /\ (bt_ok m -> bt_ok m').
Proof using Hslash Htilde.
  revert m members. induction entries as [|[name v] l IH]; intros m members Hm; [by exists m|].
  rewrite fmap_cons. cbn [apply_entries fst snd]. rewrite (apply_member m members) by done.
  destruct (IH (bt_insert property (Object (set_member members (name, v))) m) (set_member members (name, v)))
    as (m'&->&Hm'&Hk&Hok); [unfold members_of; by rewrite bt_get_insert_eq|].
  exists m'. split_and!; [done..| |]; [intros k Hne; rewrite Hk by done; by apply bt_get_insert_ne|].
  intros Hb. by apply Hok, bt_insert_ok.
Qed.

Lemma fold_set_member_ok entries members : bt_ok members -> bt_ok (fold_left set_member entries members).
Proof.
  revert members. induction entries as [|[n v] l IH]; intros members Hm; [done|]. cbn [fold_left]. apply IH.
  unfold set_member. cbn [fst snd]. destruct (is_null v); [by apply bt_remove_ok|by apply bt_insert_ok].
Qed.

Lemma fold_set_member entries members name :
  NoDup entries.*1 ->
  bt_get name (fold_left set_member entries members) =
  match bt_get name entries with Some v => patched v | None => bt_get name members end.
Proof.
  revert members. induction entries as [|[n v] l IH]; intros members; [done|].
  rewrite fmap_cons. intros [Hn Hl]%NoDup_cons. cbn [fold_left bt_get]. rewrite IH by done.
  assert (bt_get name (set_member members (n, v)) = if decide (n = name) then patched v else bt_get name members) as ->.
  { unfold set_member, patched. cbn [fst snd]. destruct (is_null v); [by rewrite bt_get_remove|by rewrite bt_get_insert]. }
  destruct (decide (name = n)) as [->|Hne]; [|by rewrite (decide_False (P := n = name)) by congruence].
  rewrite decide_True by done. apply bt_get_None_elem in Hn. cbn [fst] in Hn. by rewrite Hn.
Qed.

(** A member patch sets the members it names, removes those it gives null, and changes no
    other member and no other property. *)
Lemma apply_member_patch m members entries :
  members_of property m = Some members -> NoDup entries.*1 ->
  exists m' members', apply_patch (Object m) (member_patch property entries) = (Object m', Ok tt) /\
    members_of property m' = Some members' /\
    (forall name, bt_get name members' =
       match bt_get name entries with Some v => patched v | None => bt_get name members end) /\
    (forall k, k <> property -> bt_get k m' = bt_get k m) /\
    (bt_ok m -> bt_ok m') /\ (bt_ok members -> bt_ok members').
Proof using Hslash Htilde.
  intros Hm Hn.
  destruct (member_patch_sorted entries Hn) as (sorted&->&Hs&He).
  destruct (apply_members m members sorted Hm) as (m'&Ha&Hm'&Hk&Hok).
  exists m', (fold_left set_member sorted members). split_and!; [exact Ha|done| |done|done|by apply fold_set_member_ok].
  intros name. rewrite fold_set_member by done. destruct (bt_get name entries) as [v|] eqn:E.
  - apply bt_get_Some_elem in E. by rewrite (nodup_bt_get name v sorted) by (done || by apply He).
  - destruct (bt_get name sorted) as [v|] eqn:E'; [|done].
    apply bt_get_Some_elem, He, (nodup_bt_get _ _ _ Hn) in E'. congruence.
Qed.
End member.
