(* ===== verification/SetMethod.v ===== *)
(** The mock server's [/set] (jmap-mock/src/setops.rs: [simple_set_with_validation]).

    One request creates, updates and destroys objects of one store.  Creates get a
    fresh id and pass a caller's [prepare]; updates apply a PatchObject to the JSON
    form of the object and pass [validate_update]; what is accepted happens in one
    transaction, and each destroy in it passes [validate_destroy].  The theorems say
    that a request is one step of the store's history, that every entry is answered
    exactly once and the answer agrees with the store, and that a stale [ifInState]
    changes nothing. *)

From stdpp Require Import prelude strings sorting.
From S2P Require Import Prelude BTree Text Json Proto Strings Patch Store.
Open Scope rust_scope.

(** ** Operations *)
Section set_method.
Context {T : Type}.

(** The [serde] conversions of the object type and the caller's closures, none of
    which keeps state between calls. *)
Variable to_value : T -> result Value text.
Variable from_value : Value -> result T text.
Variable prepare : Id -> T -> result T SetError.
Variable validate_update : Id -> T -> T -> result unit SetError.
Variable validate_destroy : Id -> T -> result unit SetError.
Implicit Types (s : Store T).

Record Creating := {
  cg_store : Store T;
  cg_created : btmap text T;
  cg_not_created : btmap text SetError;
  cg_to_create : list (Id * T);
}.

Definition create_entry (c : Creating) (e : text * T) : Creating :=
  let '(creation_id, object) := e in
  let '(id, s) := store_alloc_id (cg_store c) in
  match prepare id object with
  | Ok object =>
      {| cg_store := s;
         cg_created := bt_insert creation_id object (cg_created c);
         cg_not_created := cg_not_created c;
         cg_to_create := cg_to_create c ++ [(id, object)] |}
  | Err set_error =>
      {| cg_store := s;
         cg_created := cg_created c;
         cg_not_created := bt_insert creation_id set_error (cg_not_created c);
         cg_to_create := cg_to_create c |}
  end.

Definition create_entries s (create : btmap text T) : Creating :=
  fold_left create_entry create
    {| cg_store := s; cg_created := []; cg_not_created := []; cg_to_create := [] |}.

(** What an update entry comes to: the patched object, an error for this entry, or a
    failure of the whole method. *)
Definition patch_outcome (id : Id) (existing : T) (patch_map : btmap text Value)
  : result (result T SetError) MethodError :=
  match to_value existing with
  | Err e => Err (method_error_with_description (method_error_new SERVER_FAIL) e)
  | Ok value =>
      let '(value, r) := apply_patch value patch_map in
      Ok (let? _ := map_err (fun message =>
            set_error_with_description (set_error_new INVALID_PATCH) message) r in
          let? patched := map_err (fun e =>
            set_error_with_description (set_error_new INVALID_PATCH) e) (from_value value) in
          let? _ := validate_update id existing patched in
          Ok patched)
  end.

Definition update_outcome s (id : Id) (patch : Value) : result (result T SetError) MethodError :=
  match store_get s id with
  | None => Ok (Err (set_error_new NOT_FOUND))
  | Some existing =>
      match as_object patch with
      | None => Ok (Err (set_error_new INVALID_PATCH))
      | Some patch_map => patch_outcome id existing patch_map
      end
  end.

Definition update_entry s (acc : btmap Id SetError * list (Id * T)) (e : Id * Value)
  : result (btmap Id SetError * list (Id * T)) MethodError :=
  let '(not_updated, to_update) := acc in
  let '(id, patch) := e in
  let? outcome := update_outcome s id patch in
  Ok (match outcome with
      | Ok patched => (not_updated, to_update ++ [(id, patched)])
      | Err set_error => (bt_insert id set_error not_updated, to_update)
      end).

Definition destroy_entry
    (acc : Transaction T * list Id * btmap Id SetError) (id : Id)
  : Transaction T * list Id * btmap Id SetError :=
  let '(t, destroyed, not_destroyed) := acc in
  match transaction_get t id with
  | None => (t, destroyed, bt_insert id (set_error_new NOT_FOUND) not_destroyed)
  | Some existing =>
      match validate_destroy id existing with
      | Ok _ => ((transaction_destroy t id).2, destroyed ++ [id], not_destroyed)
      | Err set_error => (t, destroyed, bt_insert id set_error not_destroyed)
      end
  end.

(** The body of the transaction. *)
Definition set_body (to_create to_update : list (Id * T)) (destroy : list Id)
    (t : Transaction T)
  : (btmap Id (option T) * list Id * btmap Id SetError) * Transaction T :=
  let t := fold_left (fun t e => transaction_create t e.1 e.2) to_create t in
  let '(t, updated) :=
    fold_left (fun '(t, updated) e =>
        ((transaction_update t e.1 e.2).2, bt_insert e.1 None updated)) to_update (t, []) in
  let '(t, destroyed, not_destroyed) := fold_left destroy_entry destroy (t, [], []) in
  ((updated, destroyed, not_destroyed), t).

Definition non_empty {A} (l : list A) : option (list A) :=
  match l with [] => None | _ => Some l end.

Definition simple_set_with_validation s (request : SetRequest T)
  : Store T * result (SetResponse T) MethodError :=
  let old_state := store_state s in
  if match sr_if_in_state request with
     | Some expected => negb (bool_decide (expected = old_state))
     | None => false
     end
  then (s, Err (method_error_new STATE_MISMATCH))
  else
    let c := create_entries s (default [] (sr_create request)) in
    let s := cg_store c in
    match try_fold (update_entry s) ([], []) (default [] (sr_update request)) with
    | Err e => (s, Err e)
    | Ok (not_updated, to_update) =>
        let '((updated, destroyed, not_destroyed), s) :=
          store_transaction s (set_body (cg_to_create c) to_update (default [] (sr_destroy request))) in
        (s, Ok {| sp_account_id := sr_account_id request;
                  sp_old_state := Some old_state;
                  sp_new_state := Some (store_state s);
                  sp_created := non_empty (cg_created c);
                  sp_updated := non_empty updated;
                  sp_destroyed := non_empty destroyed;
                  sp_not_created := non_empty (cg_not_created c);
                  sp_not_updated := non_empty not_updated;
                  sp_not_destroyed := non_empty not_destroyed |})
    end.

(** ** Creates *)
Lemma create_entry_store c e :
  cg_store (create_entry c e) = (store_alloc_id (cg_store c)).2.
Proof. destruct e as [cid o]. unfold create_entry. simpl. by destruct (prepare _ _). Qed.

Lemma create_entries_snoc s create e :
  create_entries s (create ++ [e]) = create_entry (create_entries s create) e.
Proof. unfold create_entries. by rewrite fold_left_app. Qed.

(** The creates allocate one id each, and change nothing else of the store. *)
Lemma create_entries_store s create :
  (st_next_id s + N.of_nat (length create) <= u64_max)%N ->
  cg_store (create_entries s create) =
  Build_Store (st_prefix s) (st_next_id s + N.of_nat (length create)) (st_state s)
    (st_objects s) (st_changes s).
Proof.
  induction create as [|e create IH] using rev_ind; intros Hb.
  { destruct s. unfold create_entries. simpl. f_equal. lia. }
  rewrite length_app in *. simpl in Hb.
  rewrite create_entries_snoc, create_entry_store, IH by lia. unfold store_alloc_id. simpl.
  f_equal. rewrite wrap_u64_small; lia.
Qed.

Lemma create_entries_steps s create :
  (st_next_id s + N.of_nat (length create) <= u64_max)%N ->
  rtc store_step s (cg_store (create_entries s create)).
Proof.
  induction create as [|e create IH] using rev_ind; intros Hb; [apply rtc_refl|].
  rewrite length_app in Hb. simpl in Hb. rewrite create_entries_snoc, create_entry_store.
  eapply rtc_r; [apply IH; lia|]. apply StepAlloc. rewrite create_entries_store by lia. simpl. lia.
Qed.

(** The ids of the accepted creates: distinct, and between the two counter values. *)
Lemma create_entries_ids s create :
  (st_next_id s + N.of_nat (length create) <= u64_max)%N ->
  exists ns, (cg_to_create (create_entries s create)).*1 = id_at s <$> ns /\ NoDup ns /\
    Forall (fun n => st_next_id s <= n < st_next_id s + N.of_nat (length create))%N ns.
Proof.
  induction create as [|[cid o] create IH] using rev_ind; intros Hb.
  { exists []. split; [done|]. split; constructor. }
  rewrite length_app in *. simpl in *. destruct IH as (ns & Hns & Hd & Hf); [lia|].
  pose proof (create_entries_store s create) as Hst.
  rewrite create_entries_snoc. unfold create_entry. simpl. rewrite Hst by lia. simpl.
  destruct (prepare _ _) as [o'|e]; simpl.
  - exists (ns ++ [st_next_id s + N.of_nat (length create)]%N). rewrite !fmap_app, Hns.
    split; [done|]. split.
    + apply NoDup_app. split; [done|]. split; [|apply NoDup_singleton].
      intros n Hn ->%list_elem_of_singleton. rewrite Forall_forall in Hf. apply Hf in Hn. lia.
    + apply Forall_app. split; [eapply Forall_impl; [done|]; simpl; lia|].
      repeat constructor; lia.
  - exists ns. split; [done|]. split; [done|]. eapply Forall_impl; [done|]. simpl. lia.
Qed.

(** Each creation id is answered once: with the prepared object, which is then among
    those to create, or with its error. *)
Lemma create_entries_answers s create cid o :
  NoDup create.*1 -> (cid, o) ∈ create ->
  let c := create_entries s create in
  (exists id o', prepare id o = Ok o' /\ bt_get cid (cg_created c) = Some o' /\
     bt_get cid (cg_not_created c) = None /\ (id, o') ∈ cg_to_create c) \/
  (exists id e, prepare id o = Err e /\ bt_get cid (cg_not_created c) = Some e /\
     bt_get cid (cg_created c) = None).
Proof.
  assert (forall create, cid ∉ create.*1 ->
    bt_get cid (cg_created (create_entries s create)) = None /\
    bt_get cid (cg_not_created (create_entries s create)) = None) as Hout.
  { clear create. intros create. induction create as [|[k v] create IH] using rev_ind; [done|].
    rewrite fmap_app, not_elem_of_app. simpl. intros [[H1 H2]%IH Hk%not_elem_of_cons].
    rewrite create_entries_snoc. unfold create_entry. simpl.
    destruct (prepare _ _); simpl; rewrite bt_get_insert, decide_False by naive_solver; done. }
  induction create as [|[k v] create IH] using rev_ind; [by intros _ ?%elem_of_nil|].
  rewrite fmap_app. intros (Hd & Hk & _)%NoDup_app. simpl in Hk.
  intros [Hin|Heq%list_elem_of_singleton]%elem_of_app.
  - assert (k <> cid).
    { intros ->. apply (Hk cid); [|by left]. by apply (list_elem_of_fmap_2 fst _ (cid, o)). }
    specialize (IH Hd Hin). simpl in IH. rewrite create_entries_snoc. unfold create_entry. simpl.
    destruct (prepare (id_at _ _) v); simpl; rewrite bt_get_insert, decide_False by done;
      [|done]. destruct IH as [(id & o' & ? & ? & ? & ?)|?]; [left|by right].
    exists id, o'. rewrite elem_of_app. naive_solver.
  - injection Heq as <- <-. destruct (Hout create) as [H1 H2].
    { intros Hin. apply (Hk cid Hin). by left. }
    rewrite create_entries_snoc. unfold create_entry. simpl.
    destruct (prepare _ o) as [o'|e] eqn:E; simpl; rewrite bt_get_insert_eq; [left|right].
    + eexists _, o'. rewrite elem_of_app, list_elem_of_singleton. eauto.
    + by eexists _, e.
Qed.

(** ** The transaction *)
Definition creates (l : list (Id * T)) (t : Transaction T) : Transaction T :=
  fold_left (fun t e => transaction_create t e.1 e.2) l t.

Definition updates (l : list (Id * T)) (t : Transaction T) : Transaction T * btmap Id (option T) :=
  fold_left (fun '(t, updated) e =>
    ((transaction_update t e.1 e.2).2, bt_insert e.1 None updated)) l (t, []).

Definition destroys (l : list Id) (t : Transaction T)
  : Transaction T * list Id * btmap Id SetError :=
  fold_left destroy_entry l (t, [], []).

Lemma fresh_id_create (t : Transaction T) id v id' :
  fresh_id t id' -> id <> id' -> fresh_id (transaction_create t id v) id'.
Proof.
  intros (Hc & Hk & Hn) Hne. split; [|split].
  - unfold transaction_contains in *. simpl.
    by rewrite store_contains_insert, bool_decide_eq_false_2.
  - simpl. rewrite app_assoc, kinds_snoc. by rewrite decide_False.
  - done.
Qed.

Lemma creates_steps l (t : Transaction T) :
  NoDup l.*1 -> Forall (fun e => fresh_id t e.1) l -> rtc tx_step t (creates l t).
Proof.
  revert t. induction l as [|[id v] l IH]; intros t; simpl; [intros; apply rtc_refl|].
  intros [Hid Hd]%NoDup_cons [Hf Hl]%Forall_cons.
  eapply rtc_l; [by apply TxCreate|]. apply IH; [done|].
  rewrite Forall_forall in *. intros e He. apply fresh_id_create; [by apply Hl|].
  intros ->. apply Hid. by apply list_elem_of_fmap_2.
Qed.

Lemma updates_snoc l e (t : Transaction T) :
  updates (l ++ [e]) t =
  ((transaction_update (updates l t).1 e.1 e.2).2, bt_insert e.1 None (updates l t).2).
Proof. unfold updates. rewrite fold_left_app. simpl. by destruct (fold_left _ _ _). Qed.

Lemma updates_steps l (t : Transaction T) : rtc tx_step t (updates l t).1.
Proof.
  induction l as [|e l IH] using rev_ind; [apply rtc_refl|].
  rewrite updates_snoc. eapply rtc_r; [done|]. apply TxUpdate.
Qed.

Lemma destroys_snoc l id (t : Transaction T) :
  destroys (l ++ [id]) t = destroy_entry (destroys l t) id.
Proof. unfold destroys. by rewrite fold_left_app. Qed.

Lemma destroys_steps l (t : Transaction T) : rtc tx_step t (destroys l t).1.1.
Proof.
  induction l as [|id l IH] using rev_ind; [apply rtc_refl|]. rewrite destroys_snoc.
  destruct (destroys l t) as [[t' d] nd]. simpl in *.
  destruct (transaction_get t' id); simpl; [|done].
  destruct (validate_destroy id _); simpl; [|done]. eapply rtc_r; [done|]. apply TxDestroy.
Qed.

Lemma set_body_eq to_create to_update destroy (t : Transaction T) :
  set_body to_create to_update destroy t =
  let '(t, updated) := updates to_update (creates to_create t) in
  let '(t, destroyed, not_destroyed) := destroys destroy t in
  ((updated, destroyed, not_destroyed), t).
Proof. done. Qed.

Lemma set_body_steps to_create to_update destroy (t : Transaction T) :
  NoDup to_create.*1 -> Forall (fun e => fresh_id t e.1) to_create ->
  rtc tx_step t (set_body to_create to_update destroy t).2.
Proof.
  intros Hd Hf. rewrite set_body_eq.
  destruct (updates to_update (creates to_create t)) as [t1 u] eqn:Eu.
  destruct (destroys destroy t1) as [[t2 d] nd] eqn:Ed. simpl.
  etrans; [by apply creates_steps|]. etrans; [apply (updates_steps to_update)|].
  rewrite Eu. simpl. pose proof (destroys_steps destroy t1) as Hs. by rewrite Ed in Hs.
Qed.

(** The objects after each part of the body. *)
Lemma creates_get l (t : Transaction T) id :
  NoDup l.*1 ->
  transaction_get (creates l t) id =
  match bt_get id l with Some v => Some v | None => transaction_get t id end.
Proof.
  revert t. induction l as [|[id' v] l IH]; intros t; simpl; [done|].
  intros [Hn Hd]%NoDup_cons. rewrite IH by done.
  assert (transaction_get (transaction_create t id' v) id =
    if decide (id = id') then Some v else transaction_get t id) as ->.
  { unfold transaction_get, store_get. simpl. by rewrite bt_get_insert; repeat case_decide; subst. }
  case_decide; subst; [|done]. by rewrite (proj2 (bt_get_None_elem id' l)).
Qed.

Lemma update_get (t : Transaction T) id v id' :
  is_Some (transaction_get t id) ->
  transaction_get (transaction_update t id v).2 id' =
  if decide (id = id') then Some v else transaction_get t id'.
Proof.
  intros Hs. unfold transaction_update.
  rewrite (proj2 (store_contains_get (tx_store t) id)) by done. simpl.
  unfold transaction_get, store_get. simpl. apply bt_get_insert.
Qed.

Lemma bt_get_snoc (l : list (Id * T)) id k v :
  k ∉ l.*1 ->
  bt_get id (l ++ [(k, v)]) = if decide (k = id) then Some v else bt_get id l.
Proof.
  induction l as [|[k' v'] l IH]; simpl; intros Hk.
  { repeat case_decide; by subst. }
  apply not_elem_of_cons in Hk as [Hne Hk]. rewrite IH by done.
  repeat case_decide; subst; by simplify_eq.
Qed.

Lemma updates_get l (t : Transaction T) id :
  NoDup l.*1 -> Forall (fun e => is_Some (transaction_get t e.1)) l ->
  transaction_get (updates l t).1 id =
    match bt_get id l with Some v => Some v | None => transaction_get t id end /\
  bt_get id (updates l t).2 = (fun _ => None) <$> bt_get id l.
Proof.
  revert id. induction l as [|[k v] l IH] using rev_ind; intros id; [done|].
  rewrite fmap_app. intros (Hd & Hk & _)%NoDup_app [Hl [Hs _]%Forall_cons]%Forall_app.
  assert (k ∉ l.*1) as Hn by (intros Hin; apply (Hk k Hin); by left).
  rewrite updates_snoc, bt_get_snoc by done. simpl. split.
  - rewrite update_get.
    + case_decide; [done|]. by apply IH.
    + destruct (IH k Hd Hl) as [-> _]. by rewrite (proj2 (bt_get_None_elem k l) Hn).
  - rewrite bt_get_insert. case_decide; [done|]. by apply IH.
Qed.

Lemma destroys_spec l (t : Transaction T) t' d nd :
  destroys l t = (t', d, nd) ->
  (forall id, transaction_get t' id = if decide (id ∈ d) then None else transaction_get t id) /\
  (forall id, id ∈ l -> (id ∈ d) \/ is_Some (bt_get id nd)) /\
  (forall id, id ∈ d -> id ∈ l /\
     exists v, transaction_get t id = Some v /\ validate_destroy id v = Ok tt).
Proof.
  revert t' d nd. induction l as [|k l IH] using rev_ind; intros t' d nd.
  { intros [= <- <- <-]. split; [done|]. split; by intros id ?%elem_of_nil. }
  rewrite destroys_snoc. destruct (destroys l t) as [[t1 d1] nd1].
  destruct (IH _ _ _ eq_refl) as (Hg & Hl & Hd). simpl.
  destruct (transaction_get t1 k) as [v|] eqn:Ek; [destruct (validate_destroy k v) as [[]|e] eqn:Ev|];
    intros [= <- <- <-].
  - split; [|split].
    + intros id. pose proof (Hg id) as Hi. unfold transaction_destroy, transaction_get in *. simpl.
      rewrite Ek. simpl. unfold store_get in *. simpl. rewrite bt_get_remove, Hi.
      destruct (decide (id ∈ d1 ++ [k])) as [Hin|Hin], (decide (k = id)), (decide (id ∈ d1));
        try done; rewrite elem_of_app, list_elem_of_singleton in Hin; naive_solver.
    + intros id. rewrite !elem_of_app, !list_elem_of_singleton. naive_solver.
    + intros id. rewrite !elem_of_app, !list_elem_of_singleton.
      intros [Hi| ->]; [naive_solver|]. split; [by right|]. exists v.
      rewrite Hg in Ek. case_decide; [done|]. naive_solver.
  - split; [done|]. split; intros id; rewrite elem_of_app, list_elem_of_singleton; [|naive_solver].
    rewrite bt_get_insert. case_decide; [by right|]. naive_solver.
  - split; [done|]. split; intros id; rewrite elem_of_app, list_elem_of_singleton; [|naive_solver].
    rewrite bt_get_insert. case_decide; [by right|]. naive_solver.
Qed.

(** ** Updates *)
Lemma update_outcome_found s id patch v :
  update_outcome s id patch = Ok (Ok v) -> is_Some (store_get s id).
Proof. unfold update_outcome. destruct (store_get s id); [eauto|done]. Qed.

Lemma update_entries_spec s upd nu tu :
  try_fold (update_entry s) ([], []) upd = Ok (nu, tu) -> NoDup upd.*1 ->
  NoDup tu.*1 /\ Forall (fun e => is_Some (store_get s e.1)) tu /\
  (forall id, id ∉ upd.*1 -> bt_get id tu = None /\ bt_get id nu = None) /\
  forall id patch, (id, patch) ∈ upd ->
    (exists v, update_outcome s id patch = Ok (Ok v) /\ bt_get id tu = Some v /\
       bt_get id nu = None) \/
    (exists e, update_outcome s id patch = Ok (Err e) /\ bt_get id nu = Some e /\
       bt_get id tu = None).
Proof.
  revert nu tu. induction upd as [|[k p] upd IH] using rev_ind; intros nu tu.
  { intros [= <- <-] _. split; [constructor|]. split; [constructor|].
    split; [done|]. by intros id patch ?%elem_of_nil. }
  rewrite try_fold_app, fmap_app. destruct (try_fold _ _ _) as [[nu1 tu1]|]; [|done].
  intros Hf (Hd & Hk & _)%NoDup_app. destruct (IH nu1 tu1 eq_refl Hd) as (Ht & Hs & Hout & Hin).
  assert (k ∉ upd.*1) as Hn by (intros Hi; apply (Hk k Hi); by left).
  destruct (Hout k Hn) as [Hkt Hkn]. apply bt_get_None_elem in Hkt.
  assert (forall id patch, (id, patch) ∈ upd -> k <> id) as Hne.
  { intros id patch Hi ->. apply Hn. by apply (list_elem_of_fmap_2 fst _ (id, patch)). }
  simpl in Hf. destruct (update_outcome s k p) as [[v|e]|e] eqn:E; simplify_eq/=.
  - split; [|split; [|split]].
    + rewrite fmap_app. apply NoDup_app. split; [done|]. split; [|apply NoDup_singleton].
      by intros x Hx ->%list_elem_of_singleton.
    + apply Forall_app. split; [done|]. repeat constructor. by eapply update_outcome_found.
    + intros id. rewrite not_elem_of_app, not_elem_of_cons. simpl.
      intros (Hi & Hik & _). rewrite bt_get_snoc, decide_False by done. by apply Hout.
    + intros id patch [Hi|Hi%list_elem_of_singleton]%elem_of_app; rewrite bt_get_snoc by done.
      * rewrite decide_False by (by eapply Hne). by apply Hin.
      * injection Hi as -> ->. rewrite decide_True by done. left. eauto.
  - split; [done|]. split; [done|]. split.
    + intros id. rewrite not_elem_of_app, not_elem_of_cons. simpl.
      intros (Hi & Hik & _). rewrite bt_get_insert, decide_False by done. by apply Hout.
    + intros id patch [Hi|Hi%list_elem_of_singleton]%elem_of_app; rewrite bt_get_insert.
      * rewrite decide_False by (by eapply Hne). by apply Hin.
      * injection Hi as -> ->. rewrite decide_True by done. right.
        exists e. by rewrite (proj2 (bt_get_None_elem k tu)).
Qed.

(** ** The whole request *)
Definition starting s (request : SetRequest T) : Creating :=
  create_entries s (default [] (sr_create request)).

Lemma non_empty_default {A} (l : list A) : default [] (non_empty l) = l.
Proof. by destruct l. Qed.

Lemma transaction_objects {R} s (f : Transaction T -> R * Transaction T) :
  st_objects (store_transaction s f).2 = st_objects (tx_store (f (Build_Transaction s [])).2).
Proof.
  unfold store_transaction. destruct (f _) as [r t]. simpl. by destruct (tx_staged t).
Qed.

Lemma simple_set_inv s request s' r :
  simple_set_with_validation s request = (s', Ok r) ->
  exists nu tu t' d nd,
    let c := starting s request in
    let t0 := Build_Transaction (cg_store c) [] in
    try_fold (update_entry (cg_store c)) ([], []) (default [] (sr_update request)) = Ok (nu, tu) /\
    destroys (default [] (sr_destroy request)) (updates tu (creates (cg_to_create c) t0)).1
      = (t', d, nd) /\
    (forall id, store_get s' id = transaction_get t' id) /\
    sp_old_state r = Some (store_state s) /\ sp_new_state r = Some (store_state s') /\
    default [] (sp_created r) = cg_created c /\ default [] (sp_not_created r) = cg_not_created c /\
    default [] (sp_updated r) = (updates tu (creates (cg_to_create c) t0)).2 /\
    default [] (sp_not_updated r) = nu /\
    default [] (sp_destroyed r) = d /\ default [] (sp_not_destroyed r) = nd.
Proof.
  unfold simple_set_with_validation. fold (starting s request).
  destruct (match sr_if_in_state request with Some _ => _ | None => _ end); [done|].
  destruct (try_fold _ _ _) as [[nu tu]|e]; [|done].
  destruct (store_transaction _ _) as [[[u d] nd] s1] eqn:Et. intros [= <- <-].
  pose proof (transaction_objects (cg_store (starting s request)) (set_body
    (cg_to_create (starting s request)) tu (default [] (sr_destroy request)))) as Ho.
  rewrite Et in Ho. unfold store_transaction in Et. rewrite set_body_eq in Et, Ho.
  destruct (updates _ _) as [t1 u1] eqn:Eu.
  destruct (destroys _ _) as [[t2 d2] nd2] eqn:Ed. simpl in *.
  exists nu, tu, t2, d2, nd2. rewrite Eu. simpl. rewrite !non_empty_default.
  assert (u = u1 /\ d = d2 /\ nd = nd2) as (-> & -> & ->).
  { destruct (tx_staged t2); by simplify_eq. }
  split; [done|]. split; [done|]. split; [|done].
  intros id. unfold transaction_get, store_get. by rewrite Ho.
Qed.

(** The request's maps are ordered maps, and the counters have room for it. *)
Record set_ready s (request : SetRequest T) : Prop := {
  sy_wf : store_wf s;
  sy_create : bt_ok (default [] (sr_create request));
  sy_update : bt_ok (default [] (sr_update request));
  sy_ids : (st_next_id s + N.of_nat (length (default [] (sr_create request))) <= u64_max)%N;
  sy_state : (st_state s < u64_max)%N;
}.

Lemma starting_store s request :
  set_ready s request ->
  st_objects (cg_store (starting s request)) = st_objects s /\
  st_state (cg_store (starting s request)) = st_state s.
Proof. intros [_ _ _ Hb _]. unfold starting. by rewrite create_entries_store. Qed.

Lemma starting_fresh s request :
  set_ready s request ->
  NoDup (cg_to_create (starting s request)).*1 /\
  Forall (fun e => fresh_id (Build_Transaction (cg_store (starting s request)) []) e.1)
    (cg_to_create (starting s request)) /\
  Forall (fun e => store_contains s e.1 = false) (cg_to_create (starting s request)).
Proof.
  intros [Hwf _ _ Hb _]. destruct (create_entries_ids s _ Hb) as (ns & Hns & Hd & Hf).
  fold (starting s request) in Hns. pose proof (create_entries_store s _ Hb) as Hst.
  fold (starting s request) in Hst. rewrite Forall_forall in Hf.
  assert (forall e, e ∈ cg_to_create (starting s request) -> exists n, e.1 = id_at s n /\ n ∈ ns) as Hid.
  { intros e He. apply (list_elem_of_fmap_2 fst) in He. rewrite Hns in He.
    by apply list_elem_of_fmap in He. }
  rewrite Hns. split; [by apply NoDup_fmap_2_strong; [|done]; intros; eapply id_at_inj|].
  split; apply Forall_forall; intros e (n & -> & Hn%Hf)%Hid;
    destruct (lw_fresh _ _ (sw_life _ Hwf) n ltac:(lia)) as [Hc Hk]; [|done].
  unfold fresh_id, transaction_contains, store_contains. simpl. rewrite Hst. simpl.
  rewrite app_nil_r. split; [done|]. split; [done|].
  intros m Hm E%(id_at_inj s n m). lia.
Qed.

Lemma simple_set_steps s request :
  set_ready s request -> rtc store_step s (simple_set_with_validation s request).1.
Proof.
  intros Hr. unfold simple_set_with_validation. fold (starting s request).
  destruct (match sr_if_in_state request with Some _ => _ | None => _ end); [apply rtc_refl|].
  pose proof (create_entries_steps s _ (sy_ids _ _ Hr)) as Hsteps.
  fold (starting s request) in Hsteps. destruct (starting_fresh s request Hr) as (Hd & Hf & _).
  destruct (try_fold _ _ _) as [[nu tu]|e]; [|done].
  destruct (store_transaction _ _) as [[[u d] nd] s1] eqn:Et. simpl.
  eapply rtc_r; [done|]. replace s1 with (store_transaction (cg_store (starting s request))
    (set_body (cg_to_create (starting s request)) tu (default [] (sr_destroy request)))).2
    by (by rewrite Et).
  apply StepTransaction; [destruct (starting_store s request Hr) as [_ ->]; apply Hr|].
  by apply set_body_steps.
Qed.

(** The objects after an accepted request. *)
Lemma simple_set_get s request s' r :
  set_ready s request -> simple_set_with_validation s request = (s', Ok r) ->
  exists nu tu,
    let c := starting s request in
    try_fold (update_entry (cg_store c)) ([], []) (default [] (sr_update request)) = Ok (nu, tu) /\
    default [] (sp_not_updated r) = nu /\
    (forall id, bt_get id (default [] (sp_updated r)) = (fun _ => None) <$> bt_get id tu) /\
    forall id, store_get s' id =
      if decide (id ∈ default [] (sp_destroyed r)) then None
      else match bt_get id tu with
      | Some v => Some v
      | None =>
          match bt_get id (cg_to_create c) with Some v => Some v | None => store_get s id end
      end.
Proof.
  intros Hr (nu & tu & t' & d & nd & Hu & Hd & Hg & _ & _ & _ & _ & Eu & En & Ed & _)%simple_set_inv.
  exists nu, tu. split; [done|]. split; [done|]. rewrite Ed, Eu. clear Ed Eu.
  destruct (starting_fresh s request Hr) as (Hnd & _).
  destruct (update_entries_spec _ _ _ _ Hu) as (Ht & Hs & _); [apply bt_ok_nodup, Hr|].
  assert (forall id, store_get (cg_store (starting s request)) id = store_get s id) as Ho.
  { intros id. unfold store_get. by rewrite (proj1 (starting_store s request Hr)). }
  assert (Forall (fun e => is_Some (transaction_get (creates (cg_to_create (starting s request))
    (Build_Transaction (cg_store (starting s request)) [])) e.1)) tu) as Hex.
  { eapply Forall_impl; [done|]. intros e [v Hv]. rewrite creates_get by done.
    destruct (bt_get e.1 _); [eauto|]. exists v. apply Hv. }
  split; [intros id; by apply updates_get|].
  destruct (destroys_spec _ _ _ _ _ Hd) as (Hdg & _). intros id. rewrite Hg, Hdg.
  case_decide; [done|]. destruct (updates_get tu _ id Ht Hex) as [-> _].
  rewrite creates_get by done. destruct (bt_get id tu); [done|].
  destruct (bt_get id _); [done|]. apply Ho.
Qed.

Lemma simple_set_state s request :
  set_ready s request ->
  (st_state s <= st_state (simple_set_with_validation s request).1 <= st_state s + 1)%N.
Proof.
  intros Hr. unfold simple_set_with_validation. fold (starting s request).
  destruct (match sr_if_in_state request with Some _ => _ | None => _ end); [simpl; lia|].
  destruct (starting_store s request Hr) as [_ Hst].
  destruct (starting_fresh s request Hr) as (Hd & Hf & _).
  destruct (try_fold _ _ _) as [[nu tu]|e]; [|simpl; lia].
  destruct (store_transaction _ _) as [[[u d] nd] s1] eqn:Et. simpl.
  pose proof (store_transaction_log _ _ _ eq_refl
    (set_body_steps _ tu (default [] (sr_destroy request)) _ Hd Hf)) as Hl.
  rewrite Et, Hst in Hl. destruct Hl as (_ & _ & _ & _ & Hs); [apply Hr|]. simpl in Hs.
  rewrite Hs. case_decide; lia.
Qed.

(** ** Claims *)

(** C24: whatever a [/set] request holds, the store afterwards is well formed, at most one
    state further, and its log still tells what existed before the request. *)
Theorem simple_set_history s request :
  set_ready s request ->
  let s' := (simple_set_with_validation s request).1 in
  store_wf s' /\ (st_state s <= st_state s' <= st_state s + 1)%N /\
  forall id, existed_at s' (st_state s) id = store_contains s id.
Proof.
  intros Hr. pose proof (simple_set_steps s request Hr) as Hsteps. simpl.
  split; [eapply store_steps_wf; [done|apply Hr]|]. split; [by apply simple_set_state|].
  intros id. destruct (store_steps_history _ _ (st_state s) id Hsteps (sy_wf _ _ Hr)) as [-> _];
    [done|]. apply existed_now, Hr.
Qed.

(** Each creation id of an accepted request is answered exactly once: in [created],
    with the prepared object that the store then holds under an id that was free
    (unless the same request destroys it), or in [notCreated], with the error of
    [prepare]. *)
Theorem simple_set_creates s request s' r cid o :
  set_ready s request -> simple_set_with_validation s request = (s', Ok r) ->
  (cid, o) ∈ default [] (sr_create request) ->
  (exists id o', prepare id o = Ok o' /\ store_contains s id = false /\
     bt_get cid (default [] (sp_created r)) = Some o' /\
     bt_get cid (default [] (sp_not_created r)) = None /\
     (id ∉ default [] (sp_destroyed r) -> store_get s' id = Some o')) \/
  (exists id e, prepare id o = Err e /\
     bt_get cid (default [] (sp_not_created r)) = Some e /\
     bt_get cid (default [] (sp_created r)) = None).
Proof.
  intros Hr Hset Hin.
  destruct (simple_set_get s request s' r Hr Hset) as (nu & tu & Hu & _ & _ & Hget).
  apply simple_set_inv in Hset as (_ & _ & _ & _ & _ & _ & _ & _ & _ & _ & -> & -> & _).
  destruct (starting_fresh s request Hr) as (Hnd & _ & Hfree).
  destruct (update_entries_spec _ _ _ _ Hu) as (_ & Hs & _); [apply bt_ok_nodup, Hr|].
  destruct (create_entries_answers s _ cid o (bt_ok_nodup _ (sy_create _ _ Hr)) Hin)
    as [(id & o' & Hp & Hc & Hn & Hto)|?]; [left|by right].
  rewrite Forall_forall in Hfree. exists id, o'. split; [done|].
  split; [by apply (Hfree (id, o'))|]. split; [done|]. split; [done|].
  intros Hd. rewrite Hget, decide_False by done.
  destruct (bt_get id tu) as [v|] eqn:Et.
  - apply bt_get_Some_elem in Et. rewrite Forall_forall in Hs. apply Hs in Et. simpl in Et.
    unfold store_get in Et. rewrite (proj1 (starting_store s request Hr)) in Et.
    apply store_contains_get in Et. specialize (Hfree _ Hto). simpl in Hfree. congruence.
  - fold (starting s request) in Hto. by rewrite (nodup_bt_get _ _ _ Hnd Hto).
Qed.

Lemma update_outcome_starting s request id patch :
  set_ready s request ->
  update_outcome (cg_store (starting s request)) id patch = update_outcome s id patch.
Proof.
  intros Hr. unfold update_outcome, store_get. by rewrite (proj1 (starting_store s request Hr)).
Qed.

Lemma starting_get_free s request id :
  set_ready s request -> is_Some (store_get s id) ->
  bt_get id (cg_to_create (starting s request)) = None.
Proof.
  intros Hr Hs%store_contains_get. destruct (starting_fresh s request Hr) as (_ & _ & Hfree).
  destruct (bt_get id _) as [v|] eqn:E; [|done]. apply bt_get_Some_elem in E.
  rewrite Forall_forall in Hfree. specialize (Hfree _ E). simpl in Hfree. congruence.
Qed.

(** Each update of an accepted request is answered exactly once: in [updated], and
    the store holds the patched object that passed validation (unless the request
    destroys it), or in [notUpdated] with the reason, and the object is as before. *)
Theorem simple_set_updates s request s' r id patch :
  set_ready s request -> simple_set_with_validation s request = (s', Ok r) ->
  (id, patch) ∈ default [] (sr_update request) ->
  (exists v, update_outcome s id patch = Ok (Ok v) /\
     bt_get id (default [] (sp_updated r)) = Some None /\
     bt_get id (default [] (sp_not_updated r)) = None /\
     (id ∉ default [] (sp_destroyed r) -> store_get s' id = Some v)) \/
  (exists e, update_outcome s id patch = Ok (Err e) /\
     bt_get id (default [] (sp_not_updated r)) = Some e /\
     bt_get id (default [] (sp_updated r)) = None /\
     (is_Some (store_get s id) -> id ∉ default [] (sp_destroyed r) ->
      store_get s' id = store_get s id)).
Proof.
  intros Hr Hset Hin.
  destruct (simple_set_get s request s' r Hr Hset) as (nu & tu & Hu & -> & Hupd & Hget).
  destruct (update_entries_spec _ _ _ _ Hu) as (_ & _ & _ & Hans); [apply bt_ok_nodup, Hr|].
  specialize (Hans _ _ Hin). rewrite update_outcome_starting in Hans by done.
  rewrite Hupd, Hget. destruct Hans as [(v & Ho & Ht & Hn)|(e & Ho & Hn & Ht)]; [left; exists v|right; exists e];
    rewrite Ht.
  - repeat (split; [done|]). intros Hd. by rewrite decide_False.
  - repeat (split; [done|]). intros Hs Hd. by rewrite decide_False, starting_get_free.
Qed.

(** Each destroy of an accepted request is in [destroyed] or [notDestroyed]; what is
    in [destroyed] was asked for and is gone; and an object that existed and is neither
    updated nor destroyed is exactly as before. *)
Theorem simple_set_destroys s request s' r :
  set_ready s request -> simple_set_with_validation s request = (s', Ok r) ->
  (forall id, id ∈ default [] (sr_destroy request) ->
     (id ∈ default [] (sp_destroyed r)) \/ is_Some (bt_get id (default [] (sp_not_destroyed r)))) /\
  (forall id, id ∈ default [] (sp_destroyed r) ->
     (id ∈ default [] (sr_destroy request)) /\ store_get s' id = None) /\
  (forall id, is_Some (store_get s id) -> id ∉ default [] (sp_destroyed r) ->
     bt_get id (default [] (sp_updated r)) = None -> store_get s' id = store_get s id).
Proof.
  intros Hr Hset.
  destruct (simple_set_get s request s' r Hr Hset) as (nu & tu & _ & _ & Hupd & Hget).
  apply simple_set_inv in Hset as (? & ? & t' & d & nd & _ & Hd & _ & _ & _ & _ & _ & _ & _ & Ed & En).
  rewrite Ed, En in *. destruct (destroys_spec _ _ _ _ _ Hd) as (_ & Hans & Hdone).
  split; [done|]. split.
  - intros id Hi. split; [by apply Hdone|]. by rewrite Hget, decide_True.
  - intros id Hs Hi Hn. rewrite Hupd, fmap_None in Hn.
    by rewrite Hget, decide_False, Hn, starting_get_free.
Qed.

(** A request whose [ifInState] is not the store's state is refused as a state
    mismatch and changes nothing, not even the id counter. *)
Theorem simple_set_mismatch s request expected :
  sr_if_in_state request = Some expected -> expected <> store_state s ->
  simple_set_with_validation s request = (s, Err (method_error_new STATE_MISMATCH)).
Proof.
  intros He Hne. unfold simple_set_with_validation. rewrite He.
  by rewrite bool_decide_eq_false_2.
Qed.
End set_method.

(** ** An instance

    Objects are JSON values; a create gets its id, a destroy of a locked object is
    refused. *)
Definition example_prepare (id : Id) (v : Value) : result Value SetError :=
  match v with
  | Object m => Ok (Object (bt_insert (lit "id") (String id) m))
  | _ => Err (set_error_new INVALID_PROPERTIES)
  end.

Definition example_destroy (id : Id) (v : Value) : result unit SetError :=
  match v with
  | Object m => if bt_contains (lit "locked") m then Err (set_error_new (lit "forbidden")) else Ok tt
  | _ => Ok tt
  end.

Definition example_set : Store Value -> SetRequest Value ->
    Store Value * result (SetResponse Value) MethodError :=
  simple_set_with_validation Ok Ok example_prepare (fun _ _ _ => Ok tt) example_destroy.

Definition example_objects : Store Value :=
  seeded (lit "E")
    [Object [(lit "name", String (lit "one"))]; Object [(lit "locked", Bool true)];
     Object [(lit "name", String (lit "three"))]].

Definition example_request : SetRequest Value :=
  {| sr_account_id := lit "a"; sr_if_in_state := None;
     sr_create := Some [(lit "c1", Object []); (lit "c2", Null)];
     sr_update := Some [(lit "E1", Object [(lit "name", Null)]); (lit "E9", Object [])];
     sr_destroy := Some [lit "E2"; lit "E3"] |}.

Lemma example_ready : set_ready example_objects example_request.
Proof.
  split.
  - by apply seeded_wf.
  - repeat constructor.
  - repeat constructor.
  - vm_compute. discriminate.
  - vm_compute. reflexivity.
Qed.

Definition example_after : Store Value := (example_set example_objects example_request).1.

Definition example_response : option (SetResponse Value) :=
  match (example_set example_objects example_request).2 with Ok r => Some r | Err _ => None end.

Lemma simple_set_history_witness :
  store_wf example_after /\
  (st_state example_objects <= st_state example_after <= st_state example_objects + 1)%N /\
  forall id, existed_at example_after (st_state example_objects) id = store_contains example_objects id.
Proof.
  apply (simple_set_history Ok Ok example_prepare (fun _ _ _ => Ok tt) example_destroy),
    example_ready.
Defined.

Lemma simple_set_creates_witness :
  exists r, example_response = Some r /\
  ((exists id o', example_prepare id (Object []) = Ok o' /\
      store_contains example_objects id = false /\
      bt_get (lit "c1") (default [] (sp_created r)) = Some o' /\
      bt_get (lit "c1") (default [] (sp_not_created r)) = None /\
      (id ∉ default [] (sp_destroyed r) -> store_get example_after id = Some o')) \/
   (exists id e, example_prepare id (Object []) = Err e /\
      bt_get (lit "c1") (default [] (sp_not_created r)) = Some e /\
      bt_get (lit "c1") (default [] (sp_created r)) = None)).
Proof.
  eexists. split; [vm_compute; reflexivity|].
  apply (simple_set_creates Ok Ok example_prepare (fun _ _ _ => Ok tt) example_destroy
    example_objects example_request).
  - apply example_ready.
  - vm_compute. reflexivity.
  - left.
Defined.

Lemma simple_set_updates_witness :
  exists r, example_response = Some r /\
  ((exists v, update_outcome Ok Ok (fun _ _ _ => Ok tt) example_objects (lit "E1")
        (Object [(lit "name", Null)]) = Ok (Ok v) /\
      bt_get (lit "E1") (default [] (sp_updated r)) = Some None /\
      bt_get (lit "E1") (default [] (sp_not_updated r)) = None /\
      (lit "E1" ∉ default [] (sp_destroyed r) -> store_get example_after (lit "E1") = Some v)) \/
   (exists e, update_outcome Ok Ok (fun _ _ _ => Ok tt) example_objects (lit "E1")
        (Object [(lit "name", Null)]) = Ok (Err e) /\
      bt_get (lit "E1") (default [] (sp_not_updated r)) = Some e /\
      bt_get (lit "E1") (default [] (sp_updated r)) = None /\
      (is_Some (store_get example_objects (lit "E1")) -> lit "E1" ∉ default [] (sp_destroyed r) ->
       store_get example_after (lit "E1") = store_get example_objects (lit "E1")))).
Proof.
  eexists. split; [vm_compute; reflexivity|].
  apply (simple_set_updates Ok Ok example_prepare (fun _ _ _ => Ok tt) example_destroy
    example_objects example_request).
  - apply example_ready.
  - vm_compute. reflexivity.
  - left.
Defined.

Lemma simple_set_destroys_witness :
  exists r, example_response = Some r /\
  (forall id, id ∈ [lit "E2"; lit "E3"] ->
     (id ∈ default [] (sp_destroyed r)) \/ is_Some (bt_get id (default [] (sp_not_destroyed r)))) /\
  (forall id, id ∈ default [] (sp_destroyed r) ->
     (id ∈ [lit "E2"; lit "E3"]) /\ store_get example_after id = None) /\
  (forall id, is_Some (store_get example_objects id) -> id ∉ default [] (sp_destroyed r) ->
     bt_get id (default [] (sp_updated r)) = None ->
     store_get example_after id = store_get example_objects id).
Proof.
  eexists. split; [vm_compute; reflexivity|].
  apply (simple_set_destroys Ok Ok example_prepare (fun _ _ _ => Ok tt) example_destroy
    example_objects example_request).
  - apply example_ready.
  - vm_compute. reflexivity.
Defined.

Lemma simple_set_mismatch_witness :
  example_set example_objects
    {| sr_account_id := lit "a"; sr_if_in_state := Some (lit "stale"); sr_create := None;
       sr_update := None; sr_destroy := Some [lit "E1"] |}
  = (example_objects, Err (method_error_new STATE_MISMATCH)).
Proof.
  apply (simple_set_mismatch Ok Ok example_prepare (fun _ _ _ => Ok tt) example_destroy
    example_objects _ (lit "stale")); [reflexivity|]. vm_compute. discriminate.
Defined.
