(* ===== verification/Changes.v ===== *)
(** The client's [/changes] (jmap-client/src/changes.rs) and the id budget that bounds
    it (jmap-client/src/limits.rs).

    [all_changes] follows the pages of [Foo/changes] from a state, keeps one entry per
    id, and classifies each entry once at the end.  The theorems here hold against any
    server: a result has no id in two lists and is within the budget, and a server that
    says there is more without advancing is refused. *)

From stdpp Require Import prelude strings sorting.
From S2P Require Import Prelude BTree Text Json Proto.
Open Scope rust_scope.

(** ** The budget (limits.rs) *)
Record IdBudget := { ib_ids : N; ib_bytes : N }.

Definition MAX_SYNC_IDS : N := 1000000.
Definition MAX_SYNC_ID_BYTES : N := 64 * 1024 * 1024.

Definition budget_per_sync : IdBudget :=
  {| ib_ids := MAX_SYNC_IDS; ib_bytes := MAX_SYNC_ID_BYTES |}.

Definition checked_sub (a b : N) : option N := if (b <=? a)%N then Some (a - b)%N else None.

Definition text_len (t : text) : N := N.of_nat (length t).

Definition budget_charge (b : IdBudget) (id : text) : bool * IdBudget :=
  match checked_sub (ib_ids b) 1, checked_sub (ib_bytes b) (text_len id) with
  | Some ids, Some bytes => (true, {| ib_ids := ids; ib_bytes := bytes |})
  | _, _ => (false, b)
  end.

(** ** Changes (changes.rs) *)
Record ChangeSet := {
  cs_new_state : State;
  cs_created : btset Id;
  cs_updated : btset Id;
  cs_destroyed : btset Id;
}.

Definition changeset_nothing (new_state : State) : ChangeSet :=
  {| cs_new_state := new_state; cs_created := []; cs_updated := []; cs_destroyed := [] |}.

Definition changeset_is_empty (c : ChangeSet) : bool :=
  bool_decide (cs_created c = []) && bool_decide (cs_updated c = []) &&
  bool_decide (cs_destroyed c = []).

Record Seen := { sn_created : bool; sn_updated : bool; sn_destroyed : bool }.

Definition seen_default : Seen :=
  {| sn_created := false; sn_updated := false; sn_destroyed := false |}.

Definition set_created (d : Seen) : Seen :=
  {| sn_created := true; sn_updated := sn_updated d; sn_destroyed := sn_destroyed d |}.
Definition set_updated (d : Seen) : Seen :=
  {| sn_created := sn_created d; sn_updated := true; sn_destroyed := sn_destroyed d |}.
Definition set_destroyed (d : Seen) : Seen :=
  {| sn_created := sn_created d; sn_updated := sn_updated d; sn_destroyed := true |}.

Definition classify_entry (set : ChangeSet) (e : Id * Seen) : ChangeSet :=
  let '(id, d) := e in
  match sn_created d, sn_destroyed d with
  | true, true => set
  | true, false =>
      {| cs_new_state := cs_new_state set; cs_created := bs_insert id (cs_created set);
         cs_updated := cs_updated set; cs_destroyed := cs_destroyed set |}
  | false, true =>
      {| cs_new_state := cs_new_state set; cs_created := cs_created set;
         cs_updated := cs_updated set; cs_destroyed := bs_insert id (cs_destroyed set) |}
  | false, false =>
      if sn_updated d then
        {| cs_new_state := cs_new_state set; cs_created := cs_created set;
           cs_updated := bs_insert id (cs_updated set); cs_destroyed := cs_destroyed set |}
      else set
  end.

Definition changeset_classify (new_state : State) (by_id : btmap Id Seen) : ChangeSet :=
  fold_left classify_entry by_id (changeset_nothing new_state).

(** [keep(..)?.flag = true]: the entry for [id], a new one charged to the budget. *)
Definition keep (type_name : text) (mark : Seen -> Seen)
    (acc : btmap Id Seen * IdBudget) (id : Id) : result (btmap Id Seen * IdBudget) Error :=
  let '(by_id, budget) := acc in
  match bt_get id by_id with
  | Some d => Ok (bt_insert id (mark d) by_id, budget)
  | None =>
      let '(fits, budget) := budget_charge budget id in
      if fits then Ok (bt_insert id (mark seen_default) by_id, budget)
      else Err (Protocol (type_name ++ lit "/changes reports more ids than the budget for one sync"))
  end.

Definition MAX_CHANGES_PAGES : nat := 1024.

Definition capability_for (type_name : text) : option text :=
  if bool_decide (type_name ∈ lit <$> ["Mailbox"; "Email"; "Thread"]%string)
  then Some (lit "urn:ietf:params:jmap:mail")
  else if bool_decide (type_name ∈ lit <$> ["AddressBook"; "ContactCard"]%string)
  then Some (lit "urn:ietf:params:jmap:contacts")
  else if bool_decide (type_name ∈ lit <$>
    ["Calendar"; "CalendarEvent"; "ParticipantIdentity"; "CalendarEventNotification"]%string)
  then Some (lit "urn:ietf:params:jmap:calendars")
  else if bool_decide (type_name ∈ lit <$> ["EmailSubmission"; "Identity"]%string)
  then Some (lit "urn:ietf:params:jmap:submission")
  else if bool_decide (type_name ∈ lit <$> ["Principal"; "ShareNotification"]%string)
  then Some (lit "urn:ietf:params:jmap:principals")
  else if bool_decide (type_name = lit "SieveScript")
  then Some (lit "urn:ietf:params:jmap:sieve")
  else None.

(** What [Client::single_call] gives the callers of this file: a method call with its
    arguments, answered by the world [W] on the other side of the connection. *)
Class MethodCaller (W : Type) : Type :=
  single_call : W -> list text -> text -> ChangesRequest -> W * result Value Error.

Section all_changes.
Context {W : Type} `{!MethodCaller W}.

(** [serde_json::from_value::<ChangesResponse>]; the error is its message. *)
Variable from_value : Value -> result ChangesResponse text.

Definition changes (w : W) (account_id : Id) (type_name : text) (since_state : State)
  : W * result ChangesResponse Error :=
  match capability_for type_name with
  | None => (w, Err (Protocol (lit "no known capability for data type " ++ type_name)))
  | Some capability =>
      let request := changes_request_new account_id since_state in
      let '(w, arguments) :=
        single_call w [lit "urn:ietf:params:jmap:core"; capability]
          (type_name ++ lit "/changes") request in
      (w, let? arguments := arguments in map_err Json (from_value arguments))
  end.

(** The three loops over one page. *)
Definition keep_page (type_name : text) (acc : btmap Id Seen * IdBudget)
    (response : ChangesResponse) : result (btmap Id Seen * IdBudget) Error :=
  let? acc := try_fold (keep type_name set_created) acc (cp_created response) in
  let? acc := try_fold (keep type_name set_updated) acc (cp_updated response) in
  try_fold (keep type_name set_destroyed) acc (cp_destroyed response).

Fixpoint follow_pages (pages : nat) (w : W) (account_id : Id) (type_name : text)
    (state : State) (acc : btmap Id Seen * IdBudget) : W * result ChangeSet Error :=
  match pages with
  | O => (w, Err (Protocol (type_name ++ lit "/changes never stopped reporting more changes")))
  | S pages =>
      match changes w account_id type_name state with
      | (w, Err e) => (w, Err e)
      | (w, Ok response) =>
          match keep_page type_name acc response with
          | Err e => (w, Err e)
          | Ok acc =>
              let advanced := negb (bool_decide (cp_new_state response = state)) in
              let state := cp_new_state response in
              if negb (cp_has_more_changes response)
              then (w, Ok (changeset_classify state acc.1))
              else if negb advanced
              then (w, Err (Protocol (type_name ++
                lit "/changes reports more changes without advancing the state")))
              else follow_pages pages w account_id type_name state acc
          end
      end
  end.

Definition all_changes (id_budget : IdBudget) (w : W) (account_id : Id) (type_name : text)
    (since_state : State) : W * result ChangeSet Error :=
  follow_pages MAX_CHANGES_PAGES w account_id type_name since_state ([], id_budget).
End all_changes.

(** ** Classification *)
Definition seen_kind (d : Seen) : option nat :=
  match sn_created d, sn_destroyed d, sn_updated d with
  | true, true, _ => None
  | true, false, _ => Some 0
  | false, true, _ => Some 2
  | false, false, true => Some 1
  | false, false, false => None
  end.

Fixpoint id_bytes (l : list Id) : N :=
  match l with [] => 0 | id :: l => text_len id + id_bytes l end.

Definition changeset_ids (c : ChangeSet) : list Id := cs_created c ++ cs_updated c ++ cs_destroyed c.

Definition changeset_ok (c : ChangeSet) : Prop :=
  bs_ok (cs_created c) /\ bs_ok (cs_updated c) /\ bs_ok (cs_destroyed c).

Lemma id_bytes_app a b : id_bytes (a ++ b) = (id_bytes a + id_bytes b)%N.
Proof. induction a; simpl; lia. Qed.

Lemma id_bytes_bs_insert id s : (id_bytes (bs_insert id s) <= text_len id + id_bytes s)%N.
Proof. induction s as [|k s IH]; simpl; [lia|]. destruct (ord_cmp id k) eqn:E; simpl; lia. Qed.

Lemma id_bytes_bt_insert id (d : Seen) m :
  bt_get id m = None -> id_bytes (bt_insert id d m).*1 = (text_len id + id_bytes m.*1)%N.
Proof.
  induction m as [|[k v] m IH]; simpl; [done|]. case_decide; [done|]. intros Hm.
  destruct (ord_cmp id k) eqn:E; csimpl; [by apply ord_cmp_eq in E|done|].
  specialize (IH Hm). lia.
Qed.

Lemma bs_insert_length id (s : btset Id) : length (bs_insert id s) <= S (length s).
Proof. induction s as [|k s IH]; simpl; [done|]. destruct (ord_cmp id k); simpl; lia. Qed.

Lemma classify_snoc st m e :
  changeset_classify st (m ++ [e]) = classify_entry (changeset_classify st m) e.
Proof. unfold changeset_classify. by rewrite fold_left_app. Qed.

Lemma classify_state st m : cs_new_state (changeset_classify st m) = st.
Proof.
  induction m as [|[id d] m IH] using rev_ind; [done|]. rewrite classify_snoc. simpl.
  by destruct (sn_created d), (sn_destroyed d), (sn_updated d).
Qed.

Lemma classify_ok st m : changeset_ok (changeset_classify st m).
Proof.
  induction m as [|[id d] m (H1 & H2 & H3)] using rev_ind; [by repeat constructor|].
  rewrite classify_snoc. unfold changeset_ok. simpl.
  destruct (sn_created d), (sn_destroyed d), (sn_updated d); simpl;
    repeat split; auto using bs_insert_ok.
Qed.

(** Which list an id ends up in. *)
Lemma classify_elem st m id :
  let c := changeset_classify st m in
  ((id ∈ cs_created c) <-> exists d, (id, d) ∈ m /\ seen_kind d = Some 0) /\
  ((id ∈ cs_updated c) <-> exists d, (id, d) ∈ m /\ seen_kind d = Some 1) /\
  ((id ∈ cs_destroyed c) <-> exists d, (id, d) ∈ m /\ seen_kind d = Some 2).
Proof.
  induction m as [|[k e] m IH] using rev_ind; simpl.
  { setoid_rewrite elem_of_nil. naive_solver. }
  rewrite classify_snoc. simpl in *. setoid_rewrite elem_of_app.
  setoid_rewrite list_elem_of_singleton. destruct e as [[] [] []]; simpl;
    rewrite ?elem_of_bs_insert; naive_solver.
Qed.

Lemma classify_sizes st m :
  let c := changeset_classify st m in
  length (changeset_ids c) <= length m /\ (id_bytes (changeset_ids c) <= id_bytes m.*1)%N.
Proof.
  simpl. unfold changeset_ids. rewrite !length_app, !id_bytes_app.
  induction m as [|[k e] m IH] using rev_ind; [done|].
  rewrite classify_snoc, length_app, fmap_app, id_bytes_app. simpl.
  destruct (changeset_classify st m) as [st' c u d]. simpl in *.
  pose proof (bs_insert_length k c). pose proof (id_bytes_bs_insert k c).
  pose proof (bs_insert_length k u). pose proof (id_bytes_bs_insert k u).
  pose proof (bs_insert_length k d). pose proof (id_bytes_bs_insert k d).
  destruct e as [[] [] []]; simpl; lia.
Qed.

(** ** Keeping ids *)

(** The budget left is the first budget less the ids kept. *)
Record charged (b0 : IdBudget) (acc : btmap Id Seen * IdBudget) : Prop := {
  cd_ok : bt_ok acc.1;
  cd_ids : (ib_ids acc.2 + N.of_nat (length acc.1) = ib_ids b0)%N;
  cd_bytes : (ib_bytes acc.2 + id_bytes acc.1.*1 = ib_bytes b0)%N;
}.

Lemma checked_sub_Some a b c : checked_sub a b = Some c <-> (b <= a)%N /\ c = (a - b)%N.
Proof. unfold checked_sub. destruct (N.leb_spec b a); naive_solver lia. Qed.

Lemma checked_sub_None a b : checked_sub a b = None <-> (a < b)%N.
Proof. unfold checked_sub. destruct (N.leb_spec b a); naive_solver lia. Qed.

Lemma budget_charge_true b id b' :
  budget_charge b id = (true, b') <->
  (1 <= ib_ids b)%N /\ (text_len id <= ib_bytes b)%N /\
  b' = {| ib_ids := ib_ids b - 1; ib_bytes := ib_bytes b - text_len id |}.
Proof.
  unfold budget_charge. destruct (checked_sub (ib_ids b) 1) as [i|] eqn:E1.
  - apply checked_sub_Some in E1 as [H1 ->].
    destruct (checked_sub _ (text_len id)) as [j|] eqn:E2.
    + apply checked_sub_Some in E2 as [H2 ->]. naive_solver.
    + apply checked_sub_None in E2. naive_solver lia.
  - apply checked_sub_None in E1. naive_solver lia.
Qed.

Lemma budget_charge_false b id b' :
  budget_charge b id = (false, b') -> b' = b /\ (ib_ids b < 1 \/ ib_bytes b < text_len id)%N.
Proof.
  unfold budget_charge. destruct (checked_sub (ib_ids b) 1) as [i|] eqn:E1.
  - destruct (checked_sub _ (text_len id)) as [j|] eqn:E2; [done|].
    apply checked_sub_None in E2. naive_solver.
  - apply checked_sub_None in E1. naive_solver.
Qed.

Lemma bt_insert_length_present (id : Id) (d d' : Seen) m :
  bt_ok m -> bt_get id m = Some d ->
  length (bt_insert id d' m) = length m /\ (bt_insert id d' m).*1 = m.*1.
Proof.
  induction m as [|[k v] m IH]; simpl; [done|]. intros [Hm Hk]%bt_ok_cons.
  case_decide; subst; [by rewrite ord_cmp_refl|]. intros Hg.
  assert (klt k id) as Hlt.
  { rewrite Forall_forall in Hk. apply Hk. apply bt_get_Some_elem in Hg.
    by apply (list_elem_of_fmap_2 fst _ (id, d)). }
  apply klt_gt in Hlt. rewrite Hlt. csimpl. destruct (IH Hm Hg) as [-> ->]. done.
Qed.

Section keeping.
Variable type_name : text.
Implicit Types (acc : btmap Id Seen * IdBudget) (mark : Seen -> Seen).

Lemma keep_charged b0 mark acc id acc' :
  charged b0 acc -> keep type_name mark acc id = Ok acc' -> charged b0 acc'.
Proof.
  intros [Hok Hi Hb]. destruct acc as [m b]. simpl in *. destruct (bt_get id m) as [d|] eqn:E.
  - intros [= <-]. destruct (bt_insert_length_present id d (mark d) m Hok E) as [Hl Hk].
    split; simpl; [by apply bt_insert_ok|by rewrite Hl|by rewrite Hk].
  - destruct (budget_charge b id) as [[] b'] eqn:Ec; [|done]. intros [= <-].
    apply budget_charge_true in Ec as (H1 & H2 & ->). split; simpl.
    + by apply bt_insert_ok.
    + rewrite bt_insert_length_fresh by done. lia.
    + rewrite id_bytes_bt_insert by done. lia.
Qed.

Lemma keep_get mark acc id acc' id' :
  keep type_name mark acc id = Ok acc' ->
  bt_get id' acc'.1 =
  if decide (id = id') then Some (mark (default seen_default (bt_get id acc.1)))
  else bt_get id' acc.1.
Proof.
  destruct acc as [m b]. simpl. destruct (bt_get id m) as [d|] eqn:E.
  - intros [= <-]. apply bt_get_insert.
  - destruct (budget_charge b id) as [[] b'] eqn:Ec; [|done]. intros [= <-]. apply bt_get_insert.
Qed.

Lemma keep_all_charged b0 mark acc ids acc' :
  charged b0 acc -> try_fold (keep type_name mark) acc ids = Ok acc' -> charged b0 acc'.
Proof.
  revert acc. induction ids as [|id ids IH]; intros acc Hc; [by intros [= <-]|].
  cbn [try_fold]. intros (acc1 & Hk & Hf)%rbind_ok. eapply IH; [|done]. by eapply keep_charged.
Qed.

Lemma keep_page_charged b0 acc response acc' :
  charged b0 acc -> keep_page type_name acc response = Ok acc' -> charged b0 acc'.
Proof.
  unfold keep_page. intros Hc (a1 & H1 & (a2 & H2 & H3)%rbind_ok)%rbind_ok.
  eauto using keep_all_charged.
Qed.

Lemma keep_all_error mark acc ids e :
  try_fold (keep type_name mark) acc ids = Err e -> exists message, e = Protocol message.
Proof.
  revert acc. induction ids as [|id ids IH]; intros acc; [done|]. cbn [try_fold].
  destruct (keep type_name mark acc id) as [acc1|e1] eqn:Ek; [apply IH|]. intros [= <-].
  revert Ek. destruct acc as [m b]. simpl. destruct (bt_get id m); [done|].
  destruct (budget_charge b id) as [[] b']; [done|]. intros [= <-]. eauto.
Qed.

Lemma keep_page_error acc response e :
  keep_page type_name acc response = Err e -> exists message, e = Protocol message.
Proof.
  unfold keep_page. destruct (try_fold _ acc _) as [a1|] eqn:E1; simpl;
    [|intros [= <-]; by eapply keep_all_error].
  destruct (try_fold _ a1 _) as [a2|] eqn:E2; simpl;
    [by apply keep_all_error|intros [= <-]; by eapply keep_all_error].
Qed.
End keeping.

(** ** Any server *)
Section any_server.
Context {W : Type} `{!MethodCaller W}.
Variable from_value : Value -> result ChangesResponse text.

Lemma follow_pages_charged pages w account_id type_name state acc b0 w' c :
  charged b0 acc ->
  follow_pages from_value pages w account_id type_name state acc = (w', Ok c) ->
  exists state' acc', charged b0 acc' /\ c = changeset_classify state' acc'.1.
Proof.
  revert w state acc. induction pages as [|pages IH]; intros w state acc Hc; simpl; [done|].
  destruct (changes _ _ _ _ _) as [w1 [r|e]]; [|done].
  destruct (keep_page type_name acc r) as [acc1|e] eqn:Ek; [|done].
  apply (keep_page_charged _ _ _ _ _ Hc) in Ek.
  destruct (negb (cp_has_more_changes r)); [intros [= <- <-]; eauto|].
  destruct (negb (negb _)); [done|]. by apply IH.
Qed.

(** Whatever the server answers, a result of [all_changes] names each id at most
    once over its three lists, and keeps no more ids and id bytes than the budget. *)
Theorem all_changes_bounded budget w account_id type_name since w' c :
  all_changes from_value budget w account_id type_name since = (w', Ok c) ->
  NoDup (changeset_ids c) /\
  (N.of_nat (length (changeset_ids c)) <= ib_ids budget)%N /\
  (id_bytes (changeset_ids c) <= ib_bytes budget)%N.
Proof.
  intros Hall.
  destruct (follow_pages_charged _ _ _ _ _ ([], budget) budget _ _
    ltac:(split; simpl; [constructor|lia|lia]) Hall) as (st & [m b] & [Hok Hi Hb] & ->).
  simpl in *. destruct (classify_sizes st m) as [Hl Hy]. split; [|lia].
  destruct (classify_ok st m) as (H1 & H2 & H3).
  assert (forall id d d' i j, (id, d) ∈ m -> (id, d') ∈ m -> seen_kind d = Some i ->
    seen_kind d' = Some j -> i = j) as Hfun.
  { intros id d d' i j Hd Hd' Hi' Hj. apply bt_elem_get in Hd, Hd'; [|done..]. congruence. }
  unfold changeset_ids. apply NoDup_app. split; [by apply bs_ok_nodup|]. split.
  - intros id (d & Hd & Hk)%classify_elem [(d' & Hd' & Hk')%classify_elem|
      (d' & Hd' & Hk')%classify_elem]%elem_of_app;
      specialize (Hfun _ _ _ _ _ Hd Hd' Hk Hk'); discriminate Hfun.
  - apply NoDup_app. split; [by apply bs_ok_nodup|]. split; [|by apply bs_ok_nodup].
    intros id (d & Hd & Hk)%classify_elem (d' & Hd' & Hk')%classify_elem.
    specialize (Hfun _ _ _ _ _ Hd Hd' Hk Hk'). discriminate Hfun.
Qed.

(** A page that reports more changes and the state it was asked from ends the sync
    with an error, so no server makes the client ask the same question twice. *)
Theorem all_changes_stuck_server budget w account_id type_name since w1 r :
  changes from_value w account_id type_name since = (w1, Ok r) ->
  cp_has_more_changes r = true -> cp_new_state r = since ->
  exists message, all_changes from_value budget w account_id type_name since
    = (w1, Err (Protocol message)).
Proof.
  intros Hc Hm Hs. unfold all_changes, MAX_CHANGES_PAGES. cbn [follow_pages]. rewrite Hc.
  destruct (keep_page type_name ([], budget) r) as [acc|e] eqn:Ek.
  - rewrite Hm, Hs. simpl. rewrite bool_decide_eq_true_2 by done. eauto.
  - apply keep_page_error in Ek as [m ->]. eauto.
Qed.
End any_server.

(** A world with one scripted answer, for the examples: the members the client reads. *)
Definition scripted_caller : MethodCaller (list ChangesResponse) :=
  fun w _ _ _ => match w with
    | [] => ([], Err Cancelled)
    | r :: w => (w, Ok (Array (String <$> cp_created r)))
    end.

Definition scripted_from_value (v : Value) : result ChangesResponse text :=
  match v with
  | Array l =>
      Ok {| cp_account_id := lit "a"; cp_old_state := lit "s"; cp_new_state := lit "s";
            cp_has_more_changes := bool_decide (l = []); cp_created := omap as_str l;
            cp_updated := []; cp_destroyed := [] |}
  | _ => Err (lit "not a response")
  end.

Definition scripted_page (ids : list Id) : ChangesResponse :=
  {| cp_account_id := lit "a"; cp_old_state := lit "s"; cp_new_state := lit "s";
     cp_has_more_changes := false; cp_created := ids; cp_updated := []; cp_destroyed := [] |}.

Lemma all_changes_bounded_witness :
  NoDup [lit "x"; lit "y"] /\ (2 <= 1000000)%N /\ (2 <= 67108864)%N.
Proof.
  apply (all_changes_bounded (MethodCaller0 := scripted_caller) scripted_from_value budget_per_sync
    [scripted_page [lit "y"; lit "x"]] (lit "a") (lit "Email") (lit "r") []
    {| cs_new_state := lit "s"; cs_created := [lit "x"; lit "y"]; cs_updated := []; cs_destroyed := [] |}).
  vm_compute. reflexivity.
Defined.

Lemma all_changes_stuck_server_witness :
  exists message, all_changes (MethodCaller0 := scripted_caller) scripted_from_value budget_per_sync
    [scripted_page []] (lit "a") (lit "Email") (lit "s") = ([], Err (Protocol message)).
Proof.
  eapply (all_changes_stuck_server (MethodCaller0 := scripted_caller)); vm_compute; reflexivity.
Defined.
