(* ===== verification/ChangesSync.v ===== *)
(** The client against the server: [all_changes] (jmap-client) talking to
    [store_changes] (jmap-mock).

    The server's store may change between two pages.  The theorem says that, page
    by page or in one answer, the client ends up with the net difference between the
    state it asked from and the last state it was told, and that it does end: enough
    budget and less than [MAX_CHANGES_PAGES] new states give a result. *)

From stdpp Require Import prelude strings sorting.
From S2P Require Import Prelude BTree Text Json Proto Store SetOps Changes.
Open Scope rust_scope.

(** ** Histories *)
Section history.
Context {T : Type}.
Implicit Types (s : Store T).

(** An id that existed at two states existed at every state between them. *)
Lemma life_convex s x y z id :
  store_wf s -> (x <= y <= z)%N ->
  existed_at s x id = true -> existed_at s z id = true -> existed_at s y id = true.
Proof.
  intros Hwf Hxyz. unfold existed_at.
  rewrite (changes_since_split s x y), (changes_since_split s y z) by (done || lia).
  assert (valid_life (kinds id (event <$> in_window s x y ++ in_window s y z ++
    store_changes_since s z)) (store_contains s id) = true) as Hv.
  { pose proof (lw_life _ _ (sw_life _ Hwf) id) as Hv.
    assert (exists pre, st_changes s = pre ++ store_changes_since s x) as [pre Hpre].
    { exists (filter (fun c => (ch_state c <= x)%N) (st_changes s)).
      symmetry. apply sorted_filter_split, Hwf. }
    rewrite Hpre, (changes_since_split s x y), (changes_since_split s y z) in Hv by (done || lia).
    rewrite fmap_app, kinds_app in Hv. by apply valid_life_split in Hv as (_ & ? & _). }
  revert Hv. rewrite !fmap_app, !kinds_app.
  generalize (kinds id (event <$> in_window s x y)) as k1.
  generalize (kinds id (event <$> in_window s y z)) as k2.
  generalize (kinds id (event <$> store_changes_since s z)) as k3. intros k3 k2 k1 Hv Hx Hz.
  destruct k1 as [|k k1]; [done|]. apply valid_life_split in Hv as (_ & _ & Hn).
  destruct k2 as [|[] k2]; simpl in *; [done| |done|done]. by destruct (Hn ltac:(done) (k2 ++ k3)).
Qed.

(** Later stores extend the log. *)
Lemma store_steps_log s s' :
  rtc store_step s s' -> store_wf s ->
  exists new, st_changes s' = st_changes s ++ new /\
    Forall (fun c => (st_state s < ch_state c)%N) new.
Proof.
  intros Hsteps Hwf. induction Hsteps as [s|s1 s2 s3 H12 H23 IH].
  { exists []. split; [by rewrite app_nil_r|constructor]. }
  pose proof (store_step_wf _ _ H12 Hwf) as Hwf2. destruct (IH Hwf2) as (new & Hc & Hf).
  destruct (store_step_history s1 s2 (st_state s1) [] H12 Hwf) as [_ Hle]; [done|].
  assert (exists new1, st_changes s2 = st_changes s1 ++ new1 /\
    Forall (fun c => (st_state s1 < ch_state c)%N) new1) as (new1 & Hc1 & Hf1).
  { destruct H12 as [Hn|R f Hb Hsteps]; [exists []; split; [by rewrite app_nil_r|constructor]|].
    destruct (store_transaction_log s1 f _ eq_refl Hsteps Hb) as (_ & _ & _ & Hc1 & _).
    eexists. split; [apply Hc1|]. apply Forall_forall.
    intros c (e & -> & _)%list_elem_of_fmap. simpl. lia. }
  exists (new1 ++ new). rewrite Hc, Hc1, app_assoc. split; [done|].
  apply Forall_app. split; [done|]. eapply Forall_impl; [done|]. simpl. lia.
Qed.

Lemma touched_steps s s' a b id :
  rtc store_step s s' -> store_wf s -> (b <= st_state s)%N ->
  touched s' a b id <-> touched s a b id.
Proof.
  intros Hsteps Hwf Hb. destruct (store_steps_log s s' Hsteps Hwf) as (new & Hc & Hf).
  rewrite Forall_forall in Hf. unfold touched. rewrite Hc. setoid_rewrite elem_of_app.
  split; intros (c & Hin & Hid & Hlt); exists c; [|naive_solver].
  destruct Hin as [?|Hin%Hf]; [done|lia].
Qed.

Lemma touched_split s a b c id :
  (a <= b <= c)%N -> touched s a c id <-> touched s a b id \/ touched s b c id.
Proof.
  intros Habc. unfold touched. split.
  - intros (ch & Hin & Hid & Hlt). destruct (decide (ch_state ch <= b)%N); [left|right];
      exists ch; (split; [done|]; split; [done|lia]).
  - intros [(ch & ? & ? & ?)|(ch & ? & ? & ?)]; exists ch; (split; [done|]; split; [done|lia]).
Qed.

Lemma untouched_same s a b id :
  store_wf s -> (a <= b)%N -> ~ touched s a b id -> existed_at s a id = existed_at s b id.
Proof.
  intros Hwf Hab Hn. destruct (window_life s a b id Hwf Hab) as [_ ->].
  destruct (kinds id _) eqn:E; [done|]. destruct Hn. apply kinds_touched. by rewrite E.
Qed.

(** A transaction body changes only the objects that it stages. *)
Lemma tx_steps_values (t t' : Transaction T) :
  rtc tx_step t t' -> exists new, tx_staged t' = tx_staged t ++ new /\
    forall id, id ∉ new.*2 -> store_get (tx_store t') id = store_get (tx_store t) id.
Proof.
  induction 1 as [t|t1 t2 t3 Hstep _ (new&Hs&Hv)]; [exists []; split; [by rewrite app_nil_r|done]|].
  assert (exists new1, tx_staged t2 = tx_staged t1 ++ new1 /\
    forall id, id ∉ new1.*2 -> store_get (tx_store t2) id = store_get (tx_store t1) id) as (new1&Hs1&Hv1).
  { destruct Hstep as [t Hn|t k v Hf|t k v|t k].
    - exists []. split; [by rewrite app_nil_r|done].
    - exists [(Created, k)]. split; [done|]. intros id Hid. unfold store_get. cbn. rewrite bt_get_insert, decide_False; [done|].
      intros ->. apply Hid. left.
    - unfold transaction_update. destruct (negb _); [exists []; split; [by rewrite app_nil_r|done]|].
      exists [(Updated, k)]. split; [done|]. intros id Hid. unfold store_get. cbn. rewrite bt_get_insert, decide_False; [done|].
      intros ->. apply Hid. left.
    - unfold transaction_destroy. destruct (store_get _ k); [|exists []; split; [by rewrite app_nil_r|done]].
      exists [(Destroyed, k)]. split; [done|]. intros id Hid. unfold store_get. cbn. rewrite bt_get_remove, decide_False; [done|].
      intros ->. apply Hid. left. }
  exists (new1 ++ new). split; [by rewrite Hs, Hs1, app_assoc|]. intros id. rewrite fmap_app, not_elem_of_app. intros [H1 H2].
  by rewrite Hv, Hv1.
Qed.

Lemma store_step_values s s' id :
  store_step s s' -> store_wf s -> ~ touched s' (st_state s) (st_state s') id -> store_get s' id = store_get s id.
Proof.
  intros Hstep Hwf Hn. destruct Hstep as [Hnext|R f Hb Hsteps]; [done|].
  destruct (store_transaction_log s f _ eq_refl Hsteps Hb) as (Ho&_&_&Hc&Hst).
  destruct (tx_steps_values _ _ Hsteps) as (new&Hs&Hv). cbn in Hs, Hv. unfold store_get at 1. rewrite Ho. apply Hv.
  intros ([k i]&->&Hin)%list_elem_of_fmap. apply Hn. exists {| ch_state := st_state s + 1; ch_kind := k; ch_id := i |}%N.
  split_and!; [|done|cbn; lia|].
  - rewrite Hc, Hs. apply elem_of_app. right. unfold stamp. apply list_elem_of_fmap. by exists (k, i).
  - rewrite Hst, Hs, decide_False; [cbn [ch_state]; lia|]. intros ->. by apply elem_of_nil in Hin.
Qed.

Lemma store_steps_values s s' id :
  rtc store_step s s' -> store_wf s -> ~ touched s' (st_state s) (st_state s') id -> store_get s' id = store_get s id.
Proof.
  intros Hsteps. induction Hsteps as [|s1 s2 s3 H12 H23 IH]; intros Hwf Hn; [done|].
  pose proof (store_step_wf _ _ H12 Hwf) as Hwf2.
  destruct (store_step_history s1 s2 (st_state s1) id H12 Hwf) as [_ Hle]; [done|].
  destruct (store_steps_history s2 s3 (st_state s2) id H23 Hwf2) as [_ Hle2]; [done|].
  rewrite (touched_split s3 _ (st_state s2)) in Hn by lia.
  rewrite IH, (store_step_values s1 s2); [done|done|done| |done|].
  - intros Ht. apply Hn. left. by apply (touched_steps s2 s3).
  - intros Ht. apply Hn. by right.
Qed.

(** An object that a delta does not name is as it was. *)
Lemma net_change_values s s' c u d id :
  rtc store_step s s' -> store_wf s -> net_change s' (st_state s) (st_state s') c u d ->
  id ∉ c ++ u ++ d -> store_get s' id = store_get s id.
Proof.
  intros Hsteps Hwf [Hc Hu Hd] Hni. rewrite !not_elem_of_app in Hni. destruct Hni as (Hnc&Hnu&Hnd).
  pose proof (store_steps_wf _ _ Hsteps Hwf) as Hwf'.
  destruct (store_steps_history s s' (st_state s) id Hsteps Hwf) as [Hold _]; [done|].
  assert (existed_at s' (st_state s) id = store_contains s id) as Ho by (by rewrite Hold, existed_now).
  assert (existed_at s' (st_state s') id = store_contains s' id) as Hn by (by apply existed_now).
  destruct (store_contains s id) eqn:E1, (store_contains s' id) eqn:E2.
  - apply store_steps_values; [done|done|]. intros Ht. apply Hnu, Hu. done.
  - exfalso. apply Hnd, Hd. done.
  - exfalso. apply Hnc, Hc. done.
  - unfold store_contains in *. apply bt_contains_false in E1, E2. unfold store_get. congruence.
Qed.
End history.

(** Two callers that answer alike give the same delta. *)
Section simulation.
Context {W1 W2 : Type} (c1 : MethodCaller W1) (c2 : MethodCaller W2).
Variable related : W1 -> W2 -> Prop.
Variable from_value : Value -> result ChangesResponse text.
Variable account_id : Id.
Hypothesis calls : forall w1 w2 capabilities method state, related w1 w2 ->
  let request := changes_request_new account_id state in
  related (c1 w1 capabilities method request).1 (c2 w2 capabilities method request).1 /\
  (c1 w1 capabilities method request).2 = (c2 w2 capabilities method request).2.

Lemma follow_pages_related pages w1 w2 type_name state acc :
  related w1 w2 ->
  related (follow_pages (MethodCaller0 := c1) from_value pages w1 account_id type_name state acc).1
          (follow_pages (MethodCaller0 := c2) from_value pages w2 account_id type_name state acc).1 /\
  (follow_pages (MethodCaller0 := c1) from_value pages w1 account_id type_name state acc).2 =
  (follow_pages (MethodCaller0 := c2) from_value pages w2 account_id type_name state acc).2.
Proof using calls.
  revert w1 w2 state acc. induction pages as [|pages IH]; intros w1 w2 state acc Hw; [done|]. cbn [follow_pages]. unfold changes.
  destruct (capability_for type_name) as [capability|]; [|done]. unfold single_call.
  destruct (calls w1 w2 [lit "urn:ietf:params:jmap:core"; capability] (type_name ++ lit "/changes") state Hw) as [Hw' Hr].
  destruct (c1 w1 _ _ _) as [w1' r1], (c2 w2 _ _ _) as [w2' r2]. cbn [fst snd] in Hw', Hr. subst r2.
  destruct (rbind r1 _) as [response|e]; [|done]. destruct (keep_page type_name acc response) as [acc'|e]; [|done].
  destruct (negb (cp_has_more_changes response)); [done|]. destruct (negb (negb _)); [done|]. by apply IH.
Qed.
End simulation.

(** ** Pages *)
Definition seen_at (id : Id) (m : btmap Id Seen) : Seen := default seen_default (bt_get id m).

Lemma keep_all_seen type_name mark acc ids acc' id :
  (forall d, mark (mark d) = mark d) ->
  try_fold (keep type_name mark) acc ids = Ok acc' ->
  seen_at id acc'.1 = if bool_decide (id ∈ ids) then mark (seen_at id acc.1) else seen_at id acc.1.
Proof.
  intros Hm. revert acc. induction ids as [|k ids IH]; intros acc; cbn [try_fold].
  { by intros [= <-]. }
  intros (acc1 & Hk & Hf)%rbind_ok. rewrite (IH _ Hf). unfold seen_at at 1 2.
  rewrite (keep_get _ _ _ _ _ id Hk). unfold seen_at.
  destruct (decide (k = id)) as [->|Hne].
  - rewrite (bool_decide_eq_true_2 (id ∈ id :: ids)) by left. simpl.
    case_bool_decide; by rewrite ?Hm.
  - rewrite (bool_decide_ext (id ∈ k :: ids) (id ∈ ids)); [done|].
    rewrite elem_of_cons. naive_solver.
Qed.

(** The flags of an id after a page. *)
Lemma keep_page_seen type_name acc r acc' id :
  keep_page type_name acc r = Ok acc' ->
  let d := seen_at id acc.1 in let d' := seen_at id acc'.1 in
  sn_created d' = bool_decide (id ∈ cp_created r) || sn_created d /\
  sn_updated d' = bool_decide (id ∈ cp_updated r) || sn_updated d /\
  sn_destroyed d' = bool_decide (id ∈ cp_destroyed r) || sn_destroyed d.
Proof.
  unfold keep_page. intros (a1 & H1 & (a2 & H2 & H3)%rbind_ok)%rbind_ok. simpl.
  rewrite (keep_all_seen _ set_destroyed _ _ _ id (fun _ => eq_refl) H3),
    (keep_all_seen _ set_updated _ _ _ id (fun _ => eq_refl) H2),
    (keep_all_seen _ set_created _ _ _ id (fun _ => eq_refl) H1).
  by repeat case_bool_decide.
Qed.

Section invariant.
Context {T : Type}.
Implicit Types (s : Store T) (m : btmap Id Seen).

(** What the flags kept so far say, between the first state and the last one told. *)
Definition flags_fit (x0 x : bool) (d : Seen) (hit : Prop) : Prop :=
  match x0, x with
  | true, true => sn_created d = false /\ sn_destroyed d = false /\ (sn_updated d = true <-> hit)
  | false, true => sn_created d = true /\ sn_destroyed d = false
  | true, false => sn_created d = false /\ sn_destroyed d = true
  | false, false =>
      sn_created d = sn_destroyed d /\ (sn_created d = false -> sn_updated d = false)
  end.

#[export] Instance flags_fit_proper x0 x d : Proper (iff ==> iff) (flags_fit x0 x d).
Proof. intros P Q HPQ. unfold flags_fit. destruct x0, x; naive_solver. Qed.

Lemma flags_fit_page x0 x x' d d' hit hit' iu :
  flags_fit x0 x d hit ->
  sn_created d' = (negb x && x') || sn_created d ->
  sn_updated d' = iu || sn_updated d ->
  sn_destroyed d' = (x && negb x') || sn_destroyed d ->
  (iu = true <-> x = true /\ x' = true /\ hit') ->
  (x0 = true -> x' = true -> x = true) ->
  (sn_created d = true \/ sn_destroyed d = true -> x' = true -> x = true) ->
  flags_fit x0 x' d' (hit \/ hit').
Proof.
  destruct d as [c u t], d' as [c' u' t']. simpl. intros Hf -> -> -> Hiu H1 H2.
  destruct x0, x, x'; simpl in *; destruct c, t; simpl in *;
    destruct u, iu; simpl; try (exfalso; destruct Hf as [? ?]; congruence); intuition congruence.
Qed.

Definition seen_inv s (e0 e : N) m : Prop := forall id,
  flags_fit (existed_at s e0 id) (existed_at s e id) (seen_at id m) (touched s e0 e id) /\
  (sn_created (seen_at id m) = true \/ sn_destroyed (seen_at id m) = true ->
   exists x, (e0 <= x <= e)%N /\ existed_at s x id = true).

Lemma seen_inv_start s e0 : seen_inv s e0 e0 [].
Proof.
  intros id. unfold seen_at. simpl. split; [|by intros [?|?]].
  destruct (existed_at s e0 id); simpl; [|done]. split; [done|]. split; [done|].
  split; [done|]. intros (c & _ & _ & Hc). lia.
Qed.

Lemma seen_inv_steps s s' e0 e m :
  rtc store_step s s' -> store_wf s -> (e0 <= e <= st_state s)%N ->
  seen_inv s e0 e m -> seen_inv s' e0 e m.
Proof.
  intros Hsteps Hwf He Hinv id. destruct (Hinv id) as [Hf Hx].
  destruct (store_steps_history s s' e0 id Hsteps Hwf) as [-> _]; [lia|].
  destruct (store_steps_history s s' e id Hsteps Hwf) as [-> _]; [lia|]. split.
  - by rewrite (touched_steps s s' e0 e id Hsteps Hwf) by lia.
  - intros Hc. destruct (Hx Hc) as (x & Hle & Hex). exists x. split; [done|].
    destruct (store_steps_history s s' x id Hsteps Hwf) as [-> _]; [lia|done].
Qed.

Lemma seen_inv_page s type_name e0 e e' acc r acc' :
  store_wf s -> (e0 <= e <= e')%N -> seen_inv s e0 e acc.1 ->
  net_change s e e' (cp_created r) (cp_updated r) (cp_destroyed r) ->
  keep_page type_name acc r = Ok acc' -> seen_inv s e0 e' acc'.1.
Proof.
  intros Hwf He Hinv [Hc Hu Hd] Hk id. destruct (Hinv id) as [Hf Hx].
  destruct (keep_page_seen _ _ _ _ id Hk) as (Ec & Eu & Ed).
  specialize (Hc id). specialize (Hu id). specialize (Hd id).
  pose proof (life_convex s e0 e e' id Hwf He) as Hconv.
  assert (sn_created (seen_at id acc.1) = true \/ sn_destroyed (seen_at id acc.1) = true ->
    existed_at s e' id = true -> existed_at s e id = true) as Hconv'.
  { intros (x & Hle & Hex)%Hx He'. apply (life_convex s x e e' id); [done|lia|done|done]. }
  split.
  - rewrite (touched_split s e0 e e' id He). eapply flags_fit_page; [done|..].
    + rewrite Ec. f_equal. apply eq_bool_prop_intro. rewrite bool_decide_spec, Hc.
      by destruct (existed_at s e id), (existed_at s e' id); naive_solver.
    + done.
    + rewrite Ed. f_equal. apply eq_bool_prop_intro. rewrite bool_decide_spec, Hd.
      by destruct (existed_at s e id), (existed_at s e' id); naive_solver.
    + by rewrite bool_decide_eq_true, Hu.
    + done.
    + done.
  - rewrite Ec, Ed, !orb_true_iff, !bool_decide_eq_true, Hc, Hd.
    intros [[[_ Hex]|Ho]|[[Hex _]|Ho]].
    + exists e'. split; [lia|done].
    + destruct Hx as (x & ? & ?); [by left|]. exists x. split; [lia|done].
    + exists e. split; [lia|done].
    + destruct Hx as (x & ? & ?); [by right|]. exists x. split; [lia|done].
Qed.

Lemma seen_inv_net s e0 e m st :
  bt_ok m -> seen_inv s e0 e m ->
  let c := changeset_classify st m in
  net_change s e0 e (cs_created c) (cs_updated c) (cs_destroyed c).
Proof.
  intros Hm Hinv. cbv zeta.
  assert (forall id k, (exists d, (id, d) ∈ m /\ seen_kind d = Some k) <->
    seen_kind (seen_at id m) = Some k) as Hkind.
  { intros id k. unfold seen_at. split.
    - intros (d & Hd & Hk). apply bt_elem_get in Hd; [|done]. by rewrite Hd.
    - destruct (bt_get id m) as [d|] eqn:E; [|done]. intros Hk. exists d.
      split; [by apply bt_elem_get|done]. }
  split; intros id; destruct (classify_elem st m id) as (Hc & Hu & Hd);
    [rewrite Hc|rewrite Hu|rewrite Hd]; rewrite Hkind; destruct (Hinv id) as [Hf _]; clear -Hf;
    unfold seen_kind, flags_fit in *;
    destruct (existed_at s e0 id), (existed_at s e id), (seen_at id m) as [[] [] []]; simpl in *;
    naive_solver.
Qed.
End invariant.

(** ** The mock server as the world *)
Section end_to_end.
Context {T : Type}.

(** The store at the time of each call, the server's settings, and [serde] on the
    response: reading undoes writing. *)
Variable stores : nat -> Store T.
Variable page_size : option N.
Variable flag : bool.
Variable to_value : ChangesResponse -> Value.
Variable from_value : Value -> result ChangesResponse text.
Hypothesis serde_roundtrip : forall r, from_value (to_value r) = Ok r.

#[local] Instance mock_caller : MethodCaller nat := fun i _ _ request =>
  (S i, match store_changes (stores i) request page_size flag with
        | Ok r => Ok (to_value r)
        | Err e => Err (Method e)
        end).

(** The server's history: it starts well formed and only takes steps of the store. *)
Hypothesis stores_start : store_wf (stores 0).
Hypothesis stores_step : forall i, rtc store_step (stores i) (stores (S i)).

Lemma stores_steps i j : i <= j -> rtc store_step (stores i) (stores j).
Proof. induction 1 as [|j _ IH]; [apply rtc_refl|]. etrans; [apply IH|apply stores_step]. Qed.

Lemma stores_wf i : store_wf (stores i).
Proof. eapply store_steps_wf; [apply (stores_steps 0 i); lia|done]. Qed.

Lemma stores_state i j : i <= j -> (st_state (stores i) <= st_state (stores j))%N.
Proof.
  intros Hij. destruct (store_steps_history (stores i) (stores j) (st_state (stores i)) []
    (stores_steps i j Hij) (stores_wf i)); [done|done].
Qed.

Lemma changes_mock i account_id type_name state since capability :
  capability_for type_name = Some capability -> parse_u64 state = Some since ->
  exists e r, changes from_value i account_id type_name state = (S i, Ok r) /\
    cp_new_state r = to_dec e /\
    net_change (stores i) since e (cp_created r) (cp_updated r) (cp_destroyed r) /\
    (cp_has_more_changes r = false -> e = st_state (stores i)) /\
    (cp_has_more_changes r = true -> (since < e < st_state (stores i))%N).
Proof.
  intros Hc Hp. unfold changes. rewrite Hc. unfold single_call, mock_caller.
  destruct (store_changes_answer (stores i) (changes_request_new account_id state) page_size flag
    since (stores_wf i) Hp) as (e & r & -> & Hw & _ & _ & Hn & Hnet & _).
  exists e, r. simpl. rewrite serde_roundtrip. split; [done|]. split; [done|]. split; [done|].
  by destruct (window_spec _ _ _ _ _ (stores_wf i) Hw) as (_ & _ & ? & ?).
Qed.

(** The ids with a log entry after [since]: all that a sync can have to keep. *)
Definition logged (s : Store T) (since : N) : list Id :=
  remove_dups (ch_id <$> store_changes_since s since).

Definition budget_fits (b : IdBudget) (s : Store T) (since : N) : Prop :=
  (N.of_nat (length (logged s since)) <= ib_ids b)%N /\ (id_bytes (logged s since) <= ib_bytes b)%N.

Lemma id_bytes_perm (a b : list Id) : a ≡ₚ b -> id_bytes a = id_bytes b.
Proof. induction 1; simpl; lia. Qed.

Lemma id_bytes_sub (a b : list Id) : NoDup a -> a ⊆ b -> (id_bytes a <= id_bytes b)%N.
Proof.
  intros Ha Hab. pose proof (NoDup_submseteq a b Ha Hab) as [k Hk]%submseteq_Permutation.
  rewrite (id_bytes_perm _ _ Hk), id_bytes_app. lia.
Qed.

Lemma length_sub (a b : list Id) : NoDup a -> a ⊆ b -> length a <= length b.
Proof. intros Ha Hab. by apply submseteq_length, NoDup_submseteq. Qed.

(** Keeping ids of the log succeeds within a fitting budget. *)
Lemma keep_all_fits type_name mark b s since acc ids :
  budget_fits b s since -> charged b acc -> acc.1.*1 ⊆ logged s since -> ids ⊆ logged s since ->
  exists acc', try_fold (keep type_name mark) acc ids = Ok acc' /\ charged b acc' /\
    acc'.1.*1 ⊆ logged s since.
Proof.
  intros [Hbi Hbb]. revert acc. induction ids as [|id ids IH]; intros acc Hc Hm Hids; [by exists acc|].
  cbn [try_fold]. assert (exists acc1, keep type_name mark acc id = Ok acc1) as [acc1 Hk].
  { destruct acc as [m b1]. destruct Hc as [Hok Hi Hb]. simpl in *.
    destruct (bt_get id m) as [d|] eqn:Eg; [by eexists|].
    destruct (budget_charge b1 id) as [[] b2] eqn:Eb; [by eexists|exfalso].
    apply budget_charge_false in Eb as [_ Hlt].
    assert (NoDup (id :: m.*1)) as Hnd.
    { apply NoDup_cons. split; [by apply bt_get_None_elem|by apply bt_ok_nodup]. }
    assert (id :: m.*1 ⊆ logged s since) as Hsub.
    { intros x [->|Hx]%elem_of_cons; [apply Hids; by left|by apply Hm]. }
    pose proof (length_sub _ _ Hnd Hsub) as Hl. pose proof (id_bytes_sub _ _ Hnd Hsub) as Hy.
    simpl in Hl, Hy. rewrite length_fmap in Hl. lia. }
  rewrite Hk. cbn [rbind]. apply IH.
  - by eapply keep_charged.
  - intros x Hx. apply list_elem_of_fmap in Hx as ([x' d] & -> & Hx).
    apply bt_elem_get in Hx; [|by eapply keep_charged]. simpl in *.
    rewrite (keep_get _ _ _ _ _ x' Hk) in Hx. case_decide; [subst; apply Hids; by left|].
    apply Hm. apply bt_get_Some_elem in Hx. by apply (list_elem_of_fmap_2 fst _ (x', d)).
  - intros x Hx. apply Hids. by right.
Qed.

Lemma changed_touched (s : Store T) a b id :
  store_wf s -> (a <= b)%N -> existed_at s a id <> existed_at s b id -> touched s a b id.
Proof.
  intros Hwf Hab Hne. apply kinds_touched. intros Hk. apply Hne.
  destruct (window_life s a b id Hwf Hab) as [_ ->]. by rewrite Hk.
Qed.

Lemma touched_logged (s s' : Store T) since a b id :
  rtc store_step s s' -> store_wf s -> (since <= a)%N -> touched s a b id -> id ∈ logged s' since.
Proof.
  intros Hsteps Hwf Hle (c & Hin & <- & Hlt).
  destruct (store_steps_log s s' Hsteps Hwf) as (new & Hc & _).
  apply elem_of_remove_dups, list_elem_of_fmap_2, list_elem_of_filter.
  split; [lia|]. rewrite Hc. apply elem_of_app. by left.
Qed.

Lemma page_logged (s s' : Store T) since a b c u d :
  rtc store_step s s' -> store_wf s -> (since <= a <= b)%N -> net_change s a b c u d ->
  c ⊆ logged s' since /\ u ⊆ logged s' since /\ d ⊆ logged s' since.
Proof.
  intros Hsteps Hwf Hle [Hc Hu Hd]. split; [|split]; intros id Hin.
  - apply Hc in Hin as [H1 H2]. eapply (touched_logged s s' since a b); [done|done|lia|].
    apply changed_touched; [done|lia|congruence].
  - apply Hu in Hin as (_ & _ & Ht). eapply (touched_logged s s' since a b); [done|done|lia|done].
  - apply Hd in Hin as [H1 H2]. eapply (touched_logged s s' since a b); [done|done|lia|].
    apply changed_touched; [done|lia|congruence].
Qed.

Lemma keep_page_fits type_name b s since acc r :
  budget_fits b s since -> charged b acc -> acc.1.*1 ⊆ logged s since ->
  cp_created r ⊆ logged s since -> cp_updated r ⊆ logged s since ->
  cp_destroyed r ⊆ logged s since ->
  exists acc', keep_page type_name acc r = Ok acc' /\ charged b acc' /\
    acc'.1.*1 ⊆ logged s since.
Proof.
  intros Hb Hc Hm H1 H2 H3. unfold keep_page.
  destruct (keep_all_fits type_name set_created b s since acc _ Hb Hc Hm H1) as (a1 & -> & Hc1 & Hm1).
  destruct (keep_all_fits type_name set_updated b s since a1 _ Hb Hc1 Hm1 H2) as (a2 & E2 & Hc2 & Hm2).
  cbn [rbind]. rewrite E2. cbn [rbind]. by apply keep_all_fits.
Qed.

Lemma follow_pages_mock b account_id type_name capability since last pages i e state acc :
  capability_for type_name = Some capability ->
  budget_fits b (stores last) since -> (st_state (stores last) < e + N.of_nat pages)%N ->
  i + pages <= last -> charged b acc -> acc.1.*1 ⊆ logged (stores last) since ->
  seen_inv (stores i) since e acc.1 -> (since <= e <= st_state (stores i))%N ->
  parse_u64 state = Some e ->
  exists j c, follow_pages from_value pages i account_id type_name state acc = (S j, Ok c) /\
    i <= j /\ cs_new_state c = to_dec (st_state (stores j)) /\
    net_change (stores j) since (st_state (stores j)) (cs_created c) (cs_updated c) (cs_destroyed c).
Proof.
  intros Hcap Hfit. revert i e state acc.
  induction pages as [|pages IH]; intros i e state acc Hfuel Hi Hch Hm Hinv He Hp.
  { pose proof (stores_state i last ltac:(lia)). lia. }
  cbn [follow_pages].
  destruct (changes_mock i account_id type_name state e capability Hcap Hp)
    as (e' & r & -> & Hn & Hnet & Hlast & Hmore).
  assert (e <= e' <= st_state (stores i))%N as He'.
  { destruct (cp_has_more_changes r); [specialize (Hmore eq_refl)|specialize (Hlast eq_refl)]; lia. }
  destruct (page_logged (stores i) (stores last) since e e' _ _ _ (stores_steps i last ltac:(lia))
    (stores_wf i) ltac:(lia) Hnet) as (H1 & H2 & H3).
  destruct (keep_page_fits type_name b (stores last) since acc r Hfit Hch Hm H1 H2 H3)
    as (acc' & Ek & Hch' & Hm'). rewrite Ek.
  pose proof (seen_inv_page (stores i) type_name since e e' acc r acc' (stores_wf i)
    ltac:(lia) Hinv Hnet Ek) as Hinv'.
  assert (parse_u64 (cp_new_state r) = Some e') as Hp'.
  { rewrite Hn. apply parse_u64_to_dec. pose proof (sw_bound _ (stores_wf i)). lia. }
  destruct (cp_has_more_changes r) eqn:Er; simpl.
  - specialize (Hmore eq_refl). rewrite bool_decide_eq_false_2; simpl.
    2: { intros Heq. rewrite Heq, Hp in Hp'. simplify_eq. lia. }
    destruct (IH (S i) e' (cp_new_state r) acc') as (j & c & Hf & Hij & Hc); try done; try lia.
    + apply (seen_inv_steps (stores i)); [apply stores_step|apply stores_wf|lia|done].
    + pose proof (stores_state i (S i) ltac:(lia)). lia.
    + exists j, c. split; [done|]. split; [lia|done].
  - specialize (Hlast eq_refl). subst e'. exists i, (changeset_classify (cp_new_state r) acc'.1).
    split; [done|]. split; [done|]. split; [by rewrite classify_state|].
    by apply seen_inv_net; [apply Hch'|].
Qed.
End end_to_end.

(** C1: the client and the server together.  However the server pages its answer, and
    whatever transactions it runs between the pages, [all_changes] from a state the
    server issued returns the net difference up to the state of the store that answered
    the last page, provided that fewer than [MAX_CHANGES_PAGES] states are new and the
    ids fit the budget. *)
Theorem all_changes_sync {T} (stores : nat -> Store T) page_size flag to_value from_value
    budget account_id type_name capability state since :
  (forall r, from_value (to_value r) = Ok r) ->
  store_wf (stores 0) -> (forall i, rtc store_step (stores i) (stores (S i))) ->
  capability_for type_name = Some capability ->
  parse_u64 state = Some since -> (since <= st_state (stores 0%nat))%N ->
  (st_state (stores MAX_CHANGES_PAGES) < since + N.of_nat MAX_CHANGES_PAGES)%N ->
  budget_fits budget (stores MAX_CHANGES_PAGES) since ->
  exists j c,
    all_changes (MethodCaller0 := mock_caller stores page_size flag to_value) from_value
      budget 0 account_id type_name state = (S j, Ok c) /\
    cs_new_state c = to_dec (st_state (stores j)) /\
    net_change (stores j) since (st_state (stores j)) (cs_created c) (cs_updated c) (cs_destroyed c).
Proof.
  intros Hserde Hwf Hsteps Hcap Hp Hle Hfuel Hfit.
  destruct (follow_pages_mock stores page_size flag to_value from_value Hserde Hwf Hsteps
    budget account_id type_name capability since MAX_CHANGES_PAGES MAX_CHANGES_PAGES 0 since state
    ([], budget)) as (j & c & Hf & _ & Hn & Hnet); try done.
  - split; simpl; [constructor|lia|lia].
  - simpl. intros x Hx. by apply elem_of_nil in Hx.
  - apply seen_inv_start.
  - exists j, c. split; [exact Hf|done].
Qed.

(** A caller that answers every page from one store, in a world that stays as it is. *)
Lemma all_changes_store {T W} (caller : MethodCaller W) (w : W) (store old : Store T) page_size flag to_value from_value budget account_id type_name capability :
  (forall r, from_value (to_value r) = Ok r) ->
  (forall capabilities method state, caller w capabilities method (changes_request_new account_id state) =
    (w, match store_changes store (changes_request_new account_id state) page_size flag with Ok r => Ok (to_value r) | Err e => Err (Method e) end)) ->
  capability_for type_name = Some capability -> store_wf old -> rtc store_step old store ->
  (st_state store < st_state old + N.of_nat MAX_CHANGES_PAGES)%N -> budget_fits budget store (st_state old) ->
  exists c, all_changes from_value budget w account_id type_name (store_state old) = (w, Ok c) /\
    cs_new_state c = store_state store /\ changeset_ok c /\
    net_change store (st_state old) (st_state store) (cs_created c) (cs_updated c) (cs_destroyed c).
Proof.
  intros Hserde Hcalls Hcap Hwf Hsteps Hpages Hfit. pose proof (store_steps_wf _ _ Hsteps Hwf) as Hwf'. pose (stores := fun _ : nat => store).
  destruct (follow_pages_mock stores page_size flag to_value from_value Hserde Hwf' ltac:(done) budget account_id type_name capability
    (st_state old) MAX_CHANGES_PAGES MAX_CHANGES_PAGES 0 (st_state old) (store_state old) ([], budget)) as (j&c&Hf&_&Hn&Hnet); try done.
  - split; simpl; [constructor|lia|lia].
  - simpl. intros x Hx. by apply elem_of_nil in Hx.
  - apply seen_inv_start.
  - split; [lia|]. by destruct (store_steps_history _ _ (st_state old) [] Hsteps Hwf).
  - apply parse_u64_to_dec. apply (sw_bound _ Hwf).
  - destruct (follow_pages_related caller (mock_caller stores page_size flag to_value) (fun w' _ => w' = w) from_value account_id)
      with (pages := MAX_CHANGES_PAGES) (w1 := w) (w2 := 0%nat) (type_name := type_name)
      (state := store_state old) (acc := (@nil (Id * Seen), budget)) as [Hs Hr]; [|done|].
    { intros w1 w2 capabilities method state ->. cbv zeta. by rewrite Hcalls. }
    assert (changeset_ok c) as Hcok.
    { destruct (@follow_pages_charged nat (mock_caller stores page_size flag to_value) _ _ _ _ _ _ ([], budget) budget _ _
        ltac:(split; simpl; [constructor|lia|lia]) Hf) as (st&acc&_&->). apply classify_ok. }
    rewrite Hf in Hr. cbn [snd] in Hr. exists c. split; [|done].
    unfold all_changes. destruct (follow_pages _ _ w _ _ _ _) as [w' r]. cbn [fst snd] in Hs, Hr. by subst.
Qed.

(** ** An instance: a store that changes between the pages *)
Definition example_stores (i : nat) : Store N :=
  match i with 0 => example_created | 1 => example_updated | _ => example_store end.

Definition ids_to_value (ids : list Id) : Value := Array (String <$> ids).

Definition ids_from_value (v : Value) : list Id :=
  match v with Array l => omap as_str l | _ => [] end.

Definition changes_to_value (r : ChangesResponse) : Value :=
  Array [String (cp_account_id r); String (cp_old_state r); String (cp_new_state r);
         Bool (cp_has_more_changes r); ids_to_value (cp_created r);
         ids_to_value (cp_updated r); ids_to_value (cp_destroyed r)].

Definition changes_from_value (v : Value) : result ChangesResponse text :=
  match v with
  | Array [String a; String o; String n; Bool m; c; u; d] =>
      Ok {| cp_account_id := a; cp_old_state := o; cp_new_state := n; cp_has_more_changes := m;
            cp_created := ids_from_value c; cp_updated := ids_from_value u;
            cp_destroyed := ids_from_value d |}
  | _ => Err (lit "not a response")
  end.

Lemma ids_roundtrip ids : ids_from_value (ids_to_value ids) = ids.
Proof. induction ids as [|id ids IH]; simpl in *; [done|]. f_equal. apply IH. Qed.

Lemma changes_roundtrip r : changes_from_value (changes_to_value r) = Ok r.
Proof. destruct r. unfold changes_to_value, changes_from_value. by rewrite !ids_roundtrip. Qed.

Lemma example_stores_step i : rtc store_step (example_stores i) (example_stores (S i)).
Proof.
  destruct i as [|[|i]]; simpl.
  - apply rtc_once, store_update_step. vm_compute. reflexivity.
  - apply rtc_once, store_destroy_step. vm_compute. reflexivity.
  - apply rtc_refl.
Qed.

Lemma example_created_wf : store_wf example_created.
Proof.
  eapply store_steps_wf; [apply (store_create_step example_seed 20%N)|apply example_seed_wf];
    [apply example_seed_wf|vm_compute; reflexivity..].
Qed.

Lemma all_changes_sync_witness :
  exists j c,
    all_changes (MethodCaller0 := mock_caller example_stores (Some 1%N) false changes_to_value)
      changes_from_value budget_per_sync 0 (lit "a") (lit "Email") (lit "1") = (S j, Ok c) /\
    cs_new_state c = to_dec (st_state (example_stores j)) /\
    net_change (example_stores j) 1 (st_state (example_stores j))
      (cs_created c) (cs_updated c) (cs_destroyed c).
Proof.
  apply (all_changes_sync example_stores (Some 1%N) false changes_to_value changes_from_value
    budget_per_sync (lit "a") (lit "Email") (lit "urn:ietf:params:jmap:mail")).
  - apply changes_roundtrip.
  - apply example_created_wf.
  - apply example_stores_step.
  - vm_compute. reflexivity.
  - vm_compute. reflexivity.
  - vm_compute. discriminate.
  - vm_compute. reflexivity.
  - split; vm_compute; discriminate.
Defined.
