(* ===== verification/ObjectSync.v ===== *)
(** The steps that address books and calendars share (jmap-object-sync/src/lib.rs).

    [ObjectKind] is the trait of one object type.  [classify] turns an account-wide
    delta into what changed in one collection; [patch_since] resolves an edit against a
    base copy; [revision_of] is the change token of a rendered object. *)

From Stdlib Require Import Ascii String.
From stdpp Require Import prelude strings sorting.
From S2P Require Import Prelude BTree Strings Json Proto Changes Store SetOps ChangesSync.
Open Scope rust_scope.

(** ** The trait *)
Class ObjectKind (Object : Type) : Type := {
  TYPE : text;
  NOUN : text;
  A_NOUN : text;
  MEMBERSHIP : text;
  object_id : Object -> option Id;
  membership : Object -> option (btmap Id bool);
  diff : Object -> Object -> btmap text Value;
  diff_since_except : Object -> Object -> Object -> btset text -> btmap text Value;
  conflicts : Object -> Object -> Object -> btset text;
}.

Inductive OnConflict := KeepLocal | KeepServer | FailOnConflict.

(** A conflict that [FailOnConflict] refuses. *)
Inductive OutOfSync := out_of_sync.

Record Changes (I : Type) := {
  ch_new_state : State;
  ch_changed : list I;
  ch_removed : list text;
}.
Arguments ch_new_state {I}.
Arguments ch_changed {I}.
Arguments ch_removed {I}.

Section object_sync.
Context {Object : Type} `{!ObjectKind Object}.
Implicit Types (o : Object).

Definition id_of o : result Id Error :=
  ok_or (object_id o) (Protocol (TYPE ++ lit "/get returned " ++ A_NOUN ++ lit " without an id")).

Definition holds o (own : Id) : result bool Error :=
  match membership o ≫= bt_get own with
  | Some false =>
      Err (Protocol (TYPE ++ lit "/get returned " ++ default (lit "<no id>") (object_id o) ++
        lit " with a false-valued " ++ MEMBERSHIP ++ lit " entry for " ++ own))
  | Some true => Ok true
  | None => Ok false
  end.

(** [classify]: [E] is the caller's error type, with its [From<jmap_client::Error>]. *)
Section classify.
Context {I E : Type}.
Variable from_error : Error -> E.
Variable get : list Id -> result (GetResponse Object) Error.
Variable render : Object -> result I E.

Definition classify_object (delta : ChangeSet) (own : Id)
    (acc : list I * list text) o : result (list I * list text) E :=
  let '(changed, removed) := acc in
  let? id := map_err from_error (id_of o) in
  let? held := map_err from_error (holds o own) in
  if held : bool then let? i := render o in Ok (changed ++ [i], removed)
  else if bs_contains id (cs_updated delta) then Ok (changed, removed ++ [id])
  else Ok (changed, removed).

Definition classify (delta : ChangeSet) (own : Id) : result (Changes I) E :=
  let removed := cs_destroyed delta in
  let candidates := bs_union (cs_created delta) (cs_updated delta) in
  let? lists :=
    match candidates with
    | [] => Ok ([], removed)
    | _ =>
        let? response := map_err from_error (get candidates) in
        let? acc := try_fold (classify_object delta own) ([], removed) (gr_list response) in
        Ok (acc.1, acc.2 ++ filter (fun id => bs_contains id (cs_updated delta) = true)
                                   (gr_not_found response))
    end in
  Ok {| ch_new_state := cs_new_state delta; ch_changed := lists.1; ch_removed := lists.2 |}.
End classify.

Definition patch_since (base : result Object text) (on_conflict : OnConflict)
    (current edited : Object) : result (btmap text Value) OutOfSync :=
  match base with
  | Err _ => Ok (diff current edited)
  | Ok base =>
      let c := conflicts base current edited in
      match c with
      | [] => Ok (diff_since_except base current edited [])
      | _ =>
          match on_conflict with
          | KeepLocal => Ok (diff_since_except base current edited [])
          | KeepServer => Ok (diff_since_except base current edited c)
          | FailOnConflict => Err out_of_sync
          end
      end
  end.
End object_sync.

(** ** The change token: FNV-1a over the octets, as 16 hexadecimal digits *)
Definition fnv_offset : N := 0xcbf29ce484222325.
Definition fnv_prime : N := 0x00000100000001b3.

Definition fnv_step (hash : N) (byte : ascii) : N :=
  wrap_u64 (N.lxor hash (N_of_ascii byte) * fnv_prime).

Definition fnv1a (t : text) : N := fold_left fnv_step t fnv_offset.

Definition hex_digit (n : N) : ascii :=
  ascii_of_N (if (n <? 10)%N then 48 + n else 87 + n).

(** [format!("{:016x}")]: 16 digits, the most significant first. *)
Fixpoint hex_digits (n : nat) (v : N) : text :=
  match n with
  | O => []
  | S n => hex_digits n (v / 16) ++ [hex_digit (v mod 16)]
  end.

Definition revision_of (rendered : text) : text := hex_digits 16 (fnv1a rendered).

(** ** Classification *)
Section classify_lemmas.
Context {Object : Type} `{!ObjectKind Object}.
Context {I E : Type}.
Variable from_error : Error -> E.
Variable get : list Id -> result (GetResponse Object) Error.
Variable render : Object -> result I E.
Implicit Types (o : Object) (delta : ChangeSet).

Definition held (own : Id) o : bool :=
  match holds o own with Ok b => b | Err _ => false end.

(** The ids that an object of the response removes from the collection. *)
Definition left_collection delta (own : Id) o : option Id :=
  match object_id o with
  | Some id => if negb (held own o) && bs_contains id (cs_updated delta) then Some id else None
  | None => None
  end.

Lemma classify_objects delta own c r l c' r' :
  try_fold (classify_object from_error render delta own) (c, r) l = Ok (c', r') ->
  exists cs, Forall2 (fun o i => render o = Ok i) (filter (fun o => held own o = true) l) cs /\
    c' = c ++ cs /\ r' = r ++ omap (left_collection delta own) l /\
    Forall (fun o => is_Some (object_id o) /\ is_ok (holds o own) = true) l.
Proof.
  revert c r. induction l as [|o l IH]; intros c r; cbn [try_fold].
  { intros [= <- <-]. exists []. rewrite !app_nil_r. repeat constructor. }
  intros ([c1 r1] & Ho & Hl)%rbind_ok. unfold classify_object in Ho.
  apply rbind_ok in Ho as (id & Hid & (h & Hh & Ho)%rbind_ok).
  assert (object_id o = Some id) as Eid.
  { revert Hid. unfold id_of. destruct (object_id o); simpl; by intros [= <-]. }
  assert (holds o own = Ok h) as Eh.
  { destruct (holds o own); simpl in Hh; by simplify_eq. }
  assert (held own o = h) as Eheld by (unfold held; by rewrite Eh).
  rewrite filter_cons. cbn [omap list_omap]. unfold left_collection at 1. rewrite Eid, Eheld.
  destruct h; simpl.
  - apply rbind_ok in Ho as (i & Hi & [= <- <-]).
    destruct (IH _ _ Hl) as (cs & Hcs & -> & -> & Hf). exists (i :: cs).
    split; [by constructor|]. split; [by rewrite <- app_assoc|]. split; [done|].
    constructor; [rewrite Eid, Eh; eauto|done].
  - destruct (bs_contains id (cs_updated delta)); simplify_eq;
      destruct (IH _ _ Hl) as (cs & Hcs & -> & -> & Hf); exists cs;
      (split; [done|]); (split; [done|]); (split; [by rewrite <- ?app_assoc|]);
      (constructor; [rewrite Eid, Eh; eauto|done]).
Qed.

(** What the server holds when it answers the [/get]: [now id] is [None] for an id that
    does not exist, and else whether it is filed in [own]. *)
Record faithful_get (own : Id) (now : Id -> option bool) (candidates : list Id)
    (r : GetResponse Object) : Prop := {
  fg_found : forall id h, id ∈ candidates -> now id = Some h ->
    exists o, (o ∈ gr_list r) /\ object_id o = Some id;
  fg_missing : forall id, id ∈ candidates -> now id = None -> id ∈ gr_not_found r;
  fg_list : forall o id, o ∈ gr_list r -> object_id o = Some id ->
    (id ∈ candidates) /\ now id = Some (held own o);
  fg_not_found : forall id, id ∈ gr_not_found r -> (id ∈ candidates) /\ now id = None;
}.

Lemma classify_inv delta own ch :
  classify from_error get render delta own = Ok ch ->
  exists l nf, ch_new_state ch = cs_new_state delta /\
    (bs_union (cs_created delta) (cs_updated delta) = [] /\ l = [] /\ nf = [] \/
     exists r, get (bs_union (cs_created delta) (cs_updated delta)) = Ok r /\
       gr_list r = l /\ gr_not_found r = nf) /\
    Forall2 (fun o i => render o = Ok i) (filter (fun o => held own o = true) l) (ch_changed ch) /\
    ch_removed ch = cs_destroyed delta ++ omap (left_collection delta own) l ++
      filter (fun id => bs_contains id (cs_updated delta) = true) nf /\
    Forall (fun o => is_Some (object_id o) /\ is_ok (holds o own) = true) l.
Proof.
  unfold classify. intros ([c r] & Hl & [= <-])%rbind_ok. simpl.
  destruct (bs_union (cs_created delta) (cs_updated delta)) as [|x xs] eqn:Eu.
  - simplify_eq. exists [], []. rewrite !app_nil_r. split; [done|]. split; [by left|].
    split; [constructor|]. split; [done|constructor].
  - apply rbind_ok in Hl as (resp & Hg & ([c1 r1] & Hf & [= <- <-])%rbind_ok).
    destruct (get (x :: xs)) as [resp'|] eqn:Eg; simplify_eq/=.
    destruct (classify_objects _ _ _ _ _ _ _ Hf) as (cs & Hcs & -> & -> & Hall).
    exists (gr_list resp), (gr_not_found resp). split; [done|].
    split; [right; by exists resp|]. split; [done|]. split; [by rewrite app_assoc|done].
Qed.

Lemma removed_elem delta own l nf id :
  (id ∈ cs_destroyed delta ++ omap (left_collection delta own) l ++
    filter (fun id => bs_contains id (cs_updated delta) = true) nf) <->
  (id ∈ cs_destroyed delta) \/
  (id ∈ cs_updated delta) /\
    ((exists o, (o ∈ l) /\ object_id o = Some id /\ held own o = false) \/ (id ∈ nf)).
Proof.
  rewrite !elem_of_app, list_elem_of_omap, list_elem_of_filter. unfold left_collection.
  setoid_rewrite bs_contains_true. split.
  - intros [?|[(o & Ho & Hl)|[Hu Hn]]]; [by left| |right; auto].
    destruct (object_id o) as [id'|] eqn:Eid; [|done].
    destruct (held own o) eqn:Eh; [done|]. simpl in Hl.
    destruct (bs_contains id' (cs_updated delta)) eqn:Eb; simplify_eq.
    right. split; [by apply bs_contains_true|]. left. eauto.
  - intros [?|[Hu [(o & Ho & Hid & Hh)|Hn]]]; [by left|right; left|right; right; auto].
    exists o. split; [done|]. rewrite Hid, Hh. simpl.
    by rewrite (proj2 (bs_contains_true _ _) Hu).
Qed.

(** What a cache holds after it dropped the removed ids and took the changed objects. *)
Definition cache_after (cache : Id -> Prop) (ch : Changes I) (objects : list Object) (id : Id) : Prop :=
  (exists o, (o ∈ objects) /\ object_id o = Some id) \/ (cache id /\ id ∉ ch_removed ch).

Lemma classify_cache delta own now ch (cache : Id -> Prop) :
  let candidates := bs_union (cs_created delta) (cs_updated delta) in
  classify from_error get render delta own = Ok ch ->
  (forall r, get candidates = Ok r -> faithful_get own now candidates r) ->
  exists objects, Forall2 (fun o i => render o = Ok i) objects (ch_changed ch) /\
    forall id, cache_after cache ch objects id <->
      (id ∈ candidates) /\ now id = Some true \/
      cache id /\ id ∉ cs_destroyed delta /\ ((id ∈ cs_updated delta) -> now id = Some true).
Proof.
  intros candidates Hc Hget.
  destruct (classify_inv _ _ _ Hc) as (l & nf & _ & Hsrc & Hch & Hrm & _). unfold cache_after. rewrite Hrm.
  exists (filter (fun o => held own o = true) l). split; [done|]. clear Hch Hc Hrm ch.
  assert (exists r, faithful_get own now candidates r /\ gr_list r = l /\ gr_not_found r = nf)
    as (r & [Hfound Hmiss Hlist Hnf] & <- & <-).
  { destruct Hsrc as [(He & -> & ->)|(r & Hr & <- & <-)]; [|eauto].
    exists {| gr_account_id := []; gr_state := []; gr_list := []; gr_not_found := [] |}.
    split; [|done]. unfold candidates. rewrite He.
    split; simpl; intros; repeat match goal with H : _ ∈ [] |- _ => by apply elem_of_nil in H end. }
  assert (forall id, id ∈ cs_updated delta -> id ∈ candidates) as Hupd.
  { intros id Hu. apply elem_of_bs_union. by right. }
  intros id. setoid_rewrite list_elem_of_filter. rewrite removed_elem. split.
  - intros [(o & [Hh Ho] & Hid)|[Hca Hrem]].
    + destruct (Hlist o id Ho Hid) as [? Hn]. rewrite Hh in Hn. by left.
    + right. split_and!; [done|tauto|]. intros Hu. destruct (now id) as [[]|] eqn:En; [done| |]; destruct Hrem; right; (split; [done|]).
      * left. destruct (Hfound id false (Hupd _ Hu) En) as (o & Ho & Hid).
        destruct (Hlist o id Ho Hid) as [_ Hn]. exists o. naive_solver congruence.
      * right. by apply Hmiss; [apply Hupd|].
  - intros [[Hcand Hn]|(Hca&Hd&Hu)].
    + left. destruct (Hfound id true Hcand Hn) as (o & Ho & Hid).
      destruct (Hlist o id Ho Hid) as [_ Hn']. exists o. rewrite Hn in Hn'. naive_solver.
    + right. split; [done|]. intros [?|[Hin Hno]]; [done|]. specialize (Hu Hin). destruct Hno as [(o & Ho & Hid & Hh)|Hno].
      * destruct (Hlist o id Ho Hid) as [_ Hn]. naive_solver congruence.
      * destruct (Hnf id Hno). congruence.
Qed.

(** What the lists of a delta say of the stores at its two ends. *)
Lemma net_change_ends (old mid : Store Object) c u d id :
  rtc store_step old mid -> store_wf old -> net_change mid (st_state old) (st_state mid) c u d ->
  ((id ∈ c) <-> store_get old id = None /\ is_Some (store_get mid id)) /\
  ((id ∈ u) -> is_Some (store_get old id) /\ is_Some (store_get mid id)) /\
  ((id ∈ d) <-> is_Some (store_get old id) /\ store_get mid id = None).
Proof.
  intros Hsteps Hwf [Hc Hu Hd]. pose proof (store_steps_wf _ _ Hsteps Hwf) as Hwf'.
  destruct (store_steps_history old mid (st_state old) id Hsteps Hwf) as [Hold _]; [done|].
  specialize (Hc id). specialize (Hu id). specialize (Hd id).
  rewrite existed_now in Hold by done. rewrite Hold, (existed_now mid) in Hc, Hu, Hd by done.
  unfold store_contains in *. rewrite bt_contains_false, bt_contains_true in Hc, Hd. rewrite !bt_contains_true in Hu.
  unfold store_get. split_and!; [done| |done]. intros (?&?&_)%Hu. done.
Qed.

(** Whether the object with an id is filed in [own]: [None] if there is no such object. *)
Definition filed_in (own : Id) (s : Store Object) (id : Id) : option bool := held own <$> store_get s id.

(** C6: the refresh of one collection from an account-wide delta, end to end.  [old] is the store
    at the state of the last refresh and [mid] the store the delta leads to; [now] is what the
    server holds of the candidates when it answers the [/get].  The cache held the objects of the
    collection at [old], except those this client deleted since, and the objects this client
    saved since.  After the refresh it holds exactly the objects of the collection (a candidate as
    the [/get] answered it, any other object as it is at [mid]) and the objects this client saved
    since the last refresh.  The latter stay even if another client has moved them out of the
    collection or destroyed them.  What this client saved is new, so it is not in [old], and what
    it deleted is not in [mid]. *)
Theorem classify_refresh (old mid : Store Object) delta own now ch (cache : Id -> Prop) (saved deleted : list Id) :
  let candidates := bs_union (cs_created delta) (cs_updated delta) in
  store_wf old -> rtc store_step old mid ->
  net_change mid (st_state old) (st_state mid) (cs_created delta) (cs_updated delta) (cs_destroyed delta) ->
  classify from_error get render delta own = Ok ch ->
  (forall r, get candidates = Ok r -> faithful_get own now candidates r) ->
  (forall id, cache id <-> filed_in own old id = Some true /\ id ∉ deleted \/ id ∈ saved) ->
  (forall id, id ∈ saved -> store_get old id = None) ->
  (forall id, id ∈ deleted -> store_get mid id = None) ->
  exists objects, Forall2 (fun o i => render o = Ok i) objects (ch_changed ch) /\
    forall id, cache_after cache ch objects id <->
      (if bool_decide (id ∈ candidates) then now id else filed_in own mid id) = Some true \/ id ∈ saved.
Proof.
  intros candidates Hwf Hsteps Hnet Hc Hget Hcache Hsaved Hdeleted.
  destruct (classify_cache _ _ _ _ cache Hc Hget) as (objects&Hren&Hids). exists objects. split; [done|].
  intros id. rewrite Hids. clear Hids. fold candidates.
  pose proof (net_change_values _ _ _ _ _ id Hsteps Hwf Hnet) as Hsame.
  destruct (net_change_ends _ _ _ _ _ id Hsteps Hwf Hnet) as (Hcr&Hup&Hde). rewrite !elem_of_app in Hsame.
  specialize (Hcache id). specialize (Hsaved id). specialize (Hdeleted id).
  assert ((id ∈ candidates) <-> (id ∈ cs_created delta) \/ (id ∈ cs_updated delta)) as Hcand by apply elem_of_bs_union.
  assert ((id ∈ saved) -> cache id /\ (id ∉ cs_destroyed delta) /\ ((id ∈ cs_updated delta) -> now id = Some true)) as Hkept.
  { intros Hs. specialize (Hsaved Hs). rewrite Hsaved in Hup, Hde. split_and!; [tauto|by intros [[? [=]] _]%Hde|by intros [[? [=]] _]%Hup]. }
  unfold filed_in in *. case_bool_decide as Hin.
  - split; [|tauto]. intros [[_ ?]|(Hca&_&Hu)]; [by left|]. apply Hcand in Hin as [[Hnone _]%Hcr|Hin]; [|left; by apply Hu].
    right. apply Hcache in Hca as [[Hf _]|?]; [by rewrite Hnone in Hf|done].
  - split.
    + intros [[? _]|(Hca&Hd&_)]; [done|]. apply Hcache in Hca as [[Hf _]|?]; [left|by right]. rewrite Hsame; [done|tauto].
    + intros [Hf|?]; [|tauto]. right. destruct (store_get mid id) as [m|] eqn:Em; [|done].
      assert (id ∉ cs_destroyed delta) as Hd by (by intros [_ ?]%Hde). rewrite <- Hsame in Hcache by tauto.
      split_and!; [apply Hcache; left; split; [done|by intros ?%Hdeleted]|done|tauto].
Qed.

(** The answer of a server that reads one store. *)
Definition store_response (s : Store Object) (ids : list Id) : GetResponse Object :=
  {| gr_account_id := []; gr_state := store_state s; gr_list := omap (store_get s) ids;
     gr_not_found := filter (fun id => store_contains s id = false) ids |}.

Lemma store_response_faithful own (s : Store Object) ids :
  (forall id o, store_get s id = Some o -> object_id o = Some id) ->
  faithful_get own (filed_in own s) ids (store_response s ids).
Proof.
  intros Hids. split; unfold filed_in; cbn [gr_list gr_not_found store_response].
  - intros id h Hid (o&Ho&_)%fmap_Some. exists o. split; [|by apply Hids]. apply list_elem_of_omap. eauto.
  - intros id Hid Hn%fmap_None. apply list_elem_of_filter. split; [by apply bt_contains_false|done].
  - intros o id (id'&Hid'&Ho)%list_elem_of_omap Hid. rewrite (Hids _ _ Ho) in Hid. injection Hid as <-. by rewrite Ho.
  - intros id [Hn%bt_contains_false Hid]%list_elem_of_filter. unfold store_get. by rewrite Hn.
Qed.
End classify_lemmas.

(** An edit is refused as out of sync exactly when its base copy parses, the user and
    another client changed the same property after it, and the policy is to fail. *)
Theorem patch_since_refuses {Object} `{!ObjectKind Object} base on_conflict (current edited : Object) :
  patch_since base on_conflict current edited = Err out_of_sync <->
  exists b, base = Ok b /\ conflicts b current edited <> [] /\ on_conflict = FailOnConflict.
Proof.
  unfold patch_since. destruct base as [b|e].
  - split.
    + destruct (conflicts b current edited) eqn:E; [done|].
      destruct on_conflict; [done|done|]. intros _. exists b. by rewrite E.
    + intros (b' & [= <-] & Hc & ->). by destruct (conflicts b current edited).
  - split; [done|]. by intros (b & ? & _).
Qed.

(** ** Change tokens *)
Lemma fnv_step_bound hash byte : (fnv_step hash byte <= u64_max)%N.
Proof.
  unfold fnv_step, wrap_u64. pose proof (N.mod_lt (N.lxor hash (N_of_ascii byte) * fnv_prime)
    (u64_max + 1) ltac:(done)). lia.
Qed.

Lemma fnv1a_bound t : (fnv1a t <= u64_max)%N.
Proof.
  unfold fnv1a. destruct t as [|c t _] using rev_ind; [by vm_compute|].
  rewrite fold_left_app. apply fnv_step_bound.
Qed.

Lemma hex_digits_length n v : length (hex_digits n v) = n.
Proof. revert v. induction n as [|n IH]; intros v; simpl; [done|]. rewrite length_app, IH. simpl. lia. Qed.

Lemma hex_digit_inj a b : (a < 16)%N -> (b < 16)%N -> hex_digit a = hex_digit b -> a = b.
Proof.
  intros Ha Hb E. apply (f_equal N_of_ascii) in E. unfold hex_digit in E.
  rewrite !N_ascii_embedding in E by (repeat case_match; lia).
  destruct (N.ltb_spec a 10), (N.ltb_spec b 10); lia.
Qed.

Lemma hex_digits_inj n a b :
  (a < 16 ^ N.of_nat n)%N -> (b < 16 ^ N.of_nat n)%N -> hex_digits n a = hex_digits n b -> a = b.
Proof.
  revert a b. induction n as [|n IH]; intros a b; simpl; [lia|].
  rewrite (Nat2N.inj_succ n), N.pow_succ_r'. intros Ha Hb [Hq Hr]%app_inj_tail.
  apply hex_digit_inj in Hr; [|by apply N.mod_lt..].
  apply IH in Hq; [|apply N.Div0.div_lt_upper_bound; lia..].
  rewrite (N.div_mod a 16), (N.div_mod b 16) by done. by rewrite Hq, Hr.
Qed.

(** The change token is always 16 characters, and two objects have the same token
    exactly when their 64-bit hashes are the same. *)
Theorem revision_of_token (a b : text) :
  length (revision_of a) = 16 /\ (revision_of a = revision_of b <-> fnv1a a = fnv1a b).
Proof.
  split; [apply hex_digits_length|]. split; [|unfold revision_of; by intros ->].
  pose proof (fnv1a_bound a). pose proof (fnv1a_bound b). unfold u64_max in *.
  intros E%hex_digits_inj; [done|..]; change (16 ^ N.of_nat 16)%N with 18446744073709551616%N; lia.
Qed.

(** ** An instance: cards that only have an id and their address books *)
Definition Card : Type := text * btmap Id bool.

Definition card_kind : ObjectKind Card := {|
  TYPE := lit "ContactCard"; NOUN := lit "card"; A_NOUN := lit "a card";
  MEMBERSHIP := lit "addressBookIds";
  object_id c := Some c.1; membership c := Some c.2;
  diff _ _ := []; diff_since_except _ _ _ _ := []; conflicts _ _ _ := [] |}.

(** Three cards in the book [B].  Then this client saves [E4] into [B], and other clients create
    [E5] in [B], move [E4] and [E1] out and destroy [E2]. *)
Definition card_in (id book : string) : Card := (lit id, [(lit book, true)]).

Definition cards_old : Store Card := seeded (lit "E") [card_in "E1" "B"; card_in "E2" "B"; card_in "E3" "B"].
Definition card_create (s : Store Card) (c : Card) : Store Card :=
  (store_transaction (store_alloc_id s).2 (fun t => (tt, transaction_create t (store_alloc_id s).1 c))).2.
Definition card_update (s : Store Card) (c : Card) : Store Card :=
  (store_transaction s (fun t => transaction_update t c.1 c)).2.
Definition cards_saved : Store Card := card_create cards_old (card_in "E4" "B").
Definition cards_created : Store Card := card_create cards_saved (card_in "E5" "B").
Definition cards_moved : Store Card := card_update (card_update cards_created (card_in "E4" "C")) (card_in "E1" "C").
Definition cards_mid : Store Card := (store_transaction cards_moved (fun t => transaction_destroy t (lit "E2"))).2.

Lemma cards_old_wf : store_wf cards_old.
Proof. apply seeded_wf. vm_compute. reflexivity. Qed.

(** Every card is under its own id. *)
Lemma cards_keyed id c : store_get cards_mid id = Some c -> object_id (ObjectKind := card_kind) c = Some id.
Proof.
  assert (Forall (fun e => object_id (ObjectKind := card_kind) e.2 = Some e.1) (st_objects cards_mid)) as Hall by (vm_compute; by repeat constructor).
  intros Hg%bt_get_Some_elem. rewrite Forall_forall in Hall. apply (Hall _ Hg).
Qed.

(** The book at the last refresh, and the card that was saved since. *)
Lemma cards_cached id :
  id ∈ lit <$> ["E1"; "E2"; "E3"; "E4"]%string <->
  filed_in (ObjectKind0 := card_kind) (lit "B") cards_old id = Some true /\ id ∉ [] \/ id ∈ [lit "E4"].
Proof.
  rewrite list_elem_of_singleton. unfold filed_in. split.
  - intros [->|[->|[->|[->|[]%elem_of_nil]%elem_of_cons]%elem_of_cons]%elem_of_cons]%elem_of_cons; [left..|by right]; (split; [by vm_compute|apply not_elem_of_nil]).
  - intros [[Hf _]| ->]; [|by_decide]. apply fmap_Some in Hf as (c&Hg%bt_get_Some_elem&_).
    assert (Forall (fun e => e.1 ∈ lit <$> ["E1"; "E2"; "E3"; "E4"]%string) (st_objects cards_old)) as Hall by by_decide.
    rewrite Forall_forall in Hall. apply (Hall _ Hg).
Qed.

Lemma card_create_step s c :
  store_wf s -> (st_next_id s < u64_max)%N -> (st_state s < u64_max)%N -> rtc store_step s (card_create s c).
Proof. apply store_create_step. Qed.

Lemma card_create_wf s c :
  store_wf s -> (st_next_id s < u64_max)%N -> (st_state s < u64_max)%N -> store_wf (card_create s c).
Proof. intros Hwf ??. eapply store_steps_wf; [by apply card_create_step|done]. Qed.

Lemma cards_steps : rtc store_step cards_old cards_mid.
Proof.
  trans cards_saved; [apply card_create_step; [apply cards_old_wf|by vm_compute..]|].
  trans cards_created.
  { apply card_create_step; [apply card_create_wf; [apply cards_old_wf|by vm_compute..]|by vm_compute..]. }
  trans (card_update cards_created (card_in "E4" "C")); [apply rtc_once, store_update_step; by vm_compute|].
  trans cards_moved; [apply rtc_once, store_update_step; by vm_compute|].
  apply rtc_once, store_destroy_step. by vm_compute.
Qed.

Definition cards_delta : ChangeSet :=
  {| cs_new_state := store_state cards_mid; cs_created := [lit "E4"; lit "E5"]; cs_updated := [lit "E1"]; cs_destroyed := [lit "E2"] |}.

Lemma cards_net :
  net_change cards_mid (st_state cards_old) (st_state cards_mid) (cs_created cards_delta) (cs_updated cards_delta) (cs_destroyed cards_delta).
Proof. apply window_net; [eapply store_steps_wf; [apply cards_steps|apply cards_old_wf]|by right|by vm_compute]. Qed.

Definition cards_get (ids : list Id) : result (GetResponse Card) Error := Ok (store_response cards_mid ids).

Definition cards_changes : Changes Card :=
  {| ch_new_state := store_state cards_mid; ch_changed := [card_in "E5" "B"]; ch_removed := [lit "E2"; lit "E1"] |}.

(** The refreshed cache has [E3] and [E5], which are in the book, and still [E4]. *)
Lemma classify_refresh_witness :
  classify (ObjectKind0 := card_kind) id cards_get (Ok (E := Error)) cards_delta (lit "B") = Ok cards_changes /\
  exists objects, Forall2 (fun o i => Ok (E := Error) o = Ok i) objects (ch_changed cards_changes) /\
    cache_after (ObjectKind0 := card_kind) (fun id => id ∈ lit <$> ["E1"; "E2"; "E3"; "E4"]%string) cards_changes objects (lit "E3") /\
    cache_after (ObjectKind0 := card_kind) (fun id => id ∈ lit <$> ["E1"; "E2"; "E3"; "E4"]%string) cards_changes objects (lit "E4") /\
    ~ cache_after (ObjectKind0 := card_kind) (fun id => id ∈ lit <$> ["E1"; "E2"; "E3"; "E4"]%string) cards_changes objects (lit "E1").
Proof.
  split; [vm_compute; reflexivity|].
  destruct (classify_refresh (ObjectKind0 := card_kind) id cards_get (Ok (E := Error)) cards_old cards_mid cards_delta (lit "B")
    (filed_in (ObjectKind0 := card_kind) (lit "B") cards_mid) cards_changes (fun id => id ∈ lit <$> ["E1"; "E2"; "E3"; "E4"]%string) [lit "E4"] [])
    as (objects & Hf & Hid).
  - apply cards_old_wf.
  - apply cards_steps.
  - apply cards_net.
  - vm_compute. reflexivity.
  - intros r [= <-]. apply store_response_faithful. apply cards_keyed.
  - apply cards_cached.
  - intros id ->%list_elem_of_singleton. vm_compute. reflexivity.
  - intros id Hin%elem_of_nil. destruct Hin.
  - exists objects. split; [exact Hf|]. rewrite !Hid. split; [left; vm_compute; reflexivity|].
    split; [right; left|]. intros [Hn|Hn%list_elem_of_singleton]; vm_compute in Hn; discriminate Hn.
Defined.
