(* ===== verification/EditBase.v ===== *)
(** The base of an edit (jmap-object-sync/src/edit_base.rs).

    Each object given to EDS carries a stamp that names the server version it was made
    from; the extra of a cached object keeps the last [KEPT] versions.  The theorems
    say that unstamping undoes stamping, that the extra is the most-recent-first list
    of the last distinct versions, and that the base found for a stamp is a kept
    version with that revision, or the edit is refused. *)

From Stdlib Require Import Ascii String.
From stdpp Require Import prelude strings.
From S2P Require Import Prelude Strings ObjectSync.
Open Scope rust_scope.

(** ** Stamps *)
Definition STAMP : text := lit "X-JMAP-BASE".
Definition KEPT : nat := 4.

Definition is_line_end (c : ascii) : bool := bool_decide (c = CR) || bool_decide (c = LF).

Definition stamp_line (kind revision line : text) : text :=
  let content := trim_end_matches is_line_end line in
  (if eq_ignore_ascii_case content (lit "END:" ++ kind)
   then STAMP ++ lit ":" ++ revision ++ drop (length content) line ++
        (if (length line =? length content)%nat then [CR; LF] else [])
   else []) ++ line.

Definition stamp (t kind revision : text) : text :=
  mjoin (stamp_line kind revision <$> split_inclusive LF t).

Definition is_stamp (line : text) : bool :=
  eq_ignore_ascii_case (take (length STAMP) line) STAMP &&
  match line !! length STAMP with
  | Some c => bool_decide (c = ":"%char) || bool_decide (c = ";"%char)
  | None => false
  end.

Definition unstamp_line (acc : text * option text * bool) (line : text)
  : text * option text * bool :=
  let '(kept, found, in_stamp) := acc in
  if in_stamp && match line with c :: _ => bool_decide (c = " "%char) || bool_decide (c = TAB) | [] => false end
  then (kept, found, in_stamp)
  else if is_stamp line
  then (kept,
        match found with
        | Some _ => found
        | None => (fun '(_, value) => trim value) <$> split_once ":" line
        end, true)
  else (kept ++ line, found, false).

Definition unstamp (t : text) : text * option text :=
  let '(kept, found, _) := fold_left unstamp_line (split_inclusive LF t) ([], None, false) in
  (kept, found).

(** ** Versions *)
Section versions.
(** [serde_json::Value::from(versions).to_string()] and [serde_json::from_str]. *)
Variable to_json : list text -> text.
Variable from_json : text -> option (list text).

Definition versions_of (extra : text) : list text :=
  match extra with
  | [] => []
  | c :: _ => if decide (c = "["%char) then default [] (from_json extra) else [extra]
  end.

(** The loop over the older versions. *)
Fixpoint keep_versions (versions older : list text) : list text :=
  match older with
  | [] => versions
  | version :: older =>
      if (length versions =? KEPT)%nat then versions
      else if bool_decide (version ∈ versions) then keep_versions versions older
      else keep_versions (versions ++ [version]) older
  end.

Definition extra (current : text) (previous : option text) : text :=
  let versions := keep_versions [current] (default [] (versions_of <$> previous)) in
  match versions with
  | [version] => version
  | _ => to_json versions
  end.

Definition base_for (extra stamp : option text) : result (option text) OutOfSync :=
  match extra with
  | None => Ok None
  | Some extra =>
      let versions := versions_of extra in
      match stamp with
      | None => Ok (head versions)
      | Some stamp =>
          ok_or (Some <$> head (filter (fun version => revision_of version = stamp) versions)) out_of_sync
      end
  end.
End versions.

(** ** Stamping and unstamping *)
Lemma is_line_end_true c : is_line_end c = true <-> c = CR \/ c = LF.
Proof. unfold is_line_end. by rewrite orb_true_iff, !bool_decide_eq_true. Qed.

Lemma trim_end_snoc a : trim_end_matches is_line_end (a ++ [LF]) = trim_end_matches is_line_end a.
Proof. unfold trim_end_matches. by rewrite reverse_app. Qed.

Lemma stamp_nil kind revision : stamp [] kind revision = [].
Proof. done. Qed.

Lemma stamp_cons a t kind revision :
  LF ∉ a ->
  stamp (a ++ LF :: t) kind revision = stamp_line kind revision (a ++ [LF]) ++ stamp t kind revision.
Proof. intros Ha. unfold stamp. by rewrite split_inclusive_app. Qed.

Lemma stamp_last t kind revision :
  LF ∉ t -> t <> [] -> stamp t kind revision = stamp_line kind revision t.
Proof. intros Ht Hn. unfold stamp. rewrite split_inclusive_none by done. simpl. apply app_nil_r. Qed.

(** The stamp put before the end of a component: one line of its own. *)
Lemma stamp_line_cases kind revision line :
  stamp_line kind revision line = line \/
  exists ending, eq_ignore_ascii_case (trim_end_matches is_line_end line) (lit "END:" ++ kind) = true /\
    stamp_line kind revision line = STAMP ++ lit ":" ++ revision ++ ending ++ line /\
    Forall (fun c => is_line_end c = true) ending /\
    (exists c, trim_end_matches is_line_end line ++ c = line /\
      ending = if bool_decide (c = []) then [CR; LF] else c).
Proof.
  unfold stamp_line. destruct (eq_ignore_ascii_case _ _) eqn:E; [right|by left].
  destruct (trim_end_matches_spec is_line_end line) as (suf & Hs & Hf & _).
  set (content := trim_end_matches is_line_end line) in *.
  exists (if bool_decide (suf = []) then [CR; LF] else suf).
  assert (drop (length content) line = suf) as Hd by (rewrite Hs at 1; by rewrite drop_app_length).
  rewrite Hd. assert ((length line =? length content)%nat = bool_decide (suf = [])) as ->.
  { rewrite Hs, length_app. case_bool_decide as Hn.
    - rewrite Hn. apply Nat.eqb_eq. simpl. lia.
    - apply Nat.eqb_neq. destruct suf; [done|]. simpl. lia. }
  split; [done|]. split; [|split].
  - rewrite <- !app_assoc. case_bool_decide as Hn; [by rewrite Hn|]. by rewrite app_nil_l.
  - case_bool_decide; [by repeat constructor|done].
  - exists suf. done.
Qed.

(** A revision that a stamp line can carry: one line, nothing for [trim] to take. *)
Record plain_revision (revision : text) : Prop := {
  pr_line : LF ∉ revision;
  pr_trim : forall ending, Forall (fun c => is_line_end c = true) ending ->
    trim (revision ++ ending) = revision;
}.

Lemma is_stamp_stamp rest : is_stamp (STAMP ++ lit ":" ++ rest) = true.
Proof.
  unfold is_stamp. rewrite take_app_length. rewrite lookup_app_r by done.
  rewrite Nat.sub_diag. done.
Qed.

Lemma unstamp_plain acc line :
  is_stamp line = false -> acc.2 = false \/ (forall c, head line = Some c -> c <> " "%char /\ c <> TAB) ->
  unstamp_line acc line = (acc.1.1 ++ line, acc.1.2, false).
Proof.
  destruct acc as [[kept found] in_stamp]. simpl. intros Hs Hc. rewrite Hs.
  destruct in_stamp; [|done]. destruct Hc as [?|Hc]; [done|]. destruct line as [|c line]; [done|].
  destruct (Hc c) as [H1 H2]; [done|]. simpl. by rewrite !bool_decide_eq_false_2.
Qed.

Lemma unstamp_stamp_line kept found revision ending :
  plain_revision revision -> Forall (fun c => is_line_end c = true) ending ->
  unstamp_line (kept, found, false) (STAMP ++ lit ":" ++ revision ++ ending) =
  (kept, Some (default revision found), true).
Proof.
  intros [_ Ht] He. unfold unstamp_line. rewrite is_stamp_stamp. cbn [andb]. f_equal. f_equal.
  destruct found; [done|].
  rewrite (proj2 (split_once_Some ":" _ STAMP (revision ++ ending))).
  - simpl. by rewrite Ht.
  - split; [done|]. by_decide.
Qed.

Lemma end_line_head kind line c :
  eq_ignore_ascii_case (trim_end_matches is_line_end line) (lit "END:" ++ kind) = true ->
  head line = Some c -> c <> " "%char /\ c <> TAB.
Proof.
  intros E Hc. destruct (trim_end_matches_spec is_line_end line) as (suf & Hs & _).
  rewrite Hs in Hc. unfold eq_ignore_ascii_case in E. apply bool_decide_eq_true in E.
  destruct (trim_end_matches is_line_end line) as [|c' content]; [done|].
  simpl in Hc. injection Hc as ->. simpl in E. injection E as E _.
  split; intros ->; by vm_compute in E.
Qed.

Definition is_end (kind line : text) : bool :=
  eq_ignore_ascii_case (trim_end_matches is_line_end line) (lit "END:" ++ kind).

Lemma stamp_line_end kind revision line :
  is_end kind line = false -> stamp_line kind revision line = line.
Proof. unfold is_end, stamp_line. by intros ->. Qed.

(** The line end that a stamp takes over is one line end. *)
Lemma stamp_line_at_end kind revision line :
  is_end kind line = true ->
  (exists a, line = a ++ [LF] /\ LF ∉ a) \/ ((LF ∉ line) /\ last line <> Some CR) ->
  exists crs, (LF ∉ crs) /\ Forall (fun c => is_line_end c = true) (crs ++ [LF]) /\
    stamp_line kind revision line = STAMP ++ lit ":" ++ revision ++ crs ++ LF :: line.
Proof.
  unfold is_end. intros He Hline.
  destruct (stamp_line_cases kind revision line) as [Hs|(ending & _ & Hs & Hf & (c & Hc & Hend))].
  { exfalso. unfold stamp_line in Hs. rewrite He in Hs. apply (f_equal length) in Hs.
    rewrite !length_app in Hs. simpl in Hs. lia. }
  rewrite Hs. case_bool_decide as Hn.
  { exists [CR]. subst ending. split; [by_decide|]. split; [done|]. done. }
  subst ending. destruct Hline as [(a & -> & Ha)|[Hl Hcr]].
  - destruct c as [|x c _] using rev_ind; [done|].
    rewrite app_assoc in Hc. apply app_inj_tail in Hc as [Hc ->].
    exists c. split; [|split; [done|by rewrite <- !app_assoc]].
    intros Hin. apply Ha. rewrite <- Hc. apply elem_of_app. by right.
  - exfalso. destruct c as [|x c _] using rev_ind; [done|]. apply Forall_app in Hf as [_ Hx].
    apply Forall_cons in Hx as [Hx%is_line_end_true _]. destruct Hx as [->| ->].
    + apply Hcr. by rewrite <- Hc, app_assoc, last_snoc.
    + apply Hl. rewrite <- Hc, !elem_of_app. right. right. by left.
Qed.

Lemma unstamp_one kind revision line rest kept found :
  plain_revision revision -> is_stamp line = false ->
  (exists a, line = a ++ [LF] /\ LF ∉ a) \/ (rest = [] /\ line <> [] /\ (LF ∉ line) /\ last line <> Some CR) ->
  fold_left unstamp_line (split_inclusive LF (stamp_line kind revision line ++ rest)) (kept, found, false)
  = fold_left unstamp_line (split_inclusive LF rest)
      (kept ++ line, if is_end kind line then Some (default revision found) else found, false).
Proof.
  intros Hrev Hns Hline.
  assert (split_inclusive LF (line ++ rest) = line :: split_inclusive LF rest) as Hsplit.
  { destruct Hline as [(a & -> & Ha)|(-> & Hne & Hl & _)].
    - rewrite <- app_assoc. simpl. by apply split_inclusive_app.
    - rewrite app_nil_r. by apply split_inclusive_none. }
  destruct (is_end kind line) eqn:He.
  - destruct (stamp_line_at_end kind revision line He) as (crs & Hcrs & Hf & ->); [naive_solver|].
    replace ((STAMP ++ lit ":" ++ revision ++ crs ++ LF :: line) ++ rest)
      with ((STAMP ++ lit ":" ++ revision ++ crs) ++ LF :: (line ++ rest))
      by (by rewrite <- !app_assoc).
    rewrite split_inclusive_app.
    2: { rewrite !not_elem_of_app. split; [by_decide|]. split; [by_decide|].
         split; [apply Hrev|done]. }
    rewrite Hsplit, <- !app_assoc. cbn [fold_left]. rewrite unstamp_stamp_line by done.
    rewrite unstamp_plain; [done|done|]. right. intros c. by apply end_line_head with (kind := kind).
  - rewrite stamp_line_end, Hsplit by done. cbn [fold_left].
    rewrite unstamp_plain; [done|done|by left].
Qed.

Definition has_end (kind t : text) : bool := existsb (is_end kind) (split_inclusive LF t).

Lemma unstamp_fold kind revision t kept found :
  plain_revision revision -> Forall (fun line => is_stamp line = false) (split_inclusive LF t) ->
  last t <> Some CR ->
  fold_left unstamp_line (split_inclusive LF (stamp t kind revision)) (kept, found, false) =
  (kept ++ t, if has_end kind t then Some (default revision found) else found, false).
Proof.
  intros Hrev. revert kept found. induction t as [|t Hne Hlf|a t Ha IH] using (lines_ind LF);
    intros kept found Hs Hcr.
  - by rewrite app_nil_r.
  - unfold has_end. rewrite split_inclusive_none in Hs by done.
    apply Forall_cons in Hs as [Hs _]. rewrite stamp_last by done.
    rewrite <- (app_nil_r (stamp_line _ _ _)), unstamp_one by (naive_solver eauto).
    rewrite (split_inclusive_none LF t) by done. simpl. by destruct (is_end kind t).
  - unfold has_end. rewrite (split_inclusive_app _ a t) by done.
    rewrite split_inclusive_app in Hs by done.
    apply Forall_cons in Hs as [Hs Hrest]. rewrite stamp_cons by done.
    rewrite unstamp_one by (naive_solver eauto). rewrite IH; [|done|].
    + rewrite <- !app_assoc. cbn [existsb]. fold (has_end kind t).
      by destruct (is_end kind (a ++ [LF])), (has_end kind t).
    + intros Hl. apply Hcr. rewrite last_app, last_cons, Hl. done.
Qed.

Lemma hex_digit_solid n : (n < 16)%N -> solid (hex_digit n) = true /\ hex_digit n <> LF.
Proof.
  intros Hn. assert (n ∈ N.of_nat <$> seq 0 16) as Hin.
  { apply list_elem_of_fmap. exists (N.to_nat n). split; [lia|]. apply elem_of_seq. lia. }
  revert Hin. simpl. rewrite !elem_of_cons, elem_of_nil.
  intros Hin. repeat destruct Hin as [->|Hin]; try done; by_decide.
Qed.

Lemma hex_digits_solid n v : Forall (fun c => solid c = true /\ c <> LF) (hex_digits n v).
Proof.
  revert v. induction n as [|n IH]; intros v; [constructor|]. simpl. apply Forall_app.
  split; [apply IH|]. repeat constructor; apply hex_digit_solid, N.mod_lt; done.
Qed.

Lemma strip_line_end t c : is_line_end c = true -> strip_space_end (t ++ [c]) = Some t.
Proof.
  intros [-> | ->]%is_line_end_true; unfold strip_space_end, white_spaces;
    rewrite !fmap_cons, !first_Some_cons; unfold octets;
    cbn [fmap list_fmap]; rewrite !strip_suffix_one; done.
Qed.

Lemma trim_end_line_ends t ending n :
  strip_space_end t = None -> Forall (fun c => is_line_end c = true) ending -> length ending <= n ->
  strip_all strip_space_end n (t ++ ending) = t.
Proof.
  intros Ht. revert n. induction ending as [|c ending IH] using rev_ind; intros n Hf Hn.
  { rewrite app_nil_r. by apply strip_all_id. }
  apply Forall_app in Hf as [Hf [Hc _]%Forall_cons]. rewrite length_app in Hn. simpl in Hn.
  destruct n as [|n]; [lia|]. cbn [strip_all]. rewrite app_assoc, strip_line_end by done.
  apply IH; [done|lia].
Qed.

Lemma revision_plain v : plain_revision (revision_of v).
Proof.
  pose proof (hex_digits_solid 16 (fnv1a v)) as Hsolid. fold (revision_of v) in Hsolid.
  pose proof (hex_digits_length 16 (fnv1a v)) as Hlen. fold (revision_of v) in Hlen.
  rewrite Forall_forall in Hsolid. split; [intros Hin; by destruct (Hsolid _ Hin)|].
  intros ending He. unfold trim, trim_start. rewrite strip_all_id.
  - unfold trim_end. apply trim_end_line_ends; [|done|rewrite length_app; lia].
    destruct (revision_of v) as [|c r _] using rev_ind; [done|].
    apply solid_end, Hsolid, elem_of_app. right. by left.
  - destruct (revision_of v) as [|c r]; [done|]. simpl. apply solid_start, Hsolid. by left.
Qed.

(** ** Claims *)

(** Unstamping undoes stamping.  From a text with no stamp of its own (and no lone
    carriage return at its end), stamped with a server version's revision, [unstamp]
    gives back the text, and that revision if the text has a component to stamp. *)
Theorem unstamp_stamp (t kind version : text) :
  Forall (fun line => is_stamp line = false) (split_inclusive LF t) -> last t <> Some CR ->
  unstamp (stamp t kind (revision_of version)) =
  (t, if has_end kind t then Some (revision_of version) else None).
Proof.
  intros Hs Hcr. unfold unstamp.
  by rewrite (unstamp_fold kind _ t [] None (revision_plain version) Hs Hcr).
Qed.

Definition example_card : text :=
  lit "BEGIN:VCARD" ++ [CR; LF] ++ lit "FN:A" ++ [CR; LF] ++ lit "END:VCARD".

Lemma unstamp_stamp_witness :
  unstamp (stamp example_card (lit "VCARD") (revision_of (lit "v1"))) =
  (example_card, Some (revision_of (lit "v1"))).
Proof.
  apply (unstamp_stamp example_card (lit "VCARD") (lit "v1")); [|vm_compute; discriminate].
  by repeat constructor.
Defined.

(** ** The kept versions *)

(** Each element at its first place. *)
Fixpoint firsts (l : list text) : list text :=
  match l with
  | [] => []
  | x :: l => x :: filter (fun y => y <> x) (firsts l)
  end.

(** The most recent distinct versions of a history, the last one first. *)
Definition recent (history : list text) : list text := take KEPT (firsts (reverse history)).

(** A rendered object: not empty, and not the start of a JSON array. *)
Definition rendered (v : text) : Prop := exists c rest, v = c :: rest /\ c <> "["%char.

Lemma firsts_nodup l : NoDup (firsts l).
Proof.
  induction l as [|x l IH]; simpl; [constructor|]. apply NoDup_cons. split.
  - intros [? _]%list_elem_of_filter. done.
  - by apply NoDup_filter.
Qed.

Lemma firsts_elem x l : x ∈ firsts l <-> x ∈ l.
Proof.
  induction l as [|y l IH]; simpl; [done|]. rewrite !elem_of_cons, list_elem_of_filter, IH.
  destruct (decide (x = y)); naive_solver.
Qed.

Lemma keep_versions_spec versions older :
  NoDup older -> length versions <= KEPT ->
  keep_versions versions older = take KEPT (versions ++ filter (fun v => v ∉ versions) older).
Proof.
  revert versions. induction older as [|v older IH]; intros versions; simpl.
  { intros _ Hl. rewrite app_nil_r, take_ge by done. done. }
  intros [Hv Hd]%NoDup_cons Hl. rewrite filter_cons.
  destruct (Nat.eqb_spec (length versions) KEPT) as [He|He].
  { rewrite <- He. by rewrite take_app_length. }
  case_bool_decide as Hin.
  - rewrite decide_False by (intros Hn; by apply Hn). by apply IH.
  - rewrite decide_True by done. rewrite IH; [|done|rewrite length_app; simpl; lia].
    rewrite <- app_assoc. f_equal. f_equal. simpl. f_equal.
    apply filter_ext_in. intros w Hw. rewrite not_elem_of_app, not_elem_of_cons.
    split; [by intros [? _]|]. intros Hnv. split; [done|]. split; [|apply not_elem_of_nil].
    intros ->. done.
Qed.

Lemma take_filter_ne n x (l : list text) :
  NoDup l -> take n (filter (fun y => y <> x) (take (S n) l)) = take n (filter (fun y => y <> x) l).
Proof.
  revert n. induction l as [|y l IH]; intros n; [done|]. intros [Hy Hd]%NoDup_cons.
  rewrite firstn_cons, !filter_cons. destruct (decide (y <> x)) as [Hne|He].
  - destruct n as [|n]; [done|]. rewrite !firstn_cons. f_equal. by apply IH.
  - apply dec_stable in He. subst y. rewrite !filter_all; [by rewrite take_take, Nat.min_id|..].
    + intros z Hz ->. done.
    + intros z Hz ->. apply Hy. rewrite <- (take_drop n l). apply elem_of_app. by left.
Qed.

Section versions_lemmas.
Variable to_json : list text -> text.
Variable from_json : text -> option (list text).
(** [serde_json] reads back an array of strings that it wrote, and writes it as one. *)
Hypothesis json_roundtrip : forall l, from_json (to_json l) = Some l.
Hypothesis json_array : forall l, exists rest, to_json l = "["%char :: rest.

Definition extra_after (history : list text) : option text :=
  fold_left (fun previous v => Some (extra to_json from_json v previous)) history None.

Lemma versions_of_extra v previous :
  rendered v -> NoDup (default [] (versions_of from_json <$> previous)) ->
  versions_of from_json (extra to_json from_json v previous) =
  take KEPT (v :: filter (fun w => w <> v) (default [] (versions_of from_json <$> previous))).
Proof.
  intros (c & rest & -> & Hc) Hd. unfold extra.
  rewrite keep_versions_spec by (done || simpl; unfold KEPT; lia). simpl.
  rewrite (list_filter_iff _ (fun w => w <> c :: rest))
    by (intros w; by rewrite not_elem_of_cons, elem_of_nil; naive_solver).
  destruct (take 3 (filter _ _)) as [|w ws] eqn:Et.
  - simpl. by rewrite decide_False.
  - destruct (json_array ((c :: rest) :: w :: ws)) as [r Hr]. rewrite Hr. simpl.
    by rewrite <- Hr, json_roundtrip.
Qed.

Lemma extra_after_versions history :
  Forall rendered history ->
  default [] (versions_of from_json <$> extra_after history) = recent history.
Proof.
  unfold extra_after, recent. induction history as [|v history IH] using rev_ind; [done|].
  intros [Hh [Hv _]%Forall_cons]%Forall_app. specialize (IH Hh). rewrite fold_left_app. simpl.
  rewrite versions_of_extra; [|done|].
  - rewrite IH, reverse_snoc. cbn [firsts]. unfold KEPT. rewrite !firstn_cons. f_equal.
    apply take_filter_ne, firsts_nodup.
  - rewrite IH. eapply sublist_NoDup; [apply firsts_nodup|apply sublist_take].
Qed.

(** After any history of refreshes the extra keeps exactly the last [KEPT] distinct
    server versions, the most recent first. *)
Theorem extra_keeps_recent (history : list text) (v : text) :
  Forall rendered (history ++ [v]) ->
  exists e, extra_after (history ++ [v]) = Some e /\
    versions_of from_json e = recent (history ++ [v]).
Proof.
  intros Hr. pose proof (extra_after_versions _ Hr) as Hv. unfold extra_after in *.
  rewrite fold_left_app in *. eexists. split; [reflexivity|]. exact Hv.
Qed.

(** The base of a stamped edit.  A stamp that names a kept version gives a kept
    version with that revision; a stamp that names none is refused as out of sync. *)
Theorem base_for_stamp (history : list text) (v : text) (stamp : text) :
  Forall rendered (history ++ [v]) ->
  match base_for from_json (extra_after (history ++ [v])) (Some stamp) with
  | Ok base => exists w, base = Some w /\ (w ∈ recent (history ++ [v])) /\ revision_of w = stamp
  | Err _ => Forall (fun w => revision_of w <> stamp) (recent (history ++ [v]))
  end.
Proof.
  intros Hr. pose proof (extra_after_versions _ Hr) as Hv. unfold extra_after in *.
  rewrite fold_left_app in *. simpl in *. rewrite Hv.
  destruct (filter _ _) as [|w ws] eqn:Ef; simpl.
  - apply Forall_forall. intros w Hw Hs.
    assert (w ∈ @nil text) as ?%elem_of_nil; [|done].
    rewrite <- Ef. by apply list_elem_of_filter.
  - exists w. split; [done|]. assert (w ∈ w :: ws) as Hin by left.
    rewrite <- Ef in Hin. apply list_elem_of_filter in Hin. naive_solver.
Qed.
End versions_lemmas.

(** A codec of the kind the hypotheses ask for: an [x] before every character, and a
    line feed after every version. *)
Definition example_to_json (l : list text) : text :=
  "["%char :: mjoin ((fun v => mjoin ((fun c => ["x"%char; c]) <$> v) ++ [LF]) <$> l).

Fixpoint example_pieces (acc : text) (t : text) (fuel : nat) : list text :=
  match fuel, t with
  | S fuel, "x"%char :: c :: t => example_pieces (acc ++ [c]) t fuel
  | S fuel, _ :: t => acc :: example_pieces [] t fuel
  | _, _ => []
  end.

Definition example_from_json (t : text) : option (list text) :=
  match t with
  | _ :: t => Some (example_pieces [] t (length t))
  | [] => None
  end.

Lemma example_pieces_text v acc t fuel :
  length v < fuel ->
  example_pieces acc (mjoin ((fun c => ["x"%char; c]) <$> v) ++ LF :: t) fuel =
  (acc ++ v) :: example_pieces [] t (fuel - length v - 1).
Proof.
  revert acc fuel. induction v as [|c v IH]; intros acc fuel Hf; destruct fuel as [|fuel]; try (simpl in Hf; lia).
  - simpl. by rewrite app_nil_r, Nat.sub_0_r.
  - rewrite fmap_cons, mjoin_cons. simpl in *. rewrite IH by lia. by rewrite <- app_assoc.
Qed.

Lemma example_pieces_list l fuel :
  length (mjoin ((fun v => mjoin ((fun c => ["x"%char; c]) <$> v) ++ [LF]) <$> l)) <= fuel ->
  example_pieces [] (mjoin ((fun v => mjoin ((fun c => ["x"%char; c]) <$> v) ++ [LF]) <$> l)) fuel = l.
Proof.
  assert (forall v : text, length v <= length (mjoin ((fun c => ["x"%char; c]) <$> v))) as Hlen.
  { induction v as [|c v IH]; [done|]. rewrite fmap_cons, mjoin_cons. simpl. lia. }
  revert fuel. induction l as [|v l IH]; intros fuel; [by destruct fuel|].
  rewrite fmap_cons, mjoin_cons, length_app, length_app. simpl. intros Hf.
  rewrite <- app_assoc. simpl. specialize (Hlen v). rewrite example_pieces_text by lia.
  f_equal. apply IH. lia.
Qed.

Lemma example_json_roundtrip l : example_from_json (example_to_json l) = Some l.
Proof. unfold example_from_json, example_to_json. f_equal. by apply example_pieces_list. Qed.

Lemma example_json_array l : exists rest, example_to_json l = "["%char :: rest.
Proof. unfold example_to_json. eauto. Qed.

Definition example_history : list text := lit <$> ["a"; "b"; "c"; "a"; "d"]%string.

Lemma example_rendered : Forall rendered (example_history ++ [lit "e"]).
Proof. repeat constructor; (eexists _, _; split; [reflexivity|discriminate]). Qed.

Lemma extra_keeps_recent_witness :
  exists e, extra_after example_to_json example_from_json (example_history ++ [lit "e"]) = Some e /\
    versions_of example_from_json e = lit <$> ["e"; "d"; "a"; "c"]%string.
Proof.
  apply (extra_keeps_recent _ _ example_json_roundtrip example_json_array example_history (lit "e")).
  apply example_rendered.
Defined.

Lemma base_for_stamp_witness :
  base_for example_from_json
    (extra_after example_to_json example_from_json (example_history ++ [lit "e"]))
    (Some (revision_of (lit "a"))) = Ok (Some (lit "a")) /\
  exists w, Some (lit "a") = Some w /\ (w ∈ recent (example_history ++ [lit "e"])) /\
    revision_of w = revision_of (lit "a").
Proof.
  split; [vm_compute; reflexivity|].
  pose proof (base_for_stamp _ _ example_json_roundtrip example_json_array example_history (lit "e")
    (revision_of (lit "a")) example_rendered) as Hb.
  replace (base_for _ _ _) with (Ok (E := OutOfSync) (Some (lit "a"))) in Hb
    by (vm_compute; reflexivity).
  exact Hb.
Defined.
