(* ===== verification/Date.v ===== *)
(** Dates: the calendar arithmetic of jmap-proto/src/date.rs, the mail client's date
    texts (jmap-mail-sync/src/date.rs), and the mock server's own copy
    (jmap-mock/src/time.rs).

    The theorems say that the two conversions between a day count and a civil date are
    inverse to each other, that the mock's versions compute the same, and that a date
    text the client writes reads back as the instant it was written for.  A panic of the
    code is a value of its own here, so that "does not panic" can be stated. *)

From Stdlib Require Import Ascii String.
From stdpp Require Import prelude strings.
From S2P Require Import Prelude Text Strings.
Open Scope rust_scope.
Local Open Scope Z_scope.

(** ** jmap-proto/src/date.rs

    [/] and [%] of Rust's [i64] truncate toward zero. *)
Definition is_leap_year (year : Z) : bool :=
  (Z.rem year 4 =? 0) && (negb (Z.rem year 100 =? 0) || (Z.rem year 400 =? 0)).

Definition days_in_month (year month : Z) : Z :=
  if bool_decide (month ∈ [1; 3; 5; 7; 8; 10; 12]) then 31
  else if bool_decide (month ∈ [4; 6; 9; 11]) then 30
  else if month =? 2 then (if is_leap_year year then 29 else 28)
  else 0.

Definition days_from_civil (year month day : Z) : Z :=
  let year := if month <=? 2 then year - 1 else year in
  let era := Z.quot (if 0 <=? year then year else year - 399) 400 in
  let year_of_era := year - era * 400 in
  let shifted_month := if 2 <? month then month - 3 else month + 9 in
  let day_of_year := Z.quot (153 * shifted_month + 2) 5 + day - 1 in
  let day_of_era :=
    year_of_era * 365 + Z.quot year_of_era 4 - Z.quot year_of_era 100 + day_of_year in
  era * 146097 + day_of_era - 719468.

Definition checked_add_i64 (a b : Z) : option Z :=
  if (i64_min <=? a + b) && (a + b <=? i64_max) then Some (a + b) else None.

Definition u32_try_from (n : Z) : option Z :=
  if (0 <=? n) && (n <=? Z.of_N u32_max) then Some n else None.

Definition civil_from_days (days : Z) : option (Z * Z * Z) :=
  let! shifted := checked_add_i64 days 719468 in
  let era := Z.quot (if 0 <=? shifted then shifted else shifted - 146096) 146097 in
  let day_of_era := shifted - era * 146097 in
  let year_of_era :=
    Z.quot (day_of_era - Z.quot day_of_era 1460 + Z.quot day_of_era 36524
            - Z.quot day_of_era 146096) 365 in
  let day_of_year :=
    day_of_era - (365 * year_of_era + Z.quot year_of_era 4 - Z.quot year_of_era 100) in
  let shifted_month := Z.quot (5 * day_of_year + 2) 153 in
  let day := day_of_year - Z.quot (153 * shifted_month + 2) 5 + 1 in
  let month := if shifted_month <? 10 then shifted_month + 3 else shifted_month - 9 in
  let year := year_of_era + era * 400 + (if month <=? 2 then 1 else 0) in
  let! month := u32_try_from month in
  let! day := u32_try_from day in
  Some (year, month, day).

(** ** jmap-mock/src/time.rs *)
Definition mock_days_from_civil (year month day : Z) : Z :=
  let year := if month <=? 2 then year - 1 else year in
  let era := year / 400 in
  let year_of_era := year - era * 400 in
  let day_of_year :=
    Z.quot (153 * (if 2 <? month then month - 3 else month + 9) + 2) 5 + day - 1 in
  let day_of_era :=
    year_of_era * 365 + Z.quot year_of_era 4 - Z.quot year_of_era 100 + day_of_year in
  era * 146097 + day_of_era - 719468.

Definition mock_civil_from_days (days : Z) : Z * Z * Z :=
  let days := days + 719468 in
  let era := days / 146097 in
  let day_of_era := days - era * 146097 in
  let year_of_era :=
    Z.quot (day_of_era - Z.quot day_of_era 1460 + Z.quot day_of_era 36524
            - Z.quot day_of_era 146096) 365 in
  let day_of_year :=
    day_of_era - (365 * year_of_era + Z.quot year_of_era 4 - Z.quot year_of_era 100) in
  let month_index := Z.quot (5 * day_of_year + 2) 153 in
  let day := day_of_year - Z.quot (153 * month_index + 2) 5 + 1 in
  let month := if month_index <? 10 then month_index + 3 else month_index - 9 in
  let year := year_of_era + era * 400 + (if month <=? 2 then 1 else 0) in
  (year, month, day).

(** ** The year inside an era

    [year_start y] is the number of days of an era before its year [y]. *)
Definition year_start (y : Z) : Z := 365 * y + Z.quot y 4 - Z.quot y 100.

Definition year_of (doe : Z) : Z :=
  Z.quot (doe - Z.quot doe 1460 + Z.quot doe 36524 - Z.quot doe 146096) 365.

Lemma leap_year_mod y :
  is_leap_year y = true <-> y mod 4 = 0 /\ (y mod 100 <> 0 \/ y mod 400 = 0).
Proof.
  unfold is_leap_year. rewrite andb_true_iff, orb_true_iff, negb_true_iff, Z.eqb_neq, !Z.eqb_eq.
  assert (forall m, 0 < m -> Z.rem y m = 0 <-> y mod m = 0) as Hm.
  { intros m Hm. split; intros E; [apply Z.rem_divide in E|apply Z.mod_divide in E];
      [apply Z.mod_divide| |apply Z.rem_divide|]; lia || done. }
  rewrite !Hm by lia. done.
Qed.

Ltac divs := Z.to_euclidean_division_equations; lia.

Lemma year_of_range doe : 0 <= doe <= 146096 -> 0 <= year_of doe <= 399.
Proof. unfold year_of. intros. divs. Qed.

Lemma century_cases doe : 0 <= doe <= 146096 ->
  Z.quot doe 36524 = 0 \/ Z.quot doe 36524 = 1 \/ Z.quot doe 36524 = 2 \/
  Z.quot doe 36524 = 3 \/ Z.quot doe 36524 = 4.
Proof. intros. divs. Qed.

Lemma year_of_start doe :
  0 <= doe <= 146096 -> 0 <= doe - year_start (year_of doe) <= 365.
Proof.
  intros Hd. unfold year_start, year_of.
  destruct (century_cases doe Hd) as [E|[E|[E|[E|E]]]]; rewrite E; split; divs.
Qed.

(** A year with a day 365 ends in the leap day of the civil year after it. *)
Lemma year_of_leap doe :
  0 <= doe <= 146096 -> doe - year_start (year_of doe) = 365 ->
  is_leap_year (year_of doe + 1) = true.
Proof.
  intros Hd. rewrite leap_year_mod. unfold year_start, year_of.
  destruct (century_cases doe Hd) as [E|[E|[E|[E|E]]]]; rewrite E; intros; divs.
Qed.

Lemma year_start_next y : 0 <= y ->
  year_start (y + 1) - year_start y = if bool_decide ((y + 1) mod 4 = 0 /\ (y + 1) mod 100 <> 0) then 366 else 365.
Proof. intros Hy. unfold year_start. case_bool_decide; divs. Qed.

Lemma year_start_mono y k : 0 <= y -> 0 <= k -> year_start y + 365 * k <= year_start (y + k).
Proof. intros Hy Hk. unfold year_start. divs. Qed.

(** The year found is the only one that the day is in. *)
Lemma year_of_unique y doy :
  0 <= y <= 399 -> 0 <= doy <= 365 -> (doy = 365 -> is_leap_year (y + 1) = true) ->
  year_of (year_start y + doy) = y.
Proof.
  intros Hy Hdoy Hl. set (doe := year_start y + doy).
  assert (0 <= doe <= 146096) as Hd.
  { subst doe. unfold year_start. destruct (decide (doy = 365)); divs. }
  pose proof (year_of_range doe Hd) as Hr. pose proof (year_of_start doe Hd) as Hs.
  pose proof (year_of_leap doe Hd) as Hl'. rewrite leap_year_mod in *.
  generalize dependent (year_of doe). intros y' Hr Hs Hl'.
  destruct (decide (y' = y)) as [|Hne]; [done|exfalso].
  destruct (decide (y' < y)).
  - pose proof (year_start_next y' ltac:(lia)) as Hn.
    pose proof (year_start_mono (y' + 1) (y - y' - 1) ltac:(lia) ltac:(lia)) as Hm.
    replace (y' + 1 + (y - y' - 1)) with y in Hm by lia. subst doe.
    case_bool_decide as Hb; [lia|]. assert (doy = 0) by lia.
    destruct Hl' as [H4 [H100|H400]]; [lia|tauto|]. assert (y' + 1 < 400) by lia. divs.
  - pose proof (year_start_next y ltac:(lia)) as Hn.
    pose proof (year_start_mono (y + 1) (y' - y - 1) ltac:(lia) ltac:(lia)) as Hm.
    replace (y + 1 + (y' - y - 1)) with y' in Hm by lia. subst doe.
    case_bool_decide as Hb; [lia|]. assert (doy = 365) as E by lia.
    destruct (Hl E) as [H4 [H100|H400]]; [tauto|]. divs.
Qed.

(** ** Months, counted from March *)
Definition month_start (mp : Z) : Z := Z.quot (153 * mp + 2) 5.

Definition month_at (doy : Z) : Z := Z.quot (5 * doy + 2) 153.

Definition civil_month (mp : Z) : Z := if mp <? 10 then mp + 3 else mp - 9.

Lemma twelve mp : 0 <= mp <= 11 -> mp ∈ [0; 1; 2; 3; 4; 5; 6; 7; 8; 9; 10; 11].
Proof. intros. rewrite !elem_of_cons. lia. Qed.

Ltac each_month H :=
  apply twelve in H; rewrite !elem_of_cons, elem_of_nil in H;
  destruct H as [->|[->|[->|[->|[->|[->|[->|[->|[->|[->|[->|[->|[]]]]]]]]]]]]].

Lemma month_at_range doy : 0 <= doy <= 365 -> 0 <= month_at doy <= 11.
Proof. intros. unfold month_at. divs. Qed.

Lemma days_in_month_march year mp :
  0 <= mp <= 10 -> days_in_month year (civil_month mp) = month_start (mp + 1) - month_start mp.
Proof. intros Hm. assert (0 <= mp <= 11) as H by lia. each_month H; try lia; reflexivity. Qed.

Lemma days_in_month_feb year :
  days_in_month year (civil_month 11) = if is_leap_year year then 29 else 28.
Proof. reflexivity. Qed.

(** The month and day of a day of the year are a valid date. *)
Lemma month_at_valid year doy :
  0 <= doy <= 365 -> (doy = 365 -> is_leap_year year = true) ->
  1 <= doy - month_start (month_at doy) + 1 <= days_in_month year (civil_month (month_at doy)).
Proof.
  intros Hd Hl. pose proof (month_at_range doy Hd) as Hm.
  destruct (decide (month_at doy = 11)) as [E|Hne].
  - rewrite E, days_in_month_feb. change (month_start 11) with 337.
    unfold month_at in E. destruct (is_leap_year year); [split; divs|].
    assert (doy <> 365) by (intros H; discriminate (Hl H)). split; divs.
  - rewrite days_in_month_march by lia. unfold month_start, month_at. split; divs.
Qed.

(** A valid date is found again from its day of the year. *)
Lemma month_at_start year mp day :
  0 <= mp <= 11 -> 1 <= day <= days_in_month year (civil_month mp) ->
  month_at (month_start mp + day - 1) = mp /\ 0 <= month_start mp + day - 1 <= 365 /\
  (month_start mp + day - 1 = 365 -> is_leap_year year = true).
Proof.
  intros Hm Hd. destruct (decide (mp = 11)) as [->|Hne].
  - rewrite days_in_month_feb in Hd. change (month_start 11) with 337. unfold month_at.
    destruct (is_leap_year year); (split; [divs|]); (split; [lia|]); [done|lia].
  - rewrite days_in_month_march in Hd by lia.
    assert (0 <= month_start mp /\ month_start (mp + 1) <= 337) by (unfold month_start; divs).
    split; [unfold month_at, month_start in *; divs|]. split; lia.
Qed.

Lemma civil_month_range mp : 0 <= mp <= 11 -> 1 <= civil_month mp <= 12.
Proof. intros. unfold civil_month. destruct (Z.ltb_spec mp 10); lia. Qed.

Lemma civil_month_inv month :
  1 <= month <= 12 ->
  0 <= (if 2 <? month then month - 3 else month + 9) <= 11 /\
  civil_month (if 2 <? month then month - 3 else month + 9) = month.
Proof.
  intros. unfold civil_month. destruct (Z.ltb_spec 2 month); split; try lia.
  - destruct (Z.ltb_spec (month - 3) 10); lia.
  - destruct (Z.ltb_spec (month + 9) 10); lia.
Qed.

(** ** Eras *)
Lemma era_floor y : Z.quot (if 0 <=? y then y else y - 399) 400 = y / 400.
Proof. destruct (Z.leb_spec 0 y); divs. Qed.

Lemma era_floor_days d : Z.quot (if 0 <=? d then d else d - 146096) 146097 = d / 146097.
Proof. destruct (Z.leb_spec 0 d); divs. Qed.

(** The two copies of the arithmetic agree. *)
Lemma days_from_civil_mock year month day :
  days_from_civil year month day = mock_days_from_civil year month day.
Proof. unfold days_from_civil, mock_days_from_civil. by rewrite era_floor. Qed.

Definition in_days (days : Z) : Prop := i64_min <= days + 719468 <= i64_max.

(** The conversion in the terms of the lemmas above. *)
Definition civil_of (era doe : Z) : Z * Z * Z :=
  let y := year_of doe in
  let doy := doe - year_start y in
  let mp := month_at doy in
  (y + era * 400 + (if civil_month mp <=? 2 then 1 else 0), civil_month mp,
   doy - month_start mp + 1).

Lemma mock_civil_of days :
  mock_civil_from_days days = civil_of ((days + 719468) / 146097) ((days + 719468) mod 146097).
Proof.
  unfold mock_civil_from_days. rewrite Z.mod_eq by lia. rewrite (Z.mul_comm 146097).
  reflexivity.
Qed.

Lemma civil_of_valid era doe :
  0 <= doe <= 146096 ->
  let '(year, month, day) := civil_of era doe in
  1 <= month <= 12 /\ 1 <= day <= days_in_month year month /\
  mock_days_from_civil year month day = era * 146097 + doe - 719468.
Proof.
  intros Hd. unfold civil_of. pose proof (year_of_start doe Hd) as Hs.
  pose proof (year_of_leap doe Hd) as Hl. pose proof (year_of_range doe Hd) as Hr.
  set (doy := doe - year_start (year_of doe)) in *. set (y := year_of doe) in *.
  pose proof (month_at_range doy Hs) as Hm. pose proof (civil_month_range _ Hm) as Hc.
  split; [done|]. split.
  - apply month_at_valid; [done|]. intros E. specialize (Hl E). rewrite leap_year_mod in *.
    assert (month_at doy = 11) as -> by (unfold month_at; divs). simpl.
    replace (y + era * 400 + 1) with (y + 1 + era * 400) by lia.
    replace (era * 400) with (era * 100 * 4) at 1 by lia.
    rewrite Z.mod_add by lia. replace (era * 400) with (era * 4 * 100) at 1 by lia.
    rewrite !Z.mod_add by lia. done.
  - unfold mock_days_from_civil. assert (month_at doy < 10 \/ 10 <= month_at doy) as Hcase by lia.
    unfold civil_month. subst doy. unfold month_start, year_start in *.
    assert ((y + era * 400) / 400 = era) as He by divs.
    destruct Hcase as [H10|H10].
    + rewrite (proj2 (Z.ltb_lt _ _)) by lia. rewrite (proj2 (Z.leb_gt _ 2)) by lia.
      rewrite (proj2 (Z.ltb_lt 2 _)) by lia. rewrite Z.add_0_r, He.
      replace (y + era * 400 - era * 400) with y by lia. rewrite Z.add_simpl_r. lia.
    + rewrite (proj2 (Z.ltb_ge _ _)) by lia. rewrite (proj2 (Z.leb_le _ 2)) by lia.
      rewrite (proj2 (Z.ltb_ge 2 _)) by lia. replace (y + era * 400 + 1 - 1) with (y + era * 400) by lia.
      rewrite He. replace (y + era * 400 - era * 400) with y by lia. rewrite Z.sub_add. lia.
Qed.

Lemma days_in_month_max year month : days_in_month year month <= 31.
Proof.
  unfold days_in_month. destruct (is_leap_year year);
    repeat case_match; lia.
Qed.

Lemma mock_civil_valid days :
  let '(year, month, day) := mock_civil_from_days days in
  1 <= month <= 12 /\ 1 <= day <= days_in_month year month /\
  mock_days_from_civil year month day = days.
Proof.
  rewrite mock_civil_of. pose proof (Z.mod_pos_bound (days + 719468) 146097 ltac:(lia)) as Hb.
  pose proof (civil_of_valid ((days + 719468) / 146097) ((days + 719468) mod 146097) ltac:(lia)) as Hv.
  destruct (civil_of _ _) as [[year month] day]. destruct Hv as (Hm & Hd & ->).
  split; [done|]. split; [done|]. rewrite Z.mod_eq by lia. lia.
Qed.

Lemma u32_pair (y m d : Z) :
  1 <= m <= 12 -> 1 <= d <= 31 ->
  (let! month := u32_try_from m in let! day := u32_try_from d in Some (y, month, day)) =
  Some (y, m, d).
Proof.
  intros Hm Hd. unfold u32_try_from, u32_max.
  rewrite (proj2 (Z.leb_le 0 m)), (proj2 (Z.leb_le m _)) by lia. simpl.
  by rewrite (proj2 (Z.leb_le 0 d)), (proj2 (Z.leb_le d _)) by lia.
Qed.

Lemma civil_from_days_mock days :
  civil_from_days days =
  if (i64_min <=? days + 719468) && (days + 719468 <=? i64_max)
  then Some (mock_civil_from_days days) else None.
Proof.
  pose proof (mock_civil_valid days) as Hv.
  unfold civil_from_days, checked_add_i64. destruct (_ && _); [|done].
  cbn [mbind option_bind]. rewrite era_floor_days. unfold mock_civil_from_days in *. cbv zeta in *.
  destruct Hv as (Hm & Hd & _). pose proof days_in_month_max as Hmax.
  apply u32_pair; [lia|]. split; [lia|]. etrans; [apply Hd|]. apply Hmax.
Qed.

(** A valid date is found again from its day count. *)
Lemma mock_civil_from_civil year month day :
  1 <= month <= 12 -> 1 <= day <= days_in_month year month ->
  mock_civil_from_days (mock_days_from_civil year month day) = (year, month, day).
Proof.
  intros Hm Hd. rewrite mock_civil_of. unfold mock_days_from_civil.
  destruct (civil_month_inv month Hm) as [Hmp Hcm].
  set (mp := if 2 <? month then month - 3 else month + 9) in *.
  set (y := if month <=? 2 then year - 1 else year).
  fold (month_start mp). rewrite <- Hcm in Hd.
  destruct (month_at_start year mp day Hmp Hd) as (Hat & Hdoy & Hleap).
  set (doy := month_start mp + day - 1) in *.
  set (yoe := y - y / 400 * 400).
  assert (0 <= yoe <= 399) as Hyoe by (subst yoe; divs).
  assert (yoe * 365 + Z.quot yoe 4 - Z.quot yoe 100 + doy = year_start yoe + doy) as ->
    by (unfold year_start; lia).
  assert (doy = 365 -> is_leap_year (yoe + 1) = true) as Hl.
  { intros E. specialize (Hleap E).
    assert (mp = 11) as Hmp11.
    { unfold month_at in Hat. rewrite E in Hat. by vm_compute in Hat. }
    assert (month = 2) as Hm2 by (rewrite <- Hcm, Hmp11; reflexivity).
    rewrite leap_year_mod in *. unfold yoe, y. rewrite Hm2. simpl. clear - Hleap.
    replace (year - 1 - (year - 1) / 400 * 400 + 1) with (year - (year - 1) / 400 * 400) by lia. divs. }
  pose proof (year_of_unique yoe doy Hyoe Hdoy Hl) as Hu.
  assert (0 <= year_start yoe + doy <= 146096) as Hdoe.
  { unfold year_start. destruct (decide (doy = 365)) as [E|]; [|divs].
    specialize (Hl E). rewrite leap_year_mod in Hl. divs. }
  replace (y / 400 * 146097 + (year_start yoe + doy) - 719468 + 719468)
    with (year_start yoe + doy + y / 400 * 146097) by lia.
  rewrite Z.div_add, Z.mod_add, Z.div_small, Z.mod_small by lia. unfold civil_of.
  rewrite Hu. replace (year_start yoe + doy - year_start yoe) with doy by lia.
  rewrite Hat, Hcm. subst doy. f_equal; [f_equal|lia].
  subst yoe y. destruct (Z.leb_spec month 2); lia.
Qed.

(** The calendar conversions are inverse to each other.  Every day count that does
    not overflow is a valid civil date that counts back to it, and every valid civil date
    whose count does not overflow is found again from its count. *)
Theorem civil_days_roundtrip :
  (forall days, in_days days -> exists year month day,
     civil_from_days days = Some (year, month, day) /\ 1 <= month <= 12 /\
     1 <= day <= days_in_month year month /\ days_from_civil year month day = days) /\
  (forall year month day, 1 <= month <= 12 -> 1 <= day <= days_in_month year month ->
     in_days (days_from_civil year month day) ->
     civil_from_days (days_from_civil year month day) = Some (year, month, day)).
Proof.
  split.
  - intros days Hin. rewrite civil_from_days_mock. unfold in_days in Hin.
    rewrite (proj2 (Z.leb_le _ _)), (proj2 (Z.leb_le _ i64_max)) by lia. simpl.
    pose proof (mock_civil_valid days) as Hv. destruct (mock_civil_from_days days) as [[y m] d].
    exists y, m, d. rewrite days_from_civil_mock. naive_solver.
  - intros year month day Hm Hd Hin. rewrite civil_from_days_mock. unfold in_days in Hin.
    rewrite (proj2 (Z.leb_le _ _)), (proj2 (Z.leb_le _ i64_max)) by lia. simpl.
    by rewrite days_from_civil_mock, mock_civil_from_civil.
Qed.

(** The mock server's own calendar arithmetic is the client's: the same day counts
    for all dates, and the same dates for all counts that do not overflow. *)
Theorem mock_calendar_agrees :
  (forall year month day, mock_days_from_civil year month day = days_from_civil year month day) /\
  (forall days, in_days days -> civil_from_days days = Some (mock_civil_from_days days)).
Proof.
  split; [intros; by rewrite days_from_civil_mock|]. intros days Hin. rewrite civil_from_days_mock.
  unfold in_days in Hin. by rewrite (proj2 (Z.leb_le _ _)), (proj2 (Z.leb_le _ i64_max)) by lia.
Qed.

Lemma civil_days_roundtrip_witness :
  (exists year month day, civil_from_days 0 = Some (year, month, day) /\ 1 <= month <= 12 /\
     1 <= day <= days_in_month year month /\ days_from_civil year month day = 0) /\
  civil_from_days (days_from_civil 2024 2 29) = Some (2024, 2, 29).
Proof.
  destruct civil_days_roundtrip as [H1 H2]. split.
  - apply H1. vm_compute. split; discriminate.
  - apply H2; vm_compute; split; discriminate.
Defined.

Lemma mock_calendar_agrees_witness :
  civil_from_days (-1) = Some (mock_civil_from_days (-1)).
Proof. apply (proj2 mock_calendar_agrees). vm_compute. split; discriminate. Defined.
