(* ===== verification/MailDate.v ===== *)
(** The mail client's dates (jmap-mail-sync/src/date.rs): a JMAP date text as seconds
    since the epoch, and back. *)

From Stdlib Require Import Ascii String.
From stdpp Require Import prelude strings.
From S2P Require Import Prelude Text Strings Date.
Open Scope rust_scope.
Local Open Scope Z_scope.

(** ** Operations *)
Definition in_YEARS (year : Z) : bool := (1 <=? year) && (year <=? 9999).

Definition split3 (t : text) (separator : ascii) : option (text * text * text) :=
  match split_on separator t with
  | [a; b; c] => Some (a, b, c)
  | _ => None
  end.

Definition is_sign (c : ascii) : bool := bool_decide (c = "+"%char) || bool_decide (c = "-"%char).

Definition strip_zulu (t : text) : option text :=
  match strip_suffix (lit "Z") t with
  | Some time => Some time
  | None => strip_suffix (lit "z") t
  end.

Definition offset_seconds (sign : Z) (hours minutes : text) : option Z :=
  let! hours := parse_u32 hours in
  let! minutes := parse_u32 minutes in
  if ((23 <? hours) || (59 <? minutes))%N then None
  else Some (sign * (Z.of_N hours * 3600 + Z.of_N minutes * 60)).

Definition split_offset (t : text) : run (option (text * Z)) :=
  match strip_zulu t with
  | Some time => Done (Some (time, 0))
  | None =>
      match find_split is_sign t with
      | None => Done None
      | Some (time, offset) =>
          let sign := if starts_with (lit "-") offset then -1 else 1 in
          let offset := drop 1 offset in
          let fields :=
            match split_once ":" offset with
            | Some (hours, minutes) => Done (Some (hours, minutes))
            | None => if (length offset =? 4)%nat then run_map Some (split_at offset 2) else Done None
            end in
          run_map (fun fields =>
            let! (hours, minutes) := fields in
            let! seconds := offset_seconds sign hours minutes in
            Some (time, seconds)) fields
      end
  end.

(** The fields of the date part, checked. *)
Definition civil_fields (date : text) : option (Z * Z * Z) :=
  let! (year, month, day) := split3 date "-" in
  let! year := parse_i64 year in
  let! month := parse_u32 month in
  let! day := parse_u32 day in
  let '(month, day) := (Z.of_N month, Z.of_N day) in
  if negb (in_YEARS year) || negb ((1 <=? month) && (month <=? 12)) || (day <? 1)
     || (days_in_month year month <? day)
  then None else Some (year, month, day).

(** The seconds of the time part, checked; a leap second counts as 59. *)
Definition time_fields (time : text) : option Z :=
  let! (hour, minute, second) := split3 time ":" in
  let second := match split_once "." second with Some (whole, _) => whole | None => second end in
  let! hour := parse_u32 hour in
  let! minute := parse_u32 minute in
  let! second := parse_u32 second in
  if ((23 <? hour) || (59 <? minute) || (60 <? second))%N then None
  else Some (Z.of_N hour * 3600 + Z.of_N minute * 60 + Z.of_N (N.min second 59)).

Definition epoch_seconds (t : text) : run (option Z) :=
  match split_once "T" t with
  | None => Done None
  | Some (date, rest) =>
      match civil_fields date with
      | None => Done None
      | Some (year, month, day) =>
          run_map (fun parts =>
            let! (time, offset) := parts in
            let! seconds_of_day := time_fields time in
            Some (days_from_civil year month day * 86400 + seconds_of_day - offset))
            (split_offset rest)
      end
  end.

Definition mail_civil_from_days (days : Z) : option (Z * Z * Z) :=
  let! (year, month, day) := civil_from_days days in
  if in_YEARS year then Some (year, month, day) else None.

(** [{n:02}] of a number that is not negative. *)
Definition pad_Z (w : nat) (n : Z) : text := pad w (Z.to_N n).

Definition utc_date (seconds : Z) : option text :=
  let '(days, seconds_of_day) := (seconds / 86400, seconds mod 86400) in
  let! (year, month, day) := mail_civil_from_days days in
  let hour := Z.quot seconds_of_day 3600 in
  let minute := Z.rem (Z.quot seconds_of_day 60) 60 in
  let second := Z.rem seconds_of_day 60 in
  Some (pad_Z 4 year ++ lit "-" ++ pad_Z 2 month ++ lit "-" ++ pad_Z 2 day ++ lit "T" ++
        pad_Z 2 hour ++ lit ":" ++ pad_Z 2 minute ++ lit ":" ++ pad_Z 2 second ++ lit "Z").

(** ** Reading back what was written *)
Lemma split3_join sep a b c :
  sep ∉ a -> sep ∉ b -> sep ∉ c -> split3 (a ++ [sep] ++ b ++ [sep] ++ c) sep = Some (a, b, c).
Proof.
  intros Ha Hb Hc. unfold split3. simpl.
  rewrite split_on_app, split_on_app, split_on_none by done. done.
Qed.

Lemma pad_Z_not w n c : is_digit c = false -> c ∉ pad_Z w n.
Proof. apply digits_not, pad_digits. Qed.

Lemma parse_u32_pad w n : 0 <= n <= 9999 -> parse_u32 (pad_Z w n) = Some (Z.to_N n).
Proof. intros Hn. apply parse_uint_pad. unfold u32_max. lia. Qed.

Lemma parse_i64_pad_Z w n : 0 <= n <= i64_max -> parse_i64 (pad_Z w n) = Some n.
Proof.
  intros Hn. unfold pad_Z. rewrite parse_i64_pad by lia.
  f_equal. lia.
Qed.

Lemma civil_fields_written year month day :
  in_YEARS year = true -> 1 <= month <= 12 -> 1 <= day <= days_in_month year month ->
  civil_fields (pad_Z 4 year ++ lit "-" ++ pad_Z 2 month ++ lit "-" ++ pad_Z 2 day) =
  Some (year, month, day).
Proof.
  intros Hy Hm Hd. pose proof (days_in_month_max year month). pose proof Hy as Hy'.
  unfold in_YEARS in Hy'. apply andb_true_iff in Hy' as [Hy1%Z.leb_le Hy2%Z.leb_le].
  unfold civil_fields. rewrite (split3_join "-") by (by apply pad_Z_not).
  cbn [mbind option_bind]. rewrite parse_i64_pad_Z by (unfold i64_max; lia).
  cbn [mbind option_bind]. rewrite !parse_u32_pad by lia.
  cbn [mbind option_bind]. rewrite !Z2N.id by lia. rewrite Hy.
  rewrite (proj2 (Z.leb_le 1 month)), (proj2 (Z.leb_le month 12)) by lia.
  rewrite (proj2 (Z.ltb_ge day 1)), (proj2 (Z.ltb_ge _ day)) by lia. done.
Qed.

Lemma time_fields_written hour minute second :
  0 <= hour <= 23 -> 0 <= minute <= 59 -> 0 <= second <= 59 ->
  time_fields (pad_Z 2 hour ++ lit ":" ++ pad_Z 2 minute ++ lit ":" ++ pad_Z 2 second) =
  Some (hour * 3600 + minute * 60 + second).
Proof.
  intros Hh Hm Hs. unfold time_fields. rewrite (split3_join ":") by (by apply pad_Z_not).
  cbn [mbind option_bind]. rewrite (proj2 (split_once_None "." _)) by (by apply pad_Z_not).
  rewrite !parse_u32_pad by lia. cbn [mbind option_bind].
  rewrite (proj2 (N.ltb_ge 23 _)), (proj2 (N.ltb_ge 59 _)), (proj2 (N.ltb_ge 60 _)) by lia.
  simpl. f_equal. lia.
Qed.

Lemma split_offset_zulu time : split_offset (time ++ lit "Z") = Done (Some (time, 0)).
Proof.
  unfold split_offset, strip_zulu.
  by rewrite (proj2 (strip_suffix_Some (lit "Z") (time ++ lit "Z") time)).
Qed.

Lemma mail_civil_inv days year month day :
  mail_civil_from_days days = Some (year, month, day) ->
  in_YEARS year = true /\ 1 <= month <= 12 /\ 1 <= day <= days_in_month year month /\
  days_from_civil year month day = days.
Proof.
  unfold mail_civil_from_days. rewrite civil_from_days_mock.
  pose proof (mock_civil_valid days) as Hv. destruct (mock_civil_from_days days) as [[y m] d].
  destruct (_ && _); simpl; [|done]. destruct (in_YEARS y) eqn:Hy; [|done].
  intros [= <- <- <-]. rewrite days_from_civil_mock. naive_solver.
Qed.

Lemma utc_date_inv seconds t :
  utc_date seconds = Some t ->
  exists year month day,
    mail_civil_from_days (seconds / 86400) = Some (year, month, day) /\
    let hour := Z.quot (seconds mod 86400) 3600 in
    let minute := Z.rem (Z.quot (seconds mod 86400) 60) 60 in
    let second := Z.rem (seconds mod 86400) 60 in
    t = (pad_Z 4 year ++ lit "-" ++ pad_Z 2 month ++ lit "-" ++ pad_Z 2 day) ++ "T"%char ::
        (pad_Z 2 hour ++ lit ":" ++ pad_Z 2 minute ++ lit ":" ++ pad_Z 2 second) ++ lit "Z".
Proof.
  unfold utc_date. destruct (mail_civil_from_days _) as [[[y m] d]|]; [|done].
  cbn [mbind option_bind]. intros [= <-]. exists y, m, d. split; [done|]. by rewrite <- !app_assoc.
Qed.

(** A date that the client writes reads back as the instant it was written for. *)
Theorem utc_date_roundtrip seconds t :
  utc_date seconds = Some t -> epoch_seconds t = Done (Some seconds).
Proof.
  intros (y & m & d & Hc & ->)%utc_date_inv. cbv zeta.
  destruct (mail_civil_inv _ _ _ _ Hc) as (Hy & Hm & Hd & Hdays). unfold epoch_seconds.
  assert ("T"%char ∉ pad_Z 4 y ++ lit "-" ++ pad_Z 2 m ++ lit "-" ++ pad_Z 2 d) as HT.
  { rewrite !not_elem_of_app. repeat split; try (by apply pad_Z_not); by_decide. }
  rewrite (proj2 (split_once_Some "T" _ _ _) (conj eq_refl HT)).
  rewrite civil_fields_written by done. rewrite split_offset_zulu. cbn [run_map mbind option_bind].
  pose proof (Z.mod_pos_bound seconds 86400 ltac:(lia)) as Hb.
  rewrite time_fields_written by (split; divs). cbn [mbind option_bind]. rewrite Hdays.
  do 2 f_equal. pose proof (Z.div_mod seconds 86400 ltac:(lia)). divs.
Qed.

Lemma utc_date_roundtrip_witness :
  utc_date 1700000000 = Some (lit "2023-11-14T22:13:20Z") /\
  epoch_seconds (lit "2023-11-14T22:13:20Z") = Done (Some 1700000000).
Proof. split; [vm_compute; reflexivity|]. apply utc_date_roundtrip. vm_compute. reflexivity. Defined.

(** ** Which instants have a date *)
Lemma days_from_civil_range year month day :
  1 <= month <= 12 -> 1 <= day <= days_in_month year month ->
  (1 <= year <= 9999 <-> -719162 <= mock_days_from_civil year month day <= 2932896).
Proof.
  intros Hm Hd. pose proof (days_in_month_max year month) as Hmax.
  destruct (civil_month_inv month Hm) as [Hmp Hcm]. unfold mock_days_from_civil.
  set (mp := if 2 <? month then month - 3 else month + 9) in *.
  assert (month <= 2 <-> 10 <= mp) as Hfeb by (subst mp; destruct (Z.ltb_spec 2 month); lia).
  assert (0 <= Z.quot (153 * mp + 2) 5 + day - 1 <= 366 /\
    (mp < 10 -> Z.quot (153 * mp + 2) 5 + day - 1 <= 305) /\
    (10 <= mp -> 306 <= Z.quot (153 * mp + 2) 5 + day - 1)) as (H1 & H2 & H3).
  { rewrite <- Hcm in Hd. destruct (month_at_start year mp day Hmp Hd) as (Hat & Hdoy & _).
    unfold month_at, month_start in *. split; [lia|]. split; divs. }
  generalize dependent (Z.quot (153 * mp + 2) 5 + day - 1). intros doy H1 H2 H3.
  clearbody mp. clear Hcm Hd Hmax.
  destruct (Z.leb_spec month 2).
  - assert (306 <= doy) by (apply H3; lia). clear H2 H3. divs.
  - assert (doy <= 305) by (apply H2; lia). clear H2 H3. divs.
Qed.

Lemma mail_civil_range days :
  is_Some (mail_civil_from_days days) <-> -719162 <= days <= 2932896.
Proof.
  unfold mail_civil_from_days. rewrite civil_from_days_mock.
  pose proof (mock_civil_valid days) as Hv. destruct (mock_civil_from_days days) as [[y m] d] eqn:E.
  destruct Hv as (Hm & Hd & Hdays). pose proof (days_from_civil_range y m d Hm Hd) as Hr.
  rewrite Hdays in Hr. unfold i64_min, i64_max, in_YEARS.
  destruct (Z.leb_spec (-9223372036854775808) (days + 719468)),
    (Z.leb_spec (days + 719468) 9223372036854775807); cbn [andb mbind option_bind];
    try (split; [by intros []|lia]).
  rewrite <- Hr. destruct (Z.leb_spec 1 y), (Z.leb_spec y 9999); simpl;
    (split; [intros Hs|intros ?]); try lia; try (by destruct Hs); eauto.
Qed.

(** An instant has a date text exactly when its year, in UTC, is 1 to 9999. *)
Theorem utc_date_range seconds :
  is_Some (utc_date seconds) <-> -62135596800 <= seconds <= 253402300799.
Proof.
  assert (is_Some (utc_date seconds) <-> is_Some (mail_civil_from_days (seconds / 86400))) as ->.
  { unfold utc_date. destruct (mail_civil_from_days _) as [[[y m] d]|]; [|by split; intros []].
    split; intros _; eauto. }
  rewrite mail_civil_range. divs.
Qed.

(** ** Panics *)
Lemma split_once_ascii sep t a b :
  Forall (fun c => is_ascii c = true) t -> split_once sep t = Some (a, b) ->
  Forall (fun c => is_ascii c = true) b.
Proof. intros Ht [-> _]%split_once_Some. apply Forall_app in Ht as [_ Ht]. by apply Forall_cons in Ht as []. Qed.

Lemma find_split_app P t a b : find_split P t = Some (a, b) -> t = a ++ b.
Proof.
  revert a. induction t as [|c t IH]; intros a; simpl; [done|].
  destruct (P c); [by intros [= <- <-]|].
  intros ([a' b'] & E & [= -> ->])%fmap_Some. simpl. f_equal. by apply IH.
Qed.

Lemma split_offset_ascii t :
  Forall (fun c => is_ascii c = true) t -> split_offset t <> Panic.
Proof.
  intros Ht. unfold split_offset. destruct (strip_zulu t); [done|].
  destruct (find_split is_sign t) as [[time offset]|] eqn:E; [|done].
  apply find_split_app in E. subst t. apply Forall_app in Ht as [_ Ht].
  assert (Forall (fun c => is_ascii c = true) (drop 1 offset)) as Hd by by apply Forall_drop.
  destruct (split_once ":" _) as [[]|]; [done|].
  destruct (Nat.eqb_spec (length (drop 1 offset)) 4) as [El|]; [|done].
  by rewrite split_at_ascii by (done || rewrite El; lia).
Qed.

(** A [sentAt] whose offset is four octets with a character across their middle. *)
Definition bad_offset : text := lit "2026-01-01T00:00:00+1" ++ octets [195; 169]%N ++ lit "1".

(** C40: reading a date never panics on ASCII text; but it does panic on an offset of
    four octets in which a multi-byte character crosses the middle, because the offset
    is cut there without regard to character boundaries. *)
Theorem epoch_seconds_panics :
  (forall t, Forall (fun c => is_ascii c = true) t -> epoch_seconds t <> Panic) /\
  epoch_seconds bad_offset = Panic.
Proof.
  split; [|vm_compute; reflexivity]. intros t Ht. unfold epoch_seconds.
  destruct (split_once "T" t) as [[date rest]|] eqn:E; [|done].
  destruct (civil_fields date) as [[[y m] d]|]; [|done].
  pose proof (split_offset_ascii rest (split_once_ascii _ _ _ _ Ht E)) as Hp.
  by destruct (split_offset rest).
Qed.

Lemma epoch_seconds_panics_witness : epoch_seconds (lit "2026-01-01T00:00:00+1x1") <> Panic.
Proof. apply (proj1 epoch_seconds_panics). repeat constructor. Defined.
