(* ===== verification/MockTime.v ===== *)
(** The mock server's clock texts (jmap-mock/src/time.rs: [parse_utc], [format_utc]). *)

From Stdlib Require Import Ascii String.
From stdpp Require Import prelude strings.
From S2P Require Import Prelude Text Strings Date MailDate.
Open Scope rust_scope.
Local Open Scope Z_scope.

(** ** Operations *)
Definition parse_ymd (date_part : text) : option (Z * Z * Z) :=
  match split_on "-" date_part with
  | [year; month; day] =>
      let! year := parse_i64 year in
      let! month := parse_u32 month in
      let! day := parse_u32 day in
      let '(month, day) := (Z.of_N month, Z.of_N day) in
      if ((1 <=? month) && (month <=? 12)) && ((1 <=? day) && (day <=? 31))
      then Some (year, month, day) else None
  | _ => None
  end.

Definition parse_hms (time_part : text) : option (Z * Z * Z) :=
  match split_on ":" (default [] (head (split_on "." time_part))) with
  | [hour; minute; second] =>
      let! hour := parse_i64 hour in
      let! minute := parse_i64 minute in
      let! second := parse_i64 second in
      if (23 <? hour) || (59 <? minute) || (59 <? second) then None
      else Some (hour, minute, second)
  | _ => None
  end.

Definition parse_utc (date : text) : option Z :=
  let! rest := strip_suffix (lit "Z") date in
  let! (date_part, time_part) := split_once "T" rest in
  let! (year, month, day) := parse_ymd date_part in
  let! (hour, minute, second) := parse_hms time_part in
  Some (mock_days_from_civil year month day * 86400 + hour * 3600 + minute * 60 + second).

(** [{n:04}] of a signed integer: the sign counts toward the width. *)
Definition pad_signed (w : nat) (n : Z) : text :=
  if n <? 0 then "-"%char :: pad (w - 1) (Z.to_N (- n)) else pad_Z w n.

Definition format_utc (seconds : Z) : text :=
  let days := seconds / 86400 in
  let in_day := seconds mod 86400 in
  let '(year, month, day) := mock_civil_from_days days in
  pad_signed 4 year ++ lit "-" ++ pad_Z 2 month ++ lit "-" ++ pad_Z 2 day ++ lit "T" ++
  pad_Z 2 (Z.quot in_day 3600) ++ lit ":" ++ pad_Z 2 (Z.rem (Z.quot in_day 60) 60) ++ lit ":" ++
  pad_Z 2 (Z.rem in_day 60) ++ lit "Z".

(** ** Round trip *)
Lemma parse_ymd_written year month day :
  0 <= year <= i64_max -> 1 <= month <= 12 -> 1 <= day <= 31 ->
  parse_ymd (pad_Z 4 year ++ lit "-" ++ pad_Z 2 month ++ lit "-" ++ pad_Z 2 day) =
  Some (year, month, day).
Proof.
  intros Hy Hm Hd. unfold parse_ymd. change (lit "-") with ["-"%char]. cbn [app].
  rewrite split_on_app, split_on_app, split_on_none by (by apply pad_Z_not).
  rewrite parse_i64_pad_Z by lia. cbn [mbind option_bind].
  rewrite !parse_u32_pad by lia. cbn [mbind option_bind]. rewrite !Z2N.id by lia.
  rewrite (proj2 (Z.leb_le 1 month)), (proj2 (Z.leb_le month 12)) by lia.
  by rewrite (proj2 (Z.leb_le 1 day)), (proj2 (Z.leb_le day 31)) by lia.
Qed.

Lemma parse_hms_written hour minute second :
  0 <= hour <= 23 -> 0 <= minute <= 59 -> 0 <= second <= 59 ->
  parse_hms (pad_Z 2 hour ++ lit ":" ++ pad_Z 2 minute ++ lit ":" ++ pad_Z 2 second) =
  Some (hour, minute, second).
Proof.
  intros Hh Hm Hs. unfold parse_hms. rewrite (split_on_none ".").
  2: { rewrite !not_elem_of_app. repeat split; try (by apply pad_Z_not); by_decide. }
  cbn [default head from_option id]. change (lit ":") with [":"%char]. cbn [app].
  rewrite split_on_app, split_on_app, split_on_none by (by apply pad_Z_not).
  rewrite !parse_i64_pad_Z by (unfold i64_max; lia). cbn [mbind option_bind].
  by rewrite (proj2 (Z.ltb_ge 23 _)), (proj2 (Z.ltb_ge 59 _)), (proj2 (Z.ltb_ge 59 _)) by lia.
Qed.

(** The mock server reads back the instants it writes, for every year from 0 on. *)
Theorem format_utc_roundtrip seconds :
  0 <= (mock_civil_from_days (seconds / 86400)).1.1 <= i64_max ->
  parse_utc (format_utc seconds) = Some seconds.
Proof.
  unfold format_utc. pose proof (mock_civil_valid (seconds / 86400)) as Hv.
  destruct (mock_civil_from_days (seconds / 86400)) as [[y m] d]. cbn [fst]. intros Hy.
  destruct Hv as (Hm & Hd & Hdays). pose proof (days_in_month_max y m) as Hmax.
  unfold pad_signed. rewrite (proj2 (Z.ltb_ge y 0)) by lia. unfold parse_utc.
  pose proof (Z.mod_pos_bound seconds 86400 ltac:(lia)) as Hb. set (in_day := seconds mod 86400) in *.
  rewrite (proj2 (strip_suffix_Some (lit "Z") _
    ((pad_Z 4 y ++ lit "-" ++ pad_Z 2 m ++ lit "-" ++ pad_Z 2 d) ++ "T"%char ::
     (pad_Z 2 (Z.quot in_day 3600) ++ lit ":" ++ pad_Z 2 (Z.rem (Z.quot in_day 60) 60) ++ lit ":" ++
      pad_Z 2 (Z.rem in_day 60))))) by (by rewrite <- !app_assoc; cbn [app]; rewrite <- !app_assoc).
  cbn [mbind option_bind].
  assert ("T"%char ∉ pad_Z 4 y ++ lit "-" ++ pad_Z 2 m ++ lit "-" ++ pad_Z 2 d) as HT.
  { rewrite !not_elem_of_app. repeat split; try (by apply pad_Z_not); by_decide. }
  rewrite (proj2 (split_once_Some "T" _ _ _) (conj eq_refl HT)). cbn [mbind option_bind].
  rewrite parse_ymd_written by lia. cbn [mbind option_bind].
  rewrite parse_hms_written by (split; divs). cbn [mbind option_bind]. rewrite Hdays.
  f_equal. pose proof (Z.div_mod seconds 86400 ltac:(lia)). subst in_day. divs.
Qed.

Lemma format_utc_roundtrip_witness :
  parse_utc (lit "2026-03-01T12:00:00Z") = Some 1772366400.
Proof. apply (format_utc_roundtrip 1772366400). vm_compute. split; discriminate. Defined.
