(* ===== verification/TextFold.v ===== *)
(** Line folding, caret escapes and URI schemes (jmap-proto/src/text.rs).

    The theorems say that a folded text has no physical line over the limit and
    unfolds to the original, and that caret encoding is undone by decoding up to the
    form of line breaks and leaves nothing that would end a parameter value. *)

From Stdlib Require Import Ascii String.
From stdpp Require Import prelude strings.
From S2P Require Import Prelude Strings.
Open Scope rust_scope.

Definition MAX_LINE_OCTETS : nat := 75.

(** [text.split("\r\n")]. *)
Fixpoint split_crlf (t : text) : list text :=
  match t with
  | [] => [[]]
  | c :: t' =>
      match t' with
      | d :: t'' =>
          if decide (c = CR /\ d = LF) then [] :: split_crlf t''
          else match split_crlf t' with p :: r => (c :: p) :: r | [] => [[c]] end
      | [] => [[c]]
      end
  end.

(** [while cut > 0 && !rest.is_char_boundary(cut) { cut -= 1 }]. *)
Fixpoint boundary_below (rest : text) (cut : nat) : nat :=
  match cut with
  | O => O
  | S n => if is_char_boundary rest cut then cut else boundary_below rest n
  end.

(** The first boundary of [n..=rest.len()], or the end. *)
Fixpoint boundary_from (rest : text) (i n : nat) : nat :=
  match n with
  | O => length rest
  | S n => if is_char_boundary rest i then i else boundary_from rest (S i) n
  end.

Fixpoint leading_backslashes (t : text) : nat :=
  match t with
  | "\"%char :: t => S (leading_backslashes t)
  | _ => O
  end.

Definition trailing_backslashes (t : text) : nat := leading_backslashes (reverse t).

Definition fold_cut (budget : nat) (rest : text) : nat :=
  let cut := boundary_below rest budget in
  let cut := if Nat.odd (trailing_backslashes (take cut rest)) then cut - 1 else cut in
  if (cut =? 0)%nat then boundary_from rest 1 (length rest) else cut.

(** The loop over one line; every round takes at least one octet, so the length of the
    line is enough fuel. *)
Fixpoint fold_line (max_octets fuel budget : nat) (rest : text) : text :=
  match fuel with
  | O => rest
  | S fuel =>
      if (budget <? length rest)%nat then
        match rest with
        | [] => rest
        | _ =>
            let cut := fold_cut budget rest in
            take cut rest ++ [CR; LF; " "%char] ++
            fold_line max_octets fuel (max_octets - 1) (drop cut rest)
        end
      else rest
  end.

Definition fold_overlong_lines_at (t : text) (max_octets : nat) : text :=
  if forallb (fun line => length line <=? max_octets)%nat (split_crlf t) then t
  else
    join [CR; LF] ((fun line => fold_line max_octets (length line) max_octets line) <$> split_crlf t).

Definition fold_overlong_lines (t : text) : text := fold_overlong_lines_at t MAX_LINE_OCTETS.

(** ** Carets (RFC 6868) *)
Definition QUOTE : ascii := "034"%char.

Fixpoint caret_encoded (value : text) : text :=
  match value with
  | [] => []
  | ch :: rest =>
      if decide (ch = "^"%char) then lit "^^" ++ caret_encoded rest
      else if decide (ch = QUOTE) then lit "^'" ++ caret_encoded rest
      else if decide (ch = LF) then lit "^n" ++ caret_encoded rest
      else if decide (ch = CR) then
        lit "^n" ++
        match rest with
        | c :: rest' => if decide (c = LF) then caret_encoded rest' else caret_encoded rest
        | [] => []
        end
      else ch :: caret_encoded rest
  end.

Definition caret_escape (c : ascii) : option ascii :=
  if decide (c = "^"%char) then Some "^"%char
  else if decide (c = "'"%char) then Some QUOTE
  else if decide (c = "n"%char \/ c = "N"%char) then Some LF
  else None.

Fixpoint caret_decoded (value : text) : text :=
  match value with
  | [] => []
  | ch :: rest =>
      match rest with
      | c :: rest' =>
          if decide (ch = "^"%char) then
            match caret_escape c with
            | Some decoded => decoded :: caret_decoded rest'
            | None => ch :: caret_decoded rest
            end
          else ch :: caret_decoded rest
      | [] => [ch]
      end
  end.

(** ** URI schemes (RFC 3986) *)
Definition is_valid_scheme (scheme : text) : bool :=
  match scheme with
  | [] => false
  | first :: characters =>
      is_ascii_alphabetic first &&
      forallb (fun c => is_ascii_alphanumeric c || bool_decide (c ∈ lit "+-.")) characters
  end.

Definition uri_scheme (value : text) : option text :=
  let! (scheme, _) := split_once ":" value in
  if is_valid_scheme scheme then Some scheme else None.

Definition split_uri (value : text) : option (text * text) :=
  let! (scheme, rest) := split_once ":" value in
  if is_valid_scheme scheme then Some (scheme, rest) else None.

Definition has_uri_scheme (value : text) : bool := bool_decide (is_Some (uri_scheme value)).

(** ** Lines ended by CRLF *)
Definition no_crlf (t : text) : Prop := forall a b, t <> a ++ CR :: LF :: b.

Lemma no_crlf_tail c t : no_crlf (c :: t) -> no_crlf t.
Proof. intros H a b ->. by apply (H (c :: a) b). Qed.

Lemma no_crlf_app a b : no_crlf (a ++ b) -> no_crlf a /\ no_crlf b.
Proof.
  intros H. split; intros x y ->.
  - apply (H x (y ++ b)). by rewrite <- app_assoc.
  - apply (H (a ++ x) y). by rewrite <- app_assoc.
Qed.

Lemma no_crlf_space t : no_crlf t -> no_crlf (" "%char :: t).
Proof. intros H [|c a] b E; [done|]. simplify_eq/=. by apply (H a b). Qed.

Lemma split_crlf_none t : no_crlf t -> split_crlf t = [t].
Proof.
  induction t as [|c t IH]; intros H; [done|]. destruct t as [|d t]; [done|].
  cbn [split_crlf]. rewrite decide_False.
  - change (split_crlf (d :: t)) with (split_crlf (d :: t)) in IH.
    specialize (IH (no_crlf_tail _ _ H)). cbn [split_crlf] in IH. by rewrite IH.
  - intros [-> ->]. by apply (H [] t).
Qed.

Lemma split_crlf_app a t : no_crlf a -> split_crlf (a ++ CR :: LF :: t) = a :: split_crlf t.
Proof.
  induction a as [|c a IH]; intros H; [done|]. specialize (IH (no_crlf_tail _ _ H)).
  destruct a as [|d a]; cbn [app split_crlf] in *.
  - rewrite decide_False by (by intros [_ ?]). by rewrite IH.
  - rewrite decide_False by (intros [-> ->]; by apply (H [] a)). by rewrite IH.
Qed.

(** Every text is one line, or a line and CRLF and more text. *)
Lemma crlf_ind (P : text -> Prop) :
  (forall t, no_crlf t -> P t) -> (forall a t, no_crlf a -> P t -> P (a ++ CR :: LF :: t)) ->
  forall t, P t.
Proof.
  intros Hone Hmore t. remember (length t) as n eqn:Hn. assert (length t <= n) as Hle by lia.
  clear Hn. revert t Hle. induction n as [|n IH]; intros t Hle.
  { apply Hone. destruct t; simpl in Hle; [|lia]. by intros [|] b. }
  assert (no_crlf t \/ exists a b, t = a ++ CR :: LF :: b /\ no_crlf a) as [Ht|(a & b & -> & Ha)].
  { clear IH Hle Hone Hmore. induction t as [|c t IH]; [left; by intros [|] b|].
    destruct IH as [Ht|(a & b & -> & Ha)].
    - destruct t as [|d t]; [left; intros [|? [|]] b E; by simplify_eq/=|].
      destruct (decide (c = CR /\ d = LF)) as [[-> ->]|Hne].
      + right. exists [], t. split; [done|]. by intros [|] b.
      + left. intros [|x a] b E; simplify_eq/=; [tauto|]. by eapply Ht.
    - destruct a as [|d a]; [right; exists [c], b; split; [done|]; intros [|? [|]] y E; by simplify_eq/=|].
      destruct (decide (c = CR /\ d = LF)) as [[-> ->]|Hne].
      + right. exists [], (a ++ CR :: LF :: b). split; [done|]. by intros [|] y.
      + right. exists (c :: d :: a), b. split; [done|].
        intros [|x a'] b' E; simplify_eq/=; [tauto|]. by eapply Ha. }
  - by apply Hone.
  - apply Hmore; [done|]. apply IH. rewrite length_app in Hle. simpl in Hle. lia.
Qed.

Lemma split_crlf_spec t :
  split_crlf t <> [] /\ Forall no_crlf (split_crlf t) /\ join [CR; LF] (split_crlf t) = t.
Proof.
  induction t as [t Ht|a t Ha (Hn & Hf & Hj)] using crlf_ind.
  - rewrite split_crlf_none by done. split; [done|]. by repeat constructor.
  - rewrite split_crlf_app by done. split; [done|]. split; [by constructor|].
    rewrite join_cons, Hj by done. done.
Qed.

Lemma split_crlf_join ls :
  ls <> [] -> Forall no_crlf ls -> split_crlf (join [CR; LF] ls) = ls.
Proof.
  intros Hne Hf. induction Hf as [|l ls Hl Hf IH]; [done|].
  destruct ls as [|l' ls]; [by apply split_crlf_none|].
  rewrite join_cons by done. cbn [app]. rewrite split_crlf_app by done. f_equal. by apply IH.
Qed.

(** ** Pieces of a folded line *)
Fixpoint fold_pieces (max_octets fuel budget : nat) (rest : text) : list text :=
  match fuel with
  | O => [rest]
  | S fuel =>
      if (budget <? length rest)%nat then
        match rest with
        | [] => [rest]
        | _ =>
            take (fold_cut budget rest) rest ::
            fold_pieces max_octets fuel (max_octets - 1) (drop (fold_cut budget rest) rest)
        end
      else [rest]
  end.

(** The physical lines of the pieces: all but the first are continued with a space. *)
Definition physical (pieces : list text) : list text :=
  match pieces with
  | [] => []
  | p :: ps => p :: ((fun q => " "%char :: q) <$> ps)
  end.

Lemma fold_pieces_nonempty m fuel b rest : fold_pieces m fuel b rest <> [].
Proof. destruct fuel; simpl; [done|]. destruct (_ <? _)%nat; [|done]. by destruct rest. Qed.

Lemma fold_line_pieces m fuel b rest :
  fold_line m fuel b rest = join [CR; LF] (physical (fold_pieces m fuel b rest)).
Proof.
  revert b rest. induction fuel as [|fuel IH]; intros b rest; [done|]. cbn [fold_line fold_pieces].
  destruct (_ <? _)%nat; [|done]. destruct rest as [|c rest]; [done|]. rewrite IH.
  destruct (fold_pieces m fuel _ _) as [|p ps] eqn:E; [by apply fold_pieces_nonempty in E|].
  cbn [physical]. rewrite fmap_cons, (join_cons _ (take _ _)) by done. f_equal.
  assert (forall l, " "%char :: join [CR; LF] (p :: l) = join [CR; LF] ((" "%char :: p) :: l)) as <-
    by (by intros [|]). done.
Qed.

Lemma fold_pieces_concat m fuel b rest : mjoin (fold_pieces m fuel b rest) = rest.
Proof.
  revert b rest. induction fuel as [|fuel IH]; intros b rest; cbn [fold_pieces].
  { apply app_nil_r. }
  destruct (_ <? _)%nat; [|apply app_nil_r]. destruct rest as [|c rest]; [done|].
  rewrite mjoin_cons, IH. apply take_drop.
Qed.

(** ** Unfolding (RFC 5545 section 3.1): a line that starts with a space continues the
    line before it *)
Definition unfold_line (line : text) : text :=
  match line with
  | c :: rest => if decide (c = " "%char) then rest else CR :: LF :: line
  | [] => CR :: LF :: line
  end.

Definition unfold_text (t : text) : text :=
  match split_crlf t with
  | [] => []
  | line :: lines => line ++ mjoin (unfold_line <$> lines)
  end.

Definition starts_space (line : text) : bool := bool_decide (head line = Some " "%char).

Lemma unfold_line_plain line : starts_space line = false -> unfold_line line = CR :: LF :: line.
Proof.
  unfold starts_space. intros H%bool_decide_eq_false. destruct line as [|c line]; [done|]. simpl.
  rewrite decide_False; [done|]. by intros ->.
Qed.

Lemma unfold_spaces ps : mjoin (unfold_line <$> ((fun q => " "%char :: q) <$> ps)) = mjoin ps.
Proof. induction ps as [|p ps IH]; [done|]. rewrite !fmap_cons, !mjoin_cons, IH. done. Qed.

Lemma fold_cut_range budget rest :
  budget < length rest -> 1 <= fold_cut budget rest <= length rest.
Proof.
  intros Hb.
  assert (forall n, boundary_below rest n <= n) as Hbelow.
  { induction n as [|n IH]; simpl; [done|]. destruct (is_char_boundary rest (S n)); lia. }
  assert (forall n i, 1 <= i -> i + n <= S (length rest) -> 1 <= boundary_from rest i n <= length rest) as Hfrom.
  { induction n as [|n IH]; intros i Hi Hn; simpl; [lia|].
    destruct (is_char_boundary rest i); [lia|]. apply IH; lia. }
  unfold fold_cut. specialize (Hbelow budget). specialize (Hfrom (length rest) 1 ltac:(lia) ltac:(lia)).
  destruct (Nat.odd _); destruct (Nat.eqb_spec (boundary_below rest budget - 1) 0);
    destruct (Nat.eqb_spec (boundary_below rest budget) 0); lia.
Qed.

(** The first piece starts as the line does. *)
Lemma fold_pieces_head m fuel b rest p ps :
  fold_pieces m fuel b rest = p :: ps -> head p = head rest.
Proof.
  destruct fuel; cbn [fold_pieces]; [by intros [= <- <-]|].
  destruct (Nat.ltb_spec b (length rest)) as [Hb|]; [|by intros [= <- <-]].
  pose proof (fold_cut_range b rest Hb) as Hc.
  destruct rest as [|c rest]; [by intros [= <- <-]|]. intros [= <- _].
  by destruct (fold_cut b (c :: rest)); [lia|].
Qed.

Lemma fold_pieces_no_crlf m fuel b rest :
  no_crlf rest -> Forall no_crlf (physical (fold_pieces m fuel b rest)).
Proof.
  intros Hr. assert (Forall no_crlf (fold_pieces m fuel b rest)) as Hf.
  { revert b rest Hr. induction fuel as [|fuel IH]; intros b rest Hr; cbn [fold_pieces]; [by constructor|].
    destruct (_ <? _)%nat; [|by constructor]. destruct rest as [|c rest]; [by constructor|].
    rewrite <- (take_drop (fold_cut b (c :: rest)) (c :: rest)) in Hr at 1.
    apply no_crlf_app in Hr as [H1 H2]. constructor; [done|]. by apply IH. }
  destruct (fold_pieces m fuel b rest) as [|p ps]; [done|]. apply Forall_cons in Hf as [Hp Hps].
  constructor; [done|]. apply Forall_fmap. eapply Forall_impl; [done|]. apply no_crlf_space.
Qed.

(** All physical lines of the folded lines. *)
Definition folded_lines (m : nat) (lines : list text) : list text :=
  mjoin ((fun line => physical (fold_pieces m (length line) m line)) <$> lines).

Lemma join_nested sep (ls : list (list text)) :
  Forall (fun l => l <> []) ls -> join sep (join sep <$> ls) = join sep (mjoin ls).
Proof.
  assert (forall a b : list text, a <> [] -> b <> [] -> join sep (a ++ b) = join sep a ++ sep ++ join sep b) as Happ.
  { intros a b Ha Hb. induction a as [|x a IH]; [done|]. destruct a as [|y a]; [by apply join_cons|].
    cbn [app] in *. rewrite !(join_cons _ x), IH by done. by rewrite <- !app_assoc. }
  induction 1 as [|l ls Hl Hls IH]; [done|]. destruct ls as [|l' ls]; [simpl; by rewrite app_nil_r|].
  rewrite fmap_cons, join_cons, IH by done. rewrite (mjoin_cons l), Happ; [done|done|].
  apply Forall_cons in Hls as [Hl' _]. by destruct l'.
Qed.

Lemma fold_lines_join m lines :
  join [CR; LF] ((fun line => fold_line m (length line) m line) <$> lines) =
  join [CR; LF] (folded_lines m lines).
Proof.
  unfold folded_lines. rewrite <- join_nested.
  - f_equal. rewrite <- list_fmap_compose. apply list_fmap_ext. intros _ l _. apply fold_line_pieces.
  - apply Forall_fmap, Forall_forall. intros l _. simpl.
    destruct (fold_pieces m (length l) m l) eqn:E; [by apply fold_pieces_nonempty in E|done].
Qed.

Lemma unfold_folded_line m fuel b line :
  starts_space line = false ->
  mjoin (unfold_line <$> physical (fold_pieces m fuel b line)) = CR :: LF :: line.
Proof.
  intros Hs. pose proof (fold_pieces_concat m fuel b line) as Hc.
  destruct (fold_pieces m fuel b line) as [|p ps] eqn:E; [by apply fold_pieces_nonempty in E|].
  pose proof (fold_pieces_head _ _ _ _ _ _ E) as Hh. cbn [physical].
  rewrite fmap_cons, mjoin_cons, unfold_spaces, unfold_line_plain.
  - rewrite <- Hc, mjoin_cons. done.
  - unfold starts_space in *. by rewrite Hh.
Qed.

Lemma unfold_folded m line lines :
  Forall (fun l => starts_space l = false) lines ->
  match folded_lines m (line :: lines) with
  | [] => []
  | l :: ls => l ++ mjoin (unfold_line <$> ls)
  end = join [CR; LF] (line :: lines).
Proof.
  intros Hs. unfold folded_lines. rewrite fmap_cons, mjoin_cons.
  pose proof (fold_pieces_concat m (length line) m line) as Hc.
  destruct (fold_pieces m (length line) m line) as [|p ps] eqn:E; [by apply fold_pieces_nonempty in E|].
  cbn [physical app]. rewrite fmap_app, join_app, unfold_spaces, app_assoc.
  rewrite mjoin_cons in Hc. rewrite Hc. clear E Hc.
  revert line. induction Hs as [|l ls Hl Hls IH]; intros line; [by rewrite app_nil_r|].
  rewrite fmap_cons, mjoin_cons, fmap_app, join_app, unfold_folded_line by done.
  by rewrite join_cons, <- IH by done.
Qed.

(** Folding is undone by unfolding: from a text with no continuation line of its
    own, the folded text unfolds to exactly that text, for every limit. *)
Theorem fold_unfold (t : text) (max_octets : nat) :
  Forall (fun line => starts_space line = false) (tail (split_crlf t)) ->
  unfold_text (fold_overlong_lines_at t max_octets) = t.
Proof.
  intros Hs. destruct (split_crlf_spec t) as (Hne & Hf & Hj).
  unfold unfold_text, fold_overlong_lines_at. destruct (split_crlf t) as [|line lines] eqn:E; [done|].
  simpl in Hs. destruct (forallb _ _).
  - rewrite E, <- Hj. clear E Hf Hj Hne. revert line. induction Hs as [|l ls Hl Hls IH]; intros line.
    { apply app_nil_r. }
    rewrite fmap_cons, mjoin_cons, unfold_line_plain, join_cons by done. f_equal.
    simpl. do 2 f_equal. by apply IH.
  - rewrite fold_lines_join, split_crlf_join.
    + rewrite unfold_folded by done. done.
    + unfold folded_lines. rewrite fmap_cons, mjoin_cons.
      destruct (fold_pieces _ _ _ line) eqn:Ep; [by apply fold_pieces_nonempty in Ep|done].
    + unfold folded_lines. apply Forall_join, Forall_fmap. eapply Forall_impl; [done|].
      intros l Hl. by apply fold_pieces_no_crlf.
Qed.

Definition example_long : text := lit "BEGIN" ++ [CR; LF] ++ lit "abcdefghij\,klm" ++ [CR; LF] ++ lit "END".

Lemma fold_unfold_witness : unfold_text (fold_overlong_lines_at example_long 8) = example_long.
Proof. apply fold_unfold. vm_compute. repeat constructor. Defined.

(** ** The limit

    A UTF-8 text is a sequence of characters of one to four octets, of which all but the
    first continue it. *)
Definition is_utf8_char (c : text) : Prop :=
  exists b rest, c = b :: rest /\ is_continuation b = false /\
    Forall (fun x => is_continuation x = true) rest /\ length rest <= 3 /\
    (is_ascii b = true -> rest = []).

Definition utf8_shaped (t : text) : Prop := exists cs, t = mjoin cs /\ Forall is_utf8_char cs.

Lemma boundary_end t : is_char_boundary t (length t) = true.
Proof.
  unfold is_char_boundary. rewrite lookup_ge_None_2 by done. by rewrite Nat.eqb_refl.
Qed.

Lemma boundary_zero t : is_char_boundary t 0 = true.
Proof. unfold is_char_boundary. by destruct t. Qed.

(** The first character ends at a boundary. *)
Lemma utf8_first t :
  utf8_shaped t -> t <> [] -> exists k, 1 <= k <= 4 /\ k <= length t /\ is_char_boundary t k = true.
Proof.
  intros (cs & -> & Hcs) Hne. destruct Hcs as [|c cs (b & rest & -> & Hb & Hr & Hl & _) Hcs]; [done|].
  exists (S (length rest)). rewrite mjoin_cons, length_app. cbn [length].
  split; [lia|]. split; [lia|].
  unfold is_char_boundary. destruct Hcs as [|c cs (b' & rest' & -> & Hb' & _) _].
  - simpl. rewrite app_nil_r, lookup_ge_None_2 by done. apply Nat.eqb_refl.
  - rewrite mjoin_cons, lookup_app_r by (simpl; lia). simpl.
    rewrite Nat.sub_diag. simpl. by rewrite Hb'.
Qed.

(** What follows a boundary is again a UTF-8 text. *)
Lemma utf8_drop t i :
  utf8_shaped t -> is_char_boundary t i = true -> i <= length t -> utf8_shaped (drop i t).
Proof.
  intros (cs & -> & Hcs). revert i.
  induction Hcs as [|c cs (b & rest & -> & Hb & Hr & Hl & Ha) Hcs IH]; intros i Hi Hle.
  { exists []. by destruct i. }
  destruct i as [|i]; [exists ((b :: rest) :: cs); split; [done|]; constructor; [by exists b, rest|done]|].
  rewrite mjoin_cons in *. destruct (decide (S i < length (b :: rest))) as [Hlt|Hge].
  - exfalso. unfold is_char_boundary in Hi. rewrite lookup_app_l in Hi by done.
    simpl in Hi, Hlt. destruct (rest !! i) as [x|] eqn:E; [|apply lookup_ge_None in E; lia].
    rewrite Forall_forall in Hr. apply list_elem_of_lookup_2, Hr in E. by rewrite E in Hi.
  - rewrite drop_app_ge by lia. apply IH.
    + unfold is_char_boundary in *. rewrite lookup_app_r in Hi by lia.
      destruct (mjoin cs !! _) as [x|] eqn:E; [|].
      { simpl in Hi. by rewrite Hi, orb_true_r. }
      apply Nat.eqb_eq. apply Nat.eqb_eq in Hi. rewrite length_app in Hi. lia.
    + rewrite length_app in Hle. lia.
Qed.

Lemma boundary_below_spec t n :
  boundary_below t n <= n /\ is_char_boundary t (boundary_below t n) = true /\
  forall k, k <= n -> is_char_boundary t k = true -> k <= boundary_below t n.
Proof.
  induction n as [|n (H1 & H2 & H3)]; simpl.
  - split; [done|]. split; [apply boundary_zero|lia].
  - destruct (is_char_boundary t (S n)) eqn:E; [split; [done|]; by split|].
    split; [lia|]. split; [done|]. intros k Hk Hb. apply H3; [|done].
    destruct (decide (k = S n)); [congruence|lia].
Qed.

(** Before an odd run of backslashes there is a backslash, and so a boundary. *)
Lemma backslash_boundary t cut :
  cut <= length t -> Nat.odd (trailing_backslashes (take cut t)) = true ->
  1 <= cut /\ is_char_boundary t (cut - 1) = true.
Proof.
  intros Hle Hodd. destruct cut as [|cut]; [done|]. split; [lia|].
  replace (S cut - 1) with cut by lia. unfold trailing_backslashes in Hodd.
  destruct (lookup_lt_is_Some_2 t cut Hle) as [c Hc].
  rewrite (take_S_r _ _ _ Hc), reverse_snoc in Hodd.
  unfold is_char_boundary. rewrite Hc. apply orb_true_iff. right.
  assert (c = "\"%char) as ->; [|done].
  destruct (decide (c = "\"%char)) as [|Hne]; [done|exfalso].
  assert (leading_backslashes (c :: reverse (take cut t)) = 0) as E; [|by rewrite E in Hodd].
  destruct c as [[] [] [] [] [] [] [] []]; done.
Qed.

(** The cut respects the budget and the characters. *)
Lemma fold_cut_utf8 budget rest :
  utf8_shaped rest -> 4 <= budget < length rest ->
  fold_cut budget rest <= budget /\ utf8_shaped (drop (fold_cut budget rest) rest).
Proof.
  intros Hu Hb. destruct (utf8_first rest Hu) as (k & Hk & Hkl & Hkb); [by destruct rest; [simpl in Hb; lia|]|].
  destruct (boundary_below_spec rest budget) as (Hle & Hbd & Hmax).
  assert (k <= boundary_below rest budget) as Hkb' by (apply Hmax; [lia|done]).
  assert (exists cut, fold_cut budget rest = cut /\ cut <= budget /\ is_char_boundary rest cut = true)
    as (cut & -> & Hc & Hcb).
  { unfold fold_cut. destruct (Nat.odd _) eqn:Eo.
    - apply backslash_boundary in Eo as [H1 Hb1]; [|lia].
      destruct (Nat.eqb_spec (boundary_below rest budget - 1) 0) as [E|E].
      + exists 1. replace (boundary_below rest budget) with 1 in * by lia.
        split; [|split; [lia|done]]. destruct rest as [|x rest]; [simpl in Hb; lia|].
        simpl length. cbn [boundary_from]. by rewrite Hbd.
      + exists (boundary_below rest budget - 1). split; [done|]. split; [lia|done].
    - destruct (Nat.eqb_spec (boundary_below rest budget) 0); [lia|]. eauto. }
  split; [done|]. apply utf8_drop; [done|done|lia].
Qed.

Lemma fold_pieces_limit m fuel b rest :
  5 <= m -> utf8_shaped rest -> m - 1 <= b -> length rest <= fuel ->
  match fold_pieces m fuel b rest with
  | [] => True
  | p :: ps => length p <= b /\ Forall (fun q => length q <= m - 1) ps
  end.
Proof.
  intros Hm. revert b rest. induction fuel as [|fuel IH]; intros b rest Hu Hb Hl; cbn [fold_pieces].
  { split; [lia|done]. }
  destruct (Nat.ltb_spec b (length rest)) as [Hlt|]; [|by split].
  destruct (fold_cut_utf8 b rest Hu) as [Hc Hd]; [lia|].
  pose proof (fold_cut_range b rest Hlt) as Hr. destruct rest as [|c rest]; [simpl in Hlt; lia|].
  set (r := c :: rest) in *. split; [rewrite length_take; lia|].
  specialize (IH (m - 1) (drop (fold_cut b r) r) Hd ltac:(lia)).
  destruct (fold_pieces m fuel (m - 1) (drop (fold_cut b r) r)) as [|p ps]; [done|].
  destruct IH as [Hp Hps]; [rewrite length_drop; lia|]. by constructor.
Qed.

(** Both sides of an ASCII character in a UTF-8 text are UTF-8 texts. *)
Lemma utf8_split a c b :
  is_ascii c = true -> utf8_shaped (a ++ c :: b) -> utf8_shaped a /\ utf8_shaped b.
Proof.
  intros Hc (cs & E & Hcs).
  assert (is_continuation c = false) as Hcc.
  { unfold is_ascii, is_continuation in *. apply N.ltb_lt in Hc. by rewrite (proj2 (N.leb_gt 128 _)). }
  revert a E. induction Hcs as [|ch cs (x & rest & -> & Hx & Hr & Hl & Ha) Hcs IH]; intros a E.
  { by destruct a. }
  rewrite mjoin_cons in E. destruct a as [|y a]; simpl in E; injection E as -> E.
  - subst b. rewrite Ha by done. split; [by exists []|by exists cs].
  - assert (exists l, a = rest ++ l /\ mjoin cs = l ++ c :: b) as (l & -> & E').
    { symmetry in E. apply app_eq_inv in E as [(l & El & Er)|(l & El & Er)]; [|by exists l].
      destruct l as [|z l]; [exists []; by rewrite !app_nil_r in *|]. simplify_eq/=.
      apply Forall_app in Hr as [_ [Hz _]%Forall_cons]. congruence. }
    destruct (IH l (eq_sym E')) as [(cs' & -> & Hcs') Hb]. split; [|done].
    exists ((x :: rest) :: cs'). split; [done|]. constructor; [by exists x, rest|done].
Qed.

Lemma utf8_lines t : utf8_shaped t -> Forall utf8_shaped (split_crlf t).
Proof.
  induction t as [t Ht|a t Ha IH] using crlf_ind; intros Hu.
  - rewrite split_crlf_none by done. by constructor.
  - rewrite split_crlf_app by done.
    destruct (utf8_split a CR (LF :: t) eq_refl Hu) as [H1 H2].
    destruct (utf8_split [] LF t eq_refl H2) as [_ H3]. constructor; auto.
Qed.

(** No physical line of a folded UTF-8 text is longer than the limit, for every
    limit of at least five octets. *)
Theorem fold_limit (t : text) (max_octets : nat) :
  utf8_shaped t -> 5 <= max_octets ->
  Forall (fun line => length line <= max_octets) (split_crlf (fold_overlong_lines_at t max_octets)).
Proof.
  intros Hu%utf8_lines Hm. destruct (split_crlf_spec t) as (Hne & Hf & _).
  unfold fold_overlong_lines_at. destruct (forallb _ _) eqn:E.
  - apply Forall_forall. intros line Hl. rewrite forallb_forall in E.
    apply Nat.leb_le, E. by apply list_elem_of_In.
  - rewrite fold_lines_join, split_crlf_join.
    + unfold folded_lines. apply Forall_join, Forall_fmap. eapply Forall_impl; [exact Hu|].
      intros line Hl. simpl.
      pose proof (fold_pieces_limit max_octets (length line) max_octets line Hm Hl ltac:(lia) ltac:(lia)) as Hp.
      destruct (fold_pieces _ _ _ _) as [|p ps]; [constructor|]. destruct Hp as [Hp Hps].
      constructor; [done|]. apply Forall_fmap. eapply Forall_impl; [done|]. simpl. lia.
    + unfold folded_lines. destruct (split_crlf t) as [|line lines]; [done|].
      rewrite fmap_cons, mjoin_cons.
      destruct (fold_pieces _ _ _ line) eqn:Ep; [by apply fold_pieces_nonempty in Ep|done].
    + unfold folded_lines. apply Forall_join, Forall_fmap. eapply Forall_impl; [done|].
      intros l Hl. by apply fold_pieces_no_crlf.
Qed.

Lemma ascii_utf8 t : Forall (fun c => is_ascii c = true) t -> utf8_shaped t.
Proof.
  intros Ht. exists ((fun c => [c]) <$> t). split.
  { clear Ht. induction t as [|c t IH]; [done|]. rewrite fmap_cons, mjoin_cons, <- IH. done. }
  apply Forall_fmap. eapply Forall_impl; [done|]. intros c Hc. exists c, []. split; [done|].
  split; [|split; [done|split; [simpl; lia|done]]].
  unfold is_ascii, is_continuation in *. apply N.ltb_lt in Hc. by rewrite (proj2 (N.leb_gt 128 _)).
Qed.

Lemma fold_limit_witness :
  Forall (fun line => length line <= 8) (split_crlf (fold_overlong_lines_at example_long 8)).
Proof.
  apply fold_limit; [|lia]. apply ascii_utf8. vm_compute. repeat constructor.
Defined.

(** ** Carets *)

(** The text with every line break, in any of its forms, as a line feed. *)
Fixpoint newlines (value : text) : text :=
  match value with
  | [] => []
  | ch :: rest =>
      if decide (ch = CR) then
        LF :: match rest with
              | c :: rest' => if decide (c = LF) then newlines rest' else newlines rest
              | [] => []
              end
      else ch :: newlines rest
  end.

Lemma caret_decoded_escape c decoded rest :
  caret_escape c = Some decoded -> caret_decoded ("^"%char :: c :: rest) = decoded :: caret_decoded rest.
Proof. intros E. cbn [caret_decoded]. rewrite decide_True by done. by rewrite E. Qed.

Lemma caret_decoded_plain c rest :
  c <> "^"%char -> caret_decoded (c :: rest) = c :: caret_decoded rest.
Proof. intros Hc. destruct rest; [done|]. cbn [caret_decoded]. by rewrite decide_False. Qed.

(** Induction that passes a CRLF in one step. *)
Lemma breaks_ind (P : text -> Prop) :
  P [] -> (forall rest, P rest -> P (CR :: LF :: rest)) ->
  (forall c rest, (c = CR -> head rest <> Some LF) -> P rest -> P (c :: rest)) -> forall t, P t.
Proof.
  intros Hnil Hcrlf Hone t. remember (length t) as n eqn:Hn. assert (length t <= n) as Hle by lia.
  clear Hn. revert t Hle. induction n as [|n IH]; intros t Hle; [by destruct t; simpl in Hle; [|lia]|].
  destruct t as [|c t]; [done|]. simpl in Hle. destruct (decide (c = CR)) as [->|Hc].
  - destruct t as [|d t]; [apply Hone; [done|done]|]. simpl in Hle.
    destruct (decide (d = LF)) as [->|Hd]; [apply Hcrlf, IH; lia|].
    apply Hone; [by intros _ [=]|]. apply IH. simpl. lia.
  - apply Hone; [done|]. apply IH. lia.
Qed.

Lemma caret_encoded_crlf rest : caret_encoded (CR :: LF :: rest) = lit "^n" ++ caret_encoded rest.
Proof. done. Qed.

Lemma caret_encoded_one c rest :
  (c = CR -> head rest <> Some LF) ->
  caret_encoded (c :: rest) =
  (if decide (c = "^"%char) then lit "^^" else if decide (c = QUOTE) then lit "^'"
   else if decide (c = LF \/ c = CR) then lit "^n" else [c]) ++ caret_encoded rest.
Proof.
  intros Hc. cbn [caret_encoded]. case_decide; [done|]. case_decide; [done|].
  case_decide; [rewrite decide_True by (by left); done|]. case_decide.
  - rewrite decide_True by (by right). f_equal. destruct rest as [|d rest]; [done|].
    rewrite decide_False; [done|]. intros ->. by apply Hc.
  - rewrite decide_False by tauto. done.
Qed.

Lemma newlines_one c rest :
  (c = CR -> head rest <> Some LF) ->
  newlines (c :: rest) = (if decide (c = CR) then LF else c) :: newlines rest.
Proof.
  intros Hc. cbn [newlines]. case_decide; [|done]. f_equal. destruct rest as [|d rest]; [done|].
  rewrite decide_False; [done|]. intros ->. by apply Hc.
Qed.

(** Decoding undoes caret encoding, up to the form of line breaks: every value comes
    back with each of its line breaks as a line feed. *)
Theorem caret_roundtrip (value : text) : caret_decoded (caret_encoded value) = newlines value.
Proof.
  induction value as [|rest IH|c rest Hc IH] using breaks_ind; [done| |].
  - rewrite caret_encoded_crlf. cbn [lit String.list_ascii_of_string app].
    rewrite (caret_decoded_escape _ LF) by done. by rewrite IH.
  - rewrite caret_encoded_one, newlines_one by done. repeat case_decide; subst;
      cbn [lit String.list_ascii_of_string app]; try done;
      try (rewrite (caret_decoded_escape _ "^") by done; by rewrite IH);
      try (rewrite (caret_decoded_escape _ QUOTE) by done; by rewrite IH);
      try (rewrite (caret_decoded_escape _ LF) by done; rewrite IH; try done; naive_solver).
    + naive_solver.
    + rewrite caret_decoded_plain by done. by rewrite IH.
Qed.

(** An encoded parameter value holds no quote and no line break, whatever the value:
    it cannot end the quoted parameter or the line it is written in. *)
Theorem caret_encoded_safe (value : text) :
  Forall (fun c => c <> QUOTE /\ c <> LF /\ c <> CR) (caret_encoded value).
Proof.
  induction value as [|rest IH|c rest Hc IH] using breaks_ind; [constructor| |].
  - rewrite caret_encoded_crlf. by repeat constructor.
  - rewrite caret_encoded_one by done. apply Forall_app. split; [|done].
    repeat case_decide; repeat constructor; naive_solver.
Qed.
