(* ===== verification/Keywords.v ===== *)
(** Keyword sets and keyword changes (jmap-mail-sync/src/keywords.rs, the flags of
    message.rs): the keywords of a summary row as one set, the difference that a sync sends,
    and its replay on a newer listing.

    [str::to_lowercase] folds Unicode case.  It is an argument here, and what the code relies
    on is its documented behaviour on ASCII text, where it is [to_ascii_lowercase]. *)

From Stdlib Require Import Ascii String.
From stdpp Require Import prelude strings.
From S2P Require Import Prelude BTree Strings Json Patch.

(** ** The keywords with a flag of their own (jmap-proto/src/mail.rs) *)
Definition SEEN : text := lit "$seen".
Definition DRAFT : text := lit "$draft".
Definition FLAGGED : text := lit "$flagged".
Definition ANSWERED : text := lit "$answered".
Definition FORWARDED : text := lit "$forwarded".
Definition JUNK : text := lit "$junk".
Definition NOT_JUNK : text := lit "$notjunk".

(** The flags word of a summary row (message.rs). *)
Record MessageFlags := {
  fl_seen : bool;
  fl_answered : bool;
  fl_flagged : bool;
  fl_draft : bool;
  fl_forwarded : bool;
  fl_junk : bool;
  fl_not_junk : bool;
  fl_attachments : bool;
}.

Definition flags_default : MessageFlags :=
  {| fl_seen := false; fl_answered := false; fl_flagged := false; fl_draft := false;
     fl_forwarded := false; fl_junk := false; fl_not_junk := false; fl_attachments := false |}.

(** The match of a folded keyword on the flag it sets; [None] for a label. *)
Definition set_flag (folded : text) (f : MessageFlags) : option MessageFlags :=
  let '(Build_MessageFlags seen answered flagged draft forwarded junk not_junk attachments) := f in
  if decide (folded = SEEN) then
    Some (Build_MessageFlags true answered flagged draft forwarded junk not_junk attachments)
  else if decide (folded = ANSWERED) then
    Some (Build_MessageFlags seen true flagged draft forwarded junk not_junk attachments)
  else if decide (folded = FLAGGED) then
    Some (Build_MessageFlags seen answered true draft forwarded junk not_junk attachments)
  else if decide (folded = DRAFT) then
    Some (Build_MessageFlags seen answered flagged true forwarded junk not_junk attachments)
  else if decide (folded = FORWARDED) then
    Some (Build_MessageFlags seen answered flagged draft true junk not_junk attachments)
  else if decide (folded = JUNK) then
    Some (Build_MessageFlags seen answered flagged draft forwarded true not_junk attachments)
  else if decide (folded = NOT_JUNK) then
    Some (Build_MessageFlags seen answered flagged draft forwarded junk true attachments)
  else None.

(** The flag bits with their keywords, in the order of [Keywords::new]. *)
Definition flag_keywords (f : MessageFlags) : list (bool * text) :=
  [(fl_seen f, SEEN); (fl_answered f, ANSWERED); (fl_flagged f, FLAGGED); (fl_draft f, DRAFT);
   (fl_forwarded f, FORWARDED); (fl_junk f, JUNK); (fl_not_junk f, NOT_JUNK)].

Definition FLAG_KEYWORDS : list text :=
  [SEEN; ANSWERED; FLAGGED; DRAFT; FORWARDED; JUNK; NOT_JUNK].

Definition EXCLUSIVE_PAIRS : list (text * text) := [(JUNK, NOT_JUNK)].

Definition KEYWORDS : text := lit "keywords".

(** A keyword set: the folded name, and the spelling that came first. *)
Abbreviation Keywords := (btmap text text) (only parsing).

(** What to add, spelled as the row does, and what to remove, spelled as the server does. *)
Record KeywordChange := { kc_set : list text; kc_cleared : list text }.

Section keywords.
Variable lowercase : text -> text.

Definition kw_insert (keywords : Keywords) (name : text) : Keywords :=
  match bt_get (lowercase name) keywords with
  | Some _ => keywords
  | None => bt_insert (lowercase name) name keywords
  end.

Definition keywords_new (flags : MessageFlags) (tags : list text) : Keywords :=
  fold_left kw_insert tags
    (fold_left (fun keywords e => if (e.1 : bool) then kw_insert keywords e.2 else keywords)
       (flag_keywords flags) []).

Definition split_step (acc : MessageFlags * list text) (e : text * text) : MessageFlags * list text :=
  match set_flag e.1 acc.1 with
  | Some flags => (flags, acc.2)
  | None => (acc.1, acc.2 ++ [e.2])
  end.

Definition keywords_split (keywords : Keywords) : MessageFlags * list text :=
  fold_left split_step keywords (flags_default, []).

Definition keywords_iter (keywords : Keywords) : list text := keywords.*2.
Definition keywords_is_empty (keywords : Keywords) : bool := bool_decide (keywords = []).
Definition keywords_len (keywords : Keywords) : nat := length keywords.

(** [FromIterator]. *)
Definition keywords_from (names : list text) : Keywords := fold_left kw_insert names [].

Definition drop_partner (folded : text) (keywords : Keywords) (pair : text * text) : Keywords :=
  if decide (folded = pair.1) then bt_remove pair.2 keywords
  else if decide (folded = pair.2) then bt_remove pair.1 keywords
  else keywords.

Definition patch_set (keywords : Keywords) (name : text) : Keywords :=
  fold_left (drop_partner (lowercase name)) EXCLUSIVE_PAIRS (kw_insert keywords name).

Definition keywords_patched (keywords : Keywords) (change : KeywordChange) : Keywords :=
  fold_left patch_set (kc_set change)
    (fold_left (fun keywords name => bt_remove (lowercase name) keywords) (kc_cleared change) keywords).

Definition between (before after : Keywords) : KeywordChange :=
  {| kc_set := (filter (fun e => bt_contains e.1 before = false) after).*2;
     kc_cleared := (filter (fun e => bt_contains e.1 after = false) before).*2 |}.

Definition change_is_empty (change : KeywordChange) : bool :=
  bool_decide (kc_set change = []) && bool_decide (kc_cleared change = []).

Definition change_patch (change : KeywordChange) : btmap text Value :=
  fold_left (fun patch name => bt_insert (member KEYWORDS name) Null patch) (kc_cleared change)
    (fold_left (fun patch name => bt_insert (member KEYWORDS name) (Bool true) patch) (kc_set change) []).

(** ** The invariant: ordered, and every key is the folded form of its spelling *)
Definition kw_ok (keywords : Keywords) : Prop :=
  bt_ok keywords /\ forall k name, bt_get k keywords = Some name -> k = lowercase name.

Lemma kw_insert_get keywords name k :
  bt_get k (kw_insert keywords name) =
  match bt_get k keywords with
  | Some s => Some s
  | None => if decide (lowercase name = k) then Some name else None
  end.
Proof.
  unfold kw_insert. destruct (bt_get (lowercase name) keywords) eqn:E.
  - destruct (bt_get k keywords) eqn:E'; [done|]. rewrite decide_False; [done|]. intros <-. congruence.
  - rewrite bt_get_insert. destruct (decide (lowercase name = k)) as [<-|]; [by rewrite E|]. by destruct (bt_get k keywords).
Qed.

Lemma kw_insert_ok keywords name : kw_ok keywords -> kw_ok (kw_insert keywords name).
Proof.
  intros [Hok Hk]. split.
  - unfold kw_insert. case_match; [done|by apply bt_insert_ok].
  - intros k s. rewrite kw_insert_get. destruct (bt_get k keywords) eqn:E; [intros [= <-]; auto|].
    case_decide; [by intros [= <-]|done].
Qed.

Lemma bt_remove_kw_ok keywords k : kw_ok keywords -> kw_ok (bt_remove k keywords).
Proof.
  intros [Hok Hk]. split; [by apply bt_remove_ok|]. intros k' s. rewrite bt_get_remove. case_decide; [done|auto].
Qed.

Lemma fold_kw_ok {A} (f : Keywords -> A -> Keywords) (l : list A) keywords :
  (forall keywords a, kw_ok keywords -> kw_ok (f keywords a)) -> kw_ok keywords -> kw_ok (fold_left f l keywords).
Proof. intros Hf. revert keywords. induction l as [|a l IH]; intros keywords Hk; [done|]. apply IH, Hf, Hk. Qed.

Lemma kw_ok_nil : kw_ok [].
Proof. split; [apply bt_ok_nil|done]. Qed.

Lemma keywords_from_ok names : kw_ok (keywords_from names).
Proof. apply fold_kw_ok; [intros; by apply kw_insert_ok|apply kw_ok_nil]. Qed.

Lemma keywords_new_ok flags tags : kw_ok (keywords_new flags tags).
Proof.
  apply fold_kw_ok; [intros; by apply kw_insert_ok|]. apply fold_kw_ok; [|apply kw_ok_nil].
  intros k [[] n] Hk; [by apply kw_insert_ok|done].
Qed.

Lemma patch_set_ok keywords name : kw_ok keywords -> kw_ok (patch_set keywords name).
Proof.
  intros Hk. apply fold_kw_ok; [|by apply kw_insert_ok]. intros m p Hm. unfold drop_partner.
  repeat case_decide; [by apply bt_remove_kw_ok..|done].
Qed.

Lemma keywords_patched_ok keywords change : kw_ok keywords -> kw_ok (keywords_patched keywords change).
Proof.
  intros Hk. apply fold_kw_ok; [intros; by apply patch_set_ok|].
  apply fold_kw_ok; [intros; by apply bt_remove_kw_ok|done].
Qed.

(** ** Lookups in the loops *)
Definition spelled (k : text) (names : list text) : option text := find (fun name => bool_decide (lowercase name = k)) names.

Lemma kw_inserts_get names keywords k :
  bt_get k (fold_left kw_insert names keywords) =
  match bt_get k keywords with Some s => Some s | None => spelled k names end.
Proof.
  revert keywords. induction names as [|name names IH]; intros keywords; cbn [fold_left]; [by case_match|].
  rewrite IH, kw_insert_get. destruct (bt_get k keywords); [done|]. unfold spelled at 2. cbn [find].
  case_bool_decide; [by rewrite decide_True|by rewrite decide_False].
Qed.

Lemma cleared_get names (keywords : Keywords) k :
  bt_get k (fold_left (fun keywords name => bt_remove (lowercase name) keywords) names keywords) =
  if decide (k ∈ lowercase <$> names) then None else bt_get k keywords.
Proof.
  revert keywords. induction names as [|name names IH]; intros keywords; cbn [fold_left]; [by rewrite decide_False by apply not_elem_of_nil|].
  rewrite IH, bt_get_remove, fmap_cons. destruct (decide (k ∈ lowercase <$> names)) as [Hin|Hnin].
  - by rewrite decide_True by (by right).
  - destruct (decide (lowercase name = k)) as [<-|Hne]; [by rewrite decide_True by left|].
    rewrite decide_False; [done|]. intros [?|?]%elem_of_cons; congruence.
Qed.

Lemma patch_set_get keywords name k :
  k <> JUNK -> k <> NOT_JUNK -> bt_get k (patch_set keywords name) = bt_get k (kw_insert keywords name).
Proof.
  intros Hj Hn. unfold patch_set. cbn [fold_left EXCLUSIVE_PAIRS]. unfold drop_partner. cbn [fst snd].
  repeat case_decide; [rewrite bt_get_remove, decide_False by congruence..|]; done.
Qed.

Lemma patch_sets_get names keywords k :
  k <> JUNK -> k <> NOT_JUNK ->
  bt_get k (fold_left patch_set names keywords) =
  match bt_get k keywords with Some s => Some s | None => spelled k names end.
Proof.
  intros Hj Hn. rewrite <- kw_inserts_get.
  assert (forall m1 m2 : Keywords, bt_get k m1 = bt_get k m2 ->
    bt_get k (fold_left patch_set names m1) = bt_get k (fold_left kw_insert names m2)) as H; [|by apply H].
  induction names as [|name names IH]; intros m1 m2 Hm; [done|]. cbn [fold_left]. apply IH.
  by rewrite patch_set_get, !kw_insert_get, Hm by done.
Qed.

(** ** The change between two sets *)
Lemma spelled_values (m : Keywords) (P : text * text -> Prop) `{!forall e, Decision (P e)} k :
  kw_ok m ->
  spelled k (filter P m).*2 =
  match bt_get k m with Some name => if decide (P (k, name)) then Some name else None | None => None end.
Proof.
  intros [Hok Hk].
  assert (forall e, e ∈ m -> e.1 = lowercase e.2) as He by (intros [k' s] Hin%bt_elem_get; eauto).
  apply bt_ok_nodup in Hok. clear Hk. unfold spelled. induction m as [|[k1 s1] m IH]; [done|].
  rewrite filter_cons. rewrite fmap_cons in Hok. apply NoDup_cons in Hok as [Hn Hm].
  pose proof (He _ ltac:(left)) as H1. cbn [fst snd] in *.
  assert (forall e, e ∈ m -> e.1 = lowercase e.2) as He' by (intros; apply He; by right).
  specialize (IH Hm He'). cbn [bt_get]. destruct (decide (k = k1)) as [->|Hne].
  - assert (bt_get k1 m = None) as E by (by apply bt_get_None_elem). rewrite E in IH.
    destruct (decide (P (k1, s1))); [|done]. cbn [fmap list_fmap find snd].
    by rewrite bool_decide_eq_true_2.
  - destruct (decide (P (k1, s1))); [|done]. cbn [fmap list_fmap find snd].
    rewrite bool_decide_eq_false_2 by congruence. exact IH.
Qed.

Lemma elem_of_folded (m : Keywords) (P : text * text -> Prop) `{!forall e, Decision (P e)} k :
  kw_ok m -> k ∈ lowercase <$> (filter P m).*2 <-> exists name, bt_get k m = Some name /\ P (k, name).
Proof.
  intros Hm. split.
  - intros (name&->&([k' s]&->&[Hp Hin]%list_elem_of_filter)%list_elem_of_fmap)%list_elem_of_fmap.
    destruct Hm as [Hok Hk]. apply bt_elem_get in Hin; [|done]. pose proof (Hk _ _ Hin). cbn [snd]. subst k'. eauto.
  - intros (name&Hget&Hp). pose proof (proj2 Hm _ _ Hget) as ->. apply list_elem_of_fmap. exists name. split; [done|].
    apply list_elem_of_fmap. eexists (_, name). split; [done|]. apply list_elem_of_filter. split; [done|].
    by apply bt_get_Some_elem.
Qed.

Lemma spelled_set before after k :
  kw_ok after ->
  spelled k (kc_set (between before after)) = match bt_get k before with None => bt_get k after | Some _ => None end.
Proof.
  intros Ha. unfold between. cbn [kc_set]. rewrite spelled_values by done.
  destruct (bt_get k after) as [name|], (bt_get k before) eqn:E; try done; cbn [fst].
  - rewrite decide_False; [done|]. by rewrite bt_contains_false, E.
  - by rewrite decide_True by (by rewrite bt_contains_false).
Qed.

Lemma folded_set before after k :
  kw_ok after -> k ∈ lowercase <$> kc_set (between before after) <-> bt_get k before = None /\ is_Some (bt_get k after).
Proof.
  intros Ha. unfold between. cbn [kc_set]. rewrite elem_of_folded by done. cbn [fst]. setoid_rewrite bt_contains_false.
  unfold is_Some. naive_solver.
Qed.

Lemma folded_cleared before after k :
  kw_ok before -> k ∈ lowercase <$> kc_cleared (between before after) <-> is_Some (bt_get k before) /\ bt_get k after = None.
Proof.
  intros Hb. unfold between. cbn [kc_cleared]. rewrite elem_of_folded by done. cbn [fst]. setoid_rewrite bt_contains_false.
  unfold is_Some. naive_solver.
Qed.

(** ** The exclusive pair *)
Definition partners (a b : text) : Prop := (a = JUNK /\ b = NOT_JUNK) \/ (a = NOT_JUNK /\ b = JUNK).

Lemma partners_ne a b : partners a b -> a <> b.
Proof. intros [[-> ->]|[-> ->]]; by vm_compute. Qed.

Lemma patch_set_partner keywords name a b :
  partners a b ->
  bt_get a (patch_set keywords name) = if decide (lowercase name = b) then None else bt_get a (kw_insert keywords name).
Proof.
  intros Hab. unfold patch_set. cbn [fold_left EXCLUSIVE_PAIRS]. unfold drop_partner. cbn [fst snd].
  assert (JUNK <> NOT_JUNK) as Hne by (by vm_compute).
  destruct Hab as [[-> ->]|[-> ->]], (decide (lowercase name = JUNK)) as [E|E].
  - rewrite bt_get_remove, !decide_False by congruence. done.
  - destruct (decide (lowercase name = NOT_JUNK)); [by rewrite bt_get_remove, decide_True|done].
  - by rewrite bt_get_remove, decide_True.
  - destruct (decide (lowercase name = NOT_JUNK)); [|done]. by rewrite bt_get_remove, decide_False by congruence.
Qed.

(** Both keywords of the pair survive only if no name of the change is one of them. *)
Lemma patch_sets_both names keywords a b :
  partners a b -> is_Some (bt_get a (fold_left patch_set names keywords)) ->
  is_Some (bt_get b (fold_left patch_set names keywords)) ->
  is_Some (bt_get a keywords) /\ is_Some (bt_get b keywords) /\
  (a ∉ lowercase <$> names) /\ (b ∉ lowercase <$> names).
Proof.
  intros Hab. assert (partners b a) as Hba by (destruct Hab; [right|left]; naive_solver).
  induction names as [|name names IH] using rev_ind; cbn [fold_left fmap list_fmap].
  { intros Ha Hb. split_and!; [done..|apply not_elem_of_nil|apply not_elem_of_nil]. }
  rewrite fold_left_app, fmap_app. cbn [fold_left fmap list_fmap].
  rewrite (patch_set_partner _ _ a b), (patch_set_partner _ _ b a), !kw_insert_get by done.
  destruct (decide (lowercase name = b)); [by intros [? ?]|]. destruct (decide (lowercase name = a)); [by intros _ [? ?]|].
  intros Ha Hb. destruct IH as (?&?&?&?); [by destruct (bt_get a _)|by destruct (bt_get b _)|].
  split_and!; [done..| |]; rewrite elem_of_app, list_elem_of_singleton; naive_solver.
Qed.

(** A change that adds one of the pair and not the other leaves exactly that one. *)
Lemma patch_sets_one names keywords a b :
  partners a b -> a ∈ lowercase <$> names -> b ∉ lowercase <$> names ->
  is_Some (bt_get a (fold_left patch_set names keywords)) /\ bt_get b (fold_left patch_set names keywords) = None.
Proof.
  intros Hab. assert (partners b a) as Hba by (destruct Hab; [right|left]; naive_solver).
  pose proof (partners_ne a b Hab) as Hne.
  induction names as [|name names IH] using rev_ind; [by intros ?%elem_of_nil|].
  rewrite fold_left_app, fmap_app, !elem_of_app. cbn [fold_left fmap list_fmap]. rewrite !list_elem_of_singleton. intros Ha Hb.
  rewrite (patch_set_partner _ _ a b), (patch_set_partner _ _ b a), !kw_insert_get, (decide_False (P := lowercase name = b)) by naive_solver.
  destruct (decide (lowercase name = a)) as [Hn|Hn].
  - split; [|done]. destruct (bt_get a _); eauto.
  - destruct IH as [[s Hs] Hbn]; [naive_solver..|]. rewrite Hs, Hbn. rewrite decide_False by naive_solver. eauto.
Qed.

(** Replaying a row's change on a newer listing is the three-way merge of the two: a
    keyword that the row added is in the result (with the listing's spelling if it has one), one
    that the row removed is not, and any other keyword is as in the listing.  Of $junk and
    $notjunk the result holds both only when the listing did and the row changed neither,
    and one that the row added clears the other. *)
Theorem keywords_replay base row server :
  kw_ok base -> kw_ok row -> kw_ok server ->
  let result := keywords_patched server (between base row) in
  kw_ok result /\
  (forall k, k <> JUNK -> k <> NOT_JUNK ->
    bt_get k result =
    match bt_get k base, bt_get k row with
    | None, Some name => Some (default name (bt_get k server))
    | Some _, None => None
    | _, _ => bt_get k server
    end) /\
  (is_Some (bt_get JUNK result) -> is_Some (bt_get NOT_JUNK result) ->
    is_Some (bt_get JUNK server) /\ is_Some (bt_get NOT_JUNK server) /\
    (forall k, k ∈ [JUNK; NOT_JUNK] -> is_Some (bt_get k base) <-> is_Some (bt_get k row))) /\
  (forall a b, partners a b -> bt_get a base = None -> is_Some (bt_get a row) ->
    is_Some (bt_get b base) \/ bt_get b row = None ->
    is_Some (bt_get a result) /\ bt_get b result = None).
Proof.
  intros Hb Hr Hs result. split; [by apply keywords_patched_ok|]. unfold result, keywords_patched.
  set (rest := fold_left _ (kc_cleared _) server).
  assert (forall k, bt_get k rest = if decide (is_Some (bt_get k base) /\ bt_get k row = None) then None else bt_get k server) as Hrest.
  { intros k. unfold rest. rewrite cleared_get. apply decide_ext, folded_cleared, Hb. }
  split_and!.
  - intros k Hj Hn. rewrite patch_sets_get, spelled_set, Hrest by done.
    destruct (bt_get k base) as [s|] eqn:Eb, (bt_get k row) as [name|] eqn:Er.
    + rewrite decide_False by naive_solver. by destruct (bt_get k server).
    + by rewrite decide_True by eauto.
    + rewrite decide_False by naive_solver. by destruct (bt_get k server).
    + rewrite decide_False by (intros [[? ?] _]; done). by destruct (bt_get k server).
  - intros H1 H2. edestruct (patch_sets_both (kc_set (between base row)) rest JUNK NOT_JUNK) as (Ha&Hb'&Hja&Hna);
      [by left|exact H1|exact H2|].
    rewrite folded_set in Hja, Hna by done. rewrite Hrest in Ha, Hb'.
    destruct (decide (is_Some (bt_get JUNK base) /\ _)) as [|Hc1] in Ha; [by destruct Ha|].
    destruct (decide (is_Some (bt_get NOT_JUNK base) /\ _)) as [|Hc2] in Hb'; [by destruct Hb'|].
    split_and!; [done..|].
    intros k [->|[->|[]%elem_of_nil]%elem_of_cons]%elem_of_cons;
      [destruct (bt_get JUNK base), (bt_get JUNK row)|destruct (bt_get NOT_JUNK base), (bt_get NOT_JUNK row)]; naive_solver eauto.
  - intros a b Hab Ha Har Hbr. apply patch_sets_one; [done| |]; rewrite folded_set by done; [done|].
    intros [Hbb [? ?]]. destruct Hbr as [[? ?]|?]; congruence.
Qed.

(** ** The change at the server *)
Definition change_entries (change : KeywordChange) : list (text * Value) :=
  ((fun name => (name, Bool true)) <$> kc_set change) ++ ((fun name => (name, Null)) <$> kc_cleared change).

Lemma change_patch_members change : change_patch change = member_patch KEYWORDS (change_entries change).
Proof.
  unfold change_patch, member_patch, change_entries. rewrite fold_left_app.
  assert (forall v names (patch : btmap text Value),
    fold_left (fun patch (e : text * Value) => bt_insert (member KEYWORDS e.1) e.2 patch) ((fun name => (name, v)) <$> names) patch =
    fold_left (fun patch name => bt_insert (member KEYWORDS name) v patch) names patch) as H.
  { intros v. induction names as [|name names IH]; intros patch; [done|]. rewrite fmap_cons. cbn [fold_left fst snd]. apply IH. }
  by rewrite !H.
Qed.

Lemma filter_values_nodup (m : Keywords) (P : text * text -> Prop) `{!forall e, Decision (P e)} :
  kw_ok m -> NoDup (lowercase <$> (filter P m).*2).
Proof.
  intros [Hok Hk]. assert (lowercase <$> (filter P m).*2 = (filter P m).*1) as ->.
  { rewrite <- list_fmap_compose. apply list_fmap_ext. intros i [k s] Hi%list_elem_of_lookup_2.
    apply list_elem_of_filter in Hi as [_ Hi]. apply bt_elem_get in Hi; [|done]. symmetry. by apply Hk. }
  apply bt_ok_nodup. by apply bt_filter_ok.
Qed.

Lemma change_entries_nodup before after :
  kw_ok before -> kw_ok after -> NoDup (change_entries (between before after)).*1.
Proof.
  intros Hb Ha. unfold change_entries. rewrite fmap_app, <- !list_fmap_compose.
  change (NoDup ((id <$> kc_set (between before after)) ++ (id <$> kc_cleared (between before after)))).
  rewrite !list_fmap_id. apply (NoDup_fmap_1 lowercase). rewrite fmap_app. apply NoDup_app. split_and!.
  - by apply filter_values_nodup.
  - intros k Hset Hcl. rewrite folded_set in Hset by done. rewrite folded_cleared in Hcl by done.
    destruct Hset as [? _], Hcl as [[? ?] _]. congruence.
  - by apply filter_values_nodup.
Qed.

Lemma change_entries_get change name :
  NoDup (change_entries change).*1 ->
  bt_get name (change_entries change) =
  if decide (name ∈ kc_set change) then Some (Bool true)
  else if decide (name ∈ kc_cleared change) then Some Null else None.
Proof.
  intros Hn. repeat case_decide.
  - apply nodup_bt_get; [done|]. unfold change_entries. apply elem_of_app. left. by apply list_elem_of_fmap; eauto.
  - apply nodup_bt_get; [done|]. unfold change_entries. apply elem_of_app. right. by apply list_elem_of_fmap; eauto.
  - apply bt_get_None_elem. unfold change_entries. rewrite fmap_app, elem_of_app, <- !list_fmap_compose.
    intros [(n&->&?)%list_elem_of_fmap|(n&->&?)%list_elem_of_fmap]; done.
Qed.

Lemma elem_of_set before after name :
  kw_ok after -> name ∈ kc_set (between before after) <->
    bt_get (lowercase name) after = Some name /\ bt_get (lowercase name) before = None.
Proof.
  intros [Hok Hk]. unfold between. cbn [kc_set]. rewrite list_elem_of_fmap. split.
  - intros ([k s]&->&[Hp%bt_contains_false Hin]%list_elem_of_filter). apply bt_elem_get in Hin; [|done].
    cbn [fst snd] in *. by rewrite <- (Hk _ _ Hin).
  - intros [Hget Hn]. exists (lowercase name, name). split; [done|]. apply list_elem_of_filter.
    split; [by apply bt_contains_false|]. by apply bt_get_Some_elem.
Qed.

Lemma elem_of_cleared before after name :
  kw_ok before -> name ∈ kc_cleared (between before after) <->
    bt_get (lowercase name) before = Some name /\ bt_get (lowercase name) after = None.
Proof. intros Hb. by apply (elem_of_set after before name). Qed.

(** The names of a keywords object that are set, in any spelling of [k]. *)
Definition holds_keyword (members : btmap text Value) (k : text) : Prop :=
  exists name, lowercase name = k /\ bt_get name members = Some (Bool true).

(** The listing [base] is what the keywords object holds now. *)
Definition lists (base : Keywords) (members : btmap text Value) : Prop :=
  forall name, bt_get name members = Some (Bool true) <-> bt_get (lowercase name) base = Some name.

(** The patch of a change is accepted by a server whose keywords property is absent or
    an object.  It sets the added names, removes the removed names, and leaves every other
    keyword and every other property of the message; and if the server still holds what the
    row's base listed, it then holds exactly the row's keywords. *)
Theorem keywords_patch_server base row m members :
  kw_ok base -> kw_ok row -> members_of KEYWORDS m = Some members ->
  exists m' members', apply_patch (Object m) (change_patch (between base row)) = (Object m', Ok tt) /\
    members_of KEYWORDS m' = Some members' /\
    (forall name, bt_get name members' =
       if decide (name ∈ kc_set (between base row)) then Some (Bool true)
       else if decide (name ∈ kc_cleared (between base row)) then None else bt_get name members) /\
    (forall k, k <> KEYWORDS -> bt_get k m' = bt_get k m) /\
    (lists base members -> forall k, holds_keyword members' k <-> is_Some (bt_get k row)).
Proof.
  intros Hb Hr Hm. pose proof (change_entries_nodup base row Hb Hr) as Hn.
  destruct (apply_member_patch KEYWORDS ltac:(by_decide) ltac:(by_decide) m members _ Hm Hn) as (m'&members'&Ha&Hm'&Hget&Hk&_).
  assert (forall name, bt_get name members' =
       if decide (name ∈ kc_set (between base row)) then Some (Bool true)
       else if decide (name ∈ kc_cleared (between base row)) then None else bt_get name members) as Hget'.
  { intros name. rewrite Hget, change_entries_get by done. by repeat case_decide. }
  exists m', members'. rewrite change_patch_members. split_and!; [done..|].
  intros Hl k. unfold holds_keyword. split.
  - intros (name&<-&Hname). rewrite Hget' in Hname. case_decide as Hs; [by apply elem_of_set in Hs as [-> _]; eauto|].
    case_decide as Hc; [done|]. apply Hl in Hname. destruct (bt_get (lowercase name) row) eqn:E; [by eauto|].
    destruct Hc. by apply elem_of_cleared.
  - intros [name Hname]. pose proof (proj2 Hr _ _ Hname) as ->. destruct (bt_get (lowercase name) base) as [s|] eqn:E.
    + pose proof (proj2 Hb _ _ E) as Es. exists s. split; [done|]. rewrite Hget', (decide_False (P := s ∈ kc_set _)), decide_False.
      * apply Hl. by rewrite <- Es.
      * rewrite elem_of_cleared, <- Es by done. intros [_ ?]. congruence.
      * rewrite elem_of_set, <- Es by done. intros [_ ?]. congruence.
    + exists name. split; [done|]. rewrite Hget', decide_True; [done|]. by apply elem_of_set.
Qed.

(** ** The two columns of a row *)
Lemma set_flag_None folded f : set_flag folded f = None <-> folded ∉ FLAG_KEYWORDS.
Proof.
  destruct f. unfold set_flag, FLAG_KEYWORDS. rewrite !not_elem_of_cons.
  repeat case_decide; split; try done; try (intros; tauto). intros _. split_and!; [done..|apply not_elem_of_nil].
Qed.

(** The flag bits that the keys of a set give, added to those of [f]. *)
Definition with_keys (keys : list text) (f : MessageFlags) : MessageFlags :=
  let has k := bool_decide (k ∈ keys) in
  {| fl_seen := fl_seen f || has SEEN; fl_answered := fl_answered f || has ANSWERED;
     fl_flagged := fl_flagged f || has FLAGGED; fl_draft := fl_draft f || has DRAFT;
     fl_forwarded := fl_forwarded f || has FORWARDED; fl_junk := fl_junk f || has JUNK;
     fl_not_junk := fl_not_junk f || has NOT_JUNK; fl_attachments := fl_attachments f |}.

Lemma bool_decide_elem_cons (k k' : text) keys : bool_decide (k ∈ k' :: keys) = bool_decide (k = k') || bool_decide (k ∈ keys).
Proof. repeat case_bool_decide; try done; set_solver. Qed.

(** Decides the equality of two closed texts. *)
Ltac closed_tests := repeat match goal with
  | |- context [bool_decide (?a = ?b)] =>
        let v := eval vm_compute in (bool_decide (a = b)) in
        replace (bool_decide (a = b)) with v by (by vm_compute)
  end.

Lemma with_keys_cons k keys f : with_keys (k :: keys) f = with_keys keys (default f (set_flag k f)).
Proof.
  unfold with_keys. rewrite !bool_decide_elem_cons. destruct f. unfold set_flag.
  repeat (case_decide; [subst k; closed_tests; cbn [default orb fl_seen fl_answered fl_flagged fl_draft fl_forwarded fl_junk fl_not_junk];
    by rewrite ?orb_true_r|]).
  cbn [default]. by rewrite !(bool_decide_eq_false_2 (_ = k)) by congruence.
Qed.

Lemma split_steps (m : Keywords) f tags :
  fold_left split_step m (f, tags) = (with_keys m.*1 f, tags ++ (filter (fun e => e.1 ∉ FLAG_KEYWORDS) m).*2).
Proof.
  revert f tags. induction m as [|[k s] m IH]; intros f tags.
  { cbn. rewrite app_nil_r. f_equal. destruct f. unfold with_keys. by rewrite !bool_decide_eq_false_2, !orb_false_r by apply not_elem_of_nil. }
  cbn [fold_left]. rewrite fmap_cons, with_keys_cons, filter_cons. unfold split_step at 2. cbn [fst snd].
  destruct (set_flag k f) as [f'|] eqn:E; rewrite IH; cbn [default].
  - rewrite decide_False; [done|]. rewrite <- (set_flag_None k f). congruence.
  - rewrite decide_True by (by apply (set_flag_None k f)). rewrite fmap_cons, <- app_assoc. done.
Qed.

Lemma flags_loop l (m : Keywords) :
  fold_left (fun keywords e => if (e.1 : bool) then kw_insert keywords e.2 else keywords) l m =
  fold_left kw_insert (filter (fun e => e.1 = true) l).*2 m.
Proof.
  revert m. induction l as [|[b n] l IH]; intros m; [done|]. cbn [fold_left fst snd]. rewrite filter_cons. cbn [fst].
  destruct b; cbn [decide]; [rewrite decide_True by done; rewrite fmap_cons; apply IH|rewrite decide_False by done; apply IH].
Qed.

(** The names that the flag bits insert. *)
Definition flag_names (flags : MessageFlags) : list text := (filter (fun e => e.1 = true) (flag_keywords flags)).*2.

Lemma keywords_new_get flags tags k :
  bt_get k (keywords_new flags tags) = spelled k (flag_names flags ++ tags).
Proof. unfold keywords_new. rewrite flags_loop, <- fold_left_app, kw_inserts_get. done. Qed.

Lemma spelled_Some k names name : spelled k names = Some name -> name ∈ names /\ lowercase name = k.
Proof.
  unfold spelled. intros [Hin Hk]%find_some. split; [by apply list_elem_of_In|by apply bool_decide_eq_true in Hk].
Qed.

Lemma spelled_app k l1 l2 :
  k ∉ lowercase <$> l1 -> spelled k (l1 ++ l2) = spelled k l2.
Proof.
  unfold spelled. induction l1 as [|n l1 IH]; [done|]. rewrite fmap_cons, not_elem_of_cons. intros [Hn Hl]. cbn [app find].
  rewrite bool_decide_eq_false_2 by congruence. by apply IH.
Qed.

Lemma spelled_elem names name : NoDup (lowercase <$> names) -> name ∈ names -> spelled (lowercase name) names = Some name.
Proof.
  unfold spelled. induction names as [|n names IH]; [by intros _ ?%elem_of_nil|]. rewrite fmap_cons. intros [Hn Hl]%NoDup_cons.
  intros [->|Hin]%elem_of_cons; cbn [find]; [by rewrite bool_decide_eq_true_2|].
  rewrite bool_decide_eq_false_2; [by apply IH|]. intros E. apply Hn. rewrite E. by apply list_elem_of_fmap_2.
Qed.

Lemma is_Some_spelled k names : is_Some (spelled k names) <-> k ∈ lowercase <$> names.
Proof.
  split; [by intros [n [? <-]%spelled_Some]; apply list_elem_of_fmap_2|].
  intros (n&->&Hin)%list_elem_of_fmap. unfold spelled. destruct (find _ names) eqn:E; [by eauto|].
  apply list_elem_of_In in Hin. eapply find_none in E; [|exact Hin]. by rewrite bool_decide_eq_false in E.
Qed.

Hypothesis lowercase_ascii : forall t, forallb is_ascii t = true -> lowercase t = to_ascii_lowercase t.

Lemma flag_keyword_folded k : k ∈ FLAG_KEYWORDS -> lowercase k = k.
Proof using lowercase_ascii.
  intros Hk. assert (forallb is_ascii k = true /\ to_ascii_lowercase k = k) as [Ha Hl].
  { unfold FLAG_KEYWORDS in Hk. rewrite !elem_of_cons, elem_of_nil in Hk.
    by destruct Hk as [->|[->|[->|[->|[->|[->|[->|[]]]]]]]]. }
  by rewrite lowercase_ascii.
Qed.

Lemma elem_of_flag_names flags e : e ∈ flag_keywords flags -> e.2 ∈ flag_names flags <-> e.1 = true.
Proof.
  intros He. unfold flag_names. rewrite list_elem_of_fmap. split.
  - intros (e'&E&[Ht He']%list_elem_of_filter).
    assert (NoDup (flag_keywords flags).*2) as Hn by (change (NoDup FLAG_KEYWORDS); by_decide).
    by rewrite (nodup_fmap_eq snd _ e e' Hn He He' E).
  - intros Ht. exists e. split; [done|]. by apply list_elem_of_filter.
Qed.

Lemma flag_names_folded flags : lowercase <$> flag_names flags = flag_names flags.
Proof using lowercase_ascii.
  rewrite <- (list_fmap_id (flag_names flags)) at 2. apply list_fmap_ext. intros i k Hk%list_elem_of_lookup_2.
  apply flag_keyword_folded. apply list_elem_of_fmap in Hk as (e&->&[_ He]%list_elem_of_filter).
  exact (list_elem_of_fmap_2 snd (flag_keywords flags) e He).
Qed.

Lemma keywords_new_key flags tags k :
  k ∈ (keywords_new flags tags).*1 <-> k ∈ flag_names flags \/ k ∈ lowercase <$> tags.
Proof using lowercase_ascii.
  by rewrite bt_key_get, keywords_new_get, is_Some_spelled, fmap_app, elem_of_app, flag_names_folded.
Qed.

Lemma flag_names_keys keys k :
  k ∈ flag_names (with_keys keys flags_default) <-> k ∈ FLAG_KEYWORDS /\ k ∈ keys.
Proof.
  unfold flag_names. change (flag_keywords _) with ((fun k => (bool_decide (k ∈ keys), k)) <$> FLAG_KEYWORDS).
  rewrite list_elem_of_fmap. split.
  - intros (e&->&[He (k'&->&Hk')%list_elem_of_fmap]%list_elem_of_filter). by apply bool_decide_eq_true in He.
  - intros [Hf Hk]. exists (bool_decide (k ∈ keys), k). split; [done|]. apply list_elem_of_filter.
    split; [by apply bool_decide_eq_true|]. apply list_elem_of_fmap. by exists k.
Qed.

Definition without_attachments (f : MessageFlags) : MessageFlags :=
  let '(Build_MessageFlags seen answered flagged draft forwarded junk not_junk _) := f in
  Build_MessageFlags seen answered flagged draft forwarded junk not_junk false.

Lemma split_new_flags flags tags :
  (forall k, k ∈ FLAG_KEYWORDS -> k ∉ lowercase <$> tags) ->
  with_keys (keywords_new flags tags).*1 flags_default = without_attachments flags.
Proof using lowercase_ascii.
  intros Ht.
  assert (forall e, e ∈ flag_keywords flags -> bool_decide (e.2 ∈ (keywords_new flags tags).*1) = e.1) as He.
  { intros e He. assert (e.2 ∉ lowercase <$> tags) as Hn
      by exact (Ht _ (list_elem_of_fmap_2 snd (flag_keywords flags) e He)).
    destruct e.1 eqn:E.
    - apply bool_decide_eq_true, keywords_new_key. left. by apply elem_of_flag_names.
    - apply bool_decide_eq_false. rewrite keywords_new_key, elem_of_flag_names by done. rewrite E. naive_solver. }
  revert He. generalize (keywords_new flags tags).*1. intros keys He. destruct flags as [b1 b2 b3 b4 b5 b6 b7 b8].
  unfold with_keys, without_attachments. cbn [orb flags_default fl_attachments fl_seen fl_answered fl_flagged fl_draft fl_forwarded fl_junk fl_not_junk].
  unfold flag_keywords in He. cbn in He. f_equal;
    [apply (He (_, SEEN))|apply (He (_, ANSWERED))|apply (He (_, FLAGGED))|apply (He (_, DRAFT))
    |apply (He (_, FORWARDED))|apply (He (_, JUNK))|apply (He (_, NOT_JUNK))]; rewrite !elem_of_cons; tauto.
Qed.

Lemma split_new_tags flags tags :
  NoDup (lowercase <$> tags) -> (forall k, k ∈ FLAG_KEYWORDS -> k ∉ lowercase <$> tags) ->
  (filter (fun e => e.1 ∉ FLAG_KEYWORDS) (keywords_new flags tags)).*2 ≡ₚ tags.
Proof using lowercase_ascii.
  intros Hn Ht. pose proof (keywords_new_ok flags tags) as Hok. apply NoDup_Permutation.
  - eapply NoDup_fmap_1, filter_values_nodup, Hok.
  - by eapply NoDup_fmap_1.
  - assert (forall k, k ∉ FLAG_KEYWORDS -> k ∉ flag_names flags) as Hf.
    { intros k Hk (e&->&[_ He]%list_elem_of_filter)%list_elem_of_fmap. apply Hk.
      exact (list_elem_of_fmap_2 snd (flag_keywords flags) e He). }
    intros s. rewrite list_elem_of_fmap. split.
    + intros ([k s']&->&[Hk Hin]%list_elem_of_filter). cbn [fst snd] in *. apply bt_elem_get in Hin; [|apply Hok].
      rewrite keywords_new_get in Hin. apply spelled_Some in Hin as [[Hin|Hin]%elem_of_app Hk']; [|done].
      subst k. destruct (Hf _ Hk). rewrite <- flag_names_folded. by apply list_elem_of_fmap_2.
    + intros Hin. exists (lowercase s, s). split; [done|].
      assert (lowercase s ∉ FLAG_KEYWORDS) as Hk by (intros Hk; apply (Ht _ Hk); by apply list_elem_of_fmap_2).
      apply list_elem_of_filter. split; [done|]. apply bt_get_Some_elem. rewrite keywords_new_get, spelled_app.
      * by apply spelled_elem.
      * rewrite flag_names_folded. by apply Hf.
Qed.

(** The keyword set of a row and the two columns of the row are the same data.  Splitting
    the set of a row gives its flags (but for the attachment bit, which is no keyword) and its
    labels; and making a set of the columns of any set keeps its keywords. *)
Theorem keywords_split_new :
  (forall flags tags, NoDup (lowercase <$> tags) -> (forall k, k ∈ FLAG_KEYWORDS -> k ∉ lowercase <$> tags) ->
    (keywords_split (keywords_new flags tags)).1 = without_attachments flags /\
    (keywords_split (keywords_new flags tags)).2 ≡ₚ tags) /\
  (forall keywords, kw_ok keywords ->
    forall k, k ∈ (keywords_new (keywords_split keywords).1 (keywords_split keywords).2).*1 <-> k ∈ keywords.*1).
Proof using lowercase_ascii.
  split.
  - intros flags tags Hn Ht. unfold keywords_split. rewrite split_steps. cbn [fst snd app].
    split; [by apply split_new_flags|by apply split_new_tags].
  - intros keywords Hok k. rewrite keywords_new_key. unfold keywords_split. rewrite split_steps. cbn [fst snd app].
    rewrite flag_names_keys, elem_of_folded by done.
    rewrite bt_key_get. unfold is_Some. cbn [fst]. destruct (decide (k ∈ FLAG_KEYWORDS)); naive_solver.
Qed.
End keywords.

(** ** Examples *)
Definition example_base : Keywords := keywords_from to_ascii_lowercase [lit "$seen"; lit "Work"].
Definition example_row : Keywords := keywords_from to_ascii_lowercase [lit "work"; lit "home"; lit "$junk"].
Definition example_server : Keywords := keywords_from to_ascii_lowercase [lit "$notjunk"; lit "HOME"; lit "$seen"; lit "x"].

Lemma keywords_replay_witness :
  let result := keywords_patched to_ascii_lowercase example_server (between example_base example_row) in
  bt_get (lit "home") result = Some (lit "HOME") /\ bt_get SEEN result = None /\
  is_Some (bt_get JUNK result) /\ bt_get NOT_JUNK result = None.
Proof.
  destruct (keywords_replay to_ascii_lowercase example_base example_row example_server) as (_&Hk&_&Hp);
    [apply keywords_from_ok..|].
  split_and!; [rewrite Hk by by_decide; reflexivity..| |].
  - apply (Hp JUNK NOT_JUNK); [by left|reflexivity|by eexists|by right].
  - apply (Hp JUNK NOT_JUNK); [by left|reflexivity|by eexists|by right].
Defined.

Definition example_message : btmap text Value :=
  [(KEYWORDS, Object [(lit "$seen", Bool true); (lit "Work", Bool true)]); (lit "subject", String (lit "s"))].

Lemma example_lists : lists to_ascii_lowercase example_base [(lit "$seen", Bool true); (lit "Work", Bool true)].
Proof.
  intros name. split.
  - intros Hin%bt_get_Some_elem. rewrite !elem_of_cons, elem_of_nil in Hin. destruct Hin as [[= ->]|[[= ->]|[]]]; reflexivity.
  - intros Hin%bt_get_Some_elem. change example_base with [(lit "$seen", lit "$seen"); (lit "work", lit "Work")] in Hin.
    rewrite !elem_of_cons, elem_of_nil in Hin. destruct Hin as [[= _ ->]|[[= _ ->]|[]]]; reflexivity.
Qed.

Lemma keywords_patch_server_witness :
  exists m' members',
    apply_patch (Object example_message) (change_patch (between example_base example_row)) = (Object m', Ok tt) /\
    members_of KEYWORDS m' = Some members' /\
    (forall k, holds_keyword to_ascii_lowercase members' k <-> is_Some (bt_get k example_row)).
Proof.
  destruct (keywords_patch_server to_ascii_lowercase example_base example_row example_message
    [(lit "$seen", Bool true); (lit "Work", Bool true)]) as (m'&members'&Ha&Hm&_&_&Hl);
    [apply keywords_from_ok|apply keywords_from_ok|reflexivity|].
  exists m', members'. split_and!; [exact Ha|exact Hm|]. apply Hl, example_lists.
Defined.

Lemma keywords_split_new_witness :
  (keywords_split (keywords_new to_ascii_lowercase flags_default [lit "Work"; lit "a/b"])).2 ≡ₚ [lit "Work"; lit "a/b"].
Proof.
  destruct (keywords_split_new to_ascii_lowercase) as [H _]; [done|].
  apply H; [by_decide|]. intros k Hk. unfold FLAG_KEYWORDS in Hk. rewrite !elem_of_cons, elem_of_nil in Hk.
  destruct Hk as [->|[->|[->|[->|[->|[->|[->|[]]]]]]]]; by_decide.
Defined.
