(* ===== verification/MailboxWire.v ===== *)
(** The Mailbox object and its rights (jmap-proto/src/mail.rs): their JSON form as their serde
    attributes say, and what a patch of one property reads as. *)

From Stdlib Require Import Ascii String.
From stdpp Require Import prelude strings.
From S2P Require Import Prelude BTree Text Strings Json Wire Proto Email Patch.

Local Open Scope rust_scope.

(** An unsigned number of 32 bits. *)
Definition u32_codec : codec N :=
  {| enc := fun n => Number (to_dec n); dec := fun v => let! n := as_u64 v in if decide (n <= u32_max)%N then Some n else None |}.

(** ** Rights *)
Definition rights_names : list text :=
  [lit "mayReadItems"; lit "mayAddItems"; lit "mayRemoveItems"; lit "maySetSeen"; lit "maySetKeywords"; lit "mayCreateChild";
   lit "mayRename"; lit "mayDelete"; lit "maySubmit"; lit "mayShare"].

Definition rights_fields (r : MailboxRights) : list (text * option Value) :=
  [(lit "mayReadItems", opt_enc bool_codec (mr_may_read_items r));
   (lit "mayAddItems", opt_enc bool_codec (mr_may_add_items r));
   (lit "mayRemoveItems", opt_enc bool_codec (mr_may_remove_items r));
   (lit "maySetSeen", opt_enc bool_codec (mr_may_set_seen r));
   (lit "maySetKeywords", opt_enc bool_codec (mr_may_set_keywords r));
   (lit "mayCreateChild", opt_enc bool_codec (mr_may_create_child r));
   (lit "mayRename", opt_enc bool_codec (mr_may_rename r));
   (lit "mayDelete", opt_enc bool_codec (mr_may_delete r));
   (lit "maySubmit", opt_enc bool_codec (mr_may_submit r));
   (lit "mayShare", opt_enc bool_codec (mr_may_share r))].

Definition rights_to_value (r : MailboxRights) : Value := Object (object_of (rights_fields r) (mr_extra r)).

Definition rights_from_value (v : Value) : option MailboxRights :=
  let! m := as_object v in
  let! may_read_items := read_opt bool_codec (lit "mayReadItems") m in
  let! may_add_items := read_opt bool_codec (lit "mayAddItems") m in
  let! may_remove_items := read_opt bool_codec (lit "mayRemoveItems") m in
  let! may_set_seen := read_opt bool_codec (lit "maySetSeen") m in
  let! may_set_keywords := read_opt bool_codec (lit "maySetKeywords") m in
  let! may_create_child := read_opt bool_codec (lit "mayCreateChild") m in
  let! may_rename := read_opt bool_codec (lit "mayRename") m in
  let! may_delete := read_opt bool_codec (lit "mayDelete") m in
  let! may_submit := read_opt bool_codec (lit "maySubmit") m in
  let! may_share := read_opt bool_codec (lit "mayShare") m in
  Some {| mr_may_read_items := may_read_items; mr_may_add_items := may_add_items; mr_may_remove_items := may_remove_items;
          mr_may_set_seen := may_set_seen; mr_may_set_keywords := may_set_keywords; mr_may_create_child := may_create_child;
          mr_may_rename := may_rename; mr_may_delete := may_delete; mr_may_submit := may_submit; mr_may_share := may_share;
          mr_extra := read_extra rights_names m |}.

Definition rights_codec : codec MailboxRights := {| enc := rights_to_value; dec := rights_from_value |}.

Definition rights_ok (r : MailboxRights) : Prop := extra_ok rights_names (mr_extra r).

(** ** Mailboxes *)
Definition mailbox_names : list text :=
  [lit "id"; lit "name"; lit "parentId"; lit "role"; lit "sortOrder"; lit "totalEmails"; lit "unreadEmails"; lit "totalThreads";
   lit "unreadThreads"; lit "isSubscribed"; lit "shareWith"; lit "myRights"].

Definition mailbox_fields (m : Mailbox) : list (text * option Value) :=
  [(lit "id", opt_enc str_codec (mb_id m));
   (lit "name", Some (String (mb_name m)));
   (lit "parentId", opt_enc str_codec (mb_parent_id m));
   (lit "role", opt_enc str_codec (mb_role m));
   (lit "sortOrder", opt_enc u32_codec (mb_sort_order m));
   (lit "totalEmails", opt_enc u64_codec (mb_total_emails m));
   (lit "unreadEmails", opt_enc u64_codec (mb_unread_emails m));
   (lit "totalThreads", opt_enc u64_codec (mb_total_threads m));
   (lit "unreadThreads", opt_enc u64_codec (mb_unread_threads m));
   (lit "isSubscribed", opt_enc bool_codec (mb_is_subscribed m));
   (lit "shareWith", opt_enc (map_codec rights_codec) (mb_share_with m));
   (lit "myRights", opt_enc rights_codec (mb_my_rights m))].

Definition mailbox_to_value (m : Mailbox) : Value := Object (object_of (mailbox_fields m) (mb_extra m)).

Definition mailbox_from_value (v : Value) : option Mailbox :=
  let! m := as_object v in
  let! id_ := read_opt str_codec (lit "id") m in
  let! name_ := read_default str_codec [] (lit "name") m in
  let! parent_id_ := read_opt str_codec (lit "parentId") m in
  let! role_ := read_opt str_codec (lit "role") m in
  let! sort_order_ := read_opt u32_codec (lit "sortOrder") m in
  let! total_emails_ := read_opt u64_codec (lit "totalEmails") m in
  let! unread_emails_ := read_opt u64_codec (lit "unreadEmails") m in
  let! total_threads_ := read_opt u64_codec (lit "totalThreads") m in
  let! unread_threads_ := read_opt u64_codec (lit "unreadThreads") m in
  let! is_subscribed_ := read_opt bool_codec (lit "isSubscribed") m in
  let! share_with_ := read_opt (map_codec rights_codec) (lit "shareWith") m in
  let! my_rights_ := read_opt rights_codec (lit "myRights") m in
  Some {| mb_id := id_; mb_name := name_; mb_parent_id := parent_id_; mb_role := role_; mb_sort_order := sort_order_;
          mb_total_emails := total_emails_; mb_unread_emails := unread_emails_; mb_total_threads := total_threads_;
          mb_unread_threads := unread_threads_; mb_is_subscribed := is_subscribed_; mb_share_with := share_with_;
          mb_my_rights := my_rights_; mb_extra := read_extra mailbox_names m |}.

Record mailbox_ok (m : Mailbox) : Prop := {
  bo_sort_order : forall n, mb_sort_order m = Some n -> (n <= u32_max)%N;
  bo_total_emails : forall n, mb_total_emails m = Some n -> (n <= u64_max)%N;
  bo_unread_emails : forall n, mb_unread_emails m = Some n -> (n <= u64_max)%N;
  bo_total_threads : forall n, mb_total_threads m = Some n -> (n <= u64_max)%N;
  bo_unread_threads : forall n, mb_unread_threads m = Some n -> (n <= u64_max)%N;
  bo_share_with : forall s, mb_share_with m = Some s -> map_ok rights_ok s;
  bo_my_rights : forall r, mb_my_rights m = Some r -> rights_ok r;
  bo_extra : extra_ok mailbox_names (mb_extra m);
}.

Lemma u32_codec_ok : codec_ok u32_codec (fun n => (n <= u32_max)%N).
Proof.
  split; [|done|done|].
  - intros n Hn. cbn [dec u32_codec enc]. change (as_u64 (Number (to_dec n))) with (dec u64_codec (enc u64_codec n)).
    rewrite (enc_dec _ _ u64_codec_ok) by (unfold u32_max, u64_max in *; lia). cbn [mbind option_bind]. by rewrite decide_True.
  - intros v n _. cbn. intros (x&_&H)%bind_Some. case_decide; [by simplify_eq|done].
Qed.

Lemma rights_names_nodup : NoDup rights_names.
Proof. by_decide. Qed.

Lemma rights_codec_ok : codec_ok rights_codec rights_ok.
Proof.
  split; [|done| |].
  - intros r (He&Ha&_). change rights_names with (rights_fields r).*1 in Ha. pose proof rights_names_nodup as Hn.
    change rights_names with (rights_fields r).*1 in Hn.
    unfold rights_codec, rights_to_value, rights_from_value. cbn [enc dec as_object mbind option_bind].
    read_struct. change rights_names with (rights_fields r).*1. rewrite object_extra by done. by destruct r.
  - intros r (_&_&Hv). apply object_of_value_ok; [|done]. unfold rights_fields. fields_ok.
  - intros [| | | | |m] r Hm; try done. cbn [dec rights_codec rights_from_value as_object mbind option_bind]. intros H.
    repeat (let x := fresh "x" in apply bind_Some in H as (x&_&H)). injection H as <-. by apply read_extra_ok.
Qed.

#[export] Hint Resolve u32_codec_ok rights_codec_ok : codecs.

(** ** Reading a written mailbox *)

(** Every property of [b] is what the members [m] read as. *)
Record mailbox_reads (m : btmap text Value) (b : Mailbox) : Prop := {
  br_id : read_opt str_codec (lit "id") m = Some (mb_id b);
  br_name : read_default str_codec [] (lit "name") m = Some (mb_name b);
  br_parent_id : read_opt str_codec (lit "parentId") m = Some (mb_parent_id b);
  br_role : read_opt str_codec (lit "role") m = Some (mb_role b);
  br_sort_order : read_opt u32_codec (lit "sortOrder") m = Some (mb_sort_order b);
  br_total_emails : read_opt u64_codec (lit "totalEmails") m = Some (mb_total_emails b);
  br_unread_emails : read_opt u64_codec (lit "unreadEmails") m = Some (mb_unread_emails b);
  br_total_threads : read_opt u64_codec (lit "totalThreads") m = Some (mb_total_threads b);
  br_unread_threads : read_opt u64_codec (lit "unreadThreads") m = Some (mb_unread_threads b);
  br_is_subscribed : read_opt bool_codec (lit "isSubscribed") m = Some (mb_is_subscribed b);
  br_share_with : read_opt (map_codec rights_codec) (lit "shareWith") m = Some (mb_share_with b);
  br_my_rights : read_opt rights_codec (lit "myRights") m = Some (mb_my_rights b);
  br_extra : read_extra mailbox_names m = mb_extra b;
}.

Lemma mailbox_from_reads m b : mailbox_reads m b -> mailbox_from_value (Object m) = Some b.
Proof.
  intros []. unfold mailbox_from_value. cbn [as_object]. refine (bind_read _ _ _ _ eq_refl _). cbv beta.
  repeat (eapply bind_read; [eassumption|cbv beta]). destruct b. cbn in *. by subst.
Qed.

Lemma mailbox_reads_from m b : mailbox_from_value (Object m) = Some b -> mailbox_reads m b.
Proof.
  unfold mailbox_from_value. cbn [as_object]. intros (x&[= <-]&H)%bind_Some.
  repeat (let x := fresh "x" in let Hx := fresh "Hx" in apply bind_Some in H as (x&Hx&H)). injection H as <-. by split.
Qed.

Lemma mailbox_fields_names b : (mailbox_fields b).*1 = mailbox_names.
Proof. reflexivity. Qed.

Lemma mailbox_names_nodup : NoDup mailbox_names.
Proof. by_decide. Qed.

Lemma mailbox_written b : mailbox_ok b -> mailbox_reads (object_of (mailbox_fields b) (mb_extra b)) b.
Proof.
  intros [Hso Hte Hue Htt Hut Hsw Hmr (He&Ha&_)]. rewrite <- (mailbox_fields_names b) in Ha.
  assert (NoDup (mailbox_fields b).*1) as Hn by (rewrite mailbox_fields_names; apply mailbox_names_nodup).
  split; try read_field.
  - unfold read_default. erewrite object_get; [|done..|reflexivity]. done.
  - by rewrite <- (mailbox_fields_names b), object_extra by done.
Qed.

(** A mailbox that is written as JSON reads back as the same mailbox. *)
Lemma mailbox_roundtrip b : mailbox_ok b -> mailbox_from_value (mailbox_to_value b) = Some b.
Proof. intros Hb. by apply mailbox_from_reads, mailbox_written. Qed.

Lemma mailbox_enc_ok b : mailbox_ok b -> value_ok (mailbox_to_value b).
Proof.
  intros [Hso Hte Hue Htt Hut Hsw Hmr (_&_&Hv)]. apply object_of_value_ok; [|done]. unfold mailbox_fields.
  apply Forall_cons_2; [eapply opt_enc_ok; [by eauto with codecs|field_cond]|]. apply Forall_cons_2; [by intros v [= <-]|]. fields_ok.
Qed.

Lemma mailbox_dec_ok v b : value_ok v -> mailbox_from_value v = Some b -> mailbox_ok b.
Proof.
  intros Hv Hb. destruct v as [| | | | |m]; try done. apply mailbox_reads_from in Hb as [].
  split; [eapply read_opt_ok; [by eauto with codecs|exact Hv|eassumption]..|].
  rewrite <- br_extra0. by apply read_extra_ok.
Qed.

(** ** Patching a mailbox *)
Definition with_place (name : text) (parent_id : option Id) (b : Mailbox) : Mailbox :=
  {| mb_id := mb_id b; mb_name := name; mb_parent_id := parent_id; mb_role := mb_role b; mb_sort_order := mb_sort_order b;
     mb_total_emails := mb_total_emails b; mb_unread_emails := mb_unread_emails b; mb_total_threads := mb_total_threads b;
     mb_unread_threads := mb_unread_threads b; mb_is_subscribed := mb_is_subscribed b; mb_share_with := mb_share_with b;
     mb_my_rights := mb_my_rights b; mb_extra := mb_extra b |}.

Definition with_is_subscribed (subscribed : option bool) (b : Mailbox) : Mailbox :=
  {| mb_id := mb_id b; mb_name := mb_name b; mb_parent_id := mb_parent_id b; mb_role := mb_role b; mb_sort_order := mb_sort_order b;
     mb_total_emails := mb_total_emails b; mb_unread_emails := mb_unread_emails b; mb_total_threads := mb_total_threads b;
     mb_unread_threads := mb_unread_threads b; mb_is_subscribed := subscribed; mb_share_with := mb_share_with b;
     mb_my_rights := mb_my_rights b; mb_extra := mb_extra b |}.

(** A patch of one member of the object itself. *)
Lemma apply_entry_top m key v :
  patch_segments key = [key] ->
  apply_entry (Object m) key v = (Object (if is_null v then bt_remove key m else bt_insert key v m), Ok tt).
Proof. intros Hk. unfold apply_entry. by rewrite Hk. Qed.

Definition set_top (v : Value) (key : text) (m : btmap text Value) : btmap text Value :=
  if is_null v then bt_remove key m else bt_insert key v m.

Lemma set_top_ok v key m : bt_ok m -> bt_ok (set_top v key m).
Proof. unfold set_top. destruct (is_null v); [apply bt_remove_ok|apply bt_insert_ok]. Qed.

Lemma set_top_get v key m k : bt_get k (set_top v key m) = if decide (k = key) then patched v else bt_get k m.
Proof.
  unfold set_top, patched. destruct (is_null v); [rewrite bt_get_remove|rewrite bt_get_insert]; repeat case_decide; congruence.
Qed.

Lemma patch_is_subscribed b subscribed :
  mailbox_ok b ->
  exists v, apply_patch (mailbox_to_value b) [(lit "isSubscribed", Bool subscribed)] = (v, Ok tt) /\
    mailbox_from_value v = Some (with_is_subscribed (Some subscribed) b).
Proof.
  intros Hb. pose proof (mailbox_written b Hb) as Hr. unfold mailbox_to_value. set (m := object_of _ _) in *.
  assert (bt_ok m) as Hm by apply object_of_ok.
  exists (Object (set_top (Bool subscribed) (lit "isSubscribed") m)). split; [cbn [apply_patch apply_entries]; by rewrite apply_entry_top by by_decide|].
  assert (forall k, k <> lit "isSubscribed" -> bt_get k (set_top (Bool subscribed) (lit "isSubscribed") m) = bt_get k m) as Hk.
  { intros k Hne. rewrite set_top_get. by rewrite decide_False. }
  apply mailbox_from_reads. destruct Hr.
  split; cbn [with_is_subscribed mb_id mb_name mb_parent_id mb_role mb_sort_order mb_total_emails mb_unread_emails mb_total_threads
    mb_unread_threads mb_is_subscribed mb_share_with mb_my_rights mb_extra];
    first [by rewrite (read_opt_agree _ _ (lit "isSubscribed") m) by (exact Hk || by_decide)|idtac].
  - unfold read_default. by rewrite Hk by by_decide.
  - unfold read_opt. rewrite set_top_get. by rewrite decide_True.
  - rewrite (read_extra_agree _ (lit "isSubscribed") m); [done|done|by apply set_top_ok|done|by_decide].
Qed.

(** The patch of a move: the name, and the parent or null. *)
Definition place_patch (name : text) (parent_id : option Id) : btmap text Value :=
  [(lit "name", String name); (lit "parentId", default Null (String <$> parent_id))].

Lemma patch_place b name parent_id :
  mailbox_ok b ->
  exists v, apply_patch (mailbox_to_value b) (place_patch name parent_id) = (v, Ok tt) /\
    mailbox_from_value v = Some (with_place name parent_id b).
Proof.
  intros Hb. pose proof (mailbox_written b Hb) as Hr. unfold mailbox_to_value. set (m := object_of _ _) in *.
  assert (bt_ok m) as Hm by apply object_of_ok.
  set (m1 := set_top (String name) (lit "name") m). set (m2 := set_top (default Null (String <$> parent_id)) (lit "parentId") m1).
  assert (bt_ok m1) as Hm1 by (by apply set_top_ok). assert (bt_ok m2) as Hm2 by (by apply set_top_ok).
  exists (Object m2). split.
  { unfold place_patch. cbn [apply_patch apply_entries]. rewrite apply_entry_top by by_decide. cbn [is_null].
    change (bt_insert (lit "name") (String name) m) with m1. by rewrite apply_entry_top by by_decide. }
  assert (forall k, k <> lit "name" -> bt_get k m1 = bt_get k m) as Hk1.
  { intros k Hne. unfold m1. rewrite set_top_get. by rewrite decide_False. }
  assert (forall k, k <> lit "parentId" -> bt_get k m2 = bt_get k m1) as Hk2.
  { intros k Hne. unfold m2. rewrite set_top_get. by rewrite decide_False. }
  apply mailbox_from_reads. destruct Hr.
  split; cbn [with_place mb_id mb_name mb_parent_id mb_role mb_sort_order mb_total_emails mb_unread_emails mb_total_threads
    mb_unread_threads mb_is_subscribed mb_share_with mb_my_rights mb_extra];
    first [by rewrite (read_opt_agree _ _ (lit "parentId") m1), (read_opt_agree _ _ (lit "name") m) by (exact Hk1 || exact Hk2 || by_decide)|idtac].
  - unfold read_default. rewrite Hk2 by by_decide. unfold m1. rewrite set_top_get. by rewrite decide_True.
  - unfold read_opt, m2. rewrite set_top_get. rewrite decide_True by done. by destruct parent_id.
  - rewrite (read_extra_agree _ (lit "parentId") m1), (read_extra_agree _ (lit "name") m); [done|done|done|done|by_decide|done|done|done|by_decide].
Qed.
