(* ===== verification/MockMail.v ===== *)
(** The mock server's mail account (jmap-mock/src/mail.rs, state.rs, dispatch.rs): the
    account's stores, who may see and change what, and [Email/get], [Email/set] and
    [Email/changes].

    The handlers are on typed requests; [parse_arguments] and [to_result] are the derived
    serde conversions of the request and response structs.  The account holds the fields that
    the mail methods touch. *)

From Stdlib Require Import Ascii String.
From stdpp Require Import prelude strings.
From S2P Require Import Prelude BTree Text Strings Json Wire Proto Email Store SetOps Patch SetMethod Keywords.

Local Open Scope rust_scope.

Definition FORBIDDEN : text := lit "forbidden".
Definition REQUEST_TOO_LARGE : text := lit "requestTooLarge".
Definition ACCOUNT_NOT_FOUND : text := lit "accountNotFound".
Definition MOCK_NOW : UtcDate := lit "2026-01-01T00:00:00Z".
Definition SNOOZED : text := lit "snoozed".

Record Thread := { th_id : option Id; th_email_ids : list Id; th_extra : btmap text Value }.
Record Blob := { bl_content_type : text; bl_data : text }.

(** A change of a share; who made it is never recorded. *)
Record ShareNotification := {
  sn_id : option Id;
  sn_created : UtcDate;
  sn_object_type : text;
  sn_object_id : Id;
  sn_object_account_id : Id;
  sn_name : option text;
  sn_old_rights : option Value;
  sn_new_rights : option Value;
  sn_notification_extra : btmap text Value;
}.

(** The part of [AccountState] that the mail methods use. *)
Record AccountState := {
  ma_mailboxes : Store Mailbox;
  ma_emails : Store Email;
  ma_threads : Store Thread;
  ma_current_user_principal_id : option Id;
  ma_blobs : btmap Id Blob;
  ma_next_blob_id : N;
  (** Each with the principal that it tells. *)
  ma_share_notifications : Store (Id * ShareNotification);
}.

(** The part of [ServerState] that the mail methods use. *)
Record ServerState := {
  sv_accounts : btmap Id AccountState;
  sv_objects_in_get : option N;
  sv_email_get_includes_unrequested : bool;
  sv_email_update_always_not_found : bool;
  sv_snooze_extension : bool;
  sv_changes_page_size : option N;
  sv_changes_never_terminates : bool;
  sv_stalwart_shaped : bool;
  sv_query_page_size : option N;
  sv_query_hides_limit : bool;
  sv_query_never_terminates : bool;
  (** Whether [hostile_scenarios] has [DangerousIds]. *)
  sv_dangerous_ids : bool;
  sv_new_mailboxes_default_unsubscribed : bool;
}.

Definition DEFAULT_OBJECTS_IN_GET : N := 256.

Definition server_objects_in_get (s : ServerState) : N := default DEFAULT_OBJECTS_IN_GET (sv_objects_in_get s).

Definition with_account (id : Id) (a : AccountState) (s : ServerState) : ServerState :=
  {| sv_accounts := bt_insert id a (sv_accounts s); sv_objects_in_get := sv_objects_in_get s;
     sv_email_get_includes_unrequested := sv_email_get_includes_unrequested s;
     sv_email_update_always_not_found := sv_email_update_always_not_found s;
     sv_snooze_extension := sv_snooze_extension s; sv_changes_page_size := sv_changes_page_size s;
     sv_changes_never_terminates := sv_changes_never_terminates s; sv_stalwart_shaped := sv_stalwart_shaped s;
     sv_query_page_size := sv_query_page_size s; sv_query_hides_limit := sv_query_hides_limit s;
     sv_query_never_terminates := sv_query_never_terminates s; sv_dangerous_ids := sv_dangerous_ids s;
     sv_new_mailboxes_default_unsubscribed := sv_new_mailboxes_default_unsubscribed s |}.

Definition account_mut (s : ServerState) (id : Id) : result AccountState MethodError :=
  ok_or (bt_get id (sv_accounts s)) (method_error_new ACCOUNT_NOT_FOUND).

(** ** Access *)
Definition mailbox_rights_for (mailbox : Mailbox) (principal : Id) : option MailboxRights :=
  let! share_with := mb_share_with mailbox in bt_get principal share_with.

Definition filed_in (email : Email) (id : Id) : bool :=
  match em_mailbox_ids email with
  | Some mailbox_ids => default false (bt_get id mailbox_ids)
  | None => false
  end.

Definition account_is_owner (account : AccountState) (caller : option Id) : bool :=
  match caller with
  | None => true
  | Some caller => bool_decide (ma_current_user_principal_id account = Some caller)
  end.

Definition shared_with_caller (account : AccountState) (caller : Id) : bool :=
  existsb (fun e => bool_decide (is_Some (mailbox_rights_for e.2 caller))) (st_objects (ma_mailboxes account)).

Definition has_mailbox_right (account : AccountState) (mailbox_id caller : Id) (right : MailboxRights -> option bool) : bool :=
  default false
    (let! mailbox := store_get (ma_mailboxes account) mailbox_id in
     let! rights := mailbox_rights_for mailbox caller in
     right rights).

Definition filed_mailbox_ids (email : Email) : btset Id :=
  match em_mailbox_ids email with
  | Some mailbox_ids => omap (fun e => if (e.2 : bool) then Some e.1 else None) mailbox_ids
  | None => []
  end.

Definition readable_email (account : AccountState) (email : Email) (caller : Id) : bool :=
  existsb (fun id => has_mailbox_right account id caller mr_may_read_items) (filed_mailbox_ids email).

Definition may_create_email (account : AccountState) (email : Email) (caller : Id) : bool :=
  forallb (fun id => has_mailbox_right account id caller mr_may_add_items) (filed_mailbox_ids email).

Definition may_destroy_email (account : AccountState) (email : Email) (caller : Id) : bool :=
  forallb (fun id => has_mailbox_right account id caller mr_may_remove_items) (filed_mailbox_ids email).

Definition may_update_email (account : AccountState) (before after : Email) (caller : Id) : bool :=
  let before_mailboxes := filed_mailbox_ids before in
  let after_mailboxes := filed_mailbox_ids after in
  let added := filter (fun id => id ∉ before_mailboxes) after_mailboxes in
  let removed := filter (fun id => id ∉ after_mailboxes) before_mailboxes in
  let before_keywords := default [] (em_keywords before) in
  let after_keywords := default [] (em_keywords after) in
  let seen_changed :=
    negb (Bool.eqb (default false (bt_get SEEN before_keywords)) (default false (bt_get SEEN after_keywords))) in
  let non_seen_keywords_changed :=
    negb (bool_decide (bt_remove SEEN before_keywords = bt_remove SEEN after_keywords)) in
  let mailbox_scope := bs_union before_mailboxes after_mailboxes in
  forallb (fun id => has_mailbox_right account id caller mr_may_add_items) added &&
  forallb (fun id => has_mailbox_right account id caller mr_may_remove_items) removed &&
  negb (seen_changed && negb (forallb (fun id => has_mailbox_right account id caller mr_may_set_seen) mailbox_scope)) &&
  negb (non_seen_keywords_changed &&
        negb (forallb (fun id => has_mailbox_right account id caller mr_may_set_keywords) mailbox_scope)).

(** The check that opens every handler: the owner, or a caller to whom something is shared. *)
Definition check_caller (account : AccountState) (caller : option Id) : result bool MethodError :=
  if account_is_owner account caller then Ok true
  else match caller with
    | Some c =>
        if shared_with_caller account c then Ok false
        else Err (method_error_with_description (method_error_new FORBIDDEN)
               (lit "no mailbox in this account is shared with you"))
    | None => Ok true
    end.

(** A shared caller passes [allowed]; the owner always does. *)
Definition may (is_owner : bool) (caller : option Id) (allowed : Id -> bool) : bool :=
  is_owner || match caller with Some c => allowed c | None => true end.

(** ** Email/get *)
Record GetRequest := { gq_account_id : Id; gq_ids : option (list Id); gq_properties : option (list text) }.

(** [project_properties]: always keeps the id. *)
Definition project_properties (email : Email) (properties : option (list text)) : Value :=
  match properties, email_to_value email with
  | None, full => full
  | Some properties, Object map =>
      Object (filter (fun e => e.1 = lit "id" \/ e.1 ∈ properties) map)
  | Some _, full => full
  end.

Definition get_step (account : AccountState) (is_owner : bool) (caller : option Id) (properties : option (list text))
    (acc : list Value * list Id) (id : Id) : list Value * list Id :=
  match store_get (ma_emails account) id with
  | Some email =>
      if may is_owner caller (readable_email account email)
      then (acc.1 ++ [project_properties email properties], acc.2)
      else (acc.1, acc.2 ++ [id])
  | None => (acc.1, acc.2 ++ [id])
  end.

(** The projections of the emails among [emails] that the caller may read. *)
Definition readable_list (account : AccountState) (is_owner : bool) (caller : option Id)
    (properties : option (list text)) (emails : list (Id * Email)) : list Value :=
  (fun e => project_properties e.2 properties) <$>
    filter (fun e => may is_owner caller (readable_email account e.2) = true) emails.

Definition email_get (s : ServerState) (request : GetRequest) (caller : option Id)
  : result (GetResponse Value) MethodError :=
  let limit := server_objects_in_get s in
  if match gq_ids request with Some ids => (limit <? N.of_nat (length ids))%N | None => false end then
    Err (method_error_with_description (method_error_new REQUEST_TOO_LARGE)
      (lit "Email/get accepts at most " ++ to_dec limit ++ lit " ids"))
  else
    let? account := account_mut s (gq_account_id request) in
    let? is_owner := check_caller account caller in
    let emails := st_objects (ma_emails account) in
    let '(list, not_found) :=
      match gq_ids request with
      | None => (readable_list account is_owner caller (gq_properties request) emails, [])
      | Some ids => fold_left (get_step account is_owner caller (gq_properties request)) ids ([], [])
      end in
    let list :=
      match gq_ids request with
      | Some ids =>
          if sv_email_get_includes_unrequested s
          then list ++ readable_list account is_owner caller (gq_properties request)
                 (filter (fun e => e.1 ∉ ids) emails)
          else list
      | None => list
      end in
    Ok {| gr_account_id := gq_account_id request; gr_state := store_state (ma_emails account);
          gr_list := list; gr_not_found := not_found |}.

(** ** Email/set *)
Definition set_error_with_properties (e : SetError) (properties : list text) : SetError :=
  {| se_error_type := se_error_type e; se_description := se_description e;
     se_properties := Some properties; se_extra := se_extra e |}.

Definition snooze_refusal (snooze_extension : bool) (snoozed_mailbox : option Id) (email : Email) : option SetError :=
  let! _ := em_snoozed email in
  if negb snooze_extension then
    Some (set_error_with_properties
      (set_error_with_description (set_error_new INVALID_PROPERTIES) (lit "snoozed needs the server's snooze extension"))
      [lit "snoozed"])
  else if match snoozed_mailbox, em_mailbox_ids email with
          | Some snoozed_id, Some mailboxes => bool_decide (bt_get snoozed_id mailboxes = Some true)
          | _, _ => false
          end
  then None
  else
    Some (set_error_with_properties
      (set_error_with_description (set_error_new INVALID_PROPERTIES) (lit "a snoozed message must sit in the snoozed-role mailbox"))
      [lit "mailboxIds"; lit "snoozed"]).

(** Whether the message is in at least one mailbox, and only in mailboxes that exist. *)
Definition filed_somewhere (account : AccountState) (email : Email) : result unit SetError :=
  let refused := fun message => Err (set_error_with_description (set_error_new INVALID_PROPERTIES) message) in
  match em_mailbox_ids email with
  | None => refused (lit "mailboxIds must name at least one mailbox")
  | Some mailbox_ids =>
      if negb (existsb snd mailbox_ids) then refused (lit "mailboxIds must name at least one mailbox")
      else
        match find (fun id => negb (store_contains (ma_mailboxes account) id)) (filter (fun e => e.2 = true) mailbox_ids).*1 with
        | Some unknown => refused (lit "mailboxIds names " ++ unknown ++ lit ", which is not a mailbox")
        | None => Ok tt
        end
  end.

Definition new_thread_id (email_id : Id) : Id := lit "T" ++ email_id.

Definition thread_new (id : Id) (email_ids : list Id) : Thread := {| th_id := Some id; th_email_ids := email_ids; th_extra := [] |}.

Definition with_emails (e : Store Email) (a : AccountState) : AccountState :=
  {| ma_mailboxes := ma_mailboxes a; ma_emails := e; ma_threads := ma_threads a;
     ma_current_user_principal_id := ma_current_user_principal_id a; ma_blobs := ma_blobs a; ma_next_blob_id := ma_next_blob_id a;
     ma_share_notifications := ma_share_notifications a |}.

Definition with_threads (t : Store Thread) (a : AccountState) : AccountState :=
  {| ma_mailboxes := ma_mailboxes a; ma_emails := ma_emails a; ma_threads := t;
     ma_current_user_principal_id := ma_current_user_principal_id a; ma_blobs := ma_blobs a; ma_next_blob_id := ma_next_blob_id a;
     ma_share_notifications := ma_share_notifications a |}.

Definition add_blob (content_type data : text) (a : AccountState) : Id * AccountState :=
  let id := lit "B" ++ to_dec (ma_next_blob_id a) in
  (id, {| ma_mailboxes := ma_mailboxes a; ma_emails := ma_emails a; ma_threads := ma_threads a;
          ma_current_user_principal_id := ma_current_user_principal_id a;
          ma_blobs := bt_insert id {| bl_content_type := content_type; bl_data := data |} (ma_blobs a);
          ma_next_blob_id := wrap_u64 (ma_next_blob_id a + 1); ma_share_notifications := ma_share_notifications a |}).

(** The server-set properties of a new message. *)
Definition server_set (id blob_id thread_id : Id) (size : N) (e : Email) : Email :=
  {| em_id := Some id; em_blob_id := Some blob_id; em_thread_id := Some thread_id;
     em_mailbox_ids := em_mailbox_ids e; em_keywords := em_keywords e; em_snoozed := em_snoozed e;
     em_size := Some size; em_received_at := Some (default MOCK_NOW (em_received_at e));
     em_message_id := em_message_id e; em_in_reply_to := em_in_reply_to e; em_references := em_references e;
     em_sender := em_sender e; em_from := em_from e; em_to := em_to e; em_cc := em_cc e; em_bcc := em_bcc e;
     em_reply_to := em_reply_to e; em_subject := em_subject e; em_sent_at := em_sent_at e;
     em_has_attachment := em_has_attachment e; em_preview := em_preview e; em_body_structure := em_body_structure e;
     em_body_values := em_body_values e; em_text_body := em_text_body e; em_html_body := em_html_body e;
     em_headers := em_headers e; em_attachments := em_attachments e; em_smime_status := em_smime_status e;
     em_smime_errors := em_smime_errors e; em_smime_verified_at := em_smime_verified_at e; em_extra := em_extra e |}.

(** What a create is answered with. *)
Definition created_summary (id blob_id thread_id : Id) (size : N) (received_at : option UtcDate) : Email :=
  {| em_id := Some id; em_blob_id := Some blob_id; em_thread_id := Some thread_id; em_mailbox_ids := None;
     em_keywords := None; em_snoozed := None; em_size := Some size; em_received_at := received_at;
     em_message_id := None; em_in_reply_to := None; em_references := None; em_sender := None; em_from := None;
     em_to := None; em_cc := None; em_bcc := None; em_reply_to := None; em_subject := None; em_sent_at := None;
     em_has_attachment := None; em_preview := None; em_body_structure := None; em_body_values := None;
     em_text_body := None; em_html_body := None; em_headers := None; em_attachments := None;
     em_smime_status := None; em_smime_errors := None; em_smime_verified_at := None; em_extra := [] |}.

Definition body_size (e : Email) : N :=
  match em_body_values e with
  | Some values => foldr (fun v n => N.of_nat (length (bv_value v.2)) + n)%N 0%N values
  | None => 0
  end.

Record EmailCreating := {
  ec_account : AccountState;
  ec_created : btmap text Email;
  ec_not_created : btmap text SetError;
  ec_to_create : list (Id * Email);
  ec_to_create_threads : list (Id * Thread);
}.

Definition refuse_create (creation_id : text) (refusal : SetError) (c : EmailCreating) : EmailCreating :=
  {| ec_account := ec_account c; ec_created := ec_created c;
     ec_not_created := bt_insert creation_id refusal (ec_not_created c);
     ec_to_create := ec_to_create c; ec_to_create_threads := ec_to_create_threads c |}.

Definition no_write_access : SetError :=
  set_error_with_description (set_error_new FORBIDDEN) (lit "you do not have write access to this mailbox").

Section email_set.
(** The message of a serde error. *)
Variable serde_error : Value -> text.
Variables (snooze_extension always_not_found : bool).
Variable snoozed_mailbox : option Id.
Variables (is_owner : bool) (caller : option Id).

(** Why a message may not be created: the first check that refuses. *)
Definition create_refusal (account : AccountState) (email : Email) : option SetError :=
  match filed_somewhere account email with
  | Err refusal => Some refusal
  | Ok _ =>
      if negb (may is_owner caller (may_create_email account email)) then Some no_write_access
      else snooze_refusal snooze_extension snoozed_mailbox email
  end.

Definition email_create (c : EmailCreating) (e : text * Email) : EmailCreating :=
  let '(creation_id, email) := e in
  match create_refusal (ec_account c) email with
  | Some refusal => refuse_create creation_id refusal c
  | None =>
      let '(id, emails) := store_alloc_id (ma_emails (ec_account c)) in
      let thread_id := new_thread_id id in
      let '(blob_id, account) := add_blob (lit "message/rfc822") [] (with_emails emails (ec_account c)) in
      let size := body_size email in
      let email := server_set id blob_id thread_id size email in
      {| ec_account := account;
         ec_created := bt_insert creation_id (created_summary id blob_id thread_id size (em_received_at email)) (ec_created c);
         ec_not_created := ec_not_created c;
         ec_to_create := ec_to_create c ++ [(id, email)];
         ec_to_create_threads := ec_to_create_threads c ++ [(thread_id, thread_new thread_id [id])] |}
  end.

(** The patched message, or why the update is refused. *)
Definition email_patched (account : AccountState) (existing : Email) (patch_map : btmap text Value) : result Email SetError :=
  let '(value, r) := apply_patch (email_to_value existing) patch_map in
  let? _ := map_err (fun message => set_error_with_description (set_error_new INVALID_PATCH) message) r in
  let? patched := ok_or (email_from_value value)
    (set_error_with_description (set_error_new INVALID_PATCH) (serde_error value)) in
  let? _ := filed_somewhere account patched in
  match snooze_refusal snooze_extension snoozed_mailbox patched with
  | Some refusal => Err refusal
  | None =>
      if may is_owner caller (may_update_email account existing patched) then Ok patched
      else Err no_write_access
  end.

Definition email_update_outcome (account : AccountState) (id : Id) (patch : Value) : result Email SetError :=
  if always_not_found then Err (set_error_new NOT_FOUND)
  else match store_get (ma_emails account) id with
    | None => Err (set_error_new NOT_FOUND)
    | Some existing =>
        match as_object patch with
        | None => Err (set_error_new INVALID_PATCH)
        | Some patch_map => email_patched account existing patch_map
        end
    end.

Definition email_update_entry (account : AccountState) (acc : btmap Id SetError * list (Id * Email)) (e : Id * Value)
  : btmap Id SetError * list (Id * Email) :=
  match email_update_outcome account e.1 e.2 with
  | Ok patched => (acc.1, acc.2 ++ [(e.1, patched)])
  | Err refusal => (bt_insert e.1 refusal acc.1, acc.2)
  end.

Definition email_destroy_entry (account : AccountState) (acc : btmap Id SetError * list Id) (id : Id) : btmap Id SetError * list Id :=
  match store_get (ma_emails account) id with
  | None => (bt_insert id (set_error_new NOT_FOUND) acc.1, acc.2)
  | Some existing =>
      if may is_owner caller (may_destroy_email account existing) then (acc.1, acc.2 ++ [id])
      else (bt_insert id no_write_access acc.1, acc.2)
  end.
End email_set.

Definition destroy_one {T} (acc : Transaction T * list Id * btmap Id SetError) (id : Id) : Transaction T * list Id * btmap Id SetError :=
  let '(t, destroyed, not_destroyed) := acc in
  match transaction_destroy t id with
  | (true, t) => (t, destroyed ++ [id], not_destroyed)
  | (false, t) => (t, destroyed, bt_insert id (set_error_new NOT_FOUND) not_destroyed)
  end.

(** The transaction on the messages. *)
Definition email_body (to_create to_update : list (Id * Email)) (destroy_ids : list Id) (not_destroyed : btmap Id SetError)
    (t : Transaction Email) : (btmap Id (option Email) * list Id * btmap Id SetError) * Transaction Email :=
  let t := fold_left (fun t e => transaction_create t e.1 e.2) to_create t in
  let '(t, updated) :=
    fold_left (fun '(t, updated) e => ((transaction_update t e.1 e.2).2, bt_insert e.1 None updated)) to_update (t, []) in
  let '(t, destroyed, not_destroyed) := fold_left destroy_one destroy_ids (t, [], not_destroyed) in
  ((updated, destroyed, not_destroyed), t).

(** The transaction that keeps the threads aligned with the messages. *)
Definition thread_body (to_create : list (Id * Thread)) (destroyed : list Id) (thread_ids : btmap Id Id)
    (t : Transaction Thread) : unit * Transaction Thread :=
  let t := fold_left (fun t e => transaction_create t e.1 e.2) to_create t in
  (tt, fold_left (fun t id => match bt_get id thread_ids with
                              | Some thread_id => (transaction_destroy t thread_id).2
                              | None => t
                              end) destroyed t).

Section email_set_handler.
Variable serde_error : Value -> text.

Definition email_set_account (s : ServerState) (account : AccountState) (is_owner : bool) (request : SetRequest Email) (caller : option Id)
  : AccountState * SetResponse Email :=
  let snoozed_mailbox :=
    fst <$> find (fun e => bool_decide (mb_role e.2 = Some SNOOZED)) (st_objects (ma_mailboxes account)) in
  let old_state := store_state (ma_emails account) in
  let c := fold_left (email_create (sv_snooze_extension s) snoozed_mailbox is_owner caller) (default [] (sr_create request))
    {| ec_account := account; ec_created := []; ec_not_created := []; ec_to_create := []; ec_to_create_threads := [] |} in
  let account := ec_account c in
  let '(not_updated, to_update) :=
    fold_left (email_update_entry serde_error (sv_snooze_extension s) (sv_email_update_always_not_found s) snoozed_mailbox
                 is_owner caller account) (default [] (sr_update request)) ([], []) in
  let '(not_destroyed, destroy_ids) :=
    fold_left (email_destroy_entry is_owner caller account) (default [] (sr_destroy request)) ([], []) in
  let destroy_thread_ids :=
    bt_of_list (omap (fun id =>
      let! email := store_get (ma_emails account) id in
      let! thread_id := em_thread_id email in
      Some (id, thread_id)) destroy_ids) in
  let '((updated, destroyed, not_destroyed), emails) :=
    store_transaction (ma_emails account) (email_body (ec_to_create c) to_update destroy_ids not_destroyed) in
  let '(_, threads) :=
    store_transaction (ma_threads account) (thread_body (ec_to_create_threads c) destroyed destroy_thread_ids) in
  (with_threads threads (with_emails emails account),
   {| sp_account_id := sr_account_id request;
      sp_old_state := Some old_state;
      sp_new_state := Some (store_state emails);
      sp_created := non_empty (ec_created c);
      sp_updated := non_empty updated;
      sp_destroyed := non_empty destroyed;
      sp_not_created := non_empty (ec_not_created c);
      sp_not_updated := non_empty not_updated;
      sp_not_destroyed := non_empty not_destroyed |}).

Definition email_set (s : ServerState) (request : SetRequest Email) (caller : option Id)
  : ServerState * result (SetResponse Email) MethodError :=
  match account_mut s (sr_account_id request) with
  | Err e => (s, Err e)
  | Ok account =>
      match check_caller account caller with
      | Err e => (s, Err e)
      | Ok is_owner =>
          if match sr_if_in_state request with
             | Some expected => negb (bool_decide (expected = store_state (ma_emails account)))
             | None => false
             end
          then (s, Err (method_error_new STATE_MISMATCH))
          else
            let '(account, response) := email_set_account s account is_owner request caller in
            (with_account (sr_account_id request) account s, Ok response)
      end
  end.
End email_set_handler.

(** ** Email/changes *)
Definition retain_readable (account : AccountState) (caller : Id) (ids : list Id) : list Id :=
  filter (fun id => match store_get (ma_emails account) id with
                    | Some email => readable_email account email caller
                    | None => false
                    end = true) ids.

Definition with_lists (r : ChangesResponse) (f : list Id -> list Id) : ChangesResponse :=
  {| cp_account_id := cp_account_id r; cp_old_state := cp_old_state r; cp_new_state := cp_new_state r;
     cp_has_more_changes := cp_has_more_changes r; cp_created := f (cp_created r); cp_updated := f (cp_updated r);
     cp_destroyed := f (cp_destroyed r) |}.

Definition never_ending (r : ChangesResponse) : ChangesResponse :=
  {| cp_account_id := cp_account_id r; cp_old_state := cp_old_state r; cp_new_state := cp_old_state r;
     cp_has_more_changes := true; cp_created := cp_created r; cp_updated := cp_updated r; cp_destroyed := cp_destroyed r |}.

(** A server set to never end its changes says so of every page with a change. *)
Definition never_terminating (s : ServerState) (response : ChangesResponse) : ChangesResponse :=
  if sv_changes_never_terminates s && (bool_decide (is_Some (sv_changes_page_size s)) || cp_has_more_changes response) &&
     negb (bool_decide (cp_created response = []) && bool_decide (cp_updated response = []) &&
           bool_decide (cp_destroyed response = []))
  then never_ending response else response.

Definition email_changes (s : ServerState) (request : ChangesRequest) (caller : option Id)
  : result ChangesResponse MethodError :=
  let? account := account_mut s (cr_account_id request) in
  let? is_owner := check_caller account caller in
  let? response := store_changes (ma_emails account) request (sv_changes_page_size s) (sv_stalwart_shaped s) in
  let response :=
    match caller with
    | Some c => if is_owner then response else with_lists response (retain_readable account c)
    | None => response
    end in
  Ok (never_terminating s response).
