(* ===== verification/MockMailSet.v ===== *)
(** What the mock's mail handlers keep and tell (jmap-mock/src/mail.rs): every stored
    message stays well formed and in an existing mailbox, and what a shared caller sees. *)

From Stdlib Require Import Ascii String.
From stdpp Require Import prelude strings.
From S2P Require Import Prelude BTree Text Strings Json Wire Proto Email Store SetOps Patch SetMethod Keywords MockMail.

Local Open Scope rust_scope.

(** ** Every message is filed *)

(** [mailboxIds] has the mailbox, with [true]. *)
Definition in_mailbox (e : Email) (id : Id) : Prop := exists mailbox_ids, em_mailbox_ids e = Some mailbox_ids /\ bt_get id mailbox_ids = Some true.

(** A message is in at least one mailbox, and every mailbox that it is in exists. *)
Record message_ok (a : AccountState) (e : Email) : Prop := {
  mo_email : email_ok e;
  mo_somewhere : exists id, in_mailbox e id;
  mo_known : forall id, in_mailbox e id -> is_Some (store_get (ma_mailboxes a) id);
}.

Definition account_ok (a : AccountState) : Prop := forall id e, store_get (ma_emails a) id = Some e -> message_ok a e.

Definition server_ok (s : ServerState) : Prop := forall id a, bt_get id (sv_accounts s) = Some a -> account_ok a.

(** A request as it is read from JSON: the messages are well formed and their bodies fit the
    size field, and the patches are JSON values. *)
Record set_request_ok (request : SetRequest Email) : Prop := {
  sq_create : Forall (fun e => email_ok e.2 /\ (body_size e.2 <= u64_max)%N) (default [] (sr_create request));
  sq_update : Forall (fun e => value_ok e.2) (default [] (sr_update request));
}.

Lemma filed_somewhere_mailboxes a a' e : ma_mailboxes a = ma_mailboxes a' -> filed_somewhere a e = filed_somewhere a' e.
Proof. intros H. unfold filed_somewhere. by rewrite H. Qed.

(** What the check of a message that is written finds out. *)
Lemma filed_somewhere_ok a e : email_ok e -> filed_somewhere a e = Ok tt -> message_ok a e.
Proof.
  intros He Hf. unfold filed_somewhere in Hf. destruct (em_mailbox_ids e) as [ids|] eqn:Ei; [|done].
  assert (bt_ok ids) as Hok by (by apply (eo_mailbox_ids _ He)).
  destruct (existsb snd ids) eqn:Es; [|done]. cbn [negb] in Hf. destruct (find _ _) as [|] eqn:Efind; [done|]. split; [done|..].
  - apply existsb_exists in Es as ([id b]&Hin%list_elem_of_In&Hb). cbn in Hb. subst b. exists id, ids. split; [done|by apply bt_elem_get].
  - intros id (ids'&Ei'&Hg). rewrite Ei in Ei'. injection Ei' as <-.
    assert (id ∈ (filter (fun e => e.2 = true) ids).*1) as Hin%list_elem_of_In.
    { apply list_elem_of_fmap. exists (id, true). split; [done|]. apply list_elem_of_filter. split; [done|]. by apply bt_get_Some_elem. }
    pose proof (List.find_none _ _ Efind _ Hin) as Hk. apply negb_false_iff in Hk. by apply bt_contains_true.
Qed.

Lemma message_ok_mailboxes a a' e : ma_mailboxes a = ma_mailboxes a' -> message_ok a e -> message_ok a' e.
Proof. intros H [He Hs Hk]. split; [done|done|]. by rewrite <- H. Qed.

Lemma server_set_ok id blob_id thread_id size e : email_ok e -> (size <= u64_max)%N -> email_ok (server_set id blob_id thread_id size e).
Proof. intros [] Hsize. split; cbn; try done. by intros n [= <-]. Qed.

Section transactions.
Context {T : Type} (P : T -> Prop).

(** A transaction in which every object satisfies [P]. *)
Definition tx_all (t : Transaction T) : Prop := forall id v, transaction_get t id = Some v -> P v.

Lemma tx_all_insert (t : Transaction T) id v staged :
  tx_all t -> P v -> tx_all (Build_Transaction (with_objects (tx_store t) (bt_insert id v (st_objects (tx_store t)))) staged).
Proof.
  intros Ht Hv k w. unfold transaction_get, store_get. cbn. rewrite bt_get_insert. case_decide; [by intros [= <-]|]. apply (Ht k).
Qed.

Lemma tx_all_creates (l : list (Id * T)) t :
  tx_all t -> Forall (fun e => P e.2) l -> tx_all (fold_left (fun t e => transaction_create t e.1 e.2) l t).
Proof.
  intros Ht Hl. revert t Ht. induction Hl as [|e l He _ IH]; intros t Ht; cbn; [done|]. apply IH. by apply tx_all_insert.
Qed.

Lemma tx_all_updates (l : list (Id * T)) t (updated : btmap Id (option T)) :
  tx_all t -> Forall (fun e => P e.2) l ->
  tx_all (fold_left (fun '(t, updated) e => ((transaction_update t e.1 e.2).2, bt_insert e.1 None updated)) l (t, updated)).1.
Proof.
  intros Ht Hl. revert t updated Ht. induction Hl as [|e l He _ IH]; intros t updated Ht; cbn; [done|]. apply IH.
  unfold transaction_update. destruct (store_contains _ _); [|done]. by apply tx_all_insert.
Qed.

Lemma tx_all_destroys ids t d nd : tx_all t -> tx_all (fold_left destroy_one ids (t, d, nd)).1.1.
Proof.
  revert t d nd. induction ids as [|id ids IH]; intros t d nd Ht; cbn; [done|].
  unfold transaction_destroy. destruct (store_get (tx_store t) id) as [v|]; [|by apply IH]. apply IH.
  intros k w. unfold transaction_get, store_get. cbn. rewrite bt_get_remove. case_decide; [done|]. apply (Ht k).
Qed.
End transactions.

Section set.
Variable serde_error : Value -> text.

(** ** Creates *)
Record creating_ok (a : AccountState) (c : EmailCreating) : Prop := {
  cr_mailboxes : ma_mailboxes (ec_account c) = ma_mailboxes a;
  cr_objects : st_objects (ma_emails (ec_account c)) = st_objects (ma_emails a);
  cr_created : Forall (fun e => message_ok a e.2) (ec_to_create c);
}.

Lemma email_create_ok a ext snoozed is_owner caller c e :
  email_ok e.2 /\ (body_size e.2 <= u64_max)%N -> creating_ok a c -> creating_ok a (email_create ext snoozed is_owner caller c e).
Proof using Type.
  intros [He Hs] [Hm Ho Hc]. destruct e as [cid e]. cbn in He, Hs. unfold email_create.
  destruct (create_refusal _ _ _ _ _ _) as [refusal|] eqn:Er; [by split|].
  destruct (store_alloc_id _) as [id emails] eqn:Ea. injection Ea as <- <-. split; cbn; try done.
  apply Forall_app. split; [done|]. constructor; [|constructor]. apply filed_somewhere_ok; [by apply server_set_ok|]. cbn.
  unfold create_refusal in Er. rewrite (filed_somewhere_mailboxes _ a) in Er by done.
  change (filed_somewhere a (server_set _ _ _ _ e)) with (filed_somewhere a e). by destruct (filed_somewhere a e) as [[]|].
Qed.

Lemma email_creates_ok a ext snoozed is_owner caller l c :
  Forall (fun e => email_ok e.2 /\ (body_size e.2 <= u64_max)%N) l -> creating_ok a c ->
  creating_ok a (fold_left (email_create ext snoozed is_owner caller) l c).
Proof using Type. intros Hl. revert c. induction Hl; intros c Hc; cbn; [done|]. by apply IHHl, email_create_ok. Qed.

(** ** Updates *)
Lemma email_patched_ok ext snoozed is_owner caller a existing patch p :
  email_ok existing -> Forall (fun e => value_ok e.2) patch ->
  email_patched serde_error ext snoozed is_owner caller a existing patch = Ok p -> message_ok a p.
Proof using Type.
  intros He Hp. unfold email_patched. pose proof (apply_patch_ok (email_to_value existing) patch (email_enc_ok _ He) Hp) as Hv.
  destruct (apply_patch _ _) as [value r]. cbn in Hv.
  intros (u&_&(q&Hq&([]&Hf&H)%rbind_ok)%rbind_ok)%rbind_ok.
  assert (p = q) as -> by (destruct (snooze_refusal _ _ _); [done|]; destruct (may _ _ _); congruence).
  apply filed_somewhere_ok; [|done]. destruct (email_from_value value) eqn:E; [|done]. injection Hq as ->. by eapply email_dec_ok.
Qed.

Lemma email_updates_ok ext nf snoozed is_owner caller a l acc :
  account_ok a -> Forall (fun e => value_ok e.2) l -> Forall (fun e => message_ok a e.2) acc.2 ->
  Forall (fun e => message_ok a e.2) (fold_left (email_update_entry serde_error ext nf snoozed is_owner caller a) l acc).2.
Proof using Type.
  intros Ha Hl. revert acc. induction Hl as [|[id patch] l Hv _ IH]; intros acc Hacc; cbn [fold_left]; [done|]. apply IH.
  unfold email_update_entry. cbn [fst snd]. destruct (email_update_outcome _ _ _ _ _ _ _ _ _) as [p|] eqn:Eo; [|done].
  apply Forall_app. split; [done|]. constructor; [|constructor]. unfold email_update_outcome in Eo. destruct nf; [done|].
  destruct (store_get (ma_emails a) id) as [existing|] eqn:Eg; [|done]. destruct patch as [| | | | |m]; try done. cbn in Eo.
  eapply email_patched_ok; [by apply (Ha id)| |exact Eo]. by apply value_ok_object in Hv as [_ Hv].
Qed.

(** ** The handler *)
Lemma account_ok_emails a (t : Store Thread) emails :
  (forall id e, bt_get id (st_objects emails) = Some e -> message_ok a e) -> account_ok (with_threads t (with_emails emails a)).
Proof using Type. intros H id e He. eapply (message_ok_mailboxes a); [done|]. by eapply H. Qed.

Lemma email_set_account_ok s a is_owner request caller :
  account_ok a -> set_request_ok request -> account_ok (email_set_account serde_error s a is_owner request caller).1.
Proof using Type.
  intros Ha [Hcreate Hupdate]. unfold email_set_account.
  set (c := fold_left (email_create _ _ _ _) _ _).
  assert (creating_ok a c) as [Hm Ho Hc].
  { apply email_creates_ok; [done|]. split; [done|done|constructor]. }
  assert (account_ok (ec_account c)) as Hac.
  { intros id e. unfold store_get. rewrite Ho. intros He. eapply (message_ok_mailboxes a); [done|]. by apply (Ha id). }
  pose proof (email_updates_ok (sv_snooze_extension s) (sv_email_update_always_not_found s)
    (fst <$> find (fun e => bool_decide (mb_role e.2 = Some SNOOZED)) (st_objects (ma_mailboxes a))) is_owner caller (ec_account c)
    (default [] (sr_update request)) ([], []) Hac Hupdate ltac:(constructor)) as Hu.
  destruct (fold_left (email_update_entry _ _ _ _ _ _ _) _ _) as [not_updated to_update]. cbn [snd] in Hu.
  destruct (fold_left (email_destroy_entry _ _ _) _ _) as [not_destroyed destroy_ids].
  destruct (store_transaction (ma_emails (ec_account c)) _) as [[[updated destroyed] nd] emails] eqn:Et.
  destruct (store_transaction (ma_threads (ec_account c)) _) as [[] threads]. cbn [fst].
  apply account_ok_emails. pose proof (transaction_objects (ma_emails (ec_account c))
    (email_body (ec_to_create c) to_update destroy_ids not_destroyed)) as Hobj. rewrite Et in Hobj. cbn in Hobj.
  assert (tx_all (message_ok (ec_account c)) (email_body (ec_to_create c) to_update destroy_ids not_destroyed
    (Build_Transaction (ma_emails (ec_account c)) [])).2) as Hall.
  { unfold email_body.
    pose proof (tx_all_updates (message_ok (ec_account c)) to_update
      (fold_left (fun t e => transaction_create t e.1 e.2) (ec_to_create c) (Build_Transaction (ma_emails (ec_account c)) [])) []) as Hup.
    destruct (fold_left _ to_update _) as [t1 upd]. cbn [fst] in Hup.
    pose proof (tx_all_destroys (message_ok (ec_account c)) destroy_ids t1 [] not_destroyed) as Hd.
    destruct (fold_left destroy_one _ _) as [[t2 d2] nd2]. cbn [fst snd] in *. apply Hd, Hup; [|done].
    apply tx_all_creates; [exact Hac|]. eapply Forall_impl; [exact Hc|]. intros e. by apply message_ok_mailboxes. }
  intros id e He. apply (Hall id). unfold transaction_get, store_get. by rewrite <-Hobj.
Qed.

(** C34: Every message that the server holds is well formed and in at least one mailbox, and
    all the mailboxes that it names exist. [Email/set] keeps this, whatever the request and
    whoever the caller is. *)
Theorem email_set_filed s request caller :
  server_ok s -> set_request_ok request -> server_ok (email_set serde_error s request caller).1.
Proof using Type.
  intros Hs Hr. unfold email_set. destruct (account_mut s (sr_account_id request)) as [account|] eqn:Ea; [|done].
  destruct (check_caller account caller) as [is_owner|]; [|done]. 
  destruct (match sr_if_in_state request with Some expected => negb (bool_decide (expected = store_state (ma_emails account))) | None => false end); [done|].
  pose proof (email_set_account_ok s account is_owner request caller) as Hok.
  destruct (email_set_account _ _ _ _ _ _) as [account' response]. cbn [fst] in *. intros id a. cbn. rewrite bt_get_insert.
  unfold account_mut in Ea. destruct (bt_get (sr_account_id request) (sv_accounts s)) as [account0|] eqn:Eg; [|done]. injection Ea as ->.
  case_decide; [|apply Hs]. intros [= <-]. apply Hok; [by apply (Hs (sr_account_id request))|done].
Qed.
End set.

(** ** Steps of the message store *)

(** The counters do not run out. *)
Record counters_ok (a : AccountState) (request : SetRequest Email) : Prop := {
  cn_ids : (st_next_id (ma_emails a) + N.of_nat (length (default [] (sr_create request))) <= u64_max)%N;
  cn_state : (st_state (ma_emails a) < u64_max)%N;
}.

(** A store after allocations, and the objects to create under the new ids. *)
Record allocated {T} (s : Store T) (budget : nat) (s' : Store T) (to_create : list (Id * T)) : Prop := {
  al_store : s' =
    Build_Store (st_prefix s) (st_next_id s + N.of_nat (length to_create)) (st_state s) (st_objects s) (st_changes s);
  al_ids : to_create.*1 = (fun i => id_at s (st_next_id s + N.of_nat i)) <$> seq 0 (length to_create);
  al_steps : rtc store_step s s';
  al_len : (length to_create <= budget)%nat;
}.

Lemma allocated_start {T} (s : Store T) : allocated s 0 s [].
Proof. split; cbn; [|done..]. destruct s; cbn. f_equal. lia. Qed.

Lemma allocated_skip {T} (s s' : Store T) budget l : allocated s budget s' l -> allocated s (S budget) s' l.
Proof. intros []. split; [done..|lia]. Qed.

Lemma allocated_next {T} (s s' : Store T) budget l v :
  (st_next_id s + N.of_nat (S budget) <= u64_max)%N -> allocated s budget s' l ->
  allocated s (S budget) (store_alloc_id s').2 (l ++ [((store_alloc_id s').1, v)]).
Proof.
  intros Hb [Hst Hid Hsteps Hlen].
  assert (wrap_u64 (st_next_id s' + 1) = st_next_id s + N.of_nat (S (length l)))%N as Hnext.
  { rewrite Hst. cbn. rewrite wrap_u64_small; lia. }
  split; cbn.
  - rewrite Hnext, length_app, Nat.add_1_r, Hst. done.
  - rewrite fmap_app, length_app, seq_app, fmap_app, Hid. cbn. rewrite Hst. done.
  - eapply rtc_r; [done|]. apply (StepAlloc s'). rewrite Hst. cbn. lia.
  - rewrite length_app. cbn. lia.
Qed.

Lemma allocated_fresh {T} (s s' : Store T) budget l :
  store_wf s -> allocated s budget s' l ->
  NoDup l.*1 /\ Forall (fun e => fresh_id (Build_Transaction s' []) e.1) l.
Proof.
  intros Hwf [Hst Hid _ _]. split.
  - rewrite Hid. apply NoDup_fmap_2_strong; [|apply NoDup_seq]. intros i j _ _ E%id_at_inj. lia.
  - apply Forall_forall. intros e He. apply (list_elem_of_fmap_2 fst) in He. rewrite Hid in He.
    apply list_elem_of_fmap in He as (i&->&Hi). apply elem_of_seq in Hi.
    destruct (lw_fresh _ _ (sw_life _ Hwf) (st_next_id s + N.of_nat i)%N ltac:(lia)) as [Hc Hk].
    unfold fresh_id, transaction_contains, store_contains. cbn. rewrite Hst. cbn. rewrite app_nil_r.
    split_and!; [done|done|]. intros m Hm E%(id_at_inj s (st_next_id s + N.of_nat i)%N m). lia.
Qed.

Lemma email_creates_allocated ext snoozed is_owner caller s budget l c :
  (st_next_id s + N.of_nat (budget + length l) <= u64_max)%N -> allocated s budget (ma_emails (ec_account c)) (ec_to_create c) ->
  let c' := fold_left (email_create ext snoozed is_owner caller) l c in
  allocated s (budget + length l) (ma_emails (ec_account c')) (ec_to_create c').
Proof.
  revert budget c. induction l as [|[cid e] l IH]; intros budget c Hb Hc; cbn [fold_left length] in *; [by rewrite Nat.add_0_r|].
  rewrite Nat.add_succ_r, <-Nat.add_succ_l. apply IH; [by rewrite Nat.add_succ_l, <-Nat.add_succ_r|].
  unfold email_create. destruct (create_refusal _ _ _ _ _ _); [by apply allocated_skip|].
  destruct (store_alloc_id _) as [id emails] eqn:Ea. cbn.
  pose proof (allocated_next s (ma_emails (ec_account c)) budget (ec_to_create c)) as H. rewrite Ea in H. apply H; [lia|done].
Qed.

Lemma destroy_ones_steps {T} ids (t : Transaction T) d nd : rtc tx_step t (fold_left destroy_one ids (t, d, nd)).1.1.
Proof.
  revert t d nd. induction ids as [|id ids IH]; intros t d nd; cbn; [done|].
  pose proof (TxDestroy t id) as Hstep. destruct (transaction_destroy t id) as [[] t']; cbn in Hstep; (eapply rtc_l; [done|apply IH]).
Qed.

Lemma update_ones_steps {T} (l : list (Id * T)) t (updated : btmap Id (option T)) :
  rtc tx_step t (fold_left (fun '(t, updated) e => ((transaction_update t e.1 e.2).2, bt_insert e.1 None updated)) l (t, updated)).1.
Proof. revert t updated. induction l as [|e l IH]; intros t updated; cbn; [done|]. eapply rtc_l; [apply TxUpdate|apply IH]. Qed.

Lemma email_body_steps to_create to_update destroy_ids nd t :
  NoDup to_create.*1 -> Forall (fun e => fresh_id t e.1) to_create ->
  rtc tx_step t (email_body to_create to_update destroy_ids nd t).2.
Proof.
  intros Hd Hf. unfold email_body. pose proof (creates_steps to_create t Hd Hf) as H1. unfold creates in H1.
  set (t1 := fold_left _ to_create t) in *. pose proof (update_ones_steps to_update t1 []) as H2.
  destruct (fold_left _ to_update _) as [t2 upd]. pose proof (destroy_ones_steps destroy_ids t2 [] nd) as H3.
  destruct (fold_left destroy_one _ _) as [[t3 d] nd']. cbn [fst snd] in *. etrans; [done|]. by etrans.
Qed.

Lemma email_set_account_steps serde_error s a is_owner request caller :
  store_wf (ma_emails a) -> counters_ok a request ->
  rtc store_step (ma_emails a) (ma_emails (email_set_account serde_error s a is_owner request caller).1).
Proof.
  intros Hwf [Hids Hstate]. unfold email_set_account. set (c := fold_left (email_create _ _ _ _) _ _).
  assert (allocated (ma_emails a) (0 + length (default [] (sr_create request))) (ma_emails (ec_account c)) (ec_to_create c)) as Hal.
  { apply email_creates_allocated; [done|]. apply allocated_start. }
  destruct (fold_left (email_update_entry _ _ _ _ _ _ _) _ _) as [not_updated to_update].
  destruct (fold_left (email_destroy_entry _ _ _) _ _) as [not_destroyed destroy_ids].
  destruct (store_transaction (ma_emails (ec_account c)) _) as [[[updated destroyed] nd] emails] eqn:Et.
  destruct (store_transaction (ma_threads (ec_account c)) _) as [[] threads]. cbn [fst ma_emails with_threads with_emails].
  replace emails with (store_transaction (ma_emails (ec_account c)) (email_body (ec_to_create c) to_update destroy_ids not_destroyed)).2
    by (by rewrite Et).
  eapply rtc_r; [apply Hal|]. destruct (allocated_fresh _ _ _ _ Hwf Hal) as [Hd Hf].
  apply StepTransaction; [rewrite (al_store _ _ _ _ Hal); done|]. by apply email_body_steps.
Qed.

(** ** A server with two messages *)
Definition sample_message (id : Id) (mailbox_ids : btmap Id bool) : Email :=
  server_set id (lit "B0") (new_thread_id id) 0 (with_mailbox_ids (Some mailbox_ids) email_default).

Definition sample_account : AccountState :=
  {| ma_mailboxes := foldr (fun id s => store_seed_with_id s id (mailbox_new id)) (store_new (lit "M")) [lit "M1"; lit "M2"; lit "Trash"];
     ma_emails := foldr (fun e s => store_seed_with_id s e.1 (sample_message e.1 e.2)) (store_new (lit "E"))
       [(lit "E1", [(lit "M1", true); (lit "M2", true)]); (lit "E2", [(lit "M1", true)])];
     ma_threads := store_new (lit "T"); ma_current_user_principal_id := None; ma_blobs := []; ma_next_blob_id := 1;
     ma_share_notifications := store_new (lit "SN") |}.

Definition sample_server : ServerState :=
  {| sv_accounts := [(lit "A", sample_account)]; sv_objects_in_get := None; sv_email_get_includes_unrequested := true;
     sv_email_update_always_not_found := false; sv_snooze_extension := false; sv_changes_page_size := None;
     sv_changes_never_terminates := false; sv_stalwart_shaped := false; sv_query_page_size := Some 1%N;
     sv_query_hides_limit := false; sv_query_never_terminates := false; sv_dangerous_ids := false; sv_new_mailboxes_default_unsubscribed := false |}.

Lemma sample_message_ok id mailbox_ids : bt_ok mailbox_ids -> email_ok (sample_message id mailbox_ids).
Proof.
  intros Hm. apply server_set_ok; [|by vm_compute]. split; cbn; try done; [|by repeat constructor].
  intros m [= <-]. split; [done|]. by apply Forall_true.
Qed.

Lemma sample_emails id e :
  store_get (ma_emails sample_account) id = Some e ->
  (id = lit "E1" /\ e = sample_message (lit "E1") [(lit "M1", true); (lit "M2", true)]) \/
  (id = lit "E2" /\ e = sample_message (lit "E2") [(lit "M1", true)]).
Proof.
  change (ma_emails sample_account) with
    (store_seed_with_id (store_seed_with_id (store_new (lit "E")) (lit "E2") (sample_message (lit "E2") [(lit "M1", true)]))
       (lit "E1") (sample_message (lit "E1") [(lit "M1", true); (lit "M2", true)])).
  unfold store_get, store_seed_with_id. cbn [st_objects with_objects store_new]. rewrite !bt_get_insert.
  case_decide; [intros [= <-]; by left|]. case_decide; [intros [= <-]; by right|]. done.
Qed.

Lemma sample_server_ok : server_ok sample_server.
Proof.
  intros id a. cbn [sample_server sv_accounts bt_get]. case_decide; [|done]. intros [= <-] k e [[_ ->]|[_ ->]]%sample_emails;
    (apply filed_somewhere_ok; [apply sample_message_ok; by_decide|vm_compute; reflexivity]).
Qed.

Lemma email_set_filed_witness :
  server_ok (email_set (fun _ => []) sample_server
    (Build_SetRequest (lit "A") None (Some [(lit "c1", sample_message [] [(lit "M2", true)])])
       (Some [(lit "E1", Object [(lit "mailboxIds/M1", Null)])]) (Some [lit "E2"])) None).1.
Proof.
  apply email_set_filed; [apply sample_server_ok|]. split; (constructor; [|constructor]).
  - split; [apply sample_message_ok; by_decide|by vm_compute].
  - apply value_ok_object. split; [by_decide|]. constructor; [done|constructor].
Defined.
