(* ===== verification/MockMailbox.v ===== *)
(** The mock server's mailboxes (jmap-mock/src/mail.rs: [mailbox_get], [mailbox_set] and what
    they call; jmap-mock/src/dispatch.rs: [Mailbox/changes]; jmap-mock/src/principals.rs: [record_share_changes]). *)

From Stdlib Require Import Ascii String.
From stdpp Require Import prelude strings.
From S2P Require Import Prelude BTree Text Strings Json Wire Proto Email MailboxWire Store SetOps Patch SetMethod Keywords MockMail.

Local Open Scope rust_scope.

Definition HAS_CHILD : text := lit "mailboxHasChild".
Definition HAS_EMAIL : text := lit "mailboxHasEmail".
Definition MAILBOX : text := lit "Mailbox".

(** ** Mailbox/get *)
Definition with_counts (total unread : N) (b : Mailbox) : Mailbox :=
  {| mb_id := mb_id b; mb_name := mb_name b; mb_parent_id := mb_parent_id b; mb_role := mb_role b; mb_sort_order := mb_sort_order b;
     mb_total_emails := Some total; mb_unread_emails := Some unread; mb_total_threads := Some total;
     mb_unread_threads := Some unread; mb_is_subscribed := mb_is_subscribed b; mb_share_with := mb_share_with b;
     mb_my_rights := mb_my_rights b; mb_extra := mb_extra b |}.

Definition with_my_rights (rights : MailboxRights) (b : Mailbox) : Mailbox :=
  {| mb_id := mb_id b; mb_name := mb_name b; mb_parent_id := mb_parent_id b; mb_role := mb_role b; mb_sort_order := mb_sort_order b;
     mb_total_emails := mb_total_emails b; mb_unread_emails := mb_unread_emails b; mb_total_threads := mb_total_threads b;
     mb_unread_threads := mb_unread_threads b; mb_is_subscribed := mb_is_subscribed b; mb_share_with := mb_share_with b;
     mb_my_rights := Some rights; mb_extra := mb_extra b |}.

Definition is_unread (email : Email) : bool :=
  negb (match em_keywords email with Some keywords => bt_contains SEEN keywords | None => false end).

(** A mailbox with the number of its messages. *)
Definition counted (account : AccountState) (e : Id * Mailbox) : Mailbox :=
  let inside := filter (fun email => filed_in email e.1 = true) (st_objects (ma_emails account)).*2 in
  with_counts (N.of_nat (length inside)) (N.of_nat (length (filter (fun email => is_unread email = true) inside))) e.2.

Definition visible_mailbox (mailbox : Mailbox) (is_owner : bool) (caller : option Id) : option Mailbox :=
  if is_owner then Some mailbox
  else let! c := caller in
       let! rights := mailbox_rights_for mailbox c in
       Some (with_my_rights rights mailbox).

Definition mailbox_get_step (mailboxes : list Mailbox) (is_owner : bool) (caller : option Id) (acc : list Mailbox * list Id) (id : Id)
  : list Mailbox * list Id :=
  match (let! mailbox := find (fun mailbox => bool_decide (mb_id mailbox = Some id)) mailboxes in visible_mailbox mailbox is_owner caller) with
  | Some mailbox => (acc.1 ++ [mailbox], acc.2)
  | None => (acc.1, acc.2 ++ [id])
  end.

Definition mailbox_get (s : ServerState) (request : GetRequest) (caller : option Id) : result (GetResponse Mailbox) MethodError :=
  let? account := account_mut s (gq_account_id request) in
  let? is_owner := check_caller account caller in
  let mailboxes := counted account <$> st_objects (ma_mailboxes account) in
  let '(list, not_found) :=
    match gq_ids request with
    | None => (omap (fun mailbox => visible_mailbox mailbox is_owner caller) mailboxes, [])
    | Some ids => fold_left (mailbox_get_step mailboxes is_owner caller) ids ([], [])
    end in
  Ok {| gr_account_id := gq_account_id request; gr_state := store_state (ma_mailboxes account); gr_list := list; gr_not_found := not_found |}.

(** ** Mailbox/changes (jmap-mock/src/dispatch.rs) *)
Definition mailbox_changes (s : ServerState) (request : ChangesRequest) : result ChangesResponse MethodError :=
  let? account := account_mut s (cr_account_id request) in
  let? response := store_changes (ma_mailboxes account) request (sv_changes_page_size s) (sv_stalwart_shaped s) in
  Ok (never_terminating s response).

(** ** The rules of a mailbox *)
Definition may_create_mailbox_child (tree : btmap Id Mailbox) (parent_id : option Id) (caller : Id) : bool :=
  default false
    (let! parent_id := parent_id in
     let! parent := bt_get parent_id tree in
     let! rights := mailbox_rights_for parent caller in
     mr_may_create_child rights).

Definition SHARE_WITH : text := lit "shareWith".

Definition is_share_key (key : text) : bool := bool_decide (key = SHARE_WITH) || starts_with (SHARE_WITH ++ lit "/") key.

Definition may_update_mailbox (mailbox : Mailbox) (patch_keys : list text) (caller : Id) : bool :=
  let rights := mailbox_rights_for mailbox caller in
  let may_rename := default false (let! rights := rights in mr_may_rename rights) in
  let may_share := default false (let! rights := rights in mr_may_share rights) in
  let needs_share := existsb is_share_key patch_keys in
  let needs_rename := existsb (fun key => negb (is_share_key key)) patch_keys in
  (negb needs_share || may_share) && (negb needs_rename || may_rename).

(** The bounded walk up the parents: whether it meets [own]. *)
Fixpoint meets (steps : nat) (tree : btmap Id Mailbox) (own : Id) (above : option Id) : bool :=
  match steps, above with
  | O, _ | _, None => false
  | S steps, Some here =>
      if decide (here = own) then true else meets steps tree own (let! mailbox := bt_get here tree in mb_parent_id mailbox)
  end.

Definition invalid_properties (description : text) : SetError := set_error_with_description (set_error_new INVALID_PROPERTIES) description.

Definition elsewhere (own : option Id) (id : Id) : bool := negb (bool_decide (own = Some id)).

Definition placeable (tree : btmap Id Mailbox) (own : option Id) (mailbox : Mailbox) : result unit SetError :=
  if bool_decide (mb_name mailbox = []) then Err (invalid_properties (lit "name must not be empty"))
  else
    let? _ :=
      match mb_parent_id mailbox with
      | None => Ok tt
      | Some parent =>
          if negb (bt_contains parent tree)
          then Err (invalid_properties (lit "parentId names " ++ parent ++ lit ", which is not a mailbox"))
          else match own with
            | Some own => if meets (S (length tree)) tree own (Some parent) then Err (invalid_properties (lit "a mailbox cannot be inside itself")) else Ok tt
            | None => Ok tt
            end
      end in
    if existsb (fun e => elsewhere own e.1 && bool_decide (mb_parent_id e.2 = mb_parent_id mailbox) && bool_decide (mb_name e.2 = mb_name mailbox)) tree
    then Err (invalid_properties (lit "another mailbox of the same parent is already named " ++ mb_name mailbox))
    else match mb_role mailbox with
      | Some role =>
          if existsb (fun e => elsewhere own e.1 && bool_decide (mb_role e.2 = Some role)) tree
          then Err (invalid_properties (lit "another mailbox already has the role " ++ role))
          else Ok tt
      | None => Ok tt
      end.

Definition counted_empty (mailbox : Mailbox) : Mailbox := with_counts 0 0 mailbox.

(** ** Notifications of changed shares *)
Definition share_change (object_type : text) (object_id object_account_id : Id) (old_rights new_rights : option Value) : ShareNotification :=
  {| sn_id := None; sn_created := MOCK_NOW; sn_object_type := object_type; sn_object_id := object_id;
     sn_object_account_id := object_account_id; sn_name := None; sn_old_rights := old_rights; sn_new_rights := new_rights;
     sn_notification_extra := [] |}.

Definition with_notification_id (id : Id) (n : ShareNotification) : ShareNotification :=
  {| sn_id := Some id; sn_created := sn_created n; sn_object_type := sn_object_type n; sn_object_id := sn_object_id n;
     sn_object_account_id := sn_object_account_id n; sn_name := sn_name n; sn_old_rights := sn_old_rights n;
     sn_new_rights := sn_new_rights n; sn_notification_extra := sn_notification_extra n |}.

#[export] Instance MailboxRights_eq_dec : EqDecision MailboxRights.
Proof. solve_decision. Defined.

(** The changes of the rights, each with the principal that it tells. *)
Definition share_changes (object_id object_account_id : Id) (old new : option (btmap Id MailboxRights)) : list (Id * ShareNotification) :=
  let old := default [] old in
  let new := default [] new in
  let recipients := bs_union (bs_union [] old.*1) new.*1 in
  omap (fun recipient =>
    let old_rights := bt_get recipient old in
    let new_rights := bt_get recipient new in
    if bool_decide (old_rights = new_rights) then None
    else Some (recipient, share_change MAILBOX object_id object_account_id (rights_to_value <$> old_rights) (rights_to_value <$> new_rights)))
    recipients.

Definition notify_body (to_create : list (Id * ShareNotification)) (t : Transaction (Id * ShareNotification))
  : unit * Transaction (Id * ShareNotification) :=
  (tt, fold_left (fun t e =>
         let '(id, t) := transaction_alloc_id t in transaction_create t id (e.1, with_notification_id id e.2)) to_create t).

Definition with_share_notifications (n : Store (Id * ShareNotification)) (a : AccountState) : AccountState :=
  {| ma_mailboxes := ma_mailboxes a; ma_emails := ma_emails a; ma_threads := ma_threads a;
     ma_current_user_principal_id := ma_current_user_principal_id a; ma_blobs := ma_blobs a; ma_next_blob_id := ma_next_blob_id a;
     ma_share_notifications := n |}.

Definition with_mailboxes (m : Store Mailbox) (a : AccountState) : AccountState :=
  {| ma_mailboxes := m; ma_emails := ma_emails a; ma_threads := ma_threads a;
     ma_current_user_principal_id := ma_current_user_principal_id a; ma_blobs := ma_blobs a; ma_next_blob_id := ma_next_blob_id a;
     ma_share_notifications := ma_share_notifications a |}.

Definition record_share_changes (account : AccountState) (object_id object_account_id : Id) (old new : option (btmap Id MailboxRights))
  : AccountState :=
  match share_changes object_id object_account_id old new with
  | [] => account
  | to_create => with_share_notifications (store_transaction (ma_share_notifications account) (notify_body to_create)).2 account
  end.

(** ** Mailbox/set *)
Record MailboxCreating := {
  mc_account : AccountState;
  mc_tree : btmap Id Mailbox;
  mc_created : btmap text Mailbox;
  mc_not_created : btmap text SetError;
  mc_to_create : list (Id * Mailbox);
}.

(** The server-set properties of a new mailbox. *)
Definition mailbox_server_set (id : Id) (default_unsubscribed : bool) (b : Mailbox) : Mailbox :=
  {| mb_id := Some id; mb_name := mb_name b; mb_parent_id := mb_parent_id b; mb_role := mb_role b;
     mb_sort_order := Some (default 0%N (mb_sort_order b)); mb_total_emails := mb_total_emails b;
     mb_unread_emails := mb_unread_emails b; mb_total_threads := mb_total_threads b; mb_unread_threads := mb_unread_threads b;
     mb_is_subscribed := Some (default (negb default_unsubscribed) (mb_is_subscribed b)); mb_share_with := mb_share_with b;
     mb_my_rights := mb_my_rights b; mb_extra := mb_extra b |}.

Record MailboxUpdating := {
  mu_account : AccountState;
  mu_tree : btmap Id Mailbox;
  mu_not_updated : btmap Id SetError;
  mu_to_update : list (Id * Mailbox);
}.

Record MailboxDestroying := {
  md_tree : btmap Id Mailbox;
  md_destroyed : list Id;
  md_not_destroyed : btmap Id SetError;
}.

Section mailbox_set.
(** The message of a serde error. *)
Variable serde_error : Value -> text.
Variable default_unsubscribed : bool.
Variables (is_owner : bool) (caller : option Id).

(** Why a mailbox may not be created: the first check that refuses. *)
Definition mailbox_create_refusal (tree : btmap Id Mailbox) (mailbox : Mailbox) : option SetError :=
  match mb_id mailbox with
  | Some _ => Some (invalid_properties (lit "id is set by the server and must not be given in a create"))
  | None =>
      match placeable tree None mailbox with
      | Err refusal => Some refusal
      | Ok _ => if may is_owner caller (may_create_mailbox_child tree (mb_parent_id mailbox)) then None else Some no_write_access
      end
  end.

Definition mailbox_create_entry (c : MailboxCreating) (e : text * Mailbox) : MailboxCreating :=
  let '(creation_id, mailbox) := e in
  match mailbox_create_refusal (mc_tree c) mailbox with
  | Some refusal =>
      {| mc_account := mc_account c; mc_tree := mc_tree c; mc_created := mc_created c;
         mc_not_created := bt_insert creation_id refusal (mc_not_created c); mc_to_create := mc_to_create c |}
  | None =>
      let '(id, mailboxes) := store_alloc_id (ma_mailboxes (mc_account c)) in
      let mailbox := mailbox_server_set id default_unsubscribed mailbox in
      {| mc_account := with_mailboxes mailboxes (mc_account c); mc_tree := bt_insert id mailbox (mc_tree c);
         mc_created := bt_insert creation_id (counted_empty mailbox) (mc_created c); mc_not_created := mc_not_created c;
         mc_to_create := mc_to_create c ++ [(id, mailbox)] |}
  end.

(** The mailbox before and after the patch, or why the update is refused. *)
Definition mailbox_patched (tree : btmap Id Mailbox) (id : Id) (patch : Value) : result (Mailbox * Mailbox) SetError :=
  let? existing := ok_or (bt_get id tree) (set_error_new NOT_FOUND) in
  let? patch_map := ok_or (as_object patch) (set_error_new INVALID_PATCH) in
  if negb (may is_owner caller (may_update_mailbox existing patch_map.*1)) then Err no_write_access
  else
    let '(value, r) := apply_patch (mailbox_to_value existing) patch_map in
    let? _ := map_err (fun message => set_error_with_description (set_error_new INVALID_PATCH) message) r in
    let? patched := ok_or (mailbox_from_value value) (set_error_with_description (set_error_new INVALID_PATCH) (serde_error value)) in
    if negb (bool_decide (mb_id patched = Some id)) then Err (invalid_properties (lit "id is immutable"))
    else let? _ := placeable tree (Some id) patched in Ok (existing, patched).

Definition mailbox_update_entry (account_id : Id) (u : MailboxUpdating) (e : Id * Value) : MailboxUpdating :=
  let '(id, patch) := e in
  match mailbox_patched (mu_tree u) id patch with
  | Err refusal =>
      {| mu_account := mu_account u; mu_tree := mu_tree u; mu_not_updated := bt_insert id refusal (mu_not_updated u);
         mu_to_update := mu_to_update u |}
  | Ok (existing, patched) =>
      {| mu_account := record_share_changes (mu_account u) id account_id (mb_share_with existing) (mb_share_with patched);
         mu_tree := bt_insert id patched (mu_tree u); mu_not_updated := mu_not_updated u;
         mu_to_update := mu_to_update u ++ [(id, patched)] |}
  end.

Definition may_delete_mailbox (mailbox : Mailbox) (caller : Id) : bool :=
  default false (let! rights := mailbox_rights_for mailbox caller in mr_may_delete rights).

(** Why a mailbox may not be destroyed. *)
Definition mailbox_destroy_refusal (account : AccountState) (tree : btmap Id Mailbox) (id : Id) : option SetError :=
  match bt_get id tree with
  | None => Some (set_error_new NOT_FOUND)
  | Some existing =>
      if negb (may is_owner caller (may_delete_mailbox existing)) then Some no_write_access
      else if existsb (fun e => bool_decide (mb_parent_id e.2 = Some id)) tree then Some (set_error_new HAS_CHILD)
      else if existsb (fun e => filed_in e.2 id) (st_objects (ma_emails account)) then Some (set_error_new HAS_EMAIL)
      else None
  end.

Definition mailbox_destroy_entry (account : AccountState) (d : MailboxDestroying) (id : Id) : MailboxDestroying :=
  match mailbox_destroy_refusal account (md_tree d) id with
  | Some refusal =>
      {| md_tree := md_tree d; md_destroyed := md_destroyed d; md_not_destroyed := bt_insert id refusal (md_not_destroyed d) |}
  | None => {| md_tree := bt_remove id (md_tree d); md_destroyed := md_destroyed d ++ [id]; md_not_destroyed := md_not_destroyed d |}
  end.

(** The transaction on the mailboxes. *)
Definition mailbox_body (to_create to_update : list (Id * Mailbox)) (destroyed : list Id) (t : Transaction Mailbox)
  : btmap Id (option Mailbox) * Transaction Mailbox :=
  let t := fold_left (fun t e => transaction_create t e.1 e.2) to_create t in
  let '(t, updated) :=
    fold_left (fun '(t, updated) e => ((transaction_update t e.1 e.2).2, bt_insert e.1 None updated)) to_update (t, []) in
  (updated, fold_left (fun t id => (transaction_destroy t id).2) destroyed t).

Definition mailbox_set_account (account : AccountState) (request : SetRequest Mailbox) : AccountState * SetResponse Mailbox :=
  let old_state := store_state (ma_mailboxes account) in
  let c := fold_left mailbox_create_entry (default [] (sr_create request))
    {| mc_account := account; mc_tree := st_objects (ma_mailboxes account); mc_created := []; mc_not_created := []; mc_to_create := [] |} in
  let u := fold_left (mailbox_update_entry (sr_account_id request)) (default [] (sr_update request))
    {| mu_account := mc_account c; mu_tree := mc_tree c; mu_not_updated := []; mu_to_update := [] |} in
  let d := fold_left (mailbox_destroy_entry (mu_account u)) (default [] (sr_destroy request))
    {| md_tree := mu_tree u; md_destroyed := []; md_not_destroyed := [] |} in
  let '(updated, mailboxes) :=
    store_transaction (ma_mailboxes (mu_account u)) (mailbox_body (mc_to_create c) (mu_to_update u) (md_destroyed d)) in
  (with_mailboxes mailboxes (mu_account u),
   {| sp_account_id := sr_account_id request;
      sp_old_state := Some old_state;
      sp_new_state := Some (store_state mailboxes);
      sp_created := non_empty (mc_created c);
      sp_updated := non_empty updated;
      sp_destroyed := non_empty (md_destroyed d);
      sp_not_created := non_empty (mc_not_created c);
      sp_not_updated := non_empty (mu_not_updated u);
      sp_not_destroyed := non_empty (md_not_destroyed d) |}).
End mailbox_set.

Definition mailbox_set (serde_error : Value -> text) (s : ServerState) (request : SetRequest Mailbox) (caller : option Id)
  : ServerState * result (SetResponse Mailbox) MethodError :=
  match account_mut s (sr_account_id request) with
  | Err e => (s, Err e)
  | Ok account =>
      let is_owner := account_is_owner account caller in
      if match sr_if_in_state request with
         | Some expected => negb (bool_decide (expected = store_state (ma_mailboxes account)))
         | None => false
         end
      then (s, Err (method_error_new STATE_MISMATCH))
      else
        let '(account, response) :=
          mailbox_set_account serde_error (sv_new_mailboxes_default_unsubscribed s) is_owner caller account request in
        (with_account (sr_account_id request) account s, Ok response)
  end.
