(* ===== verification/MailboxForest.v ===== *)
(** What the mock's [Mailbox/set] keeps (jmap-mock/src/mail.rs: [placeable], [mailbox_set]): the
    mailboxes of an account are a forest with distinct sibling names, whatever the request. *)

From Stdlib Require Import Ascii String.
From stdpp Require Import prelude strings.
From S2P Require Import Prelude BTree Text Strings Json Wire Proto Email MailboxWire Store SetOps Patch SetMethod Keywords MockMail MockMailSet MockMailbox.

Local Open Scope rust_scope.

(** ** Forests *)

(** The number of mailboxes from a mailbox up to the top, itself included. *)
Inductive rooted (tree : btmap Id Mailbox) : Id -> nat -> Prop :=
| RootedTop id b : bt_get id tree = Some b -> mb_parent_id b = None -> rooted tree id 1
| RootedBelow id b p n : bt_get id tree = Some b -> mb_parent_id b = Some p -> rooted tree p n -> rooted tree id (S n).

Record forest_tree (tree : btmap Id Mailbox) : Prop := {
  ft_ok : bt_ok tree;
  ft_self : forall id b, bt_get id tree = Some b -> mb_id b = Some id /\ mb_name b <> [] /\ mailbox_ok b;
  ft_rooted : forall id b, bt_get id tree = Some b -> exists n, rooted tree id n;
  ft_siblings : forall id b id' b', bt_get id tree = Some b -> bt_get id' tree = Some b' ->
    mb_parent_id b = mb_parent_id b' -> mb_name b = mb_name b' -> id = id';
  ft_roles : forall id b id' b' role, bt_get id tree = Some b -> bt_get id' tree = Some b' ->
    mb_role b = Some role -> mb_role b' = Some role -> id = id';
}.

Lemma rooted_det tree id n n' : rooted tree id n -> rooted tree id n' -> n = n'.
Proof.
  intros H. revert n'. induction H as [id b Hb Hp|id b p n Hb Hp _ IH]; intros n' H'; inversion H' as [? b' Hb' Hp'|? b' p' m Hb' Hp' Hr']; subst;
    rewrite Hb in Hb'; injection Hb' as <-; rewrite Hp in Hp'; try done. injection Hp' as <-. f_equal. by apply IH.
Qed.

Lemma rooted_positive tree id n : rooted tree id n -> (0 < n)%nat.
Proof. destruct 1; lia. Qed.

Lemma bt_get_key {V} (m : btmap Id V) k v : bt_get k m = Some v -> k ∈ m.*1.
Proof. intros H%bt_get_Some_elem. by apply (list_elem_of_fmap_2 fst) in H. Qed.

(** The mailboxes from one up to the top are distinct mailboxes of the tree. *)
Lemma rooted_chain tree id n :
  rooted tree id n -> exists l, length l = n /\ NoDup l /\ l ⊆ tree.*1 /\ forall x, x ∈ l -> exists m, (m <= n)%nat /\ rooted tree x m.
Proof.
  induction 1 as [id b Hb Hp|id b p n Hb Hp Hr (l&Hlen&Hnd&Hsub&Hl)].
  - exists [id]. split_and!; [done|by apply NoDup_singleton| |].
    + intros x ->%list_elem_of_singleton. by eapply bt_get_key.
    + intros x ->%list_elem_of_singleton. exists 1%nat. split; [lia|]. by eapply RootedTop.
  - exists (id :: l). split_and!; [by cbn; rewrite Hlen| | |].
    + constructor; [|done]. intros (m&Hm&Hrm)%Hl. assert (rooted tree id (S n)) as Hid by (by eapply RootedBelow).
      pose proof (rooted_det _ _ _ _ Hid Hrm). lia.
    + intros x [->|Hx]%elem_of_cons; [by eapply bt_get_key|by apply Hsub].
    + intros x [->|(m&Hm&Hrm)%Hl]%elem_of_cons; [exists (S n); split; [lia|by eapply RootedBelow]|exists m; split; [lia|done]].
Qed.

Lemma rooted_le tree id n : rooted tree id n -> (n <= length tree)%nat.
Proof.
  intros (l&<-&Hn&Hs&_)%rooted_chain. rewrite <- (length_fmap fst tree). by apply submseteq_length, NoDup_submseteq.
Qed.

(** A walk up that does not meet a mailbox is not touched by a change of that mailbox. *)
Lemma rooted_insert tree own b' p n steps :
  rooted tree p n -> (n <= steps)%nat -> meets steps tree own (Some p) = false -> rooted (bt_insert own b' tree) p n.
Proof.
  intros H. revert steps. induction H as [id b Hb Hp|id b p n Hb Hp _ IH]; intros steps Hs Hm; (destruct steps as [|steps]; [lia|]);
    cbn [meets] in Hm; rewrite Hb in Hm; cbn [mbind option_bind] in Hm; case_decide; try done.
  - eapply RootedTop; [|done]. by rewrite bt_get_insert, decide_False by done.
  - eapply RootedBelow; [by rewrite bt_get_insert, decide_False by done|done|]. rewrite Hp in Hm. apply (IH steps); [lia|done].
Qed.

Lemma meets_missing tree own steps above : bt_get own tree = None -> (forall p, above = Some p -> exists n, rooted tree p n) -> meets steps tree own above = false.
Proof.
  intros Hown. revert above. induction steps as [|steps IH]; intros above Ha; [done|]. destruct above as [p|]; [|done].
  cbn [meets]. destruct (Ha p eq_refl) as [n Hr]. inversion Hr as [? b Hb Hp|? b q m Hb Hp Hq]; subst;
    rewrite decide_False by congruence; rewrite Hb; cbn [mbind option_bind]; apply IH; rewrite Hp; [done|]. intros ? [= <-]. by eexists.
Qed.

Lemma rooted_others tree own b' id n m :
  rooted tree id n -> rooted (bt_insert own b' tree) own m -> exists k, rooted (bt_insert own b' tree) id k.
Proof.
  intros H Hown. induction H as [id b Hb Hp|id b p n Hb Hp _ (k&IH)]; destruct (decide (id = own)) as [->|Hne]; try by exists m.
  - exists 1%nat. eapply RootedTop; [|done]. by rewrite bt_get_insert, decide_False by done.
  - exists (S k). eapply RootedBelow; [|done|done]. by rewrite bt_get_insert, decide_False by done.
Qed.

Lemma rooted_remove tree own id n :
  (forall id b, bt_get id tree = Some b -> mb_parent_id b <> Some own) -> rooted tree id n -> id <> own -> rooted (bt_remove own tree) id n.
Proof.
  intros Hno H. induction H as [id b Hb Hp|id b p n Hb Hp _ IH]; intros Hne.
  - eapply RootedTop; [|done]. by rewrite bt_get_remove, decide_False by done.
  - eapply RootedBelow; [by rewrite bt_get_remove, decide_False by done|done|]. apply IH. intros ->. by apply (Hno id b).
Qed.

(** ** One change *)

(** What [placeable] checks of a mailbox. *)
Record placed_ok (tree : btmap Id Mailbox) (own : option Id) (b : Mailbox) : Prop := {
  po_name : mb_name b <> [];
  po_parent : forall p, mb_parent_id b = Some p -> is_Some (bt_get p tree) /\
    forall id, own = Some id -> meets (S (length tree)) tree id (Some p) = false;
  po_siblings : forall id b', bt_get id tree = Some b' -> own <> Some id -> mb_parent_id b' = mb_parent_id b -> mb_name b' <> mb_name b;
  po_roles : forall id b' role, bt_get id tree = Some b' -> own <> Some id -> mb_role b = Some role -> mb_role b' <> Some role;
}.

Lemma existsb_none {A} (f : A -> bool) l x : existsb f l = false -> x ∈ l -> f x = false.
Proof. intros H Hx. destruct (f x) eqn:E; [|done]. assert (existsb f l = true); [|congruence]. apply existsb_exists. exists x. by rewrite <- list_elem_of_In. Qed.

Lemma placeable_ok tree own b : placeable tree own b = Ok tt -> placed_ok tree own b.
Proof.
  unfold placeable. case_bool_decide as Hname; [done|]. intros (u&Hp&H)%rbind_ok.
  destruct (existsb _ tree) eqn:Es in H; [done|]. split; [done| | |].
  - intros p Hb. rewrite Hb in Hp. destruct (bt_contains p tree) eqn:Ec; [|done]. cbn [negb] in Hp. split; [by apply bt_contains_true|].
    intros id ->. by destruct (meets _ _ _ _).
  - intros id b' Hb' Hne Hpar Hn. apply bt_get_Some_elem, (existsb_none _ _ _ Es) in Hb'. cbn in Hb'. unfold elsewhere in Hb'.
    rewrite bool_decide_eq_false_2, bool_decide_eq_true_2, bool_decide_eq_true_2 in Hb' by done. done.
  - intros id b' role Hb' Hne Hr Hr'. rewrite Hr in H. destruct (existsb _ tree) eqn:Er in H; [done|].
    apply bt_get_Some_elem, (existsb_none _ _ _ Er) in Hb'. cbn in Hb'. unfold elsewhere in Hb'.
    rewrite bool_decide_eq_false_2, bool_decide_eq_true_2 in Hb' by done. done.
Qed.

Lemma forest_insert tree own id b :
  forest_tree tree -> own = Some id \/ (own = None /\ bt_get id tree = None) ->
  placed_ok tree own b -> mb_id b = Some id -> mailbox_ok b -> forest_tree (bt_insert id b tree).
Proof.
  intros [Hok Hself Hroot Hsib Hrole] Hown [Hname Hpar Hsibs Hroles] Hid Hb.
  assert (forall k b', bt_get k (bt_insert id b tree) = Some b' -> (k = id /\ b' = b) \/ (k <> id /\ bt_get k tree = Some b')) as Hget.
  { intros k b'. rewrite bt_get_insert. case_decide; [intros [= <-]; by left|]. by right. }
  assert (forall k, k <> id -> own <> Some k) as Hne by naive_solver.
  assert (exists n, rooted (bt_insert id b tree) id n) as (n&Hn).
  { destruct (mb_parent_id b) as [p|] eqn:Ep.
    - destruct (Hpar p eq_refl) as [[pb Hpb] Hm]. destruct (Hroot p pb Hpb) as [n Hn]. exists (S n).
      eapply RootedBelow; [by rewrite bt_get_insert, decide_True|done|]. pose proof (rooted_le _ _ _ Hn).
      eapply (rooted_insert _ _ _ _ _ (S (length tree))); [done|lia|]. destruct Hown as [->|[-> Hnone]]; [by apply Hm|].
      apply meets_missing; [done|]. intros q [= <-]. by exists n.
    - exists 1%nat. eapply RootedTop; [by rewrite bt_get_insert, decide_True|done]. }
  split.
  - by apply bt_insert_ok.
  - intros k b' [[-> ->]|[_ Hk]]%Hget; [done|by apply Hself].
  - intros k b' [[-> ->]|[_ Hk]]%Hget; [by exists n|]. destruct (Hroot k b' Hk) as [m Hm]. by eapply rooted_others.
  - intros k1 b1 k2 b2 [[-> ->]|[H1 Hk1]]%Hget [[-> ->]|[H2 Hk2]]%Hget Hpp Hnn; [done| | |by eapply Hsib].
    + by destruct (Hsibs k2 b2 Hk2 (Hne _ H2) (eq_sym Hpp)).
    + by destruct (Hsibs k1 b1 Hk1 (Hne _ H1) Hpp).
  - intros k1 b1 k2 b2 role [[-> ->]|[H1 Hk1]]%Hget [[-> ->]|[H2 Hk2]]%Hget Hr1 Hr2; [done| | |by eapply Hrole].
    + by destruct (Hroles k2 b2 role Hk2 (Hne _ H2) Hr1).
    + by destruct (Hroles k1 b1 role Hk1 (Hne _ H1) Hr2).
Qed.

Lemma forest_remove tree id :
  forest_tree tree -> (forall k b, bt_get k tree = Some b -> mb_parent_id b <> Some id) -> forest_tree (bt_remove id tree).
Proof.
  intros [Hok Hself Hroot Hsib Hrole] Hno.
  assert (forall k b, bt_get k (bt_remove id tree) = Some b -> k <> id /\ bt_get k tree = Some b) as Hget.
  { intros k b. rewrite bt_get_remove. by case_decide. }
  split.
  - by apply bt_remove_ok.
  - intros k b [_ Hk]%Hget. by apply Hself.
  - intros k b [Hne Hk]%Hget. destruct (Hroot k b Hk) as [n Hn]. exists n. by apply rooted_remove.
  - intros k1 b1 k2 b2 [_ H1]%Hget [_ H2]%Hget. by apply Hsib.
  - intros k1 b1 k2 b2 role [_ H1]%Hget [_ H2]%Hget. by apply Hrole.
Qed.

(** ** The handler *)
Lemma bt_remove_absent {V} k (m : btmap Id V) : bt_get k m = None -> bt_remove k m = m.
Proof.
  intros Hk%bt_get_None_elem. unfold bt_remove. induction m as [|[k' v] m IH]; [done|]. rewrite fmap_cons in Hk.
  apply not_elem_of_cons in Hk as [Hne Hk]. rewrite filter_cons. cbn [fst]. by rewrite decide_True, IH.
Qed.

(** A request as it is read from JSON. *)
Record mailbox_request_ok (request : SetRequest Mailbox) : Prop := {
  mq_create : Forall (fun e => mailbox_ok e.2) (default [] (sr_create request));
  mq_update : Forall (fun e => value_ok e.2) (default [] (sr_update request));
}.

(** The counters do not run out. *)
Record mailbox_counters_ok (a : AccountState) (request : SetRequest Mailbox) : Prop := {
  mn_ids : (st_next_id (ma_mailboxes a) + N.of_nat (length (default [] (sr_create request))) <= u64_max)%N;
  mn_state : (st_state (ma_mailboxes a) < u64_max)%N;
}.

Definition inserts {T} (l : list (Id * T)) (m : btmap Id T) : btmap Id T := fold_left (fun m e => bt_insert e.1 e.2 m) l m.

Section set.
Variable serde_error : Value -> text.
Variable default_unsubscribed : bool.
Variables (is_owner : bool) (caller : option Id).

Lemma mailbox_server_set_ok id b : mailbox_ok b -> mailbox_ok (mailbox_server_set id default_unsubscribed b).
Proof using Type.
  intros [Ho]. split; cbn; try done. intros n [= <-]. destruct (mb_sort_order b) as [o|]; cbn; [by apply Ho|]. by unfold u32_max.
Qed.

(** While the mailboxes are created: the tree has the new ones, the store has their ids. *)
Record creating (a : AccountState) (budget : nat) (c : MailboxCreating) : Prop := {
  cg_forest : forest_tree (mc_tree c);
  cg_tree : mc_tree c = inserts (mc_to_create c) (st_objects (ma_mailboxes a));
  cg_store : allocated (ma_mailboxes a) budget (ma_mailboxes (mc_account c)) (mc_to_create c);
  cg_account : mc_account c = with_mailboxes (ma_mailboxes (mc_account c)) a;
}.

Lemma inserts_get {T} (l : list (Id * T)) m k : k ∉ l.*1 -> bt_get k (inserts l m) = bt_get k m.
Proof using Type.
  revert m. induction l as [|[k' v] l IH]; intros m; [done|].
  rewrite fmap_cons. intros [Hne Hk]%not_elem_of_cons. change (inserts ((k', v) :: l) m) with (inserts l (bt_insert k' v m)). rewrite IH by done.
  by rewrite bt_get_insert, decide_False.
Qed.

Lemma next_id_new (a : AccountState) budget (s' : Store Mailbox) l :
  store_wf (ma_mailboxes a) -> allocated (ma_mailboxes a) budget s' l ->
  bt_get (store_alloc_id s').1 (inserts l (st_objects (ma_mailboxes a))) = None.
Proof using Type.
  intros Hwf [Hst Hid _ _]. rewrite inserts_get.
  - rewrite Hst. cbn. destruct (lw_fresh _ _ (sw_life _ Hwf) (st_next_id (ma_mailboxes a) + N.of_nat (length l))%N ltac:(lia)) as [Hc _].
    by apply bt_contains_false in Hc.
  - rewrite Hid, Hst. cbn. intros (i&E&Hi)%list_elem_of_fmap. apply elem_of_seq in Hi. 
    assert (st_next_id (ma_mailboxes a) + N.of_nat (length l) = st_next_id (ma_mailboxes a) + N.of_nat i)%N; [|lia]. by apply (id_at_inj (ma_mailboxes a)).
Qed.

Lemma mailbox_create_creating a budget c e :
  store_wf (ma_mailboxes a) -> (st_next_id (ma_mailboxes a) + N.of_nat (S budget) <= u64_max)%N -> mailbox_ok e.2 ->
  creating a budget c -> creating a (S budget) (mailbox_create_entry default_unsubscribed is_owner caller c e).
Proof using Type.
  intros Hwf Hb He [Hf Ht Hs Ha]. destruct e as [cid b]. cbn [snd] in He. unfold mailbox_create_entry.
  destruct (mailbox_create_refusal _ _ _ _) eqn:Er; [split; cbn; [done..|by apply allocated_skip|done]|].
  destruct (store_alloc_id (ma_mailboxes (mc_account c))) as [id mailboxes] eqn:Ea.
  pose proof (next_id_new a budget _ _ Hwf Hs) as Hnew. rewrite Ea, <- Ht in Hnew. cbn [fst] in Hnew.
  set (b' := mailbox_server_set id default_unsubscribed b).
  pose proof (allocated_next _ _ _ _ b' Hb Hs) as Hnext. rewrite Ea in Hnext. cbn [fst snd] in Hnext.
  split; cbn [mc_tree mc_to_create mc_account]; [| |exact Hnext|by rewrite Ha].
  - apply (forest_insert _ None); [done|by right| |done|by apply mailbox_server_set_ok].
    unfold mailbox_create_refusal in Er. destruct (mb_id b); [done|]. destruct (placeable (mc_tree c) None b) as [[]|] eqn:Ep; [|done].
    apply placeable_ok in Ep as []. by split.
  - unfold inserts. rewrite fold_left_app. cbn. by rewrite Ht.
Qed.

Lemma mailbox_creates_creating a budget c l :
  store_wf (ma_mailboxes a) -> (st_next_id (ma_mailboxes a) + N.of_nat (budget + length l) <= u64_max)%N -> Forall (fun e => mailbox_ok e.2) l ->
  creating a budget c -> creating a (budget + length l) (fold_left (mailbox_create_entry default_unsubscribed is_owner caller) l c).
Proof using Type.
  intros Hwf Hb Hl. revert budget c Hb. induction Hl as [|e l He _ IH]; intros budget c Hb Hc; cbn [fold_left length] in *; [by rewrite Nat.add_0_r|].
  rewrite Nat.add_succ_r, <-Nat.add_succ_l. apply IH; [by rewrite Nat.add_succ_l, <-Nat.add_succ_r|].
  apply mailbox_create_creating; [done|lia|done|done].
Qed.

(** While they are updated. *)
Record updating (tree : btmap Id Mailbox) (a : AccountState) (u : MailboxUpdating) : Prop := {
  ug_forest : forest_tree (mu_tree u);
  ug_tree : mu_tree u = inserts (mu_to_update u) tree;
  ug_known : Forall (fun e => is_Some (bt_get e.1 tree)) (mu_to_update u);
  ug_mailboxes : ma_mailboxes (mu_account u) = ma_mailboxes a;
  ug_emails : ma_emails (mu_account u) = ma_emails a;
}.

Lemma mailbox_patched_ok tree id patch existing patched :
  forest_tree tree -> value_ok patch ->
  mailbox_patched serde_error is_owner caller tree id patch = Ok (existing, patched) ->
  bt_get id tree = Some existing /\ placed_ok tree (Some id) patched /\ mb_id patched = Some id /\ mailbox_ok patched.
Proof using Type.
  intros Hf Hp. unfold mailbox_patched. intros (b&Hb&(m&Hm&H)%rbind_ok)%rbind_ok.
  destruct (bt_get id tree) as [b0|] eqn:Eb; [|done]. injection Hb as ->. destruct patch as [| | | | |m0]; try done. injection Hm as ->.
  destruct (negb _); [done|]. destruct (ft_self _ Hf id b Eb) as (_&_&Hbok).
  pose proof (apply_patch_ok (mailbox_to_value b) m (mailbox_enc_ok _ Hbok)) as Hv. destruct (apply_patch _ _) as [value r]. cbn [fst] in Hv.
  apply rbind_ok in H as (u&_&(q&Hq&H)%rbind_ok). case_bool_decide as Hid; [|done]. cbn [negb] in H.
  apply rbind_ok in H as ([]&Hpl&[= <- <-]). split; [done|]. split; [by apply placeable_ok|]. split; [done|].
  destruct (mailbox_from_value value) as [q'|] eqn:Eq; [|done]. injection Hq as ->. eapply mailbox_dec_ok; [|exact Eq].
  apply Hv. by apply value_ok_object in Hp as [_ Hp].
Qed.

Lemma record_share_changes_same a id account_id old new :
  ma_mailboxes (record_share_changes a id account_id old new) = ma_mailboxes a /\
  ma_emails (record_share_changes a id account_id old new) = ma_emails a.
Proof using Type. unfold record_share_changes. by destruct (share_changes _ _ _ _). Qed.

Lemma inserts_known {T} (l : list (Id * T)) m k : is_Some (bt_get k (inserts l m)) -> Forall (fun e => is_Some (bt_get e.1 m)) l -> is_Some (bt_get k m).
Proof using Type.
  intros Hk Hl. destruct (decide (k ∈ l.*1)) as [(e&->&He)%list_elem_of_fmap|Hn]; [|by rewrite inserts_get in Hk].
  rewrite Forall_forall in Hl. by apply Hl.
Qed.

Lemma mailbox_updates_updating tree a account_id l u :
  Forall (fun e => value_ok e.2) l -> updating tree a u ->
  updating tree a (fold_left (mailbox_update_entry serde_error is_owner caller account_id) l u).
Proof using Type.
  intros Hl. revert u. induction Hl as [|[id patch] l Hv _ IH]; intros u Hu; cbn [fold_left]; [done|]. apply IH. clear IH.
  unfold mailbox_update_entry. destruct (mailbox_patched _ _ _ _ _ _) as [[existing patched]|] eqn:Ep; [|by destruct Hu].
  destruct Hu as [Hf Ht Hk Hm He]. apply mailbox_patched_ok in Ep as (Hex&Hpl&Hid&Hok); [|done|done].
  destruct (record_share_changes_same (mu_account u) id account_id (mb_share_with existing) (mb_share_with patched)) as [Hm' He'].
  split; cbn [mu_tree mu_to_update mu_account].
  - apply (forest_insert _ (Some id)); [done|by left|done|done|done].
  - unfold inserts. rewrite fold_left_app. cbn. by rewrite Ht.
  - apply Forall_app. split; [done|]. constructor; [|constructor]. cbn. eapply inserts_known; [|done]. by rewrite <- Ht, Hex.
  - by rewrite Hm'.
  - by rewrite He'.
Qed.

(** While they are destroyed. *)
Record destroying (tree : btmap Id Mailbox) (a : AccountState) (d : MailboxDestroying) : Prop := {
  dg_forest : forest_tree (md_tree d);
  dg_tree : md_tree d = fold_left (fun m id => bt_remove id m) (md_destroyed d) tree;
  dg_empty : Forall (fun id => forall k e, store_get (ma_emails a) k = Some e -> filed_in e id = false) (md_destroyed d);
}.

Lemma mailbox_destroys_destroying tree a l d :
  destroying tree a d -> destroying tree a (fold_left (mailbox_destroy_entry is_owner caller a) l d).
Proof using Type.
  revert d. induction l as [|id l IH]; intros d Hd; cbn [fold_left]; [done|]. apply IH. clear IH.
  unfold mailbox_destroy_entry. destruct (mailbox_destroy_refusal _ _ _ _ _) eqn:Er; [by destruct Hd|].
  destruct Hd as [Hf Ht He]. unfold mailbox_destroy_refusal in Er. destruct (bt_get id (md_tree d)) as [b|] eqn:Eb; [|done].
  destruct (negb _); [done|]. destruct (existsb _ (md_tree d)) eqn:Ec; [done|]. destruct (existsb _ (st_objects _)) eqn:Ee; [done|].
  split; cbn [md_tree md_destroyed].
  - apply forest_remove; [done|]. intros k b' Hk Hp. apply bt_get_Some_elem, (existsb_none _ _ _ Ec) in Hk. cbn in Hk.
    by rewrite bool_decide_eq_true_2 in Hk.
  - rewrite fold_left_app. cbn. by rewrite Ht.
  - apply Forall_app. split; [done|]. constructor; [|constructor]. intros k e Hk.
    by apply bt_get_Some_elem, (existsb_none _ _ _ Ee) in Hk.
Qed.

(** *** The transaction makes of the store what the tree says *)
Lemma creates_objects {T} (l : list (Id * T)) t :
  st_objects (tx_store (fold_left (fun t e => transaction_create t e.1 e.2) l t)) = inserts l (st_objects (tx_store t)).
Proof using Type. revert t. induction l as [|e l IH]; intros t; cbn [fold_left]; [done|]. by rewrite IH. Qed.

Lemma updates_objects {T} (l : list (Id * T)) t (updated : btmap Id (option T)) :
  Forall (fun e => is_Some (bt_get e.1 (st_objects (tx_store t)))) l ->
  st_objects (tx_store (fold_left (fun '(t, updated) e => ((transaction_update t e.1 e.2).2, bt_insert e.1 None updated)) l (t, updated)).1)
    = inserts l (st_objects (tx_store t)).
Proof using Type.
  revert t updated. induction l as [|[id v] l IH]; intros t updated; cbn [fold_left]; [done|]. intros [Hid Hl]%Forall_cons. cbn [fst snd] in *.
  unfold transaction_update. unfold store_contains. rewrite (proj2 (bt_contains_true _ _) Hid). cbn [negb snd]. rewrite IH; [done|].
  eapply Forall_impl; [exact Hl|]. intros e He. cbn. rewrite bt_get_insert. by case_decide.
Qed.

Lemma destroys_objects {T} ids (t : Transaction T) :
  st_objects (tx_store (fold_left (fun t id => (transaction_destroy t id).2) ids t)) = fold_left (fun m id => bt_remove id m) ids (st_objects (tx_store t)).
Proof using Type.
  revert t. induction ids as [|id ids IH]; intros t; cbn [fold_left]; [done|]. rewrite IH. f_equal. unfold transaction_destroy.
  destruct (store_get (tx_store t) id) eqn:E; [done|]. cbn. by rewrite bt_remove_absent.
Qed.

Lemma mailbox_body_objects to_create to_update destroyed (store : Store Mailbox) :
  Forall (fun e => is_Some (bt_get e.1 (inserts to_create (st_objects store)))) to_update ->
  st_objects (store_transaction store (mailbox_body to_create to_update destroyed)).2 =
    fold_left (fun m id => bt_remove id m) destroyed (inserts to_update (inserts to_create (st_objects store))).
Proof using Type.
  intros Hu. rewrite transaction_objects. unfold mailbox_body.
  pose proof (creates_objects to_create (Build_Transaction store [])) as Hc. set (t1 := fold_left _ to_create _) in *. cbn [tx_store] in Hc.
  pose proof (updates_objects to_update t1 []) as Hup. destruct (fold_left _ to_update _) as [t2 upd]. cbn [fst snd] in *.
  rewrite destroys_objects. f_equal. rewrite <- Hc. apply Hup. by rewrite Hc.
Qed.

Lemma removes_get {T} ids (m : btmap Id T) k : k ∉ ids -> bt_get k (fold_left (fun m id => bt_remove id m) ids m) = bt_get k m.
Proof using Type.
  revert m. induction ids as [|id ids IH]; intros m; cbn [fold_left]; [done|]. intros [Hne Hk]%not_elem_of_cons. rewrite IH by done.
  by rewrite bt_get_remove, decide_False.
Qed.

Lemma inserts_mono {T} (l : list (Id * T)) m k : is_Some (bt_get k m) -> is_Some (bt_get k (inserts l m)).
Proof using Type.
  unfold inserts. revert m. induction l as [|e l IH]; intros m Hk; cbn [fold_left]; [done|]. apply IH. rewrite bt_get_insert. by case_decide.
Qed.

Lemma destroy_ids_steps {T} ids (t : Transaction T) : rtc tx_step t (fold_left (fun t id => (transaction_destroy t id).2) ids t).
Proof using Type. revert t. induction ids as [|id ids IH]; intros t; cbn [fold_left]; [done|]. eapply rtc_l; [apply TxDestroy|apply IH]. Qed.

Lemma mailbox_body_steps to_create to_update destroyed t :
  NoDup to_create.*1 -> Forall (fun e => fresh_id t e.1) to_create -> rtc tx_step t (mailbox_body to_create to_update destroyed t).2.
Proof using Type.
  intros Hd Hf. unfold mailbox_body. pose proof (creates_steps to_create t Hd Hf) as H1. unfold creates in H1.
  set (t1 := fold_left _ to_create t) in *. pose proof (update_ones_steps to_update t1 []) as H2.
  destruct (fold_left _ to_update _) as [t2 upd]. cbn [fst snd] in *. etrans; [done|]. etrans; [done|]. apply destroy_ids_steps.
Qed.

(** *** The account *)
Lemma mailbox_set_account_spec a request :
  store_wf (ma_mailboxes a) -> forest_tree (st_objects (ma_mailboxes a)) -> mailbox_request_ok request -> mailbox_counters_ok a request ->
  let a' := (mailbox_set_account serde_error default_unsubscribed is_owner caller a request).1 in
  forest_tree (st_objects (ma_mailboxes a')) /\ rtc store_step (ma_mailboxes a) (ma_mailboxes a') /\ ma_emails a' = ma_emails a /\
  forall id, bt_contains id (st_objects (ma_mailboxes a)) = true -> bt_contains id (st_objects (ma_mailboxes a')) = true \/
    (forall k e, store_get (ma_emails a) k = Some e -> filed_in e id = false).
Proof using Type.
  intros Hwf Hf [Hcreate Hupdate] [Hids Hstate]. unfold mailbox_set_account.
  set (c := fold_left (mailbox_create_entry _ _ _) _ _).
  assert (creating a (0 + length (default [] (sr_create request))) c) as [Hcf Hct Hcs Hca].
  { apply mailbox_creates_creating; [done|done|done|]. split; cbn; [done..|apply allocated_start|by destruct a]. }
  set (u := fold_left (mailbox_update_entry _ _ _ _) _ _).
  assert (updating (mc_tree c) (mc_account c) u) as [Huf Hut Huk Hum Hue].
  { apply mailbox_updates_updating; [done|]. split; [done..|constructor|done|done]. }
  set (d := fold_left (mailbox_destroy_entry _ _ _) _ _).
  assert (destroying (mu_tree u) (mu_account u) d) as [Hdf Hdt Hde].
  { apply mailbox_destroys_destroying. split; [done..|constructor]. }
  destruct (store_transaction (ma_mailboxes (mu_account u)) _) as [updated mailboxes] eqn:Et. cbn [fst ma_mailboxes ma_emails with_mailboxes].
  assert (st_objects (ma_mailboxes (mu_account u)) = st_objects (ma_mailboxes a)) as Hobj by (rewrite Hum, (al_store _ _ _ _ Hcs); done).
  pose proof (mailbox_body_objects (mc_to_create c) (mu_to_update u) (md_destroyed d) (ma_mailboxes (mu_account u))) as Hb.
  rewrite Et, Hobj, <- Hct, <- Hut, <- Hdt in Hb. cbn [snd] in Hb. rewrite Hb by done.
  assert (ma_emails (mu_account u) = ma_emails a) as Hem by (rewrite Hue, Hca; done). rewrite Hem in *.
  split_and!; [done| |done|].
  - replace mailboxes with (store_transaction (ma_mailboxes (mu_account u)) (mailbox_body (mc_to_create c) (mu_to_update u) (md_destroyed d))).2
      by (by rewrite Et). eapply rtc_r; [apply Hcs|]. rewrite <- Hum.
    destruct (allocated_fresh _ _ _ _ Hwf Hcs) as [Hd Hfr]. rewrite <- Hum in Hfr.
    apply StepTransaction; [by rewrite Hum, (al_store _ _ _ _ Hcs)|]. by apply mailbox_body_steps.
  - intros id Hid. destruct (decide (id ∈ md_destroyed d)) as [Hin|Hni]; [right|left].
    + rewrite Forall_forall in Hde. by apply Hde.
    + apply bt_contains_true. rewrite Hdt, removes_get by done. apply bt_contains_true in Hid.
      by rewrite Hut, Hct; apply inserts_mono, inserts_mono.
Qed.
End set.

(** ** The server *)
Record mail_account_ok (a : AccountState) : Prop := {
  mao_store : store_wf (ma_mailboxes a);
  mao_forest : forest_tree (st_objects (ma_mailboxes a));
  mao_emails : bt_ok (st_objects (ma_emails a));
  mao_messages : account_ok a;
}.

Definition mail_server_ok (s : ServerState) : Prop := forall id a, bt_get id (sv_accounts s) = Some a -> mail_account_ok a.

Lemma filed_in_mailboxes e m : filed_in e m = true <-> in_mailbox e m.
Proof.
  unfold filed_in, in_mailbox. destruct (em_mailbox_ids e) as [ids|]; [|split; [done|by intros (?&?&?)]]. split.
  - intros H. exists ids. split; [done|]. by destruct (bt_get m ids) as [[]|].
  - intros (ids'&[= <-]&->). done.
Qed.

Lemma mail_account_kept serde_error unsub is_owner caller a request :
  mail_account_ok a -> mailbox_request_ok request -> mailbox_counters_ok a request ->
  mail_account_ok (mailbox_set_account serde_error unsub is_owner caller a request).1.
Proof.
  intros [Hwf Hf Hb Hm] Hr Hc. destruct (mailbox_set_account_spec serde_error unsub is_owner caller a request Hwf Hf Hr Hc) as (Hf'&Hs&He&Hk).
  split; [by eapply store_steps_wf|done|by rewrite He|]. intros id e. rewrite He. intros Hg. destruct (Hm id e Hg) as [Hok Hsome Hknown]. split; [done..|].
  intros m Hin. specialize (Hknown m Hin). apply filed_in_mailboxes in Hin as Hfm. apply bt_contains_true in Hknown.
  destruct (Hk m Hknown) as [?|Hno]; [by apply bt_contains_true|]. by rewrite (Hno id e Hg) in Hfm.
Qed.

(** C23: The mailboxes of an account are always a forest: every mailbox is reached from the top
    over existing parents, siblings have distinct names, a role belongs to one mailbox, and
    every message stays in existing mailboxes. [Mailbox/set] keeps this for every request, with
    creates, moves and destroys in any combination, and every caller. *)
Theorem mailbox_set_forest serde_error s request caller :
  mail_server_ok s -> mailbox_request_ok request ->
  (forall a, bt_get (sr_account_id request) (sv_accounts s) = Some a -> mailbox_counters_ok a request) ->
  mail_server_ok (mailbox_set serde_error s request caller).1.
Proof.
  intros Hs Hr Hc. unfold mailbox_set, account_mut. destruct (bt_get (sr_account_id request) (sv_accounts s)) as [a|] eqn:Ea; [|done]. cbn [ok_or].
  destruct (match sr_if_in_state request with Some expected => negb (bool_decide (expected = store_state (ma_mailboxes a))) | None => false end); [done|].
  pose proof (mail_account_kept serde_error (sv_new_mailboxes_default_unsubscribed s) (account_is_owner a caller) caller a request
    (Hs _ _ Ea) Hr (Hc _ eq_refl)) as Hok.
  destruct (mailbox_set_account _ _ _ _ _ _) as [a' response]. cbn [fst] in *. intros id b. cbn. rewrite bt_get_insert.
  case_decide; [by intros [= <-]|apply Hs].
Qed.
