(* ===== verification/MockQuery.v ===== *)
(** [Email/query]: the request and response (jmap-proto/src/methods.rs, mail.rs) and the mock
    server's handler (jmap-mock/src/mail.rs). *)

From Stdlib Require Import Ascii String.
From stdpp Require Import prelude strings sorting.
From S2P Require Import Prelude BTree Text Strings Json Wire Proto Email Store SetOps Patch SetMethod Keywords MockMail.

Local Open Scope rust_scope.

(** ** The request and the response *)
Record Comparator := { co_property : text; co_is_ascending : bool; co_collation : option text }.

Definition comparator_ascending (property : text) : Comparator :=
  {| co_property := property; co_is_ascending := true; co_collation := None |}.

Inductive Filter (F : Type) : Type :=
| Operator (operator : text) (conditions : list (Filter F))
| Condition (condition : F).
Arguments Operator {F} operator conditions.
Arguments Condition {F} condition.

Definition AND : text := lit "AND".
Definition OR : text := lit "OR".
Definition NOT : text := lit "NOT".

Definition filter_and {F} (conditions : list (Filter F)) : Filter F := Operator AND conditions.

Record EmailQueryFilter := {
  ef_in_mailbox : option Id;
  ef_in_mailbox_other_than : option (list Id);
  ef_min_size : option N;
  ef_max_size : option N;
  ef_has_keyword : option text;
  ef_not_keyword : option text;
  ef_all_in_thread_have_keyword : option text;
  ef_some_in_thread_have_keyword : option text;
  ef_none_in_thread_have_keyword : option text;
  ef_has_attachment : option bool;
  ef_text : option text;
  ef_body : option text;
  ef_from : option text;
  ef_to : option text;
  ef_cc : option text;
  ef_bcc : option text;
  ef_subject : option text;
  ef_header : option (list text);
  ef_before : option UtcDate;
  ef_after : option UtcDate;
  ef_has_smime : option bool;
  ef_has_verified_smime : option bool;
}.

Definition filter_default : EmailQueryFilter :=
  {| ef_in_mailbox := None; ef_in_mailbox_other_than := None; ef_min_size := None; ef_max_size := None;
     ef_has_keyword := None; ef_not_keyword := None; ef_all_in_thread_have_keyword := None;
     ef_some_in_thread_have_keyword := None; ef_none_in_thread_have_keyword := None; ef_has_attachment := None;
     ef_text := None; ef_body := None; ef_from := None; ef_to := None; ef_cc := None; ef_bcc := None;
     ef_subject := None; ef_header := None; ef_before := None; ef_after := None; ef_has_smime := None;
     ef_has_verified_smime := None |}.

Definition in_mailbox (mailbox_id : Id) : EmailQueryFilter :=
  {| ef_in_mailbox := Some mailbox_id; ef_in_mailbox_other_than := None; ef_min_size := None; ef_max_size := None;
     ef_has_keyword := None; ef_not_keyword := None; ef_all_in_thread_have_keyword := None;
     ef_some_in_thread_have_keyword := None; ef_none_in_thread_have_keyword := None; ef_has_attachment := None;
     ef_text := None; ef_body := None; ef_from := None; ef_to := None; ef_cc := None; ef_bcc := None;
     ef_subject := None; ef_header := None; ef_before := None; ef_after := None; ef_has_smime := None;
     ef_has_verified_smime := None |}.

Record QueryRequest (F : Type) := {
  qq_account_id : Id;
  qq_filter : option F;
  qq_sort : option (list Comparator);
  qq_position : Z;
  qq_anchor : option Id;
  qq_anchor_offset : option Z;
  qq_limit : option N;
  qq_calculate_total : bool;
  qq_collapse_threads : bool;
}.
Arguments qq_account_id {F}.
Arguments qq_filter {F}.
Arguments qq_sort {F}.
Arguments qq_position {F}.
Arguments qq_limit {F}.
Arguments qq_calculate_total {F}.

Record QueryResponse := {
  qr_account_id : Id;
  qr_query_state : State;
  qr_can_calculate_changes : bool;
  qr_position : N;
  qr_ids : list Id;
  qr_total : option N;
  qr_limit : option N;
}.

(** ** Matching *)

(** [Option::is_some_and] and [Option::is_none_or]. *)
Definition is_some_and {A} (o : option A) (f : A -> bool) : bool := match o with Some a => f a | None => false end.
Definition is_none_or {A} (o : option A) (f : A -> bool) : bool := match o with Some a => f a | None => true end.

Definition address_list_contains (addresses : option (list EmailAddress)) (needle : text) : bool :=
  is_some_and addresses (existsb (fun address =>
    str_contains needle (ea_email address) || is_some_and (ea_name address) (str_contains needle))).

Definition body_contains (email : Email) (needle : text) : bool :=
  is_some_and (em_body_values email) (existsb (fun value => str_contains needle (bv_value value.2))).

Definition header_matches (email : Email) (header : list text) : bool :=
  match header with
  | [] => false
  | name :: rest =>
      is_some_and (em_headers email) (existsb (fun candidate =>
        eq_ignore_ascii_case (eh_name candidate) name &&
        is_none_or (head rest) (fun value => str_contains value (eh_value candidate))))
  end.

(** A condition that is absent, or holds. *)
Definition email_matches (email : Email) (f : EmailQueryFilter) : bool :=
  is_none_or (ef_in_mailbox f) (fun mailbox_id =>
    is_some_and (em_mailbox_ids email) (fun ids => default false (bt_get mailbox_id ids))) &&
  is_none_or (ef_has_keyword f) (fun keyword => is_some_and (em_keywords email) (bt_contains keyword)) &&
  is_none_or (ef_not_keyword f) (fun keyword => negb (is_some_and (em_keywords email) (bt_contains keyword))) &&
  is_none_or (ef_after f) (fun after =>
    negb (is_none_or (em_received_at email) (fun at_ => bool_decide (text_cmp at_ after = Lt)))) &&
  is_none_or (ef_before f) (fun before =>
    negb (is_none_or (em_received_at email) (fun at_ => negb (bool_decide (text_cmp at_ before = Lt))))) &&
  is_none_or (ef_subject f) (fun subject => is_some_and (em_subject email) (str_contains subject)) &&
  is_none_or (ef_from f) (address_list_contains (em_from email)) &&
  is_none_or (ef_to f) (address_list_contains (em_to email)) &&
  is_none_or (ef_cc f) (address_list_contains (em_cc email)) &&
  is_none_or (ef_bcc f) (address_list_contains (em_bcc email)) &&
  is_none_or (ef_min_size f) (fun min_size => negb (is_none_or (em_size email) (fun size => size <? min_size)%N)) &&
  is_none_or (ef_max_size f) (fun max_size => negb (is_none_or (em_size email) (fun size => max_size <? size)%N)) &&
  is_none_or (ef_has_attachment f) (fun has_attachment =>
    Bool.eqb (default false (em_has_attachment email)) has_attachment) &&
  is_none_or (ef_body f) (body_contains email) &&
  is_none_or (ef_text f) (fun t =>
    address_list_contains (em_from email) t || address_list_contains (em_to email) t ||
    address_list_contains (em_cc email) t || address_list_contains (em_bcc email) t ||
    is_some_and (em_subject email) (str_contains t) || body_contains email t) &&
  is_none_or (ef_header f) (header_matches email).

Fixpoint filter_matches (email : Email) (filter : Filter EmailQueryFilter) : bool :=
  match filter with
  | Condition condition => email_matches email condition
  | Operator operator conditions =>
      if decide (operator = AND) then forallb (filter_matches email) conditions
      else if decide (operator = OR) then existsb (filter_matches email) conditions
      else if decide (operator = NOT) then negb (existsb (filter_matches email) conditions)
      else false
  end.

(** ** Email/query *)
Definition RECEIVED_AT : text := lit "receivedAt".
Definition UNSUPPORTED_SORT : text := lit "unsupportedSort".

Definition received_key (e : Id * Email) : UtcDate := default [] (em_received_at e.2).

Definition received_cmp (ascending : bool) (a b : Id * Email) : comparison :=
  let ordering := text_cmp (received_key a) (received_key b) in
  if ascending then ordering else CompOpp ordering.

(** [Iterator::take] and [cycle]. *)
Fixpoint take_n {A} (n : N) (l : list A) : list A :=
  match l with
  | [] => []
  | x :: l => if (n =? 0)%N then [] else x :: take_n (N.pred n) l
  end.

Definition cycle_take {A} (n : N) (l : list A) : list A :=
  omap (fun i => l !! (i mod length l)%nat) (seq 0 (N.to_nat n)).

Definition dangerous_list : list Id :=
  [lit "../../etc/passwd"; lit "../evil/path"; lit "id/with/slash"; lit "id" ++ octets [0]%N ++ lit "with_nul";
   lit "id" ++ octets [1; 31]%N ++ lit "control"].

Definition query_matches (account : AccountState) (is_owner : bool) (caller : option Id) (f : Filter EmailQueryFilter)
  : list (Id * Email) :=
  filter (fun e => may is_owner caller (readable_email account e.2) && filter_matches e.2 f = true) (st_objects (ma_emails account)).

Definition email_query (s : ServerState) (request : QueryRequest (Filter EmailQueryFilter)) (caller : option Id)
  : result QueryResponse MethodError :=
  let page_size := sv_query_page_size s in
  let? account := account_mut s (qq_account_id request) in
  let? is_owner := check_caller account caller in
  let f := default (Condition filter_default) (qq_filter request) in
  let found := query_matches account is_owner caller f in
  let '(sort_property, ascending) :=
    match qq_sort request with
    | Some (first :: _) => (co_property first, co_is_ascending first)
    | _ => (RECEIVED_AT, false)
    end in
  if negb (bool_decide (sort_property = RECEIVED_AT)) then
    Err (method_error_with_description (method_error_new UNSUPPORTED_SORT)
      (lit "mock cannot sort emails by " ++ sort_property))
  else
    let found := sort_by (received_cmp ascending) found in
    let total := N.of_nat (length found) in
    let position := Z.to_nat (Z.max (qq_position request) 0) in
    let asked := default u64_max (qq_limit request) in
    let never_terminates := sv_query_never_terminates s && negb (bool_decide (found = [])) in
    let ids :=
      if sv_dangerous_ids s then dangerous_list
      else if never_terminates then cycle_take (N.min asked (default 1%N page_size)) found.*1
      else take_n (N.min asked (default u64_max page_size)) (skipn position found.*1) in
    let capped := never_terminates || is_some_and page_size (fun page_size => page_size <? asked)%N in
    Ok {| qr_account_id := qq_account_id request; qr_query_state := store_state (ma_emails account);
          qr_can_calculate_changes := false; qr_position := N.of_nat position; qr_ids := ids;
          qr_total := if qq_calculate_total request then Some total else None;
          qr_limit := if capped && negb (sv_query_hides_limit s) then Some (default 0%N page_size) else None |}.

(** ** Pages *)
Lemma take_n_firstn {A} n (l : list A) : take_n n l = firstn (N.to_nat n) l.
Proof.
  revert n. induction l as [|x l IH]; intros n; [by rewrite firstn_nil|]. cbn [take_n]. destruct (N.eqb_spec n 0) as [->|Hn]; [done|].
  destruct (N.to_nat n) as [|m] eqn:E; [lia|]. cbn [firstn]. rewrite IH. do 2 f_equal. lia.
Qed.

(** The ids of the messages that match, oldest first. *)
Definition query_list (account : AccountState) (f : Filter EmailQueryFilter) : list Id :=
  (sort_by (received_cmp true) (query_matches account true None f)).*1.

Lemma query_list_elem account f id :
  bt_ok (st_objects (ma_emails account)) ->
  id ∈ query_list account f <-> exists e, store_get (ma_emails account) id = Some e /\ filter_matches e f = true.
Proof.
  intros Hok. unfold query_list. rewrite sort_by_perm, list_elem_of_fmap. unfold query_matches. split.
  - intros ([k e]&->&[Hm Hin]%list_elem_of_filter). cbn in Hm. exists e. split; [|done]. by apply bt_elem_get in Hin.
  - intros (e&He&Hm). exists (id, e). split; [done|]. apply list_elem_of_filter. split; [done|]. by apply bt_elem_get.
Qed.

Lemma query_list_nodup account f : bt_ok (st_objects (ma_emails account)) -> NoDup (query_list account f).
Proof.
  intros Hok. unfold query_list. rewrite sort_by_perm. unfold query_matches.
  eapply sublist_NoDup; [exact (bt_ok_nodup _ Hok)|]. apply fmap_sublist, sublist_filter.
Qed.
