(* ===== verification/MailSummary.v ===== *)
(** The summary row of a message (jmap-mail-sync/src/message.rs) and the properties that it is
    read from. *)

From Stdlib Require Import Ascii String.
From stdpp Require Import prelude strings.
From S2P Require Import Prelude BTree Text Strings Json Wire Proto Email Store SetOps Patch SetMethod Date MailDate Keywords MockMail.

Local Open Scope rust_scope.

Definition SUMMARY_PROPERTIES : list text :=
  [lit "id"; lit "blobId"; lit "threadId"; lit "keywords"; lit "size"; lit "receivedAt"; lit "sentAt"; lit "messageId";
   lit "inReplyTo"; lit "references"; lit "from"; lit "to"; lit "cc"; lit "subject"; lit "hasAttachment"; lit "preview"].

Definition SOURCE_PROPERTIES : list text := [lit "id"; lit "blobId"; lit "size"].

Definition MAX_BLOB_BYTES : N := 256 * 1024 * 1024.

Definition saturating_add (a b : N) : N := N.min (a + b) u64_max.

Definition download_ceiling (advertised : option N) : N :=
  match advertised with
  | Some size => saturating_add (saturating_add size (size / 8)) (64 * 1024)
  | None => MAX_BLOB_BYTES
  end.

Record MessageSummary := {
  ms_uid : Id;
  ms_blob_id : option Id;
  ms_thread_id : option Id;
  ms_flags : MessageFlags;
  ms_tags : list text;
  ms_size : N;
  ms_received_at : option Z;
  ms_sent_at : option Z;
  ms_subject : option text;
  ms_from : list EmailAddress;
  ms_to : list EmailAddress;
  ms_cc : list EmailAddress;
  ms_message_id : option text;
  ms_references : list text;
  ms_preview : option text;
}.

Definition with_attachments (attachments : bool) (f : MessageFlags) : MessageFlags :=
  {| fl_seen := fl_seen f; fl_answered := fl_answered f; fl_flagged := fl_flagged f; fl_draft := fl_draft f;
     fl_forwarded := fl_forwarded f; fl_junk := fl_junk f; fl_not_junk := fl_not_junk f; fl_attachments := attachments |}.

Definition read_keyword (acc : MessageFlags * list text) (e : text * bool) : MessageFlags * list text :=
  if negb e.2 then acc
  else match set_flag (to_ascii_lowercase e.1) acc.1 with
    | Some flags => (flags, acc.2)
    | None => (acc.1, acc.2 ++ [e.1])
    end.

Definition read_keywords (email : Email) : MessageFlags * list text :=
  let flags := with_attachments (default false (em_has_attachment email)) flags_default in
  match em_keywords email with
  | None => (flags, [])
  | Some keywords => fold_left read_keyword keywords (flags, [])
  end.

Definition references (email : Email) : list text :=
  let references := default [] (em_references email) in
  match (let! ids := em_in_reply_to email in head ids) with
  | Some parent => if decide (parent ∈ references) then references else references ++ [parent]
  | None => references
  end.

Definition opt_epoch (date : option text) : run (option Z) :=
  match date with Some date => epoch_seconds date | None => Done None end.

Definition from_email (email : Email) : run (result MessageSummary SyncError) :=
  match em_id email with
  | None => Done (Err (sync_protocol (lit "Email/get returned a message without an id")))
  | Some uid =>
      let '(flags, tags) := read_keywords email in
      run_bind (opt_epoch (em_received_at email)) (fun received_at =>
      run_map (fun sent_at => Ok
        {| ms_uid := uid; ms_blob_id := em_blob_id email; ms_thread_id := em_thread_id email; ms_flags := flags;
           ms_tags := tags; ms_size := N.min (default 0%N (em_size email)) u32_max; ms_received_at := received_at;
           ms_sent_at := sent_at; ms_subject := em_subject email; ms_from := default [] (em_from email);
           ms_to := default [] (em_to email); ms_cc := default [] (em_cc email);
           ms_message_id := (let! ids := em_message_id email in head ids); ms_references := references email;
           ms_preview := em_preview email |}) (opt_epoch (em_sent_at email)))
  end.

(** ** The ceiling of a download *)
Lemma download_ceiling_above size : (size <= u64_max)%N -> (size <= download_ceiling (Some size) <= u64_max)%N.
Proof. intros H. unfold download_ceiling, saturating_add. generalize (size / 8)%N. intros n. lia. Qed.

(** ** What a summary is read from *)
Lemma email_projects (P : text * Value -> Prop) `{!forall e, Decision (P e)} m e :
  by_name P -> email_reads m e -> exists p, email_reads (filter P m) p.
Proof.
  intros HP [].
  repeat match goal with H : read_opt _ _ m = Some _ |- _ => apply (read_opt_filtered _ _ P) in H as [? H]; [|exact HP] end.
  eexists (Build_Email _ _ _ _ _ _ _ _ _ _ _ _ _ _ _ _ _ _ _ _ _ _ _ _ _ _ _ _ _ _ _). split; try eassumption. done.
Qed.

(** Two messages that agree on the properties of a summary. *)
Lemma from_email_agree e p :
  em_id p = em_id e -> em_blob_id p = em_blob_id e -> em_thread_id p = em_thread_id e -> em_keywords p = em_keywords e ->
  em_size p = em_size e -> em_received_at p = em_received_at e -> em_sent_at p = em_sent_at e ->
  em_message_id p = em_message_id e -> em_in_reply_to p = em_in_reply_to e -> em_references p = em_references e ->
  em_from p = em_from e -> em_to p = em_to e -> em_cc p = em_cc e -> em_subject p = em_subject e ->
  em_has_attachment p = em_has_attachment e -> em_preview p = em_preview e -> from_email p = from_email e.
Proof.
  intros H1 H2 H3 H4 H5 H6 H7 H8 H9 H10 H11 H12 H13 H14 H15 H16. unfold from_email, read_keywords, references.
  by rewrite H1, H2, H3, H4, H5, H6, H7, H8, H9, H10, H11, H12, H13, H14, H15, H16.
Qed.

Lemma filtered_summary (P : text * Value -> Prop) `{!forall e, Decision (P e)} m e p :
  (forall name v, name ∈ SUMMARY_PROPERTIES -> P (name, v)) ->
  email_reads m e -> email_reads (filter P m) p -> from_email p = from_email e.
Proof.
  intros HP [] [].
  repeat match goal with H : read_opt _ ?name (filter P m) = Some _ |- _ =>
    first [rewrite read_opt_filter in H by (intros v; apply HP; by_decide) | clear H] end.
  apply from_email_agree; congruence.
Qed.

(** The message that an [Email/get] of some properties answers with. *)
Definition project_email (properties : list text) (e : Email) : Email :=
  default e (email_from_value (project_properties e (Some properties))).

(** Every property that a summary is read from is asked for. *)
Lemma project_email_reads properties e :
  email_ok e -> SUMMARY_PROPERTIES ⊆ properties ->
  email_from_value (project_properties e (Some properties)) = Some (project_email properties e) /\
  em_id (project_email properties e) = em_id e /\
  from_email (project_email properties e) = from_email e /\
  (lit "mailboxIds" ∈ properties -> em_mailbox_ids (project_email properties e) = em_mailbox_ids e).
Proof.
  intros He Hp. pose proof (email_reads_from _ _ (email_reads_back e He)) as Hb.
  set (m := object_of (email_fields e) (em_extra e)) in Hb.
  destruct (email_projects (fun x => x.1 = lit "id" \/ x.1 ∈ properties) m e ltac:(by intros ? ? ?) Hb) as [p Hpr].
  assert (email_from_value (project_properties e (Some properties)) = Some p) as Hv by (by apply email_from_reads).
  unfold project_email. rewrite Hv. cbn [from_option id]. split; [done|].
  pose proof (er_id _ _ Hpr) as Hid. rewrite read_opt_filter, (er_id _ _ Hb) in Hid by (intros v; by left).
  split; [congruence|]. split.
  - eapply filtered_summary; [|exact Hb|exact Hpr]. intros name v Hn. right. by apply Hp.
  - intros Hm. pose proof (er_mailbox_ids _ _ Hpr) as H1. rewrite read_opt_filter, (er_mailbox_ids _ _ Hb) in H1 by (intros v; by right). congruence.
Qed.
