(* ===== verification/Path.v ===== *)
(** Mailbox names as folder paths (jmap-mail-sync/src/path.rs).

    A path is the encoded names of a folder's ancestors and its own, joined by the
    separator.  The encoding is undone by reading the percent escapes, which makes it
    injective; its results hold no separator and no NUL and are never a dot segment. *)

From Stdlib Require Import Ascii String.
From stdpp Require Import prelude strings.
From S2P Require Import Prelude Strings.

(** ** Operations *)
Definition SEPARATOR : ascii := "/"%char.
Definition NUL : ascii := "000"%char.

Definition encode_char (c : ascii) : text :=
  if decide (c = "%"%char) then lit "%25"
  else if decide (c = SEPARATOR) then lit "%2F"
  else if decide (c = NUL) then lit "%00"
  else [c].

Definition encode_component (name : text) : text :=
  if decide (name = lit ".") then lit "%2E"
  else if decide (name = lit "..") then lit "%2E%2E"
  else mjoin (encode_char <$> name).

(** [split] and [join] of the source. *)
Definition path_split (path : text) : option text * text :=
  match rsplit_once SEPARATOR path with
  | Some (parent, component) => (Some parent, component)
  | None => (None, path)
  end.

Definition path_join (parent : option text) (component : text) : text :=
  match parent with
  | Some parent => parent ++ SEPARATOR :: component
  | None => component
  end.

(** The component of a folder whose name is already used by a sibling. *)
Definition marked_component (name id : text) : text :=
  encode_component name ++ lit "%23" ++ encode_component id.

(** ** Reading the escapes back.  [None] is the mark [%23], which no name has. *)
Definition read_escape (a b : ascii) : option (option ascii) :=
  if decide (a = "2"%char /\ b = "5"%char) then Some (Some "%"%char)
  else if decide (a = "2"%char /\ b = "F"%char) then Some (Some SEPARATOR)
  else if decide (a = "0"%char /\ b = "0"%char) then Some (Some NUL)
  else if decide (a = "2"%char /\ b = "E"%char) then Some (Some "."%char)
  else if decide (a = "2"%char /\ b = "3"%char) then Some None
  else None.

Fixpoint read_component (t : text) : list (option ascii) :=
  match t with
  | [] => []
  | "%"%char :: ((a :: b :: t') as rest) =>
      match read_escape a b with
      | Some c => c :: read_component t'
      | None => Some "%"%char :: read_component rest
      end
  | c :: t' => Some c :: read_component t'
  end.

Lemma read_char c t : read_component (encode_char c ++ t) = Some c :: read_component t.
Proof.
  unfold encode_char. repeat case_decide; subst; [done..|].
  destruct c as [[] [] [] [] [] [] [] []]; try done.
Qed.

Lemma read_encoded name t :
  read_component (encode_component name ++ t) = (Some <$> name) ++ read_component t.
Proof.
  unfold encode_component. repeat case_decide; subst; [done..|].
  clear. induction name as [|c name IH]; [done|].
  rewrite fmap_cons, mjoin_cons, <- (assoc_L (++)), read_char, IH. done.
Qed.

Lemma read_mark t : read_component (lit "%23" ++ t) = None :: read_component t.
Proof. done. Qed.

Lemma read_component_encoded name : read_component (encode_component name) = Some <$> name.
Proof. rewrite <- (app_nil_r (encode_component name)), read_encoded. apply app_nil_r. Qed.

Lemma read_marked name id :
  read_component (marked_component name id) = (Some <$> name) ++ None :: (Some <$> id).
Proof. unfold marked_component. by rewrite read_encoded, read_mark, read_component_encoded. Qed.

#[export] Instance encode_component_inj : Inj (=) (=) encode_component.
Proof.
  intros a b E%(f_equal read_component). rewrite !read_component_encoded in E.
  by apply (inj (fmap Some)) in E.
Qed.

Lemma marked_ne_encoded name id other : marked_component name id <> encode_component other.
Proof.
  intros E%(f_equal read_component). rewrite read_marked, read_component_encoded in E.
  assert (@None ascii ∈ Some <$> other) as (?&?&?)%list_elem_of_fmap; [|done].
  rewrite <- E. set_solver.
Qed.

Lemma somes_before {A} (a b : list A) (x y : list (option A)) :
  (Some <$> a) ++ None :: x = (Some <$> b) ++ None :: y -> a = b /\ x = y.
Proof.
  revert b. induction a as [|c a IH]; intros [|d b] E; [by injection E|done..|].
  injection E as -> E. by apply IH in E as [-> ->].
Qed.

Lemma marked_component_inj name id name' id' :
  marked_component name id = marked_component name' id' -> name = name' /\ id = id'.
Proof.
  intros E%(f_equal read_component). rewrite !read_marked in E.
  apply somes_before in E as [-> E%(inj (fmap Some))]. done.
Qed.

(** ** What an encoded component holds *)
Lemma encode_char_plain c : (SEPARATOR ∉ encode_char c) /\ (NUL ∉ encode_char c) /\ encode_char c <> [].
Proof.
  unfold encode_char. repeat case_decide; subst.
  1-3: split_and!; [by_decide | by_decide | done].
  split_and!; [| |done]; set_solver.
Qed.

Lemma encode_component_plain name :
  (SEPARATOR ∉ encode_component name) /\ (NUL ∉ encode_component name).
Proof.
  unfold encode_component. repeat case_decide; [split; by_decide..|].
  split; rewrite list_elem_of_join; intros (t&Ht&(c&->&_)%list_elem_of_fmap);
    pose proof (encode_char_plain c); tauto.
Qed.

Lemma marked_component_plain name id : SEPARATOR ∉ marked_component name id.
Proof.
  unfold marked_component. rewrite !not_elem_of_app.
  split_and!; [apply encode_component_plain | by_decide | apply encode_component_plain].
Qed.

Lemma encode_component_dots name :
  encode_component name <> lit "." /\ encode_component name <> lit "..".
Proof.
  unfold encode_component. repeat case_decide; [done..|].
  assert (forall t, read_component t = Some <$> t -> mjoin (encode_char <$> name) = t -> name = t).
  { intros t Ht E. apply (inj (fmap Some)). rewrite <- Ht, <- E.
    rewrite <- read_component_encoded. unfold encode_component. by repeat case_decide. }
  split; intros E; eapply H1 in E; done.
Qed.

Lemma encode_component_nonempty name : name <> [] -> encode_component name <> [].
Proof.
  intros Hne E. apply Hne. apply (inj (fmap Some)).
  by rewrite <- read_component_encoded, E.
Qed.

(** ** Splitting and joining *)
Lemma path_split_spec path :
  path = path_join (path_split path).1 (path_split path).2 /\ SEPARATOR ∉ (path_split path).2.
Proof.
  unfold path_split. destruct (rsplit_once SEPARATOR path) as [[parent component]|] eqn:E.
  - by apply rsplit_once_Some in E.
  - by apply rsplit_once_None in E.
Qed.

Lemma path_split_join parent component :
  SEPARATOR ∉ component -> path_split (path_join parent component) = (parent, component).
Proof.
  intros Hc. unfold path_split, path_join. destruct parent as [parent|].
  - by rewrite rsplit_once_app.
  - by rewrite (proj2 (rsplit_once_None _ _)).
Qed.

Lemma path_join_inj parent component parent' component' :
  SEPARATOR ∉ component -> SEPARATOR ∉ component' ->
  path_join parent component = path_join parent' component' -> parent = parent' /\ component = component'.
Proof.
  intros Hc Hc' E%(f_equal path_split). rewrite !path_split_join in E by done. by simplify_eq.
Qed.

(** The encoding of a mailbox name is injective and safe as a file name.  Distinct names
    have distinct components; a component has no separator and no NUL, is not a dot segment,
    and is empty only for the empty name; and a path splits into the parent and the component
    it was joined from. *)
Theorem encode_component_safe name name' parent :
  (encode_component name = encode_component name' <-> name = name') /\
  (SEPARATOR ∉ encode_component name) /\ (NUL ∉ encode_component name) /\
  encode_component name <> lit "." /\ encode_component name <> lit ".." /\
  (encode_component name = [] <-> name = []) /\
  path_split (path_join parent (encode_component name)) = (parent, encode_component name).
Proof.
  pose proof (encode_component_plain name) as [Hs Hn].
  pose proof (encode_component_dots name) as [Hd Hdd].
  split_and!; [|done..| |by apply path_split_join].
  - split; [apply (inj _)|by intros ->].
  - split; [|by intros ->]. intros E. destruct (decide (name = [])); [done|].
    by apply encode_component_nonempty in E.
Qed.
