(* ===== verification/FolderTree.v ===== *)
(** The folder tree (jmap-mail-sync/src/folder.rs): its data and the operations on a built
    tree.

    A [FolderInfo] is the properties of one folder and its subfolders.  Loops over a stack
    of [&mut FolderInfo] are recursions in the order in which the stack is popped: the last
    sibling first, a folder before its subfolders. *)

From Stdlib Require Import Ascii String.
From stdpp Require Import prelude strings.
From S2P Require Import Prelude BTree Strings Json Proto Path.

Local Open Scope rust_scope.

(** ** Data *)
Inductive FolderRole := Inbox | Drafts | Sent | Trash | Junk | Archive.

#[export] Instance FolderRole_eq_dec : EqDecision FolderRole.
Proof. solve_decision. Defined.

(** [FolderRole::from_jmap] and [FolderRole::as_jmap]. *)
Definition role_from_jmap (role : text) : option FolderRole :=
  let role := to_ascii_lowercase role in
  if decide (role = lit "inbox") then Some Inbox
  else if decide (role = lit "drafts") then Some Drafts
  else if decide (role = lit "sent") then Some Sent
  else if decide (role = lit "trash") then Some Trash
  else if decide (role = lit "junk") then Some Junk
  else if decide (role = lit "archive") then Some Archive
  else None.

Definition role_as_jmap (role : FolderRole) : text :=
  match role with
  | Inbox => lit "inbox"
  | Drafts => lit "drafts"
  | Sent => lit "sent"
  | Trash => lit "trash"
  | Junk => lit "junk"
  | Archive => lit "archive"
  end.

(** The fields of [FolderInfo] other than its subfolders. *)
Record FolderHead := {
  fh_id : Id;
  fh_path : text;
  fh_display_name : text;
  fh_role : option FolderRole;
  fh_total : N;
  fh_unread : N;
  fh_subscribed : bool;
  fh_may_add_items : option bool;
  fh_account_id : option Id;
}.

#[export] Instance FolderHead_eq_dec : EqDecision FolderHead.
Proof. solve_decision. Defined.

Unset Elimination Schemes.
Inductive FolderInfo := Folder (head : FolderHead) (children : list FolderInfo).
Set Elimination Schemes.

Section folder_ind.
Variable P : FolderInfo -> Prop.
Hypothesis Pfolder : forall h children, Forall P children -> P (Folder h children).

Fixpoint FolderInfo_ind (f : FolderInfo) : P f :=
  match f with
  | Folder h children =>
      Pfolder h children ((fix go (l : list FolderInfo) : Forall P l :=
        match l with
        | [] => Forall_nil_2 _
        | f :: l => Forall_cons_2 _ _ _ (FolderInfo_ind f) (go l)
        end) children)
  end.
End folder_ind.

Definition f_head (f : FolderInfo) : FolderHead := let 'Folder h _ := f in h.
Definition f_children (f : FolderInfo) : list FolderInfo := let 'Folder _ c := f in c.
Definition f_id (f : FolderInfo) : Id := fh_id (f_head f).
Definition f_path (f : FolderInfo) : text := fh_path (f_head f).

#[export] Instance FolderInfo_eq_dec : EqDecision FolderInfo.
Proof.
  refine (fix go (x y : FolderInfo) : Decision (x = y) :=
    match x, y with
    | Folder h c, Folder h' c' =>
        if decide (h = h') then cast_if (@list_eq_dec _ go c c') else right _
    end); congruence.
Defined.

(** [FolderInfo::leaf]. *)
Definition leaf (f : FolderInfo) : FolderInfo := Folder (f_head f) [].

Abbreviation FolderTree := (list FolderInfo) (only parsing).

Record FolderDelta := { fd_destroyed : list FolderInfo; fd_created : list FolderInfo; fd_resubscribed : list FolderInfo }.

#[export] Instance FolderDelta_eq_dec : EqDecision FolderDelta.
Proof. solve_decision. Defined.

Inductive FolderListChange := Same | Delta (d : FolderDelta) | Reshaped.

(** The field updates of the source. *)
Definition with_path (path : text) (h : FolderHead) : FolderHead :=
  {| fh_id := fh_id h; fh_path := path; fh_display_name := fh_display_name h; fh_role := fh_role h;
     fh_total := fh_total h; fh_unread := fh_unread h; fh_subscribed := fh_subscribed h;
     fh_may_add_items := fh_may_add_items h; fh_account_id := fh_account_id h |}.

Definition with_display_name (name : text) (h : FolderHead) : FolderHead :=
  {| fh_id := fh_id h; fh_path := fh_path h; fh_display_name := name; fh_role := fh_role h;
     fh_total := fh_total h; fh_unread := fh_unread h; fh_subscribed := fh_subscribed h;
     fh_may_add_items := fh_may_add_items h; fh_account_id := fh_account_id h |}.

Definition with_subscribed (subscribed : bool) (h : FolderHead) : FolderHead :=
  {| fh_id := fh_id h; fh_path := fh_path h; fh_display_name := fh_display_name h; fh_role := fh_role h;
     fh_total := fh_total h; fh_unread := fh_unread h; fh_subscribed := subscribed;
     fh_may_add_items := fh_may_add_items h; fh_account_id := fh_account_id h |}.

Definition with_may_add_items (may : option bool) (h : FolderHead) : FolderHead :=
  {| fh_id := fh_id h; fh_path := fh_path h; fh_display_name := fh_display_name h; fh_role := fh_role h;
     fh_total := fh_total h; fh_unread := fh_unread h; fh_subscribed := fh_subscribed h;
     fh_may_add_items := may; fh_account_id := fh_account_id h |}.

Definition with_account_id (id : option Id) (h : FolderHead) : FolderHead :=
  {| fh_id := fh_id h; fh_path := fh_path h; fh_display_name := fh_display_name h; fh_role := fh_role h;
     fh_total := fh_total h; fh_unread := fh_unread h; fh_subscribed := fh_subscribed h;
     fh_may_add_items := fh_may_add_items h; fh_account_id := id |}.

(** ** Iteration.  The stack's top is the head of the list. *)
Definition iter_next (stack : list FolderInfo) : option (FolderInfo * list FolderInfo) :=
  match stack with
  | [] => None
  | folder :: stack => Some (folder, f_children folder ++ stack)
  end.

Fixpoint iter_collect (fuel : nat) (stack : list FolderInfo) : list FolderInfo :=
  match fuel with
  | O => []
  | S fuel =>
      match iter_next stack with
      | None => []
      | Some (folder, stack) => folder :: iter_collect fuel stack
      end
  end.

(** The folders of a tree: the rounds that [iter_collect] needs. *)
Fixpoint folder_size (f : FolderInfo) : nat := S (sum_list_with folder_size (f_children f)).

Definition tree_iter (roots : FolderTree) : list FolderInfo :=
  iter_collect (S (sum_list_with folder_size roots)) roots.

(** ** Lookups *)
Definition tree_find (roots : FolderTree) (path : text) : option FolderInfo :=
  find (fun folder => bool_decide (f_path folder = path)) (tree_iter roots).

Definition tree_by_id (roots : FolderTree) (id : Id) : option FolderInfo :=
  find (fun folder => bool_decide (f_id folder = id)) (tree_iter roots).

Definition tree_owning_account (roots : FolderTree) (id : Id) : option Id :=
  let! folder := tree_by_id roots id in fh_account_id (f_head folder).

Definition tree_role (roots : FolderTree) (role : FolderRole) : option FolderInfo :=
  find (fun folder => bool_decide (fh_role (f_head folder) = Some role)) (tree_iter roots).

Definition tree_len (roots : FolderTree) : nat := length (tree_iter roots).

Definition tree_is_empty (roots : FolderTree) : bool := bool_decide (roots = []).

(** ** Edits in place *)

(** The last element that [go] can edit, edited. *)
Definition edit_last {A B} (go : A -> option (B * A)) : list A -> option (B * list A) :=
  fix edit (l : list A) : option (B * list A) :=
    match l with
    | [] => None
    | a :: l =>
        match edit l with
        | Some (b, l') => Some (b, a :: l')
        | None => (fun '(b, a') => (b, a' :: l)) <$> go a
        end
    end.

(** [while let Some(folder) = stack.pop()]: edits the first folder popped that has [P]. *)
Fixpoint edit_folder (P : FolderInfo -> bool) (e : FolderInfo -> FolderInfo) (f : FolderInfo)
  : option (unit * FolderInfo) :=
  if P f then Some (tt, e f)
  else
    match f with
    | Folder h children => (fun '(u, children') => (u, Folder h children')) <$> edit_last (edit_folder P e) children
    end.

Definition edit_tree (P : FolderInfo -> bool) (e : FolderInfo -> FolderInfo) (roots : FolderTree)
  : option FolderTree := snd <$> edit_last (edit_folder P e) roots.

Definition set_subscribed (roots : FolderTree) (id : Id) (subscribed : bool) : bool * FolderTree :=
  match edit_tree (fun folder => bool_decide (f_id folder = id))
          (fun folder => Folder (with_subscribed subscribed (f_head folder)) (f_children folder)) roots with
  | Some roots' => (true, roots')
  | None => (false, roots)
  end.

(** [siblings.retain(..); siblings.push(folder)]. *)
Definition put_sibling (folder : FolderInfo) (siblings : list FolderInfo) : list FolderInfo :=
  filter (fun sibling => f_path sibling <> f_path folder) siblings ++ [folder].

(** [insert], with [find_mut] as the edit of the parent's children. *)
Definition tree_insert (roots : FolderTree) (folder : FolderInfo) : bool * FolderTree :=
  match rsplit_once SEPARATOR (f_path folder) with
  | Some (parent, _) =>
      match edit_tree (fun f => bool_decide (f_path f = parent))
              (fun f => Folder (f_head f) (put_sibling folder (f_children f))) roots with
      | Some roots' => (true, roots')
      | None => (false, roots)
      end
  | None => (true, put_sibling folder roots)
  end.

(** [siblings.iter().position(..)] and [siblings.remove(index)]. *)
Fixpoint take_here (id : Id) (siblings : list FolderInfo) : option (FolderInfo * list FolderInfo) :=
  match siblings with
  | [] => None
  | f :: siblings =>
      if decide (f_id f = id) then Some (f, siblings)
      else (fun '(x, l) => (x, f :: l)) <$> take_here id siblings
  end.

(** The list of siblings first, then the lists of their subfolders, the last one first. *)
Fixpoint take_below (id : Id) (f : FolderInfo) : option (FolderInfo * FolderInfo) :=
  match f with
  | Folder h children =>
      (fun '(x, children') => (x, Folder h children')) <$>
        match take_here id children with
        | Some r => Some r
        | None => edit_last (take_below id) children
        end
  end.

Definition tree_take (roots : FolderTree) (id : Id) : option (FolderInfo * FolderTree) :=
  match take_here id roots with
  | Some r => Some r
  | None => edit_last (take_below id) roots
  end.

Definition tree_remove (roots : FolderTree) (id : Id) : bool * FolderTree :=
  match tree_take roots id with
  | Some (_, roots') => (true, roots')
  | None => (false, roots)
  end.

Definition within (path ancestor : text) : bool :=
  bool_decide (path = ancestor) ||
  match strip_prefix ancestor path with
  | Some below => starts_with [SEPARATOR] below
  | None => false
  end.

(** [child.path.rsplit(SEPARATOR).next()]: what follows the last separator. *)
Definition last_component (path : text) : text :=
  match rsplit_once SEPARATOR path with
  | Some (_, component) => component
  | None => path
  end.

Fixpoint repath (f : FolderInfo) (path : text) : FolderInfo :=
  match f with
  | Folder h children =>
      Folder (with_path path h)
        ((fun child => repath child (path_join (Some path) (last_component (f_path child)))) <$> children)
  end.

Definition tree_rename (roots : FolderTree) (id : Id) (path display_name : text) : bool * FolderTree :=
  match tree_by_id roots id with
  | None => (false, roots)
  | Some from =>
      let refused :=
        match rsplit_once SEPARATOR path with
        | Some (parent, _) => within parent (f_path from) || negb (bool_decide (is_Some (tree_find roots parent)))
        | None => false
        end in
      if refused then (false, roots)
      else
        match tree_take roots id with
        | None => (false, roots)
        | Some (folder, roots') =>
            let folder := Folder (with_display_name display_name (f_head folder)) (f_children folder) in
            tree_insert roots' (repath folder path)
        end
  end.

(** ** Comparison of two listings *)
Definition same_head (l r : FolderHead) : bool :=
  bool_decide (fh_id l = fh_id r) && bool_decide (fh_path l = fh_path r) &&
  bool_decide (fh_display_name l = fh_display_name r) && bool_decide (fh_role l = fh_role r) &&
  bool_decide (fh_subscribed l = fh_subscribed r).

(** Equal lengths, and [go] on each pair. *)
Definition all_pairs {A B} (go : A -> B -> bool) : list A -> list B -> bool :=
  fix all (ls : list A) (rs : list B) : bool :=
    match ls, rs with
    | [], [] => true
    | l :: ls, r :: rs => go l r && all ls rs
    | _, _ => false
    end.

Fixpoint same_folder (l r : FolderInfo) : bool :=
  match l, r with
  | Folder h children, Folder h' children' =>
      same_head h h' && all_pairs same_folder children children'
  end.

Definition same_shape (left right : FolderTree) : bool := all_pairs same_folder left right.

(** One folder of the new listing; [None] is the early return of [Reshaped]. *)
Definition change_folder (before : btmap Id FolderInfo) (delta : FolderDelta) (folder : FolderInfo)
  : option FolderDelta :=
  match bt_get (f_id folder) before with
  | None =>
      Some {| fd_destroyed := fd_destroyed delta; fd_created := fd_created delta ++ [leaf folder];
              fd_resubscribed := fd_resubscribed delta |}
  | Some old =>
      if bool_decide (f_path old <> f_path folder)
         || bool_decide (fh_display_name (f_head old) <> fh_display_name (f_head folder))
         || bool_decide (fh_role (f_head old) <> fh_role (f_head folder))
      then None
      else if bool_decide (fh_subscribed (f_head old) <> fh_subscribed (f_head folder))
      then Some {| fd_destroyed := fd_destroyed delta; fd_created := fd_created delta;
                   fd_resubscribed := fd_resubscribed delta ++ [leaf folder] |}
      else Some delta
  end.

Fixpoint change_folders (before : btmap Id FolderInfo) (delta : FolderDelta) (after : list FolderInfo)
  : option FolderDelta :=
  match after with
  | [] => Some delta
  | folder :: after => let! delta := change_folder before delta folder in change_folders before delta after
  end.

Definition delta_default : FolderDelta := {| fd_destroyed := []; fd_created := []; fd_resubscribed := [] |}.

Definition change_to (self after : FolderTree) : FolderListChange :=
  if same_shape self after then Same
  else
    let before := bt_of_list ((fun folder => (f_id folder, folder)) <$> tree_iter self) in
    match change_folders before delta_default (tree_iter after) with
    | None => Reshaped
    | Some delta =>
        let kept := bs_of_list (f_id <$> tree_iter after) in
        let destroyed := leaf <$> filter (fun folder => bs_contains (f_id folder) kept = false) (tree_iter self) in
        let delta :=
          {| fd_destroyed := reverse destroyed; fd_created := fd_created delta;
             fd_resubscribed := fd_resubscribed delta |} in
        if decide (delta = delta_default) then Reshaped else Delta delta
    end.
