(* ===== verification/FolderForest.v ===== *)
(** Facts on folder forests: the iteration is the pre-order, and a folder's path is its
    position.

    [placed parent f] says that the paths of [f] and of everything below it are the parent's
    path and one component, and that siblings have distinct paths.  Distinct paths in the
    whole forest follow, because a folder is [within] every one of its ancestors and within
    no sibling of them. *)

From Stdlib Require Import Ascii String.
From stdpp Require Import prelude strings.
From S2P Require Import Prelude BTree Strings Json Proto Path FolderTree.

(** ** Pre-order *)
Fixpoint preorder (f : FolderInfo) : list FolderInfo := f :: mjoin (preorder <$> f_children f).

Definition preorders (l : list FolderInfo) : list FolderInfo := mjoin (preorder <$> l).

Lemma preorders_cons f l : preorders (f :: l) = preorder f ++ preorders l.
Proof. unfold preorders. by rewrite fmap_cons, mjoin_cons. Qed.

Lemma preorders_app l k : preorders (l ++ k) = preorders l ++ preorders k.
Proof.
  induction l as [|f l IH]; [done|]. cbn [app].
  by rewrite !preorders_cons, IH, (assoc_L (++)).
Qed.

Lemma Forall_preorders (P : FolderInfo -> Prop) l :
  Forall P (preorders l) <-> Forall (fun f => Forall P (preorder f)) l.
Proof. induction l; [done|]. rewrite preorders_cons, Forall_app, Forall_cons. tauto. Qed.

Lemma preorder_eq f : preorder f = f :: preorders (f_children f).
Proof. by destruct f. Qed.

Lemma elem_of_preorders g l : g ∈ preorders l <-> exists f, f ∈ l /\ g ∈ preorder f.
Proof.
  unfold preorders. rewrite list_elem_of_join. setoid_rewrite list_elem_of_fmap. naive_solver.
Qed.

Lemma preorder_self f : f ∈ preorder f.
Proof. rewrite preorder_eq. left. Qed.

Lemma folder_size_eq f : folder_size f = S (sum_list_with folder_size (f_children f)).
Proof. by destruct f. Qed.

Lemma iter_collect_preorders n stack :
  sum_list_with folder_size stack < n -> iter_collect n stack = preorders stack.
Proof.
  revert stack. induction n as [|n IH]; intros [|f stack]; [lia..|done|].
  cbn [sum_list_with iter_collect iter_next]. rewrite folder_size_eq. intros Hn.
  rewrite preorders_cons, preorder_eq, IH; [by rewrite preorders_app|].
  rewrite sum_list_with_app. lia.
Qed.

Lemma tree_iter_preorders roots : tree_iter roots = preorders roots.
Proof. apply iter_collect_preorders. lia. Qed.

(** ** The properties of all folders of a forest *)
Definition heads (l : list FolderInfo) : list FolderHead := f_head <$> preorders l.

Lemma heads_cons f l : heads (f :: l) = f_head f :: heads (f_children f) ++ heads l.
Proof. unfold heads. rewrite preorders_cons, preorder_eq, <- app_comm_cons, fmap_cons, fmap_app. done. Qed.

Lemma heads_app l k : heads (l ++ k) = heads l ++ heads k.
Proof. unfold heads. by rewrite preorders_app, fmap_app. Qed.

Lemma heads_one f : heads [f] = f_head f :: heads (f_children f).
Proof. rewrite heads_cons. f_equal. apply app_nil_r. Qed.

Lemma heads_cons' f l : heads (f :: l) = heads [f] ++ heads l.
Proof. apply (heads_app [f] l). Qed.

(** ** [within] *)
Lemma within_spec path ancestor :
  within path ancestor = true <-> path = ancestor \/ exists rest, path = ancestor ++ SEPARATOR :: rest.
Proof.
  unfold within. rewrite orb_true_iff, bool_decide_eq_true.
  destruct (strip_prefix ancestor path) as [below|] eqn:E.
  - apply strip_prefix_Some in E as ->. rewrite starts_with_true.
    split; (intros [?|[rest ?]]; [by left|right; exists rest]).
    + by subst.
    + by simplify_list_eq.
  - split; [by intros [?|?]; [left|]|]. intros [?|[rest ?]]; [by left|].
    assert (strip_prefix ancestor path = Some (SEPARATOR :: rest)) by (by apply strip_prefix_Some).
    congruence.
Qed.

Lemma within_refl path : within path path = true.
Proof. apply within_spec. by left. Qed.

Lemma within_trans a b c : within a b = true -> within b c = true -> within a c = true.
Proof.
  rewrite !within_spec. intros [->|[r ->]] [->|[r' ->]]; [by left|right; by eexists..|].
  right. exists (r' ++ SEPARATOR :: r). by rewrite <- (assoc_L (++)).
Qed.

Lemma within_length a b : within a b = true -> length b <= length a.
Proof. intros [->|[r ->]]%within_spec; rewrite ?length_app; simpl; lia. Qed.

Lemma within_longer a b : within a b = true -> a <> b -> length b < length a.
Proof. intros [->|[r ->]]%within_spec; [done|]. rewrite length_app. simpl. lia. Qed.

Lemma within_join parent component : within (path_join (Some parent) component) parent = true.
Proof. apply within_spec. right. by exists component. Qed.

Lemma join_ne parent component : path_join (Some parent) component <> parent.
Proof. intros E%(f_equal length). cbn [path_join] in E. rewrite length_app in E. cbn [length] in E. lia. Qed.

Lemma sep_free_prefix (c1 c2 x1 x2 : text) :
  SEPARATOR ∉ c1 -> SEPARATOR ∉ c2 ->
  (x1 = [] \/ exists r, x1 = SEPARATOR :: r) -> (x2 = [] \/ exists r, x2 = SEPARATOR :: r) ->
  c1 ++ x1 = c2 ++ x2 -> c1 = c2.
Proof.
  revert c2. induction c1 as [|a c1 IH]; intros [|b c2] H1 H2 Hx1 Hx2 E; [done|..].
  - destruct Hx1 as [->|[r ->]]; simplify_eq/=. set_solver.
  - destruct Hx2 as [->|[r ->]]; simplify_eq/=. set_solver.
  - simplify_eq/=. f_equal. apply not_elem_of_cons in H1 as [_ H1], H2 as [_ H2]. by eapply IH.
Qed.

(** Nothing is within two siblings. *)
Lemma siblings_apart path parent c1 c2 :
  SEPARATOR ∉ c1 -> SEPARATOR ∉ c2 ->
  within path (path_join parent c1) = true -> within path (path_join parent c2) = true -> c1 = c2.
Proof.
  intros H1 H2 Hw1%within_spec Hw2%within_spec.
  assert (forall c, path = path_join parent c \/ (exists rest, path = path_join parent c ++ SEPARATOR :: rest) ->
    exists x, (x = [] \/ exists r, x = SEPARATOR :: r) /\ path = path_join parent c ++ x) as Hform.
  { intros c [->|[r ->]]; [exists []; by rewrite app_nil_r; auto|naive_solver]. }
  apply Hform in Hw1 as (x1&Hx1&->), Hw2 as (x2&Hx2&E).
  apply (sep_free_prefix c1 c2 x1 x2); [done..|].
  destruct parent as [parent|]; [|done]. unfold path_join in E.
  rewrite <- !(assoc_L (++)) in E. by simplify_list_eq.
Qed.

(** ** Paths are positions *)
Unset Elimination Schemes.
Inductive placed (parent : option text) : FolderInfo -> Prop :=
| placed_folder h children component :
    fh_path h = path_join parent component -> SEPARATOR ∉ component ->
    Forall (placed (Some (fh_path h))) children -> NoDup (f_path <$> children) ->
    placed parent (Folder h children).
Set Elimination Schemes.

Definition forest_ok (parent : option text) (l : list FolderInfo) : Prop :=
  Forall (placed parent) l /\ NoDup (f_path <$> l).

Lemma placed_inv parent f :
  placed parent f ->
  (exists component, f_path f = path_join parent component /\ SEPARATOR ∉ component) /\
  forest_ok (Some (f_path f)) (f_children f).
Proof. intros H. inversion H. simplify_eq/=. unfold forest_ok. naive_solver. Qed.

Lemma placed_intro parent f component :
  f_path f = path_join parent component -> SEPARATOR ∉ component ->
  forest_ok (Some (f_path f)) (f_children f) -> placed parent f.
Proof. destruct f as [h c]. intros ?? []. by econstructor. Qed.

Lemma forest_ok_nil parent : forest_ok parent [].
Proof. split; constructor. Qed.

Lemma forest_ok_cons parent f l :
  forest_ok parent (f :: l) <-> placed parent f /\ (f_path f ∉ f_path <$> l) /\ forest_ok parent l.
Proof. unfold forest_ok. rewrite fmap_cons, Forall_cons, NoDup_cons. tauto. Qed.

(** Everything in a placed folder is within it. *)
Lemma placed_within parent f h : placed parent f -> h ∈ heads [f] -> within (fh_path h) (f_path f) = true.
Proof.
  revert parent h. induction f as [fh children IH] using FolderInfo_ind. intros parent h Hp.
  rewrite heads_one. intros [->|Hh]%elem_of_cons; [apply within_refl|].
  apply placed_inv in Hp as [_ [Hc _]]. cbn [f_children] in *.
  apply list_elem_of_fmap in Hh as (g&->&(c&Hin&Hg)%elem_of_preorders).
  rewrite Forall_forall in IH, Hc. specialize (IH c Hin _ (f_head g) (Hc c Hin)).
  eapply within_trans.
  - apply IH. unfold heads. apply list_elem_of_fmap_2. rewrite preorders_cons. set_solver.
  - pose proof (placed_inv _ _ (Hc c Hin)) as [(comp&->&_) _]. apply within_join.
Qed.

Lemma forest_within parent l h :
  Forall (placed parent) l -> h ∈ heads l -> exists f, f ∈ l /\ h ∈ heads [f] /\ within (fh_path h) (f_path f) = true.
Proof.
  intros Hl Hh. apply list_elem_of_fmap in Hh as (g&->&(f&Hf&Hg)%elem_of_preorders).
  assert (f_head g ∈ heads [f]).
  { unfold heads. apply list_elem_of_fmap_2. rewrite preorders_cons. set_solver. }
  exists f. split_and!; [done..|]. rewrite Forall_forall in Hl. by eapply placed_within; [apply Hl|].
Qed.

(** Two siblings with something in common have the same path. *)
Lemma placed_apart parent f g path :
  placed parent f -> placed parent g ->
  within path (f_path f) = true -> within path (f_path g) = true -> f_path f = f_path g.
Proof.
  intros [(c1&Ef&Hf) _]%placed_inv [(c2&Eg&Hg) _]%placed_inv. rewrite Ef, Eg. intros Hw1 Hw2.
  f_equal. by eapply siblings_apart.
Qed.

Lemma nodup_paths_cons parent f l :
  forest_ok parent (f :: l) -> NoDup (fh_path <$> heads [f]) -> NoDup (fh_path <$> heads l) ->
  NoDup (fh_path <$> heads (f :: l)).
Proof.
  intros (Hf&Hn&[Hl _])%forest_ok_cons Hone Hrest. rewrite heads_cons', fmap_app. apply NoDup_app.
  split_and!; [done| |done].
  intros p (h&->&Hh)%list_elem_of_fmap (h'&E&Hh')%list_elem_of_fmap.
  destruct (forest_within _ _ _ Hl Hh') as (g&Hg&_&Hw').
  apply Hn. assert (f_path f = f_path g) as ->; [|by apply list_elem_of_fmap_2].
  rewrite Forall_forall in Hl. eapply placed_apart; [done|by apply Hl|by eapply placed_within|].
  by rewrite E.
Qed.

Lemma forest_paths_nodup_if parent l :
  Forall (fun f => forall p, placed p f -> NoDup (fh_path <$> heads [f])) l ->
  forest_ok parent l -> NoDup (fh_path <$> heads l).
Proof.
  induction 1 as [|f l Hf Hl IH]; [constructor|]. intros Hok.
  pose proof (proj1 (forest_ok_cons _ _ _) Hok) as (?&_&?).
  eapply nodup_paths_cons; [done|by eapply Hf|by apply IH].
Qed.

(** A parent's path is shorter than every path below it. *)
Lemma below_longer f parent h :
  placed parent f -> h ∈ heads (f_children f) -> length (f_path f) < length (fh_path h).
Proof.
  intros [_ [Hc _]]%placed_inv Hh. destruct (forest_within _ _ _ Hc Hh) as (c&Hin&_&Hw).
  rewrite Forall_forall in Hc. pose proof (placed_inv _ _ (Hc c Hin)) as [(comp&Ec&_) _].
  apply within_length in Hw. rewrite Ec in Hw. cbn [path_join] in Hw.
  rewrite length_app in Hw. cbn [length] in Hw. lia.
Qed.

Lemma placed_paths_nodup parent f : placed parent f -> NoDup (fh_path <$> heads [f]).
Proof.
  revert parent. induction f as [fh children IH] using FolderInfo_ind. intros p Hp.
  rewrite heads_one, fmap_cons. constructor.
  - intros (h&E&Hh)%list_elem_of_fmap. pose proof (below_longer _ _ _ Hp Hh) as Hlt.
    unfold f_path in Hlt. rewrite E in Hlt. lia.
  - apply placed_inv in Hp as [_ Hc]. by eapply forest_paths_nodup_if.
Qed.

Lemma forest_paths_nodup parent l : forest_ok parent l -> NoDup (fh_path <$> heads l).
Proof. apply forest_paths_nodup_if, Forall_forall. intros f _ p. apply placed_paths_nodup. Qed.
