(* ===== verification/FolderEdit.v ===== *)
(** Edits of a built folder tree (jmap-mail-sync/src/folder.rs: [set_subscribed], [insert],
    [rename], [remove]): they keep every path a position and every id unique, and a rename
    moves the folder with its subtree. *)

From Stdlib Require Import Ascii String.
From stdpp Require Import prelude strings.
From S2P Require Import Prelude BTree Strings Json Proto Path FolderTree FolderForest.

(** ** The search from the last sibling *)
Lemma edit_last_Some {A B} (go : A -> option (B * A)) l b l' :
  edit_last go l = Some (b, l') ->
  exists pre a a' post, l = pre ++ a :: post /\ l' = pre ++ a' :: post /\ go a = Some (b, a').
Proof.
  revert l'. induction l as [|a l IH]; intros l'; cbn; [done|].
  destruct (edit_last go l) as [[b1 l1]|] eqn:E.
  - intros [= -> <-]. destruct (IH l1 eq_refl) as (pre&x&x'&post&->&->&Hx).
    exists (a :: pre), x, x', post. done.
  - intros ([b1 a']&Ha&[= -> ->])%fmap_Some. exists [], a, a', l. done.
Qed.

Lemma edit_last_None {A B} (go : A -> option (B * A)) l :
  edit_last go l = None <-> Forall (fun a => go a = None) l.
Proof.
  induction l as [|a l IH]; cbn; [split; [constructor|done]|].
  rewrite Forall_cons, <- IH. destruct (edit_last go l) as [[b l1]|]; [naive_solver|].
  rewrite fmap_None. tauto.
Qed.

(** ** Editing the folder with a property *)
Section edit.
Context (P : FolderInfo -> bool) (e : FolderInfo -> FolderInfo).

Lemma edit_folder_None f :
  edit_folder P e f = None <-> Forall (fun g => P g = false) (preorder f).
Proof.
  induction f as [h children IH] using FolderInfo_ind.
  rewrite preorder_eq, Forall_cons. cbn [edit_folder f_children].
  destruct (P (Folder h children)) eqn:E; [naive_solver|].
  rewrite fmap_None, edit_last_None, Forall_preorders.
  split.
  - intros Hn. split; [done|]. rewrite Forall_forall in *. intros f Hf. apply IH; [done|]. by apply Hn.
  - intros [_ Hn]. rewrite Forall_forall in *. intros f Hf. apply IH; [done|]. by apply Hn.
Qed.

Lemma edit_tree_None roots : edit_tree P e roots = None <-> Forall (fun g => P g = false) (preorders roots).
Proof.
  unfold edit_tree. rewrite fmap_None, edit_last_None, Forall_preorders.
  apply Forall_iff. intros f. apply edit_folder_None.
Qed.

(** An edit that keeps the path and the place of a folder keeps the place of all. *)
Hypothesis e_placed : forall parent f, P f = true -> placed parent f ->
  placed parent (e f) /\ f_path (e f) = f_path f.

Lemma forest_ok_replace parent pre a a' post :
  forest_ok parent (pre ++ a :: post) -> placed parent a' -> f_path a' = f_path a ->
  forest_ok parent (pre ++ a' :: post).
Proof.
  intros [Hf Hn] Ha Hp. apply Forall_app in Hf as [? [_ ?]%Forall_cons].
  rewrite fmap_app, fmap_cons in Hn. split.
  - apply Forall_app. by rewrite Forall_cons.
  - by rewrite fmap_app, fmap_cons, Hp.
Qed.

Lemma edit_folder_placed parent f u f' :
  placed parent f -> edit_folder P e f = Some (u, f') -> placed parent f' /\ f_path f' = f_path f.
Proof.
  revert parent u f'. induction f as [h children IH] using FolderInfo_ind. intros parent u f' Hp.
  cbn [edit_folder]. destruct (P (Folder h children)) eqn:E.
  - intros [= <- <-]. by apply e_placed.
  - intros ([u' children']&Hc&[= -> ->])%fmap_Some. split; [|done].
    apply edit_last_Some in Hc as (pre&a&a'&post&->&->&Ha).
    pose proof (placed_inv _ _ Hp) as [(comp&Hpath&Hcomp) Hok]. cbn [f_children] in Hok.
    eapply placed_intro; [exact Hpath|done|]. cbn [f_children].
    apply Forall_app in IH as [_ [IHa _]%Forall_cons].
    assert (placed (Some (f_path (Folder h (pre ++ a :: post)))) a) as Hpa.
    { destruct Hok as [[_ [? _]%Forall_cons]%Forall_app _]. done. }
    destruct (IHa _ _ _ Hpa Ha) as [Hpa' Hpath'].
    by eapply forest_ok_replace.
Qed.

Lemma edit_tree_ok parent roots roots' :
  forest_ok parent roots -> edit_tree P e roots = Some roots' -> forest_ok parent roots'.
Proof.
  intros Hok ([u l]&Hc&->)%fmap_Some. apply edit_last_Some in Hc as (pre&a&a'&post&->&->&Ha).
  assert (placed parent a) as Hpa.
  { destruct Hok as [[_ [? _]%Forall_cons]%Forall_app _]. done. }
  destruct (edit_folder_placed _ _ _ _ Hpa Ha). by eapply forest_ok_replace.
Qed.
End edit.

(** ** Subscriptions *)
Lemma edit_folder_heads P e f u f' :
  edit_folder P e f = Some (u, f') ->
  exists g rest, P g = true /\ heads [f] ≡ₚ heads [g] ++ rest /\ heads [f'] ≡ₚ heads [e g] ++ rest.
Proof.
  revert u f'. induction f as [h children IH] using FolderInfo_ind. intros u f'.
  cbn [edit_folder]. destruct (P (Folder h children)) eqn:E.
  - intros [= <- <-]. exists (Folder h children), []. by rewrite !app_nil_r.
  - intros ([u' children']&Hc&[= -> ->])%fmap_Some.
    apply edit_last_Some in Hc as (pre&a&a'&post&->&->&Ha).
    apply Forall_app in IH as [_ [IHa _]%Forall_cons].
    destruct (IHa _ _ Ha) as (g&rest&Hg&Hh&Hh').
    exists g, (h :: heads pre ++ rest ++ heads post). split; [done|].
    rewrite (heads_one (Folder h (pre ++ a :: post))), (heads_one (Folder h (pre ++ a' :: post))).
    cbn [f_children f_head]. rewrite !heads_app, (heads_cons' a post), (heads_cons' a' post), Hh, Hh'.
    split; solve_Permutation.
Qed.

Lemma edit_tree_heads P e roots roots' :
  edit_tree P e roots = Some roots' ->
  exists g rest, P g = true /\ heads roots ≡ₚ heads [g] ++ rest /\ heads roots' ≡ₚ heads [e g] ++ rest.
Proof.
  intros ([u l]&Hc&->)%fmap_Some. apply edit_last_Some in Hc as (pre&a&a'&post&->&->&Ha).
  destruct (edit_folder_heads _ _ _ _ _ Ha) as (g&rest&Hg&Hh&Hh').
  exists g, (heads pre ++ rest ++ heads post). split; [done|]. cbn [snd].
  rewrite !heads_app, (heads_cons' a post), (heads_cons' a' post), Hh, Hh'.
  split; solve_Permutation.
Qed.

(** ** Taking a folder out *)
Lemma take_here_Some id l x l' :
  take_here id l = Some (x, l') -> exists pre post, l = pre ++ x :: post /\ l' = pre ++ post /\ f_id x = id.
Proof.
  revert l'. induction l as [|f l IH]; intros l'; cbn; [done|]. case_decide as Hf.
  - intros [= <- <-]. by exists [], l.
  - intros ([y l1]&Ht&[= -> ->])%fmap_Some. destruct (IH _ Ht) as (pre&post&->&->&Hx).
    by exists (f :: pre), post.
Qed.

Lemma take_here_None id l : take_here id l = None <-> Forall (fun f => f_id f <> id) l.
Proof.
  induction l as [|f l IH]; cbn; [split; [constructor|done]|].
  rewrite Forall_cons. case_decide; [naive_solver|]. rewrite fmap_None, IH. tauto.
Qed.

Lemma forest_ok_remove parent pre x post :
  forest_ok parent (pre ++ x :: post) -> placed parent x /\ forest_ok parent (pre ++ post).
Proof.
  intros [[Hpre [Hx Hpost]%Forall_cons]%Forall_app Hn]. split; [done|].
  split; [by apply Forall_app|].
  rewrite fmap_app, fmap_cons in Hn. rewrite fmap_app.
  apply NoDup_app in Hn as (?&Hd&[??]%NoDup_cons). apply NoDup_app. set_solver.
Qed.

(** What taking [x] out of a forest does. *)
Definition taken (id : Id) (x : FolderInfo) (l l' : list FolderInfo) : Prop :=
  f_id x = id /\ x ∈ preorders l /\ heads l ≡ₚ heads [x] ++ heads l' /\
  (forall parent, forest_ok parent l -> forest_ok parent l' /\ exists p, placed p x).

Lemma taken_here id l x l' : take_here id l = Some (x, l') -> taken id x l l'.
Proof.
  intros (pre&post&->&->&Hx)%take_here_Some. split_and!; [done|..].
  - rewrite preorders_app, preorders_cons. pose proof (preorder_self x). set_solver.
  - rewrite !heads_app, heads_cons'. solve_Permutation.
  - intros parent [??]%forest_ok_remove. eauto.
Qed.

Lemma taken_below id f x f' :
  take_below id f = Some (x, f') ->
  f_head f' = f_head f /\ taken id x (f_children f) (f_children f').
Proof.
  revert x f'. induction f as [h children IH] using FolderInfo_ind. intros x f'.
  cbn [take_below]. intros ([y children']&Hc&[= -> ->])%fmap_Some. split; [done|]. cbn [f_children].
  destruct (take_here id children) as [[z l]|] eqn:Eh.
  - injection Hc as -> ->. by apply taken_here.
  - apply edit_last_Some in Hc as (pre&a&a'&post&->&->&Ha).
    apply Forall_app in IH as [_ [IHa _]%Forall_cons].
    destruct (IHa _ _ Ha) as (Hhead&Hid&Hx&Hheads&Hok). split_and!; [done|..].
    + rewrite preorders_app, preorders_cons, preorder_eq. set_solver.
    + rewrite !heads_app, (heads_cons a post), (heads_cons a' post), Hhead, Hheads. solve_Permutation.
    + intros parent Hf. assert (placed parent a) as Hpa.
      { destruct Hf as [[_ [? _]%Forall_cons]%Forall_app _]. done. }
      assert (f_path a' = f_path a) as Hpath by (unfold f_path; by rewrite Hhead).
      pose proof (placed_inv _ _ Hpa) as [(comp&Ea&Hc) Hoka].
      destruct (Hok _ Hoka) as [Hok' ?]. split; [|done].
      eapply forest_ok_replace; [done| |done].
      eapply placed_intro; [by rewrite Hpath|done|by rewrite Hpath].
Qed.

Lemma tree_take_Some roots id x roots' : tree_take roots id = Some (x, roots') -> taken id x roots roots'.
Proof.
  unfold tree_take. destruct (take_here id roots) as [[z l]|] eqn:Eh.
  - intros [= -> ->]. by apply taken_here.
  - intros Ht. apply (taken_below id (Folder (Build_FolderHead [] [] [] None 0 0 false None None) roots) x
      (Folder (Build_FolderHead [] [] [] None 0 0 false None None) roots')).
    cbn [take_below]. by rewrite Eh, Ht.
Qed.

Lemma take_below_None id f :
  take_below id f = None <-> Forall (fun g => f_id g <> id) (preorders (f_children f)).
Proof.
  induction f as [h children IH] using FolderInfo_ind. cbn [take_below f_children].
  rewrite fmap_None, Forall_preorders.
  destruct (take_here id children) as [[x l]|] eqn:E.
  - split; [done|]. intros Hall. apply take_here_Some in E as (pre&post&->&_&Hx).
    apply Forall_app in Hall as [_ [Hall _]%Forall_cons].
    rewrite preorder_eq, Forall_cons in Hall. tauto.
  - apply take_here_None in E. rewrite edit_last_None, !Forall_forall. rewrite Forall_forall in IH, E.
    split; intros Hn f Hf; specialize (Hn f Hf); apply IH in Hf as IHf.
    + rewrite preorder_eq, Forall_cons. split; [by apply E|]. by apply IHf.
    + apply IHf. rewrite preorder_eq, Forall_cons in Hn. tauto.
Qed.

Lemma tree_take_None roots id : tree_take roots id = None <-> id ∉ fh_id <$> heads roots.
Proof.
  assert (id ∉ fh_id <$> heads roots <-> Forall (fun g => f_id g <> id) (preorders roots)) as ->.
  { unfold heads. rewrite <- list_fmap_compose, list_elem_of_fmap, Forall_forall. unfold f_id. naive_solver. }
  set (h := Build_FolderHead [] [] [] None 0 0 false None None).
  pose proof (take_below_None id (Folder h roots)) as E. cbn [f_children] in E.
  rewrite <- E. cbn [take_below]. rewrite fmap_None. done.
Qed.

(** ** Putting a folder in *)
Definition outside (path : text) (h : FolderHead) : Prop := within (fh_path h) path = false.

#[export] Instance outside_dec path h : Decision (outside path h).
Proof. unfold outside. apply _. Defined.

Lemma outside_sibling parent a b path :
  placed parent a -> placed parent b -> f_path a <> f_path b -> within path (f_path a) = true ->
  filter (outside path) (heads [b]) = heads [b].
Proof.
  intros Ha Hb Hne Hw. apply filter_all. intros h Hh. unfold outside.
  destruct (within (fh_path h) path) eqn:E; [|done]. destruct Hne.
  eapply (placed_apart parent a b (fh_path h)); [done|done|by eapply within_trans|by eapply placed_within].
Qed.

Lemma inside_sibling parent a : placed parent a -> filter (outside (f_path a)) (heads [a]) = [].
Proof.
  intros Ha. apply filter_none. intros h Hh. unfold outside.
  by rewrite (placed_within _ _ _ Ha Hh).
Qed.

Lemma outside_siblings parent a l path :
  placed parent a -> Forall (placed parent) l -> (f_path a ∉ f_path <$> l) ->
  within path (f_path a) = true -> filter (outside path) (heads l) = heads l.
Proof.
  intros Ha Hl Hn Hw. induction Hl as [|b l Hb Hl IH]; [done|].
  rewrite fmap_cons, not_elem_of_cons in Hn. destruct Hn as [Hne Hn].
  rewrite (heads_cons' b l), filter_app, IH by done. f_equal. by apply (outside_sibling parent a).
Qed.

Lemma put_sibling_ok parent l folder :
  forest_ok parent l -> placed parent folder -> forest_ok parent (put_sibling folder l).
Proof.
  intros [Hl Hn] Hf. unfold put_sibling. split.
  - apply Forall_app. split; [|by constructor].
    rewrite Forall_forall in *. intros f [_ Hin]%list_elem_of_filter. by apply Hl.
  - rewrite fmap_app. apply NoDup_app. split_and!; [| |apply NoDup_singleton].
    2: { intros p (f&->&[Hne _]%list_elem_of_filter)%list_elem_of_fmap. by intros [g [? ->%list_elem_of_singleton]]%list_elem_of_fmap. }
    assert (f_path <$> filter (fun s => f_path s <> f_path folder) l
      = filter (fun p => p <> f_path folder) (f_path <$> l)) as ->; [|by apply NoDup_filter].
    clear. induction l as [|a l IH]; [done|]. rewrite fmap_cons, !filter_cons.
    repeat case_decide; try done. by rewrite fmap_cons, IH.
Qed.

Lemma heads_put_sibling parent l folder :
  forest_ok parent l -> placed parent folder ->
  heads (put_sibling folder l) = filter (outside (f_path folder)) (heads l) ++ heads [folder].
Proof.
  intros [Hl _] Hf. unfold put_sibling. rewrite heads_app. f_equal.
  induction Hl as [|b l Hb Hl IH]; [done|]. rewrite filter_cons, (heads_cons' b l), filter_app, <- IH.
  case_decide as Hd.
  - rewrite heads_cons'. f_equal. symmetry. eapply outside_sibling; [exact Hf|done|done|apply within_refl].
  - rewrite <- Hd, inside_sibling with (parent := parent) by done. done.
Qed.

Lemma outside_self a path : within path a = true -> path <> a -> within a path = false.
Proof.
  intros Hw Hne. destruct (within a path) eqn:E; [|done].
  apply within_length in E. apply within_longer in Hw; [lia|done].
Qed.

Section insert.
Context (folder : FolderInfo) (at_path : text) (Hfolder : placed (Some at_path) folder).

Definition put_in (f : FolderInfo) : FolderInfo := Folder (f_head f) (put_sibling folder (f_children f)).

Definition is_parent (f : FolderInfo) : bool := bool_decide (f_path f = at_path).

Lemma folder_at : within (f_path folder) at_path = true /\ f_path folder <> at_path.
Proof.
  apply placed_inv in Hfolder as [(c&->&_) _]. split; [apply within_join|apply join_ne].
Qed.

Lemma put_in_placed parent f :
  is_parent f = true -> placed parent f -> placed parent (put_in f) /\ f_path (put_in f) = f_path f.
Proof.
  intros E%bool_decide_eq_true [(c&Hp&Hc) Hok]%placed_inv. split; [|done].
  eapply placed_intro; [exact Hp|done|]. apply put_sibling_ok; [done|].
  change (f_path (put_in f)) with (f_path f). by rewrite E.
Qed.

Lemma put_in_heads parent f u f' :
  placed parent f -> edit_folder is_parent put_in f = Some (u, f') ->
  within (f_path folder) (f_path f) = true /\
  heads [f'] ≡ₚ heads [folder] ++ filter (outside (f_path folder)) (heads [f]).
Proof.
  revert parent u f'. induction f as [h children IH] using FolderInfo_ind. intros parent u f' Hp.
  pose proof (placed_inv _ _ Hp) as [_ Hok]. pose proof folder_at as [Hw Hne].
  cbn [edit_folder f_children] in *. destruct (is_parent (Folder h children)) eqn:E.
  - apply bool_decide_eq_true in E. intros [= <- <-]. rewrite <- E in Hw, Hne. split; [done|].
    rewrite (heads_one (put_in _)), (heads_one (Folder h children)). unfold put_in at 1 2.
    cbn [f_head f_children]. rewrite (heads_put_sibling (Some at_path)); [|by rewrite <- E|done].
    rewrite filter_cons_True by (by apply outside_self). solve_Permutation.
  - intros ([u' children']&Hc&[= -> ->])%fmap_Some.
    apply edit_last_Some in Hc as (pre&a&a'&post&->&->&Ha).
    apply Forall_app in IH as [_ [IHa _]%Forall_cons].
    destruct Hok as [[Hpre [Hpa Hpost]%Forall_cons]%Forall_app Hn].
    destruct (IHa _ _ _ Hpa Ha) as [Hwa Hheads].
    assert (within (f_path a) h.(fh_path) = true /\ f_path a <> h.(fh_path)) as [Hwh Hneh].
    { pose proof (placed_inv _ _ Hpa) as [(c&->&_) _]. split; [apply within_join|apply join_ne]. }
    assert (within (f_path folder) (fh_path h) = true) as Hwf by (by eapply within_trans).
    split; [done|].
    rewrite (heads_one (Folder h (pre ++ a :: post))), (heads_one (Folder h (pre ++ a' :: post))).
    cbn [f_head f_children]. rewrite !heads_app, (heads_cons' a post), (heads_cons' a' post), Hheads.
    rewrite fmap_app, fmap_cons in Hn. apply NoDup_app in Hn as (_&Hd&[Hn _]%NoDup_cons).
    assert (f_path a ∉ f_path <$> pre) by set_solver.
    rewrite filter_cons_True, !filter_app.
    + rewrite (outside_siblings (Some (f_path (Folder h (pre ++ a :: post)))) a pre) by done.
      rewrite (outside_siblings (Some (f_path (Folder h (pre ++ a :: post)))) a post) by done.
      solve_Permutation.
    + apply outside_self; [done|]. intros El. apply within_length in Hwa. apply within_longer in Hwh; [|done].
      rewrite El in Hwa. lia.
Qed.

Lemma put_in_tree_heads parent roots roots' :
  forest_ok parent roots -> edit_tree is_parent put_in roots = Some roots' ->
  heads roots' ≡ₚ heads [folder] ++ filter (outside (f_path folder)) (heads roots).
Proof.
  intros [Hok Hn] ([u l]&Hc&->)%fmap_Some. apply edit_last_Some in Hc as (pre&a&a'&post&->&->&Ha).
  apply Forall_app in Hok as [Hpre [Hpa Hpost]%Forall_cons].
  destruct (put_in_heads _ _ _ _ Hpa Ha) as [Hwa Hheads].
  rewrite fmap_app, fmap_cons in Hn. apply NoDup_app in Hn as (_&Hd&[Hn _]%NoDup_cons).
  assert (f_path a ∉ f_path <$> pre) by set_solver. cbn [snd].
  rewrite !heads_app, (heads_cons' a post), (heads_cons' a' post), Hheads, !filter_app.
  rewrite (outside_siblings parent a pre) by done. rewrite (outside_siblings parent a post) by done.
  solve_Permutation.
Qed.
End insert.

(** A folder whose paths fit the place that its own path names. *)
Definition self_placed (folder : FolderInfo) : Prop := placed (path_split (f_path folder)).1 folder.

Lemma elem_of_heads_path path roots :
  path ∈ fh_path <$> heads roots <-> exists f, f ∈ preorders roots /\ f_path f = path.
Proof.
  unfold heads. rewrite <- list_fmap_compose, list_elem_of_fmap. unfold f_path. naive_solver.
Qed.

Lemma tree_insert_spec roots folder :
  forest_ok None roots -> self_placed folder ->
  match tree_insert roots folder with
  | (true, roots') =>
      forest_ok None roots' /\
      heads roots' ≡ₚ heads [folder] ++ filter (outside (f_path folder)) (heads roots)
  | (false, roots') =>
      roots' = roots /\
      exists parent, (path_split (f_path folder)).1 = Some parent /\ parent ∉ fh_path <$> heads roots
  end.
Proof.
  intros Hok. unfold self_placed, tree_insert, path_split.
  destruct (rsplit_once SEPARATOR (f_path folder)) as [[parent c]|] eqn:E; cbn [fst]; intros Hf.
  - change (fun f => bool_decide (f_path f = parent)) with (is_parent parent).
    change (fun f => Folder (f_head f) (put_sibling folder (f_children f))) with (put_in folder).
    destruct (edit_tree (is_parent parent) (put_in folder) roots) as [roots'|] eqn:Ee.
    + split; [|by eapply put_in_tree_heads].
      eapply edit_tree_ok; [|done|exact Ee]. intros p f. by apply put_in_placed.
    + split; [done|]. exists parent. split; [done|]. apply edit_tree_None in Ee.
      rewrite elem_of_heads_path. intros (f&Hin&Hp). rewrite Forall_forall in Ee.
      apply Ee in Hin. unfold is_parent in Hin. by rewrite bool_decide_eq_false in Hin.
  - split; [by apply put_sibling_ok|]. rewrite (heads_put_sibling None) by done. solve_Permutation.
Qed.

(** ** New paths *)
Lemma last_component_join parent c : SEPARATOR ∉ c -> last_component (path_join parent c) = c.
Proof.
  intros Hc. unfold last_component, path_join. destruct parent as [p|].
  - by rewrite rsplit_once_app.
  - by rewrite (proj2 (rsplit_once_None _ _)).
Qed.

Lemma repath_path f path : f_path (repath f path) = path.
Proof. by destruct f. Qed.

Lemma repath_placed q q' f path c :
  placed q f -> path = path_join q' c -> SEPARATOR ∉ c -> placed q' (repath f path).
Proof.
  revert q q' path c. induction f as [h children IH] using FolderInfo_ind.
  intros q q' path c Hp -> Hc. pose proof (placed_inv _ _ Hp) as [_ [Hok Hn]]. cbn [f_children] in *.
  eapply placed_intro; [by rewrite repath_path|done|]. rewrite repath_path. cbn [repath f_children].
  set (path := path_join q' c). clearbody path. split.
  - rewrite Forall_fmap. rewrite Forall_forall in *. intros f Hf.
    pose proof (placed_inv _ _ (Hok f Hf)) as [(comp&E&Hcomp) _]. cbn.
    eapply IH; [done|by apply Hok|done|]. by rewrite E, last_component_join.
  - assert (f_path <$> ((fun f => repath f (path_join (Some path) (last_component (f_path f)))) <$> children)
      = (fun p => path_join (Some path) (last_component p)) <$> (f_path <$> children)) as ->.
    { rewrite <- !list_fmap_compose. apply list_fmap_ext. intros i f _. apply repath_path. }
    apply NoDup_fmap_2_strong; [|done]. rewrite Forall_forall in Hok.
    intros x y (f&->&Hx)%list_elem_of_fmap (g&->&Hy)%list_elem_of_fmap.
    pose proof (placed_inv _ _ (Hok f Hx)) as [(cx&->&Hcx) _].
    pose proof (placed_inv _ _ (Hok g Hy)) as [(cy&->&Hcy) _].
    rewrite !last_component_join by done. by intros [_ ->]%path_join_inj.
Qed.

(** The path of a folder below [old] after [old] moved to [path]. *)
Definition moved (old path : text) (h : FolderHead) : FolderHead :=
  with_path (path ++ drop (length old) (fh_path h)) h.

Lemma moved_self old h : fh_path h = old -> forall path, moved old path h = with_path path h.
Proof. intros <- path. unfold moved. by rewrite drop_all, app_nil_r. Qed.

(** Moving a folder moves everything below it along. *)
Lemma heads_repath q f path : placed q f -> heads [repath f path] = moved (f_path f) path <$> heads [f].
Proof.
  revert q path. induction f as [h children IH] using FolderInfo_ind. intros q path Hp.
  rewrite (heads_one (repath _ _)), (heads_one (Folder h children)). cbn [repath f_head f_children].
  rewrite fmap_cons, moved_self by done. f_equal.
  apply placed_inv in Hp as [_ [Hok _]]. cbn [f_children] in Hok.
  change (f_path (Folder h children)) with (fh_path h) in *. clear -IH Hok.
  induction children as [|c l IHl]; [done|].
  apply Forall_cons in IH as [IHc IH], Hok as [Hc Hok]. rewrite fmap_cons.
  rewrite (heads_cons' _ (_ <$> l)), (heads_cons' c l), fmap_app, (IHl IH Hok). f_equal.
  rewrite (IHc _ _ Hc). apply list_fmap_ext. intros i x Hx%list_elem_of_lookup_2. unfold moved. f_equal.
  pose proof (placed_inv _ _ Hc) as [(comp&E&Hcomp) _].
  apply (placed_within _ _ _ Hc), within_spec in Hx. rewrite E in *.
  rewrite last_component_join by done. cbn [path_join].
  assert (exists r, fh_path x = (fh_path h ++ SEPARATOR :: comp) ++ r) as [r ->].
  { destruct Hx as [->|[r ->]]; [exists []; by rewrite app_nil_r|by eexists]. }
  rewrite drop_app_length, <- !(assoc_L (++)), drop_app_length. done.
Qed.

(** ** Lookups *)
Lemma find_Some_elem {A} (p : A -> bool) l x : find p l = Some x -> x ∈ l /\ p x = true.
Proof. intros [?%list_elem_of_In ?]%List.find_some. done. Qed.

Lemma find_None_elem {A} (p : A -> bool) l x : find p l = None -> x ∈ l -> p x = false.
Proof. intros H Hx%list_elem_of_In. by eapply List.find_none. Qed.

Lemma elem_of_heads_id id roots :
  id ∈ fh_id <$> heads roots <-> exists f, f ∈ preorders roots /\ f_id f = id.
Proof. unfold heads. rewrite <- list_fmap_compose, list_elem_of_fmap. unfold f_id. naive_solver. Qed.

Lemma tree_by_id_Some roots id f : tree_by_id roots id = Some f -> f ∈ preorders roots /\ f_id f = id.
Proof.
  unfold tree_by_id. rewrite tree_iter_preorders.
  by intros [? ?%bool_decide_eq_true]%find_Some_elem.
Qed.

Lemma tree_by_id_None roots id : tree_by_id roots id = None -> id ∉ fh_id <$> heads roots.
Proof.
  unfold tree_by_id. rewrite tree_iter_preorders, elem_of_heads_id. intros Hn (f&Hf&Hid).
  eapply find_None_elem in Hn; [|exact Hf]. by rewrite bool_decide_eq_false in Hn.
Qed.

Lemma tree_find_is_Some roots path : is_Some (tree_find roots path) <-> path ∈ fh_path <$> heads roots.
Proof.
  unfold tree_find. rewrite tree_iter_preorders, elem_of_heads_path. split.
  - intros [f [? ?%bool_decide_eq_true]%find_Some_elem]. by exists f.
  - intros (f&Hf&Hp). destruct (find _ _) as [g|] eqn:E; [done|].
    eapply find_None_elem in E; [|exact Hf]. by rewrite bool_decide_eq_false in E.
Qed.

(** ** The invariant of a tree: paths are positions, ids are unique *)
Definition tree_ok (roots : FolderTree) : Prop := forest_ok None roots /\ NoDup (fh_id <$> heads roots).

Lemma tree_by_id_unique roots f : tree_ok roots -> f ∈ preorders roots -> tree_by_id roots (f_id f) = Some f.
Proof.
  intros [_ Hn] Hf. destruct (tree_by_id roots (f_id f)) as [g|] eqn:E.
  - apply tree_by_id_Some in E as [Hg Hid]. f_equal.
    unfold heads in Hn. rewrite <- list_fmap_compose in Hn. by eapply nodup_fmap_eq.
  - apply tree_by_id_None in E. destruct E. apply elem_of_heads_id. eauto.
Qed.

Lemma tree_remove_ok roots id : tree_ok roots -> tree_ok (tree_remove roots id).2.
Proof.
  intros [Hok Hn]. unfold tree_remove. destruct (tree_take roots id) as [[x roots']|] eqn:E; [|done].
  apply tree_take_Some in E as (_&_&Hh&Hok'). split; [by apply Hok'|].
  rewrite Hh, fmap_app in Hn. apply NoDup_app in Hn. tauto.
Qed.

Lemma set_subscribed_ok roots id b : tree_ok roots -> tree_ok (set_subscribed roots id b).2.
Proof.
  intros [Hok Hn]. unfold set_subscribed. destruct (edit_tree _ _ roots) as [roots'|] eqn:E; [|done].
  split.
  - eapply edit_tree_ok; [|exact Hok|exact E]. intros parent [h c] _ Hp. split; [|done].
    apply placed_inv in Hp as [(comp&?&?) ?]. by eapply placed_intro.
  - apply edit_tree_heads in E as (g&rest&_&Hh&Hh'). rewrite Hh in Hn. cbn [snd]. rewrite Hh'.
    by rewrite !heads_one in *.
Qed.

Lemma tree_insert_ok roots folder :
  tree_ok roots -> self_placed folder -> NoDup (fh_id <$> heads [folder]) ->
  (forall id, id ∈ fh_id <$> heads [folder] -> id ∉ fh_id <$> heads roots) ->
  tree_ok (tree_insert roots folder).2.
Proof.
  intros [Hok Hn] Hf Hnf Hd. pose proof (tree_insert_spec _ _ Hok Hf) as Hs.
  destruct (tree_insert roots folder) as [[] roots'].
  - destruct Hs as [Hok' Hh]. split; [done|]. cbn [snd]. rewrite Hh, fmap_app. apply NoDup_app.
    split_and!; [done| |].
    + intros id Hid (h&->&[_ Hh']%list_elem_of_filter)%list_elem_of_fmap.
      eapply Hd; [done|]. by apply list_elem_of_fmap_2.
    + eapply sublist_NoDup; [exact Hn|]. apply fmap_sublist, sublist_filter.
  - by destruct Hs as [-> _].
Qed.

(** ** Renaming *)
Definition renamed (name : text) (f : FolderInfo) : FolderInfo :=
  Folder (with_display_name name (f_head f)) (f_children f).

Lemma renamed_placed parent name f : placed parent f -> placed parent (renamed name f).
Proof. destruct f as [h c]. intros [(comp&?&?) ?]%placed_inv. by eapply placed_intro. Qed.

(** Where a rename may go: the destination's parent is a folder, and not one of the moved
    folder's own. *)
Definition may_move (roots : FolderTree) (old : FolderInfo) (path : text) : Prop :=
  forall parent, (path_split path).1 = Some parent ->
  is_Some (tree_find roots parent) /\ within parent (f_path old) = false.

Lemma tree_rename_spec roots id path name old :
  tree_ok roots -> tree_by_id roots id = Some old -> may_move roots old path ->
  exists rest roots', tree_rename roots id path name = (true, roots') /\ forest_ok None roots' /\
    heads roots ≡ₚ heads [old] ++ rest /\
    heads roots' ≡ₚ (moved (f_path old) path <$> heads [renamed name old]) ++ filter (outside path) rest.
Proof.
  intros Hok Hid Hmay. unfold tree_rename. rewrite Hid.
  assert (match rsplit_once SEPARATOR path with
    | Some (parent, _) => within parent (f_path old) || negb (bool_decide (is_Some (tree_find roots parent)))
    | None => false end = false) as ->.
  { unfold may_move, path_split in Hmay. destruct (rsplit_once SEPARATOR path) as [[parent c]|]; [|done].
    destruct (Hmay parent eq_refl) as [Hs ->]. by rewrite bool_decide_eq_true_2. }
  apply tree_by_id_Some in Hid as [Hold Hid].
  destruct (tree_take roots id) as [[x roots1]|] eqn:Et.
  2: { apply tree_take_None in Et. destruct Et. apply elem_of_heads_id. eauto. }
  apply tree_take_Some in Et as (Hx&Hin&Hh&Hok1). destruct Hok as [Hfok Hn].
  destruct (Hok1 _ Hfok) as [Hok1' [q Hq]].
  assert (x = old) as ->.
  { unfold heads in Hn. rewrite <- list_fmap_compose in Hn.
    eapply nodup_fmap_eq; [exact Hn|done|done|]. change (f_id x = f_id old). congruence. }
  pose proof (path_split_spec path) as [Hpath Hcomp].
  assert (self_placed (repath (renamed name old) path)) as Hself.
  { unfold self_placed. rewrite repath_path. eapply repath_placed; [by apply renamed_placed|done..]. }
  pose proof (tree_insert_spec roots1 _ Hok1' Hself) as Hs. fold (renamed name old).
  destruct (tree_insert roots1 (repath (renamed name old) path)) as [[] roots'].
  - destruct Hs as [Hok' Hh']. exists (heads roots1), roots'. split_and!; [done..|].
    rewrite repath_path in Hh'. rewrite (heads_repath q) in Hh' by (by apply renamed_placed). done.
  - destruct Hs as [_ (parent&Hparent&Hnot)]. rewrite repath_path in Hparent. exfalso.
    destruct (Hmay parent Hparent) as [Hfound Hout]. apply tree_find_is_Some in Hfound.
    rewrite Hh, fmap_app, elem_of_app in Hfound. destruct Hfound as [Hfound|]; [|done].
    apply list_elem_of_fmap in Hfound as (h&->&Hin'). by rewrite (placed_within _ _ _ Hq Hin') in Hout.
Qed.

Lemma tree_rename_refused roots id path name :
  (forall old, tree_by_id roots id = Some old -> ~ may_move roots old path) ->
  tree_rename roots id path name = (false, roots).
Proof.
  intros Hno. unfold tree_rename. destruct (tree_by_id roots id) as [old|]; [|done].
  specialize (Hno old eq_refl).
  assert (match rsplit_once SEPARATOR path with
    | Some (parent, _) => within parent (f_path old) || negb (bool_decide (is_Some (tree_find roots parent)))
    | None => false end = true) as ->; [|done].
  unfold may_move, path_split in Hno. destruct (rsplit_once SEPARATOR path) as [[parent c]|].
  - destruct (within parent (f_path old)) eqn:E; [done|]. cbn [orb].
    case_bool_decide; [|done]. destruct Hno. by intros ? [= <-].
  - destruct Hno. by intros ? [=].
Qed.

#[export] Instance may_move_dec roots old path : Decision (may_move roots old path).
Proof.
  unfold may_move. destruct (path_split path).1 as [parent|].
  - destruct (decide (is_Some (tree_find roots parent) /\ within parent (f_path old) = false)) as [?|Hn].
    + left. by intros ? [= <-].
    + right. intros Hm. by apply Hn, Hm.
  - left. by intros ? [=].
Defined.

Lemma moved_ids old path (l : list FolderHead) : fh_id <$> (moved old path <$> l) = fh_id <$> l.
Proof. by rewrite <- list_fmap_compose. Qed.

Lemma tree_rename_ok roots id path name : tree_ok roots -> tree_ok (tree_rename roots id path name).2.
Proof.
  intros Hok. destruct (tree_by_id roots id) as [old|] eqn:Hid.
  2: { rewrite tree_rename_refused by (rewrite Hid; done). done. }
  destruct (decide (may_move roots old path)) as [Hm|Hm].
  - destruct (tree_rename_spec _ _ _ name _ Hok Hid Hm) as (rest&roots'&->&Hok'&Hh&Hh').
    split; [done|]. destruct Hok as [_ Hn]. cbn [snd]. rewrite Hh, fmap_app in Hn.
    rewrite Hh', fmap_app, moved_ids. rewrite heads_one in Hn |- *.
    apply NoDup_app in Hn as (?&Hd&?). apply NoDup_app. split_and!; [done| |].
    + intros i Hi (h&->&[_ Hin]%list_elem_of_filter)%list_elem_of_fmap.
      eapply Hd; [exact Hi|]. by apply list_elem_of_fmap_2.
    + eapply sublist_NoDup; [done|]. apply fmap_sublist, sublist_filter.
  - rewrite tree_rename_refused; [done|]. rewrite Hid. by intros ? [= <-].
Qed.

(** ** Edits in sequence *)
Inductive tree_edit (roots : FolderTree) : FolderTree -> Prop :=
| edit_subscribe id subscribed : tree_edit roots (set_subscribed roots id subscribed).2
| edit_insert folder :
    self_placed folder -> NoDup (fh_id <$> heads [folder]) ->
    (forall id, id ∈ fh_id <$> heads [folder] -> id ∉ fh_id <$> heads roots) ->
    tree_edit roots (tree_insert roots folder).2
| edit_rename id path display_name : tree_edit roots (tree_rename roots id path display_name).2
| edit_remove id : tree_edit roots (tree_remove roots id).2.

Lemma tree_edit_ok roots roots' : tree_ok roots -> tree_edit roots roots' -> tree_ok roots'.
Proof.
  intros Hok [?|?|?|?]; [by apply set_subscribed_ok|by apply tree_insert_ok|by apply tree_rename_ok|].
  by apply tree_remove_ok.
Qed.

Lemma tree_edits_ok roots roots' : tree_ok roots -> rtc tree_edit roots roots' -> tree_ok roots'.
Proof. intros Hok. induction 1 as [|x y z Hxy Hyz IH]; [done|]. apply IH. by eapply tree_edit_ok. Qed.

Lemma tree_ok_paths roots : tree_ok roots -> NoDup (fh_path <$> heads roots).
Proof. intros [Hok _]. by eapply forest_paths_nodup. Qed.

(** C29: a rename moves the folder, with everything below it, or does nothing.  It succeeds
    exactly when the folder exists and the parent of its new path is a folder that is not
    below it; then the moved folder has the new name, it and the folders below it are at the
    new path, a folder that was at that path is gone with its subtree, and every other folder
    is as before.  In particular the insertion after the removal is never refused, so no
    rename loses the folder. *)
Theorem rename_moves roots id path display_name :
  tree_ok roots ->
  ((tree_rename roots id path display_name).1 = true <->
   exists old, tree_by_id roots id = Some old /\ may_move roots old path) /\
  match tree_rename roots id path display_name with
  | (false, roots') => roots' = roots
  | (true, roots') =>
      exists old rest, tree_by_id roots id = Some old /\ heads roots ≡ₚ heads [old] ++ rest /\
        heads roots' ≡ₚ (moved (f_path old) path <$> heads [renamed display_name old]) ++ filter (outside path) rest
  end.
Proof.
  intros Hok. destruct (tree_by_id roots id) as [old|] eqn:Hid.
  2: { rewrite tree_rename_refused by (rewrite Hid; done). split; [|done]. split; [done|]. by intros (?&?&_). }
  destruct (decide (may_move roots old path)) as [Hm|Hm].
  - destruct (tree_rename_spec _ _ _ display_name _ Hok Hid Hm) as (rest&roots'&->&_&?&?). split; [|eauto].
    split; [eauto|done].
  - rewrite tree_rename_refused; [|rewrite Hid; by intros ? [= <-]]. split; [|done].
    split; [done|]. by intros (?&[= <-]&?).
Qed.
