(* ===== verification/FolderBuild.v ===== *)
(** Building the folder tree from a [Mailbox/get] list (jmap-mail-sync/src/folder.rs:
    [from_mailboxes] and the steps it calls).

    Nodes are named by their index in sibling order.  The walk cuts the parent links that
    form a loop or a chain deeper than [MAX_DEPTH]; its state is a record, one round of its
    two loops is one round of [walk_loop], which gives [None] if its rounds do not suffice:
    [walk_walked] shows that they do.  Every index is below the number of nodes, so no lookup
    in these lists is out of range. *)

From Stdlib Require Import Ascii String.
From stdpp Require Import prelude strings.
From S2P Require Import Prelude BTree Strings Json Proto Path FolderTree.

Local Open Scope rust_scope.

Definition MAX_DEPTH : nat := 64.

Record Node := { n_mailbox : Mailbox; n_id : Id }.

(** ** Checking and sorting the list *)
Definition check_mailbox (mailbox : Mailbox) : result Node SyncError :=
  match mb_id mailbox with
  | None => Err (sync_protocol (lit "Mailbox/get returned a mailbox without an id"))
  | Some id =>
      if decide (mb_name mailbox = [])
      then Err (sync_protocol (lit "Mailbox/get returned mailbox " ++ id ++ lit " without a name"))
      else Ok {| n_mailbox := mailbox; n_id := id |}
  end.

Definition check_mailboxes (mailboxes : list Mailbox) : result (list Node) SyncError :=
  try_fold (fun nodes mailbox => let? node := check_mailbox mailbox in Ok (nodes ++ [node])) [] mailboxes.

(** [Node::sort_order]. *)
Definition node_sort_order (node : Node) : N := default 0%N (mb_sort_order (n_mailbox node)).

Definition node_cmp (left right : Node) : comparison :=
  then_with (N.compare (node_sort_order left) (node_sort_order right))
    (then_with (text_cmp (mb_name (n_mailbox left)) (mb_name (n_mailbox right)))
      (text_cmp (n_id left) (n_id right))).

Fixpoint index_nodes (index_of : btmap Id nat) (index : nat) (nodes : list Node)
  : result (btmap Id nat) SyncError :=
  match nodes with
  | [] => Ok index_of
  | node :: nodes =>
      if bt_contains (n_id node) index_of
      then Err (sync_protocol (lit "Mailbox/get returned mailbox " ++ n_id node ++ lit " twice"))
      else index_nodes (bt_insert (n_id node) index index_of) (S index) nodes
  end.

Definition parent_of (index_of : btmap Id nat) (node : Node) : option nat :=
  let! parent_id := mb_parent_id (n_mailbox node) in bt_get parent_id index_of.

(** ** Roles *)
Fixpoint claim_roles (claimed : list FolderRole) (nodes : list Node) : list (option FolderRole) :=
  match nodes with
  | [] => []
  | node :: nodes =>
      match (let! role := mb_role (n_mailbox node) in role_from_jmap role) with
      | Some role =>
          if decide (role ∈ claimed) then None :: claim_roles claimed nodes
          else Some role :: claim_roles (role :: claimed) nodes
      | None => None :: claim_roles claimed nodes
      end
  end.

(** ** The children of each node, and the roots *)
Fixpoint link_nodes (children : list (list nat)) (roots : list nat) (index : nat) (parent : list (option nat))
  : list (list nat) * list nat :=
  match parent with
  | [] => (children, roots)
  | Some p :: parent => link_nodes (alter (fun l => l ++ [index]) p children) roots (S index) parent
  | None :: parent => link_nodes children (roots ++ [index]) (S index) parent
  end.

(** ** The walk *)
Record Walk := {
  w_parent : list (option nat);
  w_children : list (list nat);
  w_visited : list bool;
  w_order : list nat;
  w_stack : list (nat * nat);
}.

Definition is_visited (visited : list bool) (index : nat) : bool := default false (visited !! index).

(** [if let Some(p) = parent[index].take() { children[p].retain(..) }]. *)
Definition cut_link (index : nat) (parent : list (option nat)) (children : list (list nat))
  : list (option nat) * list (list nat) :=
  match mjoin (parent !! index) with
  | Some p => (<[index := None]> parent, alter (filter (fun child => child <> index)) p children)
  | None => (parent, children)
  end.

(** One round of [while let Some((index, depth)) = stack.pop()]. *)
Definition walk_pop (w : Walk) (index depth : nat) (stack : list (nat * nat)) : Walk :=
  if is_visited (w_visited w) index then
    {| w_parent := w_parent w; w_children := w_children w; w_visited := w_visited w;
       w_order := w_order w; w_stack := stack |}
  else
    let '(parent, children) :=
      if decide (MAX_DEPTH < depth) then cut_link index (w_parent w) (w_children w)
      else (w_parent w, w_children w) in
    let depth := if decide (MAX_DEPTH < depth) then 1 else depth in
    {| w_parent := parent; w_children := children;
       w_visited := <[index := true]> (w_visited w);
       w_order := w_order w ++ [index];
       w_stack := ((fun child => (child, S depth)) <$> default [] (children !! index)) ++ stack |}.

(** The first unvisited index from [cut] on becomes a root. *)
Definition walk_orphan (w : Walk) (orphan : nat) : Walk :=
  let '(parent, children) := cut_link orphan (w_parent w) (w_children w) in
  {| w_parent := parent; w_children := children; w_visited := w_visited w;
     w_order := w_order w; w_stack := [(orphan, 1)] |}.

Fixpoint walk_loop (fuel cut : nat) (w : Walk) : option Walk :=
  match fuel with
  | O => None
  | S fuel =>
      match w_stack w with
      | (index, depth) :: stack => walk_loop fuel cut (walk_pop w index depth stack)
      | [] =>
          match find (fun index => negb (is_visited (w_visited w) index))
                  (seq cut (length (w_visited w) - cut)) with
          | None => Some w
          | Some orphan => walk_loop fuel (S orphan) (walk_orphan w orphan)
          end
      end
  end.

(** Each node is pushed by its parent or as a root, and each round of the outer loop but
    the last moves [cut] on: five rounds for each node are enough. *)
Definition walk (parent : list (option nat)) (children : list (list nat)) (roots : list nat) : option Walk :=
  walk_loop (S (5 * length parent)) 0
    {| w_parent := parent; w_children := children;
       w_visited := replicate (length parent) false; w_order := [];
       w_stack := (fun index => (index, 1)) <$> roots |}.

(** ** Paths *)
Definition path_at (nodes : list Node) (parent : list (option nat)) (paths : list text) (used : list text)
    (index : nat) : text :=
  let parent_path := (fun p => default [] (paths !! p)) <$> mjoin (parent !! index) in
  let name := default [] ((fun node => mb_name (n_mailbox node)) <$> nodes !! index) in
  let id := default [] (n_id <$> nodes !! index) in
  let path := path_join parent_path (encode_component name) in
  if decide (path ∈ used) then path_join parent_path (marked_component name id) else path.

Fixpoint paths_loop (nodes : list Node) (parent : list (option nat)) (paths : list text) (used : list text)
    (order : list nat) : list text :=
  match order with
  | [] => paths
  | index :: order =>
      let path := path_at nodes parent paths used index in
      paths_loop nodes parent (<[index := path]> paths) (path :: used) order
  end.

Definition paths_of (nodes : list Node) (parent : list (option nat)) (order : list nat) : list text :=
  paths_loop nodes parent (replicate (length nodes) []) [] order.

(** ** Assembly *)
Definition saturate (count : option N) : N := N.min u32_max (default 0%N count).

Definition head_at (nodes : list Node) (roles : list (option FolderRole)) (paths : list text) (index : nat)
  : FolderHead :=
  let mailbox := default (mailbox_new []) (n_mailbox <$> nodes !! index) in
  {| fh_id := default [] (n_id <$> nodes !! index);
     fh_path := default [] (paths !! index);
     fh_display_name := mb_name mailbox;
     fh_role := mjoin (roles !! index);
     fh_total := saturate (mb_total_emails mailbox);
     fh_unread := saturate (mb_unread_emails mailbox);
     fh_subscribed := default true (mb_is_subscribed mailbox);
     fh_may_add_items := let! rights := mb_my_rights mailbox in mr_may_add_items rights;
     fh_account_id := None |}.

(** The loop over [order] reversed; [built] holds the finished children of each node. *)
Fixpoint assemble_loop (head : nat -> FolderHead) (parent : list (option nat))
    (built : list (list FolderInfo)) (roots : list FolderInfo) (order : list nat)
  : list (list FolderInfo) * list FolderInfo :=
  match order with
  | [] => (built, roots)
  | index :: order =>
      let folder := Folder (head index) (reverse (default [] (built !! index))) in
      let built := <[index := []]> built in
      match mjoin (parent !! index) with
      | Some p => assemble_loop head parent (alter (fun l => l ++ [folder]) p built) roots order
      | None => assemble_loop head parent built (roots ++ [folder]) order
      end
  end.

Definition assemble (head : nat -> FolderHead) (parent : list (option nat)) (n : nat) (order : list nat)
  : list FolderInfo :=
  reverse (assemble_loop head parent (replicate n []) [] (reverse order)).2.

(** ** [FolderTree::from_mailboxes] *)

(** The outcome of a walk whose rounds did not suffice.  The code has no such outcome;
    [from_mailboxes_accepts] shows that the model has none either. *)
Definition walk_unfinished : SyncError := sync_protocol (lit "the walk over the mailboxes did not end").

Definition from_nodes (nodes : list Node) : result FolderTree SyncError :=
  let? index_of := index_nodes [] 0 nodes in
  let parent := parent_of index_of <$> nodes in
  let roles := claim_roles [] nodes in
  let '(children, roots) := link_nodes (replicate (length nodes) []) [] 0 parent in
  let? w := ok_or (walk parent children roots) walk_unfinished in
  let paths := paths_of nodes (w_parent w) (w_order w) in
  Ok (assemble (head_at nodes roles paths) (w_parent w) (length nodes) (w_order w)).

Definition from_mailboxes (mailboxes : list Mailbox) : result FolderTree SyncError :=
  let? nodes := check_mailboxes mailboxes in
  from_nodes (sort_by node_cmp nodes).
