(* ===== verification/FolderWalk.v ===== *)
(** The walk over the mailboxes of a listing ([FolderTree::walk]).

    Whatever the parent links are, the walk ends with every index in its order exactly once,
    each after its parent and at most [MAX_DEPTH] deep; a link is only ever cut, and a link
    is never cut that is on a path of at most [MAX_DEPTH] links from a top-level mailbox. *)

From stdpp Require Import prelude.
From S2P Require Import Prelude Proto FolderTree FolderBuild.

(** ** Links *)
Definition par (parent : list (option nat)) (i : nat) : option nat := mjoin (parent !! i).
Definition kids (children : list (list nat)) (p : nat) : list nat := default [] (children !! p).

(** The depth of a node by its parent links; a node on a loop has none. *)
Inductive depth_at (parent : list (option nat)) : nat -> nat -> Prop :=
| depth_root i : parent !! i = Some None -> depth_at parent i 1
| depth_child i p d : parent !! i = Some (Some p) -> depth_at parent p d -> depth_at parent i (S d).

Lemma depth_at_fun parent i d d' : depth_at parent i d -> depth_at parent i d' -> d = d'.
Proof.
  intros H. revert d'. induction H as [i Hi|i p d Hi Hp IH]; intros d'; inversion 1; simplify_eq; [done|].
  f_equal. by apply IH.
Qed.

Lemma par_Some parent i p : par parent i = Some p <-> parent !! i = Some (Some p).
Proof. unfold par. destruct (parent !! i) as [[]|]; naive_solver. Qed.

Record links (n : nat) (parent : list (option nat)) (children : list (list nat)) : Prop := {
  lk_parent_len : length parent = n;
  lk_children_len : length children = n;
  lk_bound i p : par parent i = Some p -> p < n;
  lk_children i p : i ∈ kids children p <-> par parent i = Some p;
}.

Lemma par_lt n parent children i p : links n parent children -> par parent i = Some p -> i < n.
Proof. intros [<- _ _ _] H%par_Some. by eapply lookup_lt_Some. Qed.

Lemma kids_alter f p children q :
  f [] = [] -> kids (alter f p children) q = if decide (p = q) then f (kids children q) else kids children q.
Proof.
  intros Hf. unfold kids. case_decide as Hd.
  - subst. rewrite list_lookup_alter_eq. destruct (children !! q); cbn; by rewrite ?Hf.
  - by rewrite list_lookup_alter_ne.
Qed.

(** Cutting a link keeps the two sides in agreement. *)
Lemma cut_link_par i parent children j :
  par (cut_link i parent children).1 j = if decide (i = j) then None else par parent j.
Proof.
  unfold cut_link, par. destruct (mjoin (parent !! i)) as [p|] eqn:E; cbn [fst].
  - case_decide as Hd; [subst|by rewrite list_lookup_insert_ne].
    rewrite list_lookup_insert_eq; [done|]. apply par_Some in E. by eapply lookup_lt_Some.
  - case_decide; by subst.
Qed.

Lemma cut_link_lookup i parent children j :
  i <> j -> (cut_link i parent children).1 !! j = parent !! j.
Proof. intros Hne. unfold cut_link. destruct (mjoin _); cbn [fst]; [by rewrite list_lookup_insert_ne|done]. Qed.

Lemma cut_link_links n i parent children :
  links n parent children -> links n (cut_link i parent children).1 (cut_link i parent children).2.
Proof.
  intros [Hp Hc Hb Hk]. split.
  - unfold cut_link. destruct (mjoin _); cbn; by rewrite ?length_insert.
  - unfold cut_link. destruct (mjoin _); cbn; by rewrite ?length_alter.
  - intros j p. rewrite cut_link_par. case_decide; [done|apply Hb].
  - intros j p. rewrite cut_link_par. unfold cut_link.
    destruct (mjoin (parent !! i)) as [q|] eqn:E; cbn [snd].
    + rewrite kids_alter by done. case_decide as Hq; [subst q; rewrite list_elem_of_filter|]; rewrite Hk.
      * case_decide; naive_solver.
      * case_decide as Hj; [|done]. subst j. split; [|done]. intros Hpar. unfold par in Hpar. congruence.
    + rewrite Hk. case_decide as Hj; [|done]. subst j. unfold par. by rewrite E.
Qed.

Lemma cut_link_kids_le i parent children p :
  length (kids (cut_link i parent children).2 p) <= length (kids children p).
Proof.
  unfold cut_link. destruct (mjoin _); cbn [snd]; [|done]. rewrite kids_alter by done.
  case_decide; [|done]. apply length_filter.
Qed.

(** ** Depths survive cuts elsewhere *)
Section depth.
Context (parent : list (option nat)) (order : list nat).
Hypothesis closed : forall i p, i ∈ order -> par parent i = Some p -> p ∈ order.

Lemma depth_at_cut children j i d :
  (j ∉ order) -> i ∈ order -> depth_at parent i d -> depth_at (cut_link j parent children).1 i d.
Proof.
  intros Hj Hi Hd. induction Hd as [i Hr|i p d Hp Hd IH].
  - apply depth_root. rewrite cut_link_lookup; [done|]. by intros ->.
  - eapply depth_child; [rewrite cut_link_lookup; [done|by intros ->]|].
    apply IH. eapply closed; [done|by apply par_Some].
Qed.
End depth.

(** ** The invariant *)
Definition pending (w : Walk) (i : nat) : Prop := i ∈ w_order w \/ i ∈ (w_stack w).*1.

(** What the stack knows of a node that is still to be visited. *)
Definition stack_fits (w : Walk) (i d : nat) : Prop :=
  (par (w_parent w) i = None /\ d = 1) \/
  exists p d', par (w_parent w) i = Some p /\ p ∈ w_order w /\ d = S d' /\ d' <= MAX_DEPTH /\
               depth_at (w_parent w) p d'.

Record walk_inv (n : nat) (init : list (option nat)) (cut : nat) (w : Walk) : Prop := {
  wi_links : links n (w_parent w) (w_children w);
  wi_visited_len : length (w_visited w) = n;
  wi_visited i : is_visited (w_visited w) i = true <-> i ∈ w_order w;
  wi_nodup : NoDup (w_order w);
  wi_bound i : pending w i -> i < n;
  wi_first pre i post p : w_order w = pre ++ i :: post -> par (w_parent w) i = Some p -> p ∈ pre;
  wi_depth i : i ∈ w_order w -> exists d, d <= MAX_DEPTH /\ depth_at (w_parent w) i d;
  wi_stack i d : (i, d) ∈ w_stack w -> i ∉ w_order w -> stack_fits w i d;
  wi_cut i : i < cut -> i < n -> pending w i;
  wi_closed i p : par (w_parent w) i = Some p -> p ∈ w_order w -> pending w i;
  wi_roots i : init !! i = Some None -> pending w i;
  wi_from i : par (w_parent w) i = None \/ par (w_parent w) i = par init i;
  wi_kept i d : d <= MAX_DEPTH -> depth_at init i d -> par (w_parent w) i = par init i;
}.

Lemma elem_split {A} (x : A) l : x ∈ l -> exists pre post, l = pre ++ x :: post.
Proof. apply list_elem_of_split. Qed.

Lemma wi_order_closed n init cut w i p :
  walk_inv n init cut w -> i ∈ w_order w -> par (w_parent w) i = Some p -> p ∈ w_order w.
Proof.
  intros Hi (pre&post&E)%elem_split Hp. pose proof (wi_first _ _ _ _ Hi _ _ _ _ E Hp).
  rewrite E. set_solver.
Qed.

(** A kept chain has the depth that it started with. *)
Lemma kept_depth n init cut w i d :
  walk_inv n init cut w -> d <= MAX_DEPTH -> depth_at init i d -> depth_at (w_parent w) i d.
Proof.
  intros Hi Hd H. induction H as [i Hr|i p d Hp H IH].
  - pose proof (wi_kept _ _ _ _ Hi i 1 Hd (depth_root _ _ Hr)) as E.
    apply depth_root. assert (i < n) as Hlt by (apply (wi_bound _ _ _ _ Hi), (wi_roots _ _ _ _ Hi _ Hr)).
    destruct (wi_links _ _ _ _ Hi) as [Hlen _ _ _]. rewrite <- Hlen in Hlt.
    apply lookup_lt_is_Some in Hlt as [x Hx]. unfold par in E. rewrite Hx, Hr in E. cbn in E. by subst.
  - pose proof (wi_kept _ _ _ _ Hi i (S d) Hd (depth_child _ _ _ _ Hp H)) as E.
    eapply depth_child; [|apply IH; lia]. apply par_Some. rewrite E. by apply par_Some.
Qed.

(** ** One round of the inner loop *)
Lemma pop_visited_inv n init cut w i d stack :
  walk_inv n init cut w -> w_stack w = (i, d) :: stack -> i ∈ w_order w ->
  walk_inv n init cut
    {| w_parent := w_parent w; w_children := w_children w; w_visited := w_visited w;
       w_order := w_order w; w_stack := stack |}.
Proof.
  intros Hinv Hs Hi. set (w' := Build_Walk _ _ _ _ _).
  assert (forall j, pending w j <-> pending w' j) as Hpend.
  { intros j. unfold pending. rewrite Hs. cbn. rewrite elem_of_cons. naive_solver. }
  destruct Hinv as [?? ?? Hb ?? Hst Hcut Hclosed Hroots ??].
  split; try done; try (intros; apply Hpend; by eauto).
  - intros j Hj. by apply Hb, Hpend.
  - intros j d' Hj. apply (Hst j d'). rewrite Hs. by right.
Qed.

(** The links with which a node is visited: its own may have been cut. *)
Record visit_links n init (w : Walk) (i depth : nat) (parent : list (option nat)) (children : list (list nat)) : Prop := {
  vl_links : links n parent children;
  vl_other j : j <> i -> parent !! j = w_parent w !! j;
  vl_depth : depth_at parent i depth;
  vl_bound : depth <= MAX_DEPTH;
  vl_parent p : par parent i = Some p -> p ∈ w_order w;
  vl_from : par parent i = None \/ par parent i = par (w_parent w) i;
  vl_kept d : d <= MAX_DEPTH -> depth_at init i d -> par parent i = par init i;
  vl_stable j d : j ∈ w_order w -> depth_at (w_parent w) j d -> depth_at parent j d;
}.

Lemma par_lookup_None n parent children i :
  links n parent children -> i < n -> par parent i = None -> parent !! i = Some None.
Proof.
  intros [Hlen _ _ _] Hi. rewrite <- Hlen in Hi. apply lookup_lt_is_Some in Hi as [x Hx].
  unfold par. rewrite Hx. cbn. congruence.
Qed.

(** The stack's depth is right, so only a node beyond the limit is cut. *)
Lemma pop_visit_links n init cut w i depth stack :
  walk_inv n init cut w -> w_stack w = (i, depth) :: stack -> i ∉ w_order w ->
  let pc := if decide (MAX_DEPTH < depth) then cut_link i (w_parent w) (w_children w)
            else (w_parent w, w_children w) in
  visit_links n init w i (if decide (MAX_DEPTH < depth) then 1 else depth) pc.1 pc.2.
Proof.
  intros Hinv Hs Hi. pose proof (wi_links _ _ _ _ Hinv) as Hl.
  assert (i < n) as Hn.
  { apply (wi_bound _ _ _ _ Hinv). right. rewrite Hs. left. }
  assert (stack_fits w i depth) as Hfit.
  { apply (wi_stack _ _ _ _ Hinv); [rewrite Hs; left|done]. }
  case_decide as Hd; cbn [fst snd].
  - assert (par (cut_link i (w_parent w) (w_children w)).1 i = None) as Hcut
      by (by rewrite cut_link_par, decide_True).
    pose proof (cut_link_links _ i _ _ Hl) as Hl'. split.
    + done.
    + intros j Hj. by apply cut_link_lookup.
    + apply depth_root. by eapply par_lookup_None.
    + unfold MAX_DEPTH. lia.
    + by rewrite Hcut.
    + by left.
    + intros d Hdm Hdepth. exfalso.
      destruct Hfit as [[_ ->]|(p&d'&Hp&_&->&Hd'&Hpd)]; [unfold MAX_DEPTH in Hd; lia|].
      pose proof (kept_depth _ _ _ _ _ _ Hinv Hdm Hdepth) as Hcur. apply par_Some in Hp.
      pose proof (depth_at_fun _ _ _ _ Hcur (depth_child _ _ _ _ Hp Hpd)). lia.
    + intros j d Hj. eapply depth_at_cut; [|done..]. intros k p. by apply (wi_order_closed _ _ _ _ _ _ Hinv).
  - split; try done.
    + destruct Hfit as [[Hp ->]|(p&d'&Hp&_&->&Hd'&Hpd)].
      * apply depth_root. by eapply par_lookup_None.
      * eapply depth_child; [by apply par_Some|done].
    + lia.
    + intros p Hp. destruct Hfit as [[Hp' _]|(q&d'&Hq&Hin&_)]; congruence.
    + by right.
    + intros d ??. by eapply wi_kept.
Qed.

Lemma is_visited_insert visited i j :
  i < length visited -> is_visited (<[i := true]> visited) j = true <-> j = i \/ is_visited visited j = true.
Proof.
  intros Hi. unfold is_visited. destruct (decide (i = j)) as [->|Hne].
  - rewrite list_lookup_insert_eq by done. naive_solver.
  - rewrite list_lookup_insert_ne by done. naive_solver.
Qed.

Lemma snoc_split {A} (l pre post : list A) x y :
  l ++ [x] = pre ++ y :: post -> (pre = l /\ y = x /\ post = []) \/ exists post', post = post' ++ [x] /\ l = pre ++ y :: post'.
Proof.
  intros E. destruct post as [|z post] using rev_ind.
  - left. by apply app_inj_tail in E as [-> ->].
  - right. exists post. rewrite app_comm_cons, (assoc_L (++)) in E. by apply app_inj_tail in E as [-> ->].
Qed.

Section visit.
Context (n : nat) (init : list (option nat)) (cut : nat) (w : Walk) (i depth d0 : nat) (stack : list (nat * nat)).
Context (parent : list (option nat)) (children : list (list nat)).
Hypothesis Hinv : walk_inv n init cut w.
Hypothesis Hs : w_stack w = (i, d0) :: stack.
Hypothesis Hi : i ∉ w_order w.
Hypothesis Hv : visit_links n init w i depth parent children.

Definition visited_walk : Walk :=
  {| w_parent := parent; w_children := children; w_visited := <[i := true]> (w_visited w);
     w_order := w_order w ++ [i];
     w_stack := ((fun child => (child, S depth)) <$> kids children i) ++ stack |}.

Lemma visit_par j : j <> i -> par parent j = par (w_parent w) j.
Proof. intros Hj. unfold par. by rewrite (vl_other _ _ _ _ _ _ _ Hv). Qed.

Lemma visit_pending j : pending w j -> pending visited_walk j.
Proof.
  unfold pending, visited_walk. cbn [w_order w_stack]. rewrite Hs, fmap_cons, elem_of_cons, elem_of_app.
  cbn [fst]. rewrite fmap_app, elem_of_app. set_solver.
Qed.

Lemma visit_lt : i < n.
Proof. apply (wi_bound _ _ _ _ Hinv). right. rewrite Hs. left. Qed.

Lemma visit_bound j : pending visited_walk j -> j < n.
Proof.
  unfold pending, visited_walk. cbn [w_order w_stack].
  rewrite elem_of_app, list_elem_of_singleton, fmap_app, elem_of_app.
  intros [[Hj| ->]|[Hj|Hj]].
  - apply (wi_bound _ _ _ _ Hinv). by left.
  - apply visit_lt.
  - rewrite <- list_fmap_compose in Hj. apply list_elem_of_fmap in Hj as (k&->&Hk). cbn.
    apply (lk_children _ _ _ (vl_links _ _ _ _ _ _ _ Hv)) in Hk. eapply par_lt; [apply (vl_links _ _ _ _ _ _ _ Hv)|done].
  - apply (wi_bound _ _ _ _ Hinv). right. rewrite Hs. by right.
Qed.

Lemma visit_stack j d : (j, d) ∈ w_stack visited_walk -> j ∉ w_order visited_walk -> stack_fits visited_walk j d.
Proof.
  unfold visited_walk. cbn [w_stack w_order]. rewrite elem_of_app, not_elem_of_app.
  intros [(k&[= -> ->]&Hk)%list_elem_of_fmap|Hin] [Hj Hji].
  - right. exists i, depth. cbn [w_parent w_order]. split_and!; [|set_solver|done|..].
    + by apply (lk_children _ _ _ (vl_links _ _ _ _ _ _ _ Hv)).
    + apply (vl_bound _ _ _ _ _ _ _ Hv).
    + apply (vl_depth _ _ _ _ _ _ _ Hv).
  - assert (j <> i) as Hne by set_solver.
    destruct (wi_stack _ _ _ _ Hinv j d) as [[Hp ->]|(p&d'&Hp&Hin'&->&Hd'&Hpd)]; [rewrite Hs; by right|done|..].
    + left. cbn [w_parent]. by rewrite visit_par.
    + right. exists p, d'. cbn [w_parent w_order]. rewrite visit_par by done.
      split_and!; [done|set_solver|done|done|]. by apply (vl_stable _ _ _ _ _ _ _ Hv).
Qed.

Lemma visit_inv : walk_inv n init cut visited_walk.
Proof.
  split.
  - apply (vl_links _ _ _ _ _ _ _ Hv).
  - cbn. rewrite length_insert. apply (wi_visited_len _ _ _ _ Hinv).
  - intros j. cbn [w_visited w_order visited_walk].
    rewrite is_visited_insert, (wi_visited _ _ _ _ Hinv), elem_of_app, list_elem_of_singleton; [tauto|].
    rewrite (wi_visited_len _ _ _ _ Hinv). apply visit_lt.
  - cbn. apply NoDup_app. split_and!; [apply (wi_nodup _ _ _ _ Hinv)|set_solver|apply NoDup_singleton].
  - apply visit_bound.
  - intros pre j post p. cbn [w_order w_parent visited_walk]. intros [(->&->&_)|(post'&->&E)]%snoc_split Hp.
    + by apply (vl_parent _ _ _ _ _ _ _ Hv).
    + assert (j <> i) by (rewrite E in Hi; set_solver).
      rewrite visit_par in Hp by done. by eapply (wi_first _ _ _ _ Hinv).
  - intros j. cbn [w_order w_parent visited_walk]. intros [Hj| ->%list_elem_of_singleton]%elem_of_app.
    + destruct (wi_depth _ _ _ _ Hinv j Hj) as (d&?&?). exists d. split; [done|].
      by apply (vl_stable _ _ _ _ _ _ _ Hv).
    + exists depth. split; [apply (vl_bound _ _ _ _ _ _ _ Hv)|apply (vl_depth _ _ _ _ _ _ _ Hv)].
  - apply visit_stack.
  - intros j ??. by apply visit_pending, (wi_cut _ _ _ _ Hinv).
  - intros j p. cbn [w_order w_parent visited_walk]. intros Hp [Hin| ->%list_elem_of_singleton]%elem_of_app.
    + destruct (decide (j = i)) as [->|Hne]; [left; cbn; set_solver|].
      rewrite visit_par in Hp by done. by eapply visit_pending, (wi_closed _ _ _ _ Hinv).
    + right. cbn. apply (lk_children _ _ _ (vl_links _ _ _ _ _ _ _ Hv)) in Hp.
      rewrite fmap_app, elem_of_app, <- list_fmap_compose. left.
      apply list_elem_of_fmap. by exists j.
  - intros j Hj. by apply visit_pending, (wi_roots _ _ _ _ Hinv).
  - intros j. cbn [w_parent visited_walk]. destruct (decide (j = i)) as [->|Hne].
    + destruct (vl_from _ _ _ _ _ _ _ Hv) as [?| ->]; [by left|]. apply (wi_from _ _ _ _ Hinv).
    + rewrite visit_par by done. apply (wi_from _ _ _ _ Hinv).
  - intros j d Hd Hdepth. cbn [w_parent visited_walk]. destruct (decide (j = i)) as [->|Hne].
    + by eapply (vl_kept _ _ _ _ _ _ _ Hv).
    + rewrite visit_par by done. by eapply (wi_kept _ _ _ _ Hinv).
Qed.
End visit.

Lemma walk_pop_inv n init cut w i d stack :
  walk_inv n init cut w -> w_stack w = (i, d) :: stack -> walk_inv n init cut (walk_pop w i d stack).
Proof.
  intros Hinv Hs. unfold walk_pop. destruct (is_visited (w_visited w) i) eqn:E.
  - apply (wi_visited _ _ _ _ Hinv) in E. by eapply pop_visited_inv.
  - assert (i ∉ w_order w) as Hi.
    { intros Hi%(wi_visited _ _ _ _ Hinv). congruence. }
    pose proof (pop_visit_links _ _ _ _ _ _ _ Hinv Hs Hi) as Hv. cbn zeta in Hv.
    destruct (if decide _ then cut_link _ _ _ else _) as [parent children]. by eapply visit_inv.
Qed.

(** ** One round of the outer loop *)
Lemma all_pending_visited n init cut w i d :
  walk_inv n init cut w -> w_stack w = [] -> d <= MAX_DEPTH -> depth_at init i d -> i ∈ w_order w.
Proof.
  intros Hinv Hs Hd H.
  assert (forall j, pending w j -> j ∈ w_order w) as Hp.
  { intros j [?|Hj]; [done|]. rewrite Hs in Hj. by apply elem_of_nil in Hj. }
  induction H as [i Hr|i p d Hpar H IH].
  - by apply Hp, (wi_roots _ _ _ _ Hinv).
  - apply Hp, (wi_closed _ _ _ _ Hinv i p); [|apply IH; lia].
    rewrite (wi_kept _ _ _ _ Hinv i (S d)); [by apply par_Some|done|by eapply depth_child].
Qed.

Lemma walk_orphan_inv n init cut w i :
  walk_inv n init cut w -> w_stack w = [] -> (i ∉ w_order w) -> i < n ->
  (forall j, cut <= j -> j < i -> j ∈ w_order w) -> walk_inv n init (S i) (walk_orphan w i).
Proof.
  intros Hinv Hs Hi Hn Hbefore. unfold walk_orphan.
  destruct (cut_link i (w_parent w) (w_children w)) as [parent children] eqn:E.
  assert (forall j, par parent j = if decide (i = j) then None else par (w_parent w) j) as Hpar.
  { intros j. rewrite <- cut_link_par with (children := w_children w). by rewrite E. }
  assert (forall j d, j ∈ w_order w -> depth_at (w_parent w) j d -> depth_at parent j d) as Hdepth.
  { intros j d Hj Hd. replace parent with (cut_link i (w_parent w) (w_children w)).1 by (by rewrite E).
    eapply depth_at_cut; [|done..]. intros k p. by apply (wi_order_closed _ _ _ _ _ _ Hinv). }
  assert (forall j, pending w j -> j ∈ w_order w) as Hp.
  { intros j [?|Hj]; [done|]. rewrite Hs in Hj. by apply elem_of_nil in Hj. }
  assert (links n parent children) as Hl.
  { pose proof (cut_link_links _ i _ _ (wi_links _ _ _ _ Hinv)) as Hl. by rewrite E in Hl. }
  split; cbn [w_parent w_children w_visited w_order w_stack]; try apply Hinv; try done.
  - intros j [?|Hj]; [apply (wi_bound _ _ _ _ Hinv); by left|]. cbn in Hj. by apply list_elem_of_singleton in Hj as ->.
  - intros pre j post p Ho. rewrite Hpar. case_decide; [done|]. by apply (wi_first _ _ _ _ Hinv pre j post).
  - intros j Hj. destruct (wi_depth _ _ _ _ Hinv j Hj) as (d&?&?). eauto.
  - intros j d [= -> ->]%list_elem_of_singleton _. left. cbn. by rewrite Hpar, decide_True.
  - intros j Hj Hjn. destruct (decide (j = i)) as [->|Hne]; [right; left|left].
    destruct (decide (j < cut)); [by apply Hp, (wi_cut _ _ _ _ Hinv)|apply Hbefore; lia].
  - intros j p. rewrite Hpar. case_decide; [done|]. intros. left. by eapply Hp, (wi_closed _ _ _ _ Hinv).
  - intros j Hj. left. by apply Hp, (wi_roots _ _ _ _ Hinv).
  - intros j. rewrite Hpar. case_decide; [by left|]. apply (wi_from _ _ _ _ Hinv).
  - intros j d Hd Hdj. rewrite Hpar. case_decide; [subst|by eapply (wi_kept _ _ _ _ Hinv)].
    destruct Hi. by eapply all_pending_visited.
Qed.

(** ** Termination *)
Definition unvisited_weight (w : Walk) (i : nat) : nat :=
  if is_visited (w_visited w) i then 0 else length (kids (w_children w) i) + 2.

Definition walk_measure (n cut : nat) (w : Walk) : nat :=
  length (w_stack w) + sum_list_with (unvisited_weight w) (seq 0 n) + 2 * (n - cut).

Lemma sum_list_with_le {A} (f g : A -> nat) l :
  (forall x, g x <= f x) -> sum_list_with g l <= sum_list_with f l.
Proof. intros Hle. induction l as [|x l IH]; cbn; [done|]. specialize (Hle x). lia. Qed.

Lemma sum_list_with_drop {A} (f g : A -> nat) l x :
  (forall y, g y <= f y) -> x ∈ l -> sum_list_with g l + f x <= sum_list_with f l + g x.
Proof.
  intros Hle. induction l as [|y l IH]; [by intros ?%elem_of_nil|]. cbn.
  intros [->|Hx]%elem_of_cons.
  - pose proof (sum_list_with_le f g l Hle). lia.
  - specialize (IH Hx). specialize (Hle y). lia.
Qed.

Lemma walk_pop_measure n init cut w i d stack :
  walk_inv n init cut w -> w_stack w = (i, d) :: stack ->
  walk_measure n cut (walk_pop w i d stack) < walk_measure n cut w.
Proof.
  intros Hinv Hs. unfold walk_measure, walk_pop. rewrite Hs.
  destruct (is_visited (w_visited w) i) eqn:E; [cbn [w_stack length]; unfold unvisited_weight; cbn; lia|].
  assert (i < n) as Hi by (apply (wi_bound _ _ _ _ Hinv); right; rewrite Hs; left).
  destruct (if decide _ then cut_link _ _ _ else _) as [parent children] eqn:Epc.
  assert (forall p, length (kids children p) <= length (kids (w_children w) p)) as Hkids.
  { intros p. replace children with (if decide (MAX_DEPTH < d) then cut_link i (w_parent w) (w_children w)
      else (w_parent w, w_children w)).2 by (by rewrite Epc). case_decide; [apply cut_link_kids_le|done]. }
  set (w' := Build_Walk _ _ _ _ _).
  assert (forall j, unvisited_weight w' j <= unvisited_weight w j) as Hle.
  { intros j. unfold unvisited_weight. cbn [w_visited w_children w'].
    destruct (is_visited (<[i:=true]> (w_visited w)) j) eqn:Ej; [lia|].
    destruct (is_visited (w_visited w) j) eqn:Ej'; [|specialize (Hkids j); lia].
    assert (is_visited (<[i:=true]> (w_visited w)) j = true); [|congruence].
    apply is_visited_insert; [by rewrite (wi_visited_len _ _ _ _ Hinv)|by right]. }
  pose proof (sum_list_with_drop _ _ (seq 0 n) i Hle) as Hdrop.
  assert (unvisited_weight w' i = 0) as H0.
  { unfold unvisited_weight. assert (is_visited (w_visited w') i = true) as ->; [|done].
    apply is_visited_insert; [by rewrite (wi_visited_len _ _ _ _ Hinv)|by left]. }
  assert (unvisited_weight w i = length (kids (w_children w) i) + 2) as H1
    by (unfold unvisited_weight; by rewrite E).
  cbn [w_stack w']. rewrite length_app, length_fmap. fold (kids children i). cbn [length].
  specialize (Hkids i). rewrite H0, H1 in Hdrop. ospecialize (Hdrop _); [apply elem_of_seq; lia|]. lia.
Qed.

Lemma walk_orphan_measure n cut w i :
  w_stack w = [] -> cut <= i -> i < n ->
  walk_measure n (S i) (walk_orphan w i) < walk_measure n cut w.
Proof.
  intros Hs Hc Hi. unfold walk_measure, walk_orphan. rewrite Hs.
  destruct (cut_link i (w_parent w) (w_children w)) as [parent children] eqn:E. cbn [w_stack length].
  pose proof (sum_list_with_le (unvisited_weight w)
    (unvisited_weight {| w_parent := parent; w_children := children; w_visited := w_visited w;
       w_order := w_order w; w_stack := [(i, 1)] |}) (seq 0 n)) as Hle.
  ospecialize (Hle _).
  { intros j. unfold unvisited_weight. cbn [w_visited w_children].
    pose proof (cut_link_kids_le i (w_parent w) (w_children w) j) as Hk. rewrite E in Hk. cbn [snd] in Hk.
    destruct (is_visited _ _); lia. }
  lia.
Qed.

Lemma find_seq_Some (p : nat -> bool) a k i :
  find p (seq a k) = Some i -> a <= i /\ i < a + k /\ p i = true /\ forall j, a <= j -> j < i -> p j = false.
Proof.
  revert a. induction k as [|k IH]; intros a; cbn; [done|]. destruct (p a) eqn:E.
  - intros [= ->]. split_and!; [lia..|done|]. intros; lia.
  - intros (?&?&?&Hall)%IH. split_and!; [lia..|done|]. intros j Hj Hji.
    destruct (decide (j = a)) as [->|]; [done|]. apply Hall; lia.
Qed.

Lemma find_seq_None (p : nat -> bool) a k i : find p (seq a k) = None -> a <= i -> i < a + k -> p i = false.
Proof.
  intros H ??. eapply List.find_none in H; [exact H|]. apply list_elem_of_In, elem_of_seq. lia.
Qed.

(** With enough rounds the walk ends, and it ends with every node in its order. *)
Lemma walk_loop_inv n init fuel cut w :
  walk_inv n init cut w -> walk_measure n cut w < fuel ->
  exists cut' w', walk_loop fuel cut w = Some w' /\ walk_inv n init cut' w' /\
    forall i, i ∈ w_order w' <-> i < n.
Proof.
  revert cut w. induction fuel as [|fuel IH]; intros cut w Hinv Hf; [lia|].
  cbn [walk_loop]. destruct (w_stack w) as [|[i d] stack] eqn:Hs.
  - rewrite (wi_visited_len _ _ _ _ Hinv).
    destruct (find _ _) as [i|] eqn:Ef.
    + apply find_seq_Some in Ef as (Hc&Hi&Hv%negb_true_iff&Hbefore).
      apply IH.
      * apply walk_orphan_inv with (cut := cut); [done..| |lia|].
        { intros Hin%(wi_visited _ _ _ _ Hinv). congruence. }
        intros j ??. apply (wi_visited _ _ _ _ Hinv). by apply negb_false_iff, Hbefore.
      * pose proof (walk_orphan_measure n cut w i Hs Hc ltac:(lia)). lia.
    + exists cut, w. split_and!; [done..|]. intros i. split; [intros; apply (wi_bound _ _ _ _ Hinv); by left|].
      intros Hi. destruct (decide (i < cut)) as [Hc|Hc].
      * destruct (wi_cut _ _ _ _ Hinv i Hc Hi) as [?|Hin]; [done|]. rewrite Hs in Hin. by apply elem_of_nil in Hin.
      * apply (wi_visited _ _ _ _ Hinv). apply negb_false_iff.
        apply (find_seq_None _ _ _ i Ef); lia.
  - apply IH; [by apply walk_pop_inv|].
    pose proof (walk_pop_measure _ _ _ _ _ _ _ Hinv Hs). lia.
Qed.

(** ** The start of the walk *)
Lemma kids_push p children x q :
  p < length children ->
  kids (alter (fun l => l ++ [x]) p children) q = if decide (p = q) then kids children q ++ [x] else kids children q.
Proof.
  intros Hp. unfold kids. case_decide as Hd.
  - subst. apply lookup_lt_is_Some in Hp as [l Hl]. by rewrite list_lookup_alter_eq, Hl.
  - by rewrite list_lookup_alter_ne.
Qed.

Lemma sum_push p (children : list (list nat)) x :
  p < length children ->
  sum_list_with length (alter (fun l => l ++ [x]) p children) = S (sum_list_with length children).
Proof.
  revert p. induction children as [|c children IH]; intros [|p] Hp; cbn in *; [lia..| |].
  - rewrite length_app. cbn. lia.
  - rewrite IH by lia. lia.
Qed.

Record linked (n : nat) (children : list (list nat)) (roots : list nat) (index : nat) (rest : list (option nat))
    (children' : list (list nat)) (roots' : list nat) : Prop := {
  ld_len : length children' = n;
  ld_kids i p : i ∈ kids children' p <-> i ∈ kids children p \/ exists k, i = index + k /\ rest !! k = Some (Some p);
  ld_roots i : i ∈ roots' <-> i ∈ roots \/ exists k, i = index + k /\ rest !! k = Some None;
  ld_sum : sum_list_with length children' + length roots'
           = sum_list_with length children + length roots + length rest;
}.

Lemma index_cons index (a b : option nat) rest i :
  (exists k, i = index + k /\ (a :: rest) !! k = Some b) <->
  (i = index /\ a = b) \/ exists k, i = S index + k /\ rest !! k = Some b.
Proof.
  split.
  - intros ([|k]&->&E); cbn in E; [simplify_eq; left; split; [lia|done]|right; exists k; split; [lia|done]].
  - intros [[-> ->]|(k&->&E)]; [exists 0; split; [lia|done]|exists (S k); split; [lia|done]].
Qed.

Lemma link_nodes_linked n children roots index rest :
  length children = n -> (forall p, Some p ∈ rest -> p < n) ->
  linked n children roots index rest (link_nodes children roots index rest).1 (link_nodes children roots index rest).2.
Proof.
  revert children roots index. induction rest as [|[p|] rest IH]; intros children roots index Hlen Hb; cbn [link_nodes].
  - split; [done|..|cbn; lia]; intros; cbn; rewrite ?lookup_nil; naive_solver.
  - assert (p < length children) as Hp by (rewrite Hlen; apply Hb; left).
    destruct (IH (alter (fun l => l ++ [index]) p children) roots (S index)) as [H1 H2 H3 H4];
      [by rewrite length_alter|intros; apply Hb; by right|].
    split; [done|..].
    + intros i q. rewrite H2, kids_push, index_cons by done. case_decide; [|naive_solver].
      rewrite elem_of_app, list_elem_of_singleton. naive_solver.
    + intros i. rewrite H3, index_cons. naive_solver.
    + rewrite H4, sum_push by done. cbn. lia.
  - destruct (IH children (roots ++ [index]) (S index)) as [H1 H2 H3 H4]; [done|intros; apply Hb; by right|].
    split; [done|..].
    + intros i q. rewrite H2, index_cons. naive_solver.
    + intros i. rewrite H3, index_cons, elem_of_app, list_elem_of_singleton. naive_solver.
    + rewrite H4, length_app. cbn. lia.
Qed.

Lemma sum_list_with_S (f : nat -> nat) a k : sum_list_with f (seq (S a) k) = sum_list_with (f ∘ S) (seq a k).
Proof. revert a. induction k as [|k IH]; intros a; cbn; [done|]. by rewrite IH. Qed.

Lemma sum_kids children :
  sum_list_with (fun i => length (kids children i) + 2) (seq 0 (length children))
  = sum_list_with length children + 2 * length children.
Proof.
  induction children as [|c children IH]; [done|]. cbn [length seq sum_list_with].
  rewrite sum_list_with_S.
  change ((fun i => length (kids (c :: children) i) + 2) ∘ S) with (fun i => length (kids children i) + 2).
  rewrite IH. cbn. lia.
Qed.

(** ** The result of the walk *)
Record walked (n : nat) (init parent : list (option nat)) (order : list nat) : Prop := {
  wk_order : order ≡ₚ seq 0 n;
  wk_len : length parent = n;
  wk_bound i p : par parent i = Some p -> p < n;
  wk_first pre i post p : order = pre ++ i :: post -> par parent i = Some p -> p ∈ pre;
  wk_depth i : i < n -> exists d, d <= MAX_DEPTH /\ depth_at parent i d;
  wk_from i : par parent i = None \/ par parent i = par init i;
  wk_kept i d : d <= MAX_DEPTH -> depth_at init i d -> par parent i = par init i;
}.

Section start.
Context (n : nat) (init : list (option nat)).
Hypothesis Hlen : length init = n.
Hypothesis Hbound : forall p, Some p ∈ init -> p < n.

Let linking := link_nodes (replicate n []) [] 0 init.

Lemma start_linked : linked n (replicate n []) [] 0 init linking.1 linking.2.
Proof. apply link_nodes_linked; [apply length_replicate|done]. Qed.

Lemma kids_replicate p : kids (replicate n []) p = [].
Proof. unfold kids. destruct (replicate n [] !! p) as [l|] eqn:E; [|done]. by apply lookup_replicate in E as [-> _]. Qed.

Lemma start_links : links n init linking.1.
Proof.
  destruct start_linked as [H1 H2 _ _]. split; [done|done|..].
  - intros i p Hp%par_Some. apply Hbound. by eapply list_elem_of_lookup_2.
  - intros i p. rewrite H2, kids_replicate, par_Some, elem_of_nil. naive_solver.
Qed.

Lemma start_root i : i ∈ linking.2 <-> init !! i = Some None.
Proof. rewrite (ld_roots _ _ _ _ _ _ _ start_linked), elem_of_nil. naive_solver. Qed.

Definition start_walk : Walk :=
  {| w_parent := init; w_children := linking.1; w_visited := replicate n false; w_order := [];
     w_stack := (fun index => (index, 1)) <$> linking.2 |}.

Lemma start_stack i d : (i, d) ∈ w_stack start_walk -> d = 1 /\ init !! i = Some None.
Proof. cbn. intros (j&[= -> ->]&Hj%start_root)%list_elem_of_fmap. done. Qed.

Lemma start_pending i : pending start_walk i <-> init !! i = Some None.
Proof.
  unfold pending. cbn. rewrite elem_of_nil, <- list_fmap_compose, list_elem_of_fmap. cbn.
  rewrite <- start_root. naive_solver.
Qed.

Lemma start_inv : walk_inv n init 0 start_walk.
Proof.
  split; cbn [w_parent w_children w_visited w_order start_walk].
  - apply start_links.
  - apply length_replicate.
  - intros i. rewrite elem_of_nil. unfold is_visited. split; [|done].
    destruct (replicate n false !! i) as [b|] eqn:E; [|done]. by apply lookup_replicate in E as [-> _].
  - constructor.
  - intros i Hi%start_pending. rewrite <- Hlen. by eapply lookup_lt_Some.
  - intros [|] i post p E; done.
  - intros i. by rewrite elem_of_nil.
  - intros i d [-> Hi]%start_stack _. left. cbn. unfold par. by rewrite Hi.
  - lia.
  - intros i p _. by rewrite elem_of_nil.
  - intros i Hi. by apply start_pending.
  - by right.
  - done.
Qed.

Lemma start_measure : walk_measure n 0 start_walk = 5 * n.
Proof.
  unfold walk_measure. cbn [w_stack start_walk]. rewrite length_fmap.
  assert (sum_list_with (unvisited_weight start_walk) (seq 0 n)
    = sum_list_with (fun i => length (kids linking.1 i) + 2) (seq 0 n)) as ->.
  { generalize (seq 0 n). intros l. induction l as [|i l IH]; cbn; [done|]. rewrite IH. f_equal.
    unfold unvisited_weight. cbn. unfold is_visited.
    destruct (replicate n false !! i) as [b|] eqn:E; [|done]. by apply lookup_replicate in E as [-> _]. }
  destruct start_linked as [H1 _ _ H4]. rewrite <- H1 at 1. rewrite sum_kids.
  assert (sum_list_with length (replicate n ([] : list nat)) = 0) as H0.
  { clear. induction n; cbn; [done|]. done. }
  rewrite H0 in H4. cbn in H4. lia.
Qed.

(** The walk over the links of a listing ends. *)
Lemma walk_walked : exists w, walk init linking.1 linking.2 = Some w /\ walked n init (w_parent w) (w_order w).
Proof.
  unfold walk. rewrite Hlen. fold start_walk.
  destruct (walk_loop_inv n init (S (5 * n)) 0 start_walk start_inv) as (cut&w&Hw&Hinv&Hall).
  { rewrite start_measure. lia. }
  exists w. split; [exact Hw|]. split.
  - apply NoDup_Permutation; [apply (wi_nodup _ _ _ _ Hinv)|apply NoDup_seq|].
    intros i. rewrite Hall, elem_of_seq. lia.
  - apply (wi_links _ _ _ _ Hinv).
  - apply (wi_links _ _ _ _ Hinv).
  - apply (wi_first _ _ _ _ Hinv).
  - intros i Hi. by apply (wi_depth _ _ _ _ Hinv), Hall.
  - apply (wi_from _ _ _ _ Hinv).
  - apply (wi_kept _ _ _ _ Hinv).
Qed.
End start.
