(* ===== verification/FolderListing.v ===== *)
(** The folder tree of a [Mailbox/get] list ([FolderTree::from_mailboxes]): the paths that
    [paths] gives, the forest that [assemble] makes of the walk, and what the tree of a
    listing promises. *)

From Stdlib Require Import Ascii String.
From stdpp Require Import prelude strings sorting.
From S2P Require Import Prelude BTree Strings Json Proto Path FolderTree FolderForest FolderEdit FolderBuild FolderWalk.

(** ** Paths *)
Section paths.
Context (nodes : list Node) (init parent : list (option nat)) (order : list nat).
Hypothesis Hwalk : walked (length nodes) init parent order.
Hypothesis Hids : NoDup (n_id <$> nodes).

Definition node_name (i : nat) : text := default [] ((fun node => mb_name (n_mailbox node)) <$> nodes !! i).
Definition node_id (i : nat) : text := default [] (n_id <$> nodes !! i).

(** The two components that a node can get. *)
Definition component_of (i : nat) (c : text) : Prop :=
  c = encode_component (node_name i) \/ c = marked_component (node_name i) (node_id i).

Definition parent_path (paths : list text) (i : nat) : option text :=
  (fun p => default [] (paths !! p)) <$> par parent i.

Lemma component_of_plain i c : component_of i c -> SEPARATOR ∉ c.
Proof. intros [->| ->]; [apply encode_component_plain|apply marked_component_plain]. Qed.

Record paths_ok (done : list nat) (paths : list text) : Prop := {
  po_len : length paths = length nodes;
  po_path i : i ∈ done -> exists c, component_of i c /\ paths !! i = Some (path_join (parent_path paths i) c);
  po_inj i j : i ∈ done -> j ∈ done -> paths !! i = paths !! j -> i = j;
}.

Lemma order_lt i : i ∈ order -> i < length nodes.
Proof. rewrite (wk_order _ _ _ _ Hwalk), elem_of_seq. lia. Qed.

Lemma order_nodup : NoDup order.
Proof. rewrite (wk_order _ _ _ _ Hwalk). apply NoDup_seq. Qed.

Lemma node_id_inj i j : i < length nodes -> j < length nodes -> node_id i = node_id j -> i = j.
Proof.
  unfold node_id. intros [x Hx]%lookup_lt_is_Some [y Hy]%lookup_lt_is_Some. rewrite Hx, Hy. cbn. intros E.
  eapply NoDup_lookup; [exact Hids|by rewrite list_lookup_fmap, Hx|]. rewrite list_lookup_fmap, Hy. cbn. by rewrite E.
Qed.

(** A path that is not used yet: the plain one is checked, the marked one is new by its id. *)
Lemma path_at_new done paths used i :
  paths_ok done paths -> (forall p, p ∈ used <-> exists j, j ∈ done /\ paths !! j = Some p) ->
  (forall j, j ∈ done -> j < length nodes) -> i < length nodes -> i ∉ done ->
  (path_at nodes parent paths used i ∉ used) /\
  exists c, component_of i c /\ path_at nodes parent paths used i = path_join (parent_path paths i) c.
Proof.
  intros Hok Hused Hlt Hi Hdone. unfold path_at. fold (node_name i) (node_id i) (par parent i) (parent_path paths i).
  case_decide as Hu; [|split; [done|]; eexists; split; [by left|done]].
  split; [|eexists; split; [by right|done]].
  intros (j&Hj&Hp)%Hused. destruct (po_path _ _ Hok j Hj) as (c&Hc&Hpath). rewrite Hp in Hpath.
  simplify_eq. apply path_join_inj in Hpath as [_ <-];
    [|apply marked_component_plain|by eapply component_of_plain].
  destruct Hc as [E|E]; [by apply marked_ne_encoded in E|].
  apply marked_component_inj in E as [_ E]. apply node_id_inj in E; [|done|by apply Hlt]. by subst.
Qed.

Lemma paths_ok_step done paths used i :
  paths_ok done paths -> (forall p, p ∈ used <-> exists j, j ∈ done /\ paths !! j = Some p) ->
  (forall j, j ∈ done -> j < length nodes) -> i < length nodes -> i ∉ done ->
  (forall j p, j ∈ done ++ [i] -> par parent j = Some p -> p ∈ done) ->
  let path := path_at nodes parent paths used i in
  paths_ok (done ++ [i]) (<[i := path]> paths) /\
  forall p, p ∈ path :: used <-> exists j, j ∈ done ++ [i] /\ <[i := path]> paths !! j = Some p.
Proof.
  intros Hok Hused Hlt Hi Hdone Hfirst path.
  destruct (path_at_new _ _ _ _ Hok Hused Hlt Hi Hdone) as [Hnew (c&Hc&Hpath)]. fold path in Hnew, Hpath.
  assert (i < length paths) as Hil by (by rewrite (po_len _ _ Hok)).
  assert (forall j, j ∈ done -> <[i := path]> paths !! j = paths !! j) as Hsame.
  { intros j Hj. apply list_lookup_insert_ne. by intros ->. }
  assert (forall j, j ∈ done ++ [i] -> parent_path (<[i := path]> paths) j = parent_path paths j) as Hpp.
  { intros j Hj. unfold parent_path. destruct (par parent j) as [p|] eqn:Ep; [|done]. cbn. by rewrite Hsame by eauto. }
  assert (forall j, j ∈ done -> <[i := path]> paths !! j <> Some path) as Hother.
  { intros j Hj. rewrite Hsame by done. intros E. apply Hnew, Hused. eauto. }
  split; [split|].
  - rewrite length_insert. apply (po_len _ _ Hok).
  - intros j Hj. rewrite Hpp by done. apply elem_of_app in Hj as [Hj| ->%list_elem_of_singleton].
    + rewrite Hsame by done. by apply (po_path _ _ Hok).
    + exists c. split; [done|]. by rewrite list_lookup_insert_eq, Hpath.
  - intros j k [Hj| ->%list_elem_of_singleton]%elem_of_app [Hk| ->%list_elem_of_singleton]%elem_of_app E; [|..|done].
    + rewrite !Hsame in E by done. by apply (po_inj _ _ Hok).
    + rewrite (list_lookup_insert_eq _ _ _ Hil) in E. by apply Hother in E.
    + rewrite (list_lookup_insert_eq _ _ _ Hil) in E. symmetry in E. by apply Hother in E.
  - intros p. rewrite elem_of_cons, Hused. split.
    + intros [->|(j&Hj&Hp)].
      * exists i. split; [set_solver|]. by apply list_lookup_insert_eq.
      * exists j. split; [set_solver|]. by rewrite Hsame.
    + intros (j&[Hj| ->%list_elem_of_singleton]%elem_of_app&Hp).
      * right. rewrite Hsame in Hp by done. eauto.
      * left. rewrite (list_lookup_insert_eq _ _ _ Hil) in Hp. congruence.
Qed.

Lemma paths_loop_ok rest done paths used :
  order = done ++ rest -> paths_ok done paths ->
  (forall p, p ∈ used <-> exists j, j ∈ done /\ paths !! j = Some p) ->
  paths_ok order (paths_loop nodes parent paths used rest).
Proof.
  revert done paths used. induction rest as [|i rest IH]; intros done paths used E Hok Hused; cbn [paths_loop].
  { rewrite app_nil_r in E. by subst. }
  assert (i ∉ done) as Hi.
  { pose proof order_nodup as Hn. rewrite E in Hn. apply NoDup_app in Hn as (_&Hd&_). intros Hin. eapply Hd; [done|left]. }
  assert (forall j, j ∈ done -> j < length nodes) as Hlt.
  { intros j Hj. apply order_lt. rewrite E. set_solver. }
  destruct (paths_ok_step done paths used i) as [Hok' Hused']; [done..|apply order_lt; rewrite E; set_solver|done| |].
  - intros j p Hj Hp. apply elem_of_app in Hj as [(pre&post&Ed)%elem_split| ->%list_elem_of_singleton].
    + subst done. rewrite <- (assoc_L (++)), <- app_comm_cons in E.
      pose proof (wk_first _ _ _ _ Hwalk _ _ _ _ E Hp). set_solver.
    + by apply (wk_first _ _ _ _ Hwalk done i rest).
  - eapply IH; [|exact Hok'|exact Hused']. by rewrite E, <- (assoc_L (++)).
Qed.

Lemma paths_of_ok : paths_ok order (paths_of nodes parent order).
Proof.
  apply (paths_loop_ok order [] _ []); [done| |].
  - split; [apply length_replicate|..]; intros; by set_solver.
  - intros p. rewrite elem_of_nil. split; [done|]. intros (j&Hj&_). by apply elem_of_nil in Hj.
Qed.
End paths.

(** ** Assembly *)
#[export] Instance heads_perm : Proper ((≡ₚ) ==> (≡ₚ)) heads.
Proof.
  induction 1 as [|f l k _ IH|f g l|l k m _ IH1 _ IH2]; [done|..|by etrans].
  - by rewrite (heads_cons' f l), (heads_cons' f k), IH.
  - rewrite (heads_cons' g (f :: l)), (heads_cons' f (g :: l)), (heads_cons' f l), (heads_cons' g l). solve_Permutation.
Qed.

Lemma heads_reverse l : heads (reverse l) ≡ₚ heads l.
Proof. by rewrite reverse_Permutation. Qed.

Lemma mjoin_take_out {A} (ls : list (list A)) i l :
  ls !! i = Some l -> mjoin ls ≡ₚ l ++ mjoin (<[i := []]> ls).
Proof.
  revert i. induction ls as [|k ls IH]; intros [|i] E; cbn in E; simplify_eq.
  - by rewrite mjoin_cons.
  - cbn [insert list_insert]. change (list_insert i [] ls) with (<[i := []]> ls).
    rewrite !mjoin_cons, (IH _ E). solve_Permutation.
Qed.

Lemma mjoin_push {A} (ls : list (list A)) p x :
  p < length ls -> mjoin (alter (fun l => l ++ [x]) p ls) ≡ₚ x :: mjoin ls.
Proof.
  revert p. induction ls as [|k ls IH]; intros [|p] Hp; cbn in Hp; [lia..| |].
  - cbn [alter list_alter]. rewrite !mjoin_cons. solve_Permutation.
  - cbn [alter list_alter]. change (list_alter (fun l => l ++ [x]) p ls) with (alter (fun l => l ++ [x]) p ls).
    rewrite !mjoin_cons, IH by lia. solve_Permutation.
Qed.

Lemma mjoin_nil_all {A} (ls : list (list A)) : (forall p l, ls !! p = Some l -> l = []) -> mjoin ls = [].
Proof.
  induction ls as [|l ls IH]; intros Hall; [done|]. rewrite mjoin_cons, (Hall 0 l eq_refl).
  apply IH. intros p k. apply (Hall (S p)).
Qed.

Section assemble.
Context (n : nat) (init parent : list (option nat)) (order : list nat) (head : nat -> FolderHead).
Hypothesis Hwalk : walked n init parent order.

Definition children_of (p : nat) (l : list nat) : list nat := filter (fun j => par parent j = Some p) l.
Definition tops (l : list nat) : list nat := filter (fun j => par parent j = None) l.

(** The folder that node [i] becomes. *)
Unset Elimination Schemes.
Inductive built_as (i : nat) : FolderInfo -> Prop :=
| Built children : Forall2 built_as (children_of i order) children -> built_as i (Folder (head i) children).
Set Elimination Schemes.

Definition slot (built : list (list FolderInfo)) (p : nat) : list FolderInfo := default [] (built !! p).

Record assembled (done : list nat) (built : list (list FolderInfo)) (roots : list FolderInfo) : Prop := {
  as_len : length built = n;
  as_done p : p ∈ done -> slot built p = [];
  as_slot p : p ∉ done -> Forall2 built_as (children_of p done) (slot built p);
  as_roots : Forall2 built_as (tops done) roots;
  as_heads : heads (mjoin built) ++ heads roots ≡ₚ head <$> done;
}.

Lemma slot_insert built i q :
  i < length built -> slot (<[i := []]> built) q = if decide (i = q) then [] else slot built q.
Proof.
  intros Hi. unfold slot. case_decide as Hd; [subst; by rewrite list_lookup_insert_eq|].
  by rewrite list_lookup_insert_ne.
Qed.

Lemma slot_push built p f q :
  p < length built -> slot (alter (fun l => l ++ [f]) p built) q = if decide (p = q) then slot built q ++ [f] else slot built q.
Proof.
  intros Hp. unfold slot. case_decide as Hd; [subst|by rewrite list_lookup_alter_ne].
  apply lookup_lt_is_Some in Hp as [l Hl]. by rewrite list_lookup_alter_eq, Hl.
Qed.

(** A node's children all come after it. *)
Lemma children_after rest i done :
  order = reverse rest ++ [i] ++ reverse done -> children_of i order = children_of i (reverse done).
Proof.
  intros E. rewrite E. unfold children_of. rewrite (assoc_L (++)), filter_app.
  rewrite (filter_none _ (reverse rest ++ [i])); [done|]. intros j Hj Hp.
  assert (NoDup order) as Hn by (rewrite (wk_order _ _ _ _ Hwalk); apply NoDup_seq).
  rewrite (assoc_L (++)) in E. rewrite E in Hn.
  apply elem_split in Hj as (pre&post&Ej). rewrite Ej, <- (assoc_L (++)) in E.
  pose proof (wk_first _ _ _ _ Hwalk _ _ _ _ E Hp) as Hin.
  apply NoDup_app in Hn as (Hn&_&_). rewrite Ej in Hn.
  destruct (decide (i ∈ j :: post)) as [Hi|Hi].
  - apply NoDup_app in Hn as (_&Hd&_). by eapply Hd.
  - destruct Hi. assert (last (reverse rest ++ [i]) = Some i) as Hl by apply last_snoc.
    rewrite Ej, last_app_cons in Hl. by apply last_Some_elem_of in Hl.
Qed.

Lemma children_of_snoc p i done :
  children_of p (done ++ [i]) = children_of p done ++ (if decide (par parent i = Some p) then [i] else []).
Proof. unfold children_of. by rewrite filter_app. Qed.

Lemma tops_snoc i done :
  tops (done ++ [i]) = tops done ++ (if decide (par parent i = None) then [i] else []).
Proof. unfold tops. by rewrite filter_app. Qed.

Section step.
Context (done rest : list nat) (built : list (list FolderInfo)) (roots : list FolderInfo) (i : nat).
Hypothesis Hsplit : order = reverse rest ++ [i] ++ reverse done.
Hypothesis Has : assembled done built roots.

Definition folder_at_i : FolderInfo := Folder (head i) (reverse (slot built i)).

Lemma step_fresh : i ∉ done.
Proof.
  assert (NoDup order) as Hn by (rewrite (wk_order _ _ _ _ Hwalk); apply NoDup_seq).
  rewrite Hsplit in Hn. apply NoDup_app in Hn as (_&_&[Hn _]%NoDup_cons). by rewrite elem_of_reverse in Hn.
Qed.

Lemma step_lt : i < n.
Proof.
  assert (i ∈ order) as Hin by (rewrite Hsplit; set_solver).
  rewrite (wk_order _ _ _ _ Hwalk), elem_of_seq in Hin. lia.
Qed.

Lemma step_built : built_as i folder_at_i.
Proof.
  constructor. rewrite (children_after rest i done Hsplit). unfold children_of. rewrite filter_reverse.
  apply Forall2_reverse. apply (as_slot _ _ _ Has), step_fresh.
Qed.

Lemma step_heads : heads [folder_at_i] ++ heads (mjoin (<[i := []]> built)) ++ heads roots ≡ₚ head <$> done ++ [i].
Proof.
  rewrite fmap_app, <- (as_heads _ _ _ Has), heads_one. cbn [f_children f_head folder_at_i].
  rewrite heads_reverse. destruct (built !! i) as [l|] eqn:E.
  - rewrite (mjoin_take_out _ _ _ E), heads_app. unfold slot. rewrite E. cbn. solve_Permutation.
  - apply lookup_ge_None in E. rewrite (as_len _ _ _ Has) in E. pose proof step_lt. lia.
Qed.

Lemma step_slot_below q : q ∉ done ++ [i] -> slot (<[i := []]> built) q = slot built q.
Proof. intros Hq. rewrite slot_insert by (rewrite (as_len _ _ _ Has); apply step_lt). case_decide; [set_solver|done]. Qed.

Lemma step_done q : q ∈ done ++ [i] -> slot (<[i := []]> built) q = [].
Proof.
  intros Hq. rewrite slot_insert by (rewrite (as_len _ _ _ Has); apply step_lt).
  case_decide; [done|]. apply (as_done _ _ _ Has). set_solver.
Qed.

Lemma step_root : par parent i = None -> assembled (done ++ [i]) (<[i := []]> built) (roots ++ [folder_at_i]).
Proof.
  intros Hp. split.
  - rewrite length_insert. apply Has.
  - apply step_done.
  - intros q Hq. rewrite step_slot_below, children_of_snoc by done. rewrite decide_False by congruence.
    rewrite app_nil_r. apply (as_slot _ _ _ Has). set_solver.
  - rewrite tops_snoc, decide_True by done. apply Forall2_app; [apply Has|]. constructor; [apply step_built|constructor].
  - rewrite heads_app, <- step_heads. solve_Permutation.
Qed.

Lemma step_child p : par parent i = Some p ->
  assembled (done ++ [i]) (alter (fun l => l ++ [folder_at_i]) p (<[i := []]> built)) roots.
Proof.
  intros Hp. assert (p < n) as Hpn by (by eapply (wk_bound _ _ _ _ Hwalk)).
  assert (p < length (<[i := []]> built)) as Hpl by (by rewrite length_insert, (as_len _ _ _ Has)).
  assert (p ∉ done ++ [i]) as Hpd.
  { assert (p ∈ reverse rest) as Hin by (eapply (wk_first _ _ _ _ Hwalk); [exact Hsplit|done]).
    assert (NoDup order) as Hn by (rewrite (wk_order _ _ _ _ Hwalk); apply NoDup_seq).
    rewrite Hsplit in Hn. apply NoDup_app in Hn as (_&Hd&_). specialize (Hd p Hin).
    rewrite elem_of_app, elem_of_reverse in Hd. set_solver. }
  split.
  - rewrite length_alter, length_insert. apply Has.
  - intros q Hq. rewrite slot_push by done. case_decide; [by subst|by apply step_done].
  - intros q Hq. rewrite slot_push, step_slot_below, children_of_snoc by done.
    assert (Forall2 built_as (children_of q done) (slot built q)) as Hq' by (apply (as_slot _ _ _ Has); set_solver).
    destruct (decide (p = q)) as [<-|Hpq].
    + rewrite decide_True by done. apply Forall2_app; [done|]. constructor; [apply step_built|constructor].
    + rewrite decide_False by congruence. by rewrite app_nil_r.
  - rewrite tops_snoc, decide_False by congruence. rewrite app_nil_r. apply Has.
  - rewrite mjoin_push, (heads_cons' folder_at_i), <- step_heads by done. solve_Permutation.
Qed.
End step.

Lemma assemble_loop_assembled rest done built roots :
  order = reverse rest ++ reverse done -> assembled done built roots ->
  assembled (done ++ rest) (assemble_loop head parent built roots rest).1 (assemble_loop head parent built roots rest).2.
Proof.
  revert done built roots. induction rest as [|i rest IH]; intros done built roots E Has; cbn [assemble_loop].
  { by rewrite app_nil_r. }
  rewrite reverse_cons, <- (assoc_L (++)) in E. fold (par parent i).
  change (Folder (head i) (reverse (default [] (built !! i)))) with (folder_at_i built i).
  change (i :: rest) with ([i] ++ rest). rewrite (assoc_L (++)).
  destruct (par parent i) as [p|] eqn:Ep.
  - apply IH; [by rewrite reverse_snoc|]. by eapply step_child.
  - apply IH; [by rewrite reverse_snoc|]. by eapply step_root.
Qed.

Lemma assemble_start : assembled [] (replicate n []) [].
Proof.
  split.
  - apply length_replicate.
  - intros p. by rewrite elem_of_nil.
  - intros p _. unfold slot. destruct (replicate n [] !! p) as [l|] eqn:E; [|constructor].
    apply lookup_replicate in E as [-> _]. constructor.
  - constructor.
  - assert (mjoin (replicate n ([] : list FolderInfo)) = []) as ->; [|done].
    clear. induction n as [|m IH]; [done|]. by rewrite replicate_S, mjoin_cons, IH.
Qed.

(** Each top-level node becomes a root, in the order of the walk, with its subtree below it,
    and every node is a folder exactly once. *)
Lemma assemble_spec :
  Forall2 built_as (tops order) (assemble head parent n order) /\
  heads (assemble head parent n order) ≡ₚ head <$> order.
Proof.
  destruct (assemble_loop_assembled (reverse order) [] _ [] ltac:(by rewrite reverse_involutive, app_nil_r) assemble_start)
    as [Hlen Hdone _ Hroots Hheads].
  unfold assemble. set (res := assemble_loop _ _ _ _ _) in *. split.
  - apply Forall2_reverse in Hroots. cbn [app] in Hroots. unfold tops in *.
    by rewrite filter_reverse, reverse_involutive in Hroots.
  - rewrite heads_reverse. cbn [app] in Hheads. rewrite reverse_Permutation in Hheads.
    rewrite <- Hheads. assert (mjoin res.1 = []) as ->; [|done].
    apply mjoin_nil_all. intros p l Hl. specialize (Hdone p). unfold slot in Hdone. rewrite Hl in Hdone.
    apply Hdone. cbn [app]. rewrite elem_of_reverse, (wk_order _ _ _ _ Hwalk), elem_of_seq.
    apply lookup_lt_Some in Hl. lia.
Qed.
End assemble.

(** ** The forest of the nodes *)
Fixpoint folder_height (f : FolderInfo) : nat := S (max_list_with folder_height (f_children f)).

Lemma max_list_with_le {A} (f : A -> nat) l b : Forall (fun x => f x <= b) l -> max_list_with f l <= b.
Proof. induction 1; cbn; lia. Qed.

Section forest.
Context (nodes : list Node) (init parent : list (option nat)) (order : list nat) (roles : list (option FolderRole)).
Hypothesis Hwalk : walked (length nodes) init parent order.
Hypothesis Hids : NoDup (n_id <$> nodes).

Let paths := paths_of nodes parent order.
Let head := head_at nodes roles paths.
Let built := built_as parent order head.

Lemma head_path i : fh_path (head i) = default [] (paths !! i).
Proof. done. Qed.

Lemma head_id i : fh_id (head i) = node_id nodes i.
Proof. done. Qed.

Lemma built_head i f : built i f -> f_head f = head i.
Proof. by inversion 1. Qed.

Lemma built_children i f : built i f -> Forall2 built (children_of parent i order) (f_children f).
Proof. by inversion 1. Qed.

Lemma built_heads js l : Forall2 built js l -> f_head <$> l = head <$> js.
Proof. induction 1 as [|j f js l Hf _ IH]; [done|]. by rewrite !fmap_cons, IH, (built_head _ _ Hf). Qed.

Lemma paths_nodup js : NoDup js -> (forall j, j ∈ js -> j ∈ order) -> NoDup ((fun j => fh_path (head j)) <$> js).
Proof.
  intros Hn Hin. pose proof (paths_of_ok _ _ _ _ Hwalk Hids) as Hok. fold paths in Hok.
  apply NoDup_fmap_2_strong; [|done]. intros i j Hi Hj. rewrite !head_path. intros E.
  apply (po_inj _ _ _ _ Hok); [by apply Hin..|].
  destruct (po_path _ _ _ _ Hok i (Hin _ Hi)) as (ci&_&Ei). destruct (po_path _ _ _ _ Hok j (Hin _ Hj)) as (cj&_&Ej).
  rewrite Ei, Ej in E |- *. cbn in E. by rewrite E.
Qed.

Lemma built_siblings q js l :
  Forall2 built js l -> NoDup js -> (forall j, j ∈ js -> j ∈ order) ->
  Forall (placed q) l -> forest_ok q l.
Proof.
  intros Hb Hn Hin Hp. split; [done|].
  assert (f_path <$> l = (fun j => fh_path (head j)) <$> js) as ->; [|by apply paths_nodup].
  unfold f_path.
  rewrite (list_fmap_compose f_head fh_path), (built_heads _ _ Hb), <- list_fmap_compose. done.
Qed.

Lemma children_of_order p j : j ∈ children_of parent p order <-> par parent j = Some p /\ j ∈ order.
Proof. unfold children_of. by rewrite list_elem_of_filter. Qed.

Lemma built_placed i f : built i f -> i ∈ order -> placed (parent_path parent paths i) f.
Proof.
  revert i. induction f as [h children IH] using FolderInfo_ind. intros i Hb Hi.
  pose proof (paths_of_ok _ _ _ _ Hwalk Hids) as Hok. fold paths in Hok.
  destruct (po_path _ _ _ _ Hok i Hi) as (c&Hc&Hpath).
  pose proof (built_head _ _ Hb) as Hh. pose proof (built_children _ _ Hb) as Hch. cbn [f_head f_children] in *.
  assert (f_path (Folder h children) = path_join (parent_path parent paths i) c) as Hfp.
  { unfold f_path. cbn. by rewrite Hh, head_path, Hpath. }
  eapply placed_intro; [exact Hfp|by eapply component_of_plain|].
  eapply built_siblings; [exact Hch|..].
  - apply NoDup_filter. by eapply order_nodup.
  - intros j Hj%children_of_order. tauto.
  - apply Forall_forall. intros g Hg. cbn [f_children] in Hg. apply list_elem_of_lookup in Hg as [k Hk].
    destruct (Forall2_lookup_r _ _ _ _ _ Hch Hk) as (j&Hj&Hbj).
    apply list_elem_of_lookup_2, children_of_order in Hj as [Hpar Hj].
    rewrite Forall_forall in IH. specialize (IH g ltac:(by eapply list_elem_of_lookup_2) j Hbj Hj).
    unfold parent_path in IH at 1. rewrite Hpar in IH. cbn in IH.
    unfold f_path. cbn. rewrite Hh, head_path. done.
Qed.

Lemma built_height i f d : built i f -> i ∈ order -> depth_at parent i d -> d + folder_height f <= S MAX_DEPTH.
Proof.
  revert i d. induction f as [h children IH] using FolderInfo_ind. intros i d Hb Hi Hd.
  pose proof (built_children _ _ Hb) as Hch. cbn [f_children folder_height] in *.
  assert (d <= MAX_DEPTH) as Hle.
  { destruct (wk_depth _ _ _ _ Hwalk i) as (d'&?&Hd'); [by eapply order_lt|]. by rewrite (depth_at_fun _ _ _ _ Hd Hd'). }
  cut (max_list_with folder_height children <= MAX_DEPTH - d); [lia|].
  apply max_list_with_le, Forall_forall. intros g Hg. apply list_elem_of_lookup in Hg as [k Hk].
  destruct (Forall2_lookup_r _ _ _ _ _ Hch Hk) as (j&Hj&Hbj).
  apply list_elem_of_lookup_2, children_of_order in Hj as [Hpar Hj].
  rewrite Forall_forall in IH.
  specialize (IH g ltac:(by eapply list_elem_of_lookup_2) j (S d) Hbj Hj).
  ospecialize (IH _); [eapply depth_child; [by apply par_Some|done]|]. lia.
Qed.

Definition forest : list FolderInfo := assemble head parent (length nodes) order.

Lemma forest_built : Forall2 built (tops parent order) forest.
Proof. by eapply assemble_spec. Qed.

Lemma forest_heads : heads forest ≡ₚ head <$> order.
Proof. by eapply assemble_spec. Qed.

Lemma forest_tree_ok : tree_ok forest.
Proof.
  split.
  - eapply built_siblings; [apply forest_built|..].
    + apply NoDup_filter. by eapply order_nodup.
    + by intros j [_ ?]%list_elem_of_filter.
    + apply Forall_forall. intros g [k Hk]%list_elem_of_lookup.
      destruct (Forall2_lookup_r _ _ _ _ _ forest_built Hk) as (j&Hj&Hbj).
      apply list_elem_of_lookup_2, list_elem_of_filter in Hj as [Hpar Hj].
      pose proof (built_placed _ _ Hbj Hj) as Hp. unfold parent_path in Hp. by rewrite Hpar in Hp.
  - rewrite forest_heads, <- list_fmap_compose. apply NoDup_fmap_2_strong; [|by eapply order_nodup].
    intros i j Hi Hj. cbn. intros E.
    eapply node_id_inj; [done|by eapply order_lt..|done].
Qed.

Lemma forest_height : Forall (fun f => folder_height f <= MAX_DEPTH) forest.
Proof.
  apply Forall_forall. intros g [k Hk]%list_elem_of_lookup.
  destruct (Forall2_lookup_r _ _ _ _ _ forest_built Hk) as (j&Hj&Hbj).
  apply list_elem_of_lookup_2, list_elem_of_filter in Hj as [Hpar Hj].
  assert (depth_at parent j 1) as Hd.
  { apply depth_root. assert (j < length parent) as Hl.
    { rewrite (wk_len _ _ _ _ Hwalk). by eapply order_lt. }
    apply lookup_lt_is_Some in Hl as [x Hx]. unfold par in Hpar. rewrite Hx in Hpar. cbn in Hpar. by subst. }
  pose proof (built_height _ _ _ Hbj Hj Hd). lia.
Qed.

(** Where the folder of a node is. *)
Definition placed_at (i : nat) : Prop :=
  exists f, built i f /\ f ∈ preorders forest /\
    match par parent i with
    | Some p => exists g, built p g /\ g ∈ preorders forest /\ f ∈ f_children g
    | None => f ∈ forest
    end.

Lemma built_lookup j js l : Forall2 built js l -> j ∈ js -> exists f, f ∈ l /\ built j f.
Proof.
  intros Hb [k Hk]%list_elem_of_lookup. destruct (Forall2_lookup_l _ _ _ _ _ Hb Hk) as (f&Hf&?).
  exists f. split; [by eapply list_elem_of_lookup_2|done].
Qed.

Lemma children_preorders g f l : g ∈ preorders l -> f ∈ f_children g -> f ∈ preorders l.
Proof.
  revert g. cut (forall r g f, g ∈ preorder r -> f ∈ f_children g -> f ∈ preorder r).
  { intros Hone g (r&Hr&Hg)%elem_of_preorders Hf. apply elem_of_preorders. exists r. eauto. }
  clear. induction r as [h children IH] using FolderInfo_ind. intros g f.
  rewrite !preorder_eq. cbn [f_children]. intros [->|(c&Hc&Hg)%elem_of_preorders]%elem_of_cons Hf; right.
  - apply elem_of_preorders. exists f. split; [done|apply preorder_self].
  - rewrite Forall_forall in IH. apply elem_of_preorders. exists c. eauto.
Qed.

Lemma forest_placed_at i : i ∈ order -> placed_at i.
Proof.
  intros Hi. destruct (wk_depth _ _ _ _ Hwalk i) as (d&_&Hd); [by eapply order_lt|].
  induction Hd as [i Hr|i p d Hp Hd IH].
  - assert (par parent i = None) as Hpar by (unfold par; by rewrite Hr).
    destruct (built_lookup i _ _ forest_built) as (f&Hf&Hb); [by apply list_elem_of_filter|].
    exists f. rewrite Hpar. split_and!; [done| |done]. apply elem_of_preorders. exists f. eauto using preorder_self.
  - apply par_Some in Hp.
    assert (p ∈ order) as Hpo.
    { apply elem_split in Hi as (pre&post&E). pose proof (wk_first _ _ _ _ Hwalk _ _ _ _ E Hp). rewrite E. set_solver. }
    destruct (IH Hpo) as (g&Hg&Hgin&_).
    destruct (built_lookup i _ _ (built_children _ _ Hg)) as (f&Hf&Hb); [by apply children_of_order|].
    exists f. rewrite Hp. split_and!; [done|by eapply children_preorders|eauto].
Qed.
End forest.
