(* ===== verification/MailboxListing.v ===== *)
(** What the folder tree of a [Mailbox/get] list promises, in terms of the mailboxes
    ([FolderTree::from_mailboxes] as a whole). *)

From Stdlib Require Import Ascii String.
From stdpp Require Import prelude strings sorting.
From S2P Require Import Prelude BTree Strings Json Proto Path FolderTree FolderForest FolderEdit FolderBuild FolderWalk FolderListing.

(** ** Checking *)
Definition node_of (m : Mailbox) (node : Node) : Prop :=
  mb_id m = Some (n_id node) /\ n_mailbox node = m /\ mb_name m <> [].

Lemma check_mailbox_ok m node : check_mailbox m = Ok node <-> node_of m node.
Proof.
  unfold check_mailbox, node_of. destruct (mb_id m) as [id|]; [|naive_solver].
  case_decide as Hn; [naive_solver|]. split.
  - intros [= <-]. done.
  - intros ([= ->]&Hm&_). destruct node as [m' id']. cbn in *. by subst.
Qed.

Lemma check_mailboxes_ok ms nodes : check_mailboxes ms = Ok nodes <-> Forall2 node_of ms nodes.
Proof.
  unfold check_mailboxes.
  assert (forall acc, try_fold (fun nodes mailbox => rbind (check_mailbox mailbox) (fun node => Ok (nodes ++ [node]))) acc ms
    = Ok nodes <-> exists rest, nodes = acc ++ rest /\ Forall2 node_of ms rest) as Hgen.
  { revert nodes. induction ms as [|m ms IH]; intros nodes acc; cbn [try_fold].
    - split; [intros [= ->]; exists []; by rewrite app_nil_r|]. intros (rest&->&Hr). inversion Hr. by rewrite app_nil_r.
    - destruct (check_mailbox m) as [node|e] eqn:E; cbn [rbind].
      + rewrite IH. apply check_mailbox_ok in E. split.
        * intros (rest&->&Hr). exists (node :: rest). rewrite <- (assoc_L (++)). split; [done|by constructor].
        * intros (rest&->&Hr). inversion Hr as [|? node' ? rest' Hm Hr']; subst.
          assert (node' = node) as ->.
          { destruct node as [m1 i1], node' as [m2 i2], E as (?&?&?), Hm as (?&?&?). cbn in *. congruence. }
          exists rest'. by rewrite <- (assoc_L (++)).
      + split; [done|]. intros (rest&_&Hr). inversion Hr as [|? node' ? rest' Hm Hr']; subst.
        apply check_mailbox_ok in Hm. congruence. }
  rewrite Hgen. split; [by intros (?&->&?)|eauto].
Qed.

Lemma checked_ids ms nodes :
  Forall2 node_of ms nodes ->
  (fun node => (Some (n_id node), mb_name (n_mailbox node))) <$> nodes = (fun m => (mb_id m, mb_name m)) <$> ms.
Proof. induction 1 as [|m node ms nodes (Hid&Hm&_) _ IH]; [done|]. by rewrite !fmap_cons, IH, Hid, Hm. Qed.

(** ** Sorting *)
Lemma node_cmp_flip x y : node_cmp y x = CompOpp (node_cmp x y).
Proof.
  unfold node_cmp. rewrite !then_with_flip, <- !text_cmp_flip. by rewrite <- N.compare_antisym.
Qed.

Lemma text_not_gt a b : text_cmp a b <> Gt <-> a = b \/ text_cmp a b = Lt.
Proof. pose proof (text_cmp_eq a b). destruct (text_cmp a b) eqn:E; naive_solver. Qed.

Lemma node_not_after x y :
  not_after node_cmp x y <->
  (node_sort_order x < node_sort_order y)%N \/
  (node_sort_order x = node_sort_order y /\
   (text_cmp (mb_name (n_mailbox x)) (mb_name (n_mailbox y)) = Lt \/
    (mb_name (n_mailbox x) = mb_name (n_mailbox y) /\ (n_id x = n_id y \/ text_cmp (n_id x) (n_id y) = Lt)))).
Proof.
  unfold not_after, node_cmp, then_with. destruct (N.compare_spec (node_sort_order x) (node_sort_order y)) as [E|E|E].
  - pose proof (text_cmp_eq (mb_name (n_mailbox x)) (mb_name (n_mailbox y))) as Hn.
    destruct (text_cmp (mb_name (n_mailbox x)) (mb_name (n_mailbox y))).
    + rewrite text_not_gt. assert (mb_name (n_mailbox x) = mb_name (n_mailbox y)) by (by apply Hn). naive_solver lia.
    + naive_solver.
    + assert (mb_name (n_mailbox x) <> mb_name (n_mailbox y)) by (intros ?%Hn; done). naive_solver lia.
  - naive_solver.
  - split; [done|]. naive_solver lia.
Qed.

Lemma node_cmp_trans x y z : not_after node_cmp x y -> not_after node_cmp y z -> not_after node_cmp x z.
Proof.
  rewrite !node_not_after. pose proof text_cmp_trans as Ht.
  generalize (node_sort_order x) (node_sort_order y) (node_sort_order z).
  generalize (mb_name (n_mailbox x)) (mb_name (n_mailbox y)) (mb_name (n_mailbox z)) (n_id x) (n_id y) (n_id z).
  intros n1 n2 n3 i1 i2 i3 a b c [H1|[-> [H2|[-> [->|H3]]]]] [G1|[-> [G2|[-> [->|G3]]]]];
    first [left; lia | right; eauto 10].
Qed.

(** Sorting forgets the order of the list, when the ids differ. *)
Lemma sort_nodes_perm nodes nodes' :
  nodes ≡ₚ nodes' -> NoDup (n_id <$> nodes) -> sort_by node_cmp nodes = sort_by node_cmp nodes'.
Proof.
  intros Hp Hn. eapply (StronglySorted_unique_strong (not_after node_cmp)).
  - intros x y. rewrite !sort_by_perm, <- Hp. intros Hx Hy Hxy Hyx.
    apply (nodup_fmap_eq n_id nodes); [done..|].
    unfold not_after in *. rewrite node_cmp_flip in Hyx.
    destruct (node_cmp x y) eqn:E; [|done..]. unfold node_cmp, then_with in E.
    destruct (N.compare _ _); [|done..]. destruct (text_cmp (mb_name _) _); [|done..].
    by apply text_cmp_eq.
  - apply sort_by_sorted; [apply node_cmp_flip|apply node_cmp_trans].
  - apply sort_by_sorted; [apply node_cmp_flip|apply node_cmp_trans].
  - by rewrite !sort_by_perm.
Qed.

(** ** Indexing *)
Lemma index_nodes_ok index_of k nodes m :
  index_nodes index_of k nodes = Ok m ->
  NoDup (n_id <$> nodes) /\ (forall id, id ∈ n_id <$> nodes -> bt_get id index_of = None) /\
  forall id i, bt_get id m = Some i <->
    bt_get id index_of = Some i \/ exists j node, nodes !! j = Some node /\ n_id node = id /\ i = k + j.
Proof.
  revert index_of k. induction nodes as [|node nodes IH]; intros index_of k; cbn [index_nodes].
  { intros [= ->]. split_and!; [constructor|by intros ? ?%elem_of_nil|]. intros id i. split; [by left|].
    intros [?|(j&?&Hj&_)]; [done|]. by rewrite lookup_nil in Hj. }
  destruct (bt_contains (n_id node) index_of) eqn:E; [done|]. apply bt_contains_false in E.
  intros (Hn&Hf&Hg)%IH. rewrite fmap_cons. split_and!.
  - constructor; [|done]. intros Hin%Hf. by rewrite bt_get_insert_eq in Hin.
  - intros id [->|Hin]%elem_of_cons; [done|]. apply Hf in Hin. rewrite bt_get_insert in Hin. by case_decide.
  - intros id i. rewrite Hg, bt_get_insert. case_decide as Hid.
    + subst id. split.
      * intros [[= ->]|(j&node'&Hj&Hid&->)]; [right; exists 0, node; split_and!; [done..|lia]|].
        right. exists (S j), node'. split_and!; [done..|lia].
      * intros [?|([|j]&node'&Hj&Hid&->)]; [congruence|left; f_equal; lia|].
        cbn in Hj. right. exists j, node'. split_and!; [done..|lia].
    + split.
      * intros [?|(j&node'&Hj&Hid'&->)]; [by left|]. right. exists (S j), node'. split_and!; [done..|lia].
      * intros [?|([|j]&node'&Hj&Hid'&->)]; [by left|cbn in Hj; simplify_eq|].
        cbn in Hj. right. exists j, node'. split_and!; [done..|lia].
Qed.

Lemma index_nodes_is_ok index_of k nodes :
  NoDup (n_id <$> nodes) -> (forall id, id ∈ n_id <$> nodes -> bt_get id index_of = None) ->
  is_ok (index_nodes index_of k nodes) = true.
Proof.
  revert index_of k. induction nodes as [|node nodes IH]; intros index_of k; cbn [index_nodes]; [done|].
  rewrite fmap_cons. intros [Hn Hns]%NoDup_cons Hf.
  assert (bt_contains (n_id node) index_of = false) as -> by (apply bt_contains_false, Hf; left).
  apply IH; [done|]. intros id Hid. rewrite bt_get_insert. case_decide; [by subst|]. apply Hf. by right.
Qed.

(** ** Roles *)
Definition role_of (node : Node) : option FolderRole := mb_role (n_mailbox node) ≫= role_from_jmap.

Lemma claim_roles_length claimed nodes : length (claim_roles claimed nodes) = length nodes.
Proof.
  revert claimed. induction nodes as [|node nodes IH]; intros claimed; cbn; [done|].
  destruct (mb_role (n_mailbox node) ≫= role_from_jmap); [case_decide|]; cbn; by rewrite IH.
Qed.

Lemma claim_roles_spec claimed nodes :
  NoDup (omap id (claim_roles claimed nodes)) /\
  forall r, r ∈ omap id (claim_roles claimed nodes) <-> (r ∉ claimed) /\ Some r ∈ role_of <$> nodes.
Proof.
  revert claimed. induction nodes as [|node nodes IH]; intros claimed; cbn [claim_roles].
  { split; [constructor|]. intros r. cbn. rewrite !elem_of_nil. tauto. }
  rewrite fmap_cons. setoid_rewrite elem_of_cons.
  change (mb_role (n_mailbox node) ≫= fun role => role_from_jmap role) with (role_of node).
  destruct (role_of node) as [role|].
  - case_decide as Hc; cbn [omap list_omap id].
    + destruct (IH claimed) as [Hn Hr]. split; [done|]. intros r. rewrite Hr. naive_solver.
    + destruct (IH (role :: claimed)) as [Hn Hr]. split.
      * constructor; [|done]. rewrite Hr. set_solver.
      * intros r. rewrite elem_of_cons, Hr, not_elem_of_cons. destruct (decide (r = role)); naive_solver.
  - cbn [omap list_omap id]. destruct (IH claimed) as [Hn Hr]. split; [done|]. intros r. rewrite Hr. naive_solver.
Qed.

Lemma omap_seq_S {B} (g : nat -> option B) a k : omap g (seq (S a) k) = omap (g ∘ S) (seq a k).
Proof. revert a. induction k as [|k IH]; intros a; cbn; [done|]. unfold compose at 1. by rewrite IH. Qed.

Lemma omap_seq {A B} (f : A -> option B) (l : list A) :
  omap (fun i => l !! i ≫= f) (seq 0 (length l)) = omap f l.
Proof.
  induction l as [|x l IH]; [done|]. cbn [length seq omap list_omap].
  rewrite omap_seq_S. cbn. by rewrite <- IH.
Qed.

(** ** From the nodes to the forest *)
Definition parent_node (nodes : list Node) (i p : nat) : Prop :=
  exists node pnode, nodes !! i = Some node /\ nodes !! p = Some pnode /\
    mb_parent_id (n_mailbox node) = Some (n_id pnode).

Record listing (nodes : list Node) (init parent : list (option nat)) (order : list nat) : Prop := {
  li_ids : NoDup (n_id <$> nodes);
  li_len : length init = length nodes;
  li_init i p : par init i = Some p <-> parent_node nodes i p;
  li_walked : walked (length nodes) init parent order;
}.

Lemma parent_of_spec index_of nodes i p :
  index_nodes [] 0 nodes = Ok index_of ->
  par (parent_of index_of <$> nodes) i = Some p <-> parent_node nodes i p.
Proof.
  intros (_&_&Hg)%index_nodes_ok. rewrite par_Some, list_lookup_fmap, fmap_Some. unfold parent_node, parent_of.
  split.
  - intros (node&Hi&E). symmetry in E. apply bind_Some in E as (pid&Hpid&Hget).
    apply Hg in Hget as [?|(j&pnode&Hj&<-&->)]; [done|]. eauto 10.
  - intros (node&pnode&Hi&Hp&Hpid). exists node. split; [done|]. rewrite Hpid. cbn. symmetry.
    apply Hg. right. eauto 10.
Qed.

Lemma parent_of_bound index_of nodes p :
  index_nodes [] 0 nodes = Ok index_of -> Some p ∈ parent_of index_of <$> nodes -> p < length nodes.
Proof.
  intros Hindex [i Hi]%list_elem_of_lookup. apply par_Some in Hi.
  apply (parent_of_spec _ _ _ _ Hindex) in Hi as (?&?&_&Hp&_). by eapply lookup_lt_Some.
Qed.

Lemma from_nodes_ok nodes roots :
  from_nodes nodes = Ok roots ->
  exists init parent order, listing nodes init parent order /\ roots = forest nodes parent order (claim_roles [] nodes).
Proof.
  unfold from_nodes. rewrite rbind_ok. intros (index_of&Hindex&E).
  set (init := parent_of index_of <$> nodes) in *.
  assert (length init = length nodes) as Hlen by apply length_fmap.
  destruct (walk_walked (length nodes) init Hlen) as (w&Ew&Hw).
  { intros p Hp. by eapply parent_of_bound. }
  destruct (link_nodes (replicate (length nodes) []) [] 0 init) as [children tops] eqn:El. cbn [fst snd] in Ew.
  rewrite Ew in E. injection E as <-. exists init, (w_parent w), (w_order w).
  split; [|done]. split; [by eapply index_nodes_ok|done|intros; by apply parent_of_spec|done].
Qed.

(** Nodes with distinct ids make a tree: the walk over them ends. *)
Lemma from_nodes_total nodes : NoDup (n_id <$> nodes) -> exists roots, from_nodes nodes = Ok roots.
Proof.
  intros Hn. pose proof (index_nodes_is_ok [] 0 _ Hn (fun _ _ => eq_refl)) as Hix. unfold from_nodes.
  destruct (index_nodes [] 0 nodes) as [index_of|] eqn:E; [|done]. cbn [rbind].
  destruct (walk_walked (length nodes) (parent_of index_of <$> nodes) (length_fmap _ _)) as (w&Ew&_).
  { intros p Hp. by eapply parent_of_bound. }
  destruct (link_nodes _ _ _ _) as [children tops]. cbn [fst snd] in Ew. rewrite Ew. by eexists.
Qed.

Lemma from_mailboxes_ok ms roots :
  from_mailboxes ms = Ok roots ->
  exists nodes, Forall2 node_of ms nodes /\ from_nodes (sort_by node_cmp nodes) = Ok roots.
Proof. unfold from_mailboxes. rewrite rbind_ok. intros (nodes&Hc%check_mailboxes_ok&?). eauto. Qed.

(** ** Mailboxes and their parents *)
Definition parent_in (ms : list Mailbox) (m p : Mailbox) : Prop :=
  p ∈ ms /\ is_Some (mb_parent_id m) /\ mb_parent_id m = mb_id p.

(** [nested ms m d]: the chain of parents of [m] ends at a top-level mailbox, with [d]
    mailboxes on it.  A mailbox on a loop is nested at no depth. *)
Inductive nested (ms : list Mailbox) : Mailbox -> nat -> Prop :=
| nested_top m : m ∈ ms -> (forall p, ~ parent_in ms m p) -> nested ms m 1
| nested_below m p d : m ∈ ms -> parent_in ms m p -> nested ms p d -> nested ms m (S d).

Section mailboxes.
Context (ms : list Mailbox) (checked : list Node) (init parent : list (option nat)) (order : list nat).
Let nodes := sort_by node_cmp checked.
Hypothesis Hchecked : Forall2 node_of ms checked.
Hypothesis Hlist : listing nodes init parent order.

Lemma node_mailbox i node : nodes !! i = Some node -> n_mailbox node ∈ ms /\ node_of (n_mailbox node) node.
Proof.
  intros Hi%list_elem_of_lookup_2. unfold nodes in Hi. rewrite sort_by_perm in Hi.
  apply list_elem_of_lookup in Hi as [k Hk]. destruct (Forall2_lookup_r _ _ _ _ _ Hchecked Hk) as (m&Hm&Hn).
  pose proof Hn as (_&E&_). rewrite E. split; [by eapply list_elem_of_lookup_2|done].
Qed.

Lemma mailbox_node m : m ∈ ms -> exists i node, nodes !! i = Some node /\ n_mailbox node = m /\ mb_id m = Some (n_id node).
Proof.
  intros [k Hk]%list_elem_of_lookup. destruct (Forall2_lookup_l _ _ _ _ _ Hchecked Hk) as (node&Hn&Hid&Hm&_).
  apply list_elem_of_lookup_2 in Hn. rewrite <- (sort_by_perm node_cmp) in Hn.
  apply list_elem_of_lookup in Hn as [i Hi]. eauto.
Qed.

(** The parent of a mailbox is the parent of its node. *)
Lemma parent_in_node m p i node :
  nodes !! i = Some node -> n_mailbox node = m -> parent_in ms m p ->
  exists j pnode, nodes !! j = Some pnode /\ n_mailbox pnode = p /\ par init i = Some j.
Proof.
  intros Hi Hm (Hp&_&Hpid). destruct (mailbox_node p Hp) as (j&pnode&Hj&Hpm&Hid).
  exists j, pnode. split_and!; [done..|]. apply (li_init _ _ _ _ Hlist).
  exists node, pnode. split_and!; [done..|]. rewrite Hm. congruence.
Qed.

Lemma node_parent_in i j node pnode :
  nodes !! i = Some node -> nodes !! j = Some pnode -> par init i = Some j ->
  parent_in ms (n_mailbox node) (n_mailbox pnode).
Proof.
  intros Hi Hj (node'&pnode'&Hi'&Hj'&Hpid)%(li_init _ _ _ _ Hlist).
  rewrite Hi in Hi'. rewrite Hj in Hj'. injection Hi' as <-. injection Hj' as <-.
  destruct (node_mailbox _ _ Hj) as [? (Hid&_&_)]. unfold parent_in. rewrite Hpid, Hid. eauto.
Qed.

Lemma init_lookup i node : nodes !! i = Some node -> init !! i = Some (par init i).
Proof.
  intros Hi. apply lookup_lt_Some in Hi. rewrite <- (li_len _ _ _ _ Hlist) in Hi.
  apply lookup_lt_is_Some in Hi as [x Hx]. unfold par. by rewrite Hx.
Qed.

Lemma nested_depth m d i node :
  nested ms m d -> nodes !! i = Some node -> n_mailbox node = m -> depth_at init i d.
Proof.
  intros Hn. revert i node. induction Hn as [m Hm Hno|m p d Hm Hp Hn IH]; intros i node Hi Hnode.
  - apply depth_root. rewrite (init_lookup _ _ Hi). f_equal. destruct (par init i) as [j|] eqn:E; [|done].
    pose proof E as (node'&pnode&Hi'&Hj&_)%(li_init _ _ _ _ Hlist). simplify_eq.
    destruct (Hno (n_mailbox pnode)). by eapply node_parent_in.
  - destruct (parent_in_node _ _ _ _ Hi Hnode Hp) as (j&pnode&Hj&Hpm&Hpar).
    eapply depth_child; [by apply par_Some|]. by eapply IH.
Qed.

Lemma order_elem i node : nodes !! i = Some node -> i ∈ order.
Proof.
  intros Hi%lookup_lt_Some. rewrite (wk_order _ _ _ _ (li_walked _ _ _ _ Hlist)), elem_of_seq. lia.
Qed.

Let roots := forest nodes parent order (claim_roles [] nodes).

(** A mailbox that is nested within the limit is below its parent. *)
Lemma nested_placed m d :
  nested ms m d -> d <= MAX_DEPTH ->
  exists f, f ∈ preorders roots /\ mb_id m = Some (f_id f) /\
    ((exists p g, parent_in ms m p /\ g ∈ preorders roots /\ mb_id p = Some (f_id g) /\ f ∈ f_children g) \/
     ((forall p, ~ parent_in ms m p) /\ f ∈ roots)).
Proof.
  intros Hn Hd. assert (m ∈ ms) as Hm by (by destruct Hn).
  destruct (mailbox_node m Hm) as (i&node&Hi&Hnode&Hid).
  pose proof (wk_kept _ _ _ _ (li_walked _ _ _ _ Hlist) i d Hd (nested_depth _ _ _ _ Hn Hi Hnode)) as Hkept.
  assert (forall k f nd, nodes !! k = Some nd -> built_as parent order (head_at nodes (claim_roles [] nodes) (paths_of nodes parent order)) k f ->
    f_id f = n_id nd) as Hfid.
  { intros k f nd Hk Hb. unfold f_id. rewrite (built_head _ _ _ _ _ _ Hb), head_id. unfold node_id. by rewrite Hk. }
  destruct (forest_placed_at _ _ _ _ (claim_roles [] nodes) (li_walked _ _ _ _ Hlist) (li_ids _ _ _ _ Hlist) i (order_elem _ _ Hi)) as (f&Hf&Hin&Hplace).
  exists f. split_and!; [done|by rewrite (Hfid i f node), Hid|].
  rewrite Hkept in Hplace. destruct (par init i) as [j|] eqn:E.
  - destruct Hplace as (g&Hg&Hgin&Hfg). left.
    pose proof E as (node'&pnode&Hi'&Hj&_)%(li_init _ _ _ _ Hlist). simplify_eq.
    exists (n_mailbox pnode), g. split_and!; [by eapply node_parent_in|done| |done].
    rewrite (Hfid j g pnode) by done. by destruct (node_mailbox _ _ Hj) as [_ (?&_)].
  - right. split; [|done]. intros p Hp. destruct (parent_in_node _ _ _ _ Hi Hnode Hp) as (j&?&_&_&?). congruence.
Qed.

Lemma fmap_seq_S {B} (g : nat -> B) a k : g <$> seq (S a) k = (g ∘ S) <$> seq a k.
Proof. revert a. induction k as [|k IH]; intros a; cbn; [done|]. by f_equal. Qed.

Lemma fmap_seq_lookup {A B} (g : option A -> B) (l : list A) :
  (fun i => g (l !! i)) <$> seq 0 (length l) = (fun x => g (Some x)) <$> l.
Proof. induction l as [|x l IH]; [done|]. cbn [length seq]. rewrite !fmap_cons, fmap_seq_S. by rewrite <- IH. Qed.

(** Every mailbox is one folder, with its id and its name. *)
Lemma roots_heads :
  (fun h => (Some (fh_id h), fh_display_name h)) <$> heads roots ≡ₚ (fun m => (mb_id m, mb_name m)) <$> ms.
Proof.
  unfold roots. rewrite (forest_heads _ init _ _ _ (li_walked _ _ _ _ Hlist)).
  generalize (paths_of nodes parent order). intros paths.
  rewrite (wk_order _ _ _ _ (li_walked _ _ _ _ Hlist)), <- list_fmap_compose.
  etrans; [eapply Permutation_refl', (fmap_seq_lookup (fun o => (Some (default [] (n_id <$> o)), mb_name (default (mailbox_new []) (n_mailbox <$> o)))) nodes)|].
  unfold nodes. rewrite sort_by_perm. cbn.
  by rewrite (checked_ids _ _ Hchecked).
Qed.

Lemma roots_roles : omap fh_role (heads roots) ≡ₚ omap id (claim_roles [] nodes).
Proof.
  unfold roots. rewrite (forest_heads _ init _ _ _ (li_walked _ _ _ _ Hlist)).
  generalize (paths_of nodes parent order). intros paths.
  rewrite (wk_order _ _ _ _ (li_walked _ _ _ _ Hlist)).
  assert (forall l, omap fh_role (head_at nodes (claim_roles [] nodes) paths <$> l)
    = omap (fun i => claim_roles [] nodes !! i ≫= id) l) as ->.
  { induction l as [|i l IH]; [done|]. rewrite fmap_cons. cbn [omap list_omap]. by rewrite IH. }
  by rewrite <- (claim_roles_length [] nodes), omap_seq.
Qed.

Lemma node_roles r : Some r ∈ role_of <$> nodes <-> exists m, m ∈ ms /\ (mb_role m ≫= role_from_jmap) = Some r.
Proof.
  rewrite list_elem_of_fmap. split.
  - intros (node&Hr&[i Hi]%list_elem_of_lookup). destruct (node_mailbox _ _ Hi) as [Hm _].
    exists (n_mailbox node). done.
  - intros (m&Hm&Hr). destruct (mailbox_node m Hm) as (i&node&Hi&Hnode&_).
    exists node. unfold role_of. rewrite Hnode. split; [done|by eapply list_elem_of_lookup_2].
Qed.
End mailboxes.

(** ** Claims *)

Lemma listing_of ms roots :
  from_mailboxes ms = Ok roots ->
  exists checked init parent order, Forall2 node_of ms checked /\
    listing (sort_by node_cmp checked) init parent order /\
    roots = forest (sort_by node_cmp checked) parent order (claim_roles [] (sort_by node_cmp checked)).
Proof.
  intros (checked&Hc&(init&parent&order&Hl&->)%from_nodes_ok)%from_mailboxes_ok. eauto 10.
Qed.

Lemma listing_tree_ok ms roots : from_mailboxes ms = Ok roots -> tree_ok roots.
Proof.
  intros (checked&init&parent&order&_&Hl&->)%listing_of.
  apply (forest_tree_ok _ init _ _ _ (li_walked _ _ _ _ Hl) (li_ids _ _ _ _ Hl)).
Qed.

(** C2: the tree of a listing, whatever the server sent.  Every mailbox is exactly one
    folder, with its id and name; every path is the parent's path and one component, no two
    folders share a path or an id, and no branch is deeper than [MAX_DEPTH].  A mailbox whose
    chain of parents reaches a top-level mailbox within that depth is a subfolder of its
    parent, or a root if it has none: only links on a loop or beyond the limit are cut. *)
Theorem from_mailboxes_tree ms roots :
  from_mailboxes ms = Ok roots ->
  ((fun h => (Some (fh_id h), fh_display_name h)) <$> heads roots ≡ₚ (fun m => (mb_id m, mb_name m)) <$> ms) /\
  tree_ok roots /\ NoDup (fh_path <$> heads roots) /\
  Forall (fun f => folder_height f <= MAX_DEPTH) roots /\
  forall m d, nested ms m d -> d <= MAX_DEPTH ->
    exists f, f ∈ preorders roots /\ mb_id m = Some (f_id f) /\
      ((exists p g, parent_in ms m p /\ g ∈ preorders roots /\ mb_id p = Some (f_id g) /\ f ∈ f_children g) \/
       ((forall p, ~ parent_in ms m p) /\ f ∈ roots)).
Proof.
  intros Hok. pose proof (listing_tree_ok _ _ Hok) as Htree.
  apply listing_of in Hok as (checked&init&parent&order&Hc&Hl&->). split_and!.
  - by eapply roots_heads.
  - done.
  - by apply tree_ok_paths.
  - apply (forest_height _ init _ _ _ (li_walked _ _ _ _ Hl)).
  - intros m d. by eapply nested_placed.
Qed.

(** What a reply of Mailbox/get must satisfy: every mailbox has an id and a name, and no id
    comes twice. *)
Definition listable (ms : list Mailbox) : Prop :=
  Forall (fun m => is_Some (mb_id m) /\ mb_name m <> []) ms /\ NoDup (mb_id <$> ms).

(** The errors of a listing, each with what it is about. *)
Inductive refused (ms : list Mailbox) : SyncError -> Prop :=
| refused_id m :
    m ∈ ms -> mb_id m = None -> refused ms (sync_protocol (lit "Mailbox/get returned a mailbox without an id"))
| refused_name m id :
    m ∈ ms -> mb_id m = Some id -> mb_name m = [] ->
    refused ms (sync_protocol (lit "Mailbox/get returned mailbox " ++ id ++ lit " without a name"))
| refused_twice id :
    [Some id; Some id] ⊆+ (mb_id <$> ms) ->
    refused ms (sync_protocol (lit "Mailbox/get returned mailbox " ++ id ++ lit " twice")).

Lemma refused_not_listable ms e : refused ms e -> ~ listable ms.
Proof.
  intros Hr [Hall Hn]. rewrite Forall_forall in Hall. destruct Hr as [m Hm Hid|m id Hm Hid Hname|id Hsub].
  - destruct (Hall m Hm) as [[id E] _]. congruence.
  - by destruct (Hall m Hm).
  - apply submseteq_Permutation in Hsub as [k Hk]. rewrite Hk in Hn. apply NoDup_cons in Hn as [Hn _]. apply Hn. by left.
Qed.

Lemma check_mailboxes_err ms e : check_mailboxes ms = Err e -> refused ms e.
Proof.
  unfold check_mailboxes.
  assert (forall acc, try_fold (fun nodes mailbox => rbind (check_mailbox mailbox) (fun node => Ok (nodes ++ [node]))) acc ms = Err e ->
    exists m, m ∈ ms /\ check_mailbox m = Err e) as Hgen.
  { induction ms as [|m ms IH]; intros acc; cbn [try_fold]; [done|].
    destruct (check_mailbox m) as [node|e'] eqn:E; cbn [rbind].
    - intros (m'&Hm&He)%IH. exists m'. split; [by right|done].
    - intros [= ->]. exists m. split; [left|done]. }
  intros (m&Hm&He)%Hgen. unfold check_mailbox in He. destruct (mb_id m) as [id|] eqn:Hid.
  - case_decide as Hname; [|done]. injection He as <-. by eapply refused_name.
  - injection He as <-. by eapply refused_id.
Qed.

Lemma index_nodes_err index_of k nodes e :
  index_nodes index_of k nodes = Err e ->
  exists id, e = sync_protocol (lit "Mailbox/get returned mailbox " ++ id ++ lit " twice") /\
    ([id; id] ⊆+ (n_id <$> nodes) \/ is_Some (bt_get id index_of) /\ id ∈ n_id <$> nodes).
Proof.
  revert index_of k. induction nodes as [|node nodes IH]; intros index_of k; cbn [index_nodes]; [done|].
  destruct (bt_contains (n_id node) index_of) eqn:Ec.
  - intros [= <-]. exists (n_id node). split; [done|]. right. rewrite fmap_cons. split; [|left].
    by apply bt_contains_true.
  - intros (id&->&Hid)%IH. exists id. split; [done|]. rewrite fmap_cons. destruct Hid as [Hid|[Hget Hin]].
    + left. by apply submseteq_cons.
    + rewrite bt_get_insert in Hget. case_decide as Heq; [|right; split; [done|by right]].
      left. subst. apply submseteq_skip. by apply singleton_submseteq_l.
Qed.

Lemma node_ids ms checked : Forall2 node_of ms checked -> mb_id <$> ms = Some <$> (n_id <$> checked).
Proof. induction 1 as [|m node ms' checked (Hid&_&_) _ IH]; [done|]. by rewrite !fmap_cons, IH, Hid. Qed.

Lemma listable_checked ms :
  listable ms -> exists checked, Forall2 node_of ms checked /\ NoDup (n_id <$> sort_by node_cmp checked).
Proof.
  intros [Hall Hn]. assert (exists checked, Forall2 node_of ms checked) as [checked Hc].
  { clear Hn. induction Hall as [|m ms [[id Hid] Hname] _ [checked IH]]; [by exists []|].
    exists ({| n_mailbox := m; n_id := id |} :: checked). by constructor. }
  exists checked. split; [done|]. rewrite (node_ids _ _ Hc) in Hn. apply NoDup_fmap_1 in Hn.
  by rewrite sort_by_perm.
Qed.

Lemma listable_listed ms : listable ms -> exists roots, from_mailboxes ms = Ok roots.
Proof.
  intros (checked&Hc&Hn)%listable_checked. unfold from_mailboxes.
  rewrite (proj2 (check_mailboxes_ok _ _) Hc). cbn [rbind]. by apply from_nodes_total.
Qed.

Lemma from_mailboxes_err ms e : from_mailboxes ms = Err e -> refused ms e.
Proof.
  unfold from_mailboxes. destruct (check_mailboxes ms) as [checked|e'] eqn:Hc; cbn [rbind].
  2: { intros [= ->]. by apply check_mailboxes_err. }
  apply check_mailboxes_ok in Hc. intros Hf.
  destruct (index_nodes [] 0 (sort_by node_cmp checked)) as [index_of|e'] eqn:Hix.
  - pose proof (index_nodes_ok _ _ _ _ Hix) as (Hn&_). apply from_nodes_total in Hn as [roots Hr]. congruence.
  - unfold from_nodes in Hf. rewrite Hix in Hf. injection Hf as ->.
    apply index_nodes_err in Hix as (id&->&[Hsub|[[? Hget] _]]); [|done]. apply refused_twice.
    rewrite (node_ids _ _ Hc). rewrite sort_by_perm in Hsub. by apply (fmap_submseteq Some) in Hsub.
Qed.

Lemma from_mailboxes_listable ms roots : from_mailboxes ms = Ok roots -> listable ms.
Proof.
  intros (checked&init&parent&order&Hc&Hl&_)%listing_of. split.
  - clear -Hc. induction Hc as [|m node ms checked (Hid&_&Hn) _ IH]; constructor; [by rewrite Hid|done].
  - rewrite (node_ids _ _ Hc). apply (NoDup_fmap_2 Some). rewrite <- (sort_by_perm node_cmp checked). apply (li_ids _ _ _ _ Hl).
Qed.

Lemma from_mailboxes_is_ok ms : is_ok (from_mailboxes ms) = true <-> listable ms.
Proof.
  split.
  - destruct (from_mailboxes ms) as [roots|] eqn:E; [|done]. intros _. by eapply from_mailboxes_listable.
  - intros [roots ->]%listable_listed. done.
Qed.

(** The folder tree depends only on which mailboxes the server listed, not on the order
    of its reply. *)
Lemma from_mailboxes_order ms ms' roots :
  ms ≡ₚ ms' -> from_mailboxes ms = Ok roots -> from_mailboxes ms' = Ok roots.
Proof.
  intros Hp (checked&Hc&Hf)%from_mailboxes_ok.
  destruct (Permutation_Forall2 Hp Hc) as (checked'&Hp'&Hc').
  unfold from_mailboxes. rewrite (proj2 (check_mailboxes_ok _ _) Hc'). cbn [rbind].
  rewrite <- (sort_nodes_perm checked checked' Hp'); [done|].
  pose proof (from_nodes_ok _ _ Hf) as (?&?&?&Hl&_). pose proof (li_ids _ _ _ _ Hl) as Hn.
  by rewrite sort_by_perm in Hn.
Qed.

(** C9: [from_mailboxes] ends on every reply of the server, whatever its parent links are (loops,
    chains of any length, parents that are not in the reply).  If every mailbox has an id and a
    name and no id comes twice, it returns a tree in which every mailbox is one folder, no branch
    is deeper than [MAX_DEPTH], and which does not depend on the order of the reply.  Otherwise,
    and only otherwise, it returns an error, and the error names a mailbox that has no id, one that
    has no name, or an id that comes twice. *)
Theorem from_mailboxes_accepts ms :
  (listable ms ->
    exists roots, from_mailboxes ms = Ok roots /\
      ((fun h => (Some (fh_id h), fh_display_name h)) <$> heads roots ≡ₚ (fun m => (mb_id m, mb_name m)) <$> ms) /\
      Forall (fun f => folder_height f <= MAX_DEPTH) roots /\
      forall ms', ms ≡ₚ ms' -> from_mailboxes ms' = Ok roots) /\
  (~ listable ms -> exists e, from_mailboxes ms = Err e /\ refused ms e).
Proof.
  split.
  - intros Hlist. destruct (listable_listed ms Hlist) as [roots Hok]. exists roots. split; [done|].
    pose proof Hok as (checked&init&parent&order&Hc&Hl&->)%listing_of. split_and!.
    + by eapply roots_heads.
    + apply (forest_height _ init _ _ _ (li_walked _ _ _ _ Hl)).
    + intros ms' Hp. by eapply from_mailboxes_order.
  - intros Hno. destruct (from_mailboxes ms) as [roots|e] eqn:E; [|exists e; split; [done|by apply from_mailboxes_err]].
    destruct Hno. by eapply from_mailboxes_listable.
Qed.

(** A role belongs to at most one folder of a listing, and to one exactly when some
    mailbox claims it. *)
Theorem from_mailboxes_roles ms roots :
  from_mailboxes ms = Ok roots ->
  NoDup (omap fh_role (heads roots)) /\
  forall r, r ∈ omap fh_role (heads roots) <-> exists m, m ∈ ms /\ (mb_role m ≫= role_from_jmap) = Some r.
Proof.
  intros (checked&init&parent&order&Hc&Hl&->)%listing_of.
  pose proof (claim_roles_spec [] (sort_by node_cmp checked)) as [Hn Hr].
  rewrite (roots_roles _ init _ _ Hl). split; [done|]. intros r.
  rewrite (roots_roles _ init _ _ Hl), Hr, (node_roles _ _ Hc), elem_of_nil. naive_solver.
Qed.

(** C26: every tree that edits make of a listing (subscribing, inserting a folder with new
    ids, renaming, removing, in any sequence) still has a distinct path and a distinct id for
    every folder, and every path is still the parent's path and one component. *)
Theorem edited_tree_ok ms roots roots' :
  from_mailboxes ms = Ok roots -> rtc tree_edit roots roots' ->
  forest_ok None roots' /\ NoDup (fh_path <$> heads roots') /\ NoDup (fh_id <$> heads roots').
Proof.
  intros Hok%listing_tree_ok Hedits. pose proof (tree_edits_ok _ _ Hok Hedits) as Hok'.
  pose proof (tree_ok_paths _ Hok'). destruct Hok'. done.
Qed.

(** ** An example: a nested mailbox, two mailboxes with one name, and a loop *)
Definition example_mailbox (id name : string) (parent role : option string) : Mailbox :=
  {| mb_id := Some (lit id); mb_name := lit name; mb_parent_id := lit <$> parent; mb_role := lit <$> role;
     mb_sort_order := None; mb_total_emails := Some 5%N; mb_unread_emails := None; mb_total_threads := None;
     mb_unread_threads := None; mb_is_subscribed := None; mb_share_with := None; mb_my_rights := None; mb_extra := [] |}.

Definition example_mailboxes : list Mailbox :=
  [ example_mailbox "w" "Work" None None;
    example_mailbox "p" "Plans/2026" (Some "w"%string) None;
    example_mailbox "i" "Inbox" None (Some "Inbox"%string);
    example_mailbox "j" "Inbox" None (Some "inbox"%string);
    example_mailbox "a" "Loop" (Some "b"%string) None;
    example_mailbox "b" "Loop" (Some "a"%string) None ].

Definition example_tree : FolderTree :=
  match from_mailboxes example_mailboxes with Ok roots => roots | Err _ => [] end.

Lemma example_listed : from_mailboxes example_mailboxes = Ok example_tree.
Proof. vm_compute. reflexivity. Qed.

Definition example_work : Mailbox := example_mailbox "w" "Work" None None.
Definition example_plans : Mailbox := example_mailbox "p" "Plans/2026" (Some "w"%string) None.

Lemma example_nested : nested example_mailboxes example_plans 2.
Proof.
  apply (nested_below _ _ example_work); [right; left| |].
  - split_and!; [left|by eexists|done].
  - apply nested_top; [left|]. intros p (_&[x Hx]&_). done.
Qed.

Lemma from_mailboxes_tree_witness :
  from_mailboxes example_mailboxes = Ok example_tree /\
  (f_path <$> preorders example_tree) = lit <$> ["Inbox"; "Inbox%23j"; "Work"; "Work/Plans%2F2026"; "Loop"; "Loop/Loop"]%string /\
  NoDup (fh_path <$> heads example_tree) /\
  exists f, f ∈ preorders example_tree /\ mb_id example_plans = Some (f_id f).
Proof.
  split; [exact example_listed|]. split; [vm_compute; reflexivity|].
  destruct (from_mailboxes_tree _ _ example_listed) as (_&_&Hn&_&Hplace). split; [exact Hn|].
  destruct (Hplace _ _ example_nested) as (f&Hf&Hid&_); [unfold MAX_DEPTH; lia|].
  exists f. split; [exact Hf|exact Hid].
Defined.

(** The loop of the example is listed, in any order of the reply; a reply with an id twice is not. *)
Lemma from_mailboxes_accepts_witness :
  (exists roots, from_mailboxes (reverse example_mailboxes) = Ok roots /\ length (heads roots) = 6) /\
  exists e, from_mailboxes [example_work; example_plans; example_work] = Err e /\ refused [example_work; example_plans; example_work] e.
Proof.
  split.
  - destruct (proj1 (from_mailboxes_accepts example_mailboxes)) as (roots&_&Hp&_&Hall).
    { apply from_mailboxes_is_ok. vm_compute. reflexivity. }
    exists roots. split; [apply Hall; by rewrite reverse_Permutation|].
    apply Permutation_length in Hp. rewrite !length_fmap in Hp. exact Hp.
  - apply (proj2 (from_mailboxes_accepts [example_work; example_plans; example_work])).
    intros Hl%from_mailboxes_is_ok. vm_compute in Hl. discriminate Hl.
Defined.

Lemma from_mailboxes_roles_witness :
  omap fh_role (heads example_tree) = [Inbox] /\ NoDup (omap fh_role (heads example_tree)).
Proof.
  split; [vm_compute; reflexivity|]. exact (proj1 (from_mailboxes_roles _ _ example_listed)).
Defined.

Lemma edited_tree_ok_witness :
  rtc tree_edit example_tree (tree_rename example_tree (lit "w") (lit "Inbox/Work") (lit "Work")).2 /\
  NoDup (fh_path <$> heads (tree_rename example_tree (lit "w") (lit "Inbox/Work") (lit "Work")).2).
Proof.
  assert (rtc tree_edit example_tree (tree_rename example_tree (lit "w") (lit "Inbox/Work") (lit "Work")).2) as Hedit
    by (apply rtc_once, edit_rename).
  split; [exact Hedit|]. exact (proj1 (proj2 (edited_tree_ok _ _ _ example_listed Hedit))).
Defined.

Lemma rename_moves_witness :
  tree_ok example_tree /\
  (f_path <$> preorders (tree_rename example_tree (lit "w") (lit "Inbox/Job") (lit "Job")).2)
    = lit <$> ["Inbox"; "Inbox/Job"; "Inbox/Job/Plans%2F2026"; "Inbox%23j"; "Loop"; "Loop/Loop"]%string /\
  (tree_rename example_tree (lit "w") (lit "Inbox/Job") (lit "Job")).1 = true /\
  exists old, tree_by_id example_tree (lit "w") = Some old /\ may_move example_tree old (lit "Inbox/Job").
Proof.
  pose proof (listing_tree_ok _ _ example_listed) as Hok. split; [exact Hok|].
  split; [vm_compute; reflexivity|].
  assert ((tree_rename example_tree (lit "w") (lit "Inbox/Job") (lit "Job")).1 = true) as Ht by (vm_compute; reflexivity).
  split; [exact Ht|]. exact (proj1 (proj1 (rename_moves _ _ _ _ Hok)) Ht).
Defined.
