(* ===== verification/FolderChange.v ===== *)
(** The difference of two listings ([FolderTree::same_shape], [FolderTree::change_to]): what
    the folder signals of Camel tell, and that a view that follows them ends at the new
    listing. *)

From Stdlib Require Import Ascii String.
From stdpp Require Import prelude strings.
From S2P Require Import Prelude BTree Strings Json Proto Path FolderTree FolderForest FolderEdit.

Local Open Scope rust_scope.

(** ** What the view of a folder shows *)
Definition Row : Type := Id * text * text * option FolderRole * bool.

Definition row (f : FolderInfo) : Row :=
  let h := f_head f in (fh_id h, fh_path h, fh_display_name h, fh_role h, fh_subscribed h).

Definition row_id (r : Row) : Id := r.1.1.1.1.

(** A row without its subscription. *)
Definition row_place (r : Row) : Id * text * text * option FolderRole := r.1.

Definition rows (t : FolderTree) : list Row := row <$> tree_iter t.

Lemma row_leaf f : row (leaf f) = row f.
Proof. done. Qed.

Lemma row_id_row f : row_id (row f) = f_id f.
Proof. done. Qed.

(** ** The same shape *)
Lemma same_head_row h h' c c' : same_head h h' = true <-> row (Folder h c) = row (Folder h' c').
Proof.
  unfold same_head, row. cbn. rewrite !andb_true_iff, !bool_decide_eq_true. split.
  - intros [[[[-> ->] ->] ->] ->]. done.
  - intros [= ]. tauto.
Qed.

Lemma all_pairs_Forall2 {A B} (go : A -> B -> bool) l k :
  all_pairs go l k = true <-> Forall2 (fun a b => go a b = true) l k.
Proof.
  revert k. induction l as [|a l IH]; intros [|b k]; cbn; [|split; [done|inversion 1]..|].
  - split; [constructor|done].
  - rewrite andb_true_iff, IH, Forall2_cons. done.
Qed.

Lemma rows_preorders t : rows t = row <$> preorders t.
Proof. unfold rows. by rewrite tree_iter_preorders. Qed.

Lemma same_folder_rows f g : same_folder f g = true -> row <$> preorder f = row <$> preorder g.
Proof.
  revert g. induction f as [h c IH] using FolderInfo_ind. intros [h' c']. cbn [same_folder].
  rewrite andb_true_iff, (same_head_row _ _ c c'), all_pairs_Forall2. intros [Hh Hc].
  rewrite !preorder_eq, !fmap_cons, Hh. f_equal. cbn [f_children].
  induction Hc as [|f g c c' Hfg Hc IHc]; [done|]. apply Forall_cons in IH as [IHf IH].
  rewrite !preorders_cons, !fmap_app, (IHf _ Hfg), IHc; done.
Qed.

Lemma same_shape_rows l k : same_shape l k = true -> rows l = rows k.
Proof.
  rewrite !rows_preorders. unfold same_shape. rewrite all_pairs_Forall2.
  induction 1 as [|f g l k Hfg _ IH]; [done|]. by rewrite !preorders_cons, !fmap_app, IH, (same_folder_rows _ _ Hfg).
Qed.

(** ** The loop over the new listing *)
Definition fresh_in (before : btmap Id FolderInfo) (f : FolderInfo) : Prop := bt_get (f_id f) before = None.

#[export] Instance fresh_in_dec before f : Decision (fresh_in before f).
Proof. unfold fresh_in. apply _. Defined.

Definition resubscribed_in (before : btmap Id FolderInfo) (f : FolderInfo) : Prop :=
  exists old, bt_get (f_id f) before = Some old /\ fh_subscribed (f_head old) <> fh_subscribed (f_head f).

#[export] Instance resubscribed_in_dec before f : Decision (resubscribed_in before f).
Proof.
  unfold resubscribed_in. destruct (bt_get (f_id f) before) as [old|].
  - destruct (decide (fh_subscribed (f_head old) <> fh_subscribed (f_head f))); [left; eauto|right; naive_solver].
  - right. by intros (?&?&_).
Defined.

Definition stays_in (before : btmap Id FolderInfo) (f : FolderInfo) : Prop :=
  forall old, bt_get (f_id f) before = Some old -> row_place (row old) = row_place (row f).

#[export] Instance stays_in_dec before f : Decision (stays_in before f).
Proof.
  unfold stays_in. destruct (bt_get (f_id f) before) as [old|].
  - destruct (decide (row_place (row old) = row_place (row f))).
    + left. by intros ? [= <-].
    + right. intros Hs. by apply n, Hs.
  - left. done.
Defined.

Lemma change_folder_Some before d f d' :
  f_id <$> bt_get (f_id f) before = (fun _ => f_id f) <$> bt_get (f_id f) before ->
  change_folder before d f = Some d' <->
  stays_in before f /\
  d' = {| fd_destroyed := fd_destroyed d;
          fd_created := fd_created d ++ (if decide (fresh_in before f) then [leaf f] else []);
          fd_resubscribed := fd_resubscribed d ++ (if decide (resubscribed_in before f) then [leaf f] else []) |}.
Proof.
  intros Hid. unfold change_folder, stays_in. destruct (bt_get (f_id f) before) as [old|] eqn:E.
  - cbn in Hid. rewrite decide_False by (unfold fresh_in; congruence). rewrite app_nil_r.
    assert ((bool_decide (f_path old <> f_path f) || bool_decide (fh_display_name (f_head old) <> fh_display_name (f_head f))
      || bool_decide (fh_role (f_head old) <> fh_role (f_head f))) = false <-> row_place (row old) = row_place (row f)) as Hsame.
    { rewrite !orb_false_iff, !bool_decide_eq_false. unfold row_place, row, f_path, f_id in *. cbn. split.
      - intros [[->%dec_stable ->%dec_stable] ->%dec_stable]. by injection Hid as ->.
      - intros [= ]. split_and!; intros []; done. }
    destruct (bool_decide _ || _ || _) eqn:Eb.
    + split; [done|]. intros [Hs _]. specialize (Hs old eq_refl). apply Hsame in Hs. congruence.
    + assert (forall o, Some old = Some o -> row_place (row o) = row_place (row f)) as Hstay
        by (intros o [= <-]; by apply Hsame).
      destruct (decide (fh_subscribed (f_head old) <> fh_subscribed (f_head f))) as [Hsub|Hsub].
      * rewrite bool_decide_eq_true_2 by done. rewrite decide_True by (by exists old). split; [by intros [= <-]|by intros [_ ->]].
      * rewrite bool_decide_eq_false_2 by done. rewrite decide_False by (intros (o&Ho&?); simplify_eq; naive_solver). rewrite app_nil_r.
        destruct d. split; [by intros [= <-]|by intros [_ ->]].
  - rewrite decide_True by done. rewrite decide_False by (intros (?&?&_); congruence). rewrite app_nil_r.
    split; [by intros [= <-]|by intros [_ ->]].
Qed.

(** [before] maps the ids of a listing to its folders. *)
Definition indexes (before : btmap Id FolderInfo) (self : FolderTree) : Prop :=
  forall id f, bt_get id before = Some f <-> f ∈ preorders self /\ f_id f = id.

Lemma change_folders_Some before self d after d' :
  indexes before self ->
  change_folders before d after = Some d' <->
  Forall (stays_in before) after /\
  d' = {| fd_destroyed := fd_destroyed d;
          fd_created := fd_created d ++ (leaf <$> filter (fresh_in before) after);
          fd_resubscribed := fd_resubscribed d ++ (leaf <$> filter (resubscribed_in before) after) |}.
Proof.
  intros Hix. revert d. induction after as [|f after IH]; intros d; cbn [change_folders].
  { cbn. rewrite !app_nil_r. destruct d. split; [intros [= <-]; by split|by intros [_ ->]]. }
  assert (f_id <$> bt_get (f_id f) before = (fun _ => f_id f) <$> bt_get (f_id f) before) as Hid.
  { destruct (bt_get (f_id f) before) as [old|] eqn:E; [|done]. apply Hix in E as [_ E]. cbn. by rewrite E. }
  rewrite Forall_cons, !filter_cons, bind_Some. setoid_rewrite (change_folder_Some _ _ _ _ Hid).
  setoid_rewrite IH. split.
  - intros (d1&[Hf ->]&Hall&->). split; [done|]. cbn [fd_destroyed fd_created fd_resubscribed].
    destruct (decide (fresh_in before f)), (decide (resubscribed_in before f));
      by rewrite ?fmap_cons, <- !(assoc_L (++)).
  - intros [[Hf Hall] ->]. eexists. split; [by split|]. split; [done|]. cbn [fd_destroyed fd_created fd_resubscribed].
    destruct (decide (fresh_in before f)), (decide (resubscribed_in before f));
      by rewrite ?fmap_cons, <- !(assoc_L (++)).
Qed.

Lemma before_indexes self :
  NoDup (fh_id <$> heads self) ->
  indexes (bt_of_list ((fun f => (f_id f, f)) <$> tree_iter self)) self.
Proof.
  rewrite tree_iter_preorders. unfold heads. rewrite <- list_fmap_compose. intros Hn id f.
  rewrite bt_get_of_list.
  2: { rewrite <- list_fmap_compose. exact Hn. }
  rewrite list_elem_of_fmap. naive_solver.
Qed.

(** ** A view that follows the signals *)
Definition follow (d : FolderDelta) (r : Row) : Row :=
  match find (fun f => bool_decide (f_id f = row_id r)) (fd_resubscribed d) with
  | Some f => row f
  | None => r
  end.

Definition apply_delta (d : FolderDelta) (view : list Row) : list Row :=
  (follow d <$> filter (fun r => row_id r ∉ f_id <$> fd_destroyed d) view) ++ (row <$> fd_created d).

Section delta.
Context (self after : FolderTree) (before : btmap Id FolderInfo).
Hypothesis Hself : NoDup (fh_id <$> heads self).
Hypothesis Hafter : NoDup (fh_id <$> heads after).
Hypothesis Hix : indexes before self.
Hypothesis Hstays : Forall (stays_in before) (preorders after).

Definition the_delta : FolderDelta :=
  {| fd_destroyed := reverse (leaf <$> filter (fun f => f_id f ∉ fh_id <$> heads after) (preorders self));
     fd_created := leaf <$> filter (fresh_in before) (preorders after);
     fd_resubscribed := leaf <$> filter (resubscribed_in before) (preorders after) |}.

Lemma same_id_after f g : f ∈ preorders after -> g ∈ preorders after -> f_id f = f_id g -> f = g.
Proof.
  unfold heads in Hafter. rewrite <- list_fmap_compose in Hafter. intros. by eapply nodup_fmap_eq.
Qed.

Lemma row_same old new :
  row_place (row old) = row_place (row new) -> fh_subscribed (f_head old) = fh_subscribed (f_head new) -> row old = row new.
Proof. unfold row_place, row. cbn. congruence. Qed.

(** An old row that stays becomes the new row of the same folder. *)
Lemma follow_row old new :
  old ∈ preorders self -> new ∈ preorders after -> f_id old = f_id new -> follow the_delta (row old) = row new.
Proof.
  intros Hold Hnew Hid. unfold follow. rewrite row_id_row. cbn [the_delta fd_resubscribed].
  assert (bt_get (f_id new) before = Some old) as Hget by (by apply Hix).
  rewrite Forall_forall in Hstays. pose proof (Hstays _ Hnew old Hget) as Hplace.
  destruct (find _ _) as [f|] eqn:E.
  - apply find_Some_elem in E as [(g&->&[_ Hg]%list_elem_of_filter)%list_elem_of_fmap Hfid%bool_decide_eq_true].
    rewrite row_leaf. change (f_id (leaf g)) with (f_id g) in Hfid.
    assert (g = new) as -> by (apply same_id_after; [done..|congruence]). done.
  - destruct (decide (resubscribed_in before new)) as [Hr|Hr].
    + eapply find_None_elem with (x := leaf new) in E; [|by apply list_elem_of_fmap_2, list_elem_of_filter].
      rewrite bool_decide_eq_false in E. by destruct E.
    + apply row_same; [done|]. destruct (decide (fh_subscribed (f_head old) = fh_subscribed (f_head new))); [done|].
      destruct Hr. by exists old.
Qed.

Lemma fresh_spec f : fresh_in before f <-> f_id f ∉ fh_id <$> heads self.
Proof.
  unfold fresh_in. rewrite elem_of_heads_id, eq_None_not_Some. apply not_iff_compat. split.
  - intros [g [Hg Hid]%Hix]. eauto.
  - intros (g&Hg&Hid). exists g. by apply Hix.
Qed.

Lemma destroyed_ids id : id ∈ f_id <$> fd_destroyed the_delta <-> id ∈ fh_id <$> heads self /\ (id ∉ fh_id <$> heads after).
Proof.
  cbn [the_delta fd_destroyed]. rewrite fmap_reverse, elem_of_reverse, <- list_fmap_compose, list_elem_of_fmap, elem_of_heads_id.
  setoid_rewrite list_elem_of_filter. split.
  - intros (f&->&Hn&Hf). split; [by exists f|done].
  - intros [(f&Hf&<-) Hn]. by exists f.
Qed.

Lemma elem_of_rows r t : r ∈ rows t <-> exists f, f ∈ preorders t /\ r = row f.
Proof. rewrite rows_preorders, list_elem_of_fmap. naive_solver. Qed.

Lemma elem_of_followed r : r ∈ apply_delta the_delta (rows self) <-> r ∈ rows after.
Proof.
  unfold apply_delta. rewrite elem_of_app, list_elem_of_fmap. setoid_rewrite list_elem_of_filter.
  setoid_rewrite elem_of_rows. setoid_rewrite destroyed_ids. split.
  - intros [(r'&->&Hn&(old&Hold&->))|Hc].
    + rewrite row_id_row in Hn.
      assert (f_id old ∈ fh_id <$> heads after) as (new&Hnew&Hid)%elem_of_heads_id.
      { apply dec_stable. intros Hno. apply Hn. split; [apply elem_of_heads_id; eauto|done]. }
      exists new. split; [done|]. by apply follow_row.
    + cbn [the_delta fd_created] in Hc. rewrite <- list_fmap_compose in Hc.
      apply list_elem_of_fmap in Hc as (f&->&[_ Hf]%list_elem_of_filter). by exists f.
  - intros (new&Hnew&->). destruct (decide (fresh_in before new)) as [Hf|Hf].
    + right. cbn [the_delta fd_created]. rewrite <- list_fmap_compose. apply list_elem_of_fmap.
      exists new. split; [done|]. by apply list_elem_of_filter.
    + left. rewrite fresh_spec in Hf. apply dec_stable in Hf. apply elem_of_heads_id in Hf as (old&Hold&Hid).
      exists (row old). split; [symmetry; by apply follow_row|]. split; [|by exists old].
      rewrite row_id_row. intros [_ Hn]. apply Hn, elem_of_heads_id. by exists new.
Qed.

Lemma rows_nodup t : NoDup (fh_id <$> heads t) -> NoDup (row_id <$> rows t).
Proof. intros Hn. rewrite rows_preorders, <- list_fmap_compose. unfold heads in Hn. by rewrite <- list_fmap_compose in Hn. Qed.

Lemma follow_id r : row_id (follow the_delta r) = row_id r.
Proof.
  unfold follow. destruct (find _ _) as [f|] eqn:E; [|done].
  apply find_Some_elem in E as [_ E%bool_decide_eq_true]. by rewrite row_id_row.
Qed.

Lemma followed_nodup : NoDup (row_id <$> apply_delta the_delta (rows self)).
Proof.
  unfold apply_delta. rewrite fmap_app. apply NoDup_app. split_and!.
  - rewrite <- list_fmap_compose.
    assert (row_id ∘ follow the_delta <$> filter (fun r => row_id r ∉ f_id <$> fd_destroyed the_delta) (rows self)
      = row_id <$> filter (fun r => row_id r ∉ f_id <$> fd_destroyed the_delta) (rows self)) as ->.
    { apply list_fmap_ext. intros i r _. apply follow_id. }
    eapply sublist_NoDup; [exact (rows_nodup _ Hself)|]. apply fmap_sublist, sublist_filter.
  - intros id. rewrite !list_elem_of_fmap. intros (r&->&Hr) (r'&E&Hr').
    apply list_elem_of_fmap in Hr as (r0&->&[_ (old&Hold&->)%elem_of_rows]%list_elem_of_filter).
    apply list_elem_of_fmap in Hr' as (f'&->&Hf'). cbn [the_delta fd_created] in Hf'.
    apply list_elem_of_fmap in Hf' as (f&->&[Hfresh _]%list_elem_of_filter).
    rewrite follow_id, !row_id_row in E. change (f_id (leaf f)) with (f_id f) in E.
    apply fresh_spec in Hfresh. apply Hfresh, elem_of_heads_id. by exists old.
  - cbn [the_delta fd_created]. rewrite <- !list_fmap_compose.
    eapply sublist_NoDup; [exact Hafter|]. unfold heads. rewrite <- list_fmap_compose.
    apply (fmap_sublist f_id), sublist_filter.
Qed.

Lemma followed_rows : apply_delta the_delta (rows self) ≡ₚ rows after.
Proof.
  apply NoDup_Permutation; [eapply NoDup_fmap_1, followed_nodup|by eapply NoDup_fmap_1, rows_nodup|].
  apply elem_of_followed.
Qed.
End delta.

Lemma bs_of_list_contains {K} `{KeyOrder K} `{EqDecision K} (l : list K) k : bs_contains k (bs_of_list l) = true <-> k ∈ l.
Proof.
  unfold bs_of_list. rewrite bs_contains_true. change (fold_left (fun s k => bs_insert k s) l []) with (bs_union [] l).
  rewrite elem_of_bs_union, elem_of_nil. tauto.
Qed.

Lemma change_to_cases self after :
  NoDup (fh_id <$> heads self) -> NoDup (fh_id <$> heads after) ->
  let before := bt_of_list ((fun folder => (f_id folder, folder)) <$> tree_iter self) in
  change_to self after =
    if same_shape self after then Same
    else if decide (Forall (stays_in before) (preorders after))
    then if decide (the_delta self after before = delta_default) then Reshaped else Delta (the_delta self after before)
    else Reshaped.
Proof.
  intros Hself Hafter before. pose proof (before_indexes _ Hself) as Hix. fold before in Hix.
  unfold change_to. fold before. destruct (same_shape self after); [done|].
  destruct (change_folders before delta_default (tree_iter after)) as [d|] eqn:E.
  - rewrite tree_iter_preorders in E. apply (change_folders_Some _ _ _ _ _ Hix) in E as [Hs ->].
    rewrite (decide_True (P := Forall _ _)) by done. cbn [fd_created fd_resubscribed delta_default app].
    assert (filter (fun folder => bs_contains (f_id folder) (bs_of_list (f_id <$> tree_iter after)) = false) (tree_iter self)
      = filter (fun f => f_id f ∉ fh_id <$> heads after) (preorders self)) as ->; [|done].
    rewrite !tree_iter_preorders. apply list_filter_iff. intros f.
    rewrite <- not_true_iff_false, bs_of_list_contains. unfold heads. by rewrite <- list_fmap_compose.
  - rewrite decide_False; [done|]. intros Hs.
    pose proof (proj2 (change_folders_Some before self delta_default (preorders after) _ Hix) (conj Hs eq_refl)) as E'.
    rewrite tree_iter_preorders in E. congruence.
Qed.

(** C38: the folder signals are enough to follow a new listing.  When [change_to] finds the
    same shape, the view has the same rows; when it gives a delta, a view that drops the
    destroyed folders, takes the new subscriptions and adds the created folders has exactly
    the rows of the new listing, the created folders are told parents first and the destroyed
    ones children first; and it asks for a full reload only when a folder kept its id but not
    its path, name or role, or when the rows are the same and only their order changed. *)
Theorem change_to_follows self after :
  NoDup (fh_id <$> heads self) -> NoDup (fh_id <$> heads after) ->
  match change_to self after with
  | Same => rows self = rows after
  | Delta d =>
      (apply_delta d (rows self) ≡ₚ rows after) /\
      (f_id <$> fd_created d = filter (fun id => id ∉ fh_id <$> heads self) (f_id <$> preorders after)) /\
      (f_id <$> fd_destroyed d = reverse (filter (fun id => id ∉ fh_id <$> heads after) (f_id <$> preorders self)))
  | Reshaped =>
      (exists old new, old ∈ preorders self /\ new ∈ preorders after /\ f_id old = f_id new /\
         row_place (row old) <> row_place (row new)) \/
      (rows self ≡ₚ rows after)
  end.
Proof.
  intros Hself Hafter. rewrite (change_to_cases _ _ Hself Hafter).
  set (before := bt_of_list _). pose proof (before_indexes _ Hself) as Hix. fold before in Hix.
  destruct (same_shape self after) eqn:Es; [by apply same_shape_rows|].
  destruct (decide (Forall (stays_in before) (preorders after))) as [Hs|Hs].
  - pose proof (followed_rows self after before Hself Hafter Hix Hs) as Hrows.
    destruct (decide (the_delta self after before = delta_default)) as [Hd|Hd].
    + right. rewrite <- Hrows, Hd. unfold apply_delta, follow. cbn. rewrite app_nil_r.
      rewrite filter_all by (intros r _; apply not_elem_of_nil). by rewrite list_fmap_id.
    + split_and!; [done|..]; cbn [the_delta fd_created fd_destroyed].
      * rewrite <- list_fmap_compose. change (f_id ∘ leaf) with f_id. rewrite filter_fmap. f_equal.
        apply list_filter_iff. intros f. by apply fresh_spec.
      * rewrite fmap_reverse, <- list_fmap_compose. change (f_id ∘ leaf) with f_id. by rewrite filter_fmap.
  - left. apply not_Forall_Exists, Exists_exists in Hs as (new&Hnew&Hn); [|apply _].
    destruct (bt_get (f_id new) before) as [old|] eqn:E; [|destruct Hn; intros ??; congruence].
    pose proof E as [Hold Hid]%Hix. exists old, new. split_and!; [done..|]. intros Hp. destruct Hn. intros o Ho. congruence.
Qed.

(** ** An example: one folder destroyed, one created, one subscribed *)
Definition example_folder (id path : string) (subscribed : bool) (children : list FolderInfo) : FolderInfo :=
  Folder {| fh_id := lit id; fh_path := lit path; fh_display_name := lit path; fh_role := None; fh_total := 0;
            fh_unread := 0; fh_subscribed := subscribed; fh_may_add_items := None; fh_account_id := None |} children.

Definition example_before : FolderTree :=
  [example_folder "a" "A" true [example_folder "b" "A/B" true []]; example_folder "c" "C" false []].

Definition example_after : FolderTree :=
  [example_folder "a" "A" true []; example_folder "c" "C" true [example_folder "d" "C/D" true []]].

Lemma change_to_follows_witness :
  (exists d, change_to example_before example_after = Delta d /\ (apply_delta d (rows example_before) ≡ₚ rows example_after)).
Proof.
  assert (NoDup (fh_id <$> heads example_before)) as Hb by by_decide.
  assert (NoDup (fh_id <$> heads example_after)) as Ha by by_decide.
  pose proof (change_to_follows _ _ Hb Ha) as H.
  destruct (change_to example_before example_after) as [|d|] eqn:E; [vm_compute in E; discriminate| |vm_compute in E; discriminate].
  exists d. split; [reflexivity|exact (proj1 H)].
Defined.
