(* ===== verification/Session.v ===== *)
(** The session object (jmap-proto/src/session.rs): which account serves a capability, and
    the limits that the server announces. *)

From Stdlib Require Import Ascii String.
From stdpp Require Import prelude strings.
From S2P Require Import Prelude BTree Text Strings Json Proto Wire.

Local Open Scope rust_scope.

Record Account := {
  ac_name : text;
  ac_is_personal : bool;
  ac_is_read_only : bool;
  ac_account_capabilities : btmap text Value;
  ac_extra : btmap text Value;
}.

Record Session := {
  ss_capabilities : btmap text Value;
  ss_accounts : btmap Id Account;
  ss_primary_accounts : btmap text Id;
  ss_username : text;
  ss_api_url : text;
  ss_download_url : text;
  ss_upload_url : text;
  ss_event_source_url : text;
  ss_state : State;
  ss_extra : btmap text Value;
}.

Definition CAPABILITY_CORE : text := lit "urn:ietf:params:jmap:core".
Definition CAPABILITY_MAIL : text := lit "urn:ietf:params:jmap:mail".

(** [Account::has_capability]. *)
Definition account_has_capability (account : Account) (capability : text) : bool :=
  bt_contains capability (ac_account_capabilities account).

(** The first candidate, if there is no second. *)
Definition sole_personal_account (session : Session) (capability : text) : option Id :=
  match filter (fun kv => ac_is_personal kv.2 && bt_contains capability (ac_account_capabilities kv.2) = true)
          (ss_accounts session) with
  | [(id, _)] => Some id
  | _ => None
  end.

Definition resolve_primary_account (session : Session) (capability : text) : option Id :=
  if bt_contains capability (ss_capabilities session) then
    let! id :=
      match bt_get capability (ss_primary_accounts session) with
      | Some id => Some id
      | None => sole_personal_account session capability
      end in
    let! account := bt_get id (ss_accounts session) in
    if bt_contains capability (ac_account_capabilities account) then Some id else None
  else None.

Definition core_limit (session : Session) (key : text) : option N :=
  let! core := bt_get CAPABILITY_CORE (ss_capabilities session) in
  let! limit := value_get core key in
  as_u64 limit.

Definition max_objects_in_get (session : Session) : option N := core_limit session (lit "maxObjectsInGet").
Definition max_calls_in_request (session : Session) : option N := core_limit session (lit "maxCallsInRequest").
Definition max_size_request (session : Session) : option N := core_limit session (lit "maxSizeRequest").
Definition max_size_upload (session : Session) : option N := core_limit session (lit "maxSizeUpload").
Definition max_concurrent_upload (session : Session) : option N := core_limit session (lit "maxConcurrentUpload").
Definition max_concurrent_requests (session : Session) : option N := core_limit session (lit "maxConcurrentRequests").
Definition max_objects_in_set (session : Session) : option N := core_limit session (lit "maxObjectsInSet").

(** ** What a resolved account is *)
Lemma resolve_primary_account_Some session capability id :
  resolve_primary_account session capability = Some id ->
  exists account, bt_get id (ss_accounts session) = Some account /\ account_has_capability account capability = true.
Proof.
  unfold resolve_primary_account. destruct (bt_contains capability (ss_capabilities session)); [|done].
  intros (id'&_&(account&Hget&Hcap)%bind_Some)%bind_Some. unfold account_has_capability.
  destruct (bt_contains capability (ac_account_capabilities account)) eqn:E; [|done].
  injection Hcap as ->. eauto.
Qed.
