(* ===== verification/ClientGet.v ===== *)
(** Chunked [/get] calls (jmap-client/src/client.rs: [get_chunked], [chunked_get_custom],
    [ids_that_fit], [keep_requested]): one logical [/get] of any number of ids is sent as
    calls that keep to the session's [maxSizeRequest] and [maxObjectsInGet]. *)

From Stdlib Require Import Ascii String.
From stdpp Require Import prelude strings.
From S2P Require Import Prelude BTree Text Strings Json Proto Session.

Local Open Scope rust_scope.

(** The octets of a JSON string, as [serde_json::to_string] writes it: short escapes for the
    quote, the backslash and five control characters, [\u00XX] for the other ones. *)
Definition json_char_len (c : ascii) : N :=
  if bool_decide (c ∈ [ascii_of_N 34; ascii_of_N 92; ascii_of_N 8; ascii_of_N 9; ascii_of_N 10; ascii_of_N 12; ascii_of_N 13])
  then 2%N
  else if (N_of_ascii c <? 32)%N then 6%N else 1%N.

Definition json_string_len (t : text) : N := (2 + foldr (fun c n => json_char_len c + n) 0 t)%N.

(** [ids_that_fit]: how many of [ids] fit, after an envelope of [used] octets. *)
Fixpoint fit_loop (limit : N) (taken : nat) (used : N) (ids : list Id) : result nat Error :=
  match ids with
  | [] => Ok taken
  | id :: ids =>
      let cost := (json_string_len id + (if decide (taken = 0%nat) then 0 else 1))%N in
      if (limit <? used + cost)%N then
        if decide (taken = 0%nat) then Err (RequestTooLarge (used + cost) limit) else Ok taken
      else fit_loop limit (S taken) (used + cost) ids
  end.

Definition ids_that_fit (limit empty_len : N) (ids : list Id) : result nat Error :=
  if (limit <? empty_len)%N then Err (RequestTooLarge empty_len limit)
  else fit_loop limit 0 empty_len ids.

(** [keep_requested]: the objects with a requested id, and the first one without an id. *)
Fixpoint keep_requested {T} (id_of : T -> option Id) (requested : list Id) (kept_one_without_id : bool) (l : list T) : list T :=
  match l with
  | [] => []
  | object :: l =>
      match id_of object with
      | Some id =>
          if decide (id ∈ requested) then object :: keep_requested id_of requested kept_one_without_id l
          else keep_requested id_of requested kept_one_without_id l
      | None =>
          if kept_one_without_id then keep_requested id_of requested true l
          else object :: keep_requested id_of requested true l
      end
  end.

(** The limit of [maxObjectsInGet] that the chunking uses: zero counts as no limit. *)
Definition object_limit (session : Session) : option nat :=
  let! limit := max_objects_in_get session in
  if (0 <? limit)%N then Some (N.to_nat limit) else None.

Section chunked_get.
Context {W T : Type}.
(** One call: the request for a chunk, sent and read. *)
Variable get_call : W -> list Id -> W * result (GetResponse T) Error.
(** The octets of the next request with an empty id list. *)
Variable envelope_len : W -> N.
Variable id_of : T -> option Id.
Variable session : Session.

Definition take_of (w : W) (rest : list Id) : result nat Error :=
  let? take :=
    match max_size_request session with
    | Some limit => ids_that_fit limit (envelope_len w) rest
    | None => Ok (length rest)
    end in
  Ok (match object_limit session with Some max => Nat.min take max | None => take end).

Definition add_chunk (combined : option (GetResponse T)) (chunk : list Id) (response : GetResponse T) : GetResponse T :=
  let list := keep_requested id_of chunk false (gr_list response) in
  let not_found := keep_requested Some chunk false (gr_not_found response) in
  match combined with
  | None =>
      {| gr_account_id := gr_account_id response; gr_state := gr_state response; gr_list := list; gr_not_found := not_found |}
  | Some c =>
      {| gr_account_id := gr_account_id c; gr_state := gr_state response;
         gr_list := gr_list c ++ list; gr_not_found := gr_not_found c ++ not_found |}
  end.

(** The loop, with the number of rounds as fuel; [None] is running out of it. *)
Fixpoint chunk_loop (fuel : nat) (w : W) (rest : list Id) (combined : option (GetResponse T))
  : option (W * result (GetResponse T) Error) :=
  match fuel with
  | O => None
  | S fuel =>
      match take_of w rest with
      | Err e => Some (w, Err e)
      | Ok take =>
          let '(w, answer) := get_call w (firstn take rest) in
          match answer with
          | Err e => Some (w, Err e)
          | Ok response =>
              let combined := add_chunk combined (firstn take rest) response in
              match skipn take rest with
              | [] => Some (w, Ok combined)
              | rest => chunk_loop fuel w rest (Some combined)
              end
          end
      end
  end.

Definition get_chunked (w : W) (ids : list Id) : option (W * result (GetResponse T) Error) :=
  chunk_loop (S (length ids)) w ids None.

(** ** A chunk is never empty, unless nothing is asked *)
Lemma fit_loop_taken limit taken used ids n : fit_loop limit taken used ids = Ok n -> (taken <= n <= taken + length ids)%nat.
Proof.
  revert taken used. induction ids as [|id ids IH]; intros taken used; cbn [fit_loop length]; [intros [= <-]; lia|].
  destruct (_ <? _)%N; [case_decide; [done|intros [= <-]; lia]|]. intros H%IH. lia.
Qed.

Lemma fit_loop_pos limit used id ids n : fit_loop limit 0 used (id :: ids) = Ok n -> (1 <= n <= S (length ids))%nat.
Proof.
  cbn [fit_loop]. rewrite decide_True by done. destruct (_ <? _)%N; [done|]. intros H%fit_loop_taken. lia.
Qed.

Lemma take_of_range w rest n : take_of w rest = Ok n -> (n <= length rest)%nat /\ (rest <> [] -> (1 <= n)%nat).
Proof.
  unfold take_of. intros (take&Ht&[= <-])%rbind_ok.
  assert ((take <= length rest)%nat /\ (rest <> [] -> (1 <= take)%nat)) as [Hle Hpos].
  { destruct (max_size_request session) as [limit|]; [|simplify_eq; split; [done|]; destruct rest; cbn; [done|lia]].
    unfold ids_that_fit in Ht. destruct (_ <? _)%N; [done|]. destruct rest as [|id rest].
    - cbn in Ht. simplify_eq. split; [done|done].
    - apply fit_loop_pos in Ht. cbn [length]. split; [lia|intros _; lia]. }
  unfold object_limit. destruct (max_objects_in_get session) as [limit|]; cbn [mbind option_bind]; [|done].
  destruct (N.ltb_spec 0 limit); [|done]. split; [lia|]. intros Hne. specialize (Hpos Hne). lia.
Qed.
End chunked_get.

(** The octets that the ids of a chunk add to its request, [taken] ids in: a comma precedes
    each but the first. *)
Fixpoint ids_cost (taken : nat) (ids : list Id) : N :=
  match ids with
  | [] => 0
  | id :: ids => json_string_len id + (if decide (taken = 0%nat) then 0 else 1) + ids_cost (S taken) ids
  end%N.

Lemma ids_cost_firstn taken m n ids : (m <= n)%nat -> (ids_cost taken (firstn m ids) <= ids_cost taken (firstn n ids))%N.
Proof.
  revert taken m n. induction ids as [|id ids IH]; intros taken m n Hle; [by rewrite !firstn_nil|].
  destruct m as [|m]; [cbn; lia|]. destruct n as [|n]; [lia|]. cbn [firstn ids_cost].
  specialize (IH (S taken) m n). lia.
Qed.

Lemma fit_loop_size limit taken used ids n :
  fit_loop limit taken used ids = Ok n -> (used <= limit)%N -> (used + ids_cost taken (firstn (n - taken) ids) <= limit)%N.
Proof.
  revert taken used. induction ids as [|id ids IH]; intros taken used Hfit Hused.
  - rewrite firstn_nil. cbn. lia.
  - pose proof (fit_loop_taken _ _ _ _ _ Hfit) as Hn. cbn [fit_loop] in Hfit. revert Hfit.
    destruct (N.ltb_spec limit (used + (json_string_len id + (if decide (taken = 0%nat) then 0 else 1)))%N).
    + case_decide; [done|]. intros [= <-]. rewrite Nat.sub_diag. cbn. lia.
    + intros Hfit. pose proof (fit_loop_taken _ _ _ _ _ Hfit). specialize (IH _ _ Hfit ltac:(lia)).
      replace (n - taken)%nat with (S (n - S taken)) by lia. cbn [firstn ids_cost]. lia.
Qed.

Section requests.
Context {W T : Type}.
Variable get_call : W -> list Id -> W * result (GetResponse T) Error.
Variable envelope_len : W -> N.
Variable id_of : T -> option Id.
Variable session : Session.

(** The call, with the requests sent so far kept beside the world. *)
Definition traced (w : W * list (W * list Id)) (chunk : list Id) : (W * list (W * list Id)) * result (GetResponse T) Error :=
  let '(w', answer) := get_call w.1 chunk in ((w', w.2 ++ [(w.1, chunk)]), answer).

(** A request within the limits that the session announces. *)
Definition request_ok (sent : W * list Id) : Prop :=
  (forall limit, max_size_request session = Some limit -> (envelope_len sent.1 + ids_cost 0 sent.2 <= limit)%N) /\
  (forall limit, object_limit session = Some limit -> (length sent.2 <= limit)%nat).

Lemma take_of_request w rest n : take_of envelope_len session w rest = Ok n -> request_ok (w, firstn n rest).
Proof.
  intros Htake. split; cbn [fst snd].
  - intros limit Hlimit. unfold take_of in Htake. rewrite Hlimit in Htake. apply rbind_ok in Htake as (take&Hfit&[= <-]).
    unfold ids_that_fit in Hfit. destruct (N.ltb_spec limit (envelope_len w)) as [|Hle]; [done|].
    pose proof (fit_loop_size _ _ _ _ _ Hfit Hle) as Hsize. rewrite Nat.sub_0_r in Hsize.
    etrans; [|exact Hsize]. apply N.add_le_mono_l, ids_cost_firstn. destruct (object_limit session); lia.
  - intros limit Hlimit. unfold take_of in Htake. rewrite Hlimit in Htake.
    apply rbind_ok in Htake as (take&_&[= <-]). rewrite length_firstn. lia.
Qed.

Lemma chunk_loop_requests fuel w log rest combined :
  (length rest < fuel)%nat -> Forall request_ok log ->
  exists w' log' answer,
    chunk_loop traced (fun w => envelope_len w.1) id_of session fuel (w, log) rest combined = Some ((w', log ++ log'), answer) /\
    Forall request_ok log' /\ concat (snd <$> log') `prefix_of` rest /\
    (is_ok answer = true -> concat (snd <$> log') = rest) /\
    (rest <> [] -> Forall (fun sent => sent.2 <> []) log').
Proof using Type.
  revert w log rest combined. induction fuel as [|fuel IH]; intros w log rest combined Hfuel Hlog; [lia|].
  cbn [chunk_loop].
  assert (take_of (fun w : W * list (W * list Id) => envelope_len w.1) session (w, log) rest = take_of envelope_len session w rest) as -> by done.
  destruct (take_of envelope_len session w rest) as [n|e] eqn:Htake; cycle 1.
  { exists w, [], (Err e). rewrite app_nil_r. split_and!; [done|constructor|apply prefix_nil|done|constructor]. }
  pose proof (take_of_range _ _ _ _ _ Htake) as [Hn Hpos]. pose proof (take_of_request _ _ _ Htake) as Hreq.
  unfold traced at 1. cbn [fst snd]. destruct (get_call w (firstn n rest)) as [w' [response|e]] eqn:Hcall; cycle 1.
  { exists w', [(w, firstn n rest)], (Err e). cbn. rewrite app_nil_r. split_and!; try done; [by constructor|apply prefix_take|].
    intros Hne. constructor; [|constructor]. cbn. specialize (Hpos Hne). destruct rest; [done|]. destruct n; [lia|done]. }
  destruct (skipn n rest) as [|id rest'] eqn:Hskip.
  - eexists w', [(w, firstn n rest)], (Ok _). cbn. rewrite app_nil_r.
    assert (firstn n rest = rest) as Hall by (rewrite <-(firstn_skipn n rest) at 2; by rewrite Hskip, app_nil_r).
    rewrite Hall. rewrite Hall in Hreq. split_and!; try done; [by constructor|]. intros Hne. by constructor.
  - assert (rest <> []) as Hne by (intros ->; by rewrite skipn_nil in Hskip).
    assert (length (id :: rest') < fuel)%nat as Hlt by (rewrite <-Hskip, length_skipn; specialize (Hpos Hne); lia).
    destruct (IH w' (log ++ [(w, firstn n rest)]) (id :: rest') (Some (add_chunk id_of combined (firstn n rest) response)) Hlt)
      as (w''&log'&answer&Hloop&Hok&Hpre&Hfull&Hnon); [apply Forall_app; by split; [|constructor]|].
    exists w'', ((w, firstn n rest) :: log'), answer. rewrite Hloop, <-app_assoc. cbn.
    assert (firstn n rest ++ id :: rest' = rest) as Hsplit by (rewrite <-Hskip; apply firstn_skipn).
    split_and!; [done|by constructor| | |].
    + pose proof (prefix_app (firstn n rest) _ _ Hpre) as Hp. by rewrite Hsplit in Hp.
    + intros Hans. by rewrite (Hfull Hans).
    + intros _. constructor; [|by apply Hnon]. cbn. specialize (Hpos Hne). destruct rest; [done|]. destruct n; [lia|done].
Qed.

(** C35: A chunked [/get] always returns, after requests that each keep to [maxSizeRequest]
    and [maxObjectsInGet]. The requests ask for the ids in order, each position once and, if
    there are ids, at least one at a time; the call succeeds only after it has asked for all
    of them. *)
Theorem get_chunked_requests w ids :
  exists w' sent answer,
    get_chunked traced (fun w => envelope_len w.1) id_of session (w, []) ids = Some ((w', sent), answer) /\
    Forall request_ok sent /\ concat (snd <$> sent) `prefix_of` ids /\
    (is_ok answer = true -> concat (snd <$> sent) = ids) /\
    (ids <> [] -> Forall (fun call => call.2 <> []) sent).
Proof using Type.
  destruct (chunk_loop_requests (S (length ids)) w [] ids None) as (w'&log&answer&H); [lia|constructor|].
  by exists w', log, answer.
Qed.
End requests.

(** ** The answer *)
Lemma keep_ids ids requested : ids ⊆ requested -> keep_requested Some requested false ids = ids.
Proof.
  induction ids as [|id ids IH]; intros Hsub; [done|]. cbn. rewrite decide_True by set_solver.
  f_equal. apply IH. set_solver.
Qed.

Section answers.
Context {W T : Type}.
Variable get_call : W -> list Id -> W * result (GetResponse T) Error.
Variable envelope_len : W -> N.
Variable id_of : T -> option Id.
Variable session : Session.
Variable find : Id -> option T.
Variable account_id : Id.
Variable state : State.

(** The answer of RFC 8620 §5.1 to a [/get] of the ids. *)
Definition full_answer (ids : list Id) : GetResponse T :=
  {| gr_account_id := account_id; gr_state := state; gr_list := omap find ids;
     gr_not_found := filter (fun id => find id = None) ids |}.

Hypothesis find_id : forall id v, find id = Some v -> id_of v = Some id.
Lemma keep_found chunk requested :
  chunk ⊆ requested -> keep_requested id_of requested false (omap find chunk) = omap find chunk.
Proof using find_id.
  induction chunk as [|id chunk IH]; intros Hsub; [done|]. cbn.
  destruct (find id) as [v|] eqn:E; [|apply IH; set_solver]. cbn. rewrite (find_id _ _ E).
  rewrite decide_True by set_solver. f_equal. apply IH. set_solver.
Qed.

Lemma add_chunk_full done chunk :
  add_chunk id_of (Some (full_answer done)) chunk (full_answer chunk) = full_answer (done ++ chunk).
Proof using find_id.
  unfold add_chunk, full_answer. cbn. rewrite keep_found, keep_ids, omap_app, filter_app; [done| |done].
  intros id. rewrite list_elem_of_filter. tauto.
Qed.

Lemma add_chunk_first chunk : add_chunk id_of None chunk (full_answer chunk) = full_answer chunk.
Proof using find_id.
  unfold add_chunk, full_answer. cbn. rewrite keep_found, keep_ids; [done| |done].
  intros id. rewrite list_elem_of_filter. tauto.
Qed.

(** Each id fits in a request of its own. *)
Definition each_fits (ids : list Id) : Prop :=
  forall limit w, max_size_request session = Some limit ->
    (envelope_len w <= limit)%N /\ Forall (fun id => (envelope_len w + json_string_len id <= limit)%N) ids.

Lemma fit_loop_ok limit taken used ids : (0 < taken)%nat -> is_ok (fit_loop limit taken used ids) = true.
Proof using Type.
  revert taken used. induction ids as [|id ids IH]; intros taken used Hpos; cbn [fit_loop]; [done|].
  destruct (_ <? _)%N; [by rewrite decide_False by lia|]. apply IH. lia.
Qed.

Lemma take_of_ok w ids : each_fits ids -> exists n, take_of envelope_len session w ids = Ok n.
Proof using Type.
  intros Hfits. unfold take_of. destruct (max_size_request session) as [limit|] eqn:E; [|by eexists].
  destruct (Hfits limit w E) as [Hlen Hids]. unfold ids_that_fit. destruct (N.ltb_spec limit (envelope_len w)); [lia|].
  assert (is_ok (fit_loop limit 0 (envelope_len w) ids) = true) as Hok.
  { destruct Hids as [|id ids Hid _]; [done|]. cbn [fit_loop]. rewrite decide_True by done.
    destruct (N.ltb_spec limit (envelope_len w + (json_string_len id + 0))%N); [lia|]. apply fit_loop_ok. lia. }
  destruct (fit_loop limit 0 (envelope_len w) ids); [by eexists|done].
Qed.

(** The server, while it is in a [good] state, answers each request that keeps to
    [maxObjectsInGet]. *)
Variable good : W -> Prop.
Hypothesis answered : forall w chunk,
  good w -> (forall limit, object_limit session = Some limit -> (length chunk <= limit)%nat) ->
  exists w', get_call w chunk = (w', Ok (full_answer chunk)) /\ good w'.

Lemma chunk_loop_answer fuel w done rest combined :
  good w -> (length rest < fuel)%nat -> each_fits rest ->
  (combined = None /\ done = [] \/ combined = Some (full_answer done)) ->
  exists w', chunk_loop get_call envelope_len id_of session fuel w rest combined = Some (w', Ok (full_answer (done ++ rest))) /\ good w'.
Proof using answered find_id.
  revert w done rest combined. induction fuel as [|fuel IH]; intros w done rest combined Hgood Hfuel Hfits Hcomb; [lia|].
  cbn [chunk_loop]. destruct (take_of_ok w rest Hfits) as [n Htake]. rewrite Htake.
  pose proof (take_of_range _ _ _ _ _ Htake) as [Hn Hpos].
  pose proof (take_of_request _ _ _ _ _ Htake) as [_ Hlimit]. cbn [fst snd] in Hlimit.
  destruct (answered w _ Hgood Hlimit) as (w'&Hcall&Hgood'). rewrite Hcall.
  assert (add_chunk id_of combined (firstn n rest) (full_answer (firstn n rest)) = full_answer (done ++ firstn n rest)) as ->.
  { destruct Hcomb as [[-> ->]| ->]; [apply add_chunk_first|apply add_chunk_full]. }
  destruct (skipn n rest) as [|id rest'] eqn:Hskip.
  - exists w'. split; [|done]. do 4 f_equal. rewrite <-(firstn_skipn n rest) at 2. by rewrite Hskip, app_nil_r.
  - assert (rest <> []) as Hne by (intros ->; by rewrite skipn_nil in Hskip).
    assert (firstn n rest ++ id :: rest' = rest) as Hsplit by (rewrite <-Hskip; apply firstn_skipn).
    destruct (IH w' (done ++ firstn n rest) (id :: rest') (Some (full_answer (done ++ firstn n rest)))) as (w''&Hloop&Hgood'').
    + done.
    + rewrite <-Hskip, length_skipn. specialize (Hpos Hne). lia.
    + intros limit w0 E. destruct (Hfits limit w0 E) as [Hl Hf]. split; [done|].
      rewrite <-Hsplit in Hf. by apply Forall_app in Hf as [_ Hf].
    + by right.
    + exists w''. split; [|done]. by rewrite Hloop, <-app_assoc, Hsplit.
Qed.

(** Splitting a [/get] does not change its answer. If the server answers the requests
    within its limits, and each id fits in a request of its own, the combined answer of the
    chunks is the answer to one [/get] of all the ids. *)
Theorem get_chunked_answer w ids :
  good w -> each_fits ids ->
  exists w', get_chunked get_call envelope_len id_of session w ids = Some (w', Ok (full_answer ids)) /\ good w'.
Proof using answered find_id. intros Hgood Hfits. apply (chunk_loop_answer _ w [] ids None); [done|lia|done|by left]. Qed.
End answers.

(** Two of three messages found, asked for two at a time. *)
Definition two_at_a_time : Session :=
  {| ss_capabilities := [(CAPABILITY_CORE, Object [(lit "maxObjectsInGet", Number (lit "2")); (lit "maxSizeRequest", Number (lit "60"))])];
     ss_accounts := []; ss_primary_accounts := []; ss_username := []; ss_api_url := []; ss_download_url := [];
     ss_upload_url := []; ss_event_source_url := []; ss_state := []; ss_extra := [] |}.

Definition find_known (id : Id) : option Id := if decide (id ∈ [lit "a"; lit "c"]) then Some id else None.

Lemma get_chunked_answer_witness :
  exists w', get_chunked (fun (w : nat) chunk => (S w, Ok (full_answer find_known (lit "A") (lit "s") chunk))) (fun _ => 50%N) Some
    two_at_a_time 0%nat [lit "a"; lit "b"; lit "c"] =
  Some (w', Ok (full_answer find_known (lit "A") (lit "s") [lit "a"; lit "b"; lit "c"])) /\ True.
Proof.
  apply (get_chunked_answer _ _ _ _ find_known (lit "A") (lit "s")) with (good := fun _ => True).
  - intros id v. unfold find_known. case_decide; [congruence|done].
  - intros w chunk _ _. by eexists.
  - done.
  - intros limit w [= <-]. split; [lia|]. repeat constructor; vm_compute; discriminate.
Defined.
