(* ===== verification/Tarjan.v ===== *)
(** The order of the creates of a [/set] (jmap-client/src/set.rs: [Tarjan],
    [sort_creation_components]): the strongly connected components of the graph of creation
    references, each one after the components that it refers to. *)

From Stdlib Require Import Ascii String.
From stdpp Require Import prelude strings gmap sorting.
From S2P Require Import Prelude BTree Text Strings Json Proto.

Local Open Scope rust_scope.

(** The vectors [stack] and [sccs]: the stack has its top at the head of the list. *)
Record Tarjan := {
  tj_index : nat;
  tj_indices : gmap text nat;
  tj_lowlink : gmap text nat;
  tj_on_stack : gset text;
  tj_stack : list text;
  tj_sccs : list (list text);
}.

Definition tarjan_new : Tarjan :=
  {| tj_index := 0; tj_indices := ∅; tj_lowlink := ∅; tj_on_stack := ∅; tj_stack := []; tj_sccs := [] |}.

(** The first five statements of [strongconnect]. *)
Definition enter (t : Tarjan) (node : text) : Tarjan :=
  {| tj_index := S (tj_index t);
     tj_indices := <[node := tj_index t]> (tj_indices t);
     tj_lowlink := <[node := tj_index t]> (tj_lowlink t);
     tj_on_stack := {[node]} ∪ tj_on_stack t;
     tj_stack := node :: tj_stack t;
     tj_sccs := tj_sccs t |}.

Definition set_lowlink (t : Tarjan) (node : text) (low : nat) : Tarjan :=
  {| tj_index := tj_index t; tj_indices := tj_indices t; tj_lowlink := <[node := low]> (tj_lowlink t);
     tj_on_stack := tj_on_stack t; tj_stack := tj_stack t; tj_sccs := tj_sccs t |}.

(** The low link of [node] becomes the minimum of itself and [low]. *)
Definition lower (t : Tarjan) (node : text) (low : nat) : option Tarjan :=
  let! node_low := tj_lowlink t !! node in
  Some (set_lowlink t node (Nat.min node_low low)).

(** [while let Some(w) = self.stack.pop()]. *)
Fixpoint pop_component (node : text) (stack : list text) (on_stack : gset text) (scc : list text)
  : list text * gset text * list text :=
  match stack with
  | [] => (stack, on_stack, scc)
  | w :: stack =>
      let on_stack := on_stack ∖ {[w]} in
      let scc := scc ++ [w] in
      if decide (w = node) then (stack, on_stack, scc) else pop_component node stack on_stack scc
  end.

Definition leave (t : Tarjan) (node : text) : option Tarjan :=
  let! low := tj_lowlink t !! node in
  let! index := tj_indices t !! node in
  if decide (low = index) then
    let '(stack, on_stack, scc) := pop_component node (tj_stack t) (tj_on_stack t) [] in
    Some {| tj_index := tj_index t; tj_indices := tj_indices t; tj_lowlink := tj_lowlink t;
            tj_on_stack := on_stack; tj_stack := stack; tj_sccs := tj_sccs t ++ [scc] |}
  else Some t.

Section tarjan.
(** The references of each create, in the order in which its hash set is iterated. *)
Variable dependencies : gmap text (list text).

(** One iteration of [for dep in deps], with the recursive call as an argument. *)
Definition visit (strongconnect : Tarjan -> text -> option Tarjan) (node : text) (t : Tarjan) (dep : text) : option Tarjan :=
  if decide (is_Some (tj_indices t !! dep)) then
    if decide (dep ∈ tj_on_stack t) then
      let! dep_index := tj_indices t !! dep in
      lower t node dep_index
    else Some t
  else
    let! t := strongconnect t dep in
    let! dep_low := tj_lowlink t !! dep in
    lower t node dep_low.

Fixpoint visit_all (strongconnect : Tarjan -> text -> option Tarjan) (node : text) (t : Tarjan) (deps : list text) : option Tarjan :=
  match deps with
  | [] => Some t
  | dep :: deps =>
      let! t := visit strongconnect node t dep in
      visit_all strongconnect node t deps
  end.

(** [strongconnect], with the depth of the recursion as fuel. [None] is running out of it,
    or a panic of an index into a map. *)
Fixpoint strongconnect (fuel : nat) (t : Tarjan) (node : text) : option Tarjan :=
  match fuel with
  | O => None
  | S fuel =>
      let! t := visit_all (strongconnect fuel) node (enter t node) (default [] (dependencies !! node)) in
      leave t node
  end.

Fixpoint connect_all (fuel : nat) (t : Tarjan) (nodes : list text) : option Tarjan :=
  match nodes with
  | [] => Some t
  | node :: nodes =>
      if decide (is_Some (tj_indices t !! node)) then connect_all fuel t nodes
      else
        let! t := strongconnect fuel t node in
        connect_all fuel t nodes
  end.
End tarjan.

Definition cycle_error (scc : list text) (limit : nat) : Error :=
  ChunkBoundaryReferenceBroken (default [] (head scc))
    (lit "dependency cycle of size " ++ to_dec (N.of_nat (length scc)) ++
     lit " exceeds maxObjectsInSet limit " ++ to_dec (N.of_nat limit)).

(** [sort_creation_components]; the recursion is at most as deep as there are nodes. *)
Definition sort_creation_components (nodes : list text) (dependencies : gmap text (list text)) (limit : nat)
  : option (result (list (list text)) Error) :=
  let! tarjan := connect_all dependencies (S (length nodes)) tarjan_new nodes in
  Some (match find (fun scc => (limit <? length scc)%nat) (tj_sccs tarjan) with
        | Some scc => Err (cycle_error scc limit)
        | None => Ok (tj_sccs tarjan)
        end).

(** ** Correctness *)
Section correctness.
Variable dependencies : gmap text (list text).
(** The nodes of the graph. *)
Variable U : gset text.

Definition edge (x y : text) : Prop := y ∈ default [] (dependencies !! x).
Abbreviation reach := (rtc edge) (only parsing).
Definition mutual (x y : text) : Prop := reach x y /\ reach y x.

(** Each reference goes to the same component or an earlier one. *)
Definition references_back (sccs : list (list text)) : Prop :=
  forall pre c post, sccs = pre ++ c :: post -> forall x y, x ∈ c -> edge x y -> y ∈ c \/ y ∈ concat pre.

Definition strongly_connected (c : list text) : Prop := forall x y, x ∈ c -> y ∈ c -> mutual x y.

(** The index of [x] is [i]. *)
Abbreviation at_ t x i := (tj_indices t !! x = Some i) (only parsing).

Record tarjan_ok (t : Tarjan) : Prop := {
  to_nodes : forall x, is_Some (tj_indices t !! x) -> x ∈ U;
  to_dom : forall x, is_Some (tj_indices t !! x) <-> x ∈ tj_stack t \/ x ∈ concat (tj_sccs t);
  to_low : forall x, is_Some (tj_indices t !! x) -> is_Some (tj_lowlink t !! x);
  to_nodup : NoDup (tj_stack t ++ concat (tj_sccs t));
  to_on_stack : tj_on_stack t = list_to_set (tj_stack t);
  to_bound : forall x i, at_ t x i -> (i < tj_index t)%nat;
  to_sorted : forall above x below y i j, tj_stack t = above ++ x :: below -> y ∈ below -> at_ t x i -> at_ t y j -> (j < i)%nat;
  to_back : references_back (tj_sccs t);
  to_strong : Forall strongly_connected (tj_sccs t);
}.

(** What a run of [strongconnect] for [node] keeps, and what it leaves on the stack: the
    nodes [ext], which all reach each other, and whose references go to components that are
    emitted, to [ext], or to nodes deeper in the stack that are not below the low link. *)
Record extends (t t' : Tarjan) : Prop := {
  ex_indices : tj_indices t ⊆ tj_indices t';
  ex_low : forall x, is_Some (tj_indices t !! x) -> tj_lowlink t' !! x = tj_lowlink t !! x;
  ex_emitted : forall x, x ∈ concat (tj_sccs t) -> x ∈ concat (tj_sccs t');
}.

Definition settled (t : Tarjan) (ext below : list text) (low : nat) (y : text) : Prop :=
  y ∈ concat (tj_sccs t) \/ y ∈ ext \/ (y ∈ below /\ exists i, (at_ t y i) /\ (low <= i)%nat).

Record connected (t t' : Tarjan) (node : text) : Prop := {
  co_ok : tarjan_ok t';
  co_extends : extends t t';
  co_node : is_Some (tj_indices t' !! node);
  co_stack : exists ext low,
    tj_stack t' = ext ++ tj_stack t /\ tj_lowlink t' !! node = Some low /\
    Forall (mutual node) ext /\
    (forall x y, x ∈ ext -> edge x y -> settled t' ext (tj_stack t) low y) /\
    (ext = [] \/ exists y, y ∈ tj_stack t /\ (at_ t y low) /\ reach node y) /\
    (ext = [] -> forall y i, y ∈ tj_stack t -> at_ t y i -> (i < low)%nat);
}.

Lemma settled_mono t t' ext ext' below low low' y :
  extends t t' -> ext ⊆ ext' -> (low' <= low)%nat -> settled t ext below low y -> settled t' ext' below low' y.
Proof.
  intros [Hidx _ Hem] Hext Hlow [He|[He|(Hb&i&Hi&Hle)]]; [left; by apply Hem|right; left; by apply Hext|].
  right; right. split; [done|]. exists i. split; [by eapply lookup_weaken|lia].
Qed.

Lemma extends_trans t1 t2 t3 : extends t1 t2 -> extends t2 t3 -> extends t1 t3.
Proof.
  intros [Hi Hl He] [Hi' Hl' He']. split; [by etrans| |by auto].
  intros x Hx. rewrite Hl', Hl; [done|done|]. destruct Hx as [i Hx]. exists i. by eapply lookup_weaken.
Qed.

Lemma set_lowlink_ok t node low : tarjan_ok t -> tarjan_ok (set_lowlink t node low).
Proof.
  intros []. split; try done. intros x Hx. cbn. destruct (decide (x = node)) as [->|].
  - rewrite lookup_insert_eq. done.
  - rewrite lookup_insert_ne by done. auto.
Qed.

Lemma enter_ok t node : node ∈ U -> tarjan_ok t -> tj_indices t !! node = None -> tarjan_ok (enter t node).
Proof.
  intros HU [Hnodes Hdom Hlow Hnd Hon Hb Hs Hback Hstr] Hnew.
  assert ((node ∉ tj_stack t) /\ node ∉ concat (tj_sccs t)) as [Hnst Hnem].
  { split; intros Hin; assert (is_Some (tj_indices t !! node)) as [? ?] by (apply Hdom; auto); congruence. }
  split; cbn; try done.
  - intros x. destruct (decide (x = node)) as [->|Hne]; [done|]. rewrite lookup_insert_ne by done. apply Hnodes.
  - intros x. destruct (decide (x = node)) as [->|Hne].
    + rewrite lookup_insert_eq. split; [intros _; left; left|done].
    + rewrite lookup_insert_ne, Hdom, elem_of_cons by done. tauto.
  - intros x. destruct (decide (x = node)) as [->|Hne]; [rewrite !lookup_insert_eq; done|].
    rewrite !lookup_insert_ne by done. auto.
  - constructor; [|done]. rewrite elem_of_app. tauto.
  - by rewrite Hon.
  - intros x i. destruct (decide (x = node)) as [->|Hne]; [rewrite lookup_insert_eq; intros [= <-]; lia|].
    rewrite lookup_insert_ne by done. intros Hi%Hb. lia.
  - intros above x below y i j Hst Hy Hi Hj. destruct above as [|a above]; injection Hst as -> Hst.
    + subst below. rewrite lookup_insert_eq in Hi. injection Hi as <-.
      rewrite lookup_insert_ne in Hj by (intros ->; done). by apply Hb in Hj.
    + assert (x <> a /\ y <> a) as [Hxa Hya].
      { split; intros ->; apply Hnst; rewrite Hst; set_solver. }
      rewrite lookup_insert_ne in Hi, Hj by done. by eapply Hs.
Qed.

Lemma enter_extends t node : tj_indices t !! node = None -> extends t (enter t node).
Proof.
  intros Hnew. split; cbn; [by apply insert_subseteq| |done].
  intros x [i Hx]. rewrite lookup_insert_ne; [done|]. intros ->. congruence.
Qed.

Lemma pop_component_spec node ext below on_stack scc :
  node ∉ ext ->
  pop_component node (ext ++ node :: below) on_stack scc =
    (below, on_stack ∖ list_to_set (ext ++ [node]), scc ++ ext ++ [node]).
Proof.
  revert on_stack scc. induction ext as [|x ext IH]; intros on_stack scc Hn; cbn [pop_component app].
  - rewrite decide_True by done. do 2 f_equal. set_solver.
  - rewrite decide_False by set_solver. rewrite IH by set_solver. rewrite <-!app_assoc. cbn [app].
    do 2 f_equal. set_solver.
Qed.

(** ** The loop over the references of one node *)
Record looping (t0 t : Tarjan) (node : text) (seen ext : list text) (low : nat) : Prop := {
  lo_ok : tarjan_ok t;
  lo_extends : extends t0 t;
  lo_node : at_ t node (tj_index t0);
  lo_stack : tj_stack t = ext ++ node :: tj_stack t0;
  lo_low : tj_lowlink t !! node = Some low;
  lo_le : (low <= tj_index t0)%nat;
  lo_mutual : Forall (mutual node) ext;
  lo_edges : forall x y, x ∈ ext -> edge x y -> settled t (ext ++ [node]) (tj_stack t0) low y;
  lo_seen : forall y, y ∈ seen -> settled t (ext ++ [node]) (tj_stack t0) low y;
  lo_from : low = tj_index t0 \/ exists y, y ∈ tj_stack t0 /\ (at_ t0 y low) /\ reach node y;
}.

Lemma looping_enter t node : node ∈ U -> tarjan_ok t -> tj_indices t !! node = None -> looping t (enter t node) node [] [] (tj_index t).
Proof.
  intros HU Hok Hnew. split; cbn; try done.
  - by apply enter_ok.
  - by apply enter_extends.
  - apply lookup_insert_eq.
  - apply lookup_insert_eq.
  - set_solver.
  - set_solver.
  - by left.
Qed.

(** Where a node of the stack is, and its index. *)
Lemma looping_index t0 t node seen ext low y i :
  tarjan_ok t0 -> looping t0 t node seen ext low -> y ∈ tj_stack t -> at_ t y i ->
  (y ∈ ext ++ [node] /\ (tj_index t0 <= i)%nat) \/ (y ∈ tj_stack t0 /\ at_ t0 y i).
Proof.
  intros Hok0 [Hok Hex Hn Hst _ _ _ _ _ _] Hy Hi. rewrite Hst in Hy.
  apply elem_of_app in Hy as [Hy|Hy]; [|apply elem_of_cons in Hy as [->|Hy]].
  - left. split; [set_solver|]. apply list_elem_of_split in Hy as (above&below&->).
    assert (tj_index t0 < i)%nat; [|lia].
    eapply (to_sorted _ Hok above y (below ++ node :: tj_stack t0) node); [by rewrite Hst, <-app_assoc|set_solver|done..].
  - left. split; [set_solver|]. rewrite Hn in Hi. injection Hi as <-. lia.
  - right. split; [done|]. assert (is_Some (tj_indices t0 !! y)) as [j Hj] by (apply (to_dom _ Hok0); auto).
    rewrite (lookup_weaken _ _ _ _ Hj (ex_indices _ _ Hex)) in Hi. congruence.
Qed.

Lemma extends_set_low t0 t node low : extends t0 t -> tj_indices t0 !! node = None -> extends t0 (set_lowlink t node low).
Proof.
  intros [Hi Hl He] Hnew. split; cbn; [done| |done].
  intros x Hx. rewrite lookup_insert_ne; [auto|]. intros ->. rewrite Hnew in Hx. by destruct Hx.
Qed.

(** The low link of [node] is lowered to [low'], after a round that ends in [t1] with [ext']
    on the stack above it. *)
Lemma looping_lower t0 t t1 node seen ext ext' low low' dep :
  tj_indices t0 !! node = None ->
  looping t0 t node seen ext low ->
  tarjan_ok t1 -> extends t t1 -> tj_stack t1 = ext' ++ tj_stack t ->
  Forall (mutual node) ext' ->
  (forall x y, x ∈ ext' -> edge x y -> settled t1 (ext' ++ ext ++ [node]) (tj_stack t0) (Nat.min low low') y) ->
  settled t1 (ext' ++ ext ++ [node]) (tj_stack t0) (Nat.min low low') dep ->
  (low <= low' \/ exists y, y ∈ tj_stack t0 /\ (at_ t0 y low') /\ reach node y)%nat ->
  looping t0 (set_lowlink t1 node (Nat.min low low')) node (seen ++ [dep]) (ext' ++ ext) (Nat.min low low').
Proof.
  intros Hnew [Hok Hex Hn Hst Hlow Hle Hmut Hedge Hseen Hfrom] Hok1 Hex1 Hst1 Hmut1 Hedge1 Hdep Hfrom1.
  assert (forall y, settled t (ext ++ [node]) (tj_stack t0) low y ->
                    settled t1 (ext' ++ ext ++ [node]) (tj_stack t0) (Nat.min low low') y) as Hmono.
  { intros y. apply settled_mono; [done|set_solver|lia]. }
  split; rewrite <-?app_assoc; try (intros *; change (settled (set_lowlink ?t _ _)) with (settled t)).
  - by apply set_lowlink_ok.
  - apply extends_set_low; [|done]. by eapply extends_trans.
  - cbn. by eapply lookup_weaken, ex_indices.
  - cbn. by rewrite Hst1, Hst.
  - cbn. apply lookup_insert_eq.
  - lia.
  - by apply Forall_app.
  - intros [Hx|Hx]%elem_of_app Hxy; [by eapply Hedge1|]. apply Hmono. by eapply Hedge.
  - intros [Hx|Hx]%elem_of_app; [by apply Hmono, Hseen|]. apply list_elem_of_singleton in Hx as ->. done.
  - destruct Hfrom1 as [Hle1|Hfrom1]; [rewrite Nat.min_l by lia; done|].
    destruct (decide (low <= low')%nat); [rewrite Nat.min_l by lia; done|]. rewrite Nat.min_r by lia. by right.
Qed.

(** ** One round, and the end of the loop *)
Definition connects (sc : Tarjan -> text -> option Tarjan) (t0 : Tarjan) (node : text) : Prop :=
  forall t dep, tarjan_ok t -> extends t0 t -> is_Some (tj_indices t !! node) -> tj_indices t !! dep = None -> edge node dep ->
    (forall y, y ∈ tj_stack t -> reach y dep) -> exists t', sc t dep = Some t' /\ connected t t' dep.

(** ** References go back along whole paths *)
Lemma references_back_reach sccs pre c post x y :
  references_back sccs -> sccs = pre ++ c :: post -> x ∈ c \/ x ∈ concat pre -> reach x y -> y ∈ c \/ y ∈ concat pre.
Proof.
  intros Hback Heq Hx Hr. revert Hx. induction Hr as [|x z y Hxz Hr IH]; intros Hx; [done|].
  apply IH. destruct Hx as [Hx|Hx]; [by eapply Hback|].
  apply list_elem_of_In, in_concat in Hx as (c'&(pre'&post'&->)%list_elem_of_In%list_elem_of_split&Hx%list_elem_of_In).
  destruct (Hback pre' c' (post' ++ c :: post)) with (x := x) (y := z) as [Hz|Hz]; try done.
  - by rewrite Heq, <-app_assoc.
  - right. rewrite concat_app. cbn. set_solver.
  - right. rewrite concat_app. set_solver.
Qed.

Lemma mutual_component sccs c x y :
  references_back sccs -> NoDup (concat sccs) -> c ∈ sccs -> x ∈ c -> mutual x y -> y ∈ c.
Proof.
  intros Hback Hnd (pre&post&->)%list_elem_of_split Hx [Hxy Hyx].
  destruct (references_back_reach _ pre c post x y Hback eq_refl) as [Hy|Hy]; auto. exfalso.
  rewrite concat_app in Hnd. apply NoDup_app in Hnd as (_&Hdis&_).
  apply list_elem_of_In, in_concat in Hy as (c'&(pre'&post'&->)%list_elem_of_In%list_elem_of_split&Hy%list_elem_of_In).
  destruct (references_back_reach _ pre' c' (post' ++ c :: post) y x Hback) as [Hx'|Hx']; auto; [by rewrite <-app_assoc| |];
    apply (Hdis x); rewrite ?concat_app; cbn; set_solver.
Qed.

Section round.
Variables (t0 : Tarjan) (node : text) (sc : Tarjan -> text -> option Tarjan).
Hypothesis Hok0 : tarjan_ok t0.
Hypothesis Hnew : tj_indices t0 !! node = None.
Hypothesis Hpre : forall y, y ∈ tj_stack t0 -> reach y node.
Hypothesis Hsc : connects sc t0 node.

Lemma looping_reach t seen ext low y : looping t0 t node seen ext low -> y ∈ tj_stack t -> reach y node.
Proof using Hpre.
  intros Hl Hy. rewrite (lo_stack _ _ _ _ _ _ Hl) in Hy. apply elem_of_app in Hy as [Hy|Hy].
  - pose proof (lo_mutual _ _ _ _ _ _ Hl) as Hm. rewrite Forall_forall in Hm. by apply Hm.
  - apply elem_of_cons in Hy as [->|Hy]; [done|by apply Hpre].
Qed.

Lemma visit_stacked t seen ext low dep i :
  looping t0 t node seen ext low -> edge node dep -> dep ∈ tj_stack t -> at_ t dep i ->
  looping t0 (set_lowlink t node (Nat.min low i)) node (seen ++ [dep]) ext (Nat.min low i).
Proof using Hok0 Hnew.
  intros Hl Hedge Hdep Hi. pose proof (looping_index _ _ _ _ _ _ _ _ Hok0 Hl Hdep Hi) as Hcase.
  apply (looping_lower t0 t t node seen ext [] low i dep); try done.
  - apply Hl.
  - intros x y Hx. by apply not_elem_of_nil in Hx.
  - cbn [app]. destruct Hcase as [[Hin _]|[Hin _]]; [right; left; done|].
    right; right. split; [done|]. exists i. split; [done|lia].
  - destruct Hcase as [[_ Hge]|[Hin Hi0]]; [left; pose proof (lo_le _ _ _ _ _ _ Hl); lia|].
    right. exists dep. split_and!; [done..|]. by apply rtc_once.
Qed.

Lemma visit_emitted t seen ext low dep :
  looping t0 t node seen ext low -> is_Some (tj_indices t !! dep) -> dep ∉ tj_stack t -> looping t0 t node (seen ++ [dep]) ext low.
Proof using Type.
  intros [Hok Hex Hn Hst Hlow Hle Hmut Hedge Hseen Hfrom] Hi Hdep. split; try done.
  intros y [Hy|Hy]%elem_of_app; [by apply Hseen|]. apply list_elem_of_singleton in Hy as ->.
  left. apply (to_dom _ Hok) in Hi. tauto.
Qed.

Lemma visit_child t seen ext low dep :
  looping t0 t node seen ext low -> edge node dep -> tj_indices t !! dep = None ->
  exists t1 lowd ext', sc t dep = Some t1 /\ tj_lowlink t1 !! dep = Some lowd /\ tj_lowlink t1 !! node = Some low /\
    looping t0 (set_lowlink t1 node (Nat.min low lowd)) node (seen ++ [dep]) (ext' ++ ext) (Nat.min low lowd).
Proof using Hok0 Hnew Hpre Hsc.
  intros Hl Hedge Hdep.
  destruct (Hsc t dep) as (t1&Hcall&[Hok1 Hex1 Hdep1 (ext'&lowd&Hst1&Hlowd&Hmut1&Hedge1&Hfrom1&Hlt1)]); try done.
  { apply Hl. } { apply Hl. } { rewrite (lo_node _ _ _ _ _ _ Hl). done. }
  { intros y Hy. apply rtc_r with node; [by eapply looping_reach|done]. }
  exists t1, lowd, ext'. split_and!; [done..| |].
  { rewrite (ex_low _ _ Hex1); [apply Hl|]. rewrite (lo_node _ _ _ _ _ _ Hl). done. }
  pose proof (lo_le _ _ _ _ _ _ Hl) as Hle. pose proof (lo_stack _ _ _ _ _ _ Hl) as Hst.
  apply (looping_lower t0 t t1); try done.
  - apply Forall_forall. intros x Hx. rewrite Forall_forall in Hmut1. destruct (Hmut1 x Hx) as [Hdx Hxd].
    split; [by eapply rtc_l|]. destruct Hfrom1 as [->|(y&Hy&_&Hry)]; [by apply not_elem_of_nil in Hx|].
    etrans; [exact Hxd|]. etrans; [exact Hry|]. by eapply looping_reach.
  - intros x y Hx Hxy. destruct (Hedge1 x y Hx Hxy) as [He|[He|(Hb&i&Hi&Hge)]]; [by left|right; left; set_solver|].
    rewrite Hst in Hb. apply elem_of_app in Hb as [Hb|Hb]; [right; left; set_solver|].
    apply elem_of_cons in Hb as [->|Hb]; [right; left; set_solver|]. right; right. split; [done|]. exists i. split; [done|lia].
  - apply (to_dom _ Hok1) in Hdep1 as [Hin|Hin]; [|by left]. right; left. rewrite Hst1 in Hin.
    apply elem_of_app in Hin as [Hin|Hin]; [set_solver|].
    assert (is_Some (tj_indices t !! dep)) as [? ?] by (apply (to_dom _ (lo_ok _ _ _ _ _ _ Hl)); auto). congruence.
  - destruct Hfrom1 as [->|(y&Hy&Hi&Hry)].
    + left. specialize (Hlt1 eq_refl node (tj_index t0)). rewrite Hst in Hlt1.
      pose proof (Hlt1 ltac:(set_solver) (lo_node _ _ _ _ _ _ Hl)). lia.
    + destruct (looping_index _ _ _ _ _ _ _ _ Hok0 Hl Hy Hi) as [[_ Hge]|[Hy0 Hi0]]; [left; lia|].
      right. exists y. split_and!; [done..|]. by eapply rtc_l.
Qed.

Lemma visit_looping t seen ext low dep :
  looping t0 t node seen ext low -> edge node dep ->
  exists t' ext' low', visit sc node t dep = Some t' /\ looping t0 t' node (seen ++ [dep]) ext' low'.
Proof using Hok0 Hnew Hpre Hsc.
  intros Hl Hedge. unfold visit. case_decide as Hidx; [case_decide as Hon|].
  - destruct Hidx as [i Hi]. rewrite Hi. cbn [mbind option_bind]. unfold lower. rewrite (lo_low _ _ _ _ _ _ Hl). cbn [mbind option_bind].
    rewrite (to_on_stack _ (lo_ok _ _ _ _ _ _ Hl)), elem_of_list_to_set in Hon.
    do 3 eexists. split; [done|]. by apply (visit_stacked t seen ext low dep i).
  - rewrite (to_on_stack _ (lo_ok _ _ _ _ _ _ Hl)), elem_of_list_to_set in Hon.
    do 3 eexists. split; [done|]. by eapply visit_emitted.
  - apply eq_None_not_Some in Hidx. destruct (visit_child t seen ext low dep Hl Hedge Hidx) as (t1&lowd&ext'&Hcall&Hlowd&Hlow&Hl1).
    rewrite Hcall. cbn [mbind option_bind]. rewrite Hlowd. cbn [mbind option_bind]. unfold lower. rewrite Hlow.
    do 3 eexists. split; [done|]. exact Hl1.
Qed.

Lemma visit_all_looping t seen ext low deps :
  looping t0 t node seen ext low -> (forall dep, dep ∈ deps -> edge node dep) ->
  exists t' ext' low', visit_all sc node t deps = Some t' /\ looping t0 t' node (seen ++ deps) ext' low'.
Proof using Hok0 Hnew Hpre Hsc.
  revert t seen ext low. induction deps as [|dep deps IH]; intros t seen ext low Hl Hedges.
  - exists t, ext, low. by rewrite app_nil_r.
  - destruct (visit_looping t seen ext low dep Hl) as (t'&ext'&low'&Hv&Hl'); [apply Hedges; set_solver|].
    cbn [visit_all]. rewrite Hv. cbn [mbind option_bind].
    destruct (IH t' (seen ++ [dep]) ext' low' Hl') as (t''&ext''&low''&Hva&Hl''); [set_solver|].
    exists t'', ext'', low''. by rewrite <-app_assoc in Hl''.
Qed.
End round.

(** ** Emitting a component *)
Lemma references_back_snoc sccs c :
  references_back sccs -> (forall x y, x ∈ c -> edge x y -> y ∈ c \/ y ∈ concat sccs) -> references_back (sccs ++ [c]).
Proof.
  intros Hb Hc pre c' post Heq x y Hx Hxy.
  destruct post as [|c'' post] using rev_ind.
  - apply app_inj_tail in Heq as [<- <-]. by apply Hc with x.
  - rewrite app_comm_cons, app_assoc in Heq. apply app_inj_tail in Heq as [-> _].
    by eapply (Hb pre c' post).
Qed.

Lemma pop_ok t node ext below i :
  tarjan_ok t -> tj_stack t = ext ++ node :: below -> at_ t node i ->
  Forall (mutual node) ext ->
  (forall x y, x ∈ ext ++ [node] -> edge x y -> settled t (ext ++ [node]) below i y) ->
  tarjan_ok {| tj_index := tj_index t; tj_indices := tj_indices t; tj_lowlink := tj_lowlink t;
               tj_on_stack := tj_on_stack t ∖ list_to_set (ext ++ [node]); tj_stack := below;
               tj_sccs := tj_sccs t ++ [ext ++ [node]] |}.
Proof.
  intros [Hnodes Hdom Hlow Hnd Hon Hb Hs Hback Hstr] Hst Hi Hmut Hedge.
  assert (tj_stack t = (ext ++ [node]) ++ below) as Hst' by by rewrite Hst, <-app_assoc.
  split; cbn; try done.
  - intros x. rewrite Hdom, Hst', concat_app, !elem_of_app. cbn. rewrite app_nil_r, elem_of_app. tauto.
  - rewrite concat_app. cbn. rewrite app_nil_r, app_assoc. rewrite Hst' in Hnd.
    eapply NoDup_Permutation_proper; [|exact Hnd]. rewrite Permutation_app_comm. by rewrite app_assoc.
  - rewrite Hon, Hst', list_to_set_app_L. rewrite Hst' in Hnd. apply NoDup_app in Hnd as (Hnd&_&_).
    apply NoDup_app in Hnd as (_&Hdis&_). apply set_eq. intros x. rewrite elem_of_difference, elem_of_union, !elem_of_list_to_set.
    specialize (Hdis x). tauto.
  - intros above x below' y j k Heq. eapply Hs. by rewrite Hst', Heq, app_assoc.
  - apply references_back_snoc; [done|]. intros x y Hx Hxy.
    destruct (Hedge x y Hx Hxy) as [He|[He|(Hbl&j&Hj&Hle)]]; [by right|by left|].
    assert (j < i)%nat by (by eapply (Hs ext node below y)). lia.
  - apply Forall_app. split; [done|]. constructor; [|constructor].
    assert (forall x, x ∈ ext ++ [node] -> mutual node x) as Hm.
    { intros x [Hx|Hx]%elem_of_app; [rewrite Forall_forall in Hmut; by apply Hmut|].
      apply list_elem_of_singleton in Hx as ->. done. }
    intros x y [Hnx Hxn]%Hm [Hny Hyn]%Hm. split; by etrans.
Qed.

Lemma leave_connected t0 t node ext low :
  tarjan_ok t0 -> looping t0 t node (default [] (dependencies !! node)) ext low ->
  exists t', leave t node = Some t' /\ connected t0 t' node.
Proof.
  intros Hok0 [Hok Hex Hn Hst Hlow Hle Hmut Hedge Hseen Hfrom]. unfold leave. rewrite Hlow, Hn. cbn [mbind option_bind].
  assert (forall x y, x ∈ ext ++ [node] -> edge x y -> settled t (ext ++ [node]) (tj_stack t0) low y) as Hall.
  { intros x y [Hx|Hx]%elem_of_app Hxy; [by eapply Hedge|]. apply list_elem_of_singleton in Hx as ->. by apply Hseen. }
  case_decide as Heq.
  - assert (node ∉ ext) as Hne.
    { pose proof (to_nodup _ Hok) as Hnd. rewrite Hst in Hnd. apply NoDup_app in Hnd as (Hnd&_).
      apply NoDup_app in Hnd as (_&Hdis&_). intros Hin. apply (Hdis _ Hin). left. }
    rewrite Hst, (pop_component_spec node ext (tj_stack t0)) by done. cbn [app].
    eexists. split; [done|]. subst low. split; cbn.
    + by eapply pop_ok.
    + split; cbn; try apply Hex. intros x Hx. rewrite concat_app, elem_of_app. left. by apply (ex_emitted _ _ Hex).
    + by rewrite Hn.
    + exists [], (tj_index t0). split_and!; [done|done|constructor|by intros x y Hx%not_elem_of_nil|by left|].
      intros _ y i _ Hi. by apply (to_bound _ Hok0) in Hi.
  - exists t. split; [done|]. split; [done|done|by rewrite Hn|].
    exists (ext ++ [node]), low. split_and!; [by rewrite Hst, <-app_assoc|done| |done| |by destruct ext].
    + apply Forall_app. split; [done|]. by constructor.
    + right. destruct Hfrom as [?|?]; done.
Qed.

Lemma unindexed_enter t node t' :
  node ∈ U -> tj_indices t !! node = None -> extends t t' -> is_Some (tj_indices t' !! node) ->
  (size (U ∖ dom (tj_indices t')) < size (U ∖ dom (tj_indices t)))%nat.
Proof.
  intros HU Hnew Hex Hn. apply subset_size. split.
  - intros x. rewrite !elem_of_difference. intros [Hx Hnx]. split; [done|]. intros Hd. apply Hnx.
    apply (subseteq_dom _ _ (ex_indices _ _ Hex)), Hd.
  - intros Hsub. specialize (Hsub node). rewrite !elem_of_difference, !not_elem_of_dom, Hnew in Hsub.
    destruct Hn as [i Hn]. destruct (Hsub ltac:(done)) as [_ Hno]. congruence.
Qed.

(** Enough fuel: the nodes that have no index yet. *)
Lemma strongconnect_connected fuel t node :
  (forall x y, x ∈ U -> edge x y -> y ∈ U) ->
  (size (U ∖ dom (tj_indices t)) <= fuel)%nat -> node ∈ U ->
  tarjan_ok t -> tj_indices t !! node = None -> (forall y, y ∈ tj_stack t -> reach y node) ->
  exists t', strongconnect dependencies fuel t node = Some t' /\ connected t t' node.
Proof.
  intros HU. revert t node. induction fuel as [|fuel IH]; intros t node Hfuel Hnode Hok Hnew Hpre.
  { exfalso. assert (node ∈ U ∖ dom (tj_indices t)) as Hin.
    { apply elem_of_difference. split; [done|]. by apply not_elem_of_dom. }
    assert (size (U ∖ dom (tj_indices t)) = 0%nat) as Hz by lia. apply size_empty_inv in Hz. set_solver. }
  cbn [strongconnect].
  destruct (visit_all_looping t node (strongconnect dependencies fuel) Hok Hnew Hpre) with (t := enter t node) (seen := @nil text)
    (ext := @nil text) (low := tj_index t) (deps := default [] (dependencies !! node)) as (t'&ext&low&Hv&Hl).
  - intros t1 dep Hok1 Hex1 Hn1 Hdep Hedge Hreach. apply IH; try done; [|by eapply HU].
    pose proof (unindexed_enter t node t1 Hnode Hnew Hex1 Hn1). lia.
  - by apply looping_enter.
  - done.
  - rewrite Hv. cbn [mbind option_bind]. by eapply leave_connected.
Qed.

Lemma connect_all_ok fuel t nodes :
  (forall x y, x ∈ U -> edge x y -> y ∈ U) -> (size U <= fuel)%nat -> list_to_set nodes ⊆ U -> tarjan_ok t -> tj_stack t = [] ->
  exists t', connect_all dependencies fuel t nodes = Some t' /\ tarjan_ok t' /\ tj_stack t' = [] /\
    tj_indices t ⊆ tj_indices t' /\ forall x, x ∈ nodes -> is_Some (tj_indices t' !! x).
Proof.
  intros HU Hfuel. revert t. induction nodes as [|node nodes IH]; intros t Hsub Hok Hst; cbn [connect_all].
  { exists t. split_and!; try done. by intros x Hx%not_elem_of_nil. }
  assert (forall t1, is_Some (tj_indices t1 !! node) -> tj_indices t ⊆ tj_indices t1 -> tarjan_ok t1 -> tj_stack t1 = [] ->
    exists t', connect_all dependencies fuel t1 nodes = Some t' /\ tarjan_ok t' /\ tj_stack t' = [] /\
      tj_indices t ⊆ tj_indices t' /\ forall x, x ∈ node :: nodes -> is_Some (tj_indices t' !! x)) as Hrest.
  { intros t1 [i Hi] Hsub1 Hok1 Hst1. destruct (IH t1) as (t'&Hc&Hok'&Hst'&Hsub'&Hall); [set_solver|done|done|].
    exists t'. split_and!; [done..|by etrans|]. intros x [->|Hx]%elem_of_cons; [|by apply Hall].
    exists i. by eapply lookup_weaken. }
  case_decide as Hidx; [by apply Hrest|]. apply eq_None_not_Some in Hidx.
  destruct (strongconnect_connected fuel t node) as (t1&Hc&[Hok1 Hex1 Hn1 (ext&low&Hst1&_&_&_&Hfrom&_)]); try done.
  - etrans; [|exact Hfuel]. apply subseteq_size. set_solver.
  - set_solver.
  - rewrite Hst. by intros y Hy%not_elem_of_nil.
  - rewrite Hc. cbn [mbind option_bind]. apply Hrest; [done|apply Hex1|done|]. rewrite Hst1, Hst, app_nil_r.
    destruct Hfrom as [->|(y&Hy&_)]; [done|]. rewrite Hst in Hy. by apply not_elem_of_nil in Hy.
Qed.

Lemma tarjan_new_ok : tarjan_ok tarjan_new.
Proof.
  assert (forall x, ~ is_Some (tj_indices tarjan_new !! x)) as Hno by (intros x [i Hi]; cbv [tj_indices tarjan_new] in Hi; by rewrite lookup_empty in Hi).
  split.
  - intros x Hx. by apply Hno in Hx.
  - intros x. split; [intros Hx; by apply Hno in Hx|]. by intros [?%not_elem_of_nil|?%not_elem_of_nil].
  - intros x Hx. by apply Hno in Hx.
  - constructor.
  - done.
  - intros x i Hi. destruct (Hno x). by exists i.
  - intros above x below y i j Heq. by destruct above.
  - intros pre c post Heq. by destruct pre.
  - constructor.
Qed.
End correctness.

Lemma sort_components_spec nodes dependencies limit :
  NoDup nodes -> (forall x y, x ∈ nodes -> edge dependencies x y -> y ∈ nodes) ->
  exists sccs,
    concat sccs ≡ₚ nodes /\ references_back dependencies sccs /\
    (forall c x y, c ∈ sccs -> x ∈ c -> y ∈ c <-> mutual dependencies x y) /\
    (Forall (fun c => (length c <= limit)%nat) sccs /\
     sort_creation_components nodes dependencies limit = Some (Ok sccs) \/
     exists c, c ∈ sccs /\ (limit < length c)%nat /\
       sort_creation_components nodes dependencies limit = Some (Err (cycle_error c limit))).
Proof.
  intros Hnd Hclosed. set (U := list_to_set nodes : gset text).
  destruct (connect_all_ok dependencies U (S (length nodes)) tarjan_new nodes) as (t&Hc&Hok&Hst&_&Hall); try done.
  - intros x y. subst U. rewrite !elem_of_list_to_set. apply Hclosed.
  - subst U. rewrite size_list_to_set by done. lia.
  - apply tarjan_new_ok.
  - pose proof (to_nodup _ _ _ Hok) as Hn. rewrite Hst in Hn. cbn in Hn.
    exists (tj_sccs t). split_and!; [|apply Hok| |].
    + apply NoDup_Permutation; [done|done|].
      * intros x. pose proof (to_dom _ _ _ Hok x) as Hd. rewrite Hst, elem_of_nil in Hd. split.
        -- intros Hx. assert (x ∈ U) as HU by (apply (to_nodes _ _ _ Hok), Hd; auto). by apply elem_of_list_to_set in HU.
        -- intros Hx%Hall. tauto.
    + intros c x y Hc' Hx. split; [|by eapply mutual_component; [apply Hok|..]].
      pose proof (to_strong _ _ _ Hok) as Hs. rewrite Forall_forall in Hs. by apply Hs.
    + unfold sort_creation_components. rewrite Hc. cbn [mbind option_bind].
      destruct (find _ (tj_sccs t)) as [c|] eqn:Hf.
      * apply find_some in Hf as [Hin Hlt]. right. exists c. split_and!; [by apply list_elem_of_In|by apply Nat.ltb_lt|done].
      * left. split; [|done]. apply Forall_forall. intros c Hin%list_elem_of_In.
        apply (find_none _ _ Hf) in Hin. by apply Nat.ltb_ge in Hin.
Qed.

(** C27: The creates are sorted into the strongly connected components of their references,
    whatever order the hash sets iterate in: every create is in exactly one component, two
    creates share a component exactly if each refers to the other, directly or through other
    creates, and a reference goes to the same component or to an earlier one. The sort fails
    only for a component that is larger than a chunk. *)
Theorem sort_creation_components_sound nodes dependencies limit :
  NoDup nodes -> (forall x y, x ∈ nodes -> edge dependencies x y -> y ∈ nodes) ->
  exists sccs,
    concat sccs ≡ₚ nodes /\ references_back dependencies sccs /\
    (forall c x y, c ∈ sccs -> x ∈ c -> y ∈ c <-> mutual dependencies x y) /\
    (Forall (fun c => (length c <= limit)%nat) sccs /\
     sort_creation_components nodes dependencies limit = Some (Ok sccs) \/
     exists c, c ∈ sccs /\ (limit < length c)%nat /\
       sort_creation_components nodes dependencies limit = Some (Err (cycle_error c limit))).
Proof. apply sort_components_spec. Qed.

(** Two creates that refer to each other, and a third that refers to the first. *)
Definition two_and_one : gmap text (list text) :=
  <[lit "a" := [lit "b"]]> (<[lit "b" := [lit "a"]]> (<[lit "c" := [lit "a"]]> ∅)).

Lemma sort_creation_components_sound_witness :
  exists sccs, concat sccs ≡ₚ [lit "a"; lit "b"; lit "c"] /\ references_back two_and_one sccs /\
    (forall c x y, c ∈ sccs -> x ∈ c -> y ∈ c <-> mutual two_and_one x y) /\
    (Forall (fun c => (length c <= 2)%nat) sccs /\
     sort_creation_components [lit "a"; lit "b"; lit "c"] two_and_one 2 = Some (Ok sccs) \/
     exists c, c ∈ sccs /\ (2 < length c)%nat /\
       sort_creation_components [lit "a"; lit "b"; lit "c"] two_and_one 2 = Some (Err (cycle_error c 2))).
Proof.
  apply sort_creation_components_sound; [by_decide|].
  assert (Forall (fun x => Forall (fun y => y ∈ [lit "a"; lit "b"; lit "c"]) (default [] (two_and_one !! x)))
    [lit "a"; lit "b"; lit "c"]) as H by by_decide.
  intros x y Hx Hxy. rewrite Forall_forall in H. specialize (H x Hx). rewrite Forall_forall in H. by apply H.
Defined.
