(* ===== verification/SetChunk.v ===== *)
(** Splitting a [/set] across [maxObjectsInSet] (jmap-client/src/set.rs): the references
    between creates, and the chunks of a request. *)

From Stdlib Require Import Ascii String.
From stdpp Require Import prelude strings gmap.
From S2P Require Import Prelude BTree Text Strings Json Wire Proto SetMethod Tarjan.

Local Open Scope rust_scope.

(** ** What a [/set] answered *)
Definition set_failure (set_error : option SetError) : Error :=
  match set_error with
  | Some set_error => Set_ set_error
  | None => Protocol (lit "/set response reports neither success nor failure")
  end.

Definition reports_neither (id : Id) : Error :=
  Protocol (lit "/set response reports neither success nor failure for " ++ id).

Definition expect_created {T} (response : SetResponse T) (creation_id : text) : result T Error :=
  match (let! created := sp_created response in bt_get creation_id created) with
  | Some object => Ok object
  | None => Err (set_failure (let! not_created := sp_not_created response in bt_get creation_id not_created))
  end.

Definition expect_updated {T} (response : SetResponse T) (id : Id) : result unit Error :=
  if match sp_updated response with Some updated => bt_contains id updated | None => false end then Ok tt
  else match (let! not_updated := sp_not_updated response in bt_get id not_updated) with
    | Some err => Err (Set_ err)
    | None => Err (reports_neither id)
    end.

Definition expect_destroyed {T} (response : SetResponse T) (id : Id) : result unit Error :=
  if match sp_destroyed response with Some destroyed => bool_decide (id ∈ destroyed) | None => false end then Ok tt
  else match (let! not_destroyed := sp_not_destroyed response in bt_get id not_destroyed) with
    | Some err => Err (Set_ err)
    | None => Err (reports_neither id)
    end.

(** ** References *)
Definition add_reference (candidates : gset text) (s : text) (refs : gset text) : gset text :=
  match strip_prefix (lit "#") s with
  | Some target => if decide (target ∈ candidates) then {[target]} ∪ refs else refs
  | None => refs
  end.

Fixpoint collect_creation_references (candidates : gset text) (val : Value) (refs : gset text) : gset text :=
  match val with
  | String s => add_reference candidates s refs
  | Object map =>
      (fix members (map : list (text * Value)) (refs : gset text) : gset text :=
         match map with
         | [] => refs
         | (key, v) :: map =>
             let refs := fold_left (fun refs segment => add_reference candidates segment refs) (split_on "/"%char key) refs in
             members map (collect_creation_references candidates v refs)
         end) map refs
  | Array arr =>
      (fix items (arr : list Value) (refs : gset text) : gset text :=
         match arr with
         | [] => refs
         | item :: arr => items arr (collect_creation_references candidates item refs)
         end) arr refs
  | _ => refs
  end.

Definition find_creation_references (val : Value) (candidates : gset text) : gset text :=
  collect_creation_references candidates val ∅.

(** ** Chunks *)
Record SetChunk (T : Type) := {
  ck_create : btmap text T;
  ck_update : btmap Id Value;
  ck_destroy : list Id;
}.
Arguments ck_create {T}.
Arguments ck_update {T}.
Arguments ck_destroy {T}.
Arguments Build_SetChunk {T}.

Definition chunk_default {T} : SetChunk T := Build_SetChunk [] [] [].

Definition chunk_is_empty {T} (c : SetChunk T) : bool :=
  bool_decide (ck_create c = []) && bool_decide (ck_update c = []) && bool_decide (ck_destroy c = []).

Record Packing (T : Type) := {
  pk_chunks : list (SetChunk T);
  pk_current : SetChunk T;
  pk_count : nat;
}.
Arguments pk_chunks {T}.
Arguments pk_current {T}.
Arguments pk_count {T}.
Arguments Build_Packing {T}.

(** [chunks.push(std::mem::take(&mut current))]. *)
Definition flush {T} (p : Packing T) : Packing T := Build_Packing (pk_chunks p ++ [pk_current p]) chunk_default 0.

Definition pack_create {T} (creates : btmap text T) (p : Packing T) (cid : text) : Packing T :=
  match bt_get cid creates with
  | Some item =>
      let c := pk_current p in
      Build_Packing (pk_chunks p) (Build_SetChunk (bt_insert cid item (ck_create c)) (ck_update c) (ck_destroy c)) (S (pk_count p))
  | None => p
  end.

Definition pack_component {T} (limit : nat) (creates : btmap text T) (p : Packing T) (scc : list text) : Packing T :=
  let p := if (limit <? pk_count p + length scc)%nat && (0 <? pk_count p)%nat then flush p else p in
  fold_left (pack_create creates) scc p.

Definition make_room {T} (limit : nat) (p : Packing T) : Packing T := if (limit <=? pk_count p)%nat then flush p else p.

Definition pack_update {T} (limit : nat) (p : Packing T) (e : Id * Value) : Packing T :=
  let p := make_room limit p in
  let c := pk_current p in
  Build_Packing (pk_chunks p) (Build_SetChunk (ck_create c) (bt_insert e.1 e.2 (ck_update c)) (ck_destroy c)) (S (pk_count p)).

Definition pack_destroy {T} (limit : nat) (p : Packing T) (id : Id) : Packing T :=
  let p := make_room limit p in
  let c := pk_current p in
  Build_Packing (pk_chunks p) (Build_SetChunk (ck_create c) (ck_update c) (ck_destroy c ++ [id])) (S (pk_count p)).

Definition pack_end {T} (p : Packing T) : list (SetChunk T) :=
  if negb (chunk_is_empty (pk_current p)) || bool_decide (pk_chunks p = []) then pk_chunks p ++ [pk_current p] else pk_chunks p.

Definition pack {T} (limit : nat) (request : SetRequest T) (sccs : list (list text)) : Packing T :=
  let p := Build_Packing [] chunk_default 0 in
  let p := match sr_create request with Some creates => fold_left (pack_component limit creates) sccs p | None => p end in
  let p := fold_left (pack_update limit) (default [] (sr_update request)) p in
  fold_left (pack_destroy limit) (default [] (sr_destroy request)) p.

Definition candidates_of {T} (request : SetRequest T) : gset text := list_to_set (default [] (sr_create request)).*1.

Section partition.
Context {T : Type}.
(** [serde_json::to_value] for the objects. *)
Variable to_value : T -> result Value Error.
(** The order in which a hash set is iterated. *)
Variable hash_order : gset text -> list text.

Fixpoint creation_dependencies (candidates : gset text) (creates : list (text * T)) (dependencies : gmap text (list text))
  : result (gmap text (list text)) Error :=
  match creates with
  | [] => Ok dependencies
  | (cid, obj) :: creates =>
      let? val := to_value obj in
      let refs := find_creation_references val candidates ∖ {[cid]} in
      creation_dependencies candidates creates (<[cid := hash_order refs]> dependencies)
  end.

(** [None] is a run of the sort that does not end. *)
Definition partition_set_request (request : SetRequest T) (limit : nat) : option (result (list (SetChunk T)) Error) :=
  let creates := default [] (sr_create request) in
  match creation_dependencies (candidates_of request) creates ∅ with
  | Err e => Some (Err e)
  | Ok dependencies =>
      let! sorted := sort_creation_components creates.*1 dependencies limit in
      Some (let? sccs := sorted in Ok (pack_end (pack limit request sccs)))
  end.
End partition.

(** ** References are candidates *)
Lemma add_reference_sub candidates s refs : refs ⊆ candidates -> add_reference candidates s refs ⊆ candidates.
Proof. intros Hr. unfold add_reference. destruct (strip_prefix _ s); [case_decide|]; set_solver. Qed.

Lemma collect_references_sub candidates val refs : refs ⊆ candidates -> collect_creation_references candidates val refs ⊆ candidates.
Proof.
  revert refs. induction val as [| | |s|l IH|m IH]; intros refs Hr; cbn; try done.
  - by apply add_reference_sub.
  - revert refs Hr. induction IH as [|v l Hv _ IHl]; intros refs Hr; [done|]. by apply IHl, Hv.
  - revert refs Hr. induction IH as [|[k v] m Hv _ IHm]; intros refs Hr; [done|]. apply IHm, Hv.
    revert refs Hr. induction (split_on "/"%char k) as [|segment l IHl]; intros refs Hr; [done|].
    by apply IHl, add_reference_sub.
Qed.

Lemma find_references_sub val candidates : find_creation_references val candidates ⊆ candidates.
Proof. apply collect_references_sub. set_solver. Qed.

(** ** What a packing holds *)
Definition pk_all {T} (p : Packing T) : list (SetChunk T) := pk_chunks p ++ [pk_current p].
Definition creates_of {T} (l : list (SetChunk T)) : list (text * T) := concat (ck_create <$> l).
Definition updates_of {T} (l : list (SetChunk T)) : list (Id * Value) := concat (ck_update <$> l).
Definition destroys_of {T} (l : list (SetChunk T)) : list Id := concat (ck_destroy <$> l).

Definition chunk_len {T} (c : SetChunk T) : nat := (length (ck_create c) + length (ck_update c) + length (ck_destroy c))%nat.

Section packing.
Context {T : Type}.
Implicit Types (p : Packing T) (l : list (SetChunk T)).

Lemma creates_of_app l1 l2 : creates_of (l1 ++ l2) = creates_of l1 ++ creates_of l2.
Proof. unfold creates_of. by rewrite fmap_app, concat_app. Qed.
Lemma updates_of_app l1 l2 : updates_of (l1 ++ l2) = updates_of l1 ++ updates_of l2.
Proof. unfold updates_of. by rewrite fmap_app, concat_app. Qed.
Lemma destroys_of_app l1 l2 : destroys_of (l1 ++ l2) = destroys_of l1 ++ destroys_of l2.
Proof. unfold destroys_of. by rewrite fmap_app, concat_app. Qed.
Lemma of_singleton (c : SetChunk T) : creates_of [c] = ck_create c /\ updates_of [c] = ck_update c /\ destroys_of [c] = ck_destroy c.
Proof. unfold creates_of, updates_of, destroys_of. cbn. by rewrite !app_nil_r. Qed.

(** A chunk with all that a property of the chunks depends on: [P pre c] says that [c] may
    come after the chunks [pre]. *)
Definition each_after (P : list (SetChunk T) -> SetChunk T -> Prop) l : Prop :=
  forall pre c post, l = pre ++ c :: post -> P pre c.

Lemma each_after_snoc P l c : each_after P (l ++ [c]) <-> each_after P l /\ P l c.
Proof.
  split.
  - intros H. split; [|by apply (H l c [])]. intros pre d post ->. apply (H pre d (post ++ [c])). by rewrite <-app_assoc.
  - intros [H Hc] pre d post Heq. destruct post as [|e post] using rev_ind.
    + apply app_inj_tail in Heq as [<- <-]. done.
    + rewrite app_comm_cons, app_assoc in Heq. apply app_inj_tail in Heq as [-> _]. by apply (H pre d post).
Qed.

Lemma flush_all p : pk_all (flush p) = pk_all p ++ [chunk_default].
Proof. done. Qed.

(** ** Sizes *)
Definition fits (limit : nat) p : Prop := pk_count p = chunk_len (pk_current p) /\ Forall (fun c => (chunk_len c <= limit)%nat) (pk_all p).

Lemma fits_flush limit p : fits limit p -> fits limit (flush p).
Proof.
  intros [Hc Hf]. split; [done|]. rewrite flush_all. apply Forall_app. split; [done|]. constructor; [unfold chunk_len; cbn; lia|constructor].
Qed.

Lemma fits_current limit p c :
  fits limit p -> chunk_len c = S (chunk_len (pk_current p)) -> (pk_count p < limit)%nat ->
  fits limit (Build_Packing (pk_chunks p) c (S (pk_count p))).
Proof.
  intros [Hc Hf] Hlen Hlt. split; [cbn; by rewrite Hlen, Hc|]. unfold pk_all in *. cbn.
  apply Forall_app in Hf as [Hf _]. apply Forall_app. split; [done|]. constructor; [lia|constructor].
Qed.

Lemma make_room_fits limit p : (0 < limit)%nat -> fits limit p -> fits limit (make_room limit p) /\ (pk_count (make_room limit p) < limit)%nat.
Proof.
  intros Hl Hf. unfold make_room. destruct (Nat.leb_spec limit (pk_count p)); [|done]. split; [by apply fits_flush|done].
Qed.

Lemma pk_all_of p :
  creates_of (pk_all p) = creates_of (pk_chunks p) ++ ck_create (pk_current p) /\
  updates_of (pk_all p) = updates_of (pk_chunks p) ++ ck_update (pk_current p) /\
  destroys_of (pk_all p) = destroys_of (pk_chunks p) ++ ck_destroy (pk_current p).
Proof.
  unfold pk_all. rewrite creates_of_app, updates_of_app, destroys_of_app.
  destruct (of_singleton (pk_current p)) as (->&->&->). done.
Qed.

Lemma flush_of p :
  creates_of (pk_all (flush p)) = creates_of (pk_all p) /\ updates_of (pk_all (flush p)) = updates_of (pk_all p) /\
  destroys_of (pk_all (flush p)) = destroys_of (pk_all p).
Proof.
  rewrite flush_all, creates_of_app, updates_of_app, destroys_of_app.
  destruct (of_singleton (@chunk_default T)) as (->&->&->). cbn. by rewrite !app_nil_r.
Qed.

Lemma make_room_of limit p :
  creates_of (pk_all (make_room limit p)) = creates_of (pk_all p) /\ updates_of (pk_all (make_room limit p)) = updates_of (pk_all p) /\
  destroys_of (pk_all (make_room limit p)) = destroys_of (pk_all p).
Proof. unfold make_room. destruct (_ <=? _)%nat; [apply flush_of|done]. Qed.

(** ** Creates *)
Lemma fold_pack_create (creates : btmap text T) scc p :
  NoDup scc -> (forall cid, cid ∈ scc -> cid ∈ creates.*1 /\ cid ∉ (ck_create (pk_current p)).*1) ->
  let p' := fold_left (pack_create creates) scc p in
  pk_chunks p' = pk_chunks p /\ (ck_create (pk_current p')).*1 ≡ₚ scc ++ (ck_create (pk_current p)).*1 /\
  ck_update (pk_current p') = ck_update (pk_current p) /\ ck_destroy (pk_current p') = ck_destroy (pk_current p) /\
  pk_count p' = (length scc + pk_count p)%nat /\
  (forall e, e ∈ ck_create (pk_current p') -> e ∈ ck_create (pk_current p) \/ bt_get e.1 creates = Some e.2).
Proof.
  revert p. induction scc as [|cid scc IH]; intros p Hnd Hin; cbn [fold_left]; [cbn; split_and!; auto|].
  apply NoDup_cons in Hnd as [Hni Hnd]. destruct (Hin cid) as [Hc Hn]; [set_solver|].
  destruct (IH (pack_create creates p cid) Hnd) as (H1&H2&H3&H4&H5&H6).
  { intros c Hc'. destruct (Hin c) as [Hck Hcn]; [set_solver|]. split; [done|]. unfold pack_create.
    destruct (bt_get cid creates); [|done]. cbn. rewrite bt_insert_keys. intros [->|?]; done. }
  apply bt_key_get in Hc as [item Hitem]. unfold pack_create in *. rewrite Hitem in *. cbn in *.
  split_and!; try done.
  - rewrite H2. rewrite (bt_insert_perm cid item) by (by apply bt_get_None_elem). cbn. by rewrite Permutation_middle.
  - rewrite H5. lia.
  - intros e He. destruct (H6 e He) as [He'|He']; [|by right]. apply elem_of_bt_insert in He' as [->|He']; [by right|by left].
Qed.

Definition creates_after (dependencies : gmap text (list text)) (pre : list (SetChunk T)) (c : SetChunk T) : Prop :=
  forall x y, x ∈ (ck_create c).*1 -> edge dependencies x y -> y ∈ (creates_of (pre ++ [c])).*1.

Definition updates_after (nodes : list text) (pre : list (SetChunk T)) (c : SetChunk T) : Prop :=
  ck_update c <> [] -> nodes ⊆ (creates_of (pre ++ [c])).*1.

Record created_from (creates : btmap text T) dependencies limit (sccs : list (list text)) p : Prop := {
  cf_fits : fits limit p;
  cf_keys : (creates_of (pk_all p)).*1 ≡ₚ concat sccs;
  cf_entries : forall e, e ∈ creates_of (pk_all p) -> bt_get e.1 creates = Some e.2;
  cf_after : each_after (creates_after dependencies) (pk_all p);
  cf_updates : updates_of (pk_all p) = [];
  cf_destroys : destroys_of (pk_all p) = [];
}.

Lemma created_from_flush creates dependencies limit sccs p :
  created_from creates dependencies limit sccs p -> created_from creates dependencies limit sccs (flush p).
Proof.
  intros [Hf Hk He Ha Hu Hd]. destruct (flush_of p) as (Ec&Eu&Ed).
  split; rewrite ?Ec, ?Eu, ?Ed; try done; [by apply fits_flush|].
  rewrite flush_all. apply each_after_snoc. split; [done|]. intros x y Hx. by apply not_elem_of_nil in Hx.
Qed.

(** A component goes into one chunk as a whole. *)
Lemma pack_component_created creates dependencies limit sccs scc p :
  (length scc <= limit)%nat -> NoDup (concat sccs ++ scc) -> scc ⊆ creates.*1 ->
  (forall x y, x ∈ scc -> edge dependencies x y -> y ∈ scc \/ y ∈ concat sccs) ->
  created_from creates dependencies limit sccs p ->
  created_from creates dependencies limit (sccs ++ [scc]) (pack_component limit creates p scc).
Proof.
  intros Hlen Hnd Hsub Hback Hp. unfold pack_component.
  set (q := if _ && _ then flush p else p).
  assert (created_from creates dependencies limit sccs q /\ (length scc + pk_count q <= limit)%nat) as [[Hf Hk He Ha Hu Hd] Hroom].
  { subst q. destruct (Nat.ltb_spec limit (pk_count p + length scc)), (Nat.ltb_spec 0 (pk_count p)); cbn;
      (split; [by try apply created_from_flush|cbn; lia]). }
  clearbody q. apply NoDup_app in Hnd as (_&Hdis&Hnd).
  destruct (pk_all_of q) as (Ec&Eu&Ed). rewrite Ec in Hk, He.
  destruct (fold_pack_create creates scc q Hnd) as (H1&H2&H3&H4&H5&H6).
  { intros cid Hcid. split; [by apply Hsub|]. intros Hin. apply (Hdis cid); [|done]. rewrite <-Hk, fmap_app. set_solver. }
  set (q' := fold_left (pack_create creates) scc q) in *. destruct (pk_all_of q') as (Ec'&Eu'&Ed').
  assert ((creates_of (pk_all q')).*1 ≡ₚ concat (sccs ++ [scc])) as Hk'.
  { rewrite Ec', H1, fmap_app, H2, concat_app. cbn. rewrite app_nil_r, <-Hk, fmap_app.
    rewrite <-app_assoc. apply Permutation_app; [done|]. apply Permutation_app_comm. }
  destruct Hf as [Hcount Hf]. unfold pk_all in Ha, Hf. apply each_after_snoc in Ha as [Ha Hlast].
  apply Forall_app in Hf as [Hf _].
  split; rewrite ?Eu', ?Ed', ?H3, ?H4, ?H1, <-?Eu, <-?Ed; try done.
  - assert (chunk_len (pk_current q') = pk_count q') as Hl.
    { unfold chunk_len in *. rewrite H3, H4, H5, Hcount, <-(length_fmap fst (ck_create (pk_current q'))), H2, length_app, length_fmap. lia. }
    split; [done|]. unfold pk_all. rewrite H1. apply Forall_app. split; [done|]. constructor; [lia|constructor].
  - intros e. rewrite Ec', H1, elem_of_app. intros [He'|He']; [apply He; set_solver|].
    destruct (H6 e He'); [apply He; set_solver|done].
  - unfold pk_all. rewrite H1. apply each_after_snoc. split; [done|]. intros x y Hx Hxy.
    rewrite <-H1 at 1. fold (pk_all q'). rewrite Hk', concat_app. cbn. rewrite app_nil_r.
    rewrite H2 in Hx. apply elem_of_app in Hx as [Hx|Hx]; [destruct (Hback x y Hx Hxy); set_solver|].
    pose proof (Hlast x y Hx Hxy) as Hy. fold (pk_all q) in Hy. rewrite Ec, Hk in Hy. set_solver.
Qed.

(** ** Updates and destroys *)
Record packed (C : list (text * T)) dependencies limit (updates : list (Id * Value)) (destroys : list Id) p : Prop := {
  pd_fits : fits limit p;
  pd_creates : creates_of (pk_all p) = C;
  pd_updates : updates_of (pk_all p) ≡ₚ updates;
  pd_destroys : destroys_of (pk_all p) = destroys;
  pd_after : each_after (creates_after dependencies) (pk_all p);
  pd_updates_after : each_after (updates_after C.*1) (pk_all p);
}.

Lemma packed_flush C dependencies limit updates destroys p :
  packed C dependencies limit updates destroys p -> packed C dependencies limit updates destroys (flush p).
Proof.
  intros [Hf Hc Hu Hd Ha Hua]. destruct (flush_of p) as (Ec&Eu&Ed).
  split; rewrite ?Ec, ?Eu, ?Ed; try done; [by apply fits_flush|..]; rewrite flush_all; apply each_after_snoc; (split; [done|]).
  - intros x y Hx. by apply not_elem_of_nil in Hx.
  - by intros Hne.
Qed.

Lemma packed_room C dependencies limit updates destroys p :
  (0 < limit)%nat -> packed C dependencies limit updates destroys p ->
  packed C dependencies limit updates destroys (make_room limit p) /\ (pk_count (make_room limit p) < limit)%nat.
Proof.
  intros Hl Hp. split; [|by apply make_room_fits; [|apply Hp]].
  unfold make_room. destruct (_ <=? _)%nat; [by apply packed_flush|done].
Qed.

(** One more update or destroy in the current chunk. *)
Lemma packed_current C dependencies limit updates destroys updates' destroys' p c :
  packed C dependencies limit updates destroys p -> (pk_count p < limit)%nat ->
  ck_create c = ck_create (pk_current p) -> chunk_len c = S (chunk_len (pk_current p)) ->
  updates_of (pk_chunks p) ++ ck_update c ≡ₚ updates' -> destroys_of (pk_chunks p) ++ ck_destroy c = destroys' ->
  packed C dependencies limit updates' destroys' (Build_Packing (pk_chunks p) c (S (pk_count p))).
Proof.
  intros [Hf Hc Hu Hd Ha Hua] Hlt Hcr Hlen Hu' Hd'. set (p' := Build_Packing _ _ _).
  destruct (pk_all_of p) as (Ec&Eu&Ed), (pk_all_of p') as (Ec'&Eu'&Ed').
  change (pk_chunks p') with (pk_chunks p) in Ec', Eu', Ed'. change (pk_current p') with c in Ec', Eu', Ed'.
  assert (creates_of (pk_all p') = C) as HC by by rewrite Ec', Hcr, <-Ec.
  unfold pk_all in Ha, Hua. apply each_after_snoc in Ha as [Ha Hl]. apply each_after_snoc in Hua as [Hua _].
  split; rewrite ?Eu', ?Ed'; try done.
  - by apply fits_current.
  - apply each_after_snoc. split; [done|]. intros x y Hx Hxy.
    change (y ∈ (creates_of (pk_all p')).*1). rewrite HC, <-Hc. apply (Hl x y); [|done]. by rewrite <-Hcr.
  - apply each_after_snoc. split; [done|]. intros _. change (C.*1 ⊆ (creates_of (pk_all p')).*1). by rewrite HC.
Qed.

Lemma pack_updates_packed C dependencies limit updates es p :
  (0 < limit)%nat -> NoDup (updates ++ es).*1 ->
  packed C dependencies limit updates [] p ->
  packed C dependencies limit (updates ++ es) [] (fold_left (pack_update limit) es p).
Proof.
  intros Hl. revert updates p. induction es as [|[id patch] es IH]; intros updates p Hnd Hp; cbn [fold_left]; [by rewrite app_nil_r|].
  rewrite (cons_middle (id, patch)), app_assoc. rewrite (cons_middle (id, patch)), app_assoc in Hnd.
  apply IH; [done|]. destruct (packed_room _ _ _ _ _ _ Hl Hp) as [Hp' Hlt]. unfold pack_update. cbn.
  set (q := make_room limit p) in *. destruct (pk_all_of q) as (_&Eu&Ed).
  assert (bt_get id (ck_update (pk_current q)) = None) as Hnew.
  { apply bt_get_None_elem. intros Hin. rewrite !fmap_app in Hnd. apply NoDup_app in Hnd as (Hnd&_).
    apply NoDup_app in Hnd as (_&Hdis&_). apply (Hdis id); [|cbn; set_solver].
    rewrite <-(pd_updates _ _ _ _ _ _ Hp'), Eu, fmap_app. set_solver. }
  apply (packed_current _ _ _ updates []); try done.
  - unfold chunk_len. cbn. rewrite bt_insert_length_fresh by done. lia.
  - cbn. rewrite bt_insert_perm by done. rewrite <-(pd_updates _ _ _ _ _ _ Hp'), Eu.
    by rewrite <-Permutation_middle, <-Permutation_cons_append.
  - cbn. rewrite <-Ed. apply Hp'.
Qed.

Lemma pack_destroys_packed C dependencies limit updates destroys ids p :
  (0 < limit)%nat -> packed C dependencies limit updates destroys p ->
  packed C dependencies limit updates (destroys ++ ids) (fold_left (pack_destroy limit) ids p).
Proof.
  intros Hl. revert destroys p. induction ids as [|id ids IH]; intros destroys p Hp; cbn [fold_left]; [by rewrite app_nil_r|].
  rewrite (cons_middle id), app_assoc. apply IH. destruct (packed_room _ _ _ _ _ _ Hl Hp) as [Hp' Hlt]. unfold pack_destroy.
  set (q := make_room limit p) in *. destruct (pk_all_of q) as (_&Eu&Ed).
  apply (packed_current _ _ _ updates destroys); try done.
  - unfold chunk_len. cbn. rewrite length_app. cbn. lia.
  - cbn. rewrite <-Eu. apply Hp'.
  - cbn. rewrite app_assoc, <-Ed. by rewrite (pd_destroys _ _ _ _ _ _ Hp').
Qed.

(** ** All the components *)
Lemma pack_components_created creates dependencies limit done sccs p :
  references_back dependencies (done ++ sccs) -> NoDup (concat (done ++ sccs)) ->
  Forall (fun c => (length c <= limit)%nat) sccs -> concat sccs ⊆ creates.*1 ->
  created_from creates dependencies limit done p ->
  created_from creates dependencies limit (done ++ sccs) (fold_left (pack_component limit creates) sccs p).
Proof.
  revert done p. induction sccs as [|scc sccs IH]; intros done p Hback Hnd Hlen Hsub Hp; cbn [fold_left]; [by rewrite app_nil_r|].
  rewrite (cons_middle scc), app_assoc. rewrite (cons_middle scc), app_assoc in Hnd. apply Forall_cons in Hlen as [Hl Hlen].
  assert (scc ⊆ creates.*1 /\ concat sccs ⊆ creates.*1) as [Hs Hsub'] by (cbn in Hsub; set_solver).
  apply IH; try done; [by rewrite <-app_assoc|]. apply pack_component_created; try done.
  - rewrite concat_app in Hnd. apply NoDup_app in Hnd as (Hnd&_). rewrite concat_app in Hnd. cbn in Hnd. by rewrite app_nil_r in Hnd.
  - intros x y. by apply (Hback done scc sccs).
Qed.
End packing.

Lemma pack_end_of {T} (p : Packing T) :
  creates_of (pack_end p) = creates_of (pk_all p) /\ updates_of (pack_end p) = updates_of (pk_all p) /\
  destroys_of (pack_end p) = destroys_of (pk_all p).
Proof.
  unfold pack_end. destruct (chunk_is_empty (pk_current p)) eqn:E; cbn; [|done]. case_bool_decide; [done|].
  unfold chunk_is_empty in E. apply andb_prop in E as [[Hc Hu]%andb_prop Hd]. apply bool_decide_eq_true in Hc, Hu, Hd.
  destruct (pk_all_of p) as (->&->&->). rewrite Hc, Hu, Hd. by rewrite !app_nil_r.
Qed.

Lemma pack_end_each {T} P (p : Packing T) : each_after P (pk_all p) -> each_after P (pack_end p).
Proof. intros H. unfold pack_end. destruct (_ || _); [done|]. by apply each_after_snoc in H as [H _]. Qed.

Lemma pack_end_forall {T} (P : SetChunk T -> Prop) p : Forall P (pk_all p) -> Forall P (pack_end p).
Proof. intros H. unfold pack_end. destruct (_ || _); [done|]. by apply Forall_app in H as [H _]. Qed.

Section partition_sound.
Context {T : Type}.
Variable to_value : T -> result Value Error.
Variable hash_order : gset text -> list text.

(** The creation ids that an object refers to. *)
Definition refers (candidates : gset text) (obj : T) : gset text :=
  match to_value obj with Ok v => find_creation_references v candidates | Err _ => ∅ end.

Definition refers_to (creates : btmap text T) (x y : text) : Prop :=
  exists obj, bt_get x creates = Some obj /\ y ∈ refers (list_to_set creates.*1) obj.

Lemma creation_dependencies_get candidates creates deps0 deps :
  creation_dependencies to_value hash_order candidates creates deps0 = Ok deps -> NoDup creates.*1 ->
  (forall cid obj, (cid, obj) ∈ creates -> deps !! cid = Some (hash_order (refers candidates obj ∖ {[cid]}))) /\
  (forall x, x ∉ creates.*1 -> deps !! x = deps0 !! x).
Proof using Type.
  revert deps0. induction creates as [|[cid obj] creates IH]; intros deps0; cbn.
  - intros [= <-] _. split; [by intros ? ? ?%not_elem_of_nil|done].
  - intros (v&Hv&H)%rbind_ok [Hni Hnd]%NoDup_cons. apply IH in H as [Hin Hout]; [|done]. split.
    + intros c o [[= -> ->]|He]%elem_of_cons; [|by apply Hin]. rewrite Hout, lookup_insert_eq by done. unfold refers. by rewrite Hv.
    + intros x Hx. rewrite Hout, lookup_insert_ne by set_solver. done.
Qed.

Lemma creation_dependencies_ok candidates creates deps0 :
  Forall (fun e => is_ok (to_value e.2) = true) creates -> exists deps, creation_dependencies to_value hash_order candidates creates deps0 = Ok deps.
Proof using Type.
  intros H. revert deps0. induction H as [|[cid obj] creates Hv _ IH]; intros deps0; cbn; [by eexists|].
  cbn in Hv. destruct (to_value obj); [apply IH|done].
Qed.

Lemma refers_sub candidates obj : refers candidates obj ⊆ candidates.
Proof using Type. unfold refers. destruct (to_value obj); [apply find_references_sub|set_solver]. Qed.

Hypothesis hash_order_perm : forall s, hash_order s ≡ₚ elements s.

Section edges.
Variables (creates : btmap text T) (deps : gmap text (list text)).
Hypothesis creates_ok : bt_ok creates.
Hypothesis deps_of : creation_dependencies to_value hash_order (list_to_set creates.*1) creates ∅ = Ok deps.

Lemma edge_refers x y : edge deps x y <-> x <> y /\ refers_to creates x y.
Proof using creates_ok deps_of hash_order_perm.
  destruct (creation_dependencies_get _ _ _ _ deps_of (bt_ok_nodup _ creates_ok)) as [Hin Hout]. unfold edge, refers_to. split.
  - intros Hy. destruct (decide (x ∈ creates.*1)) as [Hx|Hx]; cycle 1.
    { rewrite (Hout x Hx), lookup_empty in Hy. by apply not_elem_of_nil in Hy. }
    apply bt_key_get in Hx as [obj Hobj]. rewrite (Hin x obj) in Hy by (by apply bt_elem_get). cbn in Hy.
    rewrite hash_order_perm, elem_of_elements in Hy. split; [set_solver|]. exists obj. split; [done|set_solver].
  - intros [Hne (obj&Hobj&Hy)]. rewrite (Hin x obj) by (by apply bt_elem_get). cbn.
    rewrite hash_order_perm, elem_of_elements. set_solver.
Qed.

Lemma edge_closed x y : x ∈ creates.*1 -> edge deps x y -> y ∈ creates.*1.
Proof using creates_ok deps_of hash_order_perm.
  intros _ [_ (obj&_&Hy)]%edge_refers. apply refers_sub in Hy. by apply elem_of_list_to_set in Hy.
Qed.

Lemma reach_refers x y : rtc (edge deps) x y -> rtc (refers_to creates) x y.
Proof using creates_ok deps_of hash_order_perm.
  apply rtc_subrel. by intros ? ? [_ ?]%edge_refers.
Qed.
End edges.

(** The objects of [c] refer only to creates of [c] and of the chunks before it, and the
    updates come after all the creates. *)
Definition reference_ok (creates : btmap text T) (pre : list (SetChunk T)) (c : SetChunk T) : Prop :=
  (forall cid obj, (cid, obj) ∈ ck_create c ->
     refers (list_to_set creates.*1) obj ⊆ list_to_set (creates_of (pre ++ [c])).*1) /\
  (ck_update c <> [] -> creates.*1 ⊆ (creates_of (pre ++ [c])).*1).

Lemma pack_packed (request : SetRequest T) deps limit sccs :
  (0 < limit)%nat -> NoDup (default [] (sr_update request)).*1 ->
  references_back deps sccs -> NoDup (concat sccs) -> Forall (fun c => (length c <= limit)%nat) sccs ->
  concat sccs ≡ₚ (default [] (sr_create request)).*1 ->
  let p := pack limit request sccs in
  exists C, packed C deps limit (default [] (sr_update request)) (default [] (sr_destroy request)) p /\
    C.*1 ≡ₚ concat sccs /\ (forall e, e ∈ C -> bt_get e.1 (default [] (sr_create request)) = Some e.2).
Proof using Type.
  intros Hl Hnd Hback Hnds Hlen Hperm p. set (creates := default [] (sr_create request)) in *.
  assert (created_from creates deps limit sccs
    (match sr_create request with Some creates => fold_left (pack_component limit creates) sccs (Build_Packing [] chunk_default 0)
     | None => Build_Packing [] chunk_default 0 end)) as [Hf Hk He Ha Hu Hd].
  { assert (created_from creates deps limit [] (Build_Packing [] chunk_default 0)) as H0.
    { split; try done; [split; [done|constructor; [unfold chunk_len; cbn; lia|constructor]]|by intros e ?%not_elem_of_nil|].
      apply (each_after_snoc _ []). split; [by intros [] ? ?|]. by intros x y ?%not_elem_of_nil. }
    destruct (sr_create request) as [creates'|]; cbn in creates; subst creates.
    - apply (pack_components_created creates' deps limit [] sccs); try done. by rewrite Hperm.
    - assert (sccs = [] \/ sccs <> []) as [->|Hne] by (destruct sccs; auto); [done|].
      cbn in Hperm. apply Permutation_nil_r in Hperm. destruct H0 as [Hf Hk He Ha Hu Hd]. split; try done. by rewrite Hperm. }
  eexists. split_and!; [|exact Hk|exact He]. apply (pack_destroys_packed _ _ _ _ []); [done|].
  apply (pack_updates_packed _ _ _ []); [done|done|]. split; try done; [by rewrite Hu|].
  intros pre c post Heq Hne. rewrite Heq, updates_of_app in Hu. apply app_nil in Hu as [_ Hu].
  unfold updates_of in Hu. cbn in Hu. apply app_nil in Hu as [Hu _]. done.
Qed.

(** What the chunks of a request are. *)
Record partition_of (request : SetRequest T) (limit : nat) (chunks : list (SetChunk T)) : Prop := {
  po_sizes : Forall (fun c => (chunk_len c <= limit)%nat) chunks;
  po_creates : creates_of chunks ≡ₚ default [] (sr_create request);
  po_updates : updates_of chunks ≡ₚ default [] (sr_update request);
  po_destroys : destroys_of chunks = default [] (sr_destroy request);
  po_order : each_after (reference_ok (default [] (sr_create request))) chunks;
}.

Lemma packed_partition (request : SetRequest T) deps limit C p :
  let creates := default [] (sr_create request) in
  bt_ok creates -> creation_dependencies to_value hash_order (list_to_set creates.*1) creates ∅ = Ok deps ->
  C.*1 ≡ₚ creates.*1 -> (forall e, e ∈ C -> bt_get e.1 creates = Some e.2) ->
  packed C deps limit (default [] (sr_update request)) (default [] (sr_destroy request)) p ->
  partition_of request limit (pack_end p).
Proof using hash_order_perm.
  intros creates Hok Hdeps Hkeys Hent [Hf Hc Hu Hd Ha Hua]. destruct (pack_end_of p) as (Ec&Eu&Ed).
  assert (forall pre c, creates_after deps pre c -> (forall e, e ∈ ck_create c -> e ∈ C) -> forall cid obj, (cid, obj) ∈ ck_create c ->
    refers (list_to_set creates.*1) obj ⊆ list_to_set (creates_of (pre ++ [c])).*1) as Hrefs.
  { intros pre c Hpc Hcc cid obj Hin y Hy. apply elem_of_list_to_set. destruct (decide (cid = y)) as [<-|Hne].
    - rewrite creates_of_app. destruct (of_singleton c) as (->&_&_). rewrite fmap_app. apply elem_of_app. right.
      by apply (list_elem_of_fmap_2 fst _ (cid, obj)).
    - apply (Hpc cid y); [by apply (list_elem_of_fmap_2 fst _ (cid, obj))|]. apply (edge_refers creates deps); [done..|].
      split; [done|]. exists obj. split; [|done]. by apply (Hent (cid, obj)), Hcc. }
  split; rewrite ?Ec, ?Eu, ?Ed; try done.
  - apply pack_end_forall, Hf.
  - rewrite Hc. apply NoDup_Permutation.
    + apply (NoDup_fmap_1 fst). rewrite Hkeys. by apply bt_ok_nodup.
    + apply (NoDup_fmap_1 fst). by apply bt_ok_nodup.
    + intros [k v]. split; [intros He; by apply bt_elem_get, (Hent (k, v))|].
      intros He. assert (k ∈ C.*1) as Hk by (rewrite Hkeys; by apply (list_elem_of_fmap_2 fst _ (k, v))).
      apply list_elem_of_fmap in Hk as ([k' v']&->&Hk'). pose proof (Hent _ Hk') as Hg. cbn [fst snd] in *.
      apply bt_elem_get in He; [|done]. fold creates in He. assert (v = v') as -> by congruence. done.
  - apply pack_end_each. intros pre c post Heq. split.
    + apply Hrefs; [by apply (Ha pre c post)|]. intros e He. rewrite <-Hc, Heq, creates_of_app. apply elem_of_app. right.
      unfold creates_of. cbn. set_solver.
    + intros Hne. transitivity C.*1; [by rewrite Hkeys|]. by apply (Hua pre c post).
Qed.

Lemma partition_spec (request : SetRequest T) limit :
  let creates := default [] (sr_create request) in
  bt_ok creates -> bt_ok (default [] (sr_update request)) -> (0 < limit)%nat ->
  Forall (fun e => is_ok (to_value e.2) = true) creates ->
  (exists chunks, partition_set_request to_value hash_order request limit = Some (Ok chunks) /\
     partition_of request limit chunks) \/
  (exists c, partition_set_request to_value hash_order request limit = Some (Err (cycle_error c limit)) /\
     (limit < length c)%nat /\ NoDup c /\ c ⊆ creates.*1 /\
     forall x y, x ∈ c -> y ∈ c -> rtc (refers_to creates) x y).
Proof using hash_order_perm.
  intros creates Hok Hupd Hl Hval. pose proof (bt_ok_nodup _ Hok) as Hnd.
  destruct (creation_dependencies_ok (list_to_set creates.*1) creates ∅ Hval) as [deps Hdeps].
  assert (partition_set_request to_value hash_order request limit =
    (let! sorted := sort_creation_components creates.*1 deps limit in
     Some (let? sccs := sorted in Ok (pack_end (pack limit request sccs))))) as ->.
  { unfold partition_set_request, candidates_of. fold creates. by rewrite Hdeps. }
  destruct (sort_components_spec creates.*1 deps limit Hnd) as (sccs&Hperm&Hback&Hmut&Hcase).
  { intros x y. by apply (edge_closed creates deps). }
  assert (NoDup (concat sccs)) as Hnds by by rewrite Hperm.
  destruct Hcase as [[Hlen ->]|(c&Hc&Hlt&->)]; cbn.
  - left. destruct (pack_packed request deps limit sccs) as (C&Hp&Hk&He); try done; [by apply bt_ok_nodup|].
    eexists. split; [done|]. apply (packed_partition request deps limit C); [done|exact Hdeps|by rewrite Hk|exact He|exact Hp].
  - right. exists c. split_and!; try done.
    + apply list_elem_of_split in Hc as (pre&post&->). rewrite concat_app in Hnds. cbn in Hnds.
      apply NoDup_app in Hnds as (_&_&Hnds). by apply NoDup_app in Hnds as (Hnds&_).
    + rewrite <-Hperm. apply list_elem_of_split in Hc as (pre&post&->). rewrite concat_app. cbn. set_solver.
    + intros x y Hx Hy. eapply reach_refers; [done..|]. by apply (Hmut c x y).
Qed.
(** C30: A request is split into chunks that each keep to [maxObjectsInSet]. Together they hold
    every create, update and destroy of the request once, a create refers only to creates of
    its own chunk or of earlier ones, and the updates follow all the creates. The split
    fails only if more creates than the limit refer to each other in a cycle. *)
Theorem partition_sound (request : SetRequest T) limit :
  let creates := default [] (sr_create request) in
  bt_ok creates -> bt_ok (default [] (sr_update request)) -> (0 < limit)%nat ->
  Forall (fun e => is_ok (to_value e.2) = true) creates ->
  (exists chunks, partition_set_request to_value hash_order request limit = Some (Ok chunks) /\
     partition_of request limit chunks) \/
  (exists c, partition_set_request to_value hash_order request limit = Some (Err (cycle_error c limit)) /\
     (limit < length c)%nat /\ NoDup c /\ c ⊆ creates.*1 /\
     forall x y, x ∈ c -> y ∈ c -> rtc (refers_to creates) x y).
Proof using hash_order_perm. apply partition_spec. Qed.
End partition_sound.

(** Two creates that refer to each other, a third that refers to the first, an update and a
    destroy, in chunks of two. *)
Definition mixed_request : SetRequest Value :=
  {| sr_account_id := lit "A"; sr_if_in_state := None;
     sr_create := Some [(lit "a", Object [(lit "parentId", String (lit "#b"))]); (lit "b", Object [(lit "relatedTo/#a", Null)]);
                        (lit "c", Array [String (lit "#a")])];
     sr_update := Some [(lit "u", Object [(lit "mailboxIds/#c", Bool true)])];
     sr_destroy := Some [lit "d"] |}.

Lemma partition_sound_witness :
  (exists chunks, partition_set_request Ok elements mixed_request 2 = Some (Ok chunks) /\ partition_of Ok mixed_request 2 chunks) \/
  (exists c, partition_set_request Ok elements mixed_request 2 = Some (Err (cycle_error c 2)) /\ (2 < length c)%nat /\ NoDup c /\
     c ⊆ (default [] (sr_create mixed_request)).*1 /\
     forall x y, x ∈ c -> y ∈ c -> rtc (refers_to Ok (default [] (sr_create mixed_request))) x y).
Proof.
  apply (partition_sound Ok elements).
  - done.
  - repeat constructor.
  - repeat constructor.
  - lia.
  - repeat constructor.
Defined.
