(* ===== verification/SetSend.v ===== *)
(** Sending the chunks of a [/set] (jmap-client/src/set.rs: [send_chunks],
    [execute_set_chunked]): each chunk carries the creation ids of the earlier ones, and the
    answers are merged into one. *)

From Stdlib Require Import Ascii String.
From stdpp Require Import prelude strings gmap.
From S2P Require Import Prelude BTree Text Strings Json Wire Proto SetMethod Tarjan SetChunk.

Local Open Scope rust_scope.

(** ** Sending the chunks *)
Definition unresolved (creation_id : text) : Error :=
  ChunkBoundaryReferenceBroken creation_id
    (lit "creation reference #" ++ creation_id ++ lit " was not resolved before chunk boundary").

Definition failed_reference (failed_id : text) : SetError :=
  set_error_with_description (set_error_new INVALID_PROPERTIES)
    (lit "creation reference #" ++ failed_id ++ lit " failed in earlier chunk").

(** [get_or_insert_with(BTreeMap::new).insert(k, v)], and [.extend(entries)]. *)
Definition insert_in {V} (k : text) (v : V) (m : option (btmap text V)) : option (btmap text V) := Some (bt_insert k v (default [] m)).

Definition extend_in {V} (entries : btmap text V) (m : option (btmap text V)) : option (btmap text V) :=
  Some (fold_left (fun m e => bt_insert e.1 e.2 m) entries (default [] m)).

Definition with_not_created {T} (f : option (btmap text SetError) -> option (btmap text SetError)) (r : SetResponse T) : SetResponse T :=
  Build_SetResponse (sp_account_id r) (sp_old_state r) (sp_new_state r) (sp_created r) (sp_updated r) (sp_destroyed r)
    (f (sp_not_created r)) (sp_not_updated r) (sp_not_destroyed r).

Definition with_not_updated {T} (f : option (btmap Id SetError) -> option (btmap Id SetError)) (r : SetResponse T) : SetResponse T :=
  Build_SetResponse (sp_account_id r) (sp_old_state r) (sp_new_state r) (sp_created r) (sp_updated r) (sp_destroyed r)
    (sp_not_created r) (f (sp_not_updated r)) (sp_not_destroyed r).

Record Sending (W T : Type) := {
  sd_world : W;
  sd_merged : SetResponse T;
  sd_applied : bool;
  sd_created_ids : btmap Id Id;
  sd_failed_creates : gset text;
  sd_current_state : option State;
}.
Arguments sd_world {W T}.
Arguments sd_merged {W T}.
Arguments sd_applied {W T}.
Arguments sd_created_ids {W T}.
Arguments sd_failed_creates {W T}.
Arguments sd_current_state {W T}.
Arguments Build_Sending {W T}.

Section send.
Context {W T : Type}.
(** One call of the server: the request of a chunk with the creation ids so far. *)
Variable execute_chunk : W -> SetRequest T -> btmap Id Id -> W * result (SetResponse T) Error.
Variable to_value : T -> result Value Error.
Variable hash_order : gset text -> list text.

(** The references of the creates of one chunk. *)
Fixpoint create_references (candidates : gset text) (creates : list (text * T)) : result (list (text * gset text)) Error :=
  match creates with
  | [] => Ok []
  | (cid, obj) :: creates =>
      let? val := to_value obj in
      let? rest := create_references candidates creates in
      Ok ((cid, find_creation_references val candidates) :: rest)
  end.

(** One pass over the creates: those that refer to a failed create fail too. *)
Definition propagate_one (acc : gset text * SetResponse T * bool) (e : text * gset text) : gset text * SetResponse T * bool :=
  let '(failed_creates, merged, progressed) := acc in
  if decide (e.1 ∈ failed_creates) then acc
  else match find (fun r => bool_decide (r ∈ failed_creates)) (hash_order e.2) with
    | Some failed_id =>
        ({[e.1]} ∪ failed_creates, with_not_created (insert_in e.1 (failed_reference failed_id)) merged, true)
    | None => acc
    end.

(** The loop until a pass makes no progress; [None] is running out of fuel. *)
Fixpoint propagate (fuel : nat) (create_refs : list (text * gset text)) (failed_creates : gset text) (merged : SetResponse T)
  : option (gset text * SetResponse T) :=
  match fuel with
  | O => None
  | S fuel =>
      let '(failed_creates, merged, progressed) := fold_left propagate_one create_refs (failed_creates, merged, false) in
      if (progressed : bool) then propagate fuel create_refs failed_creates merged else Some (failed_creates, merged)
  end.

Definition known (created_ids : btmap Id Id) (in_chunk : gset text) (r : text) : bool :=
  bt_contains r created_ids || bool_decide (r ∈ in_chunk).

(** The creates of the chunk that have not failed; all their references must be known. The
    map is visited in order, so each insertion is at the end of the one before. *)
Fixpoint ready_creates (created_ids : btmap Id Id) (in_chunk failed_creates : gset text) (creates : list (text * T * gset text))
  : result (btmap text T) Error :=
  match creates with
  | [] => Ok []
  | (cid, obj, refs) :: creates =>
      if decide (cid ∈ failed_creates) then ready_creates created_ids in_chunk failed_creates creates
      else match find (fun r => negb (known created_ids in_chunk r)) (hash_order refs) with
        | Some unresolved_id => Err (unresolved unresolved_id)
        | None =>
            let? rest := ready_creates created_ids in_chunk failed_creates creates in
            Ok ((cid, obj) :: rest)
        end
  end.

Fixpoint ready_updates (candidates : gset text) (created_ids : btmap Id Id) (in_chunk failed_creates : gset text)
    (updates : list (Id * Value)) (merged : SetResponse T) : SetResponse T * result (btmap Id Value) Error :=
  match updates with
  | [] => (merged, Ok [])
  | (id, patch) :: updates =>
      let refs := find_creation_references patch candidates in
      match find (fun r => bool_decide (r ∈ failed_creates)) (hash_order refs) with
      | Some failed_id =>
          ready_updates candidates created_ids in_chunk failed_creates updates
            (with_not_updated (insert_in id (failed_reference failed_id)) merged)
      | None =>
          match find (fun r => negb (known created_ids in_chunk r)) (hash_order refs) with
          | Some unresolved_id => (merged, Err (unresolved unresolved_id))
          | None =>
              let '(merged, rest) := ready_updates candidates created_ids in_chunk failed_creates updates merged in
              (merged, let? rest := rest in Ok ((id, patch) :: rest))
          end
      end
  end.

(** [merged.created] and the creation ids, after the created objects of an answer. *)
Fixpoint merge_created (created : list (text * T)) (created_ids : btmap Id Id) (merged : option (btmap text T))
  : btmap Id Id * option (btmap text T) * result unit Error :=
  match created with
  | [] => (created_ids, merged, Ok tt)
  | (cid, obj) :: created =>
      match to_value obj with
      | Err e => (created_ids, merged, Err e)
      | Ok obj_val =>
          let created_ids :=
            match (let! id := value_get obj_val (lit "id") in as_str id) with
            | Some id_str => bt_insert cid id_str created_ids
            | None => created_ids
            end in
          merge_created created created_ids (insert_in cid obj merged)
      end
  end.

Definition extend_opt {V} (entries : option (btmap text V)) (m : option (btmap text V)) : option (btmap text V) :=
  match entries with Some entries => extend_in entries m | None => m end.

(** The answer of a chunk merged in; a conversion that fails leaves the rest unmerged. *)
Definition merge_response (s : Sending W T) (w : W) (response : SetResponse T) : Sending W T * result unit Error :=
  let m := sd_merged s in
  let old_state := match sp_old_state m with Some state => Some state | None => sp_old_state response end in
  let current_state := match sp_new_state response with Some state => Some state | None => sd_current_state s end in
  let new_state := match sp_new_state response with Some state => Some state | None => sp_new_state m end in
  let '(created_ids, created, r) := merge_created (default [] (sp_created response)) (sd_created_ids s) (sp_created m) in
  match r with
  | Err e =>
      (Build_Sending w
         (Build_SetResponse (sp_account_id m) old_state new_state created (sp_updated m) (sp_destroyed m)
            (sp_not_created m) (sp_not_updated m) (sp_not_destroyed m))
         true created_ids (sd_failed_creates s) current_state, Err e)
  | Ok _ =>
      (Build_Sending w
         (Build_SetResponse (sp_account_id m) old_state new_state created
            (extend_opt (sp_updated response) (sp_updated m))
            (match sp_destroyed response with Some destroyed => Some (default [] (sp_destroyed m) ++ destroyed) | None => sp_destroyed m end)
            (extend_opt (sp_not_created response) (sp_not_created m))
            (extend_opt (sp_not_updated response) (sp_not_updated m))
            (extend_opt (sp_not_destroyed response) (sp_not_destroyed m)))
         true created_ids (sd_failed_creates s ∪ list_to_set (default [] (sp_not_created response)).*1) current_state, Ok tt)
  end.

Definition with_merged (s : Sending W T) (failed_creates : gset text) (merged : SetResponse T) : Sending W T :=
  Build_Sending (sd_world s) merged (sd_applied s) (sd_created_ids s) failed_creates (sd_current_state s).

(** The body of the loop of [send_chunks]. *)
Definition send_chunk (request : SetRequest T) (s : Sending W T) (chunk : SetChunk T) : option (Sending W T * result unit Error) :=
  let candidates := candidates_of request in
  match create_references candidates (ck_create chunk) with
  | Err e => Some (s, Err e)
  | Ok create_refs =>
      let! step := propagate (S (length create_refs)) create_refs (sd_failed_creates s) (sd_merged s) in
      let '(failed_creates, merged) := step in
      let in_chunk := list_to_set (filter (fun cid => cid ∉ failed_creates) (ck_create chunk).*1) in
      match ready_creates (sd_created_ids s) in_chunk failed_creates (zip (ck_create chunk) create_refs.*2) with
      | Err e => Some (with_merged s failed_creates merged, Err e)
      | Ok create =>
          let '(merged, updates) :=
            ready_updates candidates (sd_created_ids s) in_chunk failed_creates (ck_update chunk) merged in
          let s := with_merged s failed_creates merged in
          match updates with
          | Err e => Some (s, Err e)
          | Ok update =>
              if chunk_is_empty (Build_SetChunk create update (ck_destroy chunk)) then Some (s, Ok tt)
              else
                let chunk_request :=
                  Build_SetRequest (sr_account_id request) (sd_current_state s)
                    (non_empty create) (non_empty update) (non_empty (ck_destroy chunk)) in
                let '(w, answer) := execute_chunk (sd_world s) chunk_request (sd_created_ids s) in
                Some (match answer with
                      | Err e => (Build_Sending w merged (sd_applied s) (sd_created_ids s) failed_creates (sd_current_state s), Err e)
                      | Ok response => merge_response s w response
                      end)
          end
      end
  end.

Fixpoint send_chunks (request : SetRequest T) (s : Sending W T) (chunks : list (SetChunk T)) : option (Sending W T * result unit Error) :=
  match chunks with
  | [] => Some (s, Ok tt)
  | chunk :: chunks =>
      let! step := send_chunk request s chunk in
      let '(s, r) := step in
      match r with
      | Err e => Some (s, Err e)
      | Ok _ => send_chunks request s chunks
      end
  end.

(** [serde_json::from_value(serde_json::to_value(&merged)?)?]: the objects as JSON values; a
    null is read as no object. *)
Fixpoint values_of (l : list (text * T)) : result (btmap text Value) Error :=
  match l with
  | [] => Ok []
  | (k, obj) :: l =>
      let? v := to_value obj in
      let? rest := values_of l in
      Ok ((k, v) :: rest)
  end.

Fixpoint opt_values_of (l : list (text * option T)) : result (btmap text (option Value)) Error :=
  match l with
  | [] => Ok []
  | (k, obj) :: l =>
      let? v := match obj with Some obj => let? v := to_value obj in Ok (match v with Null => None | v => Some v end) | None => Ok None end in
      let? rest := opt_values_of l in
      Ok ((k, v) :: rest)
  end.

Definition opt_map {A B E} (f : A -> result B E) (o : option A) : result (option B) E :=
  match o with Some a => let? b := f a in Ok (Some b) | None => Ok None end.

Definition as_committed (r : SetResponse T) : result (SetResponse Value) Error :=
  let? created := opt_map values_of (sp_created r) in
  let? updated := opt_map opt_values_of (sp_updated r) in
  Ok (Build_SetResponse (sp_account_id r) (sp_old_state r) (sp_new_state r) created updated (sp_destroyed r)
        (sp_not_created r) (sp_not_updated r) (sp_not_destroyed r)).

Definition total_items (request : SetRequest T) : nat :=
  (length (default [] (sr_create request)) + length (default [] (sr_update request)) + length (default [] (sr_destroy request)))%nat.

Definition execute_set_chunked (w : W) (request : SetRequest T) (limit : option nat) : option (W * result (SetResponse T) Error) :=
  match limit with
  | None | Some O => Some (execute_chunk w request [])
  | Some limit =>
      if (total_items request <=? limit)%nat then Some (execute_chunk w request [])
      else
        let! partition := partition_set_request to_value hash_order request limit in
        match partition with
        | Err e => Some (w, Err e)
        | Ok chunks =>
            let merged := Build_SetResponse (sr_account_id request) None None None None None None None None in
            let! step := send_chunks request (Build_Sending w merged false [] ∅ (sr_if_in_state request)) chunks in
            let '(s, r) := step in
            Some (sd_world s,
                  match r with
                  | Ok _ => Ok (sd_merged s)
                  | Err cause =>
                      if sd_applied s then
                        match as_committed (sd_merged s) with
                        | Ok committed => Err (SetPartiallyApplied committed cause)
                        | Err e => Err e
                        end
                      else Err cause
                  end)
        end
  end.
End send.

(** ** Answers *)
Definition keys_in {V} (o : option (btmap text V)) : list text := (default [] o).*1.

(** Every item is reported as done or as refused. *)
Record answered {T} (m : SetResponse T) (creates updates destroys : list text) : Prop := {
  an_creates : forall cid, cid ∈ creates -> cid ∈ keys_in (sp_created m) \/ cid ∈ keys_in (sp_not_created m);
  an_updates : forall id, id ∈ updates -> id ∈ keys_in (sp_updated m) \/ id ∈ keys_in (sp_not_updated m);
  an_destroys : forall id, id ∈ destroys -> id ∈ default [] (sp_destroyed m) \/ id ∈ keys_in (sp_not_destroyed m);
}.

Record grows {T} (m m' : SetResponse T) : Prop := {
  gw_created : keys_in (sp_created m) ⊆ keys_in (sp_created m');
  gw_not_created : keys_in (sp_not_created m) ⊆ keys_in (sp_not_created m');
  gw_updated : keys_in (sp_updated m) ⊆ keys_in (sp_updated m');
  gw_not_updated : keys_in (sp_not_updated m) ⊆ keys_in (sp_not_updated m');
  gw_destroyed : default [] (sp_destroyed m) ⊆ default [] (sp_destroyed m');
  gw_not_destroyed : keys_in (sp_not_destroyed m) ⊆ keys_in (sp_not_destroyed m');
}.

Lemma grows_refl {T} (m : SetResponse T) : grows m m.
Proof. by split. Qed.

Lemma grows_trans {T} (m1 m2 m3 : SetResponse T) : grows m1 m2 -> grows m2 m3 -> grows m1 m3.
Proof. intros [] []. split; by etrans. Qed.

Lemma answered_grows {T} (m m' : SetResponse T) c u d : grows m m' -> answered m c u d -> answered m' c u d.
Proof.
  intros [Hc Hnc Hu Hnu Hd Hnd] [Ac Au Ad]. split; intros x Hx.
  - destruct (Ac x Hx); auto.
  - destruct (Au x Hx); auto.
  - destruct (Ad x Hx); auto.
Qed.

Lemma keys_insert_in {V} k (v : V) o x : x ∈ keys_in (insert_in k v o) <-> x = k \/ x ∈ keys_in o.
Proof. unfold keys_in, insert_in. cbn. apply bt_insert_keys. Qed.

Lemma keys_extend_in {V} (entries : btmap text V) o x : x ∈ keys_in (extend_in entries o) <-> x ∈ entries.*1 \/ x ∈ keys_in o.
Proof.
  unfold extend_in. cbn. unfold keys_in. cbn. generalize (default [] o). induction entries as [|[k v] entries IH]; intros m; cbn; [set_solver|].
  rewrite IH, bt_insert_keys, elem_of_cons. tauto.
Qed.

Lemma keys_extend_opt {V} (entries o : option (btmap text V)) x : x ∈ keys_in (extend_opt entries o) <-> x ∈ keys_in entries \/ x ∈ keys_in o.
Proof. destruct entries as [entries|]; cbn [extend_opt]; [apply keys_extend_in|]. cbn. set_solver. Qed.

Lemma grows_not_created {T} (m : SetResponse T) k e : grows m (with_not_created (insert_in k e) m).
Proof. split; cbn; try done. intros x Hx. apply keys_insert_in. by right. Qed.

Lemma grows_not_updated {T} (m : SetResponse T) k e : grows m (with_not_updated (insert_in k e) m).
Proof. split; cbn; try done. intros x Hx. apply keys_insert_in. by right. Qed.

Section references.
Context {T : Type}.
Variable to_value : T -> result Value Error.
Variable hash_order : gset text -> list text.

Definition refs_of (candidates : gset text) (creates : list (text * T)) : list (text * gset text) :=
  (fun e => (e.1, refers to_value candidates e.2)) <$> creates.

Lemma create_references_ok candidates creates :
  Forall (fun e => is_ok (to_value e.2) = true) creates ->
  create_references to_value candidates creates = Ok (refs_of candidates creates).
Proof using Type.
  induction 1 as [|[cid obj] creates Hv _ IH]; cbn; [done|]. unfold refers. cbn in Hv. destruct (to_value obj); [|done].
  cbn. by rewrite IH.
Qed.
End references.

Lemma size_list_to_set_le (l : list text) : (size (list_to_set l : gset text) <= length l)%nat.
Proof.
  induction l as [|x l IH]; cbn; [by rewrite size_empty|]. rewrite size_union_alt, size_singleton.
  assert (size (list_to_set l ∖ {[x]} : gset text) <= size (list_to_set l : gset text))%nat by (apply subseteq_size; set_solver). lia.
Qed.

(** ** Failed creates *)
Section propagation.
Context {T : Type}.
Variable hash_order : gset text -> list text.
Hypothesis hash_order_perm : forall s, hash_order s ≡ₚ elements s.
Implicit Types (m : SetResponse T) (refs : list (text * gset text)).

Lemma find_order_None (P : text -> bool) s : find P (hash_order s) = None <-> forall r, r ∈ s -> P r = false.
Proof using hash_order_perm.
  split.
  - intros H r Hr. apply (find_none _ _ H). apply list_elem_of_In. by rewrite hash_order_perm, elem_of_elements.
  - intros H. destruct (find P (hash_order s)) as [r|] eqn:E; [|done]. apply find_some in E as [Hin Hr].
    apply list_elem_of_In in Hin. rewrite hash_order_perm, elem_of_elements in Hin. by rewrite (H r Hin) in Hr.
Qed.

Record propagated (keys : list text) (failed : gset text) m (failed' : gset text) m' : Prop := {
  pp_failed : failed ⊆ failed';
  pp_new : forall x, x ∈ failed' -> x ∈ failed \/ (x ∈ keys /\ x ∈ keys_in (sp_not_created m'));
  pp_grows : grows m m';
}.

Lemma propagated_refl keys failed m : propagated keys failed m failed m.
Proof using Type. split; [done|auto|apply grows_refl]. Qed.

Lemma propagated_trans keys f1 m1 f2 m2 f3 m3 : propagated keys f1 m1 f2 m2 -> propagated keys f2 m2 f3 m3 -> propagated keys f1 m1 f3 m3.
Proof using Type.
  intros [Hf Hn Hg] [Hf' Hn' Hg']. split; [by etrans| |by eapply grows_trans].
  intros x [Hx|Hx]%Hn'; [|by right]. apply Hn in Hx as [Hx|[Hk Hx]]; [by left|]. right. split; [done|]. by apply (gw_not_created _ _ Hg').
Qed.

(** Nothing that is left refers to something that failed. *)
Definition settled_refs refs (failed : gset text) : Prop := forall cid r, cid ∉ failed -> r ∈ failed -> forall s, (cid, s) ∈ refs -> r ∉ s.

Lemma propagate_pass refs failed m pr :
  let '(failed', m', pr') := fold_left (propagate_one hash_order) refs (failed, m, pr) in
  propagated refs.*1 failed m failed' m' /\
  ((pr' = pr /\ failed' = failed /\ m' = m /\ settled_refs refs failed) \/
   (pr' = true /\ exists x, x ∈ refs.*1 /\ x ∈ failed' /\ x ∉ failed)).
Proof using hash_order_perm.
  revert failed m pr. induction refs as [|[cid s] refs IH]; intros failed m pr; cbn [fold_left].
  { split; [apply propagated_refl|]. left. split_and!; [done..|]. by intros ? ? ? ? ? ?%not_elem_of_nil. }
  assert (forall f m0 f' m', propagated refs.*1 f m0 f' m' -> propagated (cid :: refs.*1) f m0 f' m') as Hweak.
  { intros f m0 f' m' [? Hn ?]. split; try done. intros x [?|[? ?]]%Hn; [by left|]. right. split; [by right|done]. }
  cbn [propagate_one fst snd]. case_decide as Hin; [|destruct (find _ (hash_order s)) as [r|] eqn:E].
  - specialize (IH failed m pr). destruct (fold_left _ _ _) as [[f' m'] pr']. destruct IH as [Hp Hcase]. split; [by apply Hweak|].
    destruct Hcase as [(->&->&->&Hs)|(->&x&Hx&?&?)]; [left|right; split; [done|]; exists x; split; [by right|done]].
    split_and!; [done..|]. intros c r Hc Hr s' [[= -> ->]|He]%elem_of_cons; [done|by eapply Hs].
  - specialize (IH ({[cid]} ∪ failed) (with_not_created (insert_in cid (failed_reference r)) m) true).
    destruct (fold_left _ _ _) as [[f' m'] pr']. destruct IH as [Hp Hcase]. split.
    + eapply propagated_trans; [|by apply Hweak]. split; [set_solver| |apply grows_not_created].
      intros x [->%elem_of_singleton|?]%elem_of_union; [|by left]. right. split; [by left|]. apply keys_insert_in. by left.
    + right. split; [destruct Hcase as [[-> _]|[-> _]]; done|]. exists cid. split_and!; [by left| |done]. apply (pp_failed _ _ _ _ _ Hp). set_solver.
  - specialize (IH failed m pr). destruct (fold_left _ _ _) as [[f' m'] pr']. destruct IH as [Hp Hcase]. split; [by apply Hweak|].
    destruct Hcase as [(->&->&->&Hs)|(->&x&Hx&?&?)]; [left|right; split; [done|]; exists x; split; [by right|done]].
    split_and!; [done..|]. intros c r Hc Hr s' [[= -> ->]|He]%elem_of_cons; [|by eapply Hs].
    intros Hrs. rewrite find_order_None in E. specialize (E r Hrs). by apply bool_decide_eq_false in E.
Qed.

Lemma propagate_spec fuel refs failed m :
  (size (list_to_set refs.*1 ∖ failed) < fuel)%nat ->
  exists failed' m', propagate hash_order fuel refs failed m = Some (failed', m') /\
    propagated refs.*1 failed m failed' m' /\ settled_refs refs failed'.
Proof using hash_order_perm.
  revert failed m. induction fuel as [|fuel IH]; intros failed m Hfuel; [lia|]. cbn [propagate].
  pose proof (propagate_pass refs failed m false) as Hpass. destruct (fold_left _ _ _) as [[f' m'] pr'].
  destruct Hpass as [Hp [(->&->&->&Hs)|(->&x&Hx&Hxf&Hxn)]].
  - exists failed, m. split_and!; [done|apply propagated_refl|done].
  - destruct (IH f' m') as (f''&m''&Hrun&Hp'&Hs').
    + assert (size (list_to_set refs.*1 ∖ f') < size (list_to_set refs.*1 ∖ failed))%nat; [|lia]. apply subset_size. split.
      * pose proof (pp_failed _ _ _ _ _ Hp). set_solver.
      * intros Hsub. specialize (Hsub x). set_solver.
    + exists f'', m''. split_and!; [done|by eapply propagated_trans|done].
Qed.

Lemma propagate_runs refs failed m :
  exists failed' m', propagate hash_order (S (length refs)) refs failed m = Some (failed', m') /\
    propagated refs.*1 failed m failed' m' /\ settled_refs refs failed'.
Proof using hash_order_perm.
  apply propagate_spec, Nat.lt_succ_r. rewrite <-(length_fmap fst refs).
  etrans; [|apply size_list_to_set_le]. apply subseteq_size. apply subseteq_difference_l. done.
Qed.
End propagation.

(** ** What is ready to be sent *)
Section ready.
Context {T : Type}.
Variable hash_order : gset text -> list text.
Hypothesis hash_order_perm : forall s, hash_order s ≡ₚ elements s.
Implicit Types (m : SetResponse T).

Lemma ready_creates_filter (created_ids : btmap Id Id) (in_chunk failed : gset text) (creates : list (text * T * gset text)) (l : btmap text T) :
  ready_creates hash_order created_ids in_chunk failed creates = Ok l -> l = filter (fun e => e.1 ∉ failed) creates.*1.
Proof using Type.
  revert l. induction creates as [|[[cid obj] refs] creates IH]; intros l; cbn [ready_creates]; [by intros [= <-]|].
  rewrite fmap_cons, filter_cons. cbn [fst]. case_decide.
  - rewrite decide_False by tauto. apply IH.
  - rewrite decide_True by done. destruct (find _ _); [done|]. intros (rest&Hr&[= <-])%rbind_ok. by rewrite (IH rest Hr).
Qed.

Lemma ready_creates_ok (created_ids : btmap Id Id) (in_chunk failed : gset text) (creates : list (text * T * gset text)) :
  (forall cid obj s, (cid, obj, s) ∈ creates -> cid ∉ failed -> forall r, r ∈ s -> known created_ids in_chunk r = true) ->
  exists l, ready_creates hash_order created_ids in_chunk failed creates = Ok l.
Proof using hash_order_perm.
  induction creates as [|[[cid obj] refs] creates IH]; intros Hk; cbn; [by eexists|].
  destruct IH as [l Hl]; [intros; eapply Hk; [by right|done..]|]. case_decide; [by eexists|].
  rewrite (proj2 (find_order_None hash_order hash_order_perm _ refs)); [rewrite Hl; by eexists|].
  intros r Hr. rewrite (Hk cid obj refs) by (done || by left). done.
Qed.

Lemma ready_updates_spec (candidates : gset text) (created_ids : btmap Id Id) (in_chunk failed : gset text) updates m :
  let '(m', r) := ready_updates hash_order candidates created_ids in_chunk failed updates m in
  grows m m' /\ forall l, r = Ok l -> (length l <= length updates)%nat /\
    forall id, id ∈ updates.*1 -> id ∈ l.*1 \/ id ∈ keys_in (sp_not_updated m').
Proof using Type.
  revert m. induction updates as [|[id patch] updates IH]; intros m; cbn.
  { split; [apply grows_refl|]. intros l [= <-]. split; [done|]. by intros ? ?%not_elem_of_nil. }
  destruct (find _ _) as [failed_id|].
  - specialize (IH (with_not_updated (insert_in id (failed_reference failed_id)) m)). destruct (ready_updates _ _ _ _ _ _ _) as [m' r].
    destruct IH as [Hg Hr]. split; [eapply grows_trans; [apply grows_not_updated|done]|].
    intros l Hl. destruct (Hr l Hl) as [Hlen Hin]. split; [lia|]. intros x [->|Hx]%elem_of_cons; [|by apply Hin].
    right. apply (gw_not_updated _ _ Hg), keys_insert_in. by left.
  - destruct (find _ _) as [unresolved_id|]; [split; [apply grows_refl|done]|].
    specialize (IH m). destruct (ready_updates _ _ _ _ _ _ _) as [m' r]. destruct IH as [Hg Hr]. split; [done|].
    intros l (rest&Hrest&[= <-])%rbind_ok. destruct (Hr rest Hrest) as [Hlen Hin]. split; [cbn; lia|].
    intros x [->|Hx]%elem_of_cons; [left; cbn; by left|]. destruct (Hin x Hx); [left; cbn; by right|by right].
Qed.

Lemma ready_updates_ok (candidates : gset text) (created_ids : btmap Id Id) (in_chunk failed : gset text) updates m :
  (updates <> [] -> forall r, r ∈ candidates -> r ∉ failed -> known created_ids in_chunk r = true) ->
  is_ok (ready_updates hash_order candidates created_ids in_chunk failed updates m).2 = true.
Proof using hash_order_perm.
  revert m. induction updates as [|[id patch] updates IH]; intros m Hk; cbn; [done|].
  assert (updates <> [] -> forall r, r ∈ candidates -> r ∉ failed -> known created_ids in_chunk r = true) as Hk' by (intros _; by apply Hk).
  destruct (find _ _) as [failed_id|] eqn:E; [by apply IH|].
  rewrite (proj2 (find_order_None hash_order hash_order_perm (fun r => negb (known created_ids in_chunk r)) _)).
  - specialize (IH m Hk'). destruct (ready_updates _ _ _ _ _ _ _) as [m' [l|]]; [done|done].
  - intros r Hr. rewrite (find_order_None hash_order hash_order_perm) in E. specialize (E r Hr). apply bool_decide_eq_false in E.
    rewrite Hk; [done|done| |done]. by apply find_references_sub in Hr.
Qed.

End ready.

(** ** Merging an answer *)
Section merging.
Context {T : Type}.
Variable to_value : T -> result Value Error.

Lemma zip_refs_of candidates (creates : list (text * T)) :
  zip creates (refs_of to_value candidates creates).*2 = (fun e => (e, refers to_value candidates e.2)) <$> creates.
Proof using Type. unfold refs_of. induction creates as [|e creates IH]; cbn; [done|]. by rewrite IH. Qed.

Definition has_id (obj : T) : Prop :=
  exists v id, to_value obj = Ok v /\ (let! id := value_get v (lit "id") in as_str id) = Some id.

Lemma merge_created_spec (created : list (text * T)) created_ids merged :
  let '(ids', merged', r) := merge_created to_value created created_ids merged in
  keys_in merged ⊆ keys_in merged' /\ (created_ids : btmap Id Id).*1 ⊆ ids'.*1 /\
  (Forall (fun e => is_ok (to_value e.2) = true) created -> r = Ok tt) /\
  (r = Ok tt -> created.*1 ⊆ keys_in merged' /\ forall cid obj, (cid, obj) ∈ created -> has_id obj -> cid ∈ ids'.*1).
Proof using Type.
  revert created_ids merged. induction created as [|[cid obj] created IH]; intros created_ids merged; cbn [merge_created].
  { split_and!; [done..|]. intros _. split; [set_solver|]. by intros ? ? ?%not_elem_of_nil. }
  destruct (to_value obj) as [v|e] eqn:Ev; cycle 1.
  { split_and!; [done..| |done]. intros Hf. apply Forall_cons in Hf as [Hf _]. cbn in Hf. by rewrite Ev in Hf. }
  set (ids1 := match _ with Some id_str => _ | None => created_ids end).
  assert (created_ids.*1 ⊆ ids1.*1 /\ (has_id obj -> cid ∈ ids1.*1)) as [Hsub Hid].
  { subst ids1. destruct (value_get v (lit "id") ≫= as_str) as [id|] eqn:E.
    - split; [intros x Hx; apply bt_insert_keys; by right|]. intros _. apply bt_insert_keys. by left.
    - split; [done|]. intros (v'&id&Hv'&Hid). rewrite Ev in Hv'. injection Hv' as <-.
      assert (Some id = None) by (rewrite <-Hid; exact E). done. }
  specialize (IH ids1 (insert_in cid obj merged)). destruct (merge_created _ _ _ _) as [[ids' merged'] r].
  destruct IH as (Hk&Hi&Hok&Hr). split_and!.
  - intros x Hx. apply Hk, keys_insert_in. by right.
  - by etrans.
  - intros Hf. apply Forall_cons in Hf as [_ Hf]. by apply Hok.
  - intros ->. destruct (Hr eq_refl) as [Hc Hids]. split.
    + intros x [->|Hx]%elem_of_cons; [|by apply Hc]. apply Hk, keys_insert_in. by left.
    + intros c o [[= -> ->]|Hin]%elem_of_cons Ho; [by apply Hi, Hid|by eapply Hids].
Qed.

(** What a server reports of a request: every item is done or refused, and each created
    object has an id. *)
Record reports (request : SetRequest T) (response : SetResponse T) : Prop := {
  rp_answered : answered response (default [] (sr_create request)).*1 (default [] (sr_update request)).*1 (default [] (sr_destroy request));
  rp_objects : Forall (fun e => has_id e.2) (default [] (sp_created response));
}.

Lemma has_id_ok (l : list (text * T)) : Forall (fun e => has_id e.2) l -> Forall (fun e => is_ok (to_value e.2) = true) l.
Proof using Type. intros H. eapply Forall_impl; [exact H|]. intros e (v&id&Hv&_). by rewrite Hv. Qed.

Lemma merge_response_spec {W} (s : Sending W T) w response :
  let '(s', r) := merge_response to_value s w response in
  sd_world s' = w /\ sd_applied s' = true /\ grows (sd_merged s) (sd_merged s') /\
  (sd_created_ids s).*1 ⊆ (sd_created_ids s').*1 /\ sd_failed_creates s ⊆ sd_failed_creates s' /\
  sd_failed_creates s' ⊆ sd_failed_creates s ∪ list_to_set (keys_in (sp_not_created response)) /\
  (Forall (fun e => has_id e.2) (default [] (sp_created response)) ->
     r = Ok tt /\ grows response (sd_merged s') /\
     keys_in (sp_created response) ⊆ (sd_created_ids s').*1 /\
     list_to_set (keys_in (sp_not_created response)) ⊆ sd_failed_creates s').
Proof using Type.
  unfold merge_response.
  pose proof (merge_created_spec (default [] (sp_created response)) (sd_created_ids s) (sp_created (sd_merged s))) as Hm.
  destruct (merge_created _ _ _ _) as [[ids created] r]. destruct Hm as (Hk&Hi&Hok&Hr).
  destruct r as [[]|e]; cbn.
  - destruct (Hr eq_refl) as [Hc Hids]. split_and!; [done|done| |done|set_solver|done|].
    + split; cbn; try done; try (intros x Hx; apply keys_extend_opt; by right). destruct (sp_destroyed response); cbn; set_solver.
    + intros Hf. split_and!; [done| | |set_solver].
      * split; cbn; try done; try (intros x Hx; apply keys_extend_opt; by left). destruct (sp_destroyed response); cbn; set_solver.
      * intros x Hx. apply list_elem_of_fmap in Hx as ([cid obj]&->&Hin). rewrite Forall_forall in Hf.
        apply (Hids cid obj Hin), (Hf _ Hin).
  - split_and!; try done; [set_solver|]. intros Hf. pose proof (Hok (has_id_ok _ Hf)). done.
Qed.
End merging.

(** ** One chunk, against any server *)
Section calls.
Context {W T : Type}.
Variable execute_chunk : W -> SetRequest T -> btmap Id Id -> W * result (SetResponse T) Error.
Variable to_value : T -> result Value Error.
Variable hash_order : gset text -> list text.
Hypothesis hash_order_perm : forall s, hash_order s ≡ₚ elements s.

Lemma ready_creates_length (created_ids : btmap Id Id) (in_chunk failed : gset text) (creates : btmap text T) (refs : list (gset text)) l :
  ready_creates hash_order created_ids in_chunk failed (zip creates refs) = Ok l -> (length l <= length creates)%nat.
Proof using Type.
  intros ->%ready_creates_filter. etrans; [apply length_filter|]. rewrite length_fmap, length_zip_with. lia.
Qed.

(** A chunk makes at most one call, with no more items than the chunk has. *)
Definition one_call (s : Sending W T) (size : nat) (s' : Sending W T) (r : result unit Error) : Prop :=
  (sd_world s' = sd_world s /\ sd_applied s' = sd_applied s) \/
  exists q ids w' answer, execute_chunk (sd_world s) q ids = (w', answer) /\ (total_items q <= size)%nat /\
    sd_world s' = w' /\ sd_applied s' = is_ok answer || sd_applied s /\ (is_ok answer = false -> is_ok r = false).

Lemma send_chunk_calls request (s : Sending W T) chunk :
  exists s' r, send_chunk execute_chunk to_value hash_order request s chunk = Some (s', r) /\ one_call s (chunk_len chunk) s' r.
Proof using hash_order_perm.
  unfold send_chunk. destruct (create_references _ _ _) as [refs|e]; [|by do 2 eexists; split; [done|left]].
  destruct (propagate_runs hash_order hash_order_perm refs (sd_failed_creates s) (sd_merged s)) as (failed&merged&->&_). cbn [mbind option_bind].
  destruct (ready_creates _ _ _ _ _) as [create|e] eqn:Ec; [|by do 2 eexists; split; [done|left]].
  pose proof (ready_updates_spec hash_order (candidates_of request) (sd_created_ids s)
    (list_to_set (filter (fun cid => cid ∉ failed) (ck_create chunk).*1)) failed (ck_update chunk) merged) as Hu.
  destruct (ready_updates _ _ _ _ _ _ _) as [merged' [update|e]]; [|by do 2 eexists; split; [done|left]].
  destruct (chunk_is_empty _); [by do 2 eexists; split; [done|left]|].
  destruct (execute_chunk _ _ _) as [w' answer] eqn:Ecall.
  assert (forall s' r, sd_world s' = w' -> sd_applied s' = is_ok answer || sd_applied s -> (is_ok answer = false -> is_ok r = false) ->
    one_call s (chunk_len chunk) s' r) as Hcall.
  { intros s' r H1 H2 H3. right. do 4 eexists. split_and!; [exact Ecall| |done..].
    unfold total_items, chunk_len. cbn. rewrite !non_empty_default. apply ready_creates_length in Ec.
    destruct Hu as [_ Hu]. destruct (Hu update eq_refl). lia. }
  destruct answer as [response|e]; cbn [is_ok orb] in Hcall; [|do 2 eexists; split; [done|]; by apply Hcall].
  pose proof (merge_response_spec to_value (with_merged s failed merged') w' response) as Hm.
  destruct (merge_response _ _ _ _) as [s' r]. do 2 eexists. split; [done|]. apply Hcall; [apply Hm..|done].
Qed.
End calls.

(** ** All the chunks, against any server *)
Section log.
Context {W T : Type}.
Variable execute_chunk : W -> SetRequest T -> btmap Id Id -> W * result (SetResponse T) Error.
Variable to_value : T -> result Value Error.
Variable hash_order : gset text -> list text.
Hypothesis hash_order_perm : forall s, hash_order s ≡ₚ elements s.

(** The call, with the requests so far and whether the server accepted each of them. *)
Definition logged (w : W * list (SetRequest T * bool)) (q : SetRequest T) (ids : btmap Id Id)
  : (W * list (SetRequest T * bool)) * result (SetResponse T) Error :=
  let '(w', answer) := execute_chunk w.1 q ids in ((w', w.2 ++ [(q, is_ok answer)]), answer).

Definition accepted_any (log : list (SetRequest T * bool)) : bool := existsb snd log.

Record log_ok (limit : nat) (s : Sending (W * list (SetRequest T * bool)) T) : Prop := {
  lk_applied : sd_applied s = accepted_any (sd_world s).2;
  lk_sizes : Forall (fun q => (total_items q.1 <= limit)%nat) (sd_world s).2;
}.

Lemma one_call_log limit s size s' r :
  (size <= limit)%nat -> one_call logged s size s' r -> log_ok limit s -> log_ok limit s'.
Proof using Type.
  intros Hsize [[Hw Ha]|(q&ids&w'&answer&Hcall&Hq&Hw&Ha&_)] [Hap Hlog]; [by split; rewrite Hw, ?Ha|].
  unfold logged in Hcall. destruct (execute_chunk (sd_world s).1 q ids) as [w'' answer']. injection Hcall as <- <-.
  split; rewrite Hw; cbn.
  - rewrite Ha, Hap. unfold accepted_any. rewrite existsb_app. cbn. by rewrite orb_false_r, orb_comm.
  - apply Forall_app. split; [done|]. constructor; [cbn; lia|constructor].
Qed.

Lemma send_chunks_log request limit s chunks :
  Forall (fun c => (chunk_len c <= limit)%nat) chunks -> log_ok limit s ->
  exists s' r, send_chunks logged to_value hash_order request s chunks = Some (s', r) /\ log_ok limit s'.
Proof using hash_order_perm.
  intros Hf. revert s. induction Hf as [|c chunks Hc _ IH]; intros s Hs; cbn [send_chunks]; [by do 2 eexists|].
  destruct (send_chunk_calls logged to_value hash_order hash_order_perm request s c) as (s'&r&->&Hcall). cbn [mbind option_bind].
  pose proof (one_call_log limit s _ s' r Hc Hcall Hs) as Hs'. destruct r; [by apply IH|by do 2 eexists].
Qed.

Lemma values_of_ok l : (forall obj, is_ok (to_value obj) = true) -> is_ok (values_of to_value l) = true.
Proof using Type.
  intros Hv. induction l as [|[k obj] l IH]; cbn; [done|]. specialize (Hv obj). destruct (to_value obj); [|done]. cbn.
  by destruct (values_of to_value l).
Qed.

Lemma opt_values_of_ok l : (forall obj, is_ok (to_value obj) = true) -> is_ok (opt_values_of to_value l) = true.
Proof using Type.
  intros Hv. induction l as [|[k [obj|]] l IH]; cbn; [done|..].
  - specialize (Hv obj). destruct (to_value obj); [|done]. cbn. by destruct (opt_values_of to_value l).
  - by destruct (opt_values_of to_value l).
Qed.

Lemma as_committed_ok r : (forall obj, is_ok (to_value obj) = true) -> exists c, as_committed to_value r = Ok c.
Proof using Type.
  intros Hv. unfold as_committed, opt_map.
  assert (forall l, exists m, values_of to_value l = Ok m) as Hvs.
  { intros l. pose proof (values_of_ok l Hv). destruct (values_of to_value l); [by eexists|done]. }
  assert (forall l, exists m, opt_values_of to_value l = Ok m) as Hos.
  { intros l. pose proof (opt_values_of_ok l Hv). destruct (opt_values_of to_value l); [by eexists|done]. }
  destruct (sp_created r) as [l|], (sp_updated r) as [l'|];
    repeat match goal with |- context [values_of to_value ?l] => destruct (Hvs l) as [? ->] || fail
           | |- context [opt_values_of to_value ?l] => destruct (Hos l) as [? ->] end; by eexists.
Qed.

(** C33: Against any server, a chunked [/set] ends, no request has more items than
    [maxObjectsInSet], and a caller learns when it was applied in part: if the call fails
    after the server has accepted a chunk, the error is [SetPartiallyApplied], with what is
    committed. *)
Theorem execute_set_chunked_reports w request limit :
  let creates := default [] (sr_create request) in
  bt_ok creates -> bt_ok (default [] (sr_update request)) -> (0 < limit)%nat ->
  (forall obj, is_ok (to_value obj) = true) ->
  exists w' sent r,
    execute_set_chunked logged to_value hash_order (w, []) request (Some limit) = Some ((w', sent), r) /\
    Forall (fun q => (total_items q.1 <= limit)%nat) sent /\
    (is_ok r = false -> accepted_any sent = true -> exists committed cause, r = Err (SetPartiallyApplied committed cause)).
Proof using hash_order_perm.
  intros creates Hc Hu Hl Hv. unfold execute_set_chunked. destruct limit as [|limit]; [lia|].
  destruct (Nat.leb_spec (total_items request) (S limit)) as [Hle|_].
  { unfold logged. cbn. destruct (execute_chunk w request []) as [w' answer]. do 3 eexists. split; [done|].
    split; [constructor; [exact Hle|constructor]|]. cbn. rewrite orb_false_r. by intros ->. }
  destruct (partition_spec to_value hash_order hash_order_perm request (S limit) Hc Hu Hl) as [(chunks&->&Hp)|(c&->&_)].
  { apply Forall_forall. intros e _. apply Hv. }
  2: { cbn. do 3 eexists. split; [done|]. split; [constructor|]. done. }
  cbn [mbind option_bind]. set (s0 := Build_Sending _ _ _ _ _ _).
  destruct (send_chunks_log request (S limit) s0 chunks) as (s'&r&->&[Ha Hs]); [apply Hp|by split|]. cbn [mbind option_bind].
  destruct (sd_world s') as [w' sent] eqn:Ew. cbn [fst snd] in Ha, Hs. do 3 eexists. split; [done|]. split; [done|].
  destruct r as [[]|cause]; [done|]. intros _ Hacc. rewrite Ha, Hacc.
  destruct (as_committed_ok (sd_merged s') Hv) as [committed ->]. by do 2 eexists.
Qed.
End log.

(** ** All the chunks, against a server that reports every item *)
Section conforming.
Context {W T : Type}.
Variable execute_chunk : W -> SetRequest T -> btmap Id Id -> W * result (SetResponse T) Error.
Variable to_value : T -> result Value Error.
Variable hash_order : gset text -> list text.
Hypothesis hash_order_perm : forall s, hash_order s ≡ₚ elements s.
Hypothesis conforming : forall w q ids, exists w' response, execute_chunk w q ids = (w', Ok response) /\ reports to_value q response.

(** After the chunks [pre]: each of their creates has an id or failed, and every item of
    them is answered. *)
Record progress (pre : list (SetChunk T)) (s : Sending W T) : Prop := {
  pg_resolved : forall cid, cid ∈ (creates_of pre).*1 -> cid ∈ (sd_created_ids s).*1 \/ cid ∈ sd_failed_creates s;
  pg_failed : forall cid, cid ∈ sd_failed_creates s -> cid ∈ keys_in (sp_not_created (sd_merged s));
  pg_answered : answered (sd_merged s) (creates_of pre).*1 (updates_of pre).*1 (destroys_of pre);
}.

Lemma answered_app (m : SetResponse T) c u d c' u' d' :
  answered m c u d -> answered m c' u' d' -> answered m (c ++ c') (u ++ u') (d ++ d').
Proof using Type. intros [] []. split; intros x [Hx|Hx]%elem_of_app; auto. Qed.

Section step.
Variables (request : SetRequest T) (pre : list (SetChunk T)) (s : Sending W T) (c : SetChunk T).
Let creates := default [] (sr_create request).
Hypothesis values : Forall (fun e => is_ok (to_value e.2) = true) (ck_create c).
Hypothesis in_order : reference_ok to_value creates pre c.
Hypothesis before : progress pre s.

(** A create that is not failed is known. *)
Lemma known_reference failed r :
  sd_failed_creates s ⊆ failed -> r ∈ (creates_of (pre ++ [c])).*1 -> r ∉ failed ->
  known (sd_created_ids s) (list_to_set (filter (fun cid => cid ∉ failed) (ck_create c).*1)) r = true.
Proof using before.
  intros Hsub Hr Hnf. unfold known. apply orb_true_iff. rewrite creates_of_app in Hr. destruct (of_singleton c) as (Ec&_&_).
  rewrite Ec, fmap_app in Hr. apply elem_of_app in Hr as [Hr|Hr].
  - left. apply bt_contains_true, bt_key_get. destruct (pg_resolved _ _ before r Hr) as [?|Hf]; [done|]. by apply Hsub in Hf.
  - right. apply bool_decide_eq_true. apply elem_of_list_to_set, list_elem_of_filter. done.
Qed.

Lemma ready_creates_here failed :
  sd_failed_creates s ⊆ failed -> settled_refs (refs_of to_value (list_to_set creates.*1) (ck_create c)) failed ->
  ready_creates hash_order (sd_created_ids s) (list_to_set (filter (fun cid => cid ∉ failed) (ck_create c).*1)) failed
    (zip (ck_create c) (refs_of to_value (list_to_set creates.*1) (ck_create c)).*2) =
  Ok (filter (fun e => e.1 ∉ failed) (ck_create c)).
Proof using in_order before hash_order_perm.
  intros Hsub Hset. rewrite zip_refs_of. set (entries := (fun e => (e, refers to_value (list_to_set creates.*1) e.2)) <$> ck_create c).
  assert (entries.*1 = ck_create c) as Hent by (unfold entries; rewrite <-list_fmap_compose; apply list_fmap_id).
  destruct (ready_creates_ok hash_order hash_order_perm (sd_created_ids s)
    (list_to_set (filter (fun cid => cid ∉ failed) (ck_create c).*1)) failed entries) as [l Hl].
  - intros ? ? ? ([cid obj]&[= -> -> ->]&Hin)%list_elem_of_fmap Hnf r Hr. apply known_reference; [done|..].
    + apply (elem_of_list_to_set (C:=gset text)). by apply (proj1 in_order cid obj Hin).
    + intros Hrf. apply (Hset cid r Hnf Hrf (refers to_value (list_to_set creates.*1) obj)); [|done].
      apply list_elem_of_fmap. by exists (cid, obj).
  - rewrite Hl. apply ready_creates_filter in Hl. by rewrite Hl, Hent.
Qed.

Lemma ready_updates_here failed (m : SetResponse T) :
  sd_failed_creates s ⊆ failed ->
  exists m' l, ready_updates hash_order (list_to_set creates.*1) (sd_created_ids s)
      (list_to_set (filter (fun cid => cid ∉ failed) (ck_create c).*1)) failed (ck_update c) m = (m', Ok l) /\
    grows m m' /\ forall id, id ∈ (ck_update c).*1 -> id ∈ l.*1 \/ id ∈ keys_in (sp_not_updated m').
Proof using in_order before hash_order_perm.
  intros Hsub. set (in_chunk := list_to_set (filter (fun cid => cid ∉ failed) (ck_create c).*1)).
  pose proof (ready_updates_spec hash_order (list_to_set creates.*1) (sd_created_ids s) in_chunk failed (ck_update c) m) as Hu.
  pose proof (ready_updates_ok hash_order hash_order_perm (list_to_set creates.*1) (sd_created_ids s) in_chunk failed (ck_update c) m) as Hok.
  destruct (ready_updates _ _ _ _ _ _ _) as [m' [l|e]].
  - destruct Hu as [Hg Hu]. destruct (Hu l eq_refl) as [_ Hl]. exists m', l. split_and!; [done..|exact Hl].
  - exfalso. cbn in Hok. assert (false = true); [|done]. apply Hok. intros Hne r Hr Hnf. apply known_reference; [done| |done].
    apply (proj2 in_order Hne). by apply elem_of_list_to_set in Hr.
Qed.

(** The state after the chunk is progress, if the state before its answer is. *)
Lemma progress_snoc (s' : Sending W T) :
  grows (sd_merged s) (sd_merged s') -> (sd_created_ids s).*1 ⊆ (sd_created_ids s').*1 -> sd_failed_creates s ⊆ sd_failed_creates s' ->
  (forall cid, cid ∈ sd_failed_creates s' -> cid ∈ keys_in (sp_not_created (sd_merged s'))) ->
  (forall cid, cid ∈ (ck_create c).*1 -> cid ∈ (sd_created_ids s').*1 \/ cid ∈ sd_failed_creates s') ->
  answered (sd_merged s') (ck_create c).*1 (ck_update c).*1 (ck_destroy c) ->
  progress (pre ++ [c]) s'.
Proof using before.
  intros Hg Hi Hf Hfk Hres Hans. destruct (of_singleton c) as (Ec&Eu&Ed), before as [Hr _ Ha].
  split; [|done|].
  - intros cid. rewrite creates_of_app, Ec, fmap_app, elem_of_app. intros [Hcid|Hcid]; [|by apply Hres].
    destruct (Hr cid Hcid); auto.
  - rewrite creates_of_app, updates_of_app, destroys_of_app, Ec, Eu, Ed, !fmap_app. apply answered_app; [|done].
    by eapply answered_grows.
Qed.

Lemma send_chunk_progress :
  exists s', send_chunk execute_chunk to_value hash_order request s c = Some (s', Ok tt) /\ progress (pre ++ [c]) s'.
Proof using values in_order before hash_order_perm conforming.
  unfold send_chunk. rewrite (create_references_ok to_value) by done. change (candidates_of request) with (list_to_set creates.*1 : gset text).
  set (refs := refs_of _ _ _). assert (refs.*1 = (ck_create c).*1) as Hkeys by (unfold refs, refs_of; by rewrite <-list_fmap_compose).
  destruct (propagate_runs hash_order hash_order_perm refs (sd_failed_creates s) (sd_merged s)) as (failed&merged&->&[Hsub Hnew Hg]&Hset).
  cbn [mbind option_bind]. rewrite ready_creates_here by done.
  destruct (ready_updates_here failed merged Hsub) as (merged'&update&->&Hg'&Hupd). set (create := filter _ _).
  assert (forall cid, cid ∈ failed -> cid ∈ keys_in (sp_not_created merged')) as Hfk.
  { intros cid Hf. apply (gw_not_created _ _ Hg'). apply Hnew in Hf as [Hf|[_ Hf]]; [|done].
    by apply (gw_not_created _ _ Hg), (pg_failed _ _ before). }
  assert (forall cid, cid ∈ (ck_create c).*1 -> cid ∈ create.*1 \/ cid ∈ failed) as Hcreate.
  { intros cid ([k v]&->&Hin)%list_elem_of_fmap. destruct (decide (k ∈ failed)); [by right|left].
    apply (list_elem_of_fmap_2 fst _ (k, v)), list_elem_of_filter. done. }
  destruct (chunk_is_empty _) eqn:Eempty.
  - unfold chunk_is_empty in Eempty. cbn [ck_create ck_update ck_destroy] in Eempty. rewrite !andb_true_iff, !bool_decide_eq_true in Eempty.
    destruct Eempty as [[Ec Eu] Ed]. eexists. split; [done|]. apply progress_snoc; cbn; try done.
    + by eapply grows_trans.
    + intros cid [Hc|Hc]%Hcreate; [|by right]. rewrite Ec in Hc. by apply not_elem_of_nil in Hc.
    + rewrite Ed. split.
      * intros cid [Hc|Hc]%Hcreate; [rewrite Ec in Hc; by apply not_elem_of_nil in Hc|]. right. by apply Hfk.
      * intros id [Hi|Hi]%Hupd; [rewrite Eu in Hi; by apply not_elem_of_nil in Hi|by right].
      * by intros id ?%not_elem_of_nil.
  - destruct (conforming (sd_world (with_merged s failed merged')) (Build_SetRequest (sr_account_id request)
      (sd_current_state (with_merged s failed merged')) (non_empty create) (non_empty update) (non_empty (ck_destroy c)))
      (sd_created_ids (with_merged s failed merged'))) as (w'&response&->&[Hans Hids]).
    cbn [sr_create sr_update sr_destroy] in Hans. rewrite !non_empty_default in Hans.
    pose proof (merge_response_spec to_value (with_merged s failed merged') w' response) as Hm.
    destruct (merge_response _ _ _ _) as [s' r]. destruct Hm as (_&_&Hgm&Hi&Hf&Hf'&Hm). destruct (Hm Hids) as (->&Hgr&Hcid&Hnc).
    cbn [with_merged sd_merged sd_created_ids sd_failed_creates] in Hgm, Hi, Hf, Hf'. destruct Hans as [Ac Au Ad].
    exists s'. split; [done|]. apply progress_snoc; [by do 2 (eapply grows_trans; [done|])|done|by etrans|..].
    + intros cid [Hc|Hc]%Hf'%elem_of_union; [by apply (gw_not_created _ _ Hgm), Hfk|].
      apply (gw_not_created _ _ Hgr). by apply elem_of_list_to_set in Hc.
    + intros cid [Hc|Hc]%Hcreate; [|right; by apply Hf]. destruct (Ac cid Hc) as [Hin|Hin]; [left; by apply Hcid|].
      right. apply Hnc. by apply elem_of_list_to_set.
    + split.
      * intros cid [Hc|Hc]%Hcreate; [|right; by apply (gw_not_created _ _ Hgm), Hfk].
        destruct (Ac cid Hc); [left; by apply (gw_created _ _ Hgr)|right; by apply (gw_not_created _ _ Hgr)].
      * intros id [Hu|Hu]%Hupd; [|right; by apply (gw_not_updated _ _ Hgm)].
        destruct (Au id Hu); [left; by apply (gw_updated _ _ Hgr)|right; by apply (gw_not_updated _ _ Hgr)].
      * intros id Hd. destruct (Ad id Hd); [left; by apply (gw_destroyed _ _ Hgr)|right; by apply (gw_not_destroyed _ _ Hgr)].
Qed.
End step.

Lemma send_chunks_progress request pre (s : Sending W T) chunks :
  Forall (fun e => is_ok (to_value e.2) = true) (creates_of chunks) ->
  each_after (reference_ok to_value (default [] (sr_create request))) (pre ++ chunks) -> progress pre s ->
  exists s', send_chunks execute_chunk to_value hash_order request s chunks = Some (s', Ok tt) /\ progress (pre ++ chunks) s'.
Proof using hash_order_perm conforming.
  revert pre s. induction chunks as [|c chunks IH]; intros pre s Hv Hord Hp; cbn [send_chunks]; [rewrite app_nil_r; by eexists|].
  unfold creates_of in Hv. cbn in Hv. apply Forall_app in Hv as [Hc Hv].
  destruct (send_chunk_progress request pre s c) as (s'&->&Hp'); [done|by apply (Hord pre c chunks)|done|]. cbn [mbind option_bind].
  rewrite (cons_middle c), app_assoc in Hord. destruct (IH (pre ++ [c]) s' Hv Hord Hp') as (s''&->&Hp'').
  exists s''. by rewrite <-app_assoc in Hp''.
Qed.

(** C31: Against a server that reports every item of each request, a [/set] of any size is
    answered in full: every create, update and destroy is reported as done or as refused,
    and no reference is broken by a chunk boundary. The only other outcome is a cycle of
    references that is larger than a chunk, and then nothing is sent. *)
Theorem execute_set_chunked_answers w request limit :
  let creates := default [] (sr_create request) in
  bt_ok creates -> bt_ok (default [] (sr_update request)) -> Forall (fun e => is_ok (to_value e.2) = true) creates ->
  exists w' r, execute_set_chunked execute_chunk to_value hash_order w request limit = Some (w', r) /\
    ((exists m, r = Ok m /\
        answered m creates.*1 (default [] (sr_update request)).*1 (default [] (sr_destroy request))) \/
     (exists c n, r = Err (cycle_error c n) /\ limit = Some n /\ w' = w /\ (n < length c)%nat /\ NoDup c /\ c ⊆ creates.*1 /\
        forall x y, x ∈ c -> y ∈ c -> rtc (refers_to to_value creates) x y)).
Proof using hash_order_perm conforming.
  intros creates Hc Hu Hv. unfold execute_set_chunked.
  assert (exists w' r, Some (execute_chunk w request []) = Some (w', r) /\
    exists m, r = Ok m /\ answered m creates.*1 (default [] (sr_update request)).*1 (default [] (sr_destroy request))) as Hdirect.
  { destruct (conforming w request []) as (w'&response&->&[Ha _]). do 2 eexists. split; [done|]. by eexists. }
  destruct Hdirect as (wd&rd&Ed&Hd).
  destruct limit as [[|limit]|]; [by exists wd, rd; split; [|left]| |by exists wd, rd; split; [|left]].
  destruct (total_items request <=? S limit)%nat; [by exists wd, rd; split; [|left]|].
  destruct (partition_spec to_value hash_order hash_order_perm request (S limit) Hc Hu ltac:(lia) Hv) as [(chunks&->&Hp)|(cyc&->&Hlt&Hnd&Hsub&Hr)];
    cbn [mbind option_bind]; [|do 2 eexists; split; [done|]; right; by exists cyc, (S limit)].
  set (s0 := Build_Sending _ _ _ _ _ _). destruct Hp as [_ Pc Pu Pd Po].
  destruct (send_chunks_progress request [] s0 chunks) as (s'&->&[_ _ Ha]); [by rewrite Pc|done| |].
  { split; [by intros ? ?%not_elem_of_nil|set_solver|]. split; by intros ? ?%not_elem_of_nil. }
  cbn [mbind option_bind]. do 2 eexists. split; [done|]. left. eexists. split; [done|]. cbn [app] in Ha.
  destruct Ha as [Ac Au Ad]. rewrite Pd in Ad. split; [|..]; intros x Hx.
  - apply Ac. by rewrite Pc.
  - apply Au. by rewrite Pu.
  - by apply Ad.
Qed.
End conforming.

(** A server that accepts everything. *)
Definition accept_all (w : nat) (q : SetRequest Value) (ids : btmap Id Id) : nat * result (SetResponse Value) Error :=
  (S w, Ok (Build_SetResponse (sr_account_id q) None None
              (Some ((fun e => (e.1, Object [(lit "id", String e.1)])) <$> default [] (sr_create q)))
              (Some ((fun e => (e.1, None)) <$> default [] (sr_update q))) (Some (default [] (sr_destroy q))) None None None)).

Lemma accept_all_reports w q ids : exists w' response, accept_all w q ids = (w', Ok response) /\ reports Ok q response.
Proof.
  do 2 eexists. split; [done|]. split.
  - split; cbn; intros x Hx; left; [by rewrite <-list_fmap_compose..|done].
  - cbn. apply Forall_fmap, Forall_true. intros e. do 2 eexists. split; [done|]. done.
Qed.

Lemma execute_set_chunked_answers_witness :
  exists w' r, execute_set_chunked accept_all Ok elements 0%nat mixed_request (Some 2%nat) = Some (w', r) /\
    ((exists m, r = Ok m /\ answered m [lit "a"; lit "b"; lit "c"] [lit "u"] [lit "d"]) \/
     (exists c n, r = Err (cycle_error c n) /\ Some 2%nat = Some n /\ w' = 0%nat /\ (n < length c)%nat /\ NoDup c /\
        c ⊆ [lit "a"; lit "b"; lit "c"] /\ forall x y, x ∈ c -> y ∈ c -> rtc (refers_to Ok (default [] (sr_create mixed_request))) x y)).
Proof.
  apply (execute_set_chunked_answers accept_all Ok elements).
  - done.
  - apply accept_all_reports.
  - repeat constructor.
  - repeat constructor.
  - repeat constructor.
Defined.

(** The server accepts the first chunk and then fails. *)
Definition accept_first (w : nat) (q : SetRequest Value) (ids : btmap Id Id) : nat * result (SetResponse Value) Error :=
  match w with O => accept_all w q ids | S _ => (S w, Err (Protocol (lit "connection lost"))) end.

Lemma execute_set_chunked_reports_witness :
  exists w' sent committed cause,
    execute_set_chunked (logged accept_first) Ok elements (0%nat, []) mixed_request (Some 2%nat) = Some ((w', sent), Err (SetPartiallyApplied committed cause)) /\
    length sent = 2%nat /\ Forall (fun q => (total_items q.1 <= 2)%nat) sent.
Proof.
  destruct (execute_set_chunked_reports accept_first Ok elements ltac:(done) 0%nat mixed_request 2) as (w'&sent&r&E&Hs&Hr);
    [by repeat constructor|by repeat constructor|lia|done|].
  assert (is_ok r = false /\ accepted_any sent = true /\ length sent = 2%nat) as (H1&H2&H3).
  { clear Hs Hr. vm_compute in E. injection E as _ <- <-. split_and!; reflexivity. }
  destruct (Hr H1 H2) as (committed&cause&->). exists w', sent, committed, cause. split; [exact E|]. split; [exact H3|exact Hs].
Defined.
