(* ===== verification/MailFiling.v ===== *)
(** Filing a message (jmap-mail-sync/src/mailboxes.rs), and the writes of one message
    (jmap-mail-sync/src/lib.rs: [set_keywords], [file_message], [expunge_message],
    [trash_message]) on the client methods that they call (jmap-client/src/mail.rs).
    First, what the JSON patch of the members of [mailboxIds] or [keywords] does to a message. *)

From Stdlib Require Import Ascii String.
From stdpp Require Import prelude strings.
From S2P Require Import Prelude BTree Text Strings Json Wire Proto Email Patch Keywords Tarjan SetChunk.
(** A set of names as JSON: each name with [true]. *)
Definition bools (m : btmap text bool) : btmap text Value := prod_map id Bool <$> m.

Lemma bt_get_bools k m : bt_get k (bools m) = Bool <$> bt_get k m.
Proof. induction m as [|[k' b] m IH]; [done|]. cbn. by case_decide. Qed.

Lemma bools_keys m : (bools m).*1 = m.*1.
Proof. unfold bools. by rewrite <- list_fmap_compose. Qed.

Lemma bools_of (members : btmap text Value) :
  Forall (fun e => exists b, e.2 = Bool b) members -> exists m, members = bools m.
Proof.
  induction 1 as [|[k v] members (b&Hb) _ (m&->)]; [by exists []|]. cbn in Hb. subst v. by exists ((k, b) :: m).
Qed.

Lemma read_bools name m members :
  members_of name m = Some (bools members) ->
  exists o, read_opt (map_codec bool_codec) name m = Some o /\ default [] o = members.
Proof.
  unfold members_of, read_opt. destruct (bt_get name m) as [[| | | | |m']|]; try done.
  - intros [= ->]. exists (Some members). split; [|done]. cbn. unfold bools. rewrite mapM_enc; [done|]. apply Forall_forall. by intros [].
  - intros [= E]. exists None. split; [done|]. by destruct members.
Qed.

(** What one entry makes of a member. *)
Definition entry_bool (v : Value) : option bool := match v with Bool b => Some b | _ => None end.

Definition bool_entries (entries : list (text * Value)) : Prop :=
  NoDup entries.*1 /\ Forall (fun e => e.2 = Bool true \/ e.2 = Null) entries.

Definition patched_members (entries : list (text * Value)) (members : btmap text bool) (name : text) : option bool :=
  match bt_get name entries with Some v => entry_bool v | None => bt_get name members end.

Lemma apply_bool_patch property m members entries :
  "/"%char ∉ property -> "~"%char ∉ property ->
  bt_ok m -> members_of property m = Some (bools members) -> bt_ok members -> bool_entries entries ->
  exists m' members', apply_patch (Object m) (member_patch property entries) = (Object m', Ok tt) /\
    bt_ok m' /\ members_of property m' = Some (bools members') /\ bt_ok members' /\
    (forall name, bt_get name members' = patched_members entries members name) /\
    (forall k, k <> property -> bt_get k m' = bt_get k m).
Proof.
  intros Hs Ht Hm Hmem Hok [Hn Hb].
  destruct (apply_member_patch property Hs Ht m _ entries Hmem Hn) as (m'&raw&Ha&Hm'&Hget&Hk&Hm1&Hraw).
  assert (bt_ok raw) as Hrok by (apply Hraw; unfold bt_ok; by rewrite bools_keys).
  assert (forall name v, bt_get name raw = Some v -> exists b, v = Bool b) as Hv.
  { intros name v. rewrite Hget, bt_get_bools. destruct (bt_get name entries) as [w|] eqn:E.
    - apply bt_get_Some_elem in E. rewrite Forall_forall in Hb. apply Hb in E as [E|E]; cbn in E; subst w; [|done].
      intros [= <-]. eauto.
    - destruct (bt_get name members); [|done]. intros [= <-]. eauto. }
  destruct (bools_of raw) as (members'&->).
  { apply Forall_forall. intros [k v] Hin. apply bt_elem_get in Hin; [|done]. eauto. }
  exists m', members'. split_and!; [done|auto|done|by unfold bt_ok in *; rewrite <- bools_keys| |done].
  intros name. specialize (Hget name). rewrite !bt_get_bools in Hget. unfold patched_members.
  destruct (bt_get name entries) as [w|] eqn:E.
  - apply bt_get_Some_elem in E. rewrite Forall_forall in Hb. apply Hb in E as [E|E]; cbn in E; subst w; cbn in Hget |- *;
      destruct (bt_get name members'); naive_solver.
  - destruct (bt_get name members'), (bt_get name members); naive_solver.
Qed.

Section message.
Variable e : Email.
Hypothesis He : email_ok e.

Lemma email_members name o :
  (name, opt_enc (map_codec bool_codec) o) ∈ email_fields e ->
  members_of name (object_of (email_fields e) (em_extra e)) = Some (bools (default [] o)).
Proof using He.
  intros Hin. destruct He as [_ _ _ _ _ _ _ _ _ (Hx&Ha&_)]. rewrite <- (email_fields_names e) in Ha.
  assert (NoDup (email_fields e).*1) as Hn by (rewrite email_fields_names; apply email_names_nodup).
  unfold members_of. erewrite object_get; [|done|done|done|by apply nodup_bt_get]. by destruct o.
Qed.

Lemma email_keys_ok : bt_ok (default [] (em_keywords e)) /\ bt_ok (default [] (em_mailbox_ids e)).
Proof using He.
  destruct He as [Hm Hk _ _ _ _ _ _ _ _]. split; [destruct (em_keywords e); [by apply Hk|]|destruct (em_mailbox_ids e); [by apply Hm|]]; apply bt_ok_nil.
Qed.

(** Patching the members of [mailboxIds] changes the mailboxes it names, and no other property. *)
Lemma patch_mailbox_ids entries :
  bool_entries entries ->
  exists v ids, apply_patch (email_to_value e) (member_patch (lit "mailboxIds") entries) = (v, Ok tt) /\
    email_from_value v = Some (with_mailbox_ids ids e) /\ bt_ok (default [] ids) /\
    (forall id, bt_get id (default [] ids) = patched_members entries (default [] (em_mailbox_ids e)) id).
Proof using He.
  intros Hb. unfold email_to_value.
  destruct (apply_bool_patch (lit "mailboxIds") (object_of (email_fields e) (em_extra e)) (default [] (em_mailbox_ids e)) entries)
    as (m'&ids&Ha&Hm'&Hr&Hi&Hget&Hk); [by_decide|by_decide|apply object_of_ok| |apply email_keys_ok|done|].
  { apply email_members. repeat (apply list_elem_of_here || apply list_elem_of_further). }
  apply read_bools in Hr as (o&Hr&<-). exists (Object m'), o. split_and!; [done| |done|done].
  eapply (email_with_mailbox_ids (object_of (email_fields e) (em_extra e))); [apply object_of_ok|done| |done|done].
  by apply email_reads_back.
Qed.

(** Patching the members of [keywords] changes the keywords it names, and no other property. *)
Lemma patch_keywords entries :
  bool_entries entries ->
  exists v keywords, apply_patch (email_to_value e) (member_patch (lit "keywords") entries) = (v, Ok tt) /\
    email_from_value v = Some (with_keywords keywords e) /\ bt_ok (default [] keywords) /\
    (forall name, bt_get name (default [] keywords) = patched_members entries (default [] (em_keywords e)) name).
Proof using He.
  intros Hb. unfold email_to_value.
  destruct (apply_bool_patch (lit "keywords") (object_of (email_fields e) (em_extra e)) (default [] (em_keywords e)) entries)
    as (m'&ids&Ha&Hm'&Hr&Hi&Hget&Hk); [by_decide|by_decide|apply object_of_ok| |apply email_keys_ok|done|].
  { apply email_members. repeat (apply list_elem_of_here || apply list_elem_of_further). }
  apply read_bools in Hr as (o&Hr&<-). exists (Object m'), o. split_and!; [done| |done|done].
  eapply (email_with_keywords (object_of (email_fields e) (em_extra e))); [apply object_of_ok|done| |done|done].
  by apply email_reads_back.
Qed.
End message.

Local Open Scope rust_scope.

Definition MAILBOX_IDS : text := lit "mailboxIds".

(** The patch that takes a message out of one mailbox. *)
Definition out_of (mailbox : Id) : btmap text Value := bt_insert (member MAILBOX_IDS mailbox) Null [].

Record Filing := { fi_into : Id; fi_out_of : option Id }.

Definition copied_into (into : Id) : Filing := {| fi_into := into; fi_out_of := None |}.
Definition filing_moved (out_of into : Id) : Filing := {| fi_into := into; fi_out_of := Some out_of |}.

Definition filing_is_empty (f : Filing) : bool := bool_decide (fi_out_of f = Some (fi_into f)).

Definition filing_patch (f : Filing) : btmap text Value :=
  if filing_is_empty f then []
  else
    let patch := bt_insert (member MAILBOX_IDS (fi_into f)) (Bool true) [] in
    match fi_out_of f with
    | Some out_of => bt_insert (member MAILBOX_IDS out_of) Null patch
    | None => patch
    end.

(** ** The client methods *)

(** The calls that the operations below make: [Client::email_get] and [Client::email_set]. *)
Class MailClient (W : Type) := {
  client_email_get : W -> Id -> list Id -> option (list text) -> W * result (list Email) Error;
  client_email_set : W -> SetRequest Email -> W * result (SetResponse Email) Error;
}.

Definition update_request (account_id id : Id) (patch : Value) : SetRequest Email :=
  Build_SetRequest account_id None None (Some [(id, patch)]) None.

Definition destroy_request (account_id id : Id) : SetRequest Email :=
  Build_SetRequest account_id None None None (Some [id]).

Section operations.
Context {W : Type} `{!MailClient W}.
Variable account_id : Id.

Definition client_email_update (w : W) (id : Id) (patch : Value) : W * result unit Error :=
  let '(w, response) := client_email_set w (update_request account_id id patch) in
  (w, let? response := response in expect_updated response id).

Definition client_email_destroy (w : W) (id : Id) : W * result unit Error :=
  let '(w, response) := client_email_set w (destroy_request account_id id) in
  (w, let? response := response in expect_destroyed response id).

(** ** The writes *)

(** A refusal with [notFound] is a missing message. *)
Definition message_error (uid : Id) (error : Error) : SyncError :=
  match error with
  | Set_ set_error => if decide (se_error_type set_error = NOT_FOUND) then NoSuchMessage uid else Client error
  | _ => Client error
  end.

Definition update_email (w : W) (uid : Id) (patch : btmap text Value) : W * result unit SyncError :=
  let '(w, r) := client_email_update w uid (Object patch) in
  (w, map_err (message_error uid) r).

Definition set_keywords (w : W) (uid : Id) (change : KeywordChange) : W * result unit SyncError :=
  if change_is_empty change then (w, Ok tt) else update_email w uid (change_patch change).

Definition file_message (w : W) (uid : Id) (filing : Filing) : W * result unit SyncError :=
  if filing_is_empty filing then (w, Ok tt) else update_email w uid (filing_patch filing).

(** The mailboxes of an [Email/get] answer: each value must be [true]. *)
Fixpoint true_members (uid : Id) (mailbox_ids : list (Id * bool)) : result (list Id) SyncError :=
  match mailbox_ids with
  | [] => Ok []
  | (id, true) :: mailbox_ids => let? rest := true_members uid mailbox_ids in Ok (id :: rest)
  | (id, false) :: _ =>
      Err (sync_protocol (lit "Email/get returned " ++ uid ++ lit " with a false-valued mailboxIds entry for " ++ id))
  end.

Definition message_mailboxes (w : W) (uid : Id) : W * result (list Id) SyncError :=
  let '(w, found) := client_email_get w account_id [uid] (Some [MAILBOX_IDS]) in
  (w, let? found := map_err Client found in
      let? email := ok_or (find (fun email => bool_decide (em_id email = Some uid)) found) (NoSuchMessage uid) in
      true_members uid (default [] (em_mailbox_ids email))).

Definition expunge_message (w : W) (uid mailbox : Id) : W * result unit SyncError :=
  match message_mailboxes w uid with
  | (w, Err e) => (w, Err e)
  | (w, Ok filed_in) =>
      if negb (bool_decide (mailbox ∈ filed_in)) then (w, Ok tt)
      else if (1 <? length filed_in)%nat then update_email w uid (out_of mailbox)
      else
        let '(w, r) := client_email_destroy w uid in
        (w, map_err (message_error uid) r)
  end.

Definition trash_message (w : W) (uid mailbox trash : Id) : W * result unit SyncError :=
  match message_mailboxes w uid with
  | (w, Err e) => (w, Err e)
  | (w, Ok filed_in) =>
      if negb (bool_decide (mailbox ∈ filed_in)) then (w, Ok tt)
      else
        let patch := if (1 <? length filed_in)%nat then out_of mailbox else filing_patch (filing_moved mailbox trash) in
        update_email w uid patch
  end.
End operations.

(** ** What the patches do to a message *)
Definition filed (e : Email) (mailbox : Id) : Prop := bt_get mailbox (default [] (em_mailbox_ids e)) = Some true.

Definition filing_entries (f : Filing) : list (text * Value) :=
  if filing_is_empty f then []
  else (fi_into f, Bool true) :: match fi_out_of f with Some out_of => [(out_of, Null)] | None => [] end.

Lemma filing_patch_members f : filing_patch f = member_patch MAILBOX_IDS (filing_entries f).
Proof. unfold filing_patch, filing_entries. destruct (filing_is_empty f); [done|]. by destruct (fi_out_of f). Qed.

Lemma filing_entries_ok f : bool_entries (filing_entries f).
Proof.
  unfold filing_entries, filing_is_empty. case_bool_decide as He; [split; constructor|].
  destruct (fi_out_of f) as [o|]; split; cbn.
  - apply NoDup_cons. split; [|apply NoDup_singleton]. intros Hin%list_elem_of_singleton. congruence.
  - constructor; [by left|]. constructor; [by right|constructor].
  - apply NoDup_singleton.
  - constructor; [by left|constructor].
Qed.

(** A message with other mailboxes, and all else the same. *)
Definition refiled (e e' : Email) : Prop := e' = with_mailbox_ids (em_mailbox_ids e') e.

Lemma refiled_refl e : refiled e e.
Proof. by destruct e. Qed.

Section patched.
Variable e : Email.
Hypothesis He : email_ok e.

Lemma mailbox_patch entries v e' :
  bool_entries entries ->
  apply_patch (email_to_value e) (member_patch MAILBOX_IDS entries) = (v, Ok tt) -> email_from_value v = Some e' ->
  email_ok e' /\ refiled e e' /\
  forall m, bt_get m (default [] (em_mailbox_ids e')) = patched_members entries (default [] (em_mailbox_ids e)) m.
Proof using He.
  intros Hb Ha Hv. destruct (patch_mailbox_ids e He entries Hb) as (v'&ids&Ha'&Hv'&Hids&Hget).
  change (lit "mailboxIds") with MAILBOX_IDS in Ha'. rewrite Ha in Ha'. injection Ha' as <-. rewrite Hv in Hv'. injection Hv' as ->.
  split_and!; [|done|exact Hget]. destruct He. split; cbn; try done. intros ids' ->. split; [exact Hids|]. by apply Forall_true.
Qed.

Lemma filing_patched f v e' :
  filing_is_empty f = false ->
  apply_patch (email_to_value e) (filing_patch f) = (v, Ok tt) -> email_from_value v = Some e' ->
  email_ok e' /\ refiled e e' /\ forall m, filed e' m <-> m = fi_into f \/ (filed e m /\ fi_out_of f <> Some m).
Proof using He.
  rewrite filing_patch_members. intros Hne Ha Hv. destruct (mailbox_patch _ _ _ (filing_entries_ok f) Ha Hv) as (Hok&Hr&Hget).
  split_and!; [done|done|]. intros m. unfold filed. rewrite Hget. unfold patched_members, filing_entries. rewrite Hne.
  unfold filing_is_empty in Hne. apply bool_decide_eq_false in Hne. cbn. case_decide as Hm; [subst m; naive_solver|].
  destruct (fi_out_of f) as [o|]; cbn; [|naive_solver]. case_decide as Ho; [subst m; naive_solver|naive_solver].
Qed.

Lemma out_of_patched mailbox v e' :
  apply_patch (email_to_value e) (out_of mailbox) = (v, Ok tt) -> email_from_value v = Some e' ->
  email_ok e' /\ refiled e e' /\ forall m, filed e' m <-> filed e m /\ m <> mailbox.
Proof using He.
  change (out_of mailbox) with (member_patch MAILBOX_IDS [(mailbox, Null)]). intros Ha Hv.
  destruct (mailbox_patch [(mailbox, Null)] v e') as (Hok&Hr&Hget); [|done|done|].
  { split; [apply NoDup_singleton|]. constructor; [by right|constructor]. }
  split_and!; [done|done|]. intros m. unfold filed. rewrite Hget. unfold patched_members. cbn. case_decide; naive_solver.
Qed.
End patched.

(** ** What a server promises *)

(** The messages of one account as the server holds them, its own invariant, and what the calls do: a [/get] of
    one message, if it is answered, tells its mailboxes, and a [/set] of one message is
    accepted, with the patch applied or the message gone, or refused, with nothing changed.
    The server has other clients: between the answer to a [/get] and the next call they may
    write any message, this one too, as long as every message stays well formed. *)
Class MailServer (W : Type) `{!MailClient W} (account_id : Id) := {
  mail : W -> Id -> option Email;
  mail_inv : W -> Prop;
  mail_get w uid :
    mail_inv w -> (forall k e, mail w k = Some e -> email_ok e /\ em_id e = Some k) ->
    exists w' r, client_email_get w account_id [uid] (Some [MAILBOX_IDS]) = (w', r) /\
      mail_inv w' /\ (forall k e, mail w' k = Some e -> email_ok e /\ em_id e = Some k) /\
      forall found, r = Ok found ->
        match mail w uid with
        | Some e => exists p, find (fun email => bool_decide (em_id email = Some uid)) found = Some p /\
                              em_mailbox_ids p = em_mailbox_ids e
        | None => find (fun email => bool_decide (em_id email = Some uid)) found = None
        end;
  mail_update w uid patch :
    exists w' r, client_email_update account_id w uid (Object patch) = (w', r) /\ (mail_inv w -> mail_inv w') /\
      ((r = Ok tt /\ exists e v e', mail w uid = Some e /\ apply_patch (email_to_value e) patch = (v, Ok tt) /\
          email_from_value v = Some e' /\ forall k, mail w' k = if decide (k = uid) then Some e' else mail w k) \/
       (is_ok r = false /\ forall k, mail w' k = mail w k));
  mail_destroy w uid :
    exists w' r, client_email_destroy account_id w uid = (w', r) /\ (mail_inv w -> mail_inv w') /\
      ((r = Ok tt /\ is_Some (mail w uid) /\ forall k, mail w' k = if decide (k = uid) then None else mail w k) \/
       (is_ok r = false /\ forall k, mail w' k = mail w k));
}.

Section server.
Context {W : Type} `{!MailClient W} (account_id : Id) `{!MailServer W account_id}.

(** Every message is well formed and under its own id. *)
Record mail_ok (w : W) : Prop := {
  mk_inv : mail_inv w;
  mk_emails uid e : mail w uid = Some e -> email_ok e /\ em_id e = Some uid;
}.

(** The messages other than [uid] are as they were, and all are if the operation failed. *)
Record only_changes (uid : Id) (w w' : W) (r : result unit SyncError) : Prop := {
  oc_ok : mail_ok w';
  oc_others k : k <> uid -> mail w' k = mail w k;
  oc_failed k : is_ok r = false -> mail w' k = mail w k;
}.

Lemma only_changes_refl uid w r : mail_ok w -> only_changes uid w w r.
Proof using Type. by split. Qed.

Lemma only_changes_failed uid w w' r :
  mail_ok w -> mail_inv w' -> (forall k, mail w' k = mail w k) -> only_changes uid w w' r.
Proof using Type. intros [Hi He] Hi' Hk. split; [|by auto..]. split; [done|]. intros k e. rewrite Hk. apply He. Qed.

(** A patch that changes only the mailboxes of a message. *)
Definition refiles (patch : btmap text Value) : Prop :=
  forall e v e', email_ok e -> apply_patch (email_to_value e) patch = (v, Ok tt) -> email_from_value v = Some e' ->
  email_ok e' /\ refiled e e'.

Lemma update_email_spec w uid patch :
  mail_ok w -> refiles patch ->
  exists w' r, update_email account_id w uid patch = (w', r) /\ only_changes uid w w' r /\
    (is_ok r = true -> exists e v e', mail w uid = Some e /\ email_ok e /\ apply_patch (email_to_value e) patch = (v, Ok tt) /\
       email_from_value v = Some e' /\ mail w' uid = Some e').
Proof using Type.
  intros Hok Hp. destruct (mail_update w uid patch) as (w'&r&Hcall&Hinv&Hcase). unfold update_email. rewrite Hcall. do 2 eexists.
  split; [done|]. specialize (Hinv (mk_inv _ Hok)). destruct Hcase as [(->&e&v&e'&He&Ha&Hv&Hk)|[Hr Hk]].
  - destruct (mk_emails _ Hok _ _ He) as [Heok Hid]. destruct (Hp e v e' Heok Ha Hv) as [He' Hre].
    assert (mail w' uid = Some e') as Hm by (by rewrite Hk, decide_True).
    split; [|intros _; by exists e, v, e']. split; [|intros k Hne; by rewrite Hk, decide_False|done].
    split; [done|]. intros k e1. rewrite Hk. case_decide; [|apply Hok]. subst k. intros [= <-]. split; [done|]. by rewrite Hre.
  - destruct r as [[]|error]; [done|]. split; [by apply only_changes_failed|done].
Qed.

Lemma filing_refiles f : filing_is_empty f = false -> refiles (filing_patch f).
Proof using Type. intros Hf e v e' He Ha Hv. edestruct (filing_patched e He f v e') as (?&?&_); done. Qed.

Lemma out_of_refiles mailbox : refiles (out_of mailbox).
Proof using Type. intros e v e' He Ha Hv. edestruct (out_of_patched e He mailbox v e') as (?&?&_); done. Qed.

Lemma true_members_spec uid (m : btmap Id bool) l :
  true_members uid m = Ok l -> NoDup m.*1 -> NoDup l /\ forall id, id ∈ l <-> bt_get id m = Some true.
Proof using Type.
  revert l. induction m as [|[id b] m IH]; intros l; cbn; [intros [= <-] _; split; [constructor|]; intros; set_solver|].
  destruct b; [|done]. intros (rest&Hr&[= <-])%rbind_ok [Hni Hnd]%NoDup_cons. destruct (IH rest Hr Hnd) as [Hn Hin]. split.
  - constructor; [|done]. rewrite Hin. intros Hg%bt_get_Some_elem. apply Hni. by apply (list_elem_of_fmap_2 fst _ (id, true)).
  - intros k. rewrite elem_of_cons, Hin. case_decide; naive_solver.
Qed.

(** The server when the call after the read of a message comes in. *)
Definition after_read (w : W) (uid : Id) : W := (client_email_get w account_id [uid] (Some [MAILBOX_IDS])).1.

(** The mailboxes that a message had when it was read, or an error. *)
Lemma message_mailboxes_spec w uid :
  mail_ok w -> mail_ok (after_read w uid) /\ exists r, message_mailboxes account_id w uid = (after_read w uid, r) /\
    forall l, r = Ok l -> exists e, mail w uid = Some e /\ email_ok e /\ NoDup l /\ forall m, m ∈ l <-> filed e m.
Proof using Type.
  intros Hok. destruct (mail_get w uid (mk_inv _ Hok) (mk_emails _ Hok)) as (w'&r&Hcall&Hinv&Hems&Hr). unfold message_mailboxes, after_read. rewrite Hcall.
  split; [by split|]. eexists. split; [done|]. intros l. destruct r as [found|]; [|done]. specialize (Hr found eq_refl). rename Hr into Hfound. cbn. destruct (mail w uid) as [e|] eqn:E; [|by rewrite Hfound].
  destruct Hfound as (p&->&Hp). cbn. rewrite Hp. intros Hl. exists e. destruct (mk_emails _ Hok uid e E) as [He _].
  apply true_members_spec in Hl as [Hn Hin]; [done|]. apply bt_ok_nodup, (email_keys_ok e He).
Qed.

Lemma sole_member (l : list Id) m : NoDup l -> m ∈ l -> (length l <= 1)%nat -> l = [m].
Proof using Type. destruct l as [|x [|y l]]; cbn; intros _ Hin Hlen; [set_solver| |lia]. by apply list_elem_of_singleton in Hin as ->. Qed.

Lemma second_member (l : list Id) mailbox : NoDup l -> (1 < length l)%nat -> exists m, m ∈ l /\ m <> mailbox.
Proof using Type.
  destruct l as [|x [|y l]]; cbn; intros Hn Hlen; [lia..|]. destruct (decide (x = mailbox)) as [->|Hx]; [|exists x; split; [left|done]].
  exists y. split; [right; left|]. intros ->. apply NoDup_cons in Hn as [Hn _]. apply Hn. left.
Qed.

(** What expunging a message does, by the mailboxes that the read told. *)
Lemma expunge_message_cases w uid mailbox w' r :
  mail_ok w -> expunge_message account_id w uid mailbox = (w', r) ->
  let w1 := after_read w uid in
  only_changes uid w1 w' r /\
  (is_ok r = true -> exists e, mail w uid = Some e /\
     (((forall m, filed e m <-> m = mailbox) /\ mail w' uid = None) \/
      ((exists m, filed e m /\ m <> mailbox) /\ filed e mailbox /\
       exists e1 e', mail w1 uid = Some e1 /\ mail w' uid = Some e' /\ refiled e1 e' /\ forall m, filed e' m <-> filed e1 m /\ m <> mailbox) \/
      (~ filed e mailbox /\ mail w' uid = mail w1 uid))).
Proof using Type.
  intros Hok0. unfold expunge_message. destruct (message_mailboxes_spec w uid Hok0) as (Hok&r0&->&Hr0). cbv zeta. generalize dependent (after_read w uid). intros w1 Hok.
  destruct r0 as [l|e0]; [|intros [= <- <-]; by split; [by apply only_changes_refl|]].
  destruct (Hr0 l eq_refl) as (e&He&Heok&Hnd&Hl). clear Hr0.
  case_bool_decide as Hin; cbn [negb]; cycle 1.
  { intros [= <- <-]. split; [by apply only_changes_refl|]. intros _. exists e. split; [done|]. right; right. by rewrite <- Hl. }
  destruct (Nat.ltb_spec 1 (length l)).
  - destruct (update_email_spec w1 uid (out_of mailbox) Hok (out_of_refiles mailbox)) as (w2&r1&->&Hch&Hup). intros [= <- <-]. split; [done|].
    intros (e1&v&e'&He1&He1ok&Ha&Hv&Hm)%Hup. exists e. split; [done|]. right; left. split_and!.
    + destruct (second_member l mailbox Hnd ltac:(lia)) as (m&Hml&Hmn). exists m. by rewrite <- Hl.
    + by apply Hl.
    + exists e1, e'. destruct (out_of_patched e1 He1ok mailbox v e' Ha Hv) as (_&?&?). by split_and!.
  - destruct (mail_destroy w1 uid) as (w2&r1&->&Hinv&[(->&_&Hk)|[Hr1 Hk]]); specialize (Hinv (mk_inv _ Hok)); intros [= <- <-]; cbn.
    + split; [split; [split; [done|]|intros k Hne; by rewrite Hk, decide_False|done]|].
      { intros k e1. rewrite Hk. case_decide; [done|]. apply Hok. } intros _. exists e. split; [done|]. left.
      split; [|by rewrite Hk, decide_True]. intros m. rewrite <-Hl, (sole_member l mailbox) by (done || lia). apply list_elem_of_singleton.
    + destruct r1 as [[]|error]; [done|]. split; [by apply only_changes_failed|done].
Qed.

(** What deleting a message does, by the mailboxes that the read told. *)
Lemma trash_message_cases w uid mailbox trash w' r :
  mail_ok w -> mailbox <> trash -> trash_message account_id w uid mailbox trash = (w', r) ->
  let w1 := after_read w uid in
  only_changes uid w1 w' r /\
  (forall e1, mail w1 uid = Some e1 -> exists e', mail w' uid = Some e' /\ refiled e1 e') /\
  (is_ok r = true -> exists e, mail w uid = Some e /\
     ((~ filed e mailbox /\ mail w' uid = mail w1 uid) \/
      ((exists m, filed e m /\ m <> mailbox) /\
       forall e1 e', mail w1 uid = Some e1 -> mail w' uid = Some e' -> forall m, filed e' m <-> filed e1 m /\ m <> mailbox) \/
      ((forall m, filed e m <-> m = mailbox) /\
       forall e1 e', mail w1 uid = Some e1 -> mail w' uid = Some e' -> forall m, filed e' m <-> m = trash \/ (filed e1 m /\ m <> mailbox)))).
Proof using Type.
  intros Hok0 Hne. unfold trash_message. destruct (message_mailboxes_spec w uid Hok0) as (Hok&r0&->&Hr0). cbv zeta. generalize dependent (after_read w uid). intros w1 Hok.
  destruct r0 as [l|e0]; [|intros [= <- <-]; split_and!; [by apply only_changes_refl|intros e1 He1; exists e1; by split; [|apply refiled_refl]|done]].
  destruct (Hr0 l eq_refl) as (e&He&Heok&Hnd&Hl). clear Hr0.
  case_bool_decide as Hin; cbn [negb]; cycle 1.
  { intros [= <- <-]. split_and!; [by apply only_changes_refl|intros e1 He1; exists e1; by split; [|apply refiled_refl]|].
    intros _. exists e. split; [done|]. left. by rewrite <- Hl. }
  set (patch := if (1 <? length l)%nat then _ else _).
  assert (refiles patch) as Hp.
  { unfold patch. destruct (1 <? length l)%nat; [apply out_of_refiles|]. apply filing_refiles, bool_decide_eq_false. cbn. congruence. }
  destruct (update_email_spec w1 uid patch Hok Hp) as (w2&r1&->&Hch&Hup). intros [= <- <-]. split_and!; [done|..].
  - intros e1 He1. destruct (is_ok r1) eqn:Er; [|exists e1; rewrite (oc_failed _ _ _ _ Hch) by done; by split; [|apply refiled_refl]].
    destruct (Hup eq_refl) as (e2&v&e'&He2&He2ok&Ha&Hv&Hm). rewrite He1 in He2. injection He2 as <-. exists e'. split; [done|]. by apply (Hp e1 v).
  - intros (e2&v&e2'&He2&He2ok&Ha&Hv&Hm)%Hup. exists e. split; [done|]. right. subst patch. destruct (Nat.ltb_spec 1 (length l)) as [Hlen|Hlen]; [left|right].
    + destruct (second_member l mailbox Hnd Hlen) as (m&Hml&Hmn). split; [exists m; by rewrite <- Hl|].
      intros e1 e' He1 He'. assert (e1 = e2 /\ e' = e2') as [-> ->] by (split; congruence).
      destruct (out_of_patched e2 He2ok mailbox v e2' Ha Hv) as (_&_&Hf). done.
    + split; [intros m; rewrite <- Hl, (sole_member l mailbox) by done; apply list_elem_of_singleton|].
      intros e1 e' He1 He'. assert (e1 = e2 /\ e' = e2') as [-> ->] by (split; congruence).
      destruct (filing_patched e2 He2ok (filing_moved mailbox trash) v e2') as (_&_&Hf); [apply bool_decide_eq_false; cbn; congruence|done|done|].
      intros m. rewrite Hf. cbn. naive_solver.
Qed.

(** C28: Expunging a message reads its mailboxes and then writes, and other clients may write in
    between. The message is destroyed only if the mailbox was its one mailbox when it was read;
    if it had another, it only leaves this mailbox and stays in those that it has when the write
    comes in; if it was not in the mailbox, nothing is written. No other message is touched, nor
    any if the operation fails. If no other client writes this message between the read and the
    write, a message that is filed anywhere else is not lost; if another client does file a message
    of one mailbox elsewhere in between, it is lost. *)
Theorem expunge_message_safe w uid mailbox w' r :
  mail_ok w -> expunge_message account_id w uid mailbox = (w', r) ->
  let w1 := after_read w uid in
  only_changes uid w1 w' r /\
  (is_ok r = true -> exists e, mail w uid = Some e /\
     (((forall m, filed e m <-> m = mailbox) /\ mail w' uid = None) \/
      ((exists m, filed e m /\ m <> mailbox) /\ filed e mailbox /\
       exists e1 e', mail w1 uid = Some e1 /\ mail w' uid = Some e' /\ refiled e1 e' /\ forall m, filed e' m <-> filed e1 m /\ m <> mailbox) \/
      (~ filed e mailbox /\ mail w' uid = mail w1 uid))) /\
  (mail w1 uid = mail w uid -> is_ok r = true -> exists e, mail w uid = Some e /\
     ((mail w' uid = None /\ forall m, filed e m <-> m = mailbox) \/
      (exists e', mail w' uid = Some e' /\ refiled e e' /\ forall m, filed e' m <-> filed e m /\ m <> mailbox))).
Proof using Type.
  intros Hok Hrun w1. destruct (expunge_message_cases w uid mailbox w' r Hok Hrun) as [Hch Hcase]. fold w1 in Hch, Hcase.
  split_and!; [done|done|]. intros Hsame Hr. destruct (Hcase Hr) as (e&He&Hc). exists e. split; [done|].
  destruct Hc as [[Hm Hn]|[(_&_&e1&e'&He1&He'&Hre&Hf)|[Hno Hw]]]; [by left|right..].
  - assert (e1 = e) as -> by congruence. by exists e'.
  - exists e. rewrite Hw, Hsame. split_and!; [done|apply refiled_refl|]. intros m. split; [|tauto]. intros Hm. split; [done|]. by intros ->.
Qed.

(** C32: Deleting a message outside the trash never destroys it, whatever other clients write between
    its read and its write: a message that is there when the write comes in is there afterwards,
    with only its mailboxes changed. If no other client writes it in between, it leaves this
    mailbox if it is in another, and is moved to the trash if not. *)
Theorem trash_message_keeps w uid mailbox trash w' r :
  mail_ok w -> mailbox <> trash -> trash_message account_id w uid mailbox trash = (w', r) ->
  let w1 := after_read w uid in
  only_changes uid w1 w' r /\
  (forall e1, mail w1 uid = Some e1 -> exists e', mail w' uid = Some e' /\ refiled e1 e') /\
  (mail w1 uid = mail w uid -> is_ok r = true -> exists e e', mail w uid = Some e /\ mail w' uid = Some e' /\ refiled e e' /\
     ((exists m, filed e m /\ m <> mailbox) -> forall m, filed e' m <-> filed e m /\ m <> mailbox) /\
     ((forall m, filed e m <-> m = mailbox) -> forall m, filed e' m <-> m = trash)).
Proof using Type.
  intros Hok Hne Hrun w1. destruct (trash_message_cases w uid mailbox trash w' r Hok Hne Hrun) as (Hch&Hkeep&Hcase). split_and!; [done|done|].
  intros Hsame Hr. destruct (Hcase Hr) as (e&He&Hc). destruct (Hkeep e) as (e'&He'&Hre); [by rewrite <- He|]. exists e, e'. split_and!; [done..| |].
  - intros Hother m. destruct Hc as [(Hno&Hw)|[(_&Hf)|(Hsole&_)]].
    + assert (e' = e) as -> by (fold w1 in Hw; congruence). split; [|tauto]. intros Hm. split; [done|]. by intros ->.
    + apply Hf; [by rewrite <- He|done].
    + destruct Hother as (m'&Hm'%Hsole&?). done.
  - intros Hsole m. destruct Hc as [(Hno&_)|[((m'&Hm'&Hn)&_)|(_&Hf)]].
    + destruct Hno. by apply Hsole.
    + by apply Hsole in Hm'.
    + rewrite (Hf e e') by (by rewrite <- ?He). split; [|by left]. intros [->|[Hm Hn]]; [done|]. apply Hsole in Hm as ->. done.
Qed.

(** Filing a message is one change of its mailboxes: it is then in the destination, and in
    the mailboxes it was in before except the one it is moved out of. An empty filing sends
    nothing. *)
Theorem file_message_files w uid filing w' r :
  mail_ok w -> file_message account_id w uid filing = (w', r) ->
  only_changes uid w w' r /\
  (filing_is_empty filing = true -> w' = w) /\
  (filing_is_empty filing = false -> is_ok r = true ->
     exists e e', mail w uid = Some e /\ mail w' uid = Some e' /\ refiled e e' /\
       forall m, filed e' m <-> m = fi_into filing \/ (filed e m /\ fi_out_of filing <> Some m)).
Proof using Type.
  intros Hok. unfold file_message. destruct (filing_is_empty filing) eqn:Hempty.
  { intros [= <- <-]. by split_and!; [by apply only_changes_refl|..]. }
  destruct (update_email_spec w uid (filing_patch filing) Hok (filing_refiles filing Hempty)) as (w1&r1&->&Hch&Hup). intros [= <- <-]. split_and!; [done|done|].
  intros _ (e&v&e'&He&Heok&Ha&Hv&Hm)%Hup. exists e, e'. split; [done|]. split; [done|].
  by eapply (filing_patched e).
Qed.
End server.
