(* ===== verification/MailListing.v ===== *)
(** The messages of a mailbox (jmap-mail-sync/src/lib.rs: [messages], [messages_since],
    [search] and what they call): the listing by pages of ids, and the refresh from a delta.

    The calls are those of [Client]; a summary that panics on a date makes the whole
    operation panic, so the results are in [run]. *)

From Stdlib Require Import Ascii String.
From stdpp Require Import prelude strings sorting.
From S2P Require Import Prelude BTree Text Strings Json Wire Proto Email Store SetOps Patch SetMethod Changes Date MailDate Keywords MockMail MockQuery MailSummary Session Tarjan SetChunk MailFiling.

Local Open Scope rust_scope.

Definition MAX_QUERY_PAGES : nat := 1024.
Definition FALLBACK_OBJECTS_IN_GET : nat := 50.
Definition MAX_OBJECTS_PER_GET : nat := 500.

(** ** Errors that ask for a full listing *)
Definition is_cannot_calculate_changes (error : Error) : bool :=
  match error with
  | Method e => bool_decide (me_error_type e = CANNOT_CALCULATE_CHANGES)
  | _ => false
  end.

Section needs_full_resync.
(** [str::to_lowercase]. *)
Variable to_lowercase : text -> text.

Definition is_unrecognized_changes_state (error : Error) : bool :=
  match error with
  | Method e =>
      bool_decide (me_error_type e = INVALID_ARGUMENTS) &&
      is_some_and (me_description e) (fun description => str_contains (lit "state") (to_lowercase description))
  | _ => false
  end.

Definition needs_full_resync (error : Error) : bool :=
  is_cannot_calculate_changes error || is_unrecognized_changes_state error.
End needs_full_resync.

(** ** The client *)

(** The calls of the listing beside [Client::email_get]. *)
Class MailReader (W : Type) := {
  reader_session : Session;
  reader_id_budget : IdBudget;
  reader_all_changes : W -> Id -> text -> State -> W * result ChangeSet Error;
  reader_email_state : W -> Id -> W * result State Error;
  reader_email_query : W -> QueryRequest (Filter EmailQueryFilter) -> W * result QueryResponse Error;
}.

(** The largest number of ids in one [Email/get]. *)
Definition objects_in_get (session : Session) : nat :=
  let advertised :=
    match max_objects_in_get session with
    | Some limit => if (0 <? limit)%N then limit else N.of_nat FALLBACK_OBJECTS_IN_GET
    | None => N.of_nat FALLBACK_OBJECTS_IN_GET
    end in
  N.to_nat (N.min advertised (N.of_nat MAX_OBJECTS_PER_GET)).

Definition filing_properties : list text := SUMMARY_PROPERTIES ++ [lit "mailboxIds"].

Definition catch_up_limit (held objects_in_get : nat) : nat := Nat.max held objects_in_get.

(** [slice::chunks] with a positive size; the fuel is the length of the list. *)
Fixpoint chunks_fuel {A} (fuel size : nat) (l : list A) : list (list A) :=
  match fuel, l with
  | O, _ | _, [] => []
  | S fuel, _ => firstn size l :: chunks_fuel fuel size (skipn size l)
  end.

Definition chunks {A} (size : nat) (l : list A) : list (list A) := chunks_fuel (length l) size l.

Fixpoint charge_all (budget : IdBudget) (ids : list Id) : option IdBudget :=
  match ids with
  | [] => Some budget
  | id :: ids =>
      match budget_charge budget id with
      | (true, budget) => charge_all budget ids
      | (false, _) => None
      end
  end.

Inductive MessageUpdate :=
| Unchanged (state : State)
| Changed (state : State) (present : list MessageSummary) (absent : list Id)
| Relisted (state : State) (messages : list MessageSummary).

(** [Option<i64>::cmp]: nothing comes first. *)
Definition opt_cmp (a b : option Z) : comparison :=
  match a, b with
  | None, None => Eq
  | None, Some _ => Lt
  | Some _, None => Gt
  | Some a, Some b => Z.compare a b
  end.

Definition row_cmp (one other : MessageSummary) : comparison :=
  then_with (opt_cmp (ms_received_at one) (ms_received_at other)) (text_cmp (ms_uid one) (ms_uid other)).

Fixpoint rows_by_uid (emails : list Email) (by_uid : btmap Id MessageSummary) : run (result (btmap Id MessageSummary) SyncError) :=
  match emails with
  | [] => Done (Ok by_uid)
  | email :: emails =>
      run_bind (from_email email) (fun summary =>
        match summary with
        | Err e => Done (Err e)
        | Ok summary => rows_by_uid emails (bt_insert (ms_uid summary) summary by_uid)
        end)
  end.

(** The rows in the order of the ids, each at most once. *)
Fixpoint take_rows (ids : list Id) (by_uid : btmap Id MessageSummary) : list MessageSummary :=
  match ids with
  | [] => []
  | id :: ids =>
      match bt_get id by_uid with
      | Some summary => summary :: take_rows ids (bt_remove id by_uid)
      | None => take_rows ids by_uid
      end
  end.

Definition false_valued (email : Email) (mailbox : Id) : SyncError :=
  sync_protocol (lit "Email/get returned " ++ default (lit "<no id>") (em_id email) ++
    lit " with a false-valued mailboxIds entry for " ++ mailbox).

(** The rows of the mailbox and the uids outside it, over the fetched messages. *)
Fixpoint sort_fetched (mailbox : Id) (emails : list Email) (present : list MessageSummary) (absent : btset Id)
  : run (result (list MessageSummary * btset Id) SyncError) :=
  match emails with
  | [] => Done (Ok (present, absent))
  | email :: emails =>
      match (let! mailboxes := em_mailbox_ids email in bt_get mailbox mailboxes) with
      | Some false => Done (Err (false_valued email mailbox))
      | filed =>
          run_bind (from_email email) (fun summary =>
            match summary with
            | Err e => Done (Err e)
            | Ok summary =>
                if bool_decide (filed = Some true) then sort_fetched mailbox emails (present ++ [summary]) absent
                else sort_fetched mailbox emails present (bs_insert (ms_uid summary) absent)
            end)
      end
  end.

(** What the answer to a delta is made of. *)
Definition changed_update (changes : ChangeSet) (touched : list Id) (sorted : list MessageSummary * btset Id) : MessageUpdate :=
  let '(present, absent) := sorted in
  let answered := ms_uid <$> present in
  let unanswered := filter (fun id => (id ∉ answered) /\ (id ∉ absent)) touched in
  let absent := bs_union absent unanswered in
  Changed (cs_new_state changes) (sort_by row_cmp present) absent.

Section listing.
Context {W : Type} `{!MailClient W} `{!MailReader W}.
Variable to_lowercase : text -> text.
Variable account_id : Id.

Definition page_request (f : Filter EmailQueryFilter) (position : nat) : QueryRequest (Filter EmailQueryFilter) :=
  Build_QueryRequest (Filter EmailQueryFilter) account_id (Some f) (Some [comparator_ascending (lit "receivedAt")]) (Z.of_nat position)
    None None None true false.

Definition total_mismatch (given : nat) (total : N) : SyncError :=
  sync_protocol (lit "Email/query gave " ++ to_dec (N.of_nat given) ++ lit " ids, but reports a total of " ++ to_dec total).

Fixpoint query_pages (pages : nat) (w : W) (f : Filter EmailQueryFilter) (ids : list Id) (budget : IdBudget)
  : W * result (list Id) SyncError :=
  match pages with
  | O => (w, Err (sync_protocol (lit "Email/query never stopped reporting a limited answer")))
  | S pages =>
      match reader_email_query w (page_request f (length ids)) with
      | (w, Err e) => (w, Err (Client e))
      | (w, Ok response) =>
          let capped := bool_decide (is_Some (qr_limit response)) in
          let answered := negb (bool_decide (qr_ids response = [])) in
          match charge_all budget (qr_ids response) with
          | None => (w, Err (sync_protocol (lit "Email/query reports more ids than the budget for one sync")))
          | Some budget =>
              let ids := ids ++ qr_ids response in
              if negb capped || negb answered then
                (w, match qr_total response with
                    | Some total => if decide (total <> N.of_nat (length ids)) then Err (total_mismatch (length ids) total) else Ok ids
                    | None => Ok ids
                    end)
              else query_pages pages w f ids budget
          end
      end
  end.

Definition paged_query (w : W) (f : Filter EmailQueryFilter) : W * result (list Id) SyncError :=
  query_pages MAX_QUERY_PAGES w f [] reader_id_budget.

Definition message_ids (w : W) (mailbox : Id) : W * result (list Id) SyncError :=
  paged_query w (Condition (in_mailbox mailbox)).

Definition search (w : W) (mailbox : Id) (f : Filter EmailQueryFilter) : W * result (list Id) SyncError :=
  paged_query w (filter_and [Condition (in_mailbox mailbox); f]).

Fixpoint fetch_chunks (w : W) (properties : list text) (chunks : list (list Id)) (emails : list Email)
  : W * result (list Email) SyncError :=
  match chunks with
  | [] => (w, Ok emails)
  | chunk :: chunks =>
      match client_email_get w account_id chunk (Some properties) with
      | (w, Err e) => (w, Err (Client e))
      | (w, Ok found) => fetch_chunks w properties chunks (emails ++ found)
      end
  end.

Definition fetch (w : W) (ids : list Id) (properties : list text) : W * result (list Email) SyncError :=
  fetch_chunks w properties (chunks (objects_in_get reader_session) ids) [].

Definition messages (w : W) (mailbox : Id) : W * run (result (State * list MessageSummary) SyncError) :=
  match reader_email_state w account_id with
  | (w, Err e) => (w, Done (Err (Client e)))
  | (w, Ok state) =>
      match message_ids w mailbox with
      | (w, Err e) => (w, Done (Err e))
      | (w, Ok ids) =>
          match fetch w ids SUMMARY_PROPERTIES with
          | (w, Err e) => (w, Done (Err e))
          | (w, Ok emails) =>
              (w, run_map (fun by_uid => let? by_uid := by_uid in Ok (state, take_rows ids by_uid)) (rows_by_uid emails []))
          end
      end
  end.

Definition relist (w : W) (mailbox : Id) : W * run (result MessageUpdate SyncError) :=
  let '(w, r) := messages w mailbox in
  (w, run_map (fun r => let? listing := r in Ok (Relisted listing.1 listing.2)) r).

Definition messages_since (w : W) (mailbox : Id) (since : State) (held : nat) : W * run (result MessageUpdate SyncError) :=
  match reader_all_changes w account_id (lit "Email") since with
  | (w, Err error) => if needs_full_resync to_lowercase error then relist w mailbox else (w, Done (Err (Client error)))
  | (w, Ok changes) =>
      if changeset_is_empty changes then (w, Done (Ok (Unchanged (cs_new_state changes))))
      else
        let touched := cs_created changes ++ cs_updated changes in
        if (catch_up_limit held (objects_in_get reader_session) <? length touched)%nat then relist w mailbox
        else
          match fetch w touched filing_properties with
          | (w, Err e) => (w, Done (Err e))
          | (w, Ok emails) =>
              (w, run_map (fun sorted => let? sorted := sorted in Ok (changed_update changes touched sorted))
                    (sort_fetched mailbox emails [] (cs_destroyed changes)))
          end
  end.
End listing.
