(* ===== verification/MailRefresh.v ===== *)
(** What a listing and a refresh of a mailbox give (jmap-mail-sync/src/lib.rs), against a
    server whose messages can change between the calls. *)

From Stdlib Require Import Ascii String.
From stdpp Require Import prelude strings sorting.
From S2P Require Import Prelude BTree Text Strings Json Wire Proto Email Store SetOps Patch SetMethod Changes Date MailDate Keywords MockMail MockQuery MailSummary Session Tarjan SetChunk MailFiling MailListing.

Local Open Scope rust_scope.

Lemma omap_over_fmap {A B C} (f : B -> option C) (g : A -> B) (l : list A) : omap f (g <$> l) = omap (fun x => f (g x)) l.
Proof. induction l as [|x l IH]; [done|]. cbn [fmap list_fmap omap list_omap]. by rewrite IH. Qed.

Lemma nodup_omap_keys {K A B} (key : B -> K) (f : K * A -> option B) (l : list (K * A)) :
  (forall x b, x ∈ l -> f x = Some b -> key b = x.1) -> NoDup l.*1 -> NoDup (key <$> omap f l).
Proof.
  induction l as [|x l IH]; intros Hk Hn; [constructor|]. rewrite fmap_cons in Hn. apply NoDup_cons in Hn as [Hni Hn].
  assert (NoDup (key <$> omap f l)) as Hl by (apply IH; [|done]; intros y b Hy; apply Hk; by right).
  cbn [omap list_omap]. destruct (f x) as [b|] eqn:E; [|done]. rewrite fmap_cons. apply NoDup_cons. split; [|done].
  intros (b'&Hb'&(y&Hy&Hf)%list_elem_of_omap)%list_elem_of_fmap. apply Hni.
  rewrite <- (Hk x b ltac:(left) E), Hb', (Hk y b' ltac:(by right) Hf). by apply list_elem_of_fmap_2.
Qed.

(** ** Chunks *)
Lemma concat_chunks_fuel {A} fuel size (l : list A) : (0 < size)%nat -> (length l <= fuel)%nat -> concat (chunks_fuel fuel size l) = l.
Proof.
  intros Hs. revert l. induction fuel as [|fuel IH]; intros l Hl; [by destruct l; cbn in *; [|lia]|].
  destruct l as [|x l]; [done|]. cbn [chunks_fuel concat]. rewrite IH; [by rewrite firstn_skipn|].
  rewrite length_skipn. cbn in Hl |- *. lia.
Qed.

Lemma concat_chunks {A} size (l : list A) : (0 < size)%nat -> concat (chunks size l) = l.
Proof. intros Hs. by apply concat_chunks_fuel. Qed.

Lemma chunks_length {A} size (l : list A) : Forall (fun chunk => length chunk <= size)%nat (chunks size l).
Proof.
  unfold chunks. generalize (length l) as fuel. intros fuel. revert l. induction fuel as [|fuel IH]; intros l; [constructor|].
  destruct l as [|x l]; [constructor|]. constructor; [rewrite length_firstn; lia|apply IH].
Qed.

Lemma objects_in_get_range session : (1 <= objects_in_get session <= MAX_OBJECTS_PER_GET)%nat.
Proof.
  unfold objects_in_get, MAX_OBJECTS_PER_GET, FALLBACK_OBJECTS_IN_GET.
  destruct (max_objects_in_get session) as [n|]; [|lia]. destruct (N.ltb_spec 0 n); lia.
Qed.

(** ** Rows *)
Definition row_of (e : Email) : option MessageSummary :=
  match from_email e with Done (Ok row) => Some row | _ => None end.

#[export] Instance filed_dec e mailbox : Decision (filed e mailbox).
Proof. unfold filed. apply _. Defined.

(** The row of a message in a mailbox. *)
Definition row_in (mailbox : Id) (o : option Email) : option MessageSummary :=
  let! e := o in if bool_decide (filed e mailbox) then row_of e else None.

(** A message that a listing can read: well formed, with its own id, dates that do not panic,
    and no [false] for the mailbox. *)
Record readable (mailbox : Id) (id : Id) (e : Email) : Prop := {
  rd_ok : email_ok e;
  rd_id : em_id e = Some id;
  rd_row : is_Some (row_of e);
  rd_filed : (let! mailboxes := em_mailbox_ids e in bt_get mailbox mailboxes) <> Some false;
}.

Lemma from_email_row e row : row_of e = Some row -> from_email e = Done (Ok row).
Proof. unfold row_of. destruct (from_email e) as [[r|]|]; congruence. Qed.

Lemma row_uid e row : row_of e = Some row -> em_id e = Some (ms_uid row).
Proof.
  intros H%from_email_row. unfold from_email in H. destruct (em_id e) as [uid|]; [|done]. destruct (read_keywords e) as [flags tags].
  destruct (opt_epoch (em_received_at e)); [|done]. cbn in H. destruct (opt_epoch (em_sent_at e)); [|done]. injection H as <-. done.
Qed.

Lemma opt_cmp_flip a b : opt_cmp b a = CompOpp (opt_cmp a b).
Proof. destruct a, b; cbn; [|done..]. by rewrite Z.compare_antisym. Qed.

Lemma row_cmp_flip a b : row_cmp b a = CompOpp (row_cmp a b).
Proof. unfold row_cmp. by rewrite then_with_flip, <- opt_cmp_flip, <- text_cmp_flip. Qed.

Definition opt_lt (a b : option Z) : Prop := opt_cmp a b = Lt.

Lemma opt_cmp_eq a b : opt_cmp a b = Eq <-> a = b.
Proof. destruct a, b; cbn; [|done..]. rewrite Z.compare_eq_iff. split; congruence. Qed.

Lemma opt_cmp_trans a b c : opt_cmp a b = Lt -> opt_cmp b c = Lt -> opt_cmp a c = Lt.
Proof. destruct a, b, c; cbn; try done. rewrite !Z.compare_lt_iff. lia. Qed.

Lemma row_not_after a b :
  not_after row_cmp a b <->
  opt_cmp (ms_received_at a) (ms_received_at b) = Lt \/
  (ms_received_at a = ms_received_at b /\ (ms_uid a = ms_uid b \/ text_cmp (ms_uid a) (ms_uid b) = Lt)).
Proof.
  unfold not_after, row_cmp, then_with. pose proof (opt_cmp_eq (ms_received_at a) (ms_received_at b)) as He.
  pose proof (text_cmp_eq (ms_uid a) (ms_uid b)) as Hu.
  destruct (opt_cmp (ms_received_at a) (ms_received_at b)); [|naive_solver|naive_solver].
  destruct (text_cmp (ms_uid a) (ms_uid b)); naive_solver.
Qed.

Lemma row_cmp_trans a b c : not_after row_cmp a b -> not_after row_cmp b c -> not_after row_cmp a c.
Proof.
  rewrite !row_not_after. pose proof opt_cmp_trans as Ho. pose proof text_cmp_trans as Ht.
  generalize (ms_received_at a) (ms_received_at b) (ms_received_at c) (ms_uid a) (ms_uid b) (ms_uid c).
  intros x y z u v w [H1|[-> [->|H2]]] [G1|[-> [->|G2]]]; eauto 10.
Qed.

(** ** Fetching *)
Section fetching.
Context {W : Type} `{!MailClient W} `{!MailReader W}.
Variable account_id : Id.
Variable properties : list text.
(** The messages of the account, as the server holds them when it answers a call. *)
Variable mail_at : W -> Id -> option Email.

Definition read_step (w w' : W) : Prop := exists ids, w' = (client_email_get w account_id ids (Some properties)).1.

(** A time during the calls from [w] to [w']. *)
Definition between (w w' wt : W) : Prop := rtc read_step w wt /\ rtc read_step wt w'.

(** While the server is in a [good] state, an [Email/get] of no more ids than one call takes
    answers with the messages that are there, in any order. *)
Variable good : W -> Prop.

Definition faithful_get : Prop := forall w ids,
  good w -> (length ids <= objects_in_get reader_session)%nat -> exists w' found,
  client_email_get w account_id ids (Some properties) = (w', Ok found) /\ good w' /\
  found ≡ₚ omap (fun id => project_email properties <$> mail_at w id) ids.

Hypothesis get : faithful_get.

(** What each id was when it was looked up. *)
Record looked_up (w w' : W) (ids : list Id) (emails : list Email) (look : list (Id * option Email)) : Prop := {
  lk_ids : look.*1 = ids;
  lk_emails : emails ≡ₚ omap (fun x => project_email properties <$> x.2) look;
  lk_times x : x ∈ look -> exists wt, between w w' wt /\ good wt /\ mail_at wt x.1 = x.2;
}.

Lemma fetch_chunks_spec cs w acc :
  good w -> Forall (fun chunk => length chunk <= objects_in_get reader_session)%nat cs ->
  exists w' emails look, fetch_chunks account_id w properties cs acc = (w', Ok (acc ++ emails)) /\
    rtc read_step w w' /\ looked_up w w' (concat cs) emails look.
Proof using get.
  intros Hgood Hcs. revert w acc Hgood. induction Hcs as [|chunk cs Hlen _ IH]; intros w acc Hgood; cbn [fetch_chunks concat].
  { exists w, [], []. rewrite app_nil_r. split_and!; [done|done|]. split; [done|done|]. intros x Hx. by apply elem_of_nil in Hx. }
  destruct (get w chunk Hgood Hlen) as (w1&found&Hcall&Hgood1&Hfound). rewrite Hcall.
  destruct (IH w1 (acc ++ found) Hgood1) as (w'&emails&look&->&Hsteps&[Hids Hem Htimes]).
  assert (read_step w w1) as Hstep by (exists chunk; by rewrite Hcall).
  exists w', (found ++ emails), (((fun id => (id, mail_at w id)) <$> chunk) ++ look).
  split; [by rewrite app_assoc|]. split; [by eapply rtc_l|]. split.
  - rewrite fmap_app, Hids, <- list_fmap_compose. f_equal. by rewrite list_fmap_id.
  - rewrite omap_app, Hfound, Hem. f_equiv. apply reflexive_eq. by rewrite omap_over_fmap.
  - intros x [(id&->&Hid)%list_elem_of_fmap|Hx]%elem_of_app.
    + exists w. split; [|done]. split; [done|]. by eapply rtc_l.
    + destruct (Htimes x Hx) as (wt&[H1 H2]&Hg&Hm). exists wt. split; [|done]. split; [by eapply rtc_l|done].
Qed.

Lemma fetch_spec w ids :
  good w -> exists w' emails look, fetch account_id w ids properties = (w', Ok emails) /\ rtc read_step w w' /\ looked_up w w' ids emails look.
Proof using get.
  intros Hgood.
  destruct (fetch_chunks_spec (chunks (objects_in_get reader_session) ids) w [] Hgood) as (w'&emails&look&Hf&Hs&Hl); [apply chunks_length|].
  rewrite concat_chunks in Hl by (pose proof (objects_in_get_range reader_session); lia). by exists w', emails, look.
Qed.
End fetching.

(** ** Sorting what was fetched *)

(** A fetched message: its row and its mailboxes are those of a readable message. *)
Definition fetched_ok (mailbox : Id) (e : Email) : Prop :=
  is_Some (row_of e) /\ (let! mailboxes := em_mailbox_ids e in bt_get mailbox mailboxes) <> Some false.

Definition in_row (mailbox : Id) (e : Email) : option MessageSummary := row_in mailbox (Some e).

Lemma filed_get e mailbox : filed e mailbox <-> (let! mailboxes := em_mailbox_ids e in bt_get mailbox mailboxes) = Some true.
Proof. unfold filed. by destruct (em_mailbox_ids e). Qed.

Lemma sort_fetched_spec mailbox emails present (absent : btset Id) :
  Forall (fetched_ok mailbox) emails -> exists absent',
    sort_fetched mailbox emails present absent = Done (Ok (present ++ omap (in_row mailbox) emails, absent')) /\
    (bs_ok absent -> bs_ok absent') /\
    forall id, id ∈ absent' <-> id ∈ absent \/ exists e row, e ∈ emails /\ ~ filed e mailbox /\ row_of e = Some row /\ ms_uid row = id.
Proof.
  intros Hok. revert present absent. induction Hok as [|e emails [[row Hrow] Hf] _ IH]; intros present absent; cbn [sort_fetched].
  { exists absent. split; [by rewrite app_nil_r|]. split; [done|]. intros id. split; [by left|]. intros [|(e&row&He&_)]; [done|]. by apply elem_of_nil in He. }
  assert (in_row mailbox e = if bool_decide (filed e mailbox) then Some row else None) as Hin by (unfold in_row, row_in; cbn [mbind option_bind]; by rewrite Hrow).
  rewrite (from_email_row e row Hrow). cbn [run_bind omap list_omap].
  destruct (let! mailboxes := em_mailbox_ids e in bt_get mailbox mailboxes) as [[]|] eqn:E; [|done|].
  - assert (filed e mailbox) as Hfe by (by apply filed_get). rewrite bool_decide_eq_true_2 in Hin by done. rewrite Hin.
    rewrite bool_decide_eq_true_2 by done. destruct (IH (present ++ [row]) absent) as (absent'&->&Hbs&Hiff). exists absent'.
    split; [by rewrite <- app_assoc|]. split; [done|]. intros id. rewrite Hiff. f_equiv. split.
    + intros (e1&r&He1&H). exists e1, r. by split; [right|].
    + intros (e1&r&[->|He1]%elem_of_cons&Hnf&H); [done|]. by exists e1, r.
  - assert (~ filed e mailbox) as Hfe by (rewrite filed_get; congruence). rewrite bool_decide_eq_false_2 in Hin by done. rewrite Hin.
    rewrite bool_decide_eq_false_2 by done. destruct (IH present (bs_insert (ms_uid row) absent)) as (absent'&->&Hbs&Hiff). exists absent'.
    split; [done|]. split; [intros Ha; by apply Hbs, bs_insert_ok|]. intros id. rewrite Hiff, elem_of_bs_insert. split.
    + intros [[->|Ha]|(e1&r&He1&H)]; [right; exists e, row; by split_and!; [left|..]|by left|]. right. exists e1, r. by split; [right|].
    + intros [Ha|(e1&r&[->|He1]%elem_of_cons&Hnf&Hr&Hu)]; [left; by right| |right; by exists e1, r].
      left. left. congruence.
Qed.

(** ** Applying an update *)

(** A folder after it takes the rows of an update and drops the absent uids. *)
Definition refreshed (present : list MessageSummary) (absent : list Id) (rows : Id -> option MessageSummary) (id : Id)
  : option MessageSummary :=
  match find (fun row => bool_decide (ms_uid row = id)) present with
  | Some row => Some row
  | None => if decide (id ∈ absent) then None else rows id
  end.

Lemma find_uid (l : list MessageSummary) row :
  NoDup (ms_uid <$> l) -> row ∈ l -> find (fun r => bool_decide (ms_uid r = ms_uid row)) l = Some row.
Proof.
  induction l as [|r l IH]; intros Hn Hin; [by apply elem_of_nil in Hin|]. cbn [find].
  apply NoDup_cons in Hn as [Hr Hn]. apply elem_of_cons in Hin as [->|Hin]; [by rewrite bool_decide_eq_true_2|].
  rewrite bool_decide_eq_false_2; [by apply IH|]. intros E. apply Hr. rewrite E. by apply list_elem_of_fmap_2.
Qed.

Lemma find_uid_none (l : list MessageSummary) id : id ∉ ms_uid <$> l -> find (fun r => bool_decide (ms_uid r = id)) l = None.
Proof.
  induction l as [|r l IH]; intros Hni; [done|]. cbn [find]. rewrite fmap_cons, not_elem_of_cons in Hni. destruct Hni as [Hne Hni].
  rewrite bool_decide_eq_false_2 by congruence. by apply IH.
Qed.

Section look.
Variable mailbox : Id.
Variable properties : list text.
Hypothesis Hprops : SUMMARY_PROPERTIES ⊆ properties.
Hypothesis Hmailboxes : lit "mailboxIds" ∈ properties.

Lemma project_filed e : email_ok e -> filed (project_email properties e) mailbox <-> filed e mailbox.
Proof using Hprops Hmailboxes. intros He. destruct (project_email_reads properties e He Hprops) as (_&_&_&Hm). unfold filed. by rewrite Hm. Qed.

Lemma project_row e : email_ok e -> row_of (project_email properties e) = row_of e.
Proof using Hprops. intros He. destruct (project_email_reads properties e He Hprops) as (_&_&Hf&_). unfold row_of. by rewrite Hf. Qed.

Lemma project_fetched id e : readable mailbox id e -> fetched_ok mailbox (project_email properties e).
Proof using Hprops Hmailboxes.
  intros [He _ Hrow Hf]. split; [by rewrite project_row|].
  destruct (project_email_reads properties e He Hprops) as (_&_&_&Hm). by rewrite Hm.
Qed.

Variable look : list (Id * option Email).
Hypothesis Hread : forall id e, (id, Some e) ∈ look -> readable mailbox id e.

Lemma look_rows emails :
  emails ≡ₚ omap (fun x => project_email properties <$> x.2) look ->
  omap (in_row mailbox) emails ≡ₚ omap (fun x => row_in mailbox x.2) look.
Proof using Hread Hprops Hmailboxes.
  intros ->. apply reflexive_eq. induction look as [|[id [e|]] l IH]; [done| |].
  - assert (readable mailbox id e) as [He _ _ _] by (apply Hread; left).
    assert (in_row mailbox (project_email properties e) = row_in mailbox (Some e)) as E.
    { unfold in_row, row_in. cbn [mbind option_bind]. rewrite project_row by done.
      by rewrite (bool_decide_ext _ _ (project_filed e He)). }
    cbn [omap list_omap fmap option_fmap option_map snd]. rewrite E, IH; [done|]. intros id' e' Hin. apply Hread. by right.
  - apply IH. intros id' e' Hin. apply Hread. by right.
Qed.

Lemma row_in_uid id o row : (id, o) ∈ look -> row_in mailbox o = Some row -> ms_uid row = id.
Proof using Hread.
  intros Hin Hr. destruct o as [e|]; [|done]. unfold row_in in Hr. cbn [mbind option_bind] in Hr.
  destruct (bool_decide (filed e mailbox)); [|done]. apply row_uid in Hr. apply Hread in Hin as [_ Hid _ _]. congruence.
Qed.

Lemma look_uids id : id ∈ ms_uid <$> omap (fun x => row_in mailbox x.2) look <-> exists o, (id, o) ∈ look /\ is_Some (row_in mailbox o).
Proof using Hread.
  rewrite list_elem_of_fmap. split.
  - intros (row&->&([k o]&Hin&Hr)%list_elem_of_omap). exists o. cbn [snd] in Hr. rewrite (row_in_uid k o row) by done. split; [done|by eexists].
  - intros (o&Hin&[row Hr]). exists row. split; [symmetry; by eapply row_in_uid|]. apply list_elem_of_omap. by exists (id, o).
Qed.

Lemma look_uids_nodup : NoDup look.*1 -> NoDup (ms_uid <$> omap (fun x => row_in mailbox x.2) look).
Proof using Hread. apply nodup_omap_keys. intros [id o] row Hin Hr. by eapply row_in_uid. Qed.

Lemma look_fetched emails : emails ≡ₚ omap (fun x => project_email properties <$> x.2) look -> Forall (fetched_ok mailbox) emails.
Proof using Hread Hprops Hmailboxes.
  intros ->. apply Forall_forall. intros p ([id o]&Hin&Hp)%list_elem_of_omap. cbn [snd] in Hp.
  apply fmap_Some in Hp as (e&->&->). eapply project_fetched. by apply Hread.
Qed.

(** The uids outside the mailbox. *)
Lemma look_absent emails id :
  emails ≡ₚ omap (fun x => project_email properties <$> x.2) look ->
  (exists p row, p ∈ emails /\ ~ filed p mailbox /\ row_of p = Some row /\ ms_uid row = id) <->
  exists e, (id, Some e) ∈ look /\ ~ filed e mailbox.
Proof using Hread Hprops Hmailboxes.
  intros Hem. split.
  - intros (p&row&Hp&Hf&Hr&<-). rewrite Hem in Hp. apply list_elem_of_omap in Hp as ([k o]&Hin&Ho). cbn [snd] in Ho.
    apply fmap_Some in Ho as (e&->&->). destruct (Hread k e Hin) as [He Hid _ _]. exists e. rewrite project_filed in Hf by done.
    rewrite project_row in Hr by done. apply row_uid in Hr. split; [|done]. by replace (ms_uid row) with k by congruence.
  - intros (e&Hin&Hf). destruct (Hread id e Hin) as [He Hid [row Hr] _]. exists (project_email properties e), row.
    rewrite Hem, project_filed, project_row by done. split_and!; [|done|done|apply row_uid in Hr; congruence].
    apply list_elem_of_omap. by exists (id, Some e).
Qed.

Lemma look_unique id o o' : NoDup look.*1 -> (id, o) ∈ look -> (id, o') ∈ look -> o = o'.
Proof using Type. intros Hn H1%(nodup_bt_get _ _ _ Hn) H2%(nodup_bt_get _ _ _ Hn). congruence. Qed.

Lemma changed_look changes emails :
  emails ≡ₚ omap (fun x => project_email properties <$> x.2) look ->
  NoDup look.*1 -> bs_ok (cs_destroyed changes) -> (forall id, id ∈ cs_destroyed changes -> id ∉ look.*1) ->
  exists sorted present absent, sort_fetched mailbox emails [] (cs_destroyed changes) = Done (Ok sorted) /\
    changed_update changes look.*1 sorted = Changed (cs_new_state changes) present absent /\
    StronglySorted (not_after row_cmp) present /\ NoDup (ms_uid <$> present) /\ bs_ok absent /\
    forall rows id,
      (forall o, (id, o) ∈ look -> refreshed present absent rows id = row_in mailbox o) /\
      (id ∈ cs_destroyed changes -> refreshed present absent rows id = None) /\
      (id ∉ look.*1 -> id ∉ cs_destroyed changes -> refreshed present absent rows id = rows id).
Proof using Hread Hprops Hmailboxes.
  intros Hem Hn Hd Hdis. destruct (sort_fetched_spec mailbox emails [] (cs_destroyed changes) (look_fetched emails Hem)) as (absent&->&Hbs&Habs).
  eexists _, _, _. split; [done|]. split; [done|]. cbn [app]. set (present := sort_by row_cmp (omap (in_row mailbox) emails)).
  assert (present ≡ₚ omap (fun x => row_in mailbox x.2) look) as Hp by (unfold present; rewrite sort_by_perm; by apply look_rows).
  assert (NoDup (ms_uid <$> present)) as Hpn by (rewrite Hp; by apply look_uids_nodup).
  assert (forall id, id ∈ ms_uid <$> present <-> exists o, (id, o) ∈ look /\ is_Some (row_in mailbox o)) as Hpu by (intros id; rewrite Hp; apply look_uids).
  set (all := bs_union absent _).
  assert (forall id, id ∈ all <-> id ∈ cs_destroyed changes \/ exists o, (id, o) ∈ look /\ row_in mailbox o = None) as Hall.
  { intros id. specialize (Habs id). rewrite (look_absent emails id Hem) in Habs. unfold all. rewrite elem_of_bs_union, list_elem_of_filter.
    assert (id ∈ ms_uid <$> omap (in_row mailbox) emails <-> exists o, (id, o) ∈ look /\ is_Some (row_in mailbox o)) as Hpu'
      by (rewrite <- Hpu; unfold present; by rewrite sort_by_perm).
    rewrite Hpu'. split.
    - intros [[Hid|(e&He&Hf)]%Habs|[[Hn1 Hn2] ([k o]&->&Hin)%list_elem_of_fmap]]; [by left| |]; right.
      + exists (Some e). split; [done|]. unfold row_in. cbn [mbind option_bind]. by rewrite bool_decide_eq_false_2.
      + exists o. split; [done|]. destruct (row_in mailbox o) as [row|] eqn:Er; [|done]. destruct Hn1. exists o. by rewrite Er.
    - intros [Hid|(o&Ho&Hr)]; [left; apply Habs; by left|]. destruct (decide (id ∈ absent)) as [Hin|Hni]; [by left|].
      right. split; [split; [|done]|by apply (list_elem_of_fmap_2 fst _ (id, o))].
      intros (o'&Ho'&Hs). rewrite (look_unique id o o' Hn Ho Ho') in Hr. rewrite Hr in Hs. by destruct Hs. }
  split_and!; [apply sort_by_sorted; [apply row_cmp_flip|apply row_cmp_trans]|done|by apply bs_union_ok, Hbs|].
  intros rows id. unfold refreshed. split_and!.
  - intros o Ho. destruct (row_in mailbox o) as [row|] eqn:Er.
    + assert (row ∈ present) as Hin by (rewrite Hp; apply list_elem_of_omap; by exists (id, o)).
      rewrite <- (row_in_uid id o row Ho Er), find_uid by done. done.
    + rewrite find_uid_none, decide_True; [done|apply Hall; right; by exists o|]. rewrite Hpu. intros (o'&Ho'&[row Hr]).
      rewrite (look_unique id o o' Hn Ho Ho') in Er. congruence.
  - intros Hid. rewrite find_uid_none, decide_True; [done|apply Hall; by left|]. rewrite Hpu. intros (o&Ho&_).
    apply (Hdis id Hid). by apply (list_elem_of_fmap_2 fst _ (id, o)).
  - intros Hni Hnd. rewrite find_uid_none, decide_False; [done| |].
    + rewrite Hall. intros [|(o&Ho&_)]; [done|]. by apply Hni, (list_elem_of_fmap_2 fst _ (id, o)).
    + rewrite Hpu. intros (o&Ho&_). by apply Hni, (list_elem_of_fmap_2 fst _ (id, o)).
Qed.
End look.

(** ** The refresh *)
Section refresh.
Context {W : Type} `{!MailClient W} `{!MailReader W}.
Variable to_lowercase : text -> text.
Variable account_id : Id.
Variable mail_at : W -> Id -> option Email.
Variable good : W -> Prop.

Lemma messages_since_spec w w1 changes mailbox since held :
  faithful_get account_id filing_properties mail_at good -> good w1 ->
  reader_all_changes w account_id (lit "Email") since = (w1, Ok changes) ->
  changeset_is_empty changes = false -> changeset_ok changes -> NoDup (changeset_ids changes) ->
  (length (cs_created changes ++ cs_updated changes) <= catch_up_limit held (objects_in_get reader_session))%nat ->
  (forall wt id e, good wt -> mail_at wt id = Some e -> readable mailbox id e) ->
  (forall id, id ∈ cs_destroyed changes -> mail_at w1 id = None) ->
  exists w' present absent,
    messages_since to_lowercase account_id w mailbox since held = (w', Done (Ok (Changed (cs_new_state changes) present absent))) /\
    StronglySorted (not_after row_cmp) present /\ NoDup (ms_uid <$> present) /\ bs_ok absent /\
    forall rows id,
      if decide (id ∈ changeset_ids changes)
      then exists wt, between account_id filing_properties w1 w' wt /\ good wt /\ refreshed present absent rows id = row_in mailbox (mail_at wt id)
      else refreshed present absent rows id = rows id.
Proof.
  intros Hget Hgood Hcall Hne Hcok Hnd Hlen Hread Hgone. unfold messages_since. rewrite Hcall, Hne.
  rewrite (proj2 (Nat.ltb_ge _ _) Hlen). set (touched := cs_created changes ++ cs_updated changes) in *.
  destruct (fetch_spec account_id filing_properties mail_at good Hget w1 touched Hgood) as (w'&emails&look&->&Hsteps&[Hids Hem Htimes]).
  assert (forall id e, (id, Some e) ∈ look -> readable mailbox id e) as Hlook.
  { intros id e (wt&_&Hwt&Hm)%Htimes. by eapply Hread. }
  unfold changeset_ids in Hnd. rewrite app_assoc in Hnd. fold touched in Hnd. apply NoDup_app in Hnd as (Hn&Hdis&_).
  destruct (changed_look mailbox filing_properties ltac:(intros x Hx; apply elem_of_app; by left) ltac:(by_decide) look Hlook changes emails Hem) as
    (sorted&present&absent&->&Hup&Hs&Hpn&Hbs&Hrows); [by rewrite Hids|apply Hcok|intros id H1 H2; rewrite Hids in H2; by apply (Hdis id)|].
  rewrite Hids in Hup. cbn [run_map rbind]. rewrite Hup. exists w', present, absent. split_and!; [done..|]. intros rows id.
  destruct (Hrows rows id) as (H1&H2&H3). rewrite Hids in H3. case_decide as Hin.
  - unfold changeset_ids in Hin. rewrite app_assoc in Hin. fold touched in Hin. apply elem_of_app in Hin as [Hin|Hin].
    + rewrite <- Hids in Hin. apply list_elem_of_fmap in Hin as ([k o]&->&Hin). destruct (Htimes _ Hin) as (wt&Hwt&Hgt&Hm). cbn [fst snd] in *.
      exists wt. split; [done|]. split; [done|]. rewrite Hm. by apply H1.
    + exists w1. split; [by split|]. split; [done|]. rewrite Hgone by done. by apply H2.
  - apply H3; contradict Hin; unfold changeset_ids; rewrite app_assoc; apply elem_of_app; [by left|by right].
Qed.
(** C17: A refresh brings a folder up to date, whatever other clients do between its calls. Every
    message that the delta names ends up as the server had it at some time after the delta was
    answered: with its row if it was in the mailbox, without one if not. Every other row is
    left alone. The rows come oldest first, each once. *)
Theorem messages_since_refreshes w w1 changes mailbox since held :
  faithful_get account_id filing_properties mail_at good -> good w1 ->
  reader_all_changes w account_id (lit "Email") since = (w1, Ok changes) ->
  changeset_is_empty changes = false -> changeset_ok changes -> NoDup (changeset_ids changes) ->
  (length (cs_created changes ++ cs_updated changes) <= catch_up_limit held (objects_in_get reader_session))%nat ->
  (forall wt id e, good wt -> mail_at wt id = Some e -> readable mailbox id e) ->
  (forall id, id ∈ cs_destroyed changes -> mail_at w1 id = None) ->
  exists w' present absent,
    messages_since to_lowercase account_id w mailbox since held = (w', Done (Ok (Changed (cs_new_state changes) present absent))) /\
    StronglySorted (not_after row_cmp) present /\ NoDup (ms_uid <$> present) /\ bs_ok absent /\
    forall rows id,
      if decide (id ∈ changeset_ids changes)
      then exists wt, between account_id filing_properties w1 w' wt /\ good wt /\ refreshed present absent rows id = row_in mailbox (mail_at wt id)
      else refreshed present absent rows id = rows id.
Proof. apply messages_since_spec. Qed.
End refresh.
