(* ===== verification/MailPaging.v ===== *)
(** The full listing of a mailbox (jmap-mail-sync/src/lib.rs: [paged_query], [messages]): that
    it is complete when the query is stable. *)

From Stdlib Require Import Ascii String.
From stdpp Require Import prelude strings sorting.
From S2P Require Import Prelude BTree Text Strings Json Wire Proto Email Store SetOps Patch SetMethod Changes Date MailDate Keywords MockMail MockQuery MailSummary Session Tarjan SetChunk MailFiling MailListing MailRefresh.

Local Open Scope rust_scope.

(** ** The rows of a listing *)
Lemma rows_by_uid_spec emails (m : btmap Id MessageSummary) :
  Forall (fun e => is_Some (row_of e)) emails -> NoDup (ms_uid <$> omap row_of emails) ->
  exists m', rows_by_uid emails m = Done (Ok m') /\
    forall id, bt_get id m' = match find (fun r => bool_decide (ms_uid r = id)) (omap row_of emails) with Some r => Some r | None => bt_get id m end.
Proof.
  intros Hrows. revert m. induction Hrows as [|e emails [row Hr] _ IH]; intros m Hn; [by exists m|].
  cbn [rows_by_uid omap list_omap] in *. rewrite Hr in Hn |- *. rewrite (from_email_row e row Hr). cbn [run_bind].
  rewrite fmap_cons in Hn. apply NoDup_cons in Hn as [Hni Hn]. destruct (IH (bt_insert (ms_uid row) row m) Hn) as (m'&->&Hm').
  exists m'. split; [done|]. intros id. rewrite Hm'. cbn [find]. case_bool_decide as E.
  - subst id. rewrite find_uid_none by done. by rewrite bt_get_insert_eq.
  - destruct (find _ _); [done|]. by rewrite bt_get_insert, decide_False.
Qed.

Lemma take_rows_spec ids (m : btmap Id MessageSummary) : NoDup ids -> take_rows ids m = omap (fun id => bt_get id m) ids.
Proof.
  revert m. induction ids as [|id ids IH]; intros m Hn; [done|]. apply NoDup_cons in Hn as [Hni Hn]. cbn [take_rows omap list_omap].
  destruct (bt_get id m) as [row|]; [|by apply IH]. f_equal. rewrite IH by done. clear IH. induction ids as [|k ids IH]; [done|].
  rewrite not_elem_of_cons in Hni. destruct Hni as [Hk Hni]. apply NoDup_cons in Hn as [_ Hn].
  cbn [omap list_omap]. rewrite bt_get_remove, decide_False by done. by rewrite IH.
Qed.

Lemma find_uid_perm (l l' : list MessageSummary) id :
  l ≡ₚ l' -> NoDup (ms_uid <$> l) ->
  find (fun r => bool_decide (ms_uid r = id)) l = find (fun r => bool_decide (ms_uid r = id)) l'.
Proof.
  intros Hp Hn. assert (NoDup (ms_uid <$> l')) as Hn' by (by rewrite <- Hp).
  destruct (decide (id ∈ ms_uid <$> l)) as [Hin|Hni].
  - apply list_elem_of_fmap in Hin as (row&->&Hin). rewrite find_uid by done. symmetry. apply find_uid; [done|]. by rewrite <- Hp.
  - rewrite find_uid_none by done. symmetry. apply find_uid_none. by rewrite <- Hp.
Qed.

(** ** Pages *)
Lemma charge_all_app b l1 l2 : charge_all b (l1 ++ l2) = (let! b := charge_all b l1 in charge_all b l2).
Proof. revert b. induction l1 as [|id l1 IH]; intros b; [done|]. cbn [app charge_all]. destruct (budget_charge b id) as [[] b']; [apply IH|done]. Qed.

Lemma page_split {A} (l : list A) n page :
  (n <= length l)%nat ->
  firstn n l ++ firstn page (skipn n l) = firstn (Nat.min (n + page) (length l)) l /\
  skipn n l = firstn page (skipn n l) ++ skipn (Nat.min (n + page) (length l)) l.
Proof.
  intros Hn. assert (firstn (Nat.min (n + page) (length l)) l = firstn (n + page) l) as E1.
  { destruct (Nat.min_spec (n + page) (length l)) as [[_ ->]|[H ->]]; [done|]. by rewrite firstn_all, firstn_all2 by lia. }
  assert (skipn (Nat.min (n + page) (length l)) l = skipn (n + page) l) as E2.
  { destruct (Nat.min_spec (n + page) (length l)) as [[_ ->]|[H ->]]; [done|]. by rewrite skipn_all, skipn_all2 by lia. }
  rewrite E1, E2. split.
  - rewrite take_take_drop. done.
  - rewrite <- drop_drop. symmetry. apply take_drop.
Qed.

Section paging.
Context {W : Type} `{!MailClient W} `{!MailReader W}.
Variable account_id : Id.
Variable good : W -> Prop.

(** The server answers a query with the ids [l], [page] at a time: it says so when it cuts the
    answer, and a total that it reports is right. *)
Definition serves (f : Filter EmailQueryFilter) (l : list Id) (page : nat) : Prop := forall w n,
  good w -> (n <= length l)%nat -> exists w' response,
    reader_email_query w (page_request account_id f n) = (w', Ok response) /\ good w' /\
    qr_ids response = firstn page (skipn n l) /\
    (qr_limit response = None -> (length l <= n + page)%nat) /\
    (qr_total response = None \/ qr_total response = Some (N.of_nat (length l))).

Lemma query_pages_spec f l page pages w n b b' :
  serves f l page -> (0 < page)%nat -> good w -> (n <= length l)%nat -> (length l <= n + page * pages)%nat ->
  charge_all b (skipn n l) = Some b' ->
  exists w', query_pages account_id (S pages) w f (firstn n l) b = (w', Ok l) /\ good w'.
Proof using Type.
  intros Hs Hpage. revert w n b. induction pages as [|pages IH]; intros w n b Hgood Hn Hlen Hb; cbn [query_pages];
    rewrite length_firstn, Nat.min_l by done; destruct (Hs w n Hgood Hn) as (w'&r&->&Hgood'&Hids&Hlim&Htot);
    (assert (firstn n l ++ qr_ids r = firstn (Nat.min (n + page) (length l)) l /\ skipn n l = qr_ids r ++ skipn (Nat.min (n + page) (length l)) l) as [Hf Hsk];
    [rewrite Hids; apply page_split; lia|]); rewrite Hsk, charge_all_app in Hb; apply bind_Some in Hb as (b1&Hb1&Hb); rewrite Hb1, Hf.
  - assert (qr_ids r = []) as Hnil by (rewrite Hids, skipn_all2 by lia; apply firstn_nil). rewrite (bool_decide_eq_true_2 (qr_ids r = [])) by done.
    cbn [negb]. rewrite orb_true_r, firstn_all2 by lia. exists w'. split; [|done].
    destruct Htot as [->| ->]; [done|]. by rewrite decide_False by tauto.
  - destruct (negb (bool_decide (is_Some (qr_limit r))) || negb (negb (bool_decide (qr_ids r = [])))) eqn:E.
    + assert (length l <= n + page)%nat as Hend.
      { apply orb_true_iff in E as [E|E]; [apply Hlim; apply negb_true_iff, bool_decide_eq_false in E; by destruct (qr_limit r); [destruct E|]|].
        apply negb_true_iff, negb_false_iff, bool_decide_eq_true in E. rewrite E in Hids. apply (f_equal length) in Hids. 
        rewrite length_firstn, length_skipn in Hids. cbn in Hids. lia. }
      rewrite firstn_all2 by lia. exists w'. split; [|done]. destruct Htot as [->| ->]; [done|]. by rewrite decide_False by tauto.
    + apply IH; [done|lia|lia|done].
Qed.

Lemma paged_query_spec f l page w b :
  serves f l page -> (0 < page)%nat -> good w -> (length l <= page * pred MAX_QUERY_PAGES)%nat ->
  charge_all reader_id_budget l = Some b ->
  exists w', paged_query account_id w f = (w', Ok l) /\ good w'.
Proof using Type. intros Hs Hp Hg Hl Hb. apply (query_pages_spec f l page (pred MAX_QUERY_PAGES) w 0 reader_id_budget b); [done|done|done|lia|done|done]. Qed.

(** ** Listing *)
Variable mail_at : W -> Id -> option Email.

(** A message whose summary can be read. *)
Definition listable (id : Id) (e : Email) : Prop := email_ok e /\ em_id e = Some id /\ is_Some (row_of e).

Lemma listed_rows look emails :
  (forall id e, (id, Some e) ∈ look -> listable id e) ->
  emails ≡ₚ omap (fun x => project_email SUMMARY_PROPERTIES <$> x.2) look ->
  Forall (fun e => is_Some (row_of e)) emails /\ omap row_of emails ≡ₚ omap (fun x : Id * option Email => let! e := x.2 in row_of e) look.
Proof using Type.
  intros Hl ->. clear emails. induction look as [|[id [e|]] look IH]; [done| |].
  - destruct (Hl id e ltac:(left)) as (He&_&Hrow). assert (row_of (project_email SUMMARY_PROPERTIES e) = row_of e) as E by (by apply project_row).
    destruct IH as [IH1 IH2]; [intros k e' Hin; apply Hl; by right|].
    cbn [omap list_omap fmap option_fmap option_map snd mbind option_bind]. rewrite E. split; [by constructor; [rewrite E|]|].
    destruct Hrow as [row ->]. by rewrite IH2.
  - apply IH. intros k e Hin. apply Hl. by right.
Qed.

Lemma listed_uids look :
  NoDup look.*1 -> (forall id e, (id, Some e) ∈ look -> listable id e) ->
  NoDup (ms_uid <$> omap (fun x : Id * option Email => let! e := x.2 in row_of e) look).
Proof using Type.
  intros Hn Hl. apply nodup_omap_keys; [|done]. intros [k o'] row Hk Hr. cbn [fst snd] in *. apply bind_Some in Hr as (e&->&Hr).
  destruct (Hl k e Hk) as (_&Hid&_). apply row_uid in Hr. congruence.
Qed.

Lemma take_listed look (m : btmap Id MessageSummary) :
  NoDup look.*1 -> (forall id e, (id, Some e) ∈ look -> listable id e) ->
  (forall id, bt_get id m = find (fun r => bool_decide (ms_uid r = id)) (omap (fun x : Id * option Email => let! e := x.2 in row_of e) look)) ->
  take_rows look.*1 m = omap (fun x : Id * option Email => let! e := x.2 in row_of e) look.
Proof using Type.
  intros Hn Hl Hm. rewrite take_rows_spec by done. rewrite omap_over_fmap. apply list_omap_ext, Forall_Forall2_diag, Forall_forall.
  intros [id o] Hin. cbn [fst snd]. rewrite Hm.
  pose proof (listed_uids look Hn Hl) as Hu.
  destruct o as [e|]; cbn [mbind option_bind].
  - destruct (Hl id e Hin) as (_&Hid&[row Hr]). rewrite Hr. apply row_uid in Hr as Hrid. assert (ms_uid row = id) as <- by congruence.
    apply find_uid; [done|]. apply list_elem_of_omap. by exists (ms_uid row, Some e).
  - apply find_uid_none. intros (row&->&([k o']&Hk&Hr)%list_elem_of_omap)%list_elem_of_fmap. cbn [snd] in Hr.
    apply bind_Some in Hr as (e&->&Hr). destruct (Hl k e Hk) as (_&Hid&_). apply row_uid in Hr. assert (k = ms_uid row) as -> by congruence.
    apply (nodup_bt_get _ _ _ Hn) in Hin. apply (nodup_bt_get _ _ _ Hn) in Hk. congruence.
Qed.

Lemma messages_spec w w1 state mailbox l page b :
  reader_email_state w account_id = (w1, Ok state) -> good w1 ->
  serves (Condition (in_mailbox mailbox)) l page -> (0 < page)%nat -> (length l <= page * pred MAX_QUERY_PAGES)%nat ->
  charge_all reader_id_budget l = Some b -> NoDup l ->
  faithful_get account_id SUMMARY_PROPERTIES mail_at good ->
  (forall w id e, good w -> mail_at w id = Some e -> listable id e) ->
  exists w2 w' look,
    messages account_id w mailbox = (w', Done (Ok (state, omap (fun x : Id * option Email => let! e := x.2 in row_of e) look))) /\
    look.*1 = l /\
    forall id o, (id, o) ∈ look -> exists wt, between account_id SUMMARY_PROPERTIES w2 w' wt /\ good wt /\ mail_at wt id = o.
Proof using Type.
  intros Hst Hg1 Hs Hp Hl Hb Hn Hget Hread. unfold messages. rewrite Hst. unfold message_ids.
  destruct (paged_query_spec _ _ _ w1 b Hs Hp Hg1 Hl Hb) as (w2&->&Hg2).
  destruct (fetch_spec account_id SUMMARY_PROPERTIES mail_at good Hget w2 l Hg2) as (w'&emails&look&->&_&[Hids Hem Htimes]).
  exists w2, w', look. split; [|split; [done|intros id o Hin; destruct (Htimes (id, o) Hin) as (wt&Hwt&Hg&Hm); by exists wt]].
  assert (forall id e, (id, Some e) ∈ look -> listable id e) as Hlook by (intros id e (wt&_&Hg&Hm)%Htimes; by eapply Hread).
  destruct (listed_rows look emails Hlook Hem) as [Hrows Hperm].
  assert (NoDup (ms_uid <$> omap row_of emails)) as Hun by (rewrite Hperm; apply listed_uids; [by rewrite Hids|done]).
  destruct (rows_by_uid_spec emails [] Hrows Hun) as (m&->&Hm). cbn [run_map rbind]. rewrite <- Hids.
  rewrite (take_listed look m); [done|by rewrite Hids|done|]. intros id. rewrite Hm. rewrite (find_uid_perm _ _ id Hperm Hun).
  by destruct (find _ _).
Qed.
(** C25: A listing is complete. If the query of the mailbox stays the same while it is paged,
    the listing has a row for every message that it names and that is there when it is
    fetched, in the order of the query and each as it was then, with the state from before
    the query. *)
Theorem messages_lists w w1 state mailbox l page b :
  reader_email_state w account_id = (w1, Ok state) -> good w1 ->
  serves (Condition (in_mailbox mailbox)) l page -> (0 < page)%nat -> (length l <= page * pred MAX_QUERY_PAGES)%nat ->
  charge_all reader_id_budget l = Some b -> NoDup l ->
  faithful_get account_id SUMMARY_PROPERTIES mail_at good ->
  (forall w id e, good w -> mail_at w id = Some e -> listable id e) ->
  exists w2 w' look,
    messages account_id w mailbox = (w', Done (Ok (state, omap (fun x : Id * option Email => let! e := x.2 in row_of e) look))) /\
    look.*1 = l /\
    forall id o, (id, o) ∈ look -> exists wt, between account_id SUMMARY_PROPERTIES w2 w' wt /\ good wt /\ mail_at wt id = o.
Proof using Type. apply messages_spec. Qed.
End paging.
