(* ===== verification/MockClient.v ===== *)
(** A client on the mock server: the chunked calls of the client (jmap-client/src/client.rs,
    set.rs) answered by the mock's mail handlers (jmap-mock/src/mail.rs), for the account's
    owner. The server keeps the promises that the filing operations are proved against. *)

From Stdlib Require Import Ascii String.
From stdpp Require Import prelude strings gmap.
From S2P Require Import Prelude BTree Text Strings Json Wire Proto Email Store SetOps Patch SetMethod Keywords MockMail MockMailSet Session ClientGet Tarjan SetChunk SetSend MailFiling.

Local Open Scope rust_scope.

Section client.
Variable serde_error : Value -> text.
Variable envelope_len : ServerState -> N.
Variable session : Session.
Variable to_value : Email -> result Value Error.
Variable hash_order : gset text -> list text.
Variable limit : option nat.
Variable account_id : Id.

(** One [Email/get] call, its answer read. *)
Definition mock_get_call (account_id : Id) (properties : option (list text)) (s : ServerState) (ids : list Id)
  : ServerState * result (GetResponse Email) Error :=
  (s, let? response :=
        map_err Method (email_get s {| gq_account_id := account_id; gq_ids := Some ids; gq_properties := properties |} None) in
      let? list := ok_or (mapM email_from_value (gr_list response)) (Json (serde_error Null)) in
      Ok {| gr_account_id := gr_account_id response; gr_state := gr_state response; gr_list := list;
            gr_not_found := gr_not_found response |}).

(** One [Email/set] call; no creation id is sent along. *)
Definition mock_set_call (s : ServerState) (request : SetRequest Email) (created_ids : btmap Id Id)
  : ServerState * result (SetResponse Email) Error :=
  let '(s, r) := email_set serde_error s request None in (s, map_err Method r).

Definition out_of_fuel : Error := Protocol (lit "out of fuel").

#[local] Instance mock_client : MailClient ServerState := {|
  client_email_get s account_id ids properties :=
    match get_chunked (mock_get_call account_id properties) envelope_len em_id session s ids with
    | Some (s, r) => (s, let? response := r in Ok (gr_list response))
    | None => (s, Err out_of_fuel)
    end;
  client_email_set s request := default (s, Err out_of_fuel) (execute_set_chunked mock_set_call to_value hash_order s request limit);
|}.

Definition mock_mail (s : ServerState) (id : Id) : option Email :=
  let! account := bt_get account_id (sv_accounts s) in store_get (ma_emails account) id.

Definition mock_inv (s : ServerState) : Prop :=
  forall account, bt_get account_id (sv_accounts s) = Some account -> bt_ok (st_objects (ma_emails account)).

(** ** Email/get of one message *)
(** A projection keeps the id, and the mailboxes if they are asked for. *)
Lemma projected_reads (P : text * Value -> Prop) `{!forall e, Decision (P e)} m e p :
  (forall v, P (lit "id", v)) -> (forall v, P (lit "mailboxIds", v)) ->
  email_reads m e -> email_reads (filter P m) p -> em_id p = em_id e /\ em_mailbox_ids p = em_mailbox_ids e.
Proof using Type.
  intros Hi Hm He Hp. pose proof (er_id _ _ Hp) as H1. pose proof (er_mailbox_ids _ _ Hp) as H2.
  rewrite read_opt_filter, (er_id _ _ He) in H1 by done. rewrite read_opt_filter, (er_mailbox_ids _ _ He) in H2 by done.
  by injection H1 as <-; injection H2 as <-.
Qed.

Lemma project_properties_reads e p :
  email_ok e -> email_from_value (project_properties e (Some [MAILBOX_IDS])) = Some p ->
  em_id p = em_id e /\ em_mailbox_ids p = em_mailbox_ids e.
Proof using Type.
  intros He Hp%email_reads_from. pose proof (email_reads_from _ _ (email_reads_back e He)) as Hb.
  eapply projected_reads; [..|exact Hb|exact Hp]; intros v; [by left|right; by apply list_elem_of_singleton].
Qed.

Lemma find_keep_requested uid requested b (l : list Email) :
  uid ∈ requested ->
  find (fun email => bool_decide (em_id email = Some uid)) (keep_requested em_id requested b l) =
  find (fun email => bool_decide (em_id email = Some uid)) l.
Proof using Type.
  intros Hin. revert b. induction l as [|e l IH]; intros b; cbn; [done|]. destruct (em_id e) as [id|] eqn:Ei; cbn.
  - case_decide as Hr; cbn; [by rewrite Ei, IH|]. rewrite IH, bool_decide_eq_false_2; [done|]. congruence.
  - rewrite bool_decide_eq_false_2 by done. destruct b; cbn; [apply IH|]. rewrite Ei, bool_decide_eq_false_2 by done. apply IH.
Qed.

(** One id is one call. *)
Lemma client_get_one (s : ServerState) uid properties :
  exists r, client_email_get s account_id [uid] properties = (s, r) /\
    forall found, r = Ok found -> exists response,
      (mock_get_call account_id properties s [uid]).2 = Ok response /\ found = keep_requested em_id [uid] false (gr_list response).
Proof using Type.
  unfold client_email_get, mock_client, get_chunked. cbn [length chunk_loop].
  destruct (take_of envelope_len session s [uid]) as [n|e] eqn:Et; [|eexists; split; [done|intros found [=]]].
  apply take_of_range in Et as [Hle Hge]. specialize (Hge ltac:(done)). cbn in Hle. replace n with 1%nat by lia. cbn [firstn skipn].
  destruct (mock_get_call account_id properties s [uid]) as [s' r] eqn:Ec. assert (s' = s) as -> by (unfold mock_get_call in Ec; congruence).
  destruct r as [response|e]; eexists; (split; [done|]); intros found [= <-]. by exists response.
Qed.

(** What the handler answers to the owner, for one id. *)
Lemma email_get_one s uid properties response :
  email_get s {| gq_account_id := account_id; gq_ids := Some [uid]; gq_properties := properties |} None = Ok response ->
  exists account, bt_get account_id (sv_accounts s) = Some account /\ exists unrequested,
    gr_list response = match store_get (ma_emails account) uid with Some e => [project_properties e properties] | None => [] end ++ unrequested /\
    Forall (fun v => exists k e, k <> uid /\ (k, e) ∈ st_objects (ma_emails account) /\ v = project_properties e properties) unrequested.
Proof using Type.
  unfold email_get. cbn [gq_ids gq_account_id gq_properties]. destruct (_ <? _)%N; [done|]. unfold account_mut.
  destruct (bt_get account_id (sv_accounts s)) as [account|]; [|done]. cbn [rbind ok_or].
  change (check_caller account None) with (Ok true : result bool MethodError). cbn [rbind fold_left].
  intros Hr. exists account. split; [done|]. revert Hr.
  assert (get_step account true None properties ([], []) uid =
    match store_get (ma_emails account) uid with Some e => ([project_properties e properties], []) | None => ([], [uid]) end) as ->.
  { unfold get_step. by destruct (store_get _ _). }
  set (r := match store_get (ma_emails account) uid with Some e => ([project_properties e properties], []) | None => ([], [uid]) end).
  assert (r.1 = match store_get (ma_emails account) uid with Some e => [project_properties e properties] | None => [] end) as <-
    by (unfold r; by destruct (store_get _ _)).
  destruct r as [found not_found]. cbn [fst]. intros [= <-]. cbn [gr_list].
  destruct (sv_email_get_includes_unrequested s); [|by exists []; split; [by rewrite app_nil_r|constructor]].
  eexists. split; [done|]. unfold readable_list. apply Forall_fmap, Forall_forall. intros [k e]. cbn.
  rewrite !list_elem_of_filter. cbn. intros (_&Hk&He). exists k, e. split_and!; [|done|done]. intros ->. by destruct Hk; left.
Qed.

Lemma mock_get_found s uid response :
  mock_inv s -> (forall k e, mock_mail s k = Some e -> email_ok e /\ em_id e = Some k) ->
  (mock_get_call account_id (Some [MAILBOX_IDS]) s [uid]).2 = Ok response ->
  match mock_mail s uid with
  | Some e => exists p, find (fun email => bool_decide (em_id email = Some uid)) (gr_list response) = Some p /\
                        em_mailbox_ids p = em_mailbox_ids e
  | None => find (fun email => bool_decide (em_id email = Some uid)) (gr_list response) = None
  end.
Proof using Type.
  intros Hinv Hok. unfold mock_get_call. cbn [snd]. intros (r0&Hr0&(l&Hl&[= <-])%rbind_ok)%rbind_ok. cbn [gr_list].
  destruct (email_get s _ None) as [r1|] eqn:Eg; [|done]. injection Hr0 as <-.
  apply email_get_one in Eg as (account&Ea&unrequested&Hlist&Hun). destruct (mapM _ _) as [l1|] eqn:El; [|done]. injection Hl as <-.
  rewrite Hlist in El. apply mapM_Some_1, Forall2_app_inv_l in El as (l2&l3&Hf&Hr&->).
  unfold mock_mail in *. rewrite Ea in Hok |- *. cbn [mbind option_bind] in Hok |- *. specialize (Hinv account Ea). clear Hlist.
  assert (find (fun email => bool_decide (em_id email = Some uid)) l3 = None) as Hnone.
  { clear Hf. induction Hr as [|v p vs ps Hv _ IH]; [done|].
    apply Forall_cons in Hun as [(k&e&Hk&He&->) Hun]. apply (nodup_bt_get _ _ _ (bt_ok_nodup _ Hinv)) in He.
    destruct (Hok k e He) as [Heok Hid]. destruct (project_properties_reads e p Heok Hv) as [Hpid _].
    cbn [find]. rewrite bool_decide_eq_false_2 by (rewrite Hpid, Hid; congruence). by apply IH. }
  destruct (store_get (ma_emails account) uid) as [e|] eqn:Es; [|by apply Forall2_nil_inv_l in Hf as ->].
  destruct (Hok uid e Es) as [Heok Hid]. apply Forall2_cons_inv_l in Hf as (p&ps&Hp&_&->).
  destruct (project_properties_reads e p Heok Hp) as [Hpid Hpm]. exists p. cbn [find app].
  by rewrite bool_decide_eq_true_2 by congruence.
Qed.

(** ** Email/set of one message *)
Lemma client_set_one (s : ServerState) request :
  (total_items request <= 1)%nat -> client_email_set s request = mock_set_call s request [].
Proof using Type.
  intros Hone. unfold client_email_set, mock_client, execute_set_chunked. destruct limit as [[|n]|]; [done| |done].
  by rewrite (proj2 (Nat.leb_le _ _)) by lia.
Qed.

Lemma bt_get_single {V} k (v : V) : bt_get (k : text) [(k, v)] = Some v.
Proof using Type. cbn [bt_get]. by rewrite decide_True. Qed.

Lemma bt_contains_single {V} k (v : V) : bt_contains (k : text) [(k, v)] = true.
Proof using Type. unfold bt_contains. rewrite bt_get_single. by apply bool_decide_eq_true_2. Qed.

Lemma email_body_nothing st nd : store_transaction st (email_body [] [] [] nd) = (([], [], nd), st).
Proof using Type. done. Qed.

Lemma email_body_update st uid e p :
  store_get st uid = Some e -> exists emails,
    store_transaction st (email_body [] [(uid, p)] [] []) = (([(uid, None)], [], []), emails) /\
    st_objects emails = bt_insert uid p (st_objects st).
Proof using Type.
  intros He. assert (store_contains st uid = true) as Hc by (apply store_contains_get; by eexists).
  unfold store_transaction, email_body. cbn [fold_left fst snd]. unfold transaction_update. cbn [tx_store]. rewrite Hc. cbn [negb snd tx_staged app].
  by eexists.
Qed.

Lemma email_body_destroy st uid e :
  store_get st uid = Some e -> exists emails,
    store_transaction st (email_body [] [] [uid] []) = (([], [uid], []), emails) /\
    st_objects emails = bt_remove uid (st_objects st).
Proof using Type.
  intros He. unfold store_transaction, email_body. cbn [fold_left fst snd destroy_one]. unfold transaction_destroy. cbn [tx_store].
  rewrite He. cbn [tx_staged app]. by eexists.
Qed.

Lemma email_update_patched ext nf snoozed account uid patch e' :
  email_update_outcome serde_error ext nf snoozed true None account uid (Object patch) = Ok e' ->
  exists e v, store_get (ma_emails account) uid = Some e /\ apply_patch (email_to_value e) patch = (v, Ok tt) /\ email_from_value v = Some e'.
Proof using Type.
  unfold email_update_outcome. destruct nf; [done|]. destruct (store_get (ma_emails account) uid) as [e|] eqn:Es; [|done].
  cbn [as_object]. unfold email_patched. destruct (apply_patch (email_to_value e) patch) as [v r] eqn:Ea.
  intros (u&Hu&(p&Hp&([]&_&H)%rbind_ok)%rbind_ok)%rbind_ok. destruct r as [[]|]; [|done].
  destruct (email_from_value v) as [p'|] eqn:Ev; [|done]. injection Hp as ->.
  assert (e' = p) as -> by (destruct (snooze_refusal _ _ _); [done|]; destruct (may _ _ _); congruence). by exists e, v.
Qed.

(** The messages and the answer after one update. *)
Lemma email_set_account_update s account uid patch :
  exists emails threads response,
    email_set_account serde_error s account true (update_request account_id uid (Object patch)) None =
      (with_threads threads (with_emails emails account), response) /\
    ((exists e v e', store_get (ma_emails account) uid = Some e /\ apply_patch (email_to_value e) patch = (v, Ok tt) /\
        email_from_value v = Some e' /\ st_objects emails = bt_insert uid e' (st_objects (ma_emails account)) /\
        expect_updated response uid = Ok tt) \/
     (st_objects emails = st_objects (ma_emails account) /\ is_ok (expect_updated response uid) = false)).
Proof using Type.
  unfold email_set_account. cbn [sr_create sr_update sr_destroy update_request from_option id fold_left ec_account ec_to_create ec_created
    ec_not_created ec_to_create_threads omap list_omap bt_of_list].
  unfold email_update_entry. cbn [fst snd].
  destruct (email_update_outcome serde_error _ _ _ true None account uid (Object patch)) as [e'|refusal] eqn:Eo; cbn [app].
  - apply email_update_patched in Eo as (e&v&He&Ha&Hv). destruct (email_body_update _ _ _ e' He) as (emails&->&Hobj).
    destruct (store_transaction (ma_threads account) _) as [[] threads]. do 3 eexists. split; [done|]. left. exists e, v, e'.
    split_and!; try done. unfold expect_updated. cbn [sp_updated non_empty]. by rewrite bt_contains_single.
  - rewrite email_body_nothing. destruct (store_transaction (ma_threads account) _) as [[] threads]. do 3 eexists. split; [done|]. right.
    split; [done|]. unfold expect_updated. cbn [sp_updated sp_not_updated non_empty bt_insert mbind option_bind]. by rewrite bt_get_single.
Qed.

Lemma email_set_account_destroy s account uid :
  exists emails threads response,
    email_set_account serde_error s account true (destroy_request account_id uid) None =
      (with_threads threads (with_emails emails account), response) /\
    ((is_Some (store_get (ma_emails account) uid) /\ st_objects emails = bt_remove uid (st_objects (ma_emails account)) /\
        expect_destroyed response uid = Ok tt) \/
     (st_objects emails = st_objects (ma_emails account) /\ is_ok (expect_destroyed response uid) = false)).
Proof using Type.
  unfold email_set_account. cbn [sr_create sr_update sr_destroy destroy_request from_option id fold_left ec_account ec_to_create ec_created
    ec_not_created ec_to_create_threads].
  unfold email_destroy_entry. cbn [fst snd may orb].
  destruct (store_get (ma_emails account) uid) as [e|] eqn:Es; cbn [app].
  - destruct (email_body_destroy _ _ _ Es) as (emails&->&Hobj).
    destruct (store_transaction (ma_threads account) _) as [[] threads]. do 3 eexists. split; [done|]. left.
    split_and!; [done|done|]. unfold expect_destroyed. cbn [sp_destroyed non_empty]. by rewrite bool_decide_eq_true_2 by left.
  - rewrite email_body_nothing. destruct (store_transaction (ma_threads account) _) as [[] threads]. do 3 eexists. split; [done|]. right.
    split; [done|]. unfold expect_destroyed. cbn [sp_destroyed sp_not_destroyed non_empty bt_insert mbind option_bind]. by rewrite bt_get_single.
Qed.

(** The server after a call that leaves the messages [emails] in the account. *)
Lemma mock_mail_with_account s a k :
  mock_mail (with_account account_id a s) k = store_get (ma_emails a) k.
Proof using Type. unfold mock_mail. cbn [sv_accounts with_account]. by rewrite bt_get_insert, decide_True. Qed.

Lemma mock_inv_with_account s a : bt_ok (st_objects (ma_emails a)) -> mock_inv (with_account account_id a s).
Proof using Type. intros Ha a'. cbn [sv_accounts with_account]. rewrite bt_get_insert, decide_True by done. by intros [= <-]. Qed.

Lemma owner_email_set s request :
  sr_account_id request = account_id -> sr_if_in_state request = None ->
  email_set serde_error s request None =
    match bt_get account_id (sv_accounts s) with
    | None => (s, Err (method_error_new ACCOUNT_NOT_FOUND))
    | Some account =>
        let '(account, response) := email_set_account serde_error s account true request None in
        (with_account account_id account s, Ok response)
    end.
Proof using Type.
  intros Hid Hst. unfold email_set, account_mut. rewrite Hid, Hst. by destruct (bt_get account_id (sv_accounts s)).
Qed.

Lemma mock_mail_get s uid :
  mock_inv s -> (forall k e, mock_mail s k = Some e -> email_ok e /\ em_id e = Some k) ->
  exists s' r, client_email_get s account_id [uid] (Some [MAILBOX_IDS]) = (s', r) /\
    mock_inv s' /\ (forall k e, mock_mail s' k = Some e -> email_ok e /\ em_id e = Some k) /\
    forall found, r = Ok found ->
      match mock_mail s uid with
      | Some e => exists p, find (fun email => bool_decide (em_id email = Some uid)) found = Some p /\
                            em_mailbox_ids p = em_mailbox_ids e
      | None => find (fun email => bool_decide (em_id email = Some uid)) found = None
      end.
Proof using Type.
  intros Hinv Hok. destruct (client_get_one s uid (Some [MAILBOX_IDS])) as (r&Hcall&Hr). exists s, r. split_and!; [done..|].
  intros found Hf. destruct (Hr found Hf) as (response&Hcall'&->). rewrite find_keep_requested by (by left). by apply mock_get_found.
Qed.

Lemma mock_mail_update s uid patch :
  exists s' r, client_email_update account_id s uid (Object patch) = (s', r) /\ (mock_inv s -> mock_inv s') /\
    ((r = Ok tt /\ exists e v e', mock_mail s uid = Some e /\ apply_patch (email_to_value e) patch = (v, Ok tt) /\
        email_from_value v = Some e' /\ forall k, mock_mail s' k = if decide (k = uid) then Some e' else mock_mail s k) \/
     (is_ok r = false /\ forall k, mock_mail s' k = mock_mail s k)).
Proof using Type.
  unfold client_email_update. rewrite client_set_one by (cbn; lia). unfold mock_set_call. rewrite owner_email_set by done.
  destruct (bt_get account_id (sv_accounts s)) as [account|] eqn:Ea; [|do 2 eexists; split_and!; [done|done|by right]].
  assert (forall k, mock_mail s k = store_get (ma_emails account) k) as Hm by (intros k; unfold mock_mail; by rewrite Ea).
  destruct (email_set_account_update s account uid patch) as (emails&threads&response&->&Hcase). do 2 eexists. split; [done|].
  cbn [map_err rbind].
  destruct Hcase as [(e&v&e'&He&Ha&Hv&Hobj&Hr)|[Hobj Hr]]; (split; [intros Hok; apply mock_inv_with_account; cbn; rewrite Hobj|]).
  - by apply bt_insert_ok, Hok.
  - left. split; [done|]. exists e, v, e'. split_and!; [by rewrite Hm|done..|]. intros k.
    rewrite mock_mail_with_account, Hm. unfold store_get. cbn. rewrite Hobj, bt_get_insert. repeat case_decide; congruence.
  - by apply Hok.
  - right. split; [done|]. intros k. rewrite mock_mail_with_account, Hm. unfold store_get. cbn. by rewrite Hobj.
Qed.

Lemma mock_mail_destroy s uid :
  exists s' r, client_email_destroy account_id s uid = (s', r) /\ (mock_inv s -> mock_inv s') /\
    ((r = Ok tt /\ is_Some (mock_mail s uid) /\ forall k, mock_mail s' k = if decide (k = uid) then None else mock_mail s k) \/
     (is_ok r = false /\ forall k, mock_mail s' k = mock_mail s k)).
Proof using Type.
  unfold client_email_destroy. rewrite client_set_one by (cbn; lia). unfold mock_set_call. rewrite owner_email_set by done.
  destruct (bt_get account_id (sv_accounts s)) as [account|] eqn:Ea; [|do 2 eexists; split_and!; [done|done|by right]].
  assert (forall k, mock_mail s k = store_get (ma_emails account) k) as Hm by (intros k; unfold mock_mail; by rewrite Ea).
  destruct (email_set_account_destroy s account uid) as (emails&threads&response&->&Hcase). do 2 eexists. split; [done|].
  cbn [map_err rbind].
  destruct Hcase as [(He&Hobj&Hr)|[Hobj Hr]]; (split; [intros Hok; apply mock_inv_with_account; cbn; rewrite Hobj|]).
  - by apply bt_remove_ok, Hok.
  - left. split; [done|]. split; [by rewrite Hm|]. intros k.
    rewrite mock_mail_with_account, Hm. unfold store_get. cbn. rewrite Hobj, bt_get_remove. repeat case_decide; congruence.
  - by apply Hok.
  - right. split; [done|]. intros k. rewrite mock_mail_with_account, Hm. unfold store_get. cbn. by rewrite Hobj.
Qed.

#[local] Instance mock_server : MailServer ServerState account_id := {|
  mail := mock_mail;
  mail_inv := mock_inv;
  mail_get := mock_mail_get;
  mail_update := mock_mail_update;
  mail_destroy := mock_mail_destroy;
|}.

(** ** A server with another client

    After the answer to each [Email/get], and before the next call of this client, another client
    files messages. *)
Section shared.
Variable others : list (Id * Filing).

Definition others_file (s : ServerState) : ServerState :=
  fold_left (fun s o => (file_message account_id s o.1 o.2).1) others s.

Lemma others_file_ok s : mail_ok account_id s -> mail_ok account_id (others_file s).
Proof using Type.
  unfold others_file. revert s. induction others as [|[uid filing] os IH]; intros s Hok; cbn [fold_left fst snd]; [done|]. apply IH.
  destruct (file_message account_id s uid filing) as [s' r] eqn:E. by destruct (file_message_files account_id s uid filing s' r Hok E) as [[? _ _] _].
Qed.

Definition shared_client : MailClient ServerState := {|
  client_email_get s account_id ids properties := let '(s, r) := client_email_get s account_id ids properties in (others_file s, r);
  client_email_set s request := client_email_set s request;
|}.

Lemma shared_mail_get s uid :
  mock_inv s -> (forall k e, mock_mail s k = Some e -> email_ok e /\ em_id e = Some k) ->
  exists s' r, client_email_get (MailClient := shared_client) s account_id [uid] (Some [MAILBOX_IDS]) = (s', r) /\
    mock_inv s' /\ (forall k e, mock_mail s' k = Some e -> email_ok e /\ em_id e = Some k) /\
    forall found, r = Ok found ->
      match mock_mail s uid with
      | Some e => exists p, find (fun email => bool_decide (em_id email = Some uid)) found = Some p /\
                            em_mailbox_ids p = em_mailbox_ids e
      | None => find (fun email => bool_decide (em_id email = Some uid)) found = None
      end.
Proof using Type.
  intros Hinv Hok. destruct (mock_mail_get s uid Hinv Hok) as (s'&r&Hcall&Hinv'&Hok'&Hr). cbn [client_email_get shared_client].
  change (client_email_get s account_id [uid] (Some [MAILBOX_IDS]) = (s', r)) in Hcall. rewrite Hcall.
  destruct (others_file_ok s') as [Hi He]; [by split|]. by exists (others_file s'), r.
Qed.

Definition shared_server : MailServer ServerState (MailClient0 := shared_client) account_id := {|
  mail := mock_mail : ServerState -> Id -> option Email;
  mail_inv := mock_inv;
  mail_get := shared_mail_get;
  mail_update := mock_mail_update;
  mail_destroy := mock_mail_destroy;
|}.
End shared.
End client.

(** ** Runs on a server with two messages *)
Definition plain_session : Session :=
  {| ss_capabilities := []; ss_accounts := []; ss_primary_accounts := []; ss_username := []; ss_api_url := [];
     ss_download_url := []; ss_upload_url := []; ss_event_source_url := []; ss_state := []; ss_extra := [] |}.

#[local] Instance sample_client : MailClient ServerState :=
  mock_client (fun _ => []) (fun _ => 0%N) plain_session (fun e => Ok (email_to_value e)) elements None.

#[local] Instance sample_mail_server : MailServer ServerState (lit "A") :=
  mock_server (fun _ => []) (fun _ => 0%N) plain_session (fun e => Ok (email_to_value e)) elements None (lit "A").

Lemma sample_mail_ok : mail_ok (lit "A") sample_server.
Proof.
  split.
  - intros a. cbn [sample_server sv_accounts]. rewrite bt_get_single. intros [= <-]. by_decide.
  - intros uid e. change (mail sample_server uid) with (store_get (ma_emails sample_account) uid).
    intros [[-> ->]|[-> ->]]%sample_emails; (split; [apply sample_message_ok; by_decide|done]).
Qed.

Lemma sample_filed id ms m : filed (sample_message id ms) m <-> bt_get m ms = Some true.
Proof. done. Qed.

Lemma sample_mail_two e : mail sample_server (lit "E1") = Some e -> forall m, filed e m <-> m = lit "M1" \/ m = lit "M2".
Proof.
  change (mail sample_server (lit "E1")) with (Some (sample_message (lit "E1") [(lit "M1", true); (lit "M2", true)])).
  intros [= <-] m. rewrite sample_filed. cbn [bt_get]. case_decide; [tauto|]. case_decide; [tauto|]. split; [done|tauto].
Qed.

Lemma sample_mail_one e : mail sample_server (lit "E2") = Some e -> forall m, filed e m <-> m = lit "M1".
Proof.
  change (mail sample_server (lit "E2")) with (Some (sample_message (lit "E2") [(lit "M1", true)])).
  intros [= <-] m. rewrite sample_filed. cbn [bt_get]. case_decide; [tauto|]. split; [done|tauto].
Qed.

(** Another client files [E2] in [M2] after each read. *)
Definition sharing_client : MailClient ServerState :=
  shared_client (fun _ => []) (fun _ => 0%N) plain_session (fun e => Ok (email_to_value e)) elements None (lit "A") [(lit "E2", copied_into (lit "M2"))].

Definition sharing_server : MailServer ServerState (MailClient0 := sharing_client) (lit "A") :=
  shared_server (fun _ => []) (fun _ => 0%N) plain_session (fun e => Ok (email_to_value e)) elements None (lit "A") [(lit "E2", copied_into (lit "M2"))].

Lemma sharing_mail_ok : mail_ok (MailServer0 := sharing_server) (lit "A") sample_server.
Proof. destruct sample_mail_ok as [Hi He]. split; [exact Hi|exact He]. Qed.

(** A message of two mailboxes leaves one.  A message that another client files in a second mailbox
    after it was read in its one mailbox is destroyed. *)
Lemma expunge_message_safe_witness :
  (exists w', expunge_message (MailClient0 := sharing_client) (lit "A") sample_server (lit "E1") (lit "M1") = (w', Ok tt) /\
    exists e', mock_mail (lit "A") w' (lit "E1") = Some e' /\ forall m, filed e' m <-> m = lit "M2") /\
  (exists w' e1, expunge_message (MailClient0 := sharing_client) (lit "A") sample_server (lit "E2") (lit "M1") = (w', Ok tt) /\
    mock_mail (lit "A") (after_read (MailClient0 := sharing_client) (lit "A") sample_server (lit "E2")) (lit "E2") = Some e1 /\ filed e1 (lit "M2") /\ mock_mail (lit "A") w' (lit "E2") = None).
Proof.
  split.
  - destruct (expunge_message (MailClient0 := sharing_client) (lit "A") sample_server (lit "E1") (lit "M1")) as [w' r] eqn:E. exists w'.
    assert (r = Ok tt) as -> by (change r with (w', r).2; rewrite <- E; vm_compute; reflexivity). split; [done|].
    destruct (expunge_message_safe (MailServer0 := sharing_server) (lit "A") sample_server (lit "E1") (lit "M1") w' (Ok tt) sharing_mail_ok E) as (_&_&H).
    destruct H as (e&He&Hcase); [vm_compute; reflexivity|done|]. pose proof (sample_mail_two e He) as Hm.
    destruct Hcase as [[_ H1]|(e'&He'&_&Hf)].
    + assert (lit "M2" = lit "M1") as Habs by (apply H1, Hm; by right). discriminate Habs.
    + exists e'. split; [exact He'|]. intros m. rewrite Hf, Hm. split; [tauto|]. intros ->. split; [by right|done].
  - destruct (expunge_message (MailClient0 := sharing_client) (lit "A") sample_server (lit "E2") (lit "M1")) as [w' r] eqn:E. exists w'.
    assert (r = Ok tt) as -> by (change r with (w', r).2; rewrite <- E; vm_compute; reflexivity).
    eexists. split; [done|]. split; [vm_compute; reflexivity|]. split; [vm_compute; reflexivity|].
    destruct (expunge_message_safe (MailServer0 := sharing_server) (lit "A") sample_server (lit "E2") (lit "M1") w' (Ok tt) sharing_mail_ok E) as (_&H&_).
    destruct (H eq_refl) as (e&He&Hcase). pose proof (sample_mail_one e He) as Hm.
    destruct Hcase as [[_ Hn]|[((m&Hf&Hn)&_)|[Hn _]]]; [exact Hn|by apply Hm in Hf|]. destruct Hn. by apply Hm.
Defined.

(** A message of one mailbox goes to the trash. *)
Lemma trash_message_keeps_witness :
  exists w', trash_message (lit "A") sample_server (lit "E2") (lit "M1") (lit "Trash") = (w', Ok tt) /\
    exists e', mail w' (lit "E2") = Some e' /\ forall m, filed e' m <-> m = lit "Trash".
Proof.
  destruct (trash_message (lit "A") sample_server (lit "E2") (lit "M1") (lit "Trash")) as [w' r] eqn:E. exists w'.
  assert (r = Ok tt) as -> by (change r with (w', r).2; rewrite <- E; vm_compute; reflexivity). split; [done|].
  destruct (trash_message_keeps (lit "A") sample_server (lit "E2") (lit "M1") (lit "Trash") w' (Ok tt) sample_mail_ok ltac:(by_decide) E)
    as (_&_&H).
  destruct H as (e&e'&He&He'&_&_&Hf); [vm_compute; reflexivity|done|]. pose proof (sample_mail_one e He) as Hm.
  exists e'. split; [done|]. by apply Hf.
Defined.

Lemma file_message_files_witness :
  exists w', file_message (lit "A") sample_server (lit "E2") (copied_into (lit "M2")) = (w', Ok tt) /\
    exists e', mail w' (lit "E2") = Some e' /\ filed e' (lit "M1") /\ filed e' (lit "M2").
Proof.
  destruct (file_message (lit "A") sample_server (lit "E2") (copied_into (lit "M2"))) as [w' r] eqn:E. exists w'.
  assert (r = Ok tt) as -> by (change r with (w', r).2; rewrite <- E; vm_compute; reflexivity). split; [done|].
  destruct (file_message_files (lit "A") sample_server (lit "E2") (copied_into (lit "M2")) w' (Ok tt) sample_mail_ok E) as (_&_&H).
  destruct (H eq_refl eq_refl) as (e&e'&He&He'&_&Hf). pose proof (sample_mail_one e He) as Hm.
  exists e'. split; [done|]. split; apply Hf; [right|by left]. split; [|done]. by apply Hm.
Defined.
