(* ===== verification/MockReader.v ===== *)
(** The mail sync on the mock server: the listing and the refresh of a mailbox
    (jmap-mail-sync/src/lib.rs) with the client (jmap-client) and the mock's handlers
    (jmap-mock/src/mail.rs) behind them, for the account's owner.
    Last, a mailbox that changes while it is listed: what the pages of the listing lose. *)

From Stdlib Require Import Ascii String.
From stdpp Require Import prelude strings gmap sorting.
From S2P Require Import Prelude BTree Text Strings Json Wire Proto Email Store SetOps Patch SetMethod Changes ChangesSync Date MailDate Keywords MockMail MockMailSet MockQuery MailSummary Session ClientGet Tarjan SetChunk SetSend MailFiling MailListing MailRefresh MailPaging MockClient.
Local Open Scope rust_scope.

Section reader.
Variable serde_error : Value -> text.
Variable envelope_len : ServerState -> N.
Variable session : Session.
Variable to_value : Email -> result Value Error.
Variable hash_order : gset text -> list text.
Variable limit : option nat.
Variable account_id : Id.
Variable id_budget : IdBudget.
Variable changes_to_value : ChangesResponse -> Value.
Variable changes_from_value : Value -> result ChangesResponse text.

#[local] Instance reader_client : MailClient ServerState := mock_client serde_error envelope_len session to_value hash_order limit.

(** [Email/changes] as a method call. *)
#[local] Instance changes_caller : MethodCaller ServerState := fun s _ _ request =>
  (s, match email_changes s request None with
      | Ok r => Ok (changes_to_value r)
      | Err e => Err (Method e)
      end).

#[local] Instance mock_reader : MailReader ServerState := {|
  reader_session := session;
  reader_id_budget := id_budget;
  reader_all_changes s account_id type_name since := all_changes changes_from_value id_budget s account_id type_name since;
  reader_email_state s account_id :=
    let '(s, r) := mock_get_call serde_error account_id (Some [lit "id"]) s [] in (s, let? response := r in Ok (gr_state response));
  reader_email_query s request := (s, map_err Method (email_query s request None));
|}.

(** ** A server that serves a mailbox *)
Record mock_good (mailbox : Id) (account : AccountState) (page_size : option N) (s : ServerState) : Prop := {
  mg_account : bt_get account_id (sv_accounts s) = Some account;
  mg_limit : exists n, object_limit session = Some n /\ (N.of_nat n <= server_objects_in_get s)%N;
  mg_fits : max_size_request session = None;
  mg_requested : sv_email_get_includes_unrequested s = false;
  mg_safe : sv_dangerous_ids s = false;
  mg_stops : sv_query_never_terminates s = false;
  mg_says : sv_query_hides_limit s = false;
  mg_page : sv_query_page_size s = page_size;
  mg_changes : sv_changes_never_terminates s = false;
  mg_messages : forall id e, store_get (ma_emails account) id = Some e -> readable mailbox id e;
  mg_count : (N.of_nat (length (st_objects (ma_emails account))) <= u64_max)%N;
  mg_objects : bt_ok (st_objects (ma_emails account));
}.

Lemma get_steps account properties ids acc :
  fold_left (get_step account true None properties) ids acc =
    (acc.1 ++ omap (fun id => (fun e => project_properties e properties) <$> store_get (ma_emails account) id) ids,
     acc.2 ++ filter (fun id => store_get (ma_emails account) id = None) ids).
Proof using Type.
  revert acc. induction ids as [|id ids IH]; intros acc; cbn [fold_left]; [by rewrite !app_nil_r; destruct acc|].
  rewrite IH. unfold get_step. cbn [omap list_omap]. rewrite filter_cons.
  destruct (store_get (ma_emails account) id) as [e|]; cbn [may orb fst snd fmap option_fmap option_map].
  - rewrite decide_False by done. by rewrite <- app_assoc.
  - rewrite decide_True by done. by rewrite <- app_assoc.
Qed.

Lemma mapM_projected properties (l : list (option Email)) :
  SUMMARY_PROPERTIES ⊆ properties -> Forall (fun o => forall e, o = Some e -> email_ok e) l ->
  mapM email_from_value (omap (fun o => (fun e => project_properties e (Some properties)) <$> o) l) =
    Some (omap (fun o => project_email properties <$> o) l).
Proof using Type.
  intros Hp Hl. apply mapM_Some_2. induction Hl as [|[e|] l He _ IH]; [constructor| |exact IH].
  cbn [omap list_omap fmap option_fmap option_map]. constructor; [|exact IH].
  by destruct (project_email_reads properties e (He e eq_refl) Hp) as [-> _].
Qed.

Section good.
Variable mailbox : Id.
Variable account : AccountState.
Variable page_size : option N.

Lemma mock_mail_good s id : mock_good mailbox account page_size s -> mock_mail account_id s id = store_get (ma_emails account) id.
Proof using Type. intros [Ha _ _ _ _ _ _ _ _ _ _ _]. unfold mock_mail. by rewrite Ha. Qed.

Lemma mock_get_answer properties s ids :
  SUMMARY_PROPERTIES ⊆ properties -> mock_good mailbox account page_size s -> (N.of_nat (length ids) <= server_objects_in_get s)%N ->
  mock_get_call serde_error account_id (Some properties) s ids =
    (s, Ok (full_answer (fun id => project_email properties <$> store_get (ma_emails account) id) account_id
              (store_state (ma_emails account)) ids)).
Proof using Type.
  intros Hp Hg Hlen. unfold mock_get_call, email_get. cbn [gq_ids gq_account_id gq_properties].
  rewrite (proj2 (N.ltb_ge _ _) Hlen). unfold account_mut. rewrite (mg_account _ _ _ _ Hg). cbn [ok_or rbind].
  change (check_caller account None) with (Ok true : result bool MethodError). cbn [rbind].
  rewrite get_steps, (mg_requested _ _ _ _ Hg). cbn [fst snd app map_err rbind gr_list gr_account_id gr_state gr_not_found].
  assert (forall A (f : Email -> A), omap (fun id => f <$> store_get (ma_emails account) id) ids =
    omap (fun o => f <$> o) (store_get (ma_emails account) <$> ids)) as E by (intros A f; by rewrite omap_over_fmap).
  rewrite E, mapM_projected; [|done|].
  - cbn [ok_or rbind]. unfold full_answer. rewrite E. do 3 f_equal. apply list_filter_iff. intros id. by destruct (store_get _ id).
  - apply Forall_fmap, Forall_forall. intros id _ e He. by destruct (mg_messages _ _ _ _ Hg id e He).
Qed.

Lemma mock_faithful properties :
  SUMMARY_PROPERTIES ⊆ properties ->
  faithful_get account_id properties (mock_mail account_id) (mock_good mailbox account page_size).
Proof using Type.
  intros Hp s ids Hg Hlen. destruct (mg_limit _ _ _ _ Hg) as (n&Hn&Hle).
  destruct (chunk_loop_answer (mock_get_call serde_error account_id (Some properties)) envelope_len em_id session
    (fun id => project_email properties <$> store_get (ma_emails account) id) account_id (store_state (ma_emails account))) 
    with (good := fun s' => s' = s) (fuel := S (length ids)) (w := s) (done := @nil Id) (rest := ids) (combined := @None (GetResponse Email))
    as (s'&Hloop&->).
  - intros id v (e&He&->)%fmap_Some. destruct (mg_messages _ _ _ _ Hg id e He) as [Hok Hid _ _].
    by destruct (project_email_reads properties e Hok Hp) as (_&->&_).
  - intros w chunk -> Hc. exists s. split; [|done]. apply mock_get_answer; [done|done|]. specialize (Hc n Hn). lia.
  - done.
  - lia.
  - intros l w E. rewrite (mg_fits _ _ _ _ Hg) in E. done.
  - by left.
  - exists s, (omap (fun id => project_email properties <$> store_get (ma_emails account) id) ids).
    split_and!; [|done|].
    + unfold client_email_get, reader_client, mock_client, get_chunked. by rewrite Hloop.
    + apply reflexive_eq, list_omap_ext, Forall_Forall2_diag, Forall_forall. intros id _. by rewrite mock_mail_good.
Qed.

Definition page : nat := N.to_nat (N.min u64_max (default u64_max page_size)).

Lemma page_pos : page_size <> Some 0%N -> (0 < page)%nat.
Proof using Type.
  unfold page. intros Hp. assert (0 < u64_max)%N by done. destruct page_size as [p|]; cbn [from_option id]; [|lia].
  assert (p <> 0%N) by congruence. lia.
Qed.

Lemma mock_serves : serves account_id (mock_good mailbox account page_size) (Condition (in_mailbox mailbox)) (query_list account (Condition (in_mailbox mailbox))) page.
Proof using Type.
  intros s n Hg Hn. unfold reader_email_query, mock_reader, email_query, page_request. cbn [qq_account_id qq_filter qq_sort qq_position qq_limit qq_calculate_total].
  unfold account_mut. rewrite (mg_account _ _ _ _ Hg). cbn [ok_or rbind].
  change (check_caller account None) with (Ok true : result bool MethodError).
  cbn [rbind comparator_ascending co_property co_is_ascending from_option id]. rewrite bool_decide_eq_true_2 by done. cbn [negb].
  rewrite (mg_safe _ _ _ _ Hg), (mg_stops _ _ _ _ Hg), (mg_says _ _ _ _ Hg), (mg_page _ _ _ _ Hg). cbn [andb orb negb map_err].
  do 2 eexists. split; [done|]. split; [done|]. cbn [qr_ids qr_limit qr_total].
  fold (query_list account (Condition (in_mailbox mailbox))). set (l := query_list account _) in *.
  split_and!.
  - rewrite take_n_firstn. unfold page. do 2 f_equal. lia.
  - assert (N.of_nat (length l) <= u64_max)%N as Hl.
    { unfold l, query_list. rewrite length_fmap, sort_by_perm. unfold query_matches. 
      pose proof (mg_count _ _ _ _ Hg). etrans; [|done]. pose proof (length_filter (fun e => may true None (readable_email account e.2) && filter_matches e.2 (Condition (in_mailbox mailbox)) = true) (st_objects (ma_emails account))). lia. }
    unfold page. destruct page_size as [p|]; cbn; [|intros _; lia]. destruct (N.ltb_spec p u64_max); [done|intros _; lia].
  - right. unfold l, query_list. by rewrite length_fmap.
Qed.

(** ** The delta *)
Hypothesis serde_roundtrip : forall r, changes_from_value (changes_to_value r) = Ok r.

Lemma email_changes_store s request :
  mock_good mailbox account page_size s -> cr_account_id request = account_id ->
  email_changes s request None = store_changes (ma_emails account) request (sv_changes_page_size s) (sv_stalwart_shaped s).
Proof using Type.
  intros Hg Hid. unfold email_changes, account_mut. rewrite Hid, (mg_account _ _ _ _ Hg). cbn [ok_or rbind].
  change (check_caller account None) with (Ok true : result bool MethodError). cbn [rbind].
  unfold never_terminating. rewrite (mg_changes _ _ _ _ Hg). cbn [andb]. by destruct (store_changes _ _ _ _).
Qed.

Lemma mock_all_changes s (old : Store Email) :
  mock_good mailbox account page_size s -> store_wf old -> rtc store_step old (ma_emails account) ->
  (st_state (ma_emails account) < st_state old + N.of_nat MAX_CHANGES_PAGES)%N ->
  budget_fits id_budget (ma_emails account) (st_state old) ->
  exists c, reader_all_changes s account_id (lit "Email") (store_state old) = (s, Ok c) /\
    cs_new_state c = store_state (ma_emails account) /\ changeset_ok c /\ NoDup (changeset_ids c) /\
    net_change (ma_emails account) (st_state old) (st_state (ma_emails account)) (cs_created c) (cs_updated c) (cs_destroyed c).
Proof using serde_roundtrip.
  intros Hg Hwf Hsteps Hpages Hfit.
  destruct (all_changes_store changes_caller s (ma_emails account) old (sv_changes_page_size s) (sv_stalwart_shaped s) changes_to_value changes_from_value
    id_budget account_id (lit "Email") (lit "urn:ietf:params:jmap:mail")) as (c&Hall&Hn&Hok&Hnet); [done| |done..|].
  { intros capabilities method state. unfold changes_caller. by rewrite email_changes_store. }
  exists c. split_and!; [done..| |done]. destruct Hok as (H1&H2&H3). eapply net_change_nodup; [done|by apply bs_ok_nodup..].
Qed.

(** ** The folder *)

(** A folder after an update. *)
Definition apply_update (u : MessageUpdate) (rows : Id -> option MessageSummary) (id : Id) : option MessageSummary :=
  match u with
  | Unchanged _ => rows id
  | Changed _ present absent => refreshed present absent rows id
  | Relisted _ messages => find (fun row => bool_decide (ms_uid row = id)) messages
  end.

Definition update_state (u : MessageUpdate) : State :=
  match u with Unchanged state | Changed state _ _ | Relisted state _ => state end.

Lemma mock_listing s b :
  mock_good mailbox account page_size s -> page_size <> Some 0%N ->
  (length (query_list account (Condition (in_mailbox mailbox))) <= page * pred MAX_QUERY_PAGES)%nat ->
  charge_all id_budget (query_list account (Condition (in_mailbox mailbox))) = Some b ->
  exists s', messages account_id s mailbox =
    (s', Done (Ok (store_state (ma_emails account),
      omap (fun id => let! e := store_get (ma_emails account) id in row_of e) (query_list account (Condition (in_mailbox mailbox)))))).
Proof using Type.
  intros Hg Hp Hlen Hb.
  assert (reader_email_state s account_id = (s, Ok (store_state (ma_emails account)))) as Hst.
  { unfold reader_email_state, mock_reader, mock_get_call, email_get. cbn [gq_ids gq_account_id length].
    rewrite (proj2 (N.ltb_ge _ _)) by lia. unfold account_mut. rewrite (mg_account _ _ _ _ Hg), (mg_requested _ _ _ _ Hg).
    change (check_caller account None) with (Ok true : result bool MethodError). done. }
  destruct (messages_spec account_id (mock_good mailbox account page_size) (mock_mail account_id) s s (store_state (ma_emails account)) mailbox
    (query_list account (Condition (in_mailbox mailbox))) page b Hst Hg mock_serves) as (s2&s'&look&->&Hids&Htimes).
  - by apply page_pos.
  - done.
  - done.
  - apply query_list_nodup, (mg_objects _ _ _ _ Hg).
  - by apply mock_faithful.
  - intros w id e Hgw. rewrite (mock_mail_good w id Hgw). intros He. by destruct (mg_messages _ _ _ _ Hgw id e He) as [? ? ? _].
  - exists s'. do 4 f_equal. rewrite <- Hids, omap_over_fmap. apply list_omap_ext, Forall_Forall2_diag, Forall_forall.
    intros [id o] Hin. destruct (Htimes id o Hin) as (wt&_&Hgt&<-). cbn [fst snd]. by rewrite (mock_mail_good wt id Hgt).
Qed.

Lemma changeset_empty_ids c : changeset_is_empty c = true -> changeset_ids c = [].
Proof using Type.
  unfold changeset_is_empty, changeset_ids. rewrite !andb_true_iff, !bool_decide_eq_true. by intros [[-> ->] ->].
Qed.

Lemma in_mailbox_matches e : filter_matches e (Condition (in_mailbox mailbox)) = bool_decide (filed e mailbox).
Proof using Type.
  cbn [filter_matches]. unfold email_matches, in_mailbox. cbn [ef_in_mailbox ef_has_keyword ef_not_keyword ef_after ef_before ef_subject ef_from ef_to ef_cc ef_bcc
    ef_min_size ef_max_size ef_has_attachment ef_body ef_text ef_header is_none_or]. rewrite !andb_true_r.
  case_bool_decide as Hf; unfold filed in Hf; destruct (em_mailbox_ids e) as [m|]; cbn [is_some_and from_option id] in *; [by rewrite Hf|done| |done].
  by destruct (bt_get mailbox m) as [[]|].
Qed.

(** A full listing shows the mailbox as it is. *)
Lemma mock_relisted s id :
  mock_good mailbox account page_size s ->
  find (fun row => bool_decide (ms_uid row = id))
    (omap (fun id => let! e := store_get (ma_emails account) id in row_of e) (query_list account (Condition (in_mailbox mailbox)))) =
  row_in mailbox (store_get (ma_emails account) id).
Proof using Type.
  intros Hg. set (l := query_list account _). pose proof (query_list_nodup account (Condition (in_mailbox mailbox)) (mg_objects _ _ _ _ Hg)) as Hn. fold l in Hn.
  assert (forall k e, store_get (ma_emails account) k = Some e -> exists row, row_of e = Some row /\ ms_uid row = k) as Hrow.
  { intros k e He. destruct (mg_messages _ _ _ _ Hg k e He) as [_ Hid [row Hr] _]. exists row. split; [done|]. apply row_uid in Hr. congruence. }
  assert (NoDup (ms_uid <$> omap (fun id => let! e := store_get (ma_emails account) id in row_of e) l)) as Hu.
  { replace (omap (fun id => let! e := store_get (ma_emails account) id in row_of e) l)
      with (omap (fun x : Id * unit => let! e := store_get (ma_emails account) x.1 in row_of e) ((fun id => (id, tt)) <$> l)) by (by rewrite omap_over_fmap).
    apply nodup_omap_keys; [|by rewrite <- list_fmap_compose, list_fmap_id]. intros [k []] row _ (e&He&Hr)%bind_Some.
    destruct (Hrow k e He) as (row'&Hr'&Hk). cbn [fst]. congruence. }
  destruct (decide (id ∈ l)) as [Hin|Hni].
  - pose proof Hin as Hin'. unfold l in Hin'. apply query_list_elem in Hin' as (e&He&Hf); [|apply (mg_objects _ _ _ _ Hg)].
    rewrite in_mailbox_matches in Hf. destruct (Hrow id e He) as (row&Hr&<-). rewrite He. unfold row_in. cbn [mbind option_bind]. rewrite Hf, Hr.
    apply find_uid; [done|]. apply list_elem_of_omap. exists (ms_uid row). split; [done|]. by rewrite He.
  - rewrite find_uid_none.
    + destruct (store_get (ma_emails account) id) as [e|] eqn:He; [|done]. unfold row_in. cbn [mbind option_bind].
      destruct (bool_decide (filed e mailbox)) eqn:Hf; [|done]. destruct Hni. apply query_list_elem; [apply (mg_objects _ _ _ _ Hg)|].
      exists e. split; [done|]. by rewrite in_mailbox_matches.
    + intros (row&->&(k&Hk&(e&He&Hr)%bind_Some)%list_elem_of_omap)%list_elem_of_fmap.
      destruct (Hrow k e He) as (row'&Hr'&Huid). apply Hni. congruence.
Qed.

(** C3: The whole mail path, from the folder to the server and back. A folder that shows a mailbox as
    it was at some state, refreshed from that state, shows the mailbox as it is now, and holds
    the state of the server, whatever happened in between: new, changed, moved and destroyed
    messages, whether the client takes the delta or lists the mailbox again. *)
Theorem folder_follows_server s (old : Store Email) held b :
  mock_good mailbox account page_size s -> page_size <> Some 0%N ->
  store_wf old -> rtc store_step old (ma_emails account) ->
  (st_state (ma_emails account) < st_state old + N.of_nat MAX_CHANGES_PAGES)%N ->
  budget_fits id_budget (ma_emails account) (st_state old) ->
  (length (query_list account (Condition (in_mailbox mailbox))) <= page * pred MAX_QUERY_PAGES)%nat ->
  charge_all id_budget (query_list account (Condition (in_mailbox mailbox))) = Some b ->
  forall to_lowercase, exists s' u,
    messages_since to_lowercase account_id s mailbox (store_state old) held = (s', Done (Ok u)) /\
    update_state u = store_state (ma_emails account) /\
    forall id, apply_update u (fun id => row_in mailbox (store_get old id)) id = row_in mailbox (store_get (ma_emails account) id).
Proof using serde_roundtrip.
  intros Hg Hp Hwf Hsteps Hpages Hfit Hlen Hb to_lowercase.
  destruct (mock_all_changes s old Hg Hwf Hsteps Hpages Hfit) as (c&Hall&Hst&Hcok&Hnd&Hnet).
  assert (forall id, id ∉ changeset_ids c -> store_get (ma_emails account) id = store_get old id) as Hsame.
  { intros id Hid. by eapply net_change_values. }
  destruct (changeset_is_empty c) eqn:Hempty; [|destruct (Nat.le_gt_cases (length (cs_created c ++ cs_updated c)) (catch_up_limit held (objects_in_get (reader_session (W := ServerState))))) as [Hle|Hgt]].
  - unfold messages_since. rewrite Hall, Hempty. exists s, (Unchanged (cs_new_state c)). split_and!; [done|done|]. intros id. cbn.
    rewrite Hsame; [done|]. apply changeset_empty_ids in Hempty. rewrite Hempty. apply not_elem_of_nil.
  - destruct (messages_since_spec to_lowercase account_id (mock_mail account_id) (mock_good mailbox account page_size) s s c mailbox (store_state old) held)
      as (s'&present&absent&Hcall&_&_&_&Hrows); [apply mock_faithful; intros x Hx; apply elem_of_app; by left|done|done|done|done|done|done| | |].
    + intros wt id e Hgt. rewrite (mock_mail_good wt id Hgt). apply (mg_messages _ _ _ _ Hgt).
    + intros id Hid. rewrite (mock_mail_good s id Hg). destruct (nc_destroyed _ _ _ _ _ _ Hnet id) as [Hd _]. destruct (Hd Hid) as [_ He].
      rewrite existed_now in He by (by eapply store_steps_wf). by apply bt_contains_false in He.
    + exists s', (Changed (cs_new_state c) present absent). split_and!; [done|done|]. intros id. cbn [apply_update].
      specialize (Hrows (fun id => row_in mailbox (store_get old id)) id). case_decide as Hin.
      * destruct Hrows as (wt&_&Hgt&->). by rewrite (mock_mail_good wt id Hgt).
      * rewrite Hrows. by rewrite Hsame.
  - unfold messages_since. rewrite Hall, Hempty. rewrite (proj2 (Nat.ltb_lt _ _) Hgt). unfold relist.
    destruct (mock_listing s b Hg Hp Hlen Hb) as (s'&->). do 2 eexists. split; [done|]. split; [done|]. intros id. by eapply mock_relisted.
Qed.
End good.
End reader.

(** ** A mailbox of three messages that changes *)
Definition reading_session : Session :=
  {| ss_capabilities := [(CAPABILITY_CORE, Object [(lit "maxObjectsInGet", Number (lit "2"))])]; ss_accounts := []; ss_primary_accounts := [];
     ss_username := []; ss_api_url := []; ss_download_url := []; ss_upload_url := []; ss_event_source_url := []; ss_state := []; ss_extra := [] |}.

Definition mail_before : Store Email :=
  seeded (lit "E") [sample_message (lit "E1") [(lit "M1", true)]; sample_message (lit "E2") [(lit "M1", true)]; sample_message (lit "E3") [(lit "M2", true)]].

(** [E1] leaves [M1], [E3] is filed there, [E2] is destroyed. *)
Definition mail_moved : Store Email :=
  (store_transaction mail_before (fun t => transaction_update t (lit "E1") (sample_message (lit "E1") [(lit "M2", true)]))).2.
Definition mail_added : Store Email :=
  (store_transaction mail_moved (fun t => transaction_update t (lit "E3") (sample_message (lit "E3") [(lit "M1", true); (lit "M2", true)]))).2.
Definition mail_after : Store Email := (store_transaction mail_added (fun t => transaction_destroy t (lit "E2"))).2.

Definition reading_account : AccountState := with_emails mail_after sample_account.

(** A server of one account, with a page size for [Email/query]. *)
Definition serving (account : AccountState) (page_size : N) : ServerState :=
  {| sv_accounts := [(lit "A", account)]; sv_objects_in_get := Some 2%N; sv_email_get_includes_unrequested := false;
     sv_email_update_always_not_found := false; sv_snooze_extension := false; sv_changes_page_size := Some 1%N;
     sv_changes_never_terminates := false; sv_stalwart_shaped := false; sv_query_page_size := Some page_size;
     sv_query_hides_limit := false; sv_query_never_terminates := false; sv_dangerous_ids := false; sv_new_mailboxes_default_unsubscribed := false |}.

Definition reading_server : ServerState := serving reading_account 1.

Lemma mail_before_wf : store_wf mail_before.
Proof. apply seeded_wf. vm_compute. reflexivity. Qed.

Lemma mail_steps : rtc store_step mail_before mail_after.
Proof.
  eapply rtc_l; [|eapply rtc_l; [|apply rtc_once]]; [apply store_update_step|apply store_update_step|apply store_destroy_step];
    vm_compute; reflexivity.
Qed.

Lemma mail_after_objects :
  st_objects mail_after = [(lit "E1", sample_message (lit "E1") [(lit "M2", true)]); (lit "E3", sample_message (lit "E3") [(lit "M1", true); (lit "M2", true)])].
Proof. vm_compute. reflexivity. Qed.

Lemma reading_messages id e : store_get mail_after id = Some e -> readable (lit "M1") id e.
Proof.
  unfold store_get. rewrite mail_after_objects. cbn [bt_get]. case_decide as E1; [|case_decide as E2; [|done]]; intros [= <-]; subst id;
    (split; [apply sample_message_ok; by_decide|done|vm_compute; by eexists|done]).
Qed.

Lemma reading_good : mock_good reading_session (lit "A") (lit "M1") reading_account (Some 1%N) reading_server.
Proof.
  split; try (vm_compute; reflexivity).
  - exists 2%nat. split; [vm_compute; reflexivity|]. vm_compute. discriminate.
  - apply reading_messages.
  - vm_compute. discriminate.
  - change (ma_emails reading_account) with mail_after. rewrite mail_after_objects. by_decide.
Qed.

#[local] Instance reading_client : MailClient ServerState :=
  reader_client (fun _ => []) (fun _ => 0%N) reading_session (fun e => Ok (email_to_value e)) elements None.

#[local] Instance reading_reader : MailReader ServerState :=
  mock_reader (fun _ => []) reading_session budget_per_sync changes_to_value changes_from_value.

Lemma reading_delta :
  exists c, reader_all_changes reading_server (lit "A") (lit "Email") (lit "1") = (reading_server, Ok c) /\
    c = {| cs_new_state := lit "4"; cs_created := []; cs_updated := [lit "E1"; lit "E3"]; cs_destroyed := [lit "E2"] |}.
Proof. eexists. split; [|done]. vm_compute. reflexivity. Qed.

Lemma reading_faithful properties :
  SUMMARY_PROPERTIES ⊆ properties ->
  faithful_get (lit "A") properties (mock_mail (lit "A")) (mock_good reading_session (lit "A") (lit "M1") reading_account (Some 1%N)).
Proof.
  exact (mock_faithful (fun _ => []) (fun _ => 0%N) reading_session (fun e => Ok (email_to_value e)) elements None (lit "A")
    budget_per_sync changes_to_value changes_from_value (lit "M1") reading_account (Some 1%N) properties).
Qed.

(** The folder of [M1] follows: rows of [E1] and [E2] go, [E3] gets one. *)
Lemma folder_follows_server_witness :
  exists s' u,
    messages_since id (lit "A") reading_server (lit "M1") (lit "1") 2 = (s', Done (Ok u)) /\ update_state u = lit "4" /\
    forall k, apply_update u (fun k => row_in (lit "M1") (store_get mail_before k)) k = row_in (lit "M1") (store_get mail_after k).
Proof.
  eapply (folder_follows_server (fun _ => []) (fun _ => 0%N) reading_session (fun e => Ok (email_to_value e)) elements None (lit "A") budget_per_sync
    changes_to_value changes_from_value (lit "M1") reading_account (Some 1%N) changes_roundtrip reading_server mail_before).
  - apply reading_good.
  - discriminate.
  - apply mail_before_wf.
  - apply mail_steps.
  - vm_compute. reflexivity.
  - split; vm_compute; discriminate.
  - vm_compute. lia.
  - vm_compute. reflexivity.
Defined.

Lemma messages_since_refreshes_witness :
  exists s' present absent,
    messages_since id (lit "A") reading_server (lit "M1") (lit "1") 2 = (s', Done (Ok (Changed (lit "4") present absent))) /\
    NoDup (ms_uid <$> present) /\ bs_ok absent.
Proof.
  destruct reading_delta as (c&Hc&->).
  destruct (messages_since_refreshes id (lit "A") (mock_mail (lit "A")) (mock_good reading_session (lit "A") (lit "M1") reading_account (Some 1%N))
    reading_server reading_server _ (lit "M1") (lit "1") 2 (reading_faithful _ ltac:(intros x Hx; apply elem_of_app; by left)) reading_good Hc)
    as (s'&present&absent&H&_&H1&H2&_).
  - reflexivity.
  - split_and!; by_decide.
  - by_decide.
  - vm_compute. lia.
  - intros wt k e Hg. rewrite (mock_mail_good _ _ _ _ _ wt k Hg). apply reading_messages.
  - intros k Hk. apply list_elem_of_singleton in Hk as ->. vm_compute. reflexivity.
  - exists s', present, absent. exact (conj H (conj H1 H2)).
Defined.

Lemma messages_lists_witness :
  exists s' rows, messages (lit "A") reading_server (lit "M1") = (s', Done (Ok (lit "4", rows))).
Proof.
  edestruct (messages_lists (lit "A") (mock_good reading_session (lit "A") (lit "M1") reading_account (Some 1%N)) (mock_mail (lit "A"))
    reading_server reading_server (lit "4") (lit "M1")) as (w2&s'&look&H&_).
  - vm_compute. reflexivity.
  - apply reading_good.
  - apply mock_serves.
  - by apply page_pos.
  - vm_compute. lia.
  - vm_compute. reflexivity.
  - apply query_list_nodup, (mg_objects _ _ _ _ _ _ reading_good).
  - by apply reading_faithful.
  - intros wt k e Hg. rewrite (mock_mail_good _ _ _ _ _ wt k Hg). intros [? ? ? _]%reading_messages. done.
  - do 2 eexists. exact H.
Defined.

(** ** A server that other clients write to between the calls *)

(** The server as it is, and as it is at the next calls. *)
Definition Timeline : Type := ServerState * list ServerState.

Definition next_call (w : Timeline) : Timeline :=
  match w.2 with [] => w | s :: later => (s, later) end.

#[local] Instance timeline_client : MailClient Timeline := {|
  client_email_get w account_id ids properties := (next_call w, (client_email_get (MailClient := reading_client) w.1 account_id ids properties).2);
  client_email_set w request := (next_call w, (client_email_set (MailClient := reading_client) w.1 request).2);
|}.

#[local] Instance timeline_reader : MailReader Timeline := {|
  reader_session := reading_session;
  reader_id_budget := budget_per_sync;
  reader_all_changes w account_id type_name since := (next_call w, (reader_all_changes (MailReader := reading_reader) w.1 account_id type_name since).2);
  reader_email_state w account_id := (next_call w, (reader_email_state (MailReader := reading_reader) w.1 account_id).2);
  reader_email_query w request := (next_call w, (reader_email_query (MailReader := reading_reader) w.1 request).2);
|}.

(** ** Four messages, of which the first is destroyed during the listing *)
Definition four_messages : AccountState :=
  with_emails (seeded (lit "E") ((fun id => sample_message id [(lit "M1", true)]) <$> [lit "E1"; lit "E2"; lit "E3"; lit "E4"])) sample_account.

Definition before_destroy : ServerState := serving four_messages 2.

Definition after_destroy : ServerState :=
  (email_set (fun _ => []) before_destroy (Build_SetRequest (lit "A") None None None (Some [lit "E1"])) None).1.

(** The listing starts with [Email/get] for the state and the first page of two; then another
    client destroys [E1]. *)
Definition interrupted : Timeline := (before_destroy, [before_destroy; after_destroy]).

(** A message of [M1] on the server. *)
Definition filed_at (s : ServerState) (id : Id) : Prop := exists e, mock_mail (lit "A") s id = Some e /\ filed e (lit "M1").

(** The check of [paged_query] against the total of the server does not keep a listing whole.
    A message that is in the mailbox all the time, and that nobody touches, is missing from
    the listing when a message of an earlier page is destroyed between two pages: the next
    page starts one message too late, and the ids are as many as the total. The state of the
    listing is from before the destroy, so the next refresh removes the destroyed message
    and does not bring the missing one back. *)
Lemma paged_query_misses :
  filed_at before_destroy (lit "E3") /\ filed_at after_destroy (lit "E3") /\
  exists w' state rows state',
    messages (lit "A") interrupted (lit "M1") = (w', Done (Ok (state, rows))) /\
    ms_uid <$> rows = [lit "E2"; lit "E4"] /\
    messages_since id (lit "A") w' (lit "M1") state (length rows) = (w', Done (Ok (Changed state' [] [lit "E1"]))).
Proof.
  split; [|split]; [vm_compute; by eexists|vm_compute; by eexists|].
  do 4 eexists. split; [vm_compute; reflexivity|]. split; vm_compute; reflexivity.
Qed.
