(* ===== verification/FolderShared.v ===== *)
(** Shared mail accounts (jmap-mail-sync/src/shared.rs and [FolderTree::merge_shared] of
    folder.rs): which accounts share mail with the login, how their folders are added below
    one "Shared" root, and which account a folder is addressed to. *)

From Stdlib Require Import Ascii String.
From stdpp Require Import prelude strings.
From S2P Require Import Prelude BTree Text Strings Json Proto Path FolderTree FolderForest FolderEdit FolderBuild FolderWalk FolderListing MailboxListing Session.

Local Open Scope rust_scope.

(** ** Accounts (shared.rs) *)
Record SharedMailAccount := { sa_id : Id; sa_name : text; sa_read_only : bool }.

Definition shared_mail_accounts (session : Session) : list SharedMailAccount :=
  if bt_contains CAPABILITY_MAIL (ss_capabilities session) then
    let primary := resolve_primary_account session CAPABILITY_MAIL in
    (fun kv => {| sa_id := kv.1; sa_name := ac_name kv.2; sa_read_only := ac_is_read_only kv.2 |}) <$>
      filter (fun kv => negb (ac_is_personal kv.2) && account_has_capability kv.2 CAPABILITY_MAIL
                        && bool_decide (Some kv.1 <> primary) = true) (ss_accounts session)
  else [].

(** ** Merging (folder.rs) *)
Definition SHARED_ROOT_PATH : text := lit "Shared".

Definition owner_path (account : SharedMailAccount) : text :=
  path_join (Some SHARED_ROOT_PATH) (encode_component (sa_name account)).

(** Loops over a stack that write one field of every folder. *)
Fixpoint lock_read_only (f : FolderInfo) : FolderInfo :=
  match f with
  | Folder h children => Folder (with_may_add_items (Some false) h) (lock_read_only <$> children)
  end.

Fixpoint stamp_account (id : Id) (f : FolderInfo) : FolderInfo :=
  match f with
  | Folder h children => Folder (with_account_id (Some id) h) (stamp_account id <$> children)
  end.

(** One root folder of a shared account, at its place below the owner. *)
Definition shared_child (account : SharedMailAccount) (child : FolderInfo) : FolderInfo :=
  let child := if sa_read_only account then lock_read_only child else child in
  let child := stamp_account (sa_id account) child in
  let component := last_component (f_path child) in
  repath child (path_join (Some (owner_path account)) component).

Definition owner_folder (shared : SharedMailAccount * FolderTree) : FolderInfo :=
  let '(account, tree) := shared in
  Folder {| fh_id := lit "shared-owner:" ++ sa_id account; fh_path := owner_path account;
            fh_display_name := sa_name account; fh_role := None; fh_total := 0; fh_unread := 0;
            fh_subscribed := true; fh_may_add_items := Some false; fh_account_id := None |}
    (shared_child account <$> tree).

Definition shared_root (shared : list (SharedMailAccount * FolderTree)) : FolderInfo :=
  Folder {| fh_id := lit "shared-root"; fh_path := SHARED_ROOT_PATH; fh_display_name := lit "Shared";
            fh_role := None; fh_total := 0; fh_unread := 0; fh_subscribed := true;
            fh_may_add_items := Some false; fh_account_id := None |}
    (owner_folder <$> shared).

Definition merge_shared (self : FolderTree) (shared : list (SharedMailAccount * FolderTree)) : FolderTree :=
  match shared with
  | [] => self
  | _ => self ++ [shared_root shared]
  end.

(** ** [MailSync::folder_tree] and [MailSync::folder_tree_with_shared] (lib.rs)

    [mailbox_get] is the client's method of that name for an account; its state is the
    connection's. *)
Section listing.
Context {W : Type} (mailbox_get : Id -> W -> result (GetResponse Mailbox) Error * W).

Definition folder_tree (account_id : Id) (w : W) : result (State * FolderTree) SyncError * W :=
  match mailbox_get account_id w with
  | (Ok response, w) =>
      (let? tree := from_mailboxes (gr_list response) in Ok (gr_state response, tree), w)
  | (Err e, w) => (Err (Client e), w)
  end.

Fixpoint shared_trees (accounts : list SharedMailAccount) (w : W)
  : result (list (SharedMailAccount * FolderTree)) SyncError * W :=
  match accounts with
  | [] => (Ok [], w)
  | account :: accounts =>
      match folder_tree (sa_id account) w with
      | (Ok (_, tree), w) =>
          match shared_trees accounts w with
          | (Ok pairs, w) => (Ok ((account, tree) :: pairs), w)
          | (Err e, w) => (Err e, w)
          end
      | (Err e, w) => (Err e, w)
      end
  end.

Definition folder_tree_with_shared (session : Session) (account_id : Id) (w : W)
  : result (State * FolderTree) SyncError * W :=
  match folder_tree account_id w with
  | (Ok (state, tree), w) =>
      match shared_mail_accounts session with
      | [] => (Ok (state, tree), w)
      | shared =>
          match shared_trees shared w with
          | (Ok pairs, w) => (Ok (state, merge_shared tree pairs), w)
          | (Err e, w) => (Err e, w)
          end
      end
  | (Err e, w) => (Err e, w)
  end.
End listing.

(** ** Writing a field keeps ids, paths and places *)
Section rewrite.
Context (g : FolderHead -> FolderHead).
Hypothesis g_path : forall h, fh_path (g h) = fh_path h.

Fixpoint rewrite_heads (f : FolderInfo) : FolderInfo :=
  match f with Folder h children => Folder (g h) (rewrite_heads <$> children) end.

Lemma rewrite_path f : f_path (rewrite_heads f) = f_path f.
Proof. destruct f. apply g_path. Qed.

Lemma heads_rewrite f : heads [rewrite_heads f] = g <$> heads [f].
Proof.
  induction f as [h children IH] using FolderInfo_ind. rewrite !heads_one, fmap_cons. cbn [rewrite_heads f_head f_children].
  f_equal. induction children as [|c l IHl]; [done|]. apply Forall_cons in IH as [IHc IH].
  rewrite fmap_cons, (heads_cons' (rewrite_heads c)), (heads_cons' c), fmap_app, IHc, IHl; done.
Qed.

Lemma heads_rewrites l : heads (rewrite_heads <$> l) = g <$> heads l.
Proof.
  induction l as [|c l IHl]; [done|].
  rewrite fmap_cons, (heads_cons' (rewrite_heads c)), (heads_cons' c), fmap_app, heads_rewrite, IHl. done.
Qed.

Lemma rewrite_placed parent f : placed parent f -> placed parent (rewrite_heads f).
Proof.
  revert parent. induction f as [h children IH] using FolderInfo_ind. intros parent Hp.
  apply placed_inv in Hp as [(c&Hc&Hs) [Hch Hn]]. eapply placed_intro; [rewrite rewrite_path; exact Hc|done|].
  rewrite rewrite_path. cbn [rewrite_heads f_children] in *. split.
  - rewrite Forall_fmap. rewrite Forall_forall in *. intros x Hx. cbn. by apply IH, Hch.
  - assert (f_path <$> (rewrite_heads <$> children) = f_path <$> children) as ->; [|done].
    rewrite <- list_fmap_compose. apply list_fmap_ext. intros i x _. apply rewrite_path.
Qed.
End rewrite.

Lemma lock_rewrite f : lock_read_only f = rewrite_heads (with_may_add_items (Some false)) f.
Proof. reflexivity. Qed.

Lemma stamp_rewrite id f : stamp_account id f = rewrite_heads (with_account_id (Some id)) f.
Proof.
  induction f as [h children IH] using FolderInfo_ind. cbn. f_equal.
  induction IH as [|c l Hc _ IHl]; [done|]. by rewrite !fmap_cons, Hc, IHl.
Qed.

(** A folder of a shared account before it gets its new path. *)
Definition stamped (account : SharedMailAccount) (f : FolderInfo) : FolderInfo :=
  stamp_account (sa_id account) (if sa_read_only account then lock_read_only f else f).

Lemma stamped_placed account parent f : placed parent f -> placed parent (stamped account f).
Proof.
  intros Hp. unfold stamped. rewrite stamp_rewrite. apply rewrite_placed; [done|].
  destruct (sa_read_only account); [|done]. rewrite lock_rewrite. by apply rewrite_placed.
Qed.

Lemma stamped_path account f : f_path (stamped account f) = f_path f.
Proof.
  unfold stamped. rewrite stamp_rewrite, rewrite_path by done.
  destruct (sa_read_only account); [|done]. by rewrite lock_rewrite, rewrite_path.
Qed.

(** The marks of a shared account on a folder. *)
Definition marked_for (account : SharedMailAccount) (h : FolderHead) : Prop :=
  fh_account_id h = Some (sa_id account) /\ (sa_read_only account = true -> fh_may_add_items h = Some false).

Lemma stamped_heads account f :
  fh_id <$> heads [stamped account f] = fh_id <$> heads [f] /\ Forall (marked_for account) (heads [stamped account f]).
Proof.
  unfold stamped, marked_for. rewrite stamp_rewrite, heads_rewrite.
  destruct (sa_read_only account) eqn:E; rewrite ?lock_rewrite, ?heads_rewrite, <- ?list_fmap_compose; split.
  - apply list_fmap_ext. intros i h _. done.
  - rewrite Forall_fmap. apply Forall_forall. intros h _. done.
  - apply list_fmap_ext. intros i h _. done.
  - rewrite Forall_fmap. apply Forall_forall. intros h _. done.
Qed.

Lemma shared_child_eq account f :
  shared_child account f = repath (stamped account f) (path_join (Some (owner_path account)) (last_component (f_path f))).
Proof. unfold shared_child. fold (stamped account f). by rewrite stamped_path. Qed.

Lemma shared_child_heads account f :
  placed None f ->
  fh_id <$> heads [shared_child account f] = fh_id <$> heads [f] /\ Forall (marked_for account) (heads [shared_child account f]).
Proof.
  intros Hp. rewrite shared_child_eq, (heads_repath None) by (by apply stamped_placed).
  destruct (stamped_heads account f) as [Hid Hm]. rewrite moved_ids. split; [done|].
  rewrite Forall_fmap. done.
Qed.

Lemma shared_children_heads account l :
  Forall (placed None) l ->
  fh_id <$> heads (shared_child account <$> l) = fh_id <$> heads l /\
  Forall (marked_for account) (heads (shared_child account <$> l)).
Proof.
  induction 1 as [|f l Hf _ [IH1 IH2]]; [done|]. destruct (shared_child_heads account f Hf) as [H1 H2].
  rewrite fmap_cons, (heads_cons' (shared_child account f)), (heads_cons' f), !fmap_app, H1, IH1. split; [done|].
  by apply Forall_app.
Qed.

Lemma root_component f : placed None f -> (SEPARATOR ∉ f_path f) /\ last_component (f_path f) = f_path f.
Proof.
  intros [(c&E&Hc) _]%placed_inv. cbn in E. rewrite E. split; [done|]. exact (last_component_join None c Hc).
Qed.

Lemma shared_children_ok account l :
  forest_ok None l -> forest_ok (Some (owner_path account)) (shared_child account <$> l).
Proof.
  intros [Hp Hn]. split.
  - rewrite Forall_fmap. rewrite Forall_forall in *. intros f Hf. cbn. rewrite shared_child_eq.
    destruct (root_component f (Hp f Hf)) as [Hs ->].
    eapply repath_placed; [by apply stamped_placed, Hp|done|done].
  - rewrite <- list_fmap_compose. apply NoDup_fmap_2_strong; [|by eapply NoDup_fmap_1].
    intros f g Hf Hg. cbn. rewrite !shared_child_eq, !repath_path. rewrite Forall_forall in Hp.
    destruct (root_component f (Hp f Hf)) as [Hs ->], (root_component g (Hp g Hg)) as [Hs' ->].
    intros [_ E]%(path_join_inj (Some (owner_path account)) (f_path f) (Some (owner_path account)) (f_path g)); [|done..].
    by apply (nodup_fmap_eq f_path l).
Qed.

Lemma owner_placed account tree : forest_ok None tree -> placed (Some SHARED_ROOT_PATH) (owner_folder (account, tree)).
Proof.
  intros Hok. eapply placed_intro; [done|apply encode_component_plain|]. by apply shared_children_ok.
Qed.

Lemma roots_sublist l : (f_head <$> l) `sublist_of` heads l.
Proof.
  induction l as [|f l IH]; [done|]. rewrite fmap_cons, heads_cons. constructor.
  etrans; [exact IH|]. apply sublist_inserts_l. done.
Qed.

Lemma owner_paths (shared : list (SharedMailAccount * FolderTree)) :
  f_path <$> (owner_folder <$> shared) = (fun n => path_join (Some SHARED_ROOT_PATH) (encode_component n)) <$> ((sa_name ∘ fst) <$> shared).
Proof. rewrite <- !list_fmap_compose. apply list_fmap_ext. intros i [account tree] _. done. Qed.

(** Merging shared accounts keeps the paths of the folders distinct exactly when the
    account has no top-level folder at the path of the synthetic root and no two shared
    accounts have the same owner name. *)
Theorem merge_shared_paths self shared :
  tree_ok self -> Forall (fun p => tree_ok p.2) shared -> shared <> [] ->
  NoDup (fh_path <$> heads (merge_shared self shared)) <->
  (SHARED_ROOT_PATH ∉ f_path <$> self) /\ NoDup ((sa_name ∘ fst) <$> shared).
Proof.
  intros [Hself _] Hshared Hne. destruct shared as [|s shared]; [done|]. clear Hne. set (all := s :: shared) in *.
  change (merge_shared self all) with (self ++ [shared_root all]). split.
  - rewrite heads_app, fmap_app, heads_one. intros (_&Hd&Hn)%NoDup_app. split.
    + intros Hin. eapply (Hd SHARED_ROOT_PATH); [|left].
      unfold f_path in Hin. rewrite (list_fmap_compose f_head fh_path) in Hin.
      apply list_elem_of_fmap in Hin as (h&->&Hh). apply list_elem_of_fmap_2.
      eapply elem_of_submseteq; [exact Hh|]. apply sublist_submseteq, roots_sublist.
    + rewrite fmap_cons in Hn. apply NoDup_cons in Hn as [_ Hn]. cbn [shared_root f_children] in Hn.
      assert (NoDup (f_path <$> (owner_folder <$> all))) as Hp.
      { unfold f_path. rewrite (list_fmap_compose f_head fh_path). eapply sublist_NoDup; [exact Hn|].
        apply fmap_sublist, roots_sublist. }
      rewrite owner_paths in Hp. by apply NoDup_fmap_1 in Hp.
  - intros [Hno Hnames]. apply (forest_paths_nodup None). destruct Hself as [Hp Hn]. split.
    + apply Forall_app. split; [done|]. constructor; [|constructor].
      eapply (placed_intro None _ SHARED_ROOT_PATH); [done|by_decide|]. cbn [shared_root f_children]. split.
      * rewrite Forall_fmap. eapply Forall_impl; [exact Hshared|]. intros [account tree] [Ht _]. by apply owner_placed.
      * rewrite owner_paths. apply NoDup_fmap_2_strong; [|done]. intros x y _ _ E.
        apply path_join_inj in E as [_ E]; [|apply encode_component_plain..]. by apply (inj encode_component).
    + rewrite fmap_app. apply NoDup_app. split_and!; [done| |apply NoDup_singleton].
      intros p Hin Hin'. cbn in Hin'. apply list_elem_of_singleton in Hin' as ->. done.
Qed.

(** ** Which account a folder belongs to *)
Lemma find_app {A} (p : A -> bool) l k : find p (l ++ k) = match find p l with Some x => Some x | None => find p k end.
Proof. induction l as [|x l IH]; cbn; [done|]. by destruct (p x). Qed.

Lemma find_fmap {A B} (p : B -> bool) (f : A -> B) l : find p (f <$> l) = f <$> find (p ∘ f) l.
Proof. induction l as [|x l IH]; cbn; [done|]. unfold compose at 1. by destruct (p (f x)). Qed.

Definition head_by_id (id : Id) (l : list FolderHead) : option FolderHead := find (fun h => bool_decide (fh_id h = id)) l.

Lemma tree_by_id_head roots id : f_head <$> tree_by_id roots id = head_by_id id (heads roots).
Proof. unfold tree_by_id, head_by_id, heads. by rewrite tree_iter_preorders, find_fmap. Qed.

Lemma owning_account_head roots id :
  tree_owning_account roots id = head_by_id id (heads roots) ≫= fh_account_id.
Proof. unfold tree_owning_account. rewrite <- tree_by_id_head. by destruct (tree_by_id roots id). Qed.

Lemma head_by_id_None id l : id ∉ fh_id <$> l -> head_by_id id l = None.
Proof.
  intros Hn. unfold head_by_id. destruct (find _ _) as [h|] eqn:E; [|done].
  apply find_Some_elem in E as [Hin Hid%bool_decide_eq_true]. destruct Hn. subst. by apply list_elem_of_fmap_2.
Qed.

Lemma head_by_id_Some id l : id ∈ fh_id <$> l -> exists h, head_by_id id l = Some h /\ h ∈ l.
Proof.
  intros (h&->&Hh)%list_elem_of_fmap. unfold head_by_id. destruct (find _ _) as [h'|] eqn:E.
  - apply find_Some_elem in E as [Hin _]. eauto.
  - eapply find_None_elem in E; [|exact Hh]. by rewrite bool_decide_eq_false in E.
Qed.

Lemma owner_heads account tree :
  heads [owner_folder (account, tree)] = f_head (owner_folder (account, tree)) :: heads (shared_child account <$> tree).
Proof. by rewrite heads_one. Qed.

Lemma head_by_id_app id l k :
  head_by_id id (l ++ k) = match head_by_id id l with Some h => Some h | None => head_by_id id k end.
Proof. apply find_app. Qed.

Lemma head_by_id_cons id h l : fh_id h <> id -> head_by_id id (h :: l) = head_by_id id l.
Proof. intros Hne. unfold head_by_id. cbn. by rewrite bool_decide_eq_false_2. Qed.

(** The synthetic ids of a merged tree. *)
Definition synthetic (shared : list (SharedMailAccount * FolderTree)) (id : Id) : Prop :=
  id = lit "shared-root" \/ exists p, p ∈ shared /\ id = lit "shared-owner:" ++ sa_id p.1.

Lemma skip_owners pre post id :
  (forall p, p ∈ pre -> tree_ok p.2 /\ (id ∉ fh_id <$> heads p.2) /\ id <> lit "shared-owner:" ++ sa_id p.1) ->
  head_by_id id (heads (owner_folder <$> pre ++ post)) = head_by_id id (heads (owner_folder <$> post)).
Proof.
  induction pre as [|[account tree] pre IH]; intros Hpre; [done|]. cbn [app]. rewrite fmap_cons, heads_cons', head_by_id_app.
  destruct (Hpre (account, tree)) as ([[Hp _] _]&Hid&Hs); [left|]. cbn [fst snd] in *.
  rewrite (head_by_id_None id (heads [owner_folder (account, tree)])).
  - apply IH. intros p Hin. apply Hpre. by right.
  - rewrite owner_heads, fmap_cons, not_elem_of_cons, (proj1 (shared_children_heads account tree Hp)). done.
Qed.

(** C37: a mailbox id names the folder of the first account that has it.  An id of the
    account's own tree is found there, whatever the shared accounts have, and is addressed to
    no other account; an id that only later accounts can have is addressed to the first
    shared account whose tree has it, and a folder of a read-only share may not take mail. *)
Theorem merge_shared_owner self shared id :
  tree_ok self -> Forall (fun p => tree_ok p.2) shared -> ~ synthetic shared id ->
  (id ∈ fh_id <$> heads self -> tree_by_id (merge_shared self shared) id = tree_by_id self id) /\
  (forall pre account tree post, shared = pre ++ (account, tree) :: post ->
     (id ∉ fh_id <$> heads self) -> (forall p, p ∈ pre -> id ∉ fh_id <$> heads p.2) -> id ∈ fh_id <$> heads tree ->
     tree_owning_account (merge_shared self shared) id = Some (sa_id account) /\
     (sa_read_only account = true ->
      exists f, tree_by_id (merge_shared self shared) id = Some f /\ fh_may_add_items (f_head f) = Some false)).
Proof.
  intros Hself Hshared Hsyn. split.
  - intros Hin. destruct shared as [|s shared]; [done|]. unfold merge_shared, tree_by_id.
    rewrite !tree_iter_preorders, preorders_app, find_app. destruct (find _ (preorders self)) eqn:E; [done|].
    apply elem_of_heads_id in Hin as (f&Hf&Hid). eapply find_None_elem in E; [|exact Hf].
    by rewrite bool_decide_eq_false in E.
  - intros pre account tree post -> Hno Hpre Hin. rewrite Forall_forall in Hshared.
    assert (merge_shared self (pre ++ (account, tree) :: post) = self ++ [shared_root (pre ++ (account, tree) :: post)]) as ->
      by (by destruct pre).
    assert (exists h, head_by_id id (heads (self ++ [shared_root (pre ++ (account, tree) :: post)])) = Some h /\ marked_for account h)
      as (h&Hh&Hacc&Hro).
    { rewrite heads_app, head_by_id_app, (head_by_id_None id (heads self)) by done. rewrite heads_one.
      rewrite head_by_id_cons by (intros <-; apply Hsyn; by left).
      cbn [shared_root f_children]. rewrite skip_owners.
      2: { intros p Hp. split_and!; [apply Hshared; set_solver|by apply Hpre|]. intros ->. apply Hsyn. right. exists p. set_solver. }
      rewrite fmap_cons, heads_cons', owner_heads, <- app_comm_cons.
      rewrite head_by_id_cons by (intros <-; apply Hsyn; right; exists (account, tree); set_solver).
      destruct (Hshared (account, tree)) as [[Hp _] _]; [set_solver|].
      destruct (shared_children_heads account tree Hp) as [Hids Hm]. rewrite head_by_id_app.
      destruct (head_by_id_Some id (heads (shared_child account <$> tree))) as (h&->&Hh); [by rewrite Hids|].
      exists h. split; [done|]. rewrite Forall_forall in Hm. by apply Hm. }
    rewrite owning_account_head, Hh. split; [done|]. intros Hr.
    rewrite <- tree_by_id_head in Hh. apply fmap_Some in Hh as (f&->&->). eauto.
Qed.

(** ** An example: a share with an id of its own, and one that the account has too *)
Definition example_shared_mailboxes : list Mailbox :=
  [example_mailbox "s" "Team" None None; example_mailbox "w" "Work" (Some "s"%string) None].

Definition example_shared_tree : FolderTree :=
  match from_mailboxes example_shared_mailboxes with Ok roots => roots | Err _ => [] end.

Definition example_account : SharedMailAccount := {| sa_id := lit "b"; sa_name := lit "Bob"; sa_read_only := true |}.

Definition example_shared : list (SharedMailAccount * FolderTree) := [(example_account, example_shared_tree)].

Lemma example_shared_ok : Forall (fun p => tree_ok p.2) example_shared.
Proof.
  constructor; [|constructor]. apply (listing_tree_ok example_shared_mailboxes). vm_compute. reflexivity.
Qed.

Lemma merge_shared_paths_witness : NoDup (fh_path <$> heads (merge_shared example_tree example_shared)).
Proof.
  apply (merge_shared_paths example_tree example_shared).
  - exact (listing_tree_ok _ _ example_listed).
  - exact example_shared_ok.
  - discriminate.
  - split; by_decide.
Defined.

Lemma example_not_synthetic id :
  bool_decide (id = lit "shared-root") = false -> bool_decide (id = lit "shared-owner:b") = false -> ~ synthetic example_shared id.
Proof.
  intros H1%bool_decide_eq_false H2%bool_decide_eq_false [->|(p&[->|Hp]%elem_of_cons&->)]; [done..|].
  by apply elem_of_nil in Hp.
Qed.

Lemma merge_shared_owner_witness :
  tree_owning_account (merge_shared example_tree example_shared) (lit "s") = Some (lit "b") /\
  tree_by_id (merge_shared example_tree example_shared) (lit "w") = tree_by_id example_tree (lit "w").
Proof.
  split.
  - refine (proj1 (proj2 (merge_shared_owner example_tree example_shared (lit "s") (listing_tree_ok _ _ example_listed)
      example_shared_ok (example_not_synthetic (lit "s") eq_refl eq_refl)) [] example_account example_shared_tree [] eq_refl _ _ _)).
    + by_decide.
    + intros p Hp. by apply elem_of_nil in Hp.
    + by_decide.
  - apply (merge_shared_owner example_tree example_shared (lit "w") (listing_tree_ok _ _ example_listed) example_shared_ok
      (example_not_synthetic (lit "w") eq_refl eq_refl)). by_decide.
Defined.
