(* ===== verification/FolderView.v ===== *)
(** What the folder tree shows of a server whose mailboxes are a forest with distinct sibling
    names: every mailbox at the path of its names ([FolderTree::from_mailboxes] of
    jmap-mail-sync/src/folder.rs on such a listing). *)

From Stdlib Require Import Ascii String.
From stdpp Require Import prelude strings sorting.
From S2P Require Import Prelude BTree Strings Json Proto Path FolderTree FolderForest FolderEdit FolderBuild FolderWalk FolderListing MailboxListing MailboxForest.

(** ** Paths without a mark *)
Section plain.
Context (nodes : list Node) (init parent : list (option nat)) (order : list nat).
Hypothesis Hwalk : walked (length nodes) init parent order.
Hypothesis Hids : NoDup (n_id <$> nodes).

(** Siblings have distinct names. *)
Hypothesis Hsiblings : forall i j, i < length nodes -> j < length nodes -> par parent i = par parent j -> node_name nodes i = node_name nodes j -> i = j.

Definition plain_paths (done : list nat) (paths : list text) : Prop :=
  forall i, i ∈ done -> paths !! i = Some (path_join (parent_path parent paths i) (encode_component (node_name nodes i))).

Lemma path_at_plain done paths used i :
  paths_ok nodes parent done paths -> plain_paths done paths ->
  (forall p, p ∈ used <-> exists j, j ∈ done /\ paths !! j = Some p) ->
  (forall j, j ∈ done -> j < length nodes) -> i < length nodes -> i ∉ done ->
  (forall j p, j ∈ done ++ [i] -> par parent j = Some p -> p ∈ done) ->
  path_at nodes parent paths used i = path_join (parent_path parent paths i) (encode_component (node_name nodes i)).
Proof.
  intros Hok Hplain Hused Hlt Hi Hdone Hfirst. unfold path_at. fold (node_name nodes i) (node_id nodes i) (par parent i) (parent_path parent paths i).
  case_decide as Hu; [|done]. exfalso. apply Hused in Hu as (j&Hj&Hp). rewrite (Hplain j Hj) in Hp.
  injection Hp as Hp. apply path_join_inj in Hp as [Hpp Hc]; [|apply encode_component_plain..]. apply (inj encode_component) in Hc.
  assert (j = i) as ->; [|done]. apply Hsiblings; [by apply Hlt|done| |done]. unfold parent_path in Hpp.
  destruct (par parent j) as [pj|] eqn:Ej, (par parent i) as [pi|] eqn:Ei; cbn in Hpp; try done. f_equal.
  assert (pj ∈ done) as Hpj by (apply (Hfirst j); [set_solver|done]). assert (pi ∈ done) as Hpi by (apply (Hfirst i); [set_solver|done]).
  apply (po_inj _ _ _ _ Hok); [done..|]. rewrite (Hplain pj Hpj), (Hplain pi Hpi) in *. cbn in Hpp. congruence.
Qed.

Lemma paths_loop_plain rest done paths used :
  order = done ++ rest -> paths_ok nodes parent done paths -> plain_paths done paths ->
  (forall p, p ∈ used <-> exists j, j ∈ done /\ paths !! j = Some p) ->
  plain_paths order (paths_loop nodes parent paths used rest).
Proof.
  revert done paths used. induction rest as [|i rest IH]; intros done paths used E Hok Hplain Hused; cbn [paths_loop].
  { rewrite app_nil_r in E. by subst. }
  assert (i ∉ done) as Hi.
  { pose proof (order_nodup _ _ _ _ Hwalk) as Hn. rewrite E in Hn. apply NoDup_app in Hn as (_&Hd&_). intros Hin. eapply Hd; [done|left]. }
  assert (forall j, j ∈ done -> j < length nodes) as Hlt.
  { intros j Hj. eapply order_lt; [done|]. rewrite E. set_solver. }
  assert (i < length nodes) as Hil by (eapply order_lt; [done|]; rewrite E; set_solver).
  assert (forall j p, j ∈ done ++ [i] -> par parent j = Some p -> p ∈ done) as Hfirst.
  { intros j p Hj Hp. apply elem_of_app in Hj as [(pre&post&Ed)%elem_split| ->%list_elem_of_singleton].
    - subst done. rewrite <- (assoc_L (++)), <- app_comm_cons in E.
      pose proof (wk_first _ _ _ _ Hwalk _ _ _ _ E Hp). set_solver.
    - by apply (wk_first _ _ _ _ Hwalk done i rest). }
  pose proof (path_at_plain done paths used i Hok Hplain Hused Hlt Hil Hi Hfirst) as Hpath.
  destruct (paths_ok_step nodes init parent order Hwalk Hids done paths used i) as [Hok' Hused']; [done..|].
  set (path := path_at nodes parent paths used i) in *.
  eapply (IH (done ++ [i])); [by rewrite E, <- (assoc_L (++))|exact Hok'| |exact Hused'].
  assert (i < length paths) as Hip by (by rewrite (po_len _ _ _ _ Hok)).
  assert (forall j, j ∈ done -> <[i := path]> paths !! j = paths !! j) as Hsame.
  { intros j Hj. apply list_lookup_insert_ne. by intros ->. }
  assert (forall j, j ∈ done ++ [i] -> parent_path parent (<[i := path]> paths) j = parent_path parent paths j) as Hpp.
  { intros j Hj. unfold parent_path. destruct (par parent j) as [p|] eqn:Ep; [|done]. cbn. by rewrite Hsame by eauto. }
  intros j Hj. rewrite Hpp by done. apply elem_of_app in Hj as [Hj| ->%list_elem_of_singleton].
  - rewrite Hsame by done. by apply Hplain.
  - by rewrite list_lookup_insert_eq, Hpath.
Qed.

Lemma paths_of_plain : plain_paths order (paths_of nodes parent order).
Proof.
  apply (paths_loop_plain order [] _ []); [done| |by intros i Hi%elem_of_nil|].
  - split; [apply length_replicate|..]; intros; by set_solver.
  - intros p. rewrite elem_of_nil. split; [done|]. intros (j&Hj&_). by apply elem_of_nil in Hj.
Qed.
End plain.

(** Distinct roles are all claimed. *)
Lemma claim_roles_distinct claimed nodes :
  NoDup (omap role_of nodes) -> (forall r, r ∈ claimed -> r ∉ omap role_of nodes) -> claim_roles claimed nodes = role_of <$> nodes.
Proof.
  revert claimed. induction nodes as [|node nodes IH]; intros claimed Hn Hc; [done|]. rewrite fmap_cons. cbn [claim_roles].
  change (mb_role (n_mailbox node) ≫= fun role => role_from_jmap role) with (role_of node). cbn [omap list_omap] in Hn, Hc.
  destruct (role_of node) as [role|].
  - apply NoDup_cons in Hn as [Hni Hn]. rewrite decide_False by (intros Hr; apply (Hc role Hr); left). f_equal. apply IH; [done|].
    intros r [->|Hr]%elem_of_cons; [done|]. intros Hr'. apply (Hc r Hr). by right.
  - f_equal. by apply IH.
Qed.

(** ** Mailboxes at their paths *)
Inductive located (tree : btmap Id Mailbox) : Id -> text -> Prop :=
| LocatedTop id b : bt_get id tree = Some b -> mb_parent_id b = None -> located tree id (path_join None (encode_component (mb_name b)))
| LocatedBelow id b p path : bt_get id tree = Some b -> mb_parent_id b = Some p -> located tree p path ->
    located tree id (path_join (Some path) (encode_component (mb_name b))).

Lemma located_fun tree id path path' : located tree id path -> located tree id path' -> path = path'.
Proof.
  intros H. revert path'. induction H as [id b Hb Hp|id b p path Hb Hp _ IH]; intros path' H';
    inversion H' as [? b' Hb' Hp'|? b' p' path1 Hb' Hp' Hl']; subst; rewrite Hb in Hb'; injection Hb' as <-; rewrite Hp in Hp'; try done.
  injection Hp' as <-. by rewrite (IH path1 Hl').
Qed.

(** The folder of a mailbox at a path. *)
Definition mailbox_head (id : Id) (b : Mailbox) (path : text) : FolderHead :=
  {| fh_id := id; fh_path := path; fh_display_name := mb_name b; fh_role := mb_role b ≫= role_from_jmap;
     fh_total := saturate (mb_total_emails b); fh_unread := saturate (mb_unread_emails b);
     fh_subscribed := default true (mb_is_subscribed b); fh_may_add_items := mb_my_rights b ≫= mr_may_add_items; fh_account_id := None |}.

(** The tree has exactly one folder for each mailbox, at the path of its names. *)
Record shows (tree : btmap Id Mailbox) (roots : FolderTree) : Prop := {
  sh_ok : tree_ok roots;
  sh_heads h : h ∈ heads roots <-> exists id b path, bt_get id tree = Some b /\ located tree id path /\ h = mailbox_head id b path;
}.

(** A forest of mailboxes within the depth of the folder tree, with distinct sibling names and
    distinct roles. *)
Record plain_tree (tree : btmap Id Mailbox) : Prop := {
  pt_ok : bt_ok tree;
  pt_self : forall id b, bt_get id tree = Some b -> mb_id b = Some id /\ mb_name b <> [];
  pt_rooted : forall id b, bt_get id tree = Some b -> exists n, rooted tree id n /\ n <= MAX_DEPTH;
  pt_siblings : forall id b id' b', bt_get id tree = Some b -> bt_get id' tree = Some b' ->
    mb_parent_id b = mb_parent_id b' -> mb_name b = mb_name b' -> id = id';
  pt_roles : forall id b id' b' r, bt_get id tree = Some b -> bt_get id' tree = Some b' ->
    mb_role b ≫= role_from_jmap = Some r -> mb_role b' ≫= role_from_jmap = Some r -> id = id';
}.

Section listing.
Variable tree : btmap Id Mailbox.
Hypothesis Htree : plain_tree tree.

Lemma tree_mailbox b : b ∈ tree.*2 <-> exists id, bt_get id tree = Some b.
Proof using Htree.
  rewrite list_elem_of_fmap. split.
  - intros ([id b']&->&Hin). exists id. by apply bt_elem_get; [apply (pt_ok _ Htree)|].
  - intros (id&Hid). exists (id, b). split; [done|]. by apply bt_get_Some_elem.
Qed.

Lemma tree_listable : listable tree.*2.
Proof using Htree.
  split.
  - apply Forall_forall. intros b (id&Hb)%tree_mailbox. destruct (pt_self _ Htree id b Hb) as [-> Hn]. done.
  - assert (mb_id <$> tree.*2 = Some <$> tree.*1) as ->.
    { rewrite <- !list_fmap_compose. apply list_fmap_ext. intros i [id b] Hi. cbn. apply list_elem_of_lookup_2 in Hi.
      by apply bt_elem_get, (pt_self _ Htree) in Hi as [-> _]; [|apply (pt_ok _ Htree)]. }
    apply (NoDup_fmap_2 Some). apply bt_ok_nodup, (pt_ok _ Htree).
Qed.

Lemma rooted_nested id b n : rooted tree id n -> bt_get id tree = Some b -> nested tree.*2 b n.
Proof using Htree.
  intros H. revert b. induction H as [id b Hb Hp|id b p n Hb Hp Hr IH]; intros b' Hb'; rewrite Hb in Hb'; injection Hb' as <-.
  - apply nested_top; [apply tree_mailbox; by eexists|]. intros q (_&[x Hx]&_). congruence.
  - assert (exists pb, bt_get p tree = Some pb) as [pb Hpb] by (inversion Hr; by eexists).
    eapply nested_below; [apply tree_mailbox; by eexists| |by apply IH]. split_and!; [apply tree_mailbox; by eexists|by rewrite Hp|].
    by destruct (pt_self _ Htree p pb Hpb) as [-> _].
Qed.

Section nodes.
Context (checked : list Node) (init parent : list (option nat)) (order : list nat).
Let nodes := sort_by node_cmp checked.
Hypothesis Hchecked : Forall2 node_of tree.*2 checked.
Hypothesis Hlist : listing nodes init parent order.

Lemma node_in_tree i node : nodes !! i = Some node -> bt_get (n_id node) tree = Some (n_mailbox node).
Proof using Htree Hchecked.
  intros Hi. destruct (node_mailbox _ _ Hchecked i node Hi) as [(id&Hb)%tree_mailbox (Hid&_&_)].
  destruct (pt_self _ Htree id _ Hb) as [Hid' _]. congruence.
Qed.

Lemma tree_in_node id b : bt_get id tree = Some b -> exists i node, nodes !! i = Some node /\ n_mailbox node = b /\ n_id node = id.
Proof using Htree Hchecked.
  intros Hb. destruct (mailbox_node _ _ Hchecked b) as (i&node&Hi&Hm&Hid); [apply tree_mailbox; by eexists|].
  exists i, node. split_and!; [done..|]. destruct (pt_self _ Htree id b Hb). congruence.
Qed.

Lemma nodes_inj i j node node' : nodes !! i = Some node -> nodes !! j = Some node' -> n_id node = n_id node' -> i = j.
Proof using Hlist.
  intros Hi Hj E. eapply NoDup_lookup; [exact (li_ids _ _ _ _ Hlist)|by rewrite list_lookup_fmap, Hi|].
  rewrite list_lookup_fmap, Hj. cbn. by rewrite E.
Qed.

(** No link is cut: the parent of a node is the node of the parent. *)
Lemma node_parent i node :
  nodes !! i = Some node ->
  par parent i = par init i /\
  match par init i with
  | Some p => exists pnode, nodes !! p = Some pnode /\ mb_parent_id (n_mailbox node) = Some (n_id pnode)
  | None => mb_parent_id (n_mailbox node) = None
  end.
Proof using Htree Hchecked Hlist.
  intros Hi. pose proof (node_in_tree i node Hi) as Hb. destruct (pt_rooted _ Htree _ _ Hb) as (n&Hr&Hn). split.
  - apply (wk_kept _ _ _ _ (li_walked _ _ _ _ Hlist) i n Hn). eapply nested_depth; [done|done| |done|done]. by eapply rooted_nested.
  - destruct (par init i) as [p|] eqn:E.
    + apply (li_init _ _ _ _ Hlist) in E as (node'&pnode&Hi'&Hp&Hpid). rewrite Hi in Hi'. injection Hi' as <-. by exists pnode.
    + destruct (mb_parent_id (n_mailbox node)) as [pid|] eqn:Ep; [|done].
      inversion Hr as [? b' Hb' Hp'|? b' p n' Hb' Hp' Hr']; subst; rewrite Hb in Hb'; injection Hb' as <-; rewrite Ep in Hp'; [done|].
      injection Hp' as <-. assert (exists pb, bt_get pid tree = Some pb) as [pb Hpb] by (inversion Hr'; by eexists).
      destruct (tree_in_node pid pb Hpb) as (j&pnode&Hj&_&Hid).
      assert (par init i = Some j); [|congruence]. apply (li_init _ _ _ _ Hlist). exists node, pnode. split_and!; [done..|]. by rewrite Hid.
Qed.

Lemma node_siblings i j :
  i < length nodes -> j < length nodes -> par parent i = par parent j -> node_name nodes i = node_name nodes j -> i = j.
Proof using Htree Hchecked Hlist.
  intros [x Hx]%lookup_lt_is_Some [y Hy]%lookup_lt_is_Some Hp Hn. unfold node_name in Hn. rewrite Hx, Hy in Hn. cbn in Hn.
  eapply nodes_inj; [done..|]. destruct (node_parent i x Hx) as [Hi Hpi]. destruct (node_parent j y Hy) as [Hj Hpj].
  rewrite Hi, Hj in Hp. rewrite <- Hp in Hpj.
  eapply (pt_siblings _ Htree); [by eapply node_in_tree|by eapply node_in_tree| |done].
  destruct (par init i); [|congruence]. destruct Hpi as (px&Hpx&->), Hpj as (py&Hpy&->). congruence.
Qed.

Let paths := paths_of nodes parent order.

(** Every node is at the path of its mailbox. *)
Lemma node_located i node : nodes !! i = Some node -> exists path, paths !! i = Some path /\ located tree (n_id node) path.
Proof using Htree Hchecked Hlist.
  intros Hi. pose proof (node_in_tree i node Hi) as Hb. destruct (pt_rooted _ Htree _ _ Hb) as (n&Hr&_). revert i node Hi Hb Hr.
  induction n as [|n IH]; intros i node Hi Hb Hr; [by inversion Hr|].
  pose proof (paths_of_plain nodes init parent order (li_walked _ _ _ _ Hlist) (li_ids _ _ _ _ Hlist) node_siblings i
    (order_elem _ _ _ _ Hlist i node Hi)) as Hpath. fold paths in Hpath. exists (path_join (parent_path parent paths i) (encode_component (node_name nodes i))).
  split; [done|]. unfold node_name. rewrite Hi. cbn [fmap option_fmap option_map from_option id]. unfold parent_path.
  destruct (node_parent i node Hi) as [-> Hp]. destruct (par init i) as [p|].
  - destruct Hp as (pnode&Hpn&Hpid). pose proof (node_in_tree p pnode Hpn) as Hpb.
    inversion Hr as [? b' Hb' Hp'|? b' q n' Hb' Hp' Hr']; subst; rewrite Hb in Hb'; injection Hb' as <-; rewrite Hpid in Hp'; [done|].
    injection Hp' as <-. destruct (IH p pnode Hpn Hpb Hr') as (pp&Hpp&Hloc). cbn. rewrite Hpp. cbn. by eapply LocatedBelow.
  - by eapply LocatedTop.
Qed.

Lemma nodes_roles : claim_roles [] nodes = role_of <$> nodes.
Proof using Htree Hchecked Hlist.
  apply claim_roles_distinct; [|by intros r Hr%elem_of_nil].
  assert (forall i j x y r, nodes !! i = Some x -> nodes !! j = Some y -> role_of x = Some r -> role_of y = Some r -> i = j) as Hinj.
  { intros i j x y r Hi Hj Hx Hy. eapply nodes_inj; [done..|]. by eapply (pt_roles _ Htree); [by eapply node_in_tree|by eapply node_in_tree|..]. }
  revert Hinj. generalize nodes as ns. clear. intros ns. induction ns as [|x l IH]; intros Hinj; [constructor|]. cbn [omap list_omap].
  assert (NoDup (omap role_of l)) as Hn by (apply IH; intros i j y z r Hi Hj Hy Hz; by injection (Hinj (S i) (S j) y z r Hi Hj Hy Hz)).
  destruct (role_of x) as [r|] eqn:Ex; [|done]. constructor; [|done].
  intros (y&[j Hj]%list_elem_of_lookup&Hy)%list_elem_of_omap. by specialize (Hinj 0 (S j) x y r eq_refl Hj Ex Hy).
Qed.

Lemma node_head i node :
  nodes !! i = Some node -> exists path, located tree (n_id node) path /\
    head_at nodes (claim_roles [] nodes) paths i = mailbox_head (n_id node) (n_mailbox node) path.
Proof using Htree Hchecked Hlist.
  intros Hi. destruct (node_located i node Hi) as (path&Hp&Hl). exists path. split; [done|]. rewrite nodes_roles.
  unfold head_at, mailbox_head. rewrite list_lookup_fmap, Hi, Hp. reflexivity.
Qed.

Lemma forest_shows : shows tree (forest nodes parent order (claim_roles [] nodes)).
Proof using Htree Hchecked Hlist.
  split; [apply (forest_tree_ok _ init _ _ _ (li_walked _ _ _ _ Hlist) (li_ids _ _ _ _ Hlist))|]. intros h.
  rewrite (forest_heads _ init _ _ _ (li_walked _ _ _ _ Hlist)), list_elem_of_fmap. fold paths. split.
  - intros (i&->&Hi). apply (order_lt _ _ _ _ (li_walked _ _ _ _ Hlist)), lookup_lt_is_Some in Hi as [node Hi].
    destruct (node_head i node Hi) as (path&Hl&->). exists (n_id node), (n_mailbox node), path. split_and!; [by eapply node_in_tree|done|done].
  - intros (id&b&path&Hb&Hl&->). destruct (tree_in_node id b Hb) as (i&node&Hi&Hm&Hid). exists i.
    split; [|by eapply order_elem]. destruct (node_head i node Hi) as (path'&Hl'&->). subst. by rewrite (located_fun _ _ _ _ Hl Hl').
Qed.
End nodes.

(** The listing of such mailboxes is accepted, and its tree shows them. *)
Lemma listing_shows : exists roots, from_mailboxes tree.*2 = Ok roots /\ shows tree roots.
Proof using Htree.
  pose proof (proj2 (from_mailboxes_is_ok _) tree_listable) as Hok. destruct (from_mailboxes tree.*2) as [roots|] eqn:E; [|done].
  exists roots. split; [done|]. apply listing_of in E as (checked&init&parent&order&Hc&Hl&->). by eapply forest_shows.
Qed.
End listing.
