(* ===== verification/FolderFollow.v ===== *)
(** The edits of the folder tree against the mailboxes of the server: creating, deleting,
    subscribing and moving a mailbox and editing the tree alike keep the tree showing the
    mailboxes ([insert], [remove], [set_subscribed] and [rename] of jmap-mail-sync/src/folder.rs). *)

From Stdlib Require Import Ascii String.
From stdpp Require Import prelude strings sorting.
From S2P Require Import Prelude BTree Strings Json Proto MailboxWire Path FolderTree FolderForest FolderEdit FolderBuild FolderListing MailboxListing MailboxForest FolderView.

(** ** Places *)
Definition siblings_apart_in (tree : btmap Id Mailbox) : Prop :=
  forall id b id' b', bt_get id tree = Some b -> bt_get id' tree = Some b' ->
    mb_parent_id b = mb_parent_id b' -> mb_name b = mb_name b' -> id = id'.

Lemma located_is_Some tree id path : located tree id path -> is_Some (bt_get id tree).
Proof. by inversion 1. Qed.

Lemma located_inv tree id path :
  located tree id path ->
  exists b parent, bt_get id tree = Some b /\ path = path_join parent (encode_component (mb_name b)) /\
    match mb_parent_id b with None => parent = None | Some p => exists above, parent = Some above /\ located tree p above end.
Proof.
  destruct 1 as [id b Hb Hp|id b p above Hb Hp Hl]; eexists b, _; (split_and!; [done..|]); rewrite Hp; eauto.
Qed.

Lemma located_inj tree id id' path : siblings_apart_in tree -> located tree id path -> located tree id' path -> id = id'.
Proof.
  intros Hs H. revert id'. induction H as [id b Hb Hp|id b p path Hb Hp _ IH]; intros id' (b'&parent&Hb'&E&Hp')%located_inv.
  all: apply path_join_inj in E as [Epath Ename]; [|apply encode_component_plain..]; apply (inj encode_component) in Ename; subst parent.
  all: eapply Hs; [done..| |done]; rewrite Hp; destruct (mb_parent_id b') as [p'|]; naive_solver.
Qed.

Lemma rooted_located tree id n : rooted tree id n -> exists path, located tree id path.
Proof.
  induction 1 as [id b Hb Hp|id b p n Hb Hp _ [path IH]]; eexists; [by eapply LocatedTop|by eapply LocatedBelow].
Qed.

(** A path within another is that one or has its parent within it. *)
Lemma join_within parent component path :
  SEPARATOR ∉ component -> within (path_join parent component) path = true ->
  path_join parent component = path \/ exists above, parent = Some above /\ within above path = true.
Proof.
  intros Hc [?|[rest E]]%within_spec; [by left|right].
  destruct (path_split_spec rest) as [Er Hr]. rewrite Er in E. destruct (path_split rest) as [[above|] c]; cbn [fst snd path_join] in *.
  - change (path_join parent component = path ++ SEPARATOR :: above ++ SEPARATOR :: c) in E.
    rewrite app_comm_cons, (assoc_L (++)) in E.
    apply (path_join_inj parent component (Some (path ++ SEPARATOR :: above)) c Hc Hr) in E as [-> _].
    eexists. split; [done|]. apply within_spec. right. by eexists.
  - apply (path_join_inj parent component (Some path) c Hc Hr) in E as [-> _]. eexists. split; [done|]. apply within_refl.
Qed.

(** What is at a path strictly below a mailbox is not alone there: that mailbox has a child. *)
Lemma located_below tree id path x path' :
  siblings_apart_in tree -> located tree id path -> located tree x path' -> within path' path = true -> path' <> path ->
  exists y b, bt_get y tree = Some b /\ mb_parent_id b = Some id.
Proof.
  intros Hs Hid. induction 1 as [x b Hb Hp|x b p above Hb Hp Hl IH]; intros Hw Hne.
  all: apply join_within in Hw as [?|(above'&E&Hw)]; [try done..|apply encode_component_plain]; try done.
  injection E as <-. destruct (decide (above = path)) as [->|]; [|by apply IH].
  exists x, b. split; [done|]. rewrite Hp. f_equal. by eapply located_inj.
Qed.

(** What keeps the names and the parents of a set of mailboxes closed under parents keeps their
    places. *)
Lemma located_transfer (P : Id -> Prop) tree tree' id path :
  (forall y b, P y -> bt_get y tree = Some b ->
    (exists b', bt_get y tree' = Some b' /\ mb_name b' = mb_name b /\ mb_parent_id b' = mb_parent_id b) /\
    (forall p, mb_parent_id b = Some p -> P p)) ->
  located tree id path -> P id -> located tree' id path.
Proof.
  intros HP. induction 1 as [id b Hb Hp|id b p path Hb Hp _ IH]; intros Hid;
    destruct (HP id b Hid Hb) as [(b'&Hb'&<-&Eparent) Hup]; rewrite Hp in Eparent.
  - by apply LocatedTop.
  - eapply LocatedBelow; [done..|]. by apply IH, Hup.
Qed.

Lemma located_parent tree id b p path : bt_get id tree = Some b -> mb_parent_id b = Some p -> located tree id path ->
  exists above, located tree p above /\ path = path_join (Some above) (encode_component (mb_name b)).
Proof.
  intros Hb Hp (b'&parent&Hb'&->&Hparent)%located_inv. rewrite Hb in Hb'. injection Hb' as <-. rewrite Hp in Hparent. naive_solver.
Qed.

Lemma located_not_own_parent tree id b path : bt_get id tree = Some b -> located tree id path -> mb_parent_id b <> Some id.
Proof.
  intros Hb Hl Hp. destruct (located_parent _ _ _ _ _ Hb Hp Hl) as (above&Ha&E).
  rewrite (located_fun _ _ _ _ Ha Hl) in E. by eapply join_ne.
Qed.

Lemma plain_located tree id b : plain_tree tree -> bt_get id tree = Some b -> exists path, located tree id path.
Proof. intros Ht Hb. destruct (pt_rooted _ Ht id b Hb) as (n&Hr&_). by eapply rooted_located. Qed.

Lemma plain_siblings tree : plain_tree tree -> siblings_apart_in tree.
Proof. exact (pt_siblings tree). Qed.

(** ** The folder of a mailbox *)
Section shown.
Context (tree : btmap Id Mailbox) (roots : FolderTree).
Hypothesis Htree : plain_tree tree.
Hypothesis Hshows : shows tree roots.

Lemma shown_id h : h ∈ heads roots -> exists b, bt_get (fh_id h) tree = Some b /\ located tree (fh_id h) (fh_path h) /\ h = mailbox_head (fh_id h) b (fh_path h).
Proof using Hshows. intros (id&b&path&?&?&->)%(sh_heads _ _ Hshows). by exists b. Qed.

Lemma shown_head id b path : bt_get id tree = Some b -> located tree id path -> mailbox_head id b path ∈ heads roots.
Proof using Hshows. intros. apply (sh_heads _ _ Hshows). by exists id, b, path. Qed.

Lemma shown_folder id b path : bt_get id tree = Some b -> located tree id path ->
  exists f, tree_by_id roots id = Some f /\ f ∈ preorders roots /\ f_head f = mailbox_head id b path.
Proof using Hshows.
  intros Hb Hl. pose proof (shown_head id b path Hb Hl) as (f&E&Hf)%list_elem_of_fmap. exists f. split_and!; [|done..].
  assert (id = f_id f) as -> by (unfold f_id; by rewrite <- E). apply tree_by_id_unique; [apply (sh_ok _ _ Hshows)|done].
Qed.

Lemma shown_parent id path : located tree id path -> is_Some (tree_find roots path).
Proof using Hshows.
  intros Hl. destruct (located_is_Some _ _ _ Hl) as [b Hb]. apply tree_find_is_Some, list_elem_of_fmap.
  by exists (mailbox_head id b path); split; [|apply shown_head].
Qed.

(** The folders at or below the path of a mailbox without children are its own. *)
Lemma shown_leaf id path h :
  located tree id path -> (forall y b, bt_get y tree = Some b -> mb_parent_id b <> Some id) ->
  h ∈ heads roots -> within (fh_path h) path = true -> fh_id h = id.
Proof using Hshows Htree.
  intros Hl Hleaf (b&Hb&Hh&_)%shown_id Hw. destruct (decide (fh_path h = path)) as [E|Hne].
  - rewrite E in Hh. by eapply located_inj; [apply plain_siblings| |].
  - destruct (located_below tree id path (fh_id h) (fh_path h)) as (y&yb&Hy&Hp); [by apply plain_siblings|done..|].
    by destruct (Hleaf y yb Hy).
Qed.

(** Two folders of one mailbox are one. *)
Lemma shown_same h h' : h ∈ heads roots -> h' ∈ heads roots -> fh_id h = fh_id h' -> h = h'.
Proof using Hshows.
  intros (b&Hb&Hl&->)%shown_id (b'&Hb'&Hl'&->)%shown_id. cbn. intros E. rewrite E in *. rewrite Hb in Hb'. injection Hb' as ->.
  by rewrite (located_fun _ _ _ _ Hl Hl').
Qed.
End shown.

(** The folders at or below the path of a folder are its own. *)
Lemma within_subtree parent l old h :
  forest_ok parent l -> old ∈ preorders l -> h ∈ heads l -> within (fh_path h) (f_path old) = true -> h ∈ heads [old].
Proof.
  intros [Hl Hn] (f&Hf&Hold)%elem_of_preorders Hh Hw. destruct (forest_within _ _ _ Hl Hh) as (g&Hg&Hhg&Hwg).
  rewrite Forall_forall in Hl. assert (within (f_path old) (f_path f) = true) as Hwf.
  { eapply (placed_within parent f (f_head old)); [by apply Hl|]. unfold heads. apply list_elem_of_fmap_2. rewrite preorders_cons. set_solver. }
  assert (f = g) as <-.
  { eapply nodup_fmap_eq; [exact Hn|done..|]. eapply placed_apart; [by apply Hl..| |done]. exact (within_trans _ _ _ Hw Hwf). }
  pose proof (Hl f Hf) as Hp. clear Hl Hn Hf Hg Hh Hwg Hwf. revert parent Hp Hold Hhg.
  induction f as [fh children IH] using FolderInfo_ind. intros parent Hp Hold Hhg.
  rewrite preorder_eq, elem_of_cons in Hold. destruct Hold as [->|Hold]; [done|]. rewrite heads_one in Hhg.
  cbn [f_head f_children] in *. apply elem_of_cons in Hhg as [->|Hhg].
  - exfalso. assert (length (fh_path fh) < length (f_path old)); [|apply within_length in Hw; lia].
    apply (below_longer _ _ (f_head old) Hp). by apply list_elem_of_fmap_2.
  - pose proof (placed_inv _ _ Hp) as [_ [Hc Hnd]]. cbn [f_children] in *.
    destruct (forest_within _ _ _ Hc Hhg) as (g&Hg&Hhg'&Hwg). apply elem_of_preorders in Hold as (c&Hcin&Hold).
    rewrite Forall_forall in IH, Hc. assert (c = g) as <-; [|by eapply IH; [|apply Hc| |]].
    eapply nodup_fmap_eq; [exact Hnd|done..|]. eapply placed_apart; [by apply Hc..| |done]. eapply within_trans; [exact Hw|].
    eapply (placed_within _ c (f_head old)); [by apply Hc|]. unfold heads. apply list_elem_of_fmap_2. rewrite preorders_cons. set_solver.
Qed.

(** ** One mailbox changed *)
Definition same_but (id : Id) (tree tree' : btmap Id Mailbox) : Prop := forall x, x <> id -> bt_get x tree' = bt_get x tree.

(** A mailbox that moved takes what is below it along and leaves everything else. *)
Lemma located_moved tree tree' id old new x path :
  same_but id tree tree' -> siblings_apart_in tree -> located tree id old -> located tree' id new ->
  located tree x path -> within path old = true -> located tree' x (new ++ drop (length old) path).
Proof.
  intros Hsame Hs Hold Hnew. induction 1 as [x b Hb Hp|x b p above Hb Hp Hl IH]; intros Hw.
  - apply join_within in Hw as [E|(?&?&_)]; [|done|apply encode_component_plain].
    assert (x = id) as ->. { eapply located_inj; [exact Hs| |exact Hold]. rewrite <- E. by apply LocatedTop. }
    by rewrite E, drop_all, app_nil_r.
  - apply join_within in Hw as [E|(above'&[= <-]&Hw)]; [| |apply encode_component_plain].
    + assert (x = id) as ->. { eapply located_inj; [exact Hs| |exact Hold]. rewrite <- E. by eapply LocatedBelow. }
      by rewrite E, drop_all, app_nil_r.
    + assert (x <> id) as Hne.
      { intros ->. pose proof (LocatedBelow _ _ _ _ _ Hb Hp Hl) as Hl'. rewrite <- (located_fun _ _ _ _ Hl' Hold) in Hw.
        apply within_length in Hw. cbn [path_join] in Hw. rewrite length_app in Hw. cbn [length] in Hw. lia. }
      assert (new ++ drop (length old) (path_join (Some above) (encode_component (mb_name b))) =
        path_join (Some (new ++ drop (length old) above)) (encode_component (mb_name b))) as ->.
      { cbn [path_join]. apply within_length in Hw. by rewrite <- (assoc_L (++)), drop_app_le. }
      eapply LocatedBelow; [by rewrite Hsame|done|by apply IH].
Qed.

Lemma located_elsewhere tree tree' id old x path :
  same_but id tree tree' -> located tree id old -> located tree x path -> within path old = false -> located tree' x path.
Proof.
  intros Hsame Hold Hl Hout. apply (located_transfer (fun y => exists q, located tree y q /\ within q old = false) tree); [|done|by eexists].
  intros y b (q&Hq&Hw) Hb. split.
  - exists b. rewrite Hsame; [done|]. intros ->. rewrite (located_fun _ _ _ _ Hq Hold), within_refl in Hw. done.
  - intros p Hp. destruct (located_parent _ _ _ _ _ Hb Hp Hq) as (above&Ha&->). exists above. split; [done|].
    apply not_true_iff_false. intros Hin. eapply within_trans in Hin; [|apply within_join]. by rewrite Hin in Hw.
Qed.

Lemma same_but_sym id tree tree' : same_but id tree tree' -> same_but id tree' tree.
Proof. intros H x Hx. by rewrite H. Qed.

(** The path of a name below a mailbox, or at the top. *)
Definition destined (tree : btmap Id Mailbox) (parent : option Id) (name path : text) : Prop :=
  match parent with
  | None => path = path_join None (encode_component name)
  | Some p => exists above, located tree p above /\ path = path_join (Some above) (encode_component name)
  end.

Section change.
Context (tree tree' : btmap Id Mailbox) (roots : FolderTree) (id : Id).
Hypothesis Htree : plain_tree tree.
Hypothesis Htree' : plain_tree tree'.
Hypothesis Hshows : shows tree roots.
Hypothesis Hsame : same_but id tree tree'.

(** *** A new mailbox *)
Lemma located_created x path : bt_get id tree = None -> located tree x path -> located tree' x path.
Proof using Hsame.
  intros Hnew Hl. apply (located_transfer (fun y => exists q, located tree y q) tree); [|done|by eexists].
  intros y b [q Hq] Hb. assert (y <> id) by congruence. split.
  - exists b. by rewrite Hsame.
  - intros p Hp. destruct (located_parent _ _ _ _ _ Hb Hp Hq) as (above&?&_). by eexists.
Qed.

Lemma created_leaf y b : bt_get id tree = None -> bt_get y tree' = Some b -> mb_parent_id b <> Some id.
Proof using Htree Htree' Hsame.
  intros Hnew Hb Hp. destruct (plain_located tree' y b Htree' Hb) as [q Hq].
  destruct (decide (y = id)) as [->|Hne]; [by eapply located_not_own_parent|].
  rewrite Hsame in Hb by done. destruct (plain_located tree y b Htree Hb) as [q' Hq'].
  destruct (located_parent _ _ _ _ _ Hb Hp Hq') as (above&[? ?]%located_is_Some&_). congruence.
Qed.

Lemma located_uncreated x path : bt_get id tree = None -> x <> id -> located tree' x path -> located tree x path.
Proof using Htree Htree' Hsame.
  intros Hnew Hx Hl. apply (located_transfer (fun y => y <> id) tree'); [|done..].
  intros y b Hy Hb. split.
  - exists b. by rewrite <- Hsame.
  - intros p Hp ->. by eapply created_leaf.
Qed.

Lemma shows_create b path f :
  bt_get id tree = None -> bt_get id tree' = Some b -> located tree' id path ->
  f = Folder (mailbox_head id b path) [] ->
  (tree_insert roots f).1 = true /\ shows tree' (tree_insert roots f).2.
Proof using Htree Htree' Hsame Hshows.
  intros Hnew Hb Hl ->. set (f := Folder _ []). assert (heads [f] = [mailbox_head id b path]) as Hf by done.
  pose proof Hl as (b'&parent&Hb'&Epath&Hparent)%located_inv. rewrite Hb in Hb'. injection Hb' as <-.
  assert (path_split path = (parent, encode_component (mb_name b))) as Esplit
    by (rewrite Epath; apply path_split_join, encode_component_plain).
  assert (self_placed f) as Hplaced.
  { unfold self_placed. change (f_path f) with path. rewrite Esplit. cbn [fst].
    eapply placed_intro; [exact Epath|apply encode_component_plain|apply forest_ok_nil]. }
  assert (id ∉ fh_id <$> heads roots) as Hid.
  { intros (h&->&(b'&Hb'&_)%(shown_id _ _ Hshows))%list_elem_of_fmap. congruence. }
  pose proof (tree_insert_ok roots f (sh_ok _ _ Hshows) Hplaced) as Hok. rewrite Hf in Hok.
  pose proof (tree_insert_spec roots f (proj1 (sh_ok _ _ Hshows)) Hplaced) as Hs.
  destruct (tree_insert roots f) as [[] roots']; cbn [fst snd] in *.
  2: { destruct Hs as [_ (above&Ea&Hno)]. change (f_path f) with path in Ea. rewrite Esplit in Ea. cbn in Ea. subst parent. exfalso.
    destruct (mb_parent_id b) as [p|] eqn:Ep; [|done]. destruct Hparent as (?&[= <-]&Hp). apply Hno, tree_find_is_Some.
    eapply (shown_parent tree roots Hshows p), located_uncreated; [done| |done]. intros ->. by eapply located_not_own_parent. }
  destruct Hs as [_ Hh]. change (f_path f) with path in Hh. split; [done|]. split; [apply Hok; [by apply NoDup_singleton|set_solver]|].
  intros h. rewrite Hh, Hf, elem_of_app, list_elem_of_singleton, list_elem_of_filter, (sh_heads _ _ Hshows). split.
  - intros [->|[_ (x&bx&q&Hx&Hq&->)]]; [by exists id, b, path|]. exists x, bx, q. assert (x <> id) by congruence.
    split_and!; [by rewrite Hsame|by apply located_created|done].
  - intros (x&bx&q&Hx&Hq&->). destruct (decide (x = id)) as [->|Hne].
    + left. rewrite Hb in Hx. injection Hx as <-. by rewrite (located_fun _ _ _ _ Hq Hl).
    + right. split; [|exists x, bx, q; split_and!; [by rewrite <- Hsame|by apply located_uncreated|done]].
      unfold outside. cbn. apply not_true_iff_false. intros Hw. destruct (decide (q = path)) as [->|Hn].
      * by apply Hne; eapply located_inj; [apply plain_siblings| |].
      * destruct (located_below tree' id path x q) as (y&yb&Hy&Hp); [by apply plain_siblings|done..|]. by eapply created_leaf.
Qed.

(** *** A mailbox gone *)
Lemma shows_delete b :
  bt_get id tree = Some b -> bt_get id tree' = None -> (forall y yb, bt_get y tree = Some yb -> mb_parent_id yb <> Some id) ->
  (tree_remove roots id).1 = true /\ shows tree' (tree_remove roots id).2.
Proof using Htree Htree' Hsame Hshows.
  intros Hb Hgone Hleaf. destruct (plain_located tree id b Htree Hb) as [path Hl].
  pose proof (tree_remove_ok roots id (sh_ok _ _ Hshows)) as Hok. unfold tree_remove in *.
  destruct (tree_take roots id) as [[f roots']|] eqn:E; cbn [fst snd] in *.
  2: { apply tree_take_None in E. destruct E. apply list_elem_of_fmap. exists (mailbox_head id b path). split; [done|]. by eapply shown_head. }
  apply tree_take_Some in E as (Hf&Hin&Hh&Hplaced). split; [done|]. split; [done|].
  destruct (Hplaced None (proj1 (sh_ok _ _ Hshows))) as [_ [parent Hpl]].
  assert (f_head f ∈ heads roots) as Hfh by (by apply list_elem_of_fmap_2).
  assert (f_path f = path) as Hpath.
  { destruct (shown_id _ _ Hshows _ Hfh) as (?&_&Hlf&_). change (fh_id (f_head f)) with (f_id f) in Hlf. rewrite Hf in Hlf.
    by eapply located_fun. }
  assert (forall h, h ∈ heads roots' <-> h ∈ heads roots /\ fh_id h <> id) as Hheads.
  { pose proof (proj2 (sh_ok _ _ Hshows)) as Hnd. rewrite Hh, fmap_app in Hnd. apply NoDup_app in Hnd as (_&Hd&_). intros h. split.
    - intros Hh'. split; [rewrite Hh; set_solver|]. intros E. apply (Hd (fh_id h)); [|by apply list_elem_of_fmap_2].
      rewrite E, <- Hf, heads_one. by left.
    - intros [Hr Hne]. pose proof Hr as Hr'. rewrite Hh in Hr. apply elem_of_app in Hr as [Hr|]; [|done]. destruct Hne.
      eapply shown_leaf; [exact Htree|done..|]. rewrite <- Hpath. by eapply placed_within. }
  assert (forall x, x <> id -> bt_get x tree' = bt_get x tree) as Hs by done.
  intros h. rewrite Hheads, (sh_heads _ _ Hshows). split.
  - intros [(x&bx&q&Hx&Hq&->) Hne]. cbn in Hne. exists x, bx, q. split_and!; [by rewrite Hs| |done].
    apply (located_transfer (fun y => y <> id) tree); [|done..]. intros y yb Hy Hyb. split; [exists yb; by rewrite Hs|].
    intros p Hp ->. by eapply Hleaf.
  - intros (x&bx&q&Hx&Hq&->). assert (x <> id) as Hne by congruence. split; [|done]. exists x, bx, q. split_and!; [by rewrite <- Hs| |done].
    apply (located_transfer (fun y => y <> id) tree'); [|done..]. intros y yb Hy Hyb. split; [exists yb; by rewrite <- Hs|].
    intros p Hp ->. eapply Hleaf; [|exact Hp]. by rewrite <- Hs.
Qed.

(** *** A changed subscription *)
Lemma shows_subscribe b subscribed :
  bt_get id tree = Some b -> bt_get id tree' = Some (with_is_subscribed (Some subscribed) b) ->
  (set_subscribed roots id subscribed).1 = true /\ shows tree' (set_subscribed roots id subscribed).2.
Proof using Htree Hsame Hshows.
  intros Hb Hb'. destruct (plain_located tree id b Htree Hb) as [path Hl].
  assert (forall x q, located tree x q <-> located tree' x q) as Hlocated.
  { intros x q. split; intros Hx; (eapply (located_transfer (fun _ => True)); [|exact Hx|done]); intros y yb _ Hy; (split; [|done]);
      (destruct (decide (y = id)) as [->|Hne]; [|exists yb; pose proof (Hsame y Hne); intuition congruence]).
    - rewrite Hb in Hy. injection Hy as <-. by eexists.
    - rewrite Hb' in Hy. injection Hy as <-. by exists b. }
  pose proof (set_subscribed_ok roots id subscribed (sh_ok _ _ Hshows)) as Hok. unfold set_subscribed in *.
  destruct (edit_tree _ _ roots) as [roots'|] eqn:E; cbn [fst snd] in *.
  2: { apply edit_tree_None in E. destruct (shown_folder _ _ Hshows id b path Hb Hl) as (f&_&Hf&Ef). rewrite Forall_forall in E.
    specialize (E f Hf). unfold f_id in E. rewrite Ef in E. by rewrite bool_decide_eq_false in E. }
  split; [done|]. split; [done|]. apply edit_tree_heads in E as (g&rest&Hg%bool_decide_eq_true&Hh&Hh').
  pose proof (proj2 (sh_ok _ _ Hshows)) as Hnd. rewrite heads_one in Hh, Hh'. cbn [f_head f_children] in Hh'.
  rewrite Hh, <- app_comm_cons, fmap_cons, NoDup_cons in Hnd. destruct Hnd as [Hnd _]. change (fh_id (f_head g)) with (f_id g) in Hnd.
  assert (f_head g = mailbox_head id b path) as Eg.
  { eapply (shown_same _ _ Hshows); [rewrite Hh; by left|by eapply shown_head|by rewrite <- Hg]. }
  assert (forall h, h ∈ heads (f_children g) ++ rest <-> h ∈ heads roots /\ fh_id h <> id) as Hrest.
  { intros h. rewrite Hh, <- app_comm_cons, elem_of_cons. split.
    - intros Hin. split; [by right|]. intros Ei. apply Hnd. rewrite Hg, <- Ei. by apply list_elem_of_fmap_2.
    - intros [[->|?] Hne]; [|done]. by rewrite Eg in Hne. }
  intros h. rewrite Hh', <- app_comm_cons, elem_of_cons, Hrest, (sh_heads _ _ Hshows), Eg. split.
  - intros [->|[(x&bx&q&Hx&Hq&->) Hne]]; cbn in *.
    + eexists id, _, path. split_and!; [done|by apply Hlocated|done].
    + exists x, bx, q. split_and!; [by rewrite Hsame|by apply Hlocated|done].
  - intros (x&bx&q&Hx&Hq%Hlocated&->). destruct (decide (x = id)) as [->|Hne].
    + left. rewrite Hb' in Hx. injection Hx as <-. by rewrite (located_fun _ _ _ _ Hq Hl).
    + right. split; [|done]. exists x, bx, q. by rewrite <- Hsame.
Qed.

(** *** A mailbox moved *)
Lemma located_new b name parent path :
  bt_get id tree = Some b -> bt_get id tree' = Some (with_place name parent b) -> destined tree parent name path -> located tree' id path.
Proof using Htree Htree' Hsame.
  intros Hb Hb' Hpath. destruct (plain_located tree' id _ Htree' Hb') as [path' Hl']. destruct (plain_located tree id b Htree Hb) as [old Hold].
  pose proof Hl' as (b'&parent'&E&Epath&Hparent)%located_inv. rewrite Hb' in E. injection E as <-. cbn [mb_parent_id mb_name with_place] in *.
  destruct parent as [p|]; cbn in Hpath; [|subst parent'; by subst].
  destruct Hparent as (above'&->&Ha'), Hpath as (above&Ha&->).
  destruct (within above old) eqn:Hw.
  - exfalso. pose proof (located_moved tree tree' id old path' p above Hsame (plain_siblings _ Htree) Hold Hl' Ha Hw) as Hm.
    pose proof (located_fun _ _ _ _ Hm Ha') as E%(f_equal length). subst path'. cbn [path_join] in E. rewrite !length_app in E. cbn [length] in E. lia.
  - pose proof (located_elsewhere tree tree' id old p above Hsame Hold Ha Hw) as Hm.
    by rewrite <- (located_fun _ _ _ _ Hm Ha') in Epath; subst.
Qed.

(** The folders below the moved one, and the others. *)
Lemma shown_apart f rest old :
  tree_by_id roots id = Some f -> f_path f = old -> heads roots ≡ₚ heads [f] ++ rest ->
  (forall h, h ∈ heads [f] <-> h ∈ heads roots /\ within (fh_path h) old = true) /\
  (forall h, h ∈ rest <-> h ∈ heads roots /\ within (fh_path h) old = false) /\
  (forall h, h ∈ heads (f_children f) <-> h ∈ heads [f] /\ fh_id h <> id).
Proof using Hshows.
  intros [Hin Hid]%tree_by_id_Some Hpath Hh. destruct (sh_ok _ _ Hshows) as [Hok Hnd]. rewrite Hh, fmap_app in Hnd.
  apply NoDup_app in Hnd as (Hndf&Hd&_).
  assert (forall h, h ∈ heads [f] <-> h ∈ heads roots /\ within (fh_path h) old = true) as Hsub.
  { intros h. rewrite <- Hpath. split; [|intros [??]; by eapply within_subtree]. intros Hhf. split; [rewrite Hh, elem_of_app; by left|].
    destruct (tree_take roots id) as [[x roots1]|] eqn:Et.
    2: { apply tree_take_None in Et. destruct Et. apply elem_of_heads_id. eauto. }
    apply tree_take_Some in Et as (Hx&Hxin&_&Hplaced). destruct (Hplaced _ Hok) as [_ [q Hq]].
    assert (x = f) as ->; [|by eapply placed_within]. pose proof (tree_by_id_unique roots x (sh_ok _ _ Hshows) Hxin) as E.
    pose proof (tree_by_id_unique roots f (sh_ok _ _ Hshows) Hin) as E'. congruence. }
  split_and!; [done| |].
  - intros h. split.
    + intros Hr. assert (h ∈ heads roots) as Hroots by (rewrite Hh, elem_of_app; by right). split; [done|]. apply not_true_iff_false. intros Hw.
      eapply Hd; [apply list_elem_of_fmap_2, Hsub; done|by apply list_elem_of_fmap_2].
    + intros [Hr Hw]. pose proof Hr as Hr'. rewrite Hh in Hr. apply elem_of_app in Hr as [[_ Hf]%Hsub|]; [congruence|done].
  - intros h. rewrite heads_one in *. rewrite fmap_cons, NoDup_cons in Hndf. destruct Hndf as [Hndf _]. rewrite elem_of_cons. split.
    + intros Hc. split; [by right|]. intros E. apply Hndf. change (fh_id (f_head f)) with (f_id f). rewrite Hid, <- E. by apply list_elem_of_fmap_2.
    + intros [[->|?] Hne]; [|done]. by destruct Hne.
Qed.

Lemma within_moved q path old : within q path = true -> within (old ++ drop (length path) q) old = true.
Proof.
  intros [->|[r ->]]%within_spec; apply within_spec; [left; by rewrite drop_all, app_nil_r|right; exists r; by rewrite drop_app_length].
Qed.

(** The server takes no move that the tree refuses. *)
Lemma may_move_new b name parent path f old :
  bt_get id tree' = Some (with_place name parent b) -> destined tree parent name path ->
  located tree id old -> located tree' id path -> f_path f = old -> may_move roots f path.
Proof using Htree Hsame Hshows.
  intros Hb' Hdest Hold Hnew Hpath. intros above Ha. rewrite Hpath. destruct parent as [p|]; cbn [destined] in Hdest.
  2: { subst path. rewrite path_split_join in Ha by apply encode_component_plain. done. }
  destruct Hdest as (above'&Hl&->). rewrite path_split_join in Ha by apply encode_component_plain. injection Ha as ->.
  split; [by eapply shown_parent|]. apply not_true_iff_false. intros Hw.
  pose proof (located_moved tree tree' id old _ p above Hsame (plain_siblings _ Htree) Hold Hnew Hl Hw) as Hm.
  destruct (located_parent tree' id _ p _ Hb' eq_refl Hnew) as (above2&Ha2&[E _]%path_join_inj); [|apply encode_component_plain..].
  injection E as <-. pose proof (located_fun _ _ _ _ Hm Ha2) as E%(f_equal length). cbn [path_join] in E. rewrite !length_app in E. cbn [length] in E. lia.
Qed.

Lemma shows_rename b name parent path :
  bt_get id tree = Some b -> bt_get id tree' = Some (with_place name parent b) -> destined tree parent name path ->
  (tree_rename roots id path name).1 = true /\ shows tree' (tree_rename roots id path name).2.
Proof using Htree Htree' Hsame Hshows.
  intros Hb Hb' Hdest. pose proof (located_new b name parent path Hb Hb' Hdest) as Hnew. destruct (plain_located tree id b Htree Hb) as [old Hold].
  destruct (shown_folder tree roots Hshows id b old Hb Hold) as (f&Hf&Hin&Ehead).
  assert (f_path f = old) as Hpath by (unfold f_path; by rewrite Ehead).
  assert (may_move roots f path) as Hmay by (by eapply may_move_new).
  pose proof (tree_rename_ok roots id path name (sh_ok _ _ Hshows)) as Hok.
  destruct (tree_rename_spec roots id path name f (sh_ok _ _ Hshows) Hf Hmay) as (rest&roots'&E&_&Hh&Hh'). rewrite E in *.
  split; [done|]. split; [done|]. rewrite Hpath in Hh'. cbn [snd] in *. clear E Hok Hmay.
  destruct (shown_apart f rest old Hf Hpath Hh) as (Hsub&Hrest&Hbelow).
  intros h. rewrite Hh', elem_of_app, list_elem_of_fmap, list_elem_of_filter, Hrest. unfold renamed. rewrite heads_one. cbn [f_head f_children]. split.
  - intros [(h0&->&[->|Hc]%elem_of_cons)|[_ [Hr Hw]]].
    + exists id, (with_place name parent b), path. split_and!; [done..|]. by rewrite Ehead, moved_self.
    + apply Hbelow in Hc as [[Hr Hw]%Hsub Hne]. apply (shown_id _ _ Hshows) in Hr as (bx&Hx&Hl&E).
      exists (fh_id h0), bx, (path ++ drop (length old) (fh_path h0)). split_and!; [by rewrite Hsame| |by rewrite E].
      by eapply located_moved; [|apply plain_siblings|..].
    + apply (shown_id _ _ Hshows) in Hr as (bx&Hx&Hl&E). exists (fh_id h), bx, (fh_path h). split_and!; [|by eapply located_elsewhere|done].
      rewrite Hsame; [done|]. intros Ei. rewrite Ei in Hl. by rewrite (located_fun _ _ _ _ Hl Hold), within_refl in Hw.
  - intros (x&bx&q&Hx&Hq&->). destruct (decide (x = id)) as [->|Hne].
    { left. eexists. split; [|by left]. rewrite Hb' in Hx. injection Hx as <-. by rewrite Ehead, moved_self, (located_fun _ _ _ _ Hq Hnew). }
    rewrite Hsame in Hx by done. destruct (plain_located tree x bx Htree Hx) as [q0 Hq0]. pose proof (shown_head _ _ Hshows x bx q0 Hx Hq0) as Hh0.
    destruct (within q0 old) eqn:Hw.
    + left. exists (mailbox_head x bx q0). split; [|right; by apply Hbelow; split; [apply Hsub|]].
      pose proof (located_moved tree tree' id old path x q0 Hsame (plain_siblings _ Htree) Hold Hnew Hq0 Hw) as Hm.
      by rewrite (located_fun _ _ _ _ Hq Hm).
    + right. pose proof (located_elsewhere tree tree' id old x q0 Hsame Hold Hq0 Hw) as Hm. rewrite (located_fun _ _ _ _ Hm Hq) in *.
      split; [|done]. unfold outside. cbn. apply not_true_iff_false. intros Hwq.
      pose proof (located_moved tree' tree id path old x q (same_but_sym _ _ _ Hsame) (plain_siblings _ Htree') Hnew Hold Hq Hwq) as Hm'.
      rewrite (located_fun _ _ _ _ Hq0 Hm') in Hw. by rewrite within_moved in Hw.
Qed.
End change.
