(* ===== verification/MailFolders.v ===== *)
(** The folder operations of the mail client: [Mailbox/get] and [Mailbox/set] of the client
    (jmap-client/src/mail.rs) and the listing, create, delete, rename and subscription of
    jmap-mail-sync/src/lib.rs on them. *)

From Stdlib Require Import Ascii String.
From stdpp Require Import prelude strings gmap.
From S2P Require Import Prelude BTree Text Strings Json Wire Proto MailboxWire SetMethod Changes Path FolderTree FolderBuild SetChunk FolderShared MockQuery MailListing.

Local Open Scope rust_scope.

(** ** The client *)
Class FolderClient (W : Type) := {
  client_mailbox_get : Id -> W -> result (GetResponse Mailbox) Error * W;
  client_mailbox_set : W -> SetRequest Mailbox -> W * result (SetResponse Mailbox) Error;
  client_mailbox_changes : W -> Id -> State -> W * result ChangeSet Error;
}.

Definition NEW : text := lit "new".

Definition with_created_defaults (requested : Mailbox) (created : Mailbox) : Mailbox :=
  {| mb_id := mb_id created;
     mb_name := if bool_decide (mb_name created = []) then trim (mb_name requested) else trim (mb_name created);
     mb_parent_id := match mb_parent_id created with None => mb_parent_id requested | p => p end;
     mb_role := match mb_role created with None => mb_role requested | r => r end;
     mb_sort_order := match mb_sort_order created with None => mb_sort_order requested | o => o end;
     mb_total_emails := mb_total_emails created; mb_unread_emails := mb_unread_emails created;
     mb_total_threads := mb_total_threads created; mb_unread_threads := mb_unread_threads created;
     mb_is_subscribed := match mb_is_subscribed created with None => mb_is_subscribed requested | s => s end;
     mb_share_with := mb_share_with created; mb_my_rights := mb_my_rights created; mb_extra := mb_extra created |}.

(** [FolderUpdate]. *)
Inductive FolderUpdate :=
| FolderUnchanged (state : State)
| FolderRebuilt (state : State) (tree : FolderTree).

Definition created_folder_name (server_name requested_name : text) : text :=
  if bool_decide (trim server_name = []) then requested_name else server_name.

(** A refusal with [notFound] is a missing folder. *)
Definition folder_error (mailbox : Id) (error : Error) : SyncError :=
  match error with
  | Set_ set_error => if decide (se_error_type set_error = NOT_FOUND) then NoSuchFolder mailbox else Client error
  | _ => Client error
  end.

(** What a create asks for. *)
Definition requested_mailbox (parent : option FolderInfo) (name : text) : Mailbox :=
  with_place name (f_id <$> parent) (with_is_subscribed (Some true) (mailbox_new name)).

(** The folder of a new mailbox. *)
Definition created_folder (parent : option FolderInfo) (name : text) (id : Id) (created : Mailbox) : FolderInfo :=
  let name := created_folder_name (mb_name created) name in
  Folder {| fh_id := id;
            fh_path := path_join (f_path <$> parent) (encode_component name);
            fh_display_name := name;
            fh_role := None;
            fh_total := 0;
            fh_unread := 0;
            fh_subscribed := default true (mb_is_subscribed created);
            fh_may_add_items := None;
            fh_account_id := None |} [].

Section folders.
Context {W : Type} `{!FolderClient W}.
Variable to_lowercase : text -> text.
Variable account_id : Id.

(** *** jmap-client/src/mail.rs *)
Definition mailbox_create (w : W) (mailbox : Mailbox) : W * result Mailbox Error :=
  let '(w, response) := client_mailbox_set w (Build_SetRequest account_id None (Some [(NEW, mailbox)]) None None) in
  (w, let? response := response in
      let? created := expect_created response NEW in
      Ok (with_created_defaults mailbox created)).

Definition mailbox_update (w : W) (id : Id) (patch : Value) : W * result unit Error :=
  let '(w, response) := client_mailbox_set w (Build_SetRequest account_id None None (Some [(id, patch)]) None) in
  (w, let? response := response in expect_updated response id).

Definition mailbox_destroy (w : W) (id : Id) : W * result unit Error :=
  let '(w, response) := client_mailbox_set w (Build_SetRequest account_id None None None (Some [id])) in
  (w, let? response := response in expect_destroyed response id).

(** *** jmap-mail-sync/src/lib.rs *)
Definition sync_folder_tree (w : W) : W * result (State * FolderTree) SyncError :=
  let '(r, w) := folder_tree client_mailbox_get account_id w in (w, r).

Definition rebuild (w : W) : W * result FolderUpdate SyncError :=
  let '(w, r) := sync_folder_tree w in
  (w, let? listing := r in Ok (FolderRebuilt listing.1 listing.2)).

Definition folder_tree_since (w : W) (since : State) : W * result FolderUpdate SyncError :=
  match client_mailbox_changes w account_id since with
  | (w, Ok changes) => if changeset_is_empty changes then (w, Ok (FolderUnchanged (cs_new_state changes))) else rebuild w
  | (w, Err error) => if needs_full_resync to_lowercase error then rebuild w else (w, Err (Client error))
  end.

Definition sync_set_subscribed (w : W) (mailbox : Id) (subscribed : bool) : W * result unit SyncError :=
  let '(w, r) := mailbox_update w mailbox (Object [(lit "isSubscribed", Bool subscribed)]) in
  (w, map_err (folder_error mailbox) r).

Definition sync_create_folder (w : W) (parent : option FolderInfo) (name : text) : W * result FolderInfo SyncError :=
  let '(w, r) := mailbox_create w (requested_mailbox parent name) in
  (w, let? created := map_err Client r in
      let? id := ok_or (mb_id created) (sync_protocol (lit "Mailbox/set created a mailbox without an id")) in
      Ok (created_folder parent name id created)).

Definition sync_delete_folder (w : W) (mailbox : Id) : W * result unit SyncError :=
  let '(w, r) := mailbox_destroy w mailbox in
  (w, map_err (folder_error mailbox) r).

Definition sync_rename_folder (w : W) (folder : Id) (parent : option FolderInfo) (name : text) : W * result text SyncError :=
  let '(w, r) := mailbox_update w folder (Object (place_patch name (f_id <$> parent))) in
  (w, let? _ := map_err (folder_error folder) r in
      Ok (path_join (f_path <$> parent) (encode_component name))).
End folders.
