(* ===== verification/FolderDisk.v ===== *)
(** The folder tree in the cache file ([folder_tree_to_json] and [folder_tree_from_json] of
    jmap-mail-sync/src/folder.rs): the derived JSON form, and what of it comes back through
    serde_json, whose reader refuses a text nested too deep. *)

From Stdlib Require Import Ascii String.
From stdpp Require Import prelude strings.
From S2P Require Import Prelude BTree Text Strings Json Wire Proto MailboxWire FolderTree FolderForest FolderBuild.

Local Open Scope rust_scope.

(** ** The derived form *)
Definition role_name (role : FolderRole) : text :=
  match role with
  | Inbox => lit "Inbox"
  | Drafts => lit "Drafts"
  | Sent => lit "Sent"
  | Trash => lit "Trash"
  | Junk => lit "Junk"
  | Archive => lit "Archive"
  end.

Definition role_of_name (name : text) : option FolderRole :=
  find (fun role => bool_decide (role_name role = name)) [Inbox; Drafts; Sent; Trash; Junk; Archive].

Definition role_codec : codec FolderRole :=
  {| enc := fun role => String (role_name role); dec := fun v => let! name := as_str v in role_of_name name |}.

(** An [Option] is written as null or as its value. *)
Definition option_value {A} (c : codec A) (o : option A) : Value := match o with Some a => enc c a | None => Null end.

Definition head_fields (h : FolderHead) : list (text * option Value) :=
  [(lit "id", Some (String (fh_id h)));
   (lit "path", Some (String (fh_path h)));
   (lit "display_name", Some (String (fh_display_name h)));
   (lit "role", Some (option_value role_codec (fh_role h)));
   (lit "total", Some (enc u32_codec (fh_total h)));
   (lit "unread", Some (enc u32_codec (fh_unread h)));
   (lit "subscribed", Some (Bool (fh_subscribed h)));
   (lit "may_add_items", Some (option_value bool_codec (fh_may_add_items h)));
   (lit "account_id", Some (option_value str_codec (fh_account_id h)))].

Fixpoint folder_to_value (f : FolderInfo) : Value :=
  match f with
  | Folder h children => Object (object_of (head_fields h ++ [(lit "children", Some (Array (folder_to_value <$> children)))]) [])
  end.

Definition head_from_members (m : btmap text Value) : option FolderHead :=
  let! id_ := read_field str_codec (lit "id") m in
  let! path_ := read_field str_codec (lit "path") m in
  let! display_name_ := read_field str_codec (lit "display_name") m in
  let! role_ := read_opt role_codec (lit "role") m in
  let! total_ := read_field u32_codec (lit "total") m in
  let! unread_ := read_field u32_codec (lit "unread") m in
  let! subscribed_ := read_field bool_codec (lit "subscribed") m in
  let! may_add_items_ := read_opt bool_codec (lit "may_add_items") m in
  let! account_id_ := read_opt str_codec (lit "account_id") m in
  Some {| fh_id := id_; fh_path := path_; fh_display_name := display_name_; fh_role := role_; fh_total := total_; fh_unread := unread_;
          fh_subscribed := subscribed_; fh_may_add_items := may_add_items_; fh_account_id := account_id_ |}.

(** The recursion goes down the nesting of the value, which bounds it. *)
Fixpoint folder_from_value (fuel : nat) (v : Value) : option FolderInfo :=
  match fuel, v with
  | S fuel, Object m =>
      let! h := head_from_members m in
      let! items := read_field {| enc := Array; dec := fun v => match v with Array l => Some l | _ => None end |} (lit "children") m in
      let! children := mapM (folder_from_value fuel) items in
      Some (Folder h children)
  | _, _ => None
  end.

(** How deep the arrays and objects of a value are nested. *)
Fixpoint nesting (v : Value) : nat :=
  match v with
  | Array l => S (max_list (nesting <$> l))
  | Object m => S (max_list ((fix go (m : btmap text Value) : list nat := match m with [] => [] | e :: m => nesting e.2 :: go m end) m))
  | _ => 0
  end.

Definition persisted_to_value (state : State) (tree : FolderTree) : Value :=
  Object (object_of [(lit "state", Some (String state));
                     (lit "tree", Some (Object (object_of [(lit "roots", Some (Array (folder_to_value <$> tree)))] [])))] []).

Definition persisted_from_value (v : Value) : option (State * FolderTree) :=
  match v with
  | Object m =>
      let! state := read_field str_codec (lit "state") m in
      let! tree := bt_get (lit "tree") m in
      let! roots := value_get tree (lit "roots") in
      match roots with
      | Array items => let! roots := mapM (folder_from_value (nesting v)) items in Some (state, roots)
      | _ => None
      end
  | _ => None
  end.

Section file.
(** The text of a file, and serde_json's [to_string] and [from_str] between it and a value. *)
Context {File : Type}.
Variable to_string : Value -> File.
Variable from_str : File -> option Value.

Definition folder_tree_to_json (state : State) (tree : FolderTree) : File := to_string (persisted_to_value state tree).

Definition folder_tree_from_json (json : File) : option (State * FolderTree) :=
  let! v := from_str json in persisted_from_value v.
End file.

(** ** Reading back *)
Lemma role_roundtrip role : role_of_name (role_name role) = Some role.
Proof. by destruct role; vm_compute. Qed.

Lemma role_codec_ok : codec_ok role_codec (fun _ => True).
Proof. split; [|done..]. intros role _. cbn. apply role_roundtrip. Qed.

Definition folder_head_ok (h : FolderHead) : Prop := (fh_total h <= u32_max)%N /\ (fh_unread h <= u32_max)%N.

(** A struct without flattened members: each field is found under its name. *)
Lemma members_get (fields : list (text * option Value)) name v :
  NoDup fields.*1 -> (name, Some v) ∈ fields -> bt_get name (object_of fields []) = Some v.
Proof.
  intros Hn Hin. unfold object_of. rewrite app_nil_r.
  assert (NoDup (omap (fun f : text * option Value => (fun v => (f.1, v)) <$> f.2) fields).*1) as Hn'.
  { clear Hin. induction fields as [|[k [x|]] fields IH]; cbn in *; [constructor| |]; apply NoDup_cons in Hn as [Hk Hn]; [|by apply IH].
    constructor; [|by apply IH]. intros (e&->&(f&Hf&He)%list_elem_of_omap)%list_elem_of_fmap. apply fmap_Some in He as (?&_&->). cbn in Hk.
    apply Hk. by apply list_elem_of_fmap_2. }
  rewrite bt_get_of_list by done. apply list_elem_of_omap. by exists (name, Some v).
Qed.

(** One of the listed fields. *)
Ltac listed_field H := first [done|apply H; repeat first [by left|right]].

Lemma read_member {A} (c : codec A) ok name m a : codec_ok c ok -> ok a -> bt_get name m = Some (enc c a) -> read_field c name m = Some a.
Proof. intros Hc Ha Hm. unfold read_field. rewrite Hm. cbn. by apply (enc_dec _ _ Hc). Qed.

Lemma read_option {A} (c : codec A) ok name m o :
  codec_ok c ok -> (forall a, o = Some a -> ok a) -> bt_get name m = Some (option_value c o) -> read_opt c name m = Some o.
Proof.
  intros Hc Ho Hm. unfold read_opt. rewrite Hm. destruct o as [a|]; [|done]. cbn [option_value].
  pose proof (enc_nonnull _ _ Hc a) as Hn. pose proof (enc_dec _ _ Hc a (Ho a eq_refl)) as He. by destruct (enc c a); [|rewrite He..].
Qed.

Definition folder_members (f : FolderInfo) : list (text * option Value) :=
  head_fields (f_head f) ++ [(lit "children", Some (Array (folder_to_value <$> f_children f)))].

Lemma folder_value f : folder_to_value f = Object (object_of (folder_members f) []).
Proof. by destruct f. Qed.

Lemma head_reads f : folder_head_ok (f_head f) -> head_from_members (object_of (folder_members f) []) = Some (f_head f).
Proof.
  destruct f as [h children]. intros [Ht Hu]. cbn [f_head] in *. unfold head_from_members.
  set (m := object_of _ []).
  assert (forall name v, (name, Some v) ∈ head_fields h -> bt_get name m = Some v) as Hm.
  { intros name v Hin. apply members_get; [by_decide|]. apply elem_of_app. by left. }
  rewrite (read_member str_codec _ (lit "id") m (fh_id h) str_codec_ok I) by listed_field Hm. cbn [mbind option_bind].
  rewrite (read_member str_codec _ (lit "path") m (fh_path h) str_codec_ok I) by listed_field Hm. cbn [mbind option_bind].
  rewrite (read_member str_codec _ (lit "display_name") m (fh_display_name h) str_codec_ok I) by listed_field Hm. cbn [mbind option_bind].
  rewrite (read_option role_codec _ (lit "role") m (fh_role h) role_codec_ok) by listed_field Hm. cbn [mbind option_bind].
  rewrite (read_member u32_codec _ (lit "total") m (fh_total h) u32_codec_ok Ht) by listed_field Hm. cbn [mbind option_bind].
  rewrite (read_member u32_codec _ (lit "unread") m (fh_unread h) u32_codec_ok Hu) by listed_field Hm. cbn [mbind option_bind].
  rewrite (read_member bool_codec _ (lit "subscribed") m (fh_subscribed h) bool_codec_ok I) by listed_field Hm. cbn [mbind option_bind].
  rewrite (read_option bool_codec _ (lit "may_add_items") m (fh_may_add_items h) bool_codec_ok) by listed_field Hm. cbn [mbind option_bind].
  rewrite (read_option str_codec _ (lit "account_id") m (fh_account_id h) str_codec_ok) by listed_field Hm. cbn [mbind option_bind].
  by destruct h.
Qed.

(** ** Nesting *)
Fixpoint folder_depth (f : FolderInfo) : nat := match f with Folder _ children => S (max_list (folder_depth <$> children)) end.

Definition tree_depth (tree : FolderTree) : nat := max_list (folder_depth <$> tree).

Lemma max_list_le l n : max_list l <= n <-> Forall (fun k => k <= n) l.
Proof. induction l as [|k l IH]; cbn; [split; [constructor|lia]|]. rewrite Forall_cons, <- IH. lia. Qed.

Lemma max_list_ext l l' : (forall n, n ∈ l <-> n ∈ l') -> max_list l = max_list l'.
Proof.
  intros H. apply Nat.le_antisymm; apply max_list_le, Forall_forall; intros n Hn%H; by apply max_list_elem_of_le.
Qed.

Lemma nesting_object m : nesting (Object m) = S (max_list ((fun e => nesting e.2) <$> m)).
Proof. reflexivity. Qed.

Lemma nesting_members (fields : list (text * Value)) :
  NoDup fields.*1 -> nesting (Object (object_of (prod_map id Some <$> fields) [])) = S (max_list ((fun e => nesting e.2) <$> fields)).
Proof.
  intros Hn. rewrite nesting_object. f_equal. unfold object_of. rewrite app_nil_r.
  assert (omap (fun f : text * option Value => (fun v => (f.1, v)) <$> f.2) (prod_map id Some <$> fields) = fields) as ->.
  { clear Hn. induction fields as [|[k v] fields IH]; [done|]. rewrite fmap_cons. cbn [omap list_omap]. cbn. by rewrite IH. }
  apply max_list_ext. intros n. rewrite !list_elem_of_fmap. split; intros ([k v]&->&He); exists (k, v).
  - split; [done|]. by apply elem_of_bt_of_list.
  - split; [done|]. apply bt_get_Some_elem. by apply bt_get_of_list.
Qed.

Lemma flat_nesting {A} (c : codec A) o : (forall a, nesting (enc c a) = 0) -> nesting (option_value c o) = 0.
Proof. intros H. by destruct o; [apply H|]. Qed.

Lemma folder_nesting f : nesting (folder_to_value f) = 2 * folder_depth f.
Proof.
  induction f as [h children IH] using FolderInfo_ind. cbn [folder_to_value folder_depth].
  change (head_fields h ++ _) with (prod_map id Some <$> ([(lit "id", String (fh_id h)); (lit "path", String (fh_path h)); (lit "display_name", String (fh_display_name h));
    (lit "role", option_value role_codec (fh_role h)); (lit "total", enc u32_codec (fh_total h)); (lit "unread", enc u32_codec (fh_unread h));
    (lit "subscribed", Bool (fh_subscribed h)); (lit "may_add_items", option_value bool_codec (fh_may_add_items h));
    (lit "account_id", option_value str_codec (fh_account_id h)); (lit "children", Array (folder_to_value <$> children))])).
  rewrite nesting_members by by_decide. cbn [fmap list_fmap snd max_list].
  rewrite !flat_nesting by done. cbn [nesting enc u32_codec].
  assert (nesting <$> (folder_to_value <$> children) = (fun n => 2 * n) <$> (folder_depth <$> children)) as ->.
  { induction IH as [|f l Hf _ IHl]; [done|]. by rewrite !fmap_cons, Hf, IHl. }
  assert (forall l, max_list ((fun n => 2 * n) <$> l) = 2 * max_list l) as ->.
  { induction l as [|n l IHl]; [done|]. rewrite fmap_cons. change (max_list ((2 * n) :: ((fun n => 2 * n) <$> l)) = 2 * (n `max` max_list l)). cbn [max_list]. rewrite IHl. unfold Datatypes.id. lia. }
  unfold Datatypes.id. lia.
Qed.

Lemma persisted_nesting state tree : nesting (persisted_to_value state tree) = 3 + 2 * tree_depth tree.
Proof.
  unfold persisted_to_value, tree_depth.
  pose proof (nesting_members [(lit "roots", Array (folder_to_value <$> tree))] ltac:(by_decide)) as Hr. cbn [fmap list_fmap prod_map fst snd] in Hr.
  pose proof (nesting_members [(lit "state", String state); (lit "tree", Object (object_of [(lit "roots", Some (Array (folder_to_value <$> tree)))] []))]
    ltac:(by_decide)) as Hp. cbn [fmap list_fmap prod_map fst snd] in Hp.
  unfold Datatypes.id in Hr, Hp. rewrite Hp, Hr. cbn [max_list_with nesting].
  assert (max_list (nesting <$> (folder_to_value <$> tree)) = 2 * max_list (folder_depth <$> tree)) as ->; [|lia]. clear Hr Hp.
  induction tree as [|f l IH]; [done|]. rewrite !fmap_cons. cbn [max_list_with]. rewrite folder_nesting, IH. unfold Datatypes.id. lia.
Qed.

(** A folder is read back with fuel for its depth. *)
Lemma folder_reads fuel f :
  Forall folder_head_ok (heads [f]) -> folder_depth f <= fuel -> folder_from_value fuel (folder_to_value f) = Some f.
Proof.
  revert fuel. induction f as [h children IH] using FolderInfo_ind. intros fuel Hok Hd. rewrite heads_one in Hok.
  apply Forall_cons in Hok as [Hh Hc]. cbn [f_head f_children folder_depth] in *. destruct fuel as [|fuel]; [lia|].
  rewrite folder_value. cbn [folder_from_value]. rewrite head_reads by done. cbn [mbind option_bind f_head].
  unfold read_field. rewrite (members_get _ (lit "children") (Array (folder_to_value <$> children))); [|by_decide|].
  2: { unfold folder_members. apply elem_of_app. right. by left. }
  cbn [mbind option_bind dec]. assert (mapM (folder_from_value fuel) (folder_to_value <$> children) = Some children) as ->; [|done].
  apply mapM_enc. apply le_S_n, max_list_le in Hd. clear Hh.
  induction IH as [|f l Hf _ IHl]; [constructor|]. rewrite heads_cons' in Hc. apply Forall_app in Hc as [Hcf Hcl]. rewrite fmap_cons in Hd.
  apply Forall_cons in Hd as [Hdf Hdl]. constructor; [by apply Hf|by apply IHl].
Qed.

Lemma persisted_reads state tree : Forall folder_head_ok (heads tree) -> persisted_from_value (persisted_to_value state tree) = Some (state, tree).
Proof.
  intros Hok. pose proof (persisted_nesting state tree) as Hn. unfold persisted_from_value, persisted_to_value in *. set (m := object_of _ []) in *.
  rewrite (read_member str_codec _ (lit "state") m state str_codec_ok I); [|apply members_get; [by_decide|by left]]. cbn [mbind option_bind].
  assert (bt_get (lit "tree") m = Some (Object (object_of [(lit "roots", Some (Array (folder_to_value <$> tree)))] []))) as ->
    by (apply members_get; [by_decide|right; by left]). cbn [mbind option_bind value_get].
  rewrite (members_get _ (lit "roots") (Array (folder_to_value <$> tree))); [|by_decide|by left]. cbn [mbind option_bind].
  assert (mapM (folder_from_value (nesting (Object m))) (folder_to_value <$> tree) = Some tree) as ->; [|done].
  apply mapM_enc, Forall_forall. intros f Hf. apply folder_reads.
  - apply Forall_forall. intros h Hh. rewrite Forall_forall in Hok. apply Hok. unfold heads in *. rewrite list_elem_of_fmap in Hh |- *.
    destruct Hh as (g&->&Hg). exists g. split; [done|]. apply elem_of_preorders. exists f. split; [done|].
    rewrite preorders_cons in Hg. by rewrite app_nil_r in Hg.
  - rewrite Hn. assert (folder_depth f <= tree_depth tree); [|lia]. apply max_list_elem_of_le. by apply list_elem_of_fmap_2.
Qed.

Section roundtrip.
Context {File : Type} (to_string : Value -> File) (from_str : File -> option Value).

(** serde_json reads back what it wrote, up to its recursion limit of 128. *)
Hypothesis recursion_limit : forall v, from_str (to_string v) = if decide (nesting v < 128) then Some v else None.

Lemma folder_cache_reads state tree :
  Forall folder_head_ok (heads tree) ->
  folder_tree_from_json from_str (folder_tree_to_json to_string state tree) = if decide (tree_depth tree <= 62) then Some (state, tree) else None.
Proof using recursion_limit.
  intros Hok. unfold folder_tree_from_json, folder_tree_to_json. rewrite recursion_limit, persisted_nesting.
  case_decide; case_decide; try lia; [|done]. cbn [mbind option_bind]. by apply persisted_reads.
Qed.
End roundtrip.
