(* ===== verification/FolderStore.v ===== *)
(** The folder listing that the mail store holds (jmap-mail/src/store.rs): [folders] with its
    disk cache, the four writes that edit the listing, and what the store's folder vfuncs do
    with them (manage.rs, subscribe.rs, [tree_holding] of folders.rs).

    A request to the server is a step of the world [W]; the listing is a slot of its own, read
    before the request and written after it, so that the two halves of a call can be
    interleaved with other calls. *)

From Stdlib Require Import Ascii String.
From stdpp Require Import prelude strings gmap.
From S2P Require Import Prelude BTree Text Strings Json Wire Proto MailboxWire Path FolderTree FolderEdit FolderBuild FolderChange FolderShared MockQuery MailListing MailFolders FolderDisk.

Local Open Scope rust_scope.

(** ** Errors *)
Inductive SourceError := MissingHost | InvalidHost (host : text) | InsecureTransport (host : text).

Inductive StoreError :=
| Config (e : SourceError)
| Unauthenticated
| StoreClient (e : Error)
| OAuth2 (message : text)
| Disconnected
| NoFolder (path : text)
| NoRole (role : FolderRole)
| NoMessage (uid : text)
| NoPermission (name : text)
| StoreNoIdentity (address : text)
| StoreNoOutgoingFolder
| NoQuota
| NoLocalFile.

(** [From<SyncError> for StoreError]. *)
Definition store_error (e : SyncError) : StoreError :=
  match e with
  | Client e => StoreClient e
  | NoSuchMessage uid => NoMessage uid
  | NoSuchFolder id => NoFolder id
  | NoIdentity address => StoreNoIdentity address
  | NoOutgoingFolder => StoreNoOutgoingFolder
  end.

Fixpoint error_is_unauthorized (e : Error) : bool :=
  match e with
  | Http status _ => bool_decide (status = 401%N)
  | SetPartiallyApplied _ cause => error_is_unauthorized cause
  | _ => false
  end.

Definition sync_is_unauthorized (e : SyncError) : bool :=
  match e with Client error => error_is_unauthorized error | _ => false end.

(** jmap-backend-core/src/retry.rs. *)
Definition retry_once_after {W T E} (attempt : W -> W * result T E) (is_retryable : E -> bool) (refresh : W -> W * bool) (w : W)
  : W * result T E :=
  match attempt w with
  | (w, Err error) =>
      if is_retryable error then
        match refresh w with
        | (w, true) => attempt w
        | (w, false) => (w, Err error)
        end
      else (w, Err error)
  | other => other
  end.

(** ** The listing *)
Record Listing := { lg_state : State; lg_tree : FolderTree; lg_generation : N }.

Definition u64_modulus : N := 18446744073709551616.

Definition wrapping_succ (n : N) : N := ((n + 1) mod u64_modulus)%N.

(** An edit in place: [Arc::make_mut] on the tree, and a new generation. *)
Definition edit_listing (edit : FolderTree -> FolderTree) (l : Listing) : Listing :=
  {| lg_state := lg_state l; lg_tree := edit (lg_tree l); lg_generation := wrapping_succ (lg_generation l) |}.

(** The last part of [folders]: the answer [listing] to a request that started from the
    generation [baseline], if the slot is as it was; what the slot holds else. *)
Definition write_back (baseline : option N) (listing : Listing) (slot : option Listing) : option Listing * Listing :=
  match slot with
  | Some current =>
      if match baseline with Some baseline => negb (bool_decide (lg_generation current = baseline)) | None => true end
      then (slot, current)
      else (Some listing, listing)
  | None => (Some listing, listing)
  end.

(** The store: the account of the live connection, the held listing and what is in the cache
    file. *)
Record JmapStore {File : Type} := { js_connection : option Id; js_folders : option Listing; js_file : option File }.
Arguments JmapStore File : clear implicits.

Section slots.
Context {File : Type}.
Implicit Types st : JmapStore File.

Definition with_folders (folders : option Listing) (st : JmapStore File) : JmapStore File :=
  {| js_connection := js_connection st; js_folders := folders; js_file := js_file st |}.

Definition with_file (file : option File) (st : JmapStore File) : JmapStore File :=
  {| js_connection := js_connection st; js_folders := js_folders st; js_file := file |}.

Definition held_folders (st : JmapStore File) : option FolderTree := lg_tree <$> js_folders st.

(** [store_connection] and [drop_connection]: the listing goes with the old connection. *)
Definition store_connection (account_id : Id) (st : JmapStore File) : JmapStore File :=
  {| js_connection := Some account_id; js_folders := None; js_file := js_file st |}.

Definition drop_connection (st : JmapStore File) : JmapStore File * bool :=
  ({| js_connection := None; js_folders := None; js_file := js_file st |}, bool_decide (is_Some (js_connection st))).

(** [is_subscribed] of subscribe.rs. *)
Definition is_subscribed (st : JmapStore File) (path : text) : bool :=
  default false (let! tree := held_folders st in fh_subscribed ∘ f_head <$> tree_find tree path).
End slots.

Section store.
Context {W File : Type} `{!FolderClient W}.
Variable to_lowercase : text -> text.
(** The OAuth 2.0 refresh. *)
Variable refresh_credentials : W -> W * bool.
(** serde_json between a value and the text of a file, and what is in the cache file after an
    attempt to replace it. *)
Variable to_string : Value -> File.
Variable from_str : File -> option Value.
Variable replace_file : option File -> File -> option File.

Definition retried {T} (attempt : W -> W * result T SyncError) (w : W) : W * result T SyncError :=
  retry_once_after attempt sync_is_unauthorized refresh_credentials w.

Definition hydrate_folders_from_disk (st : JmapStore File) : JmapStore File :=
  match js_folders st with
  | Some _ => st
  | None =>
      match (let! json := js_file st in folder_tree_from_json from_str json) with
      | Some (state, tree) => with_folders (Some {| lg_state := state; lg_tree := tree; lg_generation := 0 |}) st
      | None => st
      end
  end.

Definition persist_folders_to_disk (state : State) (tree : FolderTree) (st : JmapStore File) : JmapStore File :=
  with_file (replace_file (js_file st) (folder_tree_to_json to_string state tree)) st.

(** The request of [folders] over the connection to [account_id]: a listing made from the held
    one. *)
Definition fetch_listing (account_id : Id) (held : option Listing) (w : W) : W * result Listing SyncError :=
  match held with
  | Some l =>
      let '(w, r) := retried (fun w => folder_tree_since to_lowercase account_id w (lg_state l)) w in
      (w, let? update := r in
          Ok match update with
             | FolderUnchanged state => {| lg_state := state; lg_tree := lg_tree l; lg_generation := lg_generation l |}
             | FolderRebuilt state tree => {| lg_state := state; lg_tree := tree; lg_generation := lg_generation l |}
             end)
  | None =>
      let '(w, r) := retried (sync_folder_tree account_id) w in
      (w, let? listing := r in Ok {| lg_state := listing.1; lg_tree := listing.2; lg_generation := 0 |})
  end.

(** [folders]; [refresh] is the flag [CAMEL_STORE_FOLDER_INFO_REFRESH]. *)
Definition folders (refresh : bool) (st : JmapStore File) (w : W) : JmapStore File * W * result FolderTree StoreError :=
  match js_connection st with
  | None =>
      let st := hydrate_folders_from_disk st in
      (st, w, ok_or (held_folders st) Disconnected)
  | Some account_id =>
      let held := js_folders st in
      match held, refresh with
      | Some l, false => (st, w, Ok (lg_tree l))
      | _, _ =>
          match fetch_listing account_id held w with
          | (w, Err failure) => (st, w, Err (store_error failure))
          | (w, Ok listing) =>
              let '(slot, answer) := write_back (lg_generation <$> held) listing (js_folders st) in
              (persist_folders_to_disk (lg_state answer) (lg_tree answer) (with_folders slot st), w, Ok (lg_tree answer))
          end
      end
  end.

(** *** The writes *)
Definition edit_folders (edit : FolderTree -> FolderTree) (st : JmapStore File) : JmapStore File :=
  with_folders (edit_listing edit <$> js_folders st) st.

Definition store_set_subscribed (mailbox : Id) (subscribed : bool) (st : JmapStore File) (w : W) : JmapStore File * W * result unit StoreError :=
  match js_connection st with
  | None => (st, w, Err Disconnected)
  | Some account_id =>
      match retried (fun w => sync_set_subscribed account_id w mailbox subscribed) w with
      | (w, Err failure) => (st, w, Err (store_error failure))
      | (w, Ok _) => (edit_folders (fun tree => (set_subscribed tree mailbox subscribed).2) st, w, Ok tt)
      end
  end.

Definition store_create_folder (parent : option FolderInfo) (name : text) (st : JmapStore File) (w : W) : JmapStore File * W * result FolderInfo StoreError :=
  match js_connection st with
  | None => (st, w, Err Disconnected)
  | Some account_id =>
      match retried (fun w => sync_create_folder account_id w parent name) w with
      | (w, Err failure) => (st, w, Err (store_error failure))
      | (w, Ok created) => (edit_folders (fun tree => (tree_insert tree created).2) st, w, Ok created)
      end
  end.

Definition store_delete_folder (mailbox : Id) (st : JmapStore File) (w : W) : JmapStore File * W * result unit StoreError :=
  match js_connection st with
  | None => (st, w, Err Disconnected)
  | Some account_id =>
      match retried (fun w => sync_delete_folder account_id w mailbox) w with
      | (w, Err failure) => (st, w, Err (store_error failure))
      | (w, Ok _) => (edit_folders (fun tree => (tree_remove tree mailbox).2) st, w, Ok tt)
      end
  end.

Definition store_rename_folder (folder : FolderInfo) (parent : option FolderInfo) (name : text) (st : JmapStore File) (w : W)
  : JmapStore File * W * result FolderInfo StoreError :=
  match js_connection st with
  | None => (st, w, Err Disconnected)
  | Some account_id =>
      match retried (fun w => sync_rename_folder account_id w (f_id folder) parent name) w with
      | (w, Err failure) => (st, w, Err (store_error failure))
      | (w, Ok path) =>
          let st := edit_folders (fun tree => (tree_rename tree (f_id folder) path name).2) st in
          (st, w, Ok (default (Folder (with_display_name name (with_path path (f_head folder))) [])
                       (let! tree := held_folders st in tree_find tree path)))
      end
  end.

(** *** The vfuncs *)
Definition tree_holding (wanted : FolderTree -> bool) (st : JmapStore File) (w : W) : JmapStore File * W * result FolderTree StoreError :=
  match folders false st w with
  | (st, w, Ok held) => if wanted held then (st, w, Ok held) else folders true st w
  | other => other
  end.

Definition has_path (path : text) (tree : FolderTree) : bool := bool_decide (is_Some (tree_find tree path)).

Definition create_folder (parent : option text) (name : text) (st : JmapStore File) (w : W) : JmapStore File * W * result FolderInfo StoreError :=
  match parent with
  | None | Some [] => store_create_folder None name st w
  | Some path =>
      match tree_holding (has_path path) st w with
      | (st, w, Err e) => (st, w, Err e)
      | (st, w, Ok tree) =>
          match tree_find tree path with
          | None => (st, w, Err (NoFolder path))
          | Some parent => store_create_folder (Some parent) name st w
          end
      end
  end.

Definition delete_folder (path : text) (st : JmapStore File) (w : W) : JmapStore File * W * result FolderInfo StoreError :=
  match tree_holding (has_path path) st w with
  | (st, w, Err e) => (st, w, Err e)
  | (st, w, Ok tree) =>
      match tree_find tree path with
      | None => (st, w, Err (NoFolder path))
      | Some folder =>
          let '(st, w, r) := store_delete_folder (f_id folder) st w in
          (st, w, let? _ := r in Ok folder)
      end
  end.

(** The name that a rename of [folder] to [to] asks for. *)
Definition renamed_to (folder : FolderInfo) (to : text) : text :=
  let '(parent_path, component) := path_split to in
  let '(current_parent_path, held) := path_split (f_path folder) in
  if negb (bool_decide (parent_path = current_parent_path)) && bool_decide (component = held)
  then fh_display_name (f_head folder)
  else component.

Definition rename_folder (from to : text) (st : JmapStore File) (w : W) : JmapStore File * W * result FolderInfo StoreError :=
  let parent_path := (path_split to).1 in
  match tree_holding (fun tree => has_path from tree && match parent_path with None => true | Some parent => has_path parent tree end) st w with
  | (st, w, Err e) => (st, w, Err e)
  | (st, w, Ok tree) =>
      match tree_find tree from with
      | None => (st, w, Err (NoFolder from))
      | Some folder =>
          match parent_path with
          | None => store_rename_folder folder None (renamed_to folder to) st w
          | Some path =>
              match tree_find tree path with
              | None => (st, w, Err (NoFolder path))
              | Some parent => store_rename_folder folder (Some parent) (renamed_to folder to) st w
              end
          end
      end
  end.

Definition subscribe_folder (path : text) (subscribed : bool) (st : JmapStore File) (w : W) : JmapStore File * W * result FolderInfo StoreError :=
  match tree_holding (has_path path) st w with
  | (st, w, Err e) => (st, w, Err e)
  | (st, w, Ok tree) =>
      match tree_find tree path with
      | None => (st, w, Err (NoFolder path))
      | Some folder =>
          let '(st, w, r) := store_set_subscribed (f_id folder) subscribed st w in
          (st, w, let? _ := r in Ok (Folder (with_subscribed subscribed (f_head folder)) (f_children folder)))
      end
  end.

(** [may_add_items] and [pushed_folder_list_change] of store.rs. *)
Definition may_add_items (mailbox : Id) (st : JmapStore File) (w : W) : JmapStore File * W * option bool :=
  let '(st, w, r) := folders false st w in
  (st, w, match r with
          | Ok tree => let! folder := tree_by_id tree mailbox in fh_may_add_items (f_head folder)
          | Err _ => None
          end).

Definition pushed_folder_list_change (st : JmapStore File) (w : W) : JmapStore File * W * FolderListChange :=
  match held_folders st with
  | None => (st, w, Same)
  | Some before =>
      match folders true st w with
      | (st, w, Ok after) => (st, w, change_to before after)
      | (st, w, Err _) => (st, w, Same)
      end
  end.
End store.
