(* ===== verification/FolderServer.v ===== *)
(** The folder operations of the client on the mock server (jmap-mail-sync/src/lib.rs and
    jmap-client/src/mail.rs against jmap-mock/src/mail.rs), for the owner of the account: what
    each operation does to the mailboxes and what it answers. *)

From Stdlib Require Import Ascii String.
From stdpp Require Import prelude strings gmap.
From S2P Require Import Prelude BTree Text Strings Json Wire Proto Email MailboxWire Store SetOps Patch SetMethod Keywords MockMail MockMailSet MockMailbox MailboxForest Path FolderTree FolderForest FolderEdit FolderBuild FolderListing MailboxListing Session Changes ChangesSync SetChunk SetSend FolderShared FolderView FolderFollow MockQuery MailListing MockClient MailFolders FolderStore.

Local Open Scope rust_scope.

(** ** The mailboxes that the server lists *)
Definition listed (a : AccountState) : btmap Id Mailbox := (fun e => (e.1, counted a e)) <$> st_objects (ma_mailboxes a).

Lemma listed_get a id : bt_get id (listed a) = (fun b => counted a (id, b)) <$> bt_get id (st_objects (ma_mailboxes a)).
Proof.
  unfold listed. induction (st_objects (ma_mailboxes a)) as [|[k b] m IH]; [done|]. rewrite fmap_cons. cbn [bt_get fst]. by case_decide; subst.
Qed.

Lemma listed_rooted a id n : rooted (listed a) id n <-> rooted (st_objects (ma_mailboxes a)) id n.
Proof.
  split.
  - induction 1 as [id b Hb Hp|id b p n Hb Hp _ IH]; rewrite listed_get in Hb; apply fmap_Some in Hb as (b0&Hb0&->);
      [by eapply RootedTop|by eapply RootedBelow].
  - induction 1 as [id b Hb Hp|id b p n Hb Hp _ IH];
      [apply (RootedTop _ _ (counted a (id, b)))|apply (RootedBelow _ _ (counted a (id, b)) p)]; rewrite ?listed_get, ?Hb; done.
Qed.

(** Mailboxes that the folder tree shows as they are: within its depth, and with roles that
    differ by more than their case. *)
Record presentable (a : AccountState) : Prop := {
  pr_depth : forall id n, rooted (st_objects (ma_mailboxes a)) id n -> (n <= MAX_DEPTH)%nat;
  pr_roles : forall id b id' b' r, bt_get id (st_objects (ma_mailboxes a)) = Some b -> bt_get id' (st_objects (ma_mailboxes a)) = Some b' ->
    mb_role b ≫= role_from_jmap = Some r -> mb_role b' ≫= role_from_jmap = Some r -> id = id';
}.

Lemma listed_plain a : forest_tree (st_objects (ma_mailboxes a)) -> presentable a -> plain_tree (listed a).
Proof.
  intros Hf [Hd Hr]. split.
  - unfold bt_ok, listed. rewrite <- list_fmap_compose. exact (ft_ok _ Hf).
  - intros id b. rewrite listed_get. intros (b0&Hb&->)%fmap_Some. destruct (ft_self _ Hf id b0 Hb) as (?&?&_). by split.
  - intros id b. rewrite listed_get. intros (b0&Hb&->)%fmap_Some. destruct (ft_rooted _ Hf id b0 Hb) as [n Hn]. exists n.
    rewrite listed_rooted. split; [done|]. by eapply Hd.
  - intros id b id' b'. rewrite !listed_get. intros (b0&Hb&->)%fmap_Some (b1&Hb'&->)%fmap_Some. exact (ft_siblings _ Hf id b0 id' b1 Hb Hb').
  - intros id b id' b' r. rewrite !listed_get. intros (b0&Hb&->)%fmap_Some (b1&Hb'&->)%fmap_Some. exact (Hr id b0 id' b1 r Hb Hb').
Qed.

(** The counts come from the messages alone. *)
Lemma counted_emails a a' e : ma_emails a' = ma_emails a -> counted a' e = counted a e.
Proof. unfold counted. by intros ->. Qed.

Lemma listed_same_but a a' id :
  ma_emails a' = ma_emails a ->
  (forall x, x <> id -> bt_get x (st_objects (ma_mailboxes a')) = bt_get x (st_objects (ma_mailboxes a))) ->
  same_but id (listed a) (listed a').
Proof.
  intros He Hm x Hx. rewrite !listed_get, (Hm x Hx). destruct (bt_get x _) as [b|]; [|done]. cbn. by rewrite (counted_emails a a').
Qed.

(** No message is in a mailbox that does not exist. *)
Lemma counted_missing a id b : mail_account_ok a -> bt_get id (st_objects (ma_mailboxes a)) = None -> counted a (id, b) = with_counts 0 0 b.
Proof.
  intros [_ _ Hem Hok] Hno. unfold counted. cbn [fst snd].
  assert (filter (fun email => filed_in email id = true) (st_objects (ma_emails a)).*2 = []) as ->; [|done].
  apply filter_none. intros e ([k e']&->&He)%list_elem_of_fmap Hin. cbn in Hin. apply bt_elem_get in He; [|done].
  destruct (mo_known _ _ (Hok k e' He) id) as [m Hm]; [by apply filed_in_mailboxes|]. unfold store_get in Hm. congruence.
Qed.

(** ** One mailbox in one request *)
Lemma transaction_result {T R} (st : Store T) (f : Transaction T -> R * Transaction T) :
  (store_transaction st f).1 = (f (Build_Transaction st [])).1.
Proof. unfold store_transaction. destruct (f _) as [r t]. by destruct (tx_staged t). Qed.

Section server.
Variable serde_error : Value -> text.

Definition create_request (account_id : Id) (b : Mailbox) : SetRequest Mailbox := Build_SetRequest account_id None (Some [(NEW, b)]) None None.
Definition mailbox_update_request (account_id id : Id) (patch : btmap text Value) : SetRequest Mailbox :=
  Build_SetRequest account_id None None (Some [(id, Object patch)]) None.
Definition mailbox_destroy_request (account_id id : Id) : SetRequest Mailbox := Build_SetRequest account_id None None None (Some [id]).

Lemma mailbox_create_one unsub a account_id b :
  mb_id b = None ->
  let id := (store_alloc_id (ma_mailboxes a)).1 in
  let '(a', response) := mailbox_set_account serde_error unsub true None a (create_request account_id b) in
  (st_objects (ma_mailboxes a') = bt_insert id (mailbox_server_set id unsub b) (st_objects (ma_mailboxes a)) /\
   expect_created response NEW = Ok (counted_empty (mailbox_server_set id unsub b))) \/
  (st_objects (ma_mailboxes a') = st_objects (ma_mailboxes a) /\ exists refusal, expect_created response NEW = Err (Set_ refusal)).
Proof using Type.
  intros Hid. unfold mailbox_set_account. cbn [sr_create sr_update sr_destroy create_request from_option Datatypes.id fold_left].
  unfold mailbox_create_entry. cbn [mc_tree mc_account mc_created mc_not_created mc_to_create].
  destruct (mailbox_create_refusal true None (st_objects (ma_mailboxes a)) b) as [refusal|] eqn:Er.
  - cbn [mc_tree mc_account mc_created mc_not_created mc_to_create mu_account mu_tree mu_not_updated mu_to_update md_destroyed].
    pose proof (mailbox_body_objects [] [] [] (ma_mailboxes a) ltac:(constructor)) as Hb.
    destruct (store_transaction _ _) as [updated mailboxes]. right. split; [exact Hb|]. exists refusal.
    unfold expect_created. cbn [sp_created sp_not_created non_empty bt_insert mbind option_bind]. by rewrite bt_get_single.
  - destruct (store_alloc_id (ma_mailboxes a)) as [id mailboxes0] eqn:Ea. cbn [fst].
    cbn [mc_tree mc_account mc_created mc_not_created mc_to_create mu_account mu_tree mu_not_updated mu_to_update md_destroyed app].
    set (b' := mailbox_server_set id unsub b).
    pose proof (mailbox_body_objects [(id, b')] [] [] (ma_mailboxes (with_mailboxes mailboxes0 a)) ltac:(constructor)) as Hb.
    destruct (store_transaction _ _) as [updated mailboxes]. left. split.
    + etrans; [exact Hb|]. cbn. f_equal. unfold store_alloc_id in Ea. by injection Ea as _ <-.
    + unfold expect_created. cbn [sp_created non_empty bt_insert mbind option_bind]. by rewrite bt_get_single.
Qed.

Lemma mailbox_update_one unsub a account_id id patch :
  let '(a', response) := mailbox_set_account serde_error unsub true None a (mailbox_update_request account_id id patch) in
  (exists existing v patched, bt_get id (st_objects (ma_mailboxes a)) = Some existing /\
     apply_patch (mailbox_to_value existing) patch = (v, Ok tt) /\ mailbox_from_value v = Some patched /\
     st_objects (ma_mailboxes a') = bt_insert id patched (st_objects (ma_mailboxes a)) /\ expect_updated response id = Ok tt) \/
  (st_objects (ma_mailboxes a') = st_objects (ma_mailboxes a) /\ exists refusal, expect_updated response id = Err (Set_ refusal)).
Proof using Type.
  unfold mailbox_set_account. cbn [sr_create sr_update sr_destroy mailbox_update_request from_option Datatypes.id fold_left mc_account mc_tree].
  unfold mailbox_update_entry. cbn [mu_tree mu_account mu_not_updated mu_to_update].
  destruct (mailbox_patched _ _ _ _ _ _) as [[existing patched]|refusal] eqn:Ep.
  - cbn [mc_tree mc_account mc_created mc_not_created mc_to_create mu_account mu_tree mu_not_updated mu_to_update md_destroyed app].
    unfold mailbox_patched in Ep. apply rbind_ok in Ep as (b&Hb&(m&Hm&H)%rbind_ok). cbn in Hm. injection Hm as <-.
    destruct (bt_get id (st_objects (ma_mailboxes a))) as [b0|] eqn:Eb; [|done]. injection Hb as ->.
    destruct (negb _); [done|]. destruct (apply_patch _ _) as [v r] eqn:Ev. apply rbind_ok in H as ([]&Hr&(q&Hq&H)%rbind_ok).
    destruct (negb _); [done|]. apply rbind_ok in H as ([]&_&[= <- <-]).
    set (a1 := record_share_changes _ _ _ _ _). assert (ma_mailboxes a1 = ma_mailboxes a) as Ha1 by apply record_share_changes_same.
    pose proof (mailbox_body_objects [] [(id, q)] [] (ma_mailboxes a1)) as Hobj. rewrite Ha1 in *.
    pose proof (transaction_result (ma_mailboxes a) (mailbox_body [] [(id, q)] [])) as Et.
    destruct (store_transaction _ _) as [updated mailboxes]. cbn [fst] in Et. left. exists b, v, q. split_and!; [done| | | |].
    + destruct r as [[]|]; done.
    + by destruct (mailbox_from_value v); simplify_eq/=.
    + apply Hobj. constructor; [|constructor]. cbn. by rewrite Eb.
    + unfold expect_updated. cbn [sp_updated]. rewrite Et. cbn [mailbox_body fold_left bt_insert non_empty fst]. by rewrite bt_contains_single.
  - cbn [mc_tree mc_account mc_created mc_not_created mc_to_create mu_account mu_tree mu_not_updated mu_to_update md_destroyed].
    pose proof (mailbox_body_objects [] [] [] (ma_mailboxes a) ltac:(constructor)) as Hb.
    pose proof (transaction_result (ma_mailboxes a) (mailbox_body [] [] [])) as Et.
    destruct (store_transaction _ _) as [updated mailboxes]. cbn [fst mailbox_body fold_left] in Et. subst updated. right. split; [exact Hb|]. exists refusal.
    unfold expect_updated. cbn [sp_updated sp_not_updated non_empty bt_insert mbind option_bind]. by rewrite bt_get_single.
Qed.

Lemma mailbox_destroy_one unsub a account_id id :
  let '(a', response) := mailbox_set_account serde_error unsub true None a (mailbox_destroy_request account_id id) in
  (is_Some (bt_get id (st_objects (ma_mailboxes a))) /\
     (forall y b, bt_get y (st_objects (ma_mailboxes a)) = Some b -> mb_parent_id b <> Some id) /\
     st_objects (ma_mailboxes a') = bt_remove id (st_objects (ma_mailboxes a)) /\ expect_destroyed response id = Ok tt) \/
  (st_objects (ma_mailboxes a') = st_objects (ma_mailboxes a) /\ exists refusal, expect_destroyed response id = Err (Set_ refusal)).
Proof using Type.
  unfold mailbox_set_account. cbn [sr_create sr_update sr_destroy mailbox_destroy_request from_option Datatypes.id fold_left mc_account mc_tree mu_account mu_tree].
  unfold mailbox_destroy_entry. cbn [md_tree md_destroyed md_not_destroyed].
  destruct (mailbox_destroy_refusal _ _ _ _ _) as [refusal|] eqn:Er;
    cbn [mc_tree mc_account mc_created mc_not_created mc_to_create mu_account mu_tree mu_not_updated mu_to_update md_destroyed md_not_destroyed app].
  - pose proof (mailbox_body_objects [] [] [] (ma_mailboxes a) ltac:(constructor)) as Hb.
    destruct (store_transaction _ _) as [updated mailboxes]. right. split; [exact Hb|]. exists refusal.
    unfold expect_destroyed. cbn [sp_destroyed sp_not_destroyed non_empty bt_insert mbind option_bind]. by rewrite bt_get_single.
  - unfold mailbox_destroy_refusal in Er. destruct (bt_get id (st_objects (ma_mailboxes a))) as [b|] eqn:Eb; [|done].
    destruct (negb _); [done|]. destruct (existsb _ (st_objects (ma_mailboxes a))) eqn:Ec; [done|]. clear Er.
    pose proof (mailbox_body_objects [] [] [id] (ma_mailboxes a) ltac:(constructor)) as Hb.
    destruct (store_transaction _ _) as [updated mailboxes]. left. split_and!; [done| |exact Hb|].
    + intros y yb Hy Hp. apply bt_get_Some_elem, (existsb_none _ _ _ Ec) in Hy. cbn in Hy. by rewrite bool_decide_eq_true_2 in Hy.
    + unfold expect_destroyed. cbn [sp_destroyed non_empty]. by rewrite bool_decide_eq_true_2 by left.
Qed.
(** ** The client on the server *)
Variable to_value : Mailbox -> result Value Error.
Variable hash_order : gset text -> list text.
Variable limit : option nat.
Variable id_budget : IdBudget.
Variable changes_to_value : ChangesResponse -> Value.
Variable changes_from_value : Value -> result ChangesResponse text.

Definition mock_mailbox_call (s : ServerState) (request : SetRequest Mailbox) (created_ids : btmap Id Id)
  : ServerState * result (SetResponse Mailbox) Error :=
  let '(s, r) := mailbox_set serde_error s request None in (s, map_err Method r).

#[local] Instance mailbox_changes_caller : MethodCaller ServerState := fun s _ _ request =>
  (s, match mailbox_changes s request with
      | Ok r => Ok (changes_to_value r)
      | Err e => Err (Method e)
      end).

#[local] Instance mock_folders : FolderClient ServerState := {|
  client_mailbox_get account_id s :=
    (map_err Method (mailbox_get s {| gq_account_id := account_id; gq_ids := None; gq_properties := None |} None), s);
  client_mailbox_set s request := default (s, Err out_of_fuel) (execute_set_chunked mock_mailbox_call to_value hash_order s request limit);
  client_mailbox_changes s account_id since := all_changes changes_from_value id_budget s account_id (lit "Mailbox") since;
|}.

Variable account_id : Id.

Lemma folder_set_one (s : ServerState) a request :
  bt_get account_id (sv_accounts s) = Some a -> (total_items request <= 1)%nat -> sr_account_id request = account_id -> sr_if_in_state request = None ->
  client_mailbox_set s request =
    let '(a', response) := mailbox_set_account serde_error (sv_new_mailboxes_default_unsubscribed s) true None a request in
    (with_account account_id a' s, Ok response).
Proof using Type.
  intros Ha Hone Hid Hst.
  assert (client_mailbox_set s request = mock_mailbox_call s request []) as ->.
  { unfold client_mailbox_set, mock_folders, execute_set_chunked. destruct limit as [[|n]|]; [done| |done].
    by rewrite (proj2 (Nat.leb_le _ _)) by lia. }
  unfold mock_mailbox_call, mailbox_set, account_mut. rewrite Hid, Hst, Ha. cbn [ok_or account_is_owner].
  by destruct (mailbox_set_account _ _ _ _ _ _).
Qed.

(** *** The listing *)
Lemma mock_folder_tree (s : ServerState) a :
  bt_get account_id (sv_accounts s) = Some a -> mail_account_ok a -> presentable a ->
  exists roots, sync_folder_tree account_id s = (s, Ok (store_state (ma_mailboxes a), roots)) /\ shows (listed a) roots.
Proof using Type.
  intros Ha Hok Hp. destruct (listing_shows (listed a) (listed_plain a (mao_forest _ Hok) Hp)) as (roots&Hr&Hs). exists roots. split; [|done].
  unfold sync_folder_tree, folder_tree, client_mailbox_get, mock_folders, mailbox_get, account_mut.
  cbn [gq_account_id gq_ids]. rewrite Ha. cbn [ok_or rbind check_caller].
  change (check_caller a None) with (Ok true : result bool MethodError). cbn [rbind visible_mailbox map_err gr_list gr_state].
  assert (omap (fun mailbox => Some mailbox) (counted a <$> st_objects (ma_mailboxes a)) = (listed a).*2) as ->.
  { unfold listed. rewrite <- list_fmap_compose. induction (st_objects (ma_mailboxes a)) as [|e m IH]; [done|].
    rewrite !fmap_cons. cbn [omap list_omap]. by rewrite IH. }
  by rewrite Hr.
Qed.

(** *** The writes *)
Definition counters_left (a : AccountState) : Prop :=
  (st_next_id (ma_mailboxes a) + 1 <= u64_max /\ st_state (ma_mailboxes a) < u64_max)%N.

Lemma requested_ok parent name : mailbox_ok (requested_mailbox parent name).
Proof using Type. split; cbn; try done. split; [apply bt_ok_nil|]. by split. Qed.

(** What every write keeps. *)
Lemma mailbox_set_kept unsub a request a' response :
  mail_account_ok a -> mailbox_request_ok request -> mailbox_counters_ok a request ->
  mailbox_set_account serde_error unsub true None a request = (a', response) ->
  mail_account_ok a' /\ ma_emails a' = ma_emails a /\ rtc store_step (ma_mailboxes a) (ma_mailboxes a').
Proof using Type.
  intros Hok Hr Hc E. pose proof (mail_account_kept serde_error unsub true None a request Hok Hr Hc) as Hk.
  destruct (mailbox_set_account_spec serde_error unsub true None a request (mao_store _ Hok) (mao_forest _ Hok) Hr Hc) as (_&Hs&He&_).
  by rewrite E in *.
Qed.

(** The account after a write: the mailboxes are [objects]. *)
Definition wrote (s s' : ServerState) (a : AccountState) (objects : btmap Id Mailbox) : Prop :=
  exists a', s' = with_account account_id a' s /\ st_objects (ma_mailboxes a') = objects /\ ma_emails a' = ma_emails a /\
    mail_account_ok a' /\ rtc store_step (ma_mailboxes a) (ma_mailboxes a').

Section write.
Context (s : ServerState) (a : AccountState).
Hypothesis Ha : bt_get account_id (sv_accounts s) = Some a.
Hypothesis Hok : mail_account_ok a.
Hypothesis Hleft : counters_left a.
Let objects := st_objects (ma_mailboxes a).

Lemma mock_create parent name :
  trim name = name ->
  let id := (store_alloc_id (ma_mailboxes a)).1 in
  let '(s', r) := sync_create_folder account_id s parent name in
  match r with
  | Ok f => exists b, wrote s s' a (bt_insert id b objects) /\ mb_name b = name /\ mb_parent_id b = f_id <$> parent /\
      f = Folder (mailbox_head id (with_counts 0 0 b) (path_join (f_path <$> parent) (encode_component name))) [] /\ mb_role b = None
  | Err e => wrote s s' a objects /\ sync_is_unauthorized e = false
  end.
Proof using Ha Hok Hleft.
  intros Htrim id. unfold sync_create_folder, mailbox_create. fold (create_request account_id (requested_mailbox parent name)).
  rewrite (folder_set_one s a) by done.
  pose proof (mailbox_create_one (sv_new_mailboxes_default_unsubscribed s) a account_id (requested_mailbox parent name) eq_refl) as Hone. fold id in Hone.
  pose proof (mailbox_set_kept (sv_new_mailboxes_default_unsubscribed s) a (create_request account_id (requested_mailbox parent name))) as Hkept.
  destruct (mailbox_set_account _ _ _ _ _ _) as [a' response].
  destruct (Hkept a' response Hok) as (Hok'&He&Hs); [..|done|]; clear Hkept.
  { split; cbn; [|constructor]. constructor; [apply requested_ok|constructor]. }
  { destruct Hleft. by split. }
  cbn [rbind]. destruct Hone as [[Hobj ->]|[Hobj (refusal&->)]]; cbn [rbind map_err].
  - eexists. split; [exists a'; by rewrite Hobj|]. split_and!; [done|done| |done].
    unfold created_folder.
    assert (forall c, mb_name c = name -> created_folder_name (mb_name (with_created_defaults (requested_mailbox parent name) c)) name = name) as Hname.
    { intros c Hc. unfold created_folder_name. cbn [mb_name with_created_defaults requested_mailbox with_place]. rewrite Hc, Htrim. by repeat case_bool_decide. }
    by rewrite Hname.
  - split; [by exists a'|by eexists].
Qed.
Lemma update_kept patch id :
  value_ok (Object patch) ->
  let '(s', r) := mailbox_update account_id s id (Object patch) in
  match r with
  | Ok _ => exists b v b', bt_get id objects = Some b /\ apply_patch (mailbox_to_value b) patch = (v, Ok tt) /\
      mailbox_from_value v = Some b' /\ wrote s s' a (bt_insert id b' objects)
  | Err e => wrote s s' a objects /\ exists refusal, e = Set_ refusal
  end.
Proof using Ha Hok Hleft.
  intros Hv. unfold mailbox_update. fold (mailbox_update_request account_id id patch). rewrite (folder_set_one s a) by done.
  pose proof (mailbox_update_one (sv_new_mailboxes_default_unsubscribed s) a account_id id patch) as Hone.
  pose proof (mailbox_set_kept (sv_new_mailboxes_default_unsubscribed s) a (mailbox_update_request account_id id patch)) as Hkept.
  destruct (mailbox_set_account _ _ _ _ _ _) as [a' response].
  destruct (Hkept a' response Hok) as (Hok'&He&Hs); [..|done|]; clear Hkept.
  { split; cbn [mailbox_update_request sr_create sr_update from_option]; [constructor|]. by constructor; [|constructor]. }
  { destruct Hleft. split; cbn; [lia|done]. }
  cbn [rbind]. destruct Hone as [(b&v&b'&Hb&Hp&Hf&Hobj&->)|[Hobj (refusal&->)]].
  - exists b, v, b'. split_and!; [done..|]. by exists a'.
  - split; [by exists a'|by eexists].
Qed.

Lemma folder_refused id refusal : sync_is_unauthorized (folder_error id (Set_ refusal)) = false.
Proof using Type. unfold folder_error. by case_decide. Qed.

Lemma mock_subscribe id subscribed :
  let '(s', r) := sync_set_subscribed account_id s id subscribed in
  match r with
  | Ok _ => exists b, bt_get id objects = Some b /\ wrote s s' a (bt_insert id (with_is_subscribed (Some subscribed) b) objects)
  | Err e => wrote s s' a objects /\ sync_is_unauthorized e = false
  end.
Proof using Ha Hok Hleft.
  unfold sync_set_subscribed.
  assert (value_ok (Object [(lit "isSubscribed", Bool subscribed)])) as Hv.
  { apply value_ok_object. split; [by_decide|]. repeat constructor. }
  pose proof (update_kept [(lit "isSubscribed", Bool subscribed)] id Hv) as Hu.
  destruct (mailbox_update _ _ _ _) as [s' [[]|e]]; cbn [map_err].
  - destruct Hu as (b&v&b'&Hb&Hp&Hf&Hw). exists b. split; [done|]. destruct (ft_self _ (mao_forest _ Hok) id b Hb) as (_&_&Hbok).
    destruct (patch_is_subscribed b subscribed Hbok) as (v'&Hp'&Hf'). rewrite Hp in Hp'. injection Hp' as <-. rewrite Hf in Hf'. by injection Hf' as <-.
  - destruct Hu as (Hw&refusal&->). split; [done|]. apply folder_refused.
Qed.

Lemma place_patch_ok name parent : value_ok (Object (place_patch name parent)).
Proof using Type. apply value_ok_object. split; [by_decide|]. repeat constructor. by destruct parent. Qed.

Lemma mock_rename id parent name :
  let '(s', r) := sync_rename_folder account_id s id parent name in
  match r with
  | Ok path => path = path_join (f_path <$> parent) (encode_component name) /\
      exists b, bt_get id objects = Some b /\ wrote s s' a (bt_insert id (with_place name (f_id <$> parent) b) objects)
  | Err e => wrote s s' a objects /\ sync_is_unauthorized e = false
  end.
Proof using Ha Hok Hleft.
  unfold sync_rename_folder. pose proof (update_kept (place_patch name (f_id <$> parent)) id (place_patch_ok _ _)) as Hu.
  destruct (mailbox_update _ _ _ _) as [s' [[]|e]]; cbn [map_err rbind].
  - split; [done|]. destruct Hu as (b&v&b'&Hb&Hp&Hf&Hw). exists b. split; [done|]. destruct (ft_self _ (mao_forest _ Hok) id b Hb) as (_&_&Hbok).
    destruct (patch_place b name (f_id <$> parent) Hbok) as (v'&Hp'&Hf'). rewrite Hp in Hp'. injection Hp' as <-. rewrite Hf in Hf'. by injection Hf' as <-.
  - destruct Hu as (Hw&refusal&->). split; [done|]. apply folder_refused.
Qed.

Lemma mock_delete id :
  let '(s', r) := sync_delete_folder account_id s id in
  match r with
  | Ok _ => is_Some (bt_get id objects) /\ (forall y b, bt_get y objects = Some b -> mb_parent_id b <> Some id) /\
      wrote s s' a (bt_remove id objects)
  | Err e => wrote s s' a objects /\ sync_is_unauthorized e = false
  end.
Proof using Ha Hok Hleft.
  unfold sync_delete_folder, mailbox_destroy. fold (mailbox_destroy_request account_id id). rewrite (folder_set_one s a) by done.
  pose proof (mailbox_destroy_one (sv_new_mailboxes_default_unsubscribed s) a account_id id) as Hone.
  pose proof (mailbox_set_kept (sv_new_mailboxes_default_unsubscribed s) a (mailbox_destroy_request account_id id)) as Hkept.
  destruct (mailbox_set_account _ _ _ _ _ _) as [a' response].
  destruct (Hkept a' response Hok) as (Hok'&He&Hs); [..|done|]; clear Hkept.
  { split; constructor. }
  { destruct Hleft. split; cbn; [lia|done]. }
  cbn [rbind]. destruct Hone as [(Hb&Hleaf&Hobj&->)|[Hobj (refusal&->)]]; cbn [map_err].
  - split_and!; [done..|]. by exists a'.
  - split; [by exists a'|apply folder_refused].
Qed.
End write.
End server.
