(* ===== verification/FolderKept.v ===== *)
(** The listing that the store holds keeps showing the mailboxes of the server: the store's
    folder operations (jmap-mail/src/store.rs, manage.rs, subscribe.rs) on the mock server. *)

From Stdlib Require Import Ascii String.
From stdpp Require Import prelude strings gmap.
From S2P Require Import Prelude BTree Text Strings Json Wire Proto Email MailboxWire Store SetOps Patch SetMethod MockMail MockMailSet MockMailbox MailboxForest Path FolderTree FolderForest FolderEdit FolderBuild FolderListing MailboxListing Session Changes ChangesSync SetChunk SetSend FolderShared FolderView FolderFollow MockQuery MailListing MockClient MailFolders FolderDisk FolderStore FolderServer.

Local Open Scope rust_scope.

(** ** The operations that Camel asks of the store *)
Inductive FolderOp :=
| OpFolders (refresh : bool)
| OpCreate (parent : option text) (name : text)
| OpDelete (path : text)
| OpRename (from to : text)
| OpSubscribe (path : text) (subscribed : bool)
| OpMayAdd (mailbox : Id)
| OpPushed
| OpReconnect.

Section kept.
Variable serde_error : Value -> text.
Variable to_value : Mailbox -> result Value Error.
Variable hash_order : gset text -> list text.
Variable limit : option nat.
Variable id_budget : IdBudget.
Variable changes_to_value : ChangesResponse -> Value.
Variable changes_from_value : Value -> result ChangesResponse text.
Variable to_lowercase : text -> text.
Context {File : Type} (to_string : Value -> File) (from_str : File -> option Value) (replace_file : option File -> File -> option File).
Variable refresh_credentials : ServerState -> ServerState * bool.
(** A new access token changes nothing at the server. *)
Hypothesis refresh_keeps : forall s, (refresh_credentials s).1 = s.
Variable account_id : Id.

#[local] Instance kept_client : FolderClient ServerState :=
  mock_folders serde_error to_value hash_order limit id_budget changes_to_value changes_from_value.

Abbreviation folders := (folders to_lowercase refresh_credentials to_string from_str replace_file).
Abbreviation retried := (retried refresh_credentials).

(** ** Retries *)
Lemma retried_done {T} (attempt : ServerState -> ServerState * result T SyncError) s s' r :
  attempt s = (s', r) -> (forall e, r = Err e -> sync_is_unauthorized e = false) -> retried attempt s = (s', r).
Proof using Type.
  intros Ha Hr. unfold FolderStore.retried, retry_once_after. rewrite Ha. destruct r as [x|e]; [done|]. by rewrite (Hr e eq_refl).
Qed.

Lemma retried_reads {T} (attempt : ServerState -> ServerState * result T SyncError) s :
  (forall s, (attempt s).1 = s) -> retried attempt s = attempt s.
Proof using refresh_keeps.
  intros Ha. unfold FolderStore.retried, retry_once_after. pose proof (Ha s) as Hs. destruct (attempt s) as [s1 [x|e]] eqn:E; [done|]. cbn in Hs. subst s1.
  destruct (sync_is_unauthorized e); [|done]. pose proof (refresh_keeps s) as Hk. destruct (refresh_credentials s) as [s2 []]; cbn in Hk; subst s2; [done|done].
Qed.

(** ** Reading *)
Lemma changes_reads (s : ServerState) since : (client_mailbox_changes s account_id since).1 = s.
Proof using Type.
  unfold client_mailbox_changes, kept_client, mock_folders, all_changes.
  edestruct (follow_pages_related (mailbox_changes_caller changes_to_value) (mailbox_changes_caller changes_to_value)
    (fun s1 s2 => s1 = s /\ s2 = s) changes_from_value account_id) as [[Hs _] _]; [|by split|exact Hs].
  intros w1 w2 capabilities method state [-> ->]. by split.
Qed.

Lemma tree_reads (s : ServerState) : (sync_folder_tree account_id s).1 = s.
Proof using Type. unfold sync_folder_tree, folder_tree. cbn [client_mailbox_get kept_client mock_folders]. by destruct (map_err _ _). Qed.

Lemma since_reads (s : ServerState) since : (folder_tree_since to_lowercase account_id s since).1 = s.
Proof using Type.
  unfold folder_tree_since, rebuild. pose proof (changes_reads s since) as Hc. pose proof (tree_reads s) as Ht.
  destruct (client_mailbox_changes s account_id since) as [s1 [c|e]]; cbn in Hc; subst s1.
  - destruct (changeset_is_empty c); [done|]. by destruct (sync_folder_tree account_id s).
  - destruct (needs_full_resync _ e); [|done]. by destruct (sync_folder_tree account_id s).
Qed.

(** ** The view *)
Record view_ok (st : JmapStore File) (s : ServerState) (a : AccountState) : Prop := {
  vo_connection : js_connection st = Some account_id;
  vo_account : bt_get account_id (sv_accounts s) = Some a;
  vo_ok : mail_account_ok a;
  vo_presentable : presentable a;
  vo_shows : forall l, js_folders st = Some l -> shows (listed a) (lg_tree l);
}.

Lemma fetch_kept st s a held :
  view_ok st s a -> held = js_folders st ->
  exists r, fetch_listing to_lowercase refresh_credentials account_id held s = (s, r) /\
    forall l, r = Ok l -> shows (listed a) (lg_tree l).
Proof using refresh_keeps.
  intros [Hc Ha Hok Hp Hs] ->. destruct (mock_folder_tree serde_error to_value hash_order limit id_budget changes_to_value changes_from_value
    account_id s a Ha Hok Hp) as (roots&Htree&Hroots).
  unfold fetch_listing. destruct (js_folders st) as [l|].
  - rewrite retried_reads by (intros s'; apply since_reads). pose proof (since_reads s (lg_state l)) as Hr. unfold folder_tree_since, rebuild in *.
    change (sync_folder_tree account_id s) with (@sync_folder_tree ServerState kept_client account_id s) in Htree.
    destruct (client_mailbox_changes s account_id (lg_state l)) as [s1 [c|e]] eqn:Ec; pose proof (changes_reads s (lg_state l)) as Hcr; rewrite Ec in Hcr;
      cbn in Hcr; subst s1.
    + destruct (changeset_is_empty c); cbn [rbind]; [|rewrite Htree; cbn [rbind]]; eexists; (split; [done|]); intros l' [= <-]; [exact (Hs l eq_refl)|exact Hroots].
    + destruct (needs_full_resync _ e); [rewrite Htree; cbn [rbind]|cbn [rbind]]; eexists; (split; [done|]); [intros l' [= <-]; exact Hroots|done].
  - rewrite retried_reads by apply tree_reads. change (sync_folder_tree account_id s) with (@sync_folder_tree ServerState kept_client account_id s) in Htree.
    rewrite Htree. cbn [rbind]. eexists. split; [done|]. intros l' [= <-]; exact Hroots.
Qed.

Lemma folders_kept refresh st s a :
  view_ok st s a ->
  exists st' r, folders refresh st s = (st', s, r) /\ view_ok st' s a /\
    forall tree, r = Ok tree -> exists l, js_folders st' = Some l /\ lg_tree l = tree.
Proof using refresh_keeps.
  intros Hv. pose proof Hv as [Hc Ha Hok Hp Hs]. unfold FolderStore.folders. rewrite Hc.
  destruct (fetch_kept st s a (js_folders st) Hv eq_refl) as (r&Hf&Hr).
  destruct (js_folders st) as [l|] eqn:El; [destruct refresh|]; [| |];
    try (rewrite Hf; destruct r as [l'|e]; [|by exists st, (Err (store_error e))]; cbn [write_back fmap option_fmap option_map];
      rewrite ?bool_decide_eq_true_2 by done; cbn [negb]; eexists _, _; split; [done|]; split;
      [split; [done..|]; cbn; intros ? [= <-]; by apply Hr|intros tree [= <-]; by eexists]).
  exists st, (Ok (lg_tree l)). split; [done|]. split; [done|]. intros tree [= <-]. by exists l.
Qed.

(** ** Writing *)
Abbreviation wrote := (wrote account_id).

(** No mailbox is nested deeper than the folder tree shows. *)
Definition shallow (a : AccountState) : Prop := forall id n, rooted (st_objects (ma_mailboxes a)) id n -> (n <= MAX_DEPTH)%nat.

(** A role of the folder tree belongs to one mailbox. *)
Definition distinct_roles (objects : btmap Id Mailbox) : Prop := forall id b id' b' r,
  bt_get id objects = Some b -> bt_get id' objects = Some b' ->
  mb_role b ≫= role_from_jmap = Some r -> mb_role b' ≫= role_from_jmap = Some r -> id = id'.

(** No mailbox has a role that it did not have before. *)
Definition keeps_roles (objects objects' : btmap Id Mailbox) : Prop := forall id b',
  bt_get id objects' = Some b' -> mb_role b' = None \/ exists b, bt_get id objects = Some b /\ mb_role b' = mb_role b.

Lemma distinct_roles_kept objects objects' : keeps_roles objects objects' -> distinct_roles objects -> distinct_roles objects'.
Proof using Type.
  intros Hk Hd id b id' b' r Hb Hb' Hr Hr'. destruct (Hk _ _ Hb) as [E|(c&Hc&E)]; [by rewrite E in Hr|].
  destruct (Hk _ _ Hb') as [E'|(c'&Hc'&E')]; [by rewrite E' in Hr'|]. rewrite E in Hr. rewrite E' in Hr'. by eapply Hd.
Qed.

Lemma keeps_roles_insert objects id b :
  mb_role b = None \/ (exists c, bt_get id objects = Some c /\ mb_role b = mb_role c) -> keeps_roles objects (bt_insert id b objects).
Proof using Type. intros Hb x b'. rewrite bt_get_insert. case_decide; [subst x; by intros [= <-]|]. intros Hx. right. by exists b'. Qed.

Lemma keeps_roles_remove objects id : keeps_roles objects (bt_remove id objects).
Proof using Type. intros x b'. rewrite bt_get_remove. case_decide; [done|]. intros Hx. right. by exists b'. Qed.

(** The view after a write, if the mailboxes are not nested too deep for the folder tree then. *)
Definition settles (st : JmapStore File) (s : ServerState) : Prop :=
  exists a, bt_get account_id (sv_accounts s) = Some a /\ (shallow a -> view_ok st s a).

Lemma view_settles st s a : view_ok st s a -> settles st s.
Proof using Type. intros Hv. exists a. split; [by apply vo_account in Hv|done]. Qed.

(** A write that changes the mailboxes and an edit of the held tree that follows it. *)
Lemma write_kept st s s' a objects edit :
  view_ok st s a -> wrote s s' a objects -> keeps_roles (st_objects (ma_mailboxes a)) objects ->
  (forall a' l, st_objects (ma_mailboxes a') = objects -> ma_emails a' = ma_emails a -> js_folders st = Some l ->
    plain_tree (listed a) -> plain_tree (listed a') -> shows (listed a) (lg_tree l) -> shows (listed a') (edit (lg_tree l))) ->
  settles (edit_folders edit st) s'.
Proof using Type.
  intros [Hc Ha Hok Hp Hs] (a'&->&Ho&He&Hok'&_) Hroles Hedit. exists a'. cbn. rewrite bt_get_insert, decide_True by done. split; [done|]. intros Hd'.
  assert (presentable a') as Hp'. { split; [exact Hd'|]. rewrite Ho. exact (distinct_roles_kept _ _ Hroles (pr_roles _ Hp)). }
  split; [done|by cbn; rewrite bt_get_insert, decide_True|done..|].
  intros l (l0&Hl0&->)%fmap_Some. cbn. apply (Hedit a'); [done|done|done|by apply listed_plain; [apply mao_forest|]..|by apply Hs].
Qed.

(** A write that the server refused. *)
Lemma refused_kept st s s' a : view_ok st s a -> wrote s s' a (st_objects (ma_mailboxes a)) -> settles st s'.
Proof using Type.
  intros [Hc Ha Hok Hp Hs] (a'&->&Ho&He&Hok'&_). exists a'. cbn. rewrite bt_get_insert, decide_True by done. split; [done|]. intros Hd'.
  assert (presentable a') as Hp'. { split; [exact Hd'|]. rewrite Ho. exact (pr_roles _ Hp). }
  assert (listed a' = listed a) as El.
  { unfold listed. rewrite Ho. apply list_fmap_ext. intros i e _. f_equal. by apply counted_emails. }
  split; [done|by cbn; rewrite bt_get_insert, decide_True|done..|by rewrite El].
Qed.

Lemma listed_insert a' id b objects x :
  st_objects (ma_mailboxes a') = bt_insert id b objects -> bt_get x (listed a') = if decide (id = x) then Some (counted a' (id, b)) else (fun b => counted a' (x, b)) <$> bt_get x objects.
Proof using Type. intros Ho. rewrite listed_get, Ho, bt_get_insert. by case_decide; subst. Qed.

Lemma inserted_same_but a a' id b :
  ma_emails a' = ma_emails a -> st_objects (ma_mailboxes a') = bt_insert id b (st_objects (ma_mailboxes a)) -> same_but id (listed a) (listed a').
Proof using Type. intros He Ho. apply listed_same_but; [done|]. intros x Hx. by rewrite Ho, bt_get_insert, decide_False. Qed.

Lemma create_shows a a' b parent name roots :
  mail_account_ok a -> plain_tree (listed a) -> plain_tree (listed a') -> ma_emails a' = ma_emails a ->
  let id := (store_alloc_id (ma_mailboxes a)).1 in
  st_objects (ma_mailboxes a') = bt_insert id b (st_objects (ma_mailboxes a)) -> mb_name b = name -> mb_parent_id b = f_id <$> parent ->
  (forall p, parent = Some p -> p ∈ preorders roots) -> shows (listed a) roots ->
  shows (listed a') (tree_insert roots (Folder (mailbox_head id (with_counts 0 0 b) (path_join (f_path <$> parent) (encode_component name))) [])).2.
Proof using Type.
  intros Hok Ht Ht' He id Ho Hn Hp Hparent Hs.
  assert (bt_get id (st_objects (ma_mailboxes a)) = None) as Hnew by (exact (next_id_new a 0 _ [] (mao_store _ Hok) (allocated_start _))).
  pose proof (inserted_same_but a a' id b He Ho) as Hsame.
  assert (bt_get id (listed a') = Some (with_counts 0 0 b)) as Hb.
  { rewrite (listed_insert a' id b _ id Ho), decide_True by done. by rewrite (counted_emails a a'), counted_missing. }
  assert (bt_get id (listed a) = None) as Hnone by (by rewrite listed_get, Hnew).
  refine (proj2 (shows_create (listed a) (listed a') roots id Ht Ht' Hs Hsame _ _ _ Hnone Hb _ eq_refl)).
  destruct parent as [p|]; cbn [fmap option_fmap option_map] in *.
  - assert (f_head p ∈ heads roots) as Hh by (apply list_elem_of_fmap_2; by apply Hparent).
    destruct (shown_id _ _ Hs _ Hh) as (pb&_&Hl&_). rewrite <- Hn. apply (LocatedBelow _ _ (with_counts 0 0 b) (f_id p)); [done..|].
    by apply (located_created (listed a) (listed a') id Hsame _ _ Hnone).
  - rewrite <- Hn. by apply (LocatedTop _ _ (with_counts 0 0 b)).
Qed.

Lemma store_create_kept st s a parent name :
  view_ok st s a -> counters_left a -> trim name = name ->
  (forall p l, parent = Some p -> js_folders st = Some l -> p ∈ preorders (lg_tree l)) ->
  let '(st', s', _) := store_create_folder refresh_credentials parent name st s in
  settles st' s'.
Proof using Type.
  intros Hv Hleft Htrim Hparent. pose proof Hv as [Hc Ha Hok Hp Hs]. unfold store_create_folder. rewrite Hc.
  pose proof (mock_create serde_error to_value hash_order limit id_budget changes_to_value changes_from_value account_id s a Ha Hok Hleft parent name Htrim) as Hm.
  cbv zeta in Hm. destruct (sync_create_folder account_id s parent name) as [s' r] eqn:E.
  destruct r as [f|e].
  - rewrite (retried_done _ s s' (Ok f)) by done. destruct Hm as (b&Hw&Hn&Hpb&->&Hrole).
    eapply write_kept; [done|done|by apply keeps_roles_insert; left|]. intros a' l Ho He Hl Ht Ht' Hsl.
    apply (create_shows a a' b parent name); [done..| |done]. intros p Hpp. by apply (Hparent p l).
  - destruct Hm as [Hw Hu]. rewrite (retried_done _ s s' (Err e)) by (first [done|intros ? [= <-]; done]). by eapply refused_kept.
Qed.

Lemma store_delete_kept st s a id :
  view_ok st s a -> counters_left a ->
  let '(st', s', _) := store_delete_folder refresh_credentials id st s in
  settles st' s'.
Proof using Type.
  intros Hv Hleft. pose proof Hv as [Hc Ha Hok Hp Hs]. unfold store_delete_folder. rewrite Hc.
  pose proof (mock_delete serde_error to_value hash_order limit id_budget changes_to_value changes_from_value account_id s a Ha Hok Hleft id) as Hm.
  destruct (sync_delete_folder account_id s id) as [s' r] eqn:E. destruct r as [[]|e].
  - rewrite (retried_done _ s s' (Ok tt)) by done. destruct Hm as ([b Hb]&Hleaf&Hw).
    eapply write_kept; [done|done|apply keeps_roles_remove|]. intros a' l Ho He Hl Ht Ht' Hsl.
    refine (proj2 (shows_delete (listed a) (listed a') (lg_tree l) id Ht Ht' Hsl _ (counted a (id, b)) _ _ _)).
    + apply listed_same_but; [done|]. intros x Hx. by rewrite Ho, bt_get_remove, decide_False.
    + by rewrite listed_get, Hb.
    + by rewrite listed_get, Ho, bt_get_remove, decide_True.
    + intros y yb. rewrite listed_get. intros (yb0&Hy&->)%fmap_Some. by apply (Hleaf y yb0).
  - destruct Hm as [Hw Hu]. rewrite (retried_done _ s s' (Err e)) by (first [done|intros ? [= <-]; done]). by eapply refused_kept.
Qed.

Lemma store_subscribe_kept st s a id subscribed :
  view_ok st s a -> counters_left a ->
  let '(st', s', _) := store_set_subscribed refresh_credentials id subscribed st s in
  settles st' s'.
Proof using Type.
  intros Hv Hleft. pose proof Hv as [Hc Ha Hok Hp Hs]. unfold store_set_subscribed. rewrite Hc.
  pose proof (mock_subscribe serde_error to_value hash_order limit id_budget changes_to_value changes_from_value account_id s a Ha Hok Hleft id subscribed) as Hm.
  destruct (sync_set_subscribed account_id s id subscribed) as [s' r] eqn:E. destruct r as [[]|e].
  - rewrite (retried_done _ s s' (Ok tt)) by done. destruct Hm as (b&Hb&Hw).
    eapply write_kept; [done|done|apply keeps_roles_insert; right; by exists b|]. intros a' l Ho He Hl Ht Ht' Hsl.
    refine (proj2 (shows_subscribe (listed a) (listed a') (lg_tree l) id Ht Hsl (inserted_same_but _ _ _ _ He Ho) (counted a (id, b)) subscribed _ _)).
    + by rewrite listed_get, Hb.
    + rewrite (listed_insert a' id _ _ id Ho), decide_True by done. by rewrite (counted_emails a a').
  - destruct Hm as [Hw Hu]. rewrite (retried_done _ s s' (Err e)) by (first [done|intros ? [= <-]; done]). by eapply refused_kept.
Qed.

Lemma store_rename_kept st s a folder parent name :
  view_ok st s a -> counters_left a ->
  (forall p, parent = Some p -> exists l, js_folders st = Some l /\ p ∈ preorders (lg_tree l)) ->
  let '(st', s', _) := store_rename_folder refresh_credentials folder parent name st s in
  settles st' s'.
Proof using Type.
  intros Hv Hleft Hparent. pose proof Hv as [Hc Ha Hok Hp Hs]. unfold store_rename_folder. rewrite Hc.
  pose proof (mock_rename serde_error to_value hash_order limit id_budget changes_to_value changes_from_value account_id s a Ha Hok Hleft (f_id folder) parent name) as Hm.
  destruct (sync_rename_folder account_id s (f_id folder) parent name) as [s' r] eqn:E. destruct r as [path|e].
  - rewrite (retried_done _ s s' (Ok path)) by done. destruct Hm as (->&b&Hb&Hw).
    eapply write_kept; [done|done|apply keeps_roles_insert; right; by exists b|]. intros a' l Ho He Hl Ht Ht' Hsl.
    refine (proj2 (shows_rename (listed a) (listed a') (lg_tree l) (f_id folder) Ht Ht' Hsl (inserted_same_but _ _ _ _ He Ho)
      (counted a (f_id folder, b)) name (f_id <$> parent) _ _ _ _)).
    + by rewrite listed_get, Hb.
    + rewrite (listed_insert a' _ _ _ (f_id folder) Ho), decide_True by done. by rewrite (counted_emails a a').
    + destruct parent as [p|]; [|done]. destruct (Hparent p eq_refl) as (l'&Hl'&Hin). rewrite Hl in Hl'. injection Hl' as <-.
      destruct (shown_id _ _ Hsl (f_head p)) as (pb&_&Hlp&_); [by apply list_elem_of_fmap_2|]. by exists (f_path p).
  - destruct Hm as [Hw Hu]. rewrite (retried_done _ s s' (Err e)) by (first [done|intros ? [= <-]; done]). by eapply refused_kept.
Qed.

(** ** The vfuncs *)
Abbreviation tree_holding := (tree_holding to_lowercase refresh_credentials to_string from_str replace_file).

Lemma tree_find_elem tree path f : tree_find tree path = Some f -> f ∈ preorders tree.
Proof using Type. unfold tree_find. rewrite tree_iter_preorders. by intros [? _]%find_Some_elem. Qed.

Lemma holding_kept wanted st s a :
  view_ok st s a ->
  exists st' r, tree_holding wanted st s = (st', s, r) /\ view_ok st' s a /\
    forall tree, r = Ok tree -> exists l, js_folders st' = Some l /\ lg_tree l = tree.
Proof using refresh_keeps.
  intros Hv. unfold FolderStore.tree_holding. destruct (folders_kept false st s a Hv) as (st1&r1&->&Hv1&Hr1).
  destruct r1 as [held|e]; [|by exists st1, (Err e)]. destruct (wanted held); [by exists st1, (Ok held)|]. by apply folders_kept.
Qed.

Definition run_op (op : FolderOp) (st : JmapStore File) (s : ServerState) : JmapStore File * ServerState :=
  match op with
  | OpFolders refresh => (folders refresh st s).1
  | OpCreate parent name =>
      (create_folder to_lowercase refresh_credentials to_string from_str replace_file parent name st s).1
  | OpDelete path => (delete_folder to_lowercase refresh_credentials to_string from_str replace_file path st s).1
  | OpRename from to => (rename_folder to_lowercase refresh_credentials to_string from_str replace_file from to st s).1
  | OpSubscribe path subscribed =>
      (subscribe_folder to_lowercase refresh_credentials to_string from_str replace_file path subscribed st s).1
  | OpMayAdd mailbox =>
      (may_add_items to_lowercase refresh_credentials to_string from_str replace_file mailbox st s).1
  | OpPushed => (pushed_folder_list_change to_lowercase refresh_credentials to_string from_str replace_file st s).1
  | OpReconnect => (store_connection account_id st, s)
  end.

(** A folder is created under a name that has no white space around it: the client trims the name
    that it shows, and the server does not. *)
Definition op_named (op : FolderOp) : Prop := match op with OpCreate _ name => trim name = name | _ => True end.

Lemma run_op_kept op st s a : view_ok st s a -> counters_left a -> op_named op -> settles (run_op op st s).1 (run_op op st s).2.
Proof using refresh_keeps.
  intros Hv Hleft Hname. destruct op as [refresh|parent name|path|from to|path subscribed|mailbox| |]; cbn [run_op op_named] in *.
  - destruct (folders_kept refresh st s a Hv) as (st1&r&->&Hv1&_). by eapply view_settles.
  - unfold create_folder. destruct parent as [[|c path]|].
    1, 3: pose proof (store_create_kept st s a None name Hv Hleft Hname ltac:(done)) as H; destruct (store_create_folder _ None name st s) as [[st' s'] r]; exact H.
    destruct (holding_kept (has_path (c :: path)) st s a Hv) as (st1&r&->&Hv1&Hr). destruct r as [tree|e]; [|by eapply view_settles].
    destruct (tree_find tree (c :: path)) as [p|] eqn:Ef; [|by eapply view_settles].
    pose proof (store_create_kept st1 s a (Some p) name Hv1 Hleft Hname) as H. destruct (store_create_folder _ (Some p) name st1 s) as [[st' s'] r].
    apply H. intros p' l' [= <-] Hl'. destruct (Hr tree eq_refl) as (l&Hl&<-). rewrite Hl in Hl'. injection Hl' as <-. by eapply tree_find_elem.
  - unfold delete_folder. destruct (holding_kept (has_path path) st s a Hv) as (st1&r&->&Hv1&Hr). destruct r as [tree|e]; [|by eapply view_settles].
    destruct (tree_find tree path) as [f|]; [|by eapply view_settles].
    pose proof (store_delete_kept st1 s a (f_id f) Hv1 Hleft) as H. destruct (store_delete_folder _ (f_id f) st1 s) as [[st' s'] r]. exact H.
  - unfold rename_folder. destruct (holding_kept (fun tree => has_path from tree && match (path_split to).1 with None => true | Some parent => has_path parent tree end) st s a Hv)
      as (st1&r&->&Hv1&Hr). destruct r as [tree|e]; [|by eapply view_settles].
    destruct (tree_find tree from) as [f|]; [|by eapply view_settles].
    destruct (path_split to).1 as [path|].
    + destruct (tree_find tree path) as [p|] eqn:Ef; [|by eapply view_settles].
      pose proof (store_rename_kept st1 s a f (Some p) (renamed_to f to) Hv1 Hleft) as H. destruct (store_rename_folder _ f (Some p) _ st1 s) as [[st' s'] r].
      apply H. intros p' [= <-]. destruct (Hr tree eq_refl) as (l&Hl&<-). exists l. split; [done|]. by eapply tree_find_elem.
    + pose proof (store_rename_kept st1 s a f None (renamed_to f to) Hv1 Hleft ltac:(done)) as H. destruct (store_rename_folder _ f None _ st1 s) as [[st' s'] r]. exact H.
  - unfold subscribe_folder. destruct (holding_kept (has_path path) st s a Hv) as (st1&r&->&Hv1&Hr). destruct r as [tree|e]; [|by eapply view_settles].
    destruct (tree_find tree path) as [f|]; [|by eapply view_settles].
    pose proof (store_subscribe_kept st1 s a (f_id f) subscribed Hv1 Hleft) as H. destruct (store_set_subscribed _ (f_id f) subscribed st1 s) as [[st' s'] r]. exact H.
  - unfold may_add_items. destruct (folders_kept false st s a Hv) as (st1&r&->&Hv1&_). by eapply view_settles.
  - unfold pushed_folder_list_change. destruct (held_folders st); [|by eapply view_settles].
    destruct (folders_kept true st s a Hv) as (st1&r&->&Hv1&_). destruct r; by eapply view_settles.
  - eapply (view_settles _ _ a). destruct Hv. by split.
Qed.

(** Operations in sequence. *)
Definition run_ops (ops : list FolderOp) (p : JmapStore File * ServerState) : JmapStore File * ServerState :=
  fold_left (fun p op => run_op op p.1 p.2) ops p.

(** A server whose counters have a value left and whose mailboxes are not nested too deep. *)
Definition roomy (s : ServerState) : Prop := forall a, bt_get account_id (sv_accounts s) = Some a -> counters_left a /\ shallow a.

Lemma run_ops_kept ops p a :
  view_ok p.1 p.2 a -> Forall op_named ops -> (forall before after, ops = before ++ after -> roomy (run_ops before p).2) ->
  exists a', view_ok (run_ops ops p).1 (run_ops ops p).2 a'.
Proof using refresh_keeps.
  revert p a. induction ops as [|op ops IH]; intros p a Hv Hn Hr; [by exists a|]. apply Forall_cons in Hn as [Hop Hn].
  destruct (Hr [] (op :: ops) eq_refl a (vo_account _ _ _ Hv)) as [Hleft _].
  destruct (run_op_kept op p.1 p.2 a Hv Hleft Hop) as (a'&Ha'&Hv'). apply (IH (run_op op p.1 p.2) a'); [|done|].
  - apply Hv'. exact (proj2 (Hr [op] ops eq_refl a' Ha')).
  - intros before after ->. exact (Hr (op :: before) after eq_refl).
Qed.

Lemma shows_perm tree roots roots' : shows tree roots -> shows tree roots' -> heads roots ≡ₚ heads roots'.
Proof using Type.
  intros [[_ Hn] Hs] [[_ Hn'] Hs']. apply NoDup_Permutation; [by eapply NoDup_fmap_1..|]. intros h. by rewrite Hs, Hs'.
Qed.

(** C4: The folder list that the store holds stays the folder list of the server. After any
    sequence of creating, deleting, renaming, moving and subscribing folders, with refreshes,
    pushes and reconnects in between, the held tree has exactly the folders (with path, name,
    role, counts, subscription and right to add) that a new listing of the server gives. No other
    client writes meanwhile, no folder is created under a name with white space around it, and at
    every state of the run the counters of the server have a value left and no mailbox is nested
    deeper than [MAX_DEPTH]. *)
Theorem folder_view_kept ops st s a :
  view_ok st s a -> Forall op_named ops ->
  (forall before after, ops = before ++ after -> roomy (run_ops before (st, s)).2) ->
  let '(st', s') := run_ops ops (st, s) in
  exists state roots, sync_folder_tree account_id s' = (s', Ok (state, roots)) /\
    forall l, js_folders st' = Some l -> heads (lg_tree l) ≡ₚ heads roots.
Proof using refresh_keeps.
  intros Hv Hn Hr. destruct (run_ops_kept ops (st, s) a Hv Hn Hr) as [a' Hv']. destruct (run_ops ops (st, s)) as [st' s']. destruct Hv' as [Hc Ha Hok Hp Hs]. cbn [fst snd] in *.
  destruct (mock_folder_tree serde_error to_value hash_order limit id_budget changes_to_value changes_from_value account_id s' a' Ha Hok Hp) as (roots&Ht&Hr').
  exists (store_state (ma_mailboxes a')), roots. split; [exact Ht|]. intros l Hl. eapply shows_perm; [by apply Hs|done].
Qed.
End kept.
