(* ===== verification/FolderRefresh.v ===== *)
(** Refreshing the held folder listing (jmap-mail/src/store.rs: [folders]): a refresh next to
    other calls of the store, a refresh after other clients changed the mailboxes, and the
    listing of an earlier process read from the disk. *)

From Stdlib Require Import Ascii String.
From stdpp Require Import prelude strings gmap.
From S2P Require Import Prelude BTree Text Strings Json Wire Proto Email MailboxWire Store SetOps Patch SetMethod MockMail MockMailSet MockMailbox MailboxForest Path FolderTree FolderForest FolderEdit FolderBuild FolderListing MailboxListing Session Changes ChangesSync SetChunk SetSend FolderShared FolderView FolderFollow MockQuery MailListing MockClient MockReader MailFolders FolderDisk FolderStore FolderServer FolderKept.

Local Open Scope rust_scope.

(** ** A refresh next to other calls

    Between the snapshot and the write-back of one refresh, other threads edit the listing and
    write back refreshes of their own, each started at any time in any world. *)
Section calls.
Context {W : Type} `{!FolderClient W}.
Variable to_lowercase : text -> text.
Variable refresh_credentials : W -> W * bool.
Variable account_id : Id.

Inductive SlotCall := CallEdit (edit : FolderTree -> FolderTree) | CallRefresh (held : option Listing) (w : W).

Definition run_call (slot : option Listing) (c : SlotCall) : option Listing :=
  match c with
  | CallEdit edit => edit_listing edit <$> slot
  | CallRefresh held w =>
      match fetch_listing to_lowercase refresh_credentials account_id held w with
      | (_, Ok listing) => (write_back (lg_generation <$> held) listing slot).1
      | (_, Err _) => slot
      end
  end.

Definition is_edit (c : SlotCall) : bool := match c with CallEdit _ => true | CallRefresh _ _ => false end.

Definition edits (calls : list SlotCall) : nat := length (filter (fun c => is_edit c = true) calls).

Lemma fetch_generation held w w' l :
  fetch_listing to_lowercase refresh_credentials account_id held w = (w', Ok l) -> lg_generation l = default 0%N (lg_generation <$> held).
Proof using Type.
  unfold fetch_listing. destruct held as [l0|]; destruct (retried _ _ _) as [w1 r]; intros [= _ E].
  - apply rbind_ok in E as ([]&_&[= <-]); done.
  - apply rbind_ok in E as (?&_&[= <-]). done.
Qed.

(** Only an edit changes the generation. *)
Lemma run_call_generation l c :
  (lg_generation l < u64_modulus)%N ->
  exists l', run_call (Some l) c = Some l' /\
    lg_generation l' = match c with CallEdit _ => wrapping_succ (lg_generation l) | CallRefresh _ _ => lg_generation l end.
Proof using Type.
  intros Hl. destruct c as [edit|held w]; cbn [run_call]; [by eexists|].
  destruct (fetch_listing _ _ _ held w) as [w' [listing|e]] eqn:Ef; [|by eexists]. apply fetch_generation in Ef. unfold write_back.
  destruct held as [h|]; cbn in *; [|by eexists]. case_bool_decide as E; cbn; eexists; (split; [done|]); [by rewrite Ef|done].
Qed.

Lemma run_calls_generation calls l :
  (lg_generation l < u64_modulus)%N ->
  exists l', fold_left run_call calls (Some l) = Some l' /\ lg_generation l' = ((lg_generation l + N.of_nat (edits calls)) mod u64_modulus)%N.
Proof using Type.
  revert l. induction calls as [|c calls IH]; intros l Hl.
  { exists l. split; [done|]. cbn. rewrite N.add_0_r. symmetry. by apply N.mod_small. }
  cbn [fold_left]. destruct (run_call_generation l c Hl) as (l1&->&Hg1). assert (lg_generation l1 < u64_modulus)%N as Hl1.
  { rewrite Hg1. destruct c; [|done]. by apply N.mod_lt. }
  destruct (IH l1 Hl1) as (l'&->&Hg'). exists l'. split; [done|]. rewrite Hg', Hg1. unfold edits. rewrite filter_cons. destruct c as [edit|held w].
  - rewrite decide_True by done. cbn [length]. unfold wrapping_succ. rewrite N.Div0.add_mod_idemp_l. f_equal. lia.
  - by rewrite decide_False.
Qed.

(** C10: A refresh never undoes an edit. Between the snapshot of a refresh and its answer, other
    threads may create, delete, rename and subscribe folders and refresh the listing
    themselves, in any order and on any state of the server. If any of them edited the listing,
    the late answer is dropped and the caller gets the tree with the edits; if none did, the
    answer is held. This is exact up to 2^64 edits during one request. *)
Theorem refresh_keeps_edits l calls listing :
  (lg_generation l < u64_modulus)%N -> (N.of_nat (edits calls) < u64_modulus)%N ->
  exists current, fold_left run_call calls (Some l) = Some current /\
    write_back (Some (lg_generation l)) listing (Some current) =
      if decide (edits calls = 0%nat) then (Some listing, listing) else (Some current, current).
Proof using Type.
  intros Hl He. destruct (run_calls_generation calls l Hl) as (current&Hrun&Hg). exists current. split; [done|]. unfold write_back.
  case_decide as E.
  - rewrite bool_decide_eq_true_2; [done|]. rewrite Hg, E, N.add_0_r. by apply N.mod_small.
  - rewrite bool_decide_eq_false_2; [done|]. rewrite Hg. intros Heq.
    destruct (N.lt_ge_cases (lg_generation l + N.of_nat (edits calls)) u64_modulus) as [Hlt|Hge].
    + rewrite N.mod_small in Heq by done. lia.
    + replace (lg_generation l + N.of_nat (edits calls))%N with ((lg_generation l + N.of_nat (edits calls) - u64_modulus) + 1 * u64_modulus)%N in Heq by lia.
      rewrite N.Div0.mod_add, N.mod_small in Heq by lia. lia.
Qed.
End calls.

(** ** A refresh after other clients changed the mailboxes *)

(** The tree shows the mailboxes but for the numbers of messages. *)
Definition shows_folders (tree : btmap Id Mailbox) (roots : FolderTree) : Prop :=
  exists tree0, shows tree0 roots /\ forall id, with_counts 0 0 <$> bt_get id tree0 = with_counts 0 0 <$> bt_get id tree.

Lemma shows_shows_folders tree roots : shows tree roots -> shows_folders tree roots.
Proof. intros Hs. by exists tree. Qed.

(** The mailboxes are the same, whatever their messages are. *)
Lemma shows_folders_same a0 a roots :
  shows_folders (listed a0) roots -> (forall id, store_get (ma_mailboxes a) id = store_get (ma_mailboxes a0) id) -> shows_folders (listed a) roots.
Proof.
  intros (tree0&Hs&Ht) Hsame. exists tree0. split; [done|]. intros id. rewrite Ht, !listed_get.
  specialize (Hsame id). unfold store_get in Hsame. rewrite Hsame. clear. destruct (bt_get id _) as [b|]; reflexivity.
Qed.

Section mock.
Variable serde_error : Value -> text.
Variable to_value : Mailbox -> result Value Error.
Variable hash_order : gset text -> list text.
Variable limit : option nat.
Variable id_budget : IdBudget.
Variable changes_to_value : ChangesResponse -> Value.
Variable changes_from_value : Value -> result ChangesResponse text.
Hypothesis serde_roundtrip : forall r, changes_from_value (changes_to_value r) = Ok r.
Variable to_lowercase : text -> text.
Context {File : Type} (to_string : Value -> File) (from_str : File -> option Value) (replace_file : option File -> File -> option File).
Variable refresh_credentials : ServerState -> ServerState * bool.
Hypothesis refresh_keeps : forall s, (refresh_credentials s).1 = s.
Variable account_id : Id.

#[local] Instance refresh_client : FolderClient ServerState :=
  mock_folders serde_error to_value hash_order limit id_budget changes_to_value changes_from_value.

Lemma mock_mailbox_changes s a (old : Store Mailbox) :
  bt_get account_id (sv_accounts s) = Some a -> sv_changes_never_terminates s = false ->
  store_wf old -> rtc store_step old (ma_mailboxes a) ->
  (st_state (ma_mailboxes a) < st_state old + N.of_nat MAX_CHANGES_PAGES)%N -> budget_fits id_budget (ma_mailboxes a) (st_state old) ->
  exists c, client_mailbox_changes s account_id (store_state old) = (s, Ok c) /\ cs_new_state c = store_state (ma_mailboxes a) /\
    (changeset_is_empty c = true -> forall id, store_get (ma_mailboxes a) id = store_get old id).
Proof using serde_roundtrip.
  intros Ha Hn Hwf Hsteps Hpages Hfit.
  destruct (all_changes_store (mailbox_changes_caller changes_to_value) s (ma_mailboxes a) old (sv_changes_page_size s) (sv_stalwart_shaped s)
    changes_to_value changes_from_value id_budget account_id (lit "Mailbox") (lit "urn:ietf:params:jmap:mail")) as (c&Hall&Hst&_&Hnet); [done| |done..|].
  { intros capabilities method state. unfold mailbox_changes_caller, mailbox_changes, account_mut, never_terminating. cbn [changes_request_new cr_account_id].
    rewrite Ha, Hn. cbn [ok_or rbind andb]. by destruct (store_changes _ _ _ _). }
  exists c. split_and!; [exact Hall|done|]. intros He id. eapply net_change_values; [done..|].
  change (cs_created c ++ cs_updated c ++ cs_destroyed c) with (changeset_ids c). rewrite (changeset_empty_ids c He). apply not_elem_of_nil.
Qed.

(** A refresh after the mailboxes changed. *)
Lemma refresh_shows_now st s a a0 l :
  js_connection st = Some account_id -> js_folders st = Some l ->
  lg_state l = store_state (ma_mailboxes a0) -> shows_folders (listed a0) (lg_tree l) ->
  store_wf (ma_mailboxes a0) -> rtc store_step (ma_mailboxes a0) (ma_mailboxes a) ->
  bt_get account_id (sv_accounts s) = Some a -> mail_account_ok a -> presentable a -> sv_changes_never_terminates s = false ->
  (st_state (ma_mailboxes a) < st_state (ma_mailboxes a0) + N.of_nat MAX_CHANGES_PAGES)%N ->
  budget_fits id_budget (ma_mailboxes a) (st_state (ma_mailboxes a0)) ->
  exists st' tree generation,
    folders to_lowercase refresh_credentials to_string from_str replace_file true st s = (st', s, Ok tree) /\
    js_folders st' = Some (Build_Listing (store_state (ma_mailboxes a)) tree generation) /\ shows_folders (listed a) tree /\ js_connection st' = Some account_id.
Proof using serde_roundtrip refresh_keeps.
  intros Hc Hl Hst Hs Hwf Hsteps Ha Hok Hp Hn Hpages Hfit.
  destruct (mock_mailbox_changes s a (ma_mailboxes a0) Ha Hn Hwf Hsteps Hpages Hfit) as (c&Hall&Hnew&Hsame).
  destruct (mock_folder_tree serde_error to_value hash_order limit id_budget changes_to_value changes_from_value account_id s a Ha Hok Hp) as (roots&Htree&Hroots).
  unfold folders. rewrite Hc, Hl. unfold fetch_listing. rewrite (retried_reads _ refresh_keeps); [|intros s'; apply since_reads].
  unfold folder_tree_since, rebuild. rewrite Hst, Hall. change (@sync_folder_tree ServerState refresh_client account_id s) with
    (@sync_folder_tree ServerState (mock_folders serde_error to_value hash_order limit id_budget changes_to_value changes_from_value) account_id s).
  destruct (changeset_is_empty c) eqn:E; [|rewrite Htree]; cbn [rbind write_back fmap option_fmap option_map]; rewrite bool_decide_eq_true_2 by done; cbn [negb].
  - exists (persist_folders_to_disk to_string replace_file (cs_new_state c) (lg_tree l)
      (with_folders (Some (Build_Listing (cs_new_state c) (lg_tree l) (lg_generation l))) st)), (lg_tree l), (lg_generation l).
    split_and!; [done|cbn; by rewrite Hnew| |exact Hc]. eapply shows_folders_same; [exact Hs|]. intros id. by apply (Hsame eq_refl).
  - eexists _, roots, (lg_generation l). split_and!; [done|done| |exact Hc]. by apply shows_shows_folders.
Qed.
(** C7: A refresh shows what other clients did. The listing was the server's at some earlier
    time and was not edited since; other clients then created, changed and destroyed mailboxes
    in any number of steps, and messages came and went. A refresh succeeds, and the tree that
    it answers and holds shows exactly the mailboxes of now, at the paths of their names (the
    numbers of messages are those of the last full listing). *)
Theorem refresh_catches_up st s a a0 l :
  js_connection st = Some account_id -> js_folders st = Some l ->
  lg_state l = store_state (ma_mailboxes a0) -> shows_folders (listed a0) (lg_tree l) ->
  store_wf (ma_mailboxes a0) -> rtc store_step (ma_mailboxes a0) (ma_mailboxes a) ->
  bt_get account_id (sv_accounts s) = Some a -> mail_account_ok a -> presentable a -> sv_changes_never_terminates s = false ->
  (st_state (ma_mailboxes a) < st_state (ma_mailboxes a0) + N.of_nat MAX_CHANGES_PAGES)%N ->
  budget_fits id_budget (ma_mailboxes a) (st_state (ma_mailboxes a0)) ->
  exists st' tree generation,
    folders to_lowercase refresh_credentials to_string from_str replace_file true st s = (st', s, Ok tree) /\
    js_folders st' = Some (Build_Listing (store_state (ma_mailboxes a)) tree generation) /\ shows_folders (listed a) tree.
Proof using serde_roundtrip refresh_keeps.
  intros Hc Hl Hst Hs Hwf Hsteps Ha Hok Hp Hn Hpages Hfit. destruct (refresh_shows_now st s a a0 l) as (st'&tree&generation&?&?&?&_); [done..|].
  by exists st', tree, generation.
Qed.
End mock.

(** ** A restart without a network *)
Section restart.
Context {W File : Type} `{!FolderClient W}.
Variable to_lowercase : text -> text.
Variable refresh_credentials : W -> W * bool.
Variable to_string : Value -> File.
Variable from_str : File -> option Value.
Variable replace_file : option File -> File -> option File.
Hypothesis recursion_limit : forall v, from_str (to_string v) = if decide (nesting v < 128) then Some v else None.

Abbreviation folders := (folders to_lowercase refresh_credentials to_string from_str replace_file).

(** C36: The folders survive a restart without a network. A process that listed or refreshed the
    account over a connection leaves the tree that it answered in the cache file; a later
    process without a connection answers that tree, and holds it with the state of the listing
    for the next refresh, if no folder is more than 62 deep. A deeper tree, which the listing
    allows up to [MAX_DEPTH], does not come back: the reader's nesting limit is reached and the
    later process has no folders. *)
Theorem offline_restart refresh st w st' w' tree :
  (forall old new, replace_file old new = Some new) ->
  is_Some (js_connection st) -> (refresh = true \/ js_folders st = None) ->
  folders refresh st w = (st', w', Ok tree) -> Forall folder_head_ok (heads tree) ->
  exists state, held_folders st' = Some tree /\ lg_state <$> js_folders st' = Some state /\
  forall w2, folders false (Build_JmapStore File None None (js_file st')) w2 =
    if decide (tree_depth tree <= 62)
    then (Build_JmapStore File None (Some (Build_Listing state tree 0)) (js_file st'), w2, Ok tree)
    else (Build_JmapStore File None None (js_file st'), w2, Err Disconnected).
Proof using recursion_limit.
  intros Hdisk [account_id Hc] Hr Hf Hok. unfold FolderStore.folders in Hf. rewrite Hc in Hf.
  assert (exists listing, st' = persist_folders_to_disk to_string replace_file (lg_state listing) (lg_tree listing) (with_folders (Some listing) st) /\
    lg_tree listing = tree) as (listing&->&<-).
  { destruct (js_folders st) as [l|] eqn:El; [destruct Hr as [->|]; [|done]|];
      (destruct (fetch_listing _ _ _ _ _) as [w1 [listing|e]]; [|done]); cbn [write_back fmap option_fmap option_map] in Hf;
      rewrite ?bool_decide_eq_true_2 in Hf by done; cbn [negb] in Hf; injection Hf as <- <- <-; by eexists. }
  exists (lg_state listing). split_and!; [done|done|]. intros w2. unfold FolderStore.folders. cbn [js_connection js_folders js_file hydrate_folders_from_disk].
  unfold hydrate_folders_from_disk. cbn [js_folders js_file persist_folders_to_disk with_file with_folders]. rewrite Hdisk. cbn [mbind option_bind].
  rewrite (folder_cache_reads _ _ recursion_limit) by done. by case_decide.
Qed.
End restart.
