(* ===== verification/FolderRaces.v ===== *)
(** A small account: instances of the folder theorems, and three histories after which the
    held folder tree is wrong (jmap-mail/src/store.rs, jmap-client/src/mail.rs). *)

From Stdlib Require Import Ascii String.
From stdpp Require Import prelude strings gmap.
From S2P Require Import Prelude BTree Text Strings Json Wire Proto Email MailboxWire Store SetOps Patch SetMethod MockMail MockMailSet MockMailbox MailboxForest Path FolderTree FolderForest FolderEdit FolderBuild FolderListing MailboxListing Session Changes ChangesSync SetChunk SetSend FolderShared FolderView FolderFollow MockQuery MailListing MockClient MockReader MailFolders FolderDisk FolderStore FolderServer FolderKept FolderRefresh.

Local Open Scope rust_scope.

(** ** An account without mailboxes *)
Definition no_error_text (v : Value) : text := [].

Definition empty_account : AccountState :=
  {| ma_mailboxes := store_new (lit "M"); ma_emails := store_new (lit "E"); ma_threads := store_new (lit "T");
     ma_current_user_principal_id := None; ma_blobs := []; ma_next_blob_id := 0; ma_share_notifications := store_new (lit "N") |}.

Definition empty_server : ServerState := serving empty_account 1.

(** The bytes of a file are the value that they hold, if it is not nested too deep. *)
Definition file_text (v : Value) : Value := v.
Definition file_value (v : Value) : option Value := if decide (nesting v < 128) then Some v else None.
Definition file_replaced (old : option Value) (new : Value) : option Value := Some new.
Definition no_refresh (s : ServerState) : ServerState * bool := (s, false).

#[local] Instance small_client : FolderClient ServerState :=
  mock_folders no_error_text (fun _ => Ok Null) elements None budget_per_sync changes_to_value changes_from_value.

Abbreviation small_folders := (folders (fun t => t) no_refresh file_text file_value file_replaced).
Abbreviation small_op := (run_op no_error_text (fun _ => Ok Null) elements None budget_per_sync changes_to_value changes_from_value (fun t => t)
  file_text file_value file_replaced no_refresh (lit "A")).

Definition connected_store : JmapStore Value := Build_JmapStore Value (Some (lit "A")) None None.

Lemma empty_account_ok : mail_account_ok empty_account.
Proof. split; [apply store_new_wf|split; [apply bt_ok_nil|done..]|apply bt_ok_nil|done]. Qed.

Lemma empty_server_ok : mail_server_ok empty_server.
Proof. intros id a. cbn [sv_accounts empty_server serving bt_get]. case_decide; [|done]. intros [= <-]. apply empty_account_ok. Qed.

(** Few mailboxes without a role can be shown. *)
Lemma presentable_few a :
  (length (st_objects (ma_mailboxes a)) <= MAX_DEPTH)%nat -> Forall (fun e => mb_role e.2 = None) (st_objects (ma_mailboxes a)) -> presentable a.
Proof.
  intros Hl Hr. split.
  - intros id n Hn%rooted_le. lia.
  - intros id b id' b' r Hb _ E. apply bt_get_Some_elem in Hb. rewrite Forall_forall in Hr. apply Hr in Hb. cbn in Hb. by rewrite Hb in E.
Qed.

Lemma empty_view : view_ok (File := Value) (lit "A") connected_store empty_server empty_account.
Proof.
  split; [done|done|apply empty_account_ok| |done]. apply presentable_few; [cbn; lia|constructor].
Qed.

(** ** The user makes folders *)
Definition made_ops : list FolderOp :=
  [OpFolders true; OpCreate None (lit "Work"); OpCreate (Some (lit "Work")) (lit "Bills/2026"); OpCreate None (lit "Home");
   OpSubscribe (lit "Home") false; OpRename (lit "Work") (lit "Home/Work"); OpFolders true; OpDelete (lit "Home/Work/Bills%2F2026")].

Definition small_ops : list FolderOp -> JmapStore Value * ServerState -> JmapStore Value * ServerState :=
  run_ops no_error_text (fun _ => Ok Null) elements None budget_per_sync changes_to_value changes_from_value (fun t => t)
    file_text file_value file_replaced no_refresh (lit "A").

Definition made : JmapStore Value * ServerState := small_ops made_ops (connected_store, empty_server).

(** What each step asks, as a test. *)
Definition few_left (s : ServerState) : bool :=
  match bt_get (lit "A") (sv_accounts s) with
  | Some a => (st_next_id (ma_mailboxes a) + 1 <=? u64_max)%N && (st_state (ma_mailboxes a) <? u64_max)%N &&
      (length (st_objects (ma_mailboxes a)) <=? MAX_DEPTH)%nat && forallb (fun e => bool_decide (mb_role e.2 = None)) (st_objects (ma_mailboxes a))
  | None => false
  end.

Definition name_plain (op : FolderOp) : bool := match op with OpCreate _ name => bool_decide (trim name = name) | _ => true end.

Fixpoint ops_fine (ops : list FolderOp) (p : JmapStore Value * ServerState) : bool :=
  few_left p.2 && match ops with [] => true | op :: ops => name_plain op && ops_fine ops (small_op op p.1 p.2) end.

Lemma few_left_spec s a : few_left s = true -> bt_get (lit "A") (sv_accounts s) = Some a -> counters_left a /\ presentable a.
Proof.
  unfold few_left. intros Hf Ha. rewrite Ha in Hf. rewrite !andb_true_iff, N.leb_le, N.ltb_lt, Nat.leb_le, forallb_forall in Hf.
  destruct Hf as [[[H1 H2] H3] H4]. split; [done|]. apply presentable_few; [done|]. apply Forall_forall. intros e He.
  apply list_elem_of_In, H4 in He. by apply bool_decide_eq_true in He.
Qed.

Lemma ops_fine_named ops p : ops_fine ops p = true -> Forall op_named ops.
Proof.
  revert p. induction ops as [|op ops IH]; intros p Hf; [constructor|]. cbn [ops_fine] in Hf. rewrite !andb_true_iff in Hf. destruct Hf as (_&Hn&Hf).
  constructor; [|by eapply IH]. destruct op; try done. by apply bool_decide_eq_true in Hn.
Qed.

Lemma ops_fine_roomy ops p :
  ops_fine ops p = true -> forall before after, ops = before ++ after -> roomy (lit "A") (small_ops before p).2.
Proof.
  revert p. induction ops as [|op ops IH]; intros p Hf before after E; cbn [ops_fine] in Hf; rewrite !andb_true_iff in Hf; destruct Hf as (Hl&Hf).
  - symmetry in E. apply app_nil in E as [-> _]. intros a Ha. destruct (few_left_spec _ a Hl Ha) as [? Hp]. split; [done|exact (pr_depth _ Hp)].
  - destruct before as [|op' before]; [intros a Ha; destruct (few_left_spec _ a Hl Ha) as [? Hp]; split; [done|exact (pr_depth _ Hp)]|].
    injection E as <- ->. destruct Hf as [_ Hf]. exact (IH _ Hf before after eq_refl).
Qed.

Lemma folder_view_kept_witness :
  ((fun h => (fh_id h, fh_path h)) <$> heads (default [] (held_folders made.1))) = [(lit "M3", lit "Home"); (lit "M1", lit "Home/Work")] /\
  exists state roots, sync_folder_tree (lit "A") made.2 = (made.2, Ok (state, roots)) /\
    forall l, js_folders made.1 = Some l -> heads (lg_tree l) ≡ₚ heads roots.
Proof.
  split; [vm_compute; reflexivity|].
  assert (ops_fine made_ops (connected_store, empty_server) = true) as Hf by (vm_compute; reflexivity).
  unfold made, small_ops. pose proof (folder_view_kept no_error_text (fun _ => Ok Null) elements None budget_per_sync changes_to_value changes_from_value (fun t => t)
    file_text file_value file_replaced no_refresh (fun s => eq_refl) (lit "A") made_ops connected_store empty_server empty_account empty_view
    (ops_fine_named _ _ Hf) (ops_fine_roomy _ _ Hf)) as H.
  match goal with H : let '(_, _) := ?p in _ |- _ => destruct p as [st s] end. exact H.
Defined.

(** ** A request that makes two mailboxes and renames one of them *)
Definition forest_request : SetRequest Mailbox :=
  Build_SetRequest (lit "A") None (Some [(lit "a", with_place (lit "Lists") None (mailbox_new (lit "Lists"))); (lit "b", with_place (lit "2026") (Some (lit "M1")) (mailbox_new (lit "2026")))])
    (Some [(lit "M1", Object (place_patch (lit "Mailing lists") None))]) None.

Lemma new_mailbox_ok name parent : mailbox_ok (with_place name parent (mailbox_new name)).
Proof. split; cbn; try done. split; [apply bt_ok_nil|]. by split. Qed.

Lemma mailbox_set_forest_witness :
  (fun e => (e.1, mb_name e.2, mb_parent_id e.2)) <$> st_objects (ma_mailboxes (default empty_account (bt_get (lit "A")
    (sv_accounts (mailbox_set no_error_text empty_server forest_request None).1)))) =
    [(lit "M1", lit "Mailing lists", None); (lit "M2", lit "2026", Some (lit "M1"))] /\
  mail_server_ok (mailbox_set no_error_text empty_server forest_request None).1.
Proof.
  split; [vm_compute; reflexivity|].
  apply (mailbox_set_forest no_error_text empty_server forest_request None); [apply empty_server_ok| |].
  - split; cbn [forest_request sr_create sr_update from_option].
    + apply Forall_cons. split; [apply new_mailbox_ok|]. apply Forall_cons. split; [apply new_mailbox_ok|constructor].
    + constructor; [apply place_patch_ok|constructor].
  - intros a [= <-]. split; vm_compute; [discriminate|reflexivity].
Defined.

(** ** A refresh of a changed account *)
Definition refreshed_view : JmapStore Value * ServerState := small_ops (made_ops ++ [OpFolders true]) (connected_store, empty_server).

Definition before_account : AccountState := default empty_account (bt_get (lit "A") (sv_accounts refreshed_view.2)).

Definition other_client : SetRequest Mailbox :=
  Build_SetRequest (lit "A") None (Some [(lit "n", with_place (lit "News") None (mailbox_new (lit "News")))])
    (Some [(lit "M1", Object (place_patch (lit "Office") None))]) None.

Definition after_account : AccountState := (mailbox_set_account no_error_text false true None before_account other_client).1.

Definition after_server : ServerState := with_account (lit "A") after_account refreshed_view.2.

Definition held_listing : Listing := default (Build_Listing [] [] 0) (js_folders refreshed_view.1).

Lemma refreshed_view_ok : view_ok (lit "A") refreshed_view.1 refreshed_view.2 before_account.
Proof.
  assert (ops_fine (made_ops ++ [OpFolders true]) (connected_store, empty_server) = true) as Hf by (vm_compute; reflexivity).
  assert (exists a, view_ok (lit "A") refreshed_view.1 refreshed_view.2 a) as [a Hv].
  { unfold refreshed_view, small_ops.
    exact (run_ops_kept no_error_text (fun _ => Ok Null) elements None budget_per_sync changes_to_value changes_from_value (fun t => t)
      file_text file_value file_replaced no_refresh (fun s => eq_refl) (lit "A") (made_ops ++ [OpFolders true]) (connected_store, empty_server) empty_account empty_view
      (ops_fine_named _ _ Hf) (ops_fine_roomy _ _ Hf)). }
  pose proof (vo_account _ _ _ _ Hv) as Ha. unfold before_account. by rewrite Ha.
Qed.

Lemma other_client_ok : mailbox_request_ok other_client /\ mailbox_counters_ok before_account other_client.
Proof.
  split; split; cbn [other_client sr_create sr_update from_option]; [| |vm_compute; discriminate|vm_compute; reflexivity].
  - apply Forall_cons. split; [apply new_mailbox_ok|constructor].
  - apply Forall_cons. split; [apply place_patch_ok|constructor].
Qed.

Lemma refresh_catches_up_witness :
  (fun h => (fh_id h, fh_path h)) <$> heads (lg_tree held_listing) = [(lit "M3", lit "Home"); (lit "M1", lit "Home/Work")] /\
  exists st' tree generation, small_folders true refreshed_view.1 after_server = (st', after_server, Ok tree) /\
    js_folders st' = Some (Build_Listing (store_state (ma_mailboxes after_account)) tree generation) /\ shows_folders (listed after_account) tree.
Proof.
  split; [vm_compute; reflexivity|]. pose proof refreshed_view_ok as [_ _ Hok _ Hs]. destruct other_client_ok as [Hr Hc].
  apply (refresh_catches_up no_error_text (fun _ => Ok Null) elements None budget_per_sync changes_to_value changes_from_value changes_roundtrip (fun t => t)
    file_text file_value file_replaced no_refresh (fun s => eq_refl) (lit "A") refreshed_view.1 after_server after_account before_account held_listing).
  - vm_compute. reflexivity.
  - vm_compute. reflexivity.
  - vm_compute. reflexivity.
  - apply shows_shows_folders, Hs. vm_compute. reflexivity.
  - apply (mao_store _ Hok).
  - apply (mailbox_set_account_spec no_error_text false true None before_account other_client (mao_store _ Hok) (mao_forest _ Hok) Hr Hc).
  - vm_compute. reflexivity.
  - by apply mail_account_kept.
  - apply presentable_few; [vm_compute; lia|]. by_decide.
  - reflexivity.
  - vm_compute. reflexivity.
  - split; vm_compute; discriminate.
Defined.

(** ** A restart *)
Definition ids_and_paths (tree : FolderTree) : list (Id * text) := (fun h => (fh_id h, fh_path h)) <$> heads tree.

Definition earlier_process : JmapStore Value := (small_folders true refreshed_view.1 after_server).1.1.
Definition earlier_tree : FolderTree := default [] (held_folders earlier_process).

Lemma offline_restart_witness :
  exists state, held_folders earlier_process = Some earlier_tree /\ lg_state <$> js_folders earlier_process = Some state /\
    forall w2, small_folders false (Build_JmapStore Value None None (js_file earlier_process)) w2 =
      if decide (tree_depth earlier_tree <= 62)
      then (Build_JmapStore Value None (Some (Build_Listing state earlier_tree 0)) (js_file earlier_process), w2, Ok earlier_tree)
      else (Build_JmapStore Value None None (js_file earlier_process), w2, Err Disconnected).
Proof.
  apply (offline_restart (fun t => t) no_refresh file_text file_value file_replaced (fun v => eq_refl) true refreshed_view.1 after_server
    earlier_process after_server).
  - done.
  - vm_compute. by eexists.
  - by left.
  - vm_compute. reflexivity.
  - by_decide.
Defined.

(** ** Calls during a refresh *)
Definition busy_calls : list SlotCall :=
  [CallRefresh (Some held_listing) refreshed_view.2; CallEdit (fun tree => (set_subscribed tree (lit "M3") true).2);
   CallRefresh (Some held_listing) after_server; CallRefresh None after_server].

Lemma refresh_keeps_edits_witness :
  exists current, fold_left (run_call (fun t => t) no_refresh (lit "A")) busy_calls (Some held_listing) = Some current /\
    write_back (Some (lg_generation held_listing)) held_listing (Some current) = (Some current, current).
Proof.
  apply (refresh_keeps_edits (fun t => t) no_refresh (lit "A") held_listing busy_calls held_listing); vm_compute; reflexivity.
Defined.

(** ** A created folder that another client deletes

    The store creates a folder and edits its tree, but keeps the state of its last listing.
    From that state to now the folder was created and destroyed, which is no change, so that
    every later refresh keeps the tree as it is. *)
Definition destroyed_by_other (s : ServerState) (id : Id) : ServerState := (mailbox_set no_error_text s (mailbox_destroy_request (lit "A") id) None).1.

Definition created_view : JmapStore Value * ServerState := small_ops [OpFolders true; OpCreate None (lit "Work")] (connected_store, empty_server).
Definition lingering_server : ServerState := destroyed_by_other created_view.2 (lit "M1").

Definition refreshed_times (n : nat) (p : JmapStore Value * ServerState) : JmapStore Value * ServerState := small_ops (replicate n (OpFolders true)) p.

(** A refresh that changes nothing is the last that changes anything. *)
Lemma refreshed_fixed p n : small_op (OpFolders true) (refreshed_times 1 p).1 (refreshed_times 1 p).2 = refreshed_times 1 p -> refreshed_times (S n) p = refreshed_times 1 p.
Proof.
  intros Hfix. induction n as [|n IH]; [done|].
  change (refreshed_times (S (S n)) p) with (small_ops (replicate n (OpFolders true)) (small_op (OpFolders true) (refreshed_times 1 p).1 (refreshed_times 1 p).2)).
  rewrite Hfix. exact IH.
Qed.

(** After any number of refreshes the store still shows the folder, at a state that is the
    server's, while the server lists no mailbox at all. *)
Lemma deleted_folder_lingers n :
  let view := refreshed_times (S n) (created_view.1, lingering_server) in
  ids_and_paths <$> held_folders view.1 = Some [(lit "M1", lit "Work")] /\
  exists state, lg_state <$> js_folders view.1 = Some state /\ (sync_folder_tree (lit "A") view.2).2 = Ok (state, []).
Proof.
  cbv zeta. rewrite refreshed_fixed by (vm_compute; reflexivity). split; [vm_compute; reflexivity|]. eexists. split; vm_compute; reflexivity.
Qed.

(** ** An edit that comes after a newer listing

    The server takes a rename of this store and then one of another client. A refresh of
    another thread lists the outcome before the first rename edits the held tree. *)
Definition work_view : JmapStore Value * ServerState := small_ops [OpCreate None (lit "Work"); OpFolders true] (connected_store, empty_server).
Definition renamed_twice : ServerState :=
  (mailbox_set no_error_text (sync_rename_folder (lit "A") work_view.2 (lit "M1") None (lit "Office")).1
    (mailbox_update_request (lit "A") (lit "M1") (place_patch (lit "Home") None)) None).1.
Definition late_edit : JmapStore Value :=
  with_folders (fold_left (run_call (fun t => t) no_refresh (lit "A"))
    [CallRefresh (js_folders work_view.1) renamed_twice; CallEdit (fun tree => (tree_rename tree (lit "M1") (lit "Office") (lit "Office")).2)]
    (js_folders work_view.1)) work_view.1.

(** The server has the mailbox under the name that the other client gave it; after any number
    of refreshes the store shows it under the name of its own earlier rename, at the server's
    state. *)
Lemma late_edit_stays n :
  let view := refreshed_times (S n) (late_edit, renamed_twice) in
  ids_and_paths <$> held_folders view.1 = Some [(lit "M1", lit "Office")] /\
  exists state tree, lg_state <$> js_folders view.1 = Some state /\ (sync_folder_tree (lit "A") view.2).2 = Ok (state, tree) /\
    ids_and_paths tree = [(lit "M1", lit "Home")].
Proof.
  cbv zeta. rewrite refreshed_fixed by (vm_compute; reflexivity). split; [vm_compute; reflexivity|].
  eexists _, _. split_and!; vm_compute; reflexivity.
Qed.

(** C39: The held folder tree can be wrong for good, in two ways. A folder that the user made and
    another client deleted before the next refresh stays in the tree, though the server has no
    such mailbox. And when a refresh lists the mailboxes after the server took a rename of this
    store and a later one of another client, but before the store applied its own, the folder
    stays under the older name. In both cases any number of refreshes keeps the wrong tree,
    because the state that is held with it is the server's. *)
Theorem held_tree_stays_wrong n :
  let lingering := refreshed_times (S n) (created_view.1, lingering_server) in
  let late := refreshed_times (S n) (late_edit, renamed_twice) in
  (exists state, ids_and_paths <$> held_folders lingering.1 = Some [(lit "M1", lit "Work")] /\
    lg_state <$> js_folders lingering.1 = Some state /\ (sync_folder_tree (lit "A") lingering.2).2 = Ok (state, [])) /\
  (exists state tree, ids_and_paths <$> held_folders late.1 = Some [(lit "M1", lit "Office")] /\
    lg_state <$> js_folders late.1 = Some state /\ (sync_folder_tree (lit "A") late.2).2 = Ok (state, tree) /\
    ids_and_paths tree = [(lit "M1", lit "Home")]).
Proof.
  destruct (deleted_folder_lingers n) as (H1&state&H2&H3). destruct (late_edit_stays n) as (H4&state'&tree&H5&H6&H7).
  split; [by exists state|by exists state', tree].
Qed.

(** ** A name with a space at its end *)
Definition spaced_view : JmapStore Value * ServerState := small_ops [OpFolders true; OpCreate None (lit "Work ")] (connected_store, empty_server).

(** A folder whose name ends in a space is held under another path than the server's: the
    client cuts the space off the name that the server stated. *)
Lemma spaced_name_differs :
  ids_and_paths <$> held_folders spaced_view.1 = Some [(lit "M1", lit "Work")] /\
  exists state tree, (sync_folder_tree (lit "A") spaced_view.2).2 = Ok (state, tree) /\ ids_and_paths tree = [(lit "M1", lit "Work ")].
Proof. split; [vm_compute; reflexivity|]. eexists _, _. split; vm_compute; reflexivity. Qed.
