(* ===== verification/Octets.v ===== *)
(** Texts as octets: UTF-8 ([str::from_utf8]), and hexadecimal numbers as Rust formats ([{:x}])
    and parses ([from_str_radix]) them. *)


From Stdlib Require Import Ascii String HexadecimalN HexadecimalFacts DecimalFacts.
From stdpp Require Import prelude strings.
From S2P Require Import Prelude Strings Text.

(** ** UTF-8 *)
Definition byte_in (lo hi : N) (c : ascii) : bool := (lo <=? N_of_ascii c)%N && (N_of_ascii c <=? hi)%N.

(** The octet after the first of a character of three or four octets: no overlong form, no
    surrogate, nothing above U+10FFFF. *)
Definition second_of_three (a b : ascii) : bool :=
  match N_of_ascii a with
  | 224 => byte_in 160 191 b
  | 237 => byte_in 128 159 b
  | _ => byte_in 128 191 b
  end%N.

Definition second_of_four (a b : ascii) : bool :=
  match N_of_ascii a with
  | 240 => byte_in 144 191 b
  | 244 => byte_in 128 143 b
  | _ => byte_in 128 191 b
  end%N.

Fixpoint utf8_valid (t : text) : bool :=
  match t with
  | [] => true
  | a :: t =>
      if byte_in 0 127 a then utf8_valid t
      else match t with
        | [] => false
        | b :: t =>
            if byte_in 194 223 a then byte_in 128 191 b && utf8_valid t
            else match t with
              | [] => false
              | c :: t =>
                  if byte_in 224 239 a then second_of_three a b && byte_in 128 191 c && utf8_valid t
                  else match t with
                    | [] => false
                    | d :: t => byte_in 240 244 a && second_of_four a b && byte_in 128 191 c && byte_in 128 191 d && utf8_valid t
                    end
              end
        end
  end.

Definition from_utf8 (t : text) : option text := if utf8_valid t then Some t else None.

Lemma utf8_app a b : utf8_valid a = true -> utf8_valid (a ++ b) = utf8_valid b.
Proof.
  remember (length a) as n eqn:Hn. revert a Hn. induction (lt_wf n) as [n _ IH]. intros a -> Ha.
  assert (forall a', length a' < length a -> utf8_valid a' = true -> utf8_valid (a' ++ b) = utf8_valid b) as IH' by eauto. clear IH.
  destruct a as [|x a]; [done|]. cbn [app utf8_valid length] in *. destruct (byte_in 0 127 x); [apply IH'; [lia|done]|].
  destruct a as [|y a]; [done|]. cbn [app length] in *. destruct (byte_in 194 223 x).
  { apply andb_true_iff in Ha as [-> Ha]. apply IH'; [lia|done]. }
  destruct a as [|z a]; [done|]. cbn [app length] in *. destruct (byte_in 224 239 x).
  { apply andb_true_iff in Ha as [-> Ha]. apply IH'; [lia|done]. }
  destruct a as [|w a]; [done|]. cbn [app length] in *. apply andb_true_iff in Ha as [-> Ha]. apply IH'; [lia|done].
Qed.

Lemma utf8_ascii t : Forall (fun c => is_ascii c = true) t -> utf8_valid t = true.
Proof.
  induction 1 as [|c t Hc _ IH]; [done|]. cbn [utf8_valid]. unfold byte_in, is_ascii in *. apply N.ltb_lt in Hc.
  rewrite (proj2 (N.leb_le _ 127)) by lia. cbn [andb]. by rewrite (proj2 (N.leb_le 0 _)) by lia.
Qed.

Lemma from_utf8_ok t : utf8_valid t = true -> from_utf8 t = Some t.
Proof. unfold from_utf8. by intros ->. Qed.

(** ** Hexadecimal numbers *)
Fixpoint hex_text (u : Hexadecimal.uint) : text :=
  match u with
  | Hexadecimal.Nil => []
  | Hexadecimal.D0 u => "0"%char :: hex_text u
  | Hexadecimal.D1 u => "1"%char :: hex_text u
  | Hexadecimal.D2 u => "2"%char :: hex_text u
  | Hexadecimal.D3 u => "3"%char :: hex_text u
  | Hexadecimal.D4 u => "4"%char :: hex_text u
  | Hexadecimal.D5 u => "5"%char :: hex_text u
  | Hexadecimal.D6 u => "6"%char :: hex_text u
  | Hexadecimal.D7 u => "7"%char :: hex_text u
  | Hexadecimal.D8 u => "8"%char :: hex_text u
  | Hexadecimal.D9 u => "9"%char :: hex_text u
  | Hexadecimal.Da u => "a"%char :: hex_text u
  | Hexadecimal.Db u => "b"%char :: hex_text u
  | Hexadecimal.Dc u => "c"%char :: hex_text u
  | Hexadecimal.Dd u => "d"%char :: hex_text u
  | Hexadecimal.De u => "e"%char :: hex_text u
  | Hexadecimal.Df u => "f"%char :: hex_text u
  end.

(** [format!("{:x}", n)]. *)
Definition to_hex (n : N) : text := hex_text (N.to_hex_uint n).

Fixpoint text_hex (t : text) : option Hexadecimal.uint :=
  match t with
  | [] => Some Hexadecimal.Nil
  | c :: t =>
      match text_hex t with
      | None => None
      | Some u =>
          match ascii_lower c with
          | "0"%char => Some (Hexadecimal.D0 u)
          | "1"%char => Some (Hexadecimal.D1 u)
          | "2"%char => Some (Hexadecimal.D2 u)
          | "3"%char => Some (Hexadecimal.D3 u)
          | "4"%char => Some (Hexadecimal.D4 u)
          | "5"%char => Some (Hexadecimal.D5 u)
          | "6"%char => Some (Hexadecimal.D6 u)
          | "7"%char => Some (Hexadecimal.D7 u)
          | "8"%char => Some (Hexadecimal.D8 u)
          | "9"%char => Some (Hexadecimal.D9 u)
          | "a"%char => Some (Hexadecimal.Da u)
          | "b"%char => Some (Hexadecimal.Db u)
          | "c"%char => Some (Hexadecimal.Dc u)
          | "d"%char => Some (Hexadecimal.Dd u)
          | "e"%char => Some (Hexadecimal.De u)
          | "f"%char => Some (Hexadecimal.Df u)
          | _ => None
          end
      end
  end.

Definition parse_hex_digits (max : N) (t : text) : option N :=
  match t with
  | [] => None
  | _ =>
      let! u := text_hex t in
      if (N.of_hex_uint u <=? max)%N then Some (N.of_hex_uint u) else None
  end%rust.

(** [usize::from_str_radix(t, 16)] on a machine of 64 bits: one leading plus sign is accepted. *)
Definition from_str_radix_16 (t : text) : option N :=
  match t with
  | "+"%char :: rest => parse_hex_digits u64_max rest
  | _ => parse_hex_digits u64_max t
  end.

Definition is_hex_digit (c : ascii) : bool :=
  is_ascii_digit c || bool_decide (c ∈ lit "abcdef").

Lemma text_hex_inv u : text_hex (hex_text u) = Some u.
Proof. induction u as [|u IH|u IH|u IH|u IH|u IH|u IH|u IH|u IH|u IH|u IH|u IH|u IH|u IH|u IH|u IH|u IH]; cbn [hex_text text_hex]; rewrite ?IH; done. Qed.

Lemma hex_text_digits u : Forall (fun c => is_hex_digit c = true) (hex_text u).
Proof. induction u; cbn [hex_text]; constructor; done. Qed.

Lemma to_hex_digits n : Forall (fun c => is_hex_digit c = true) (to_hex n).
Proof. apply hex_text_digits. Qed.

Lemma hex_text_nil u : hex_text u = [] -> u = Hexadecimal.Nil.
Proof. by destruct u. Qed.

Lemma to_hex_nonempty n : to_hex n <> [].
Proof. unfold to_hex. intros H%hex_text_nil. destruct n as [|p]; [done|]. by eapply (HexadecimalPos.Unsigned.to_uint_nonnil p). Qed.

Lemma from_radix_to_hex n : (n <= u64_max)%N -> from_str_radix_16 (to_hex n) = Some n.
Proof.
  intros Hn. pose proof (to_hex_digits n) as Hd. pose proof (to_hex_nonempty n) as He.
  assert (parse_hex_digits u64_max (to_hex n) = Some n) as Hp.
  { unfold parse_hex_digits. unfold to_hex in *. rewrite text_hex_inv. cbn [mbind option_bind]. rewrite HexadecimalN.Unsigned.of_to.
    rewrite (proj2 (N.leb_le _ _) Hn). by destruct (hex_text _). }
  unfold from_str_radix_16. destruct (to_hex n) as [|c t]; [done|]. apply Forall_cons in Hd as [Hc _].
  destruct (decide (c = "+"%char)) as [->|Hne]; [done|]. repeat case_match; try done; by destruct Hne.
Qed.

(** ** The length of a number *)
Lemma hex_text_length u : length (hex_text u) = Hexadecimal.nb_digits u.
Proof. induction u as [|u IH|u IH|u IH|u IH|u IH|u IH|u IH|u IH|u IH|u IH|u IH|u IH|u IH|u IH|u IH|u IH]; cbn; by rewrite ?IH. Qed.

Lemma hex_double_length u :
  Hexadecimal.nb_digits (Hexadecimal.Little.double u) <= S (Hexadecimal.nb_digits u) /\
  Hexadecimal.nb_digits (Hexadecimal.Little.succ_double u) <= S (Hexadecimal.nb_digits u).
Proof. induction u; cbn; lia. Qed.

Lemma hex_revapp_length u v : Hexadecimal.nb_digits (Hexadecimal.revapp u v) = Hexadecimal.nb_digits u + Hexadecimal.nb_digits v.
Proof. revert v. induction u as [|u IH|u IH|u IH|u IH|u IH|u IH|u IH|u IH|u IH|u IH|u IH|u IH|u IH|u IH|u IH|u IH]; intros v; cbn; [done|rewrite IH; cbn; lia..]. Qed.

Lemma to_hex_length n : length (to_hex n) <= S (N.size_nat n).
Proof.
  unfold to_hex. rewrite hex_text_length. destruct n as [|p]; [cbn; lia|]. cbn [N.to_hex_uint N.size_nat]. unfold Pos.to_hex_uint, Hexadecimal.rev.
  rewrite hex_revapp_length. cbn [Hexadecimal.nb_digits]. rewrite Nat.add_0_r. apply le_S.
  induction p as [p IH|p IH|]; cbn [Pos.to_little_hex_uint Pos.size_nat]; [|..|done]; pose proof (hex_double_length (Pos.to_little_hex_uint p)); lia.
Qed.

Lemma uint_text_length u : length (uint_text u) = Decimal.nb_digits u.
Proof. induction u as [|u IH|u IH|u IH|u IH|u IH|u IH|u IH|u IH|u IH|u IH]; cbn; by rewrite ?IH. Qed.

Lemma dec_double_length u :
  Decimal.nb_digits (Decimal.Little.double u) <= S (Decimal.nb_digits u) /\
  Decimal.nb_digits (Decimal.Little.succ_double u) <= S (Decimal.nb_digits u).
Proof. induction u; cbn; lia. Qed.

Lemma dec_revapp_length u v : Decimal.nb_digits (Decimal.revapp u v) = Decimal.nb_digits u + Decimal.nb_digits v.
Proof. revert v. induction u as [|u IH|u IH|u IH|u IH|u IH|u IH|u IH|u IH|u IH|u IH]; intros v; cbn; [done|rewrite IH; cbn; lia..]. Qed.

Lemma to_dec_length n : length (to_dec n) <= S (N.size_nat n).
Proof.
  unfold to_dec. rewrite uint_text_length. destruct n as [|p]; [cbn; lia|]. cbn [N.to_uint N.size_nat]. unfold Pos.to_uint, Decimal.rev.
  rewrite dec_revapp_length. cbn [Decimal.nb_digits]. rewrite Nat.add_0_r. apply le_S.
  induction p as [p IH|p IH|]; cbn [Pos.to_little_uint Pos.size_nat]; [|..|done]; pose proof (dec_double_length (Pos.to_little_uint p)); lia.
Qed.

Lemma size_u64 n : (n <= u64_max)%N -> N.size_nat n <= 64.
Proof.
  intros Hn. destruct (decide (n = 0%N)) as [->|Hz]; [cbn; lia|]. assert (N.size n <= 64)%N as Hs.
  { rewrite N.size_log2 by done. assert (N.log2 n <= N.log2 u64_max)%N by by apply N.log2_le_mono. change (N.log2 u64_max) with 63%N in *. lia. }
  destruct n as [|p]; [done|]. cbn [N.size N.size_nat] in *. rewrite <- (Nat2Pos.id (Pos.size_nat p)) by (destruct p; done). 
  replace (Pos.of_nat (Pos.size_nat p)) with (Pos.size p); [lia|]. clear. induction p as [p IH|p IH|]; cbn [Pos.size Pos.size_nat]; rewrite ?IH; [..|done]; by destruct p.
Qed.
