(* ===== verification/IoRead.v ===== *)
(** [std::io]: readers, [BufReader], [read_until] on a limited reader and [read_exact], over a
    connection that delivers its octets in pieces of any size. *)

From Stdlib Require Import Ascii String.
From stdpp Require Import prelude strings.
From S2P Require Import Prelude Strings.

(** ** Loops

    [loop { body }]: [inl] goes on with the next round, [inr] leaves the loop. The model gives
    up after 2^64 rounds, more than a connection has octets. *)
Fixpoint loop_pos {S A} (body : S -> S + A) (p : positive) (s : S) : S + A :=
  match p with
  | xH => body s
  | xO p => match loop_pos body p s with inl s => loop_pos body p s | inr a => inr a end
  | xI p =>
      match body s with
      | inl s => match loop_pos body p s with inl s => loop_pos body p s | inr a => inr a end
      | inr a => inr a
      end
  end.

Definition rounds : positive := 18446744073709551616.

Fixpoint loop_nat {S A} (body : S -> S + A) (n : nat) (s : S) : S + A :=
  match n with
  | O => inl s
  | S n => match body s with inl s => loop_nat body n s | inr a => inr a end
  end.

Lemma loop_nat_add {S A} (body : S -> S + A) n m s :
  loop_nat body (n + m) s = match loop_nat body n s with inl s => loop_nat body m s | inr a => inr a end.
Proof. revert s. induction n as [|n IH]; intros s; [done|]. cbn [loop_nat Nat.add]. by destruct (body s). Qed.

Lemma loop_pos_nat {S A} (body : S -> S + A) p s : loop_pos body p s = loop_nat body (Pos.to_nat p) s.
Proof.
  revert s. induction p as [p IH|p IH|]; intros s; cbn [loop_pos].
  - replace (Pos.to_nat p~1) with (1 + (Pos.to_nat p + Pos.to_nat p)) by lia. rewrite loop_nat_add. cbn [loop_nat].
    destruct (body s); [|done]. rewrite IH, loop_nat_add. destruct (loop_nat _ _ _); [apply IH|done].
  - replace (Pos.to_nat p~0) with (Pos.to_nat p + Pos.to_nat p) by lia. rewrite IH, loop_nat_add. destruct (loop_nat _ _ _); [apply IH|done].
  - change (Pos.to_nat 1) with 1. cbn [loop_nat]. by destruct (body s).
Qed.

Lemma loop_ends {S A} (body : S -> S + A) n s a p :
  loop_nat body n s = inr a -> n <= Pos.to_nat p -> loop_pos body p s = inr a.
Proof.
  intros Hn Hp. rewrite loop_pos_nat. replace (Pos.to_nat p) with (n + (Pos.to_nat p - n)) by lia. by rewrite loop_nat_add, Hn.
Qed.

Lemma rounds_enough n : (N.of_nat n <= Npos rounds)%N -> n <= Pos.to_nat rounds.
Proof. lia. Qed.

(** ** Errors

    [Broken] is what the operating system reports for the connection; the others are the
    errors that the readers make. *)
Inductive IoError :=
  | Broken (code : N)
  | UnexpectedEof
  | LineTooLong
  | NotUtf8
  | RequestFailed (status : text)
  | NotChunked
  | MalformedChunkSize (size : text)
  | Endless.

(** ** Readers

    [read want r] gives at most [want] octets; none at the end. [fill_buf] shows what is
    buffered, and [consume] takes it. *)
Class Read (R : Type) := read : nat -> R -> result text IoError * R.
Class BufRead (R : Type) := { bufread_read :: Read R; fill_buf : R -> result text IoError * R; consume : nat -> R -> R }.

(** A connection: the pieces in which the network delivers, and the error, if any, at its
    end. *)
Record Conn := { cn_pieces : list text; cn_failure : option IoError }.

Fixpoint read_pieces (want : nat) (pieces : list text) : text * list text :=
  match pieces with
  | [] => ([], [])
  | [] :: pieces => read_pieces want pieces
  | piece :: pieces => (take want piece, drop want piece :: pieces)
  end.

Definition conn_read (want : nat) (c : Conn) : result text IoError * Conn :=
  if bool_decide (want = 0) then (Ok [], c)
  else
    let '(got, pieces) := read_pieces want (cn_pieces c) in
    (match got, cn_failure c with [], Some e => Err e | _, _ => Ok got end,
     {| cn_pieces := pieces; cn_failure := cn_failure c |}).

#[export] Instance Conn_Read : Read Conn := conn_read.

(** [BufReader] with its buffer of 8 KiB. *)
Record BufReader (R : Type) := { br_inner : R; br_buffer : text }.
Arguments br_inner {R} _.
Arguments br_buffer {R} _.
Arguments Build_BufReader {R} _ _.

Definition BUFFER : nat := N.to_nat 8192.

Section bufreader.
Context {R : Type} `{Read R}.

Definition bufreader_new (r : R) : BufReader R := Build_BufReader r [].

Definition bufreader_fill (b : BufReader R) : result text IoError * BufReader R :=
  match br_buffer b with
  | [] =>
      match read BUFFER (br_inner b) with
      | (Ok got, inner) => (Ok got, Build_BufReader inner got)
      | (Err e, inner) => (Err e, Build_BufReader inner [])
      end
  | buffer => (Ok buffer, b)
  end.

Definition bufreader_consume (n : nat) (b : BufReader R) : BufReader R :=
  Build_BufReader (br_inner b) (drop n (br_buffer b)).

(** A large read on an empty buffer goes past the buffer. *)
Definition bufreader_read (want : nat) (b : BufReader R) : result text IoError * BufReader R :=
  match br_buffer b with
  | [] =>
      if BUFFER <=? want
      then let '(got, inner) := read want (br_inner b) in (got, Build_BufReader inner [])
      else match bufreader_fill b with
        | (Ok got, b) => (Ok (take want got), bufreader_consume want b)
        | (Err e, b) => (Err e, b)
        end
  | buffer => (Ok (take want buffer), bufreader_consume want b)
  end.
End bufreader.

#[export] Instance BufReader_BufRead {R} `{Read R} : BufRead (BufReader R) :=
  {| bufread_read := bufreader_read; fill_buf := bufreader_fill; consume := bufreader_consume |}.

Section buffered.
Context {R : Type} `{BufRead R}.

(** [r.take(limit).fill_buf()]. *)
Definition take_fill (limit : N) (r : R) : result text IoError * R :=
  if (limit =? 0)%N then (Ok [], r)
  else match fill_buf r with
    | (Ok buffer, r) => (Ok (take (N.to_nat (N.min (N.of_nat (length buffer)) limit)) buffer), r)
    | (Err e, r) => (Err e, r)
    end.

(** One round of [r.take(limit).read_until(b'\n', &mut line)]. *)
Definition until_round (s : N * text * R) : (N * text * R) + (result text IoError * R) :=
  let '(limit, line, r) := s in
  match take_fill limit r with
  | (Err e, r) => inr (Err e, r)
  | (Ok available, r) =>
      match split_once LF available with
      | Some (before, _) => inr (Ok (line ++ before ++ [LF]), consume (S (length before)) r)
      | None =>
          if bool_decide (available = []) then inr (Ok line, consume 0 r)
          else inl (limit - N.of_nat (length available), line ++ available, consume (length available) r)%N
      end
  end.

Definition read_until (limit : N) (r : R) : result text IoError * R :=
  match loop_pos until_round rounds (limit, [], r) with
  | inr out => out
  | inl (_, _, r) => (Err Endless, r)
  end.

(** [read_exact]: reads until [want] octets are there. *)
Fixpoint read_exact_from (fuel want : nat) (r : R) : result text IoError * R :=
  match want, fuel with
  | O, _ => (Ok [], r)
  | _, O => (Err Endless, r)
  | _, S fuel =>
      match read want r with
      | (Err e, r) => (Err e, r)
      | (Ok [], r) => (Err UnexpectedEof, r)
      | (Ok got, r) =>
          let '(more, r) := read_exact_from fuel (want - length got) r in
          ((let? more := more in Ok (got ++ more))%rust, r)
      end
  end.

Definition read_exact (want : nat) (r : R) : result text IoError * R := read_exact_from want want r.
End buffered.

(** ** What a reader holds

    [holds r t e]: the octets [t] are still to be read from [r], and then the error [e], or the
    end. *)
Section laws.
Context {R : Type}.

Class ReadSource `{Read R} (holds : R -> text -> option IoError -> Prop) : Prop :=
  read_law : forall r t e want, holds r t e -> 0 < want ->
    match read want r with
    | (Ok got, r') => got `prefix_of` t /\ length got <= want /\ (got = [] -> t = [] /\ e = None) /\ holds r' (drop (length got) t) e
    | (Err x, _) => t = [] /\ e = Some x
    end.

Class BufSource `{BufRead R} (holds : R -> text -> option IoError -> Prop) : Prop := {
  fill_law : forall r t e, holds r t e ->
    match fill_buf r with
    | (Ok got, r') => got `prefix_of` t /\ (got = [] -> t = [] /\ e = None) /\ forall n, n <= length got -> holds (consume n r') (drop n t) e
    | (Err x, _) => t = [] /\ e = Some x
    end;
  consume_none : forall r t e, holds r t e -> holds (consume 0 r) t e }.
End laws.

(** The first line of [t], its end included, of at most [limit] octets, and what follows. *)
Definition until_line (limit : nat) (t : text) (e : option IoError) : result (text * text) IoError :=
  match split_once LF (take limit t) with
  | Some (before, _) => Ok (before ++ [LF], drop (S (length before)) t)
  | None =>
      if limit <=? length t then Ok (take limit t, drop limit t)
      else match e with Some e => Err e | None => Ok (t, []) end
  end.

Lemma until_line_found limit e before rest :
  LF ∉ before -> S (length before) <= limit -> until_line limit (before ++ LF :: rest) e = Ok (before ++ [LF], rest).
Proof.
  intros Hb Hl. unfold until_line. replace limit with (length before + S (limit - S (length before))) by lia. rewrite take_app_add. cbn [take].
  assert (split_once LF (before ++ LF :: take (limit - S (length before)) rest) = Some (before, take (limit - S (length before)) rest)) as ->
    by (by apply split_once_Some). f_equal. f_equal. replace (S (length before)) with (length before + 1) by lia. by rewrite drop_app_add.
Qed.

Lemma until_line_more limit got t e :
  LF ∉ got -> length got <= limit ->
  until_line limit (got ++ t) e = (let? out := until_line (limit - length got) t e in Ok (got ++ out.1, out.2))%rust.
Proof.
  intros Hg Hl. unfold until_line. replace limit with (length got + (limit - length got)) at 1 by lia. rewrite take_app_add.
  destruct (split_once LF (take (limit - length got) t)) as [[before rest]|] eqn:E.
  - apply split_once_Some in E as [E Hb]. cbn [rbind fst snd].
    assert (split_once LF (got ++ take (limit - length got) t) = Some (got ++ before, rest)) as ->.
    { apply split_once_Some. rewrite E. split; [by rewrite <- app_assoc|set_solver]. }
    rewrite <- app_assoc. f_equal. f_equal. rewrite length_app. replace (S (length got + length before)) with (length got + S (length before)) by lia. by rewrite drop_app_add.
  - apply split_once_None in E. assert (split_once LF (got ++ take (limit - length got) t) = None) as ->.
    { apply split_once_None. set_solver. }
    rewrite length_app. destruct (Nat.leb_spec (limit - length got) (length t)); destruct (Nat.leb_spec limit (length got + length t)); try lia.
    + cbn [rbind fst snd]. replace limit with (length got + (limit - length got)) at 1 2 by lia. by rewrite take_app_add, drop_app_add.
    + by destruct e.
Qed.

Section until.
Context {R : Type} `{BufRead R} (holds : R -> text -> option IoError -> Prop) `{!BufSource holds}.

Lemma take_fill_law limit r t e :
  holds r t e -> (0 < limit)%N ->
  match take_fill limit r with
  | (Ok got, r') => exists k, got = take k (take (N.to_nat limit) t) /\ (got = [] -> t = [] /\ e = None) /\
      forall n, n <= length got -> holds (consume n r') (drop n t) e
  | (Err x, _) => t = [] /\ e = Some x
  end.
Proof using BufSource0.
  intros Hh Hl. unfold take_fill. destruct (N.eqb_spec limit 0); [lia|]. pose proof (fill_law r t e Hh) as Hf.
  destruct (fill_buf r) as [[got|x] r']; [|done]. destruct Hf as ([u ->]&Hnil&Hc). exists (length got).
  assert (N.to_nat (N.min (N.of_nat (length got)) limit) = length got `min` N.to_nat limit) as -> by lia. split_and!.
  - rewrite take_take, take_app_le by lia. done.
  - intros Hg. destruct got as [|c got]; [by apply Hnil|]. exfalso. destruct (N.to_nat limit) eqn:E; [lia|done].
  - intros k Hk. apply Hc. rewrite length_take in Hk. lia.
Qed.

(** The rounds of [read_until] find the line. *)
Lemma until_rounds limit line r t e :
  holds r t e ->
  exists n r', n <= S (N.to_nat limit) /\
    match until_line (N.to_nat limit) t e with
    | Ok (more, rest) => loop_nat until_round n (limit, line, r) = inr (Ok (line ++ more), r') /\ holds r' rest e
    | Err x => loop_nat until_round n (limit, line, r) = inr (Err x, r')
    end.
Proof using BufSource0.
  remember (N.to_nat limit) as k eqn:Hk. revert limit Hk line r t. induction (lt_wf k) as [k _ IH]. intros limit -> line r t Hh.
  destruct (N.eq_dec limit 0%N) as [->|Hl].
  - exists 1, (consume 0 r). split; [lia|]. unfold until_line. cbn. rewrite take_0, drop_0. cbn. change (N.to_nat 0) with 0. cbn. rewrite app_nil_r. split; [done|]. by apply consume_none.
  - pose proof (take_fill_law limit r t e Hh ltac:(lia)) as Hf.
    destruct (take_fill limit r) as [[got|x] r1] eqn:Et.
    2: { destruct Hf as [-> ->]. exists 1, r1. split; [lia|]. unfold until_line. rewrite take_nil. cbn [split_once length].
      destruct (Nat.leb_spec (N.to_nat limit) 0); [lia|]. cbn [loop_nat until_round]. by rewrite Et. }
    destruct Hf as (k&Hgot&Hnil&Hc). assert (exists u, t = got ++ u) as [u ->].
    { exists (drop (length got) t). rewrite <- (take_drop (length got) t) at 1. f_equal. rewrite Hgot, take_take.
      destruct (decide (k `min` N.to_nat limit <= length t)); [by rewrite length_take, Nat.min_l|]. by rewrite !take_ge by (rewrite ?take_ge; lia). }
    assert (length got <= N.to_nat limit) as Hlen by (rewrite Hgot, !length_take; lia). clear Hgot k.
    destruct (split_once LF got) as [[before after]|] eqn:Es.
    + pose proof Es as [-> Hb]%split_once_Some. rewrite length_app in Hlen. cbn [length] in Hlen. exists 1, (consume (S (length before)) r1). split; [lia|].
      rewrite <- app_assoc. cbn [app]. rewrite until_line_found by (done || lia). cbn [loop_nat until_round]. rewrite Et, Es. split; [done|].
      replace (after ++ u) with (drop (S (length before)) ((before ++ LF :: after) ++ u)); [apply Hc; rewrite length_app; cbn; lia|].
      rewrite <- app_assoc. replace (S (length before)) with (length before + 1) by lia. by rewrite drop_app_add.
    + pose proof Es as Hb%split_once_None. destruct (decide (got = [])) as [->|Hne].
      * destruct (Hnil eq_refl) as [Hu ->]. cbn [app] in Hu. subst u. exists 1, (consume 0 r1). split; [lia|]. unfold until_line. cbn [app]. rewrite take_nil. cbn [split_once length].
        destruct (Nat.leb_spec (N.to_nat limit) 0); [lia|]. cbn [loop_nat until_round]. rewrite Et. cbn [split_once]. rewrite app_nil_r.
        split; [done|]. apply (Hc 0). cbn. lia.
      * assert (0 < length got) by (destruct got; [done|cbn; lia]).
        destruct (IH (N.to_nat (limit - N.of_nat (length got))) ltac:(lia) _ eq_refl (line ++ got) (consume (length got) r1) u) as (n&r'&Hn&Hi).
        { rewrite <- (drop_app_length got u). by apply Hc. }
        exists (S n), r'. split; [lia|]. rewrite until_line_more by done.
        replace (N.to_nat limit - length got) with (N.to_nat (limit - N.of_nat (length got))) by lia.
        assert (loop_nat until_round (S n) (limit, line, r) = loop_nat until_round n (limit - N.of_nat (length got), line ++ got, consume (length got) r1)%N) as ->.
        { cbn [loop_nat until_round]. by rewrite Et, Es, bool_decide_eq_false_2. }
        destruct (until_line _ u e) as [[more rest]|x]; cbn [rbind fst snd]; [by rewrite app_assoc|done].
Qed.

Lemma read_until_law limit r t e :
  holds r t e -> (limit < Npos rounds)%N ->
  match until_line (N.to_nat limit) t e with
  | Ok (line, rest) => exists r', read_until limit r = (Ok line, r') /\ holds r' rest e
  | Err x => exists r', read_until limit r = (Err x, r')
  end.
Proof using BufSource0.
  intros Hh Hl. destruct (until_rounds limit [] r t e Hh) as (n&r'&Hn&Hloop). unfold read_until.
  assert (n <= Pos.to_nat rounds) as Hr by lia.
  destruct (until_line _ t e) as [[line rest]|x]; [destruct Hloop as [Hloop Hh']|]; rewrite (loop_ends _ _ _ _ _ Hloop Hr); eauto.
Qed.
End until.

(** ** Connections and buffers hold what the network delivers *)
Definition conn_holds (c : Conn) (t : text) (e : option IoError) : Prop := mjoin (cn_pieces c) = t /\ cn_failure c = e.

Lemma read_pieces_law want pieces :
  0 < want ->
  let '(got, rest) := read_pieces want pieces in
  mjoin pieces = got ++ mjoin rest /\ length got <= want /\ (got = [] -> mjoin pieces = []).
Proof.
  intros Hw. induction pieces as [|[|c piece] pieces IH]; [cbn; split_and!; [done|lia|done]|exact IH|]. cbn [read_pieces]. rewrite !mjoin_cons, app_assoc, take_drop.
  split_and!; [done|rewrite length_take; lia|]. destruct want; [lia|]. cbn [take]. discriminate.
Qed.

#[export] Instance conn_source : ReadSource conn_holds.
Proof.
  intros c t e want [<- <-] Hw. change (read want c) with (conn_read want c). unfold conn_read. rewrite bool_decide_eq_false_2 by lia.
  pose proof (read_pieces_law want (cn_pieces c) Hw) as Hp. destruct (read_pieces want (cn_pieces c)) as [got rest]. destruct Hp as (Hj&Hl&Hn).
  rewrite Hj. destruct got as [|x got].
  - rewrite (Hn eq_refl) in Hj. cbn [app]. destruct (cn_failure c) as [x|] eqn:Ef; cbn [app] in *; [by split|].
    split_and!; [apply prefix_nil|lia|done|by split].
  - split_and!; [by eexists|done..|]. split; [|done]. cbn [cn_pieces]. by rewrite drop_app_length.
Qed.

Section buffers.
Context {R : Type} `{Read R} (holds : R -> text -> option IoError -> Prop) `{!ReadSource holds}.

Definition buf_holds (b : BufReader R) (t : text) (e : option IoError) : Prop :=
  exists u, t = br_buffer b ++ u /\ holds (br_inner b) u e.

#[export] Instance buf_buf_source : BufSource buf_holds.
Proof using ReadSource0.
  split.
  - intros [inner buffer] t e (u&->&Hh). cbn in *. unfold bufreader_fill. destruct buffer as [|c buffer]; cbn [br_buffer br_inner].
    + pose proof (read_law inner u e BUFFER Hh ltac:(unfold BUFFER; lia)) as Hr. destruct (read BUFFER inner) as [[got|x] inner']; [|done].
      destruct Hr as ([v ->]&_&Hn&Hh'). split_and!; [by eexists|done|]. intros n Hn'. exists v. cbn. split; [|by rewrite drop_app_length in Hh'].
      by rewrite drop_app_le.
    + split_and!; [by eexists|done|]. intros n Hn. exists u. cbn [br_buffer br_inner bufreader_consume]. split; [|done]. by rewrite drop_app_le.
  - intros b t e (u&->&Hh). exists u. split; [|done]. cbn. by rewrite drop_0.
Qed.

Lemma drop_min {A} want (l u : list A) : drop (length (take want l)) (l ++ u) = drop want l ++ u.
Proof using Type.
  rewrite length_take, drop_app_le by lia. f_equal. destruct (Nat.le_ge_cases want (length l)); [by rewrite Nat.min_l|].
  by rewrite Nat.min_r, !drop_ge by lia.
Qed.

#[export] Instance buf_read_source : ReadSource buf_holds.
Proof using ReadSource0.
  intros [inner buffer] t e want (u&->&Hh) Hw. cbn [br_inner br_buffer] in *. change (read want ?b) with (bufreader_read want b). unfold bufreader_read.
  cbn [br_buffer br_inner]. destruct buffer as [|c buffer].
  - cbn [app]. destruct (Nat.leb_spec BUFFER want).
    + pose proof (read_law _ u e want Hh Hw) as Hr. destruct (read want inner) as [[got|x] inner']; [|done].
      destruct Hr as (Hp&Hl&Hn&Hh'). split_and!; [done..|]. by eexists.
    + unfold bufreader_fill. cbn [br_buffer br_inner]. pose proof (read_law inner u e BUFFER Hh ltac:(unfold BUFFER; lia)) as Hr.
      destruct (read BUFFER inner) as [[got|x] inner']; [|done]. destruct Hr as ([v ->]&_&Hn&Hh'). rewrite drop_app_length in Hh'. split_and!.
      * etransitivity; [apply prefix_take|by eexists].
      * rewrite length_take. lia.
      * destruct got; [by intros _; apply Hn|]. by destruct want; [lia|].
      * exists v. by rewrite drop_min.
  - split_and!.
    + etransitivity; [apply prefix_take|by eexists].
    + rewrite length_take. lia.
    + by destruct want; [lia|].
    + exists u. by rewrite drop_min.
Qed.
End buffers.

Section exact.
Context {R : Type} `{BufRead R} (holds : R -> text -> option IoError -> Prop) `{!ReadSource holds}.

Lemma read_exact_rounds fuel want r t e :
  want <= fuel -> holds r t e ->
  if decide (want <= length t) then exists r', read_exact_from fuel want r = (Ok (take want t), r') /\ holds r' (drop want t) e
  else exists r' x, read_exact_from fuel want r = (Err x, r').
Proof using ReadSource0.
  revert want r t. induction fuel as [|fuel IH]; intros want r t Hf Hh.
  { assert (want = 0) as -> by lia. rewrite decide_True by lia. cbn. rewrite drop_0. eauto. }
  destruct want as [|want]; [rewrite decide_True by lia; cbn; rewrite drop_0; eauto|]. cbn [read_exact_from].
  pose proof (read_law r t e (S want) Hh ltac:(lia)) as Hr. destruct (read (S want) r) as [[got|x] r1].
  2: { destruct Hr as [-> ->]. rewrite decide_False by (cbn; lia). eauto. }
  destruct Hr as ([u ->]&Hl&Hn&Hh'). rewrite drop_app_length in Hh'. destruct got as [|c got].
  { destruct (Hn eq_refl) as [Hu ->]. cbn in Hu. subst u. rewrite decide_False by (cbn; lia). eauto. }
  specialize (IH (S want - length (c :: got)) r1 u ltac:(cbn; lia) Hh'). rewrite length_app.
  case_decide; case_decide; try lia.
  - destruct IH as (r'&->&Hr'). exists r'. cbn [rbind]. split.
    + rewrite take_app, (take_ge (c :: got)) by done. done.
    + by rewrite drop_app, (drop_ge (c :: got)) by done.
  - destruct IH as (r'&x&->). cbn [rbind]. eauto.
Qed.

Lemma read_exact_law want r t e :
  holds r t e ->
  if decide (want <= length t) then exists r', read_exact want r = (Ok (take want t), r') /\ holds r' (drop want t) e
  else exists r' x, read_exact want r = (Err x, r').
Proof using ReadSource0. by apply read_exact_rounds. Qed.
End exact.

(** ** A reader that is drained through a buffer

    [drains r t e]: reads of a whole buffer give [t] and then [e], or the end for good. *)
Inductive drains {R} `{Read R} : R -> text -> option IoError -> Prop :=
  | drains_end r r' : read BUFFER r = (Ok [], r') -> read BUFFER r' = (Ok [], r') -> drains r [] None
  | drains_error r e r' : read BUFFER r = (Err e, r') -> drains r [] (Some e)
  | drains_more r got r' t e : read BUFFER r = (Ok got, r') -> got <> [] -> drains r' t e -> drains r (got ++ t) e.

Definition drain_holds {R} `{Read R} (b : BufReader R) (t : text) (e : option IoError) : Prop :=
  exists u, t = br_buffer b ++ u /\ drains (br_inner b) u e.

#[export] Instance drain_source {R} `{Read R} : BufSource (R := BufReader R) drain_holds.
Proof.
  split.
  - intros [inner buffer] t e (u&->&Hd). cbn [br_inner br_buffer fill_buf BufReader_BufRead] in *. unfold bufreader_fill. destruct buffer as [|c buffer]; cbn [br_buffer br_inner].
    + cbn [app]. destruct Hd as [r r' Hr Hr'|r x r' Hr|r got r' t e Hr Hne Hd]; rewrite Hr.
      * split_and!; [done..|]. intros n Hn. cbn in Hn. assert (n = 0) as -> by lia. exists []. split; [done|]. by econstructor.
      * done.
      * split_and!; [by eexists|done|]. intros n Hn. exists t. cbn. split; [|done]. by rewrite drop_app_le.
    + split_and!; [by eexists|done|]. intros n Hn. exists u. cbn [br_buffer br_inner bufreader_consume]. split; [|done]. by rewrite drop_app_le.
  - intros b t e (u&->&Hh). exists u. split; [|done]. cbn. by rewrite drop_0.
Qed.
