(* ===== verification/PushProto.v ===== *)
(** The StateChange of JMAP Push (jmap-proto/src/push.rs) and its JSON form. *)

From Stdlib Require Import Ascii String.
From stdpp Require Import prelude strings.
From S2P Require Import Prelude BTree Text Strings Json Wire Proto Email MailboxWire.

Local Open Scope rust_scope.

(** New state strings by data type. *)
Abbreviation TypeState := (btmap text State) (only parsing).

Record StateChange := { sc_kind : text; sc_changed : btmap Id TypeState; sc_extra : btmap text Value }.

Definition STATE_CHANGE : text := lit "StateChange".

Definition state_change_new (changed : btmap Id TypeState) : StateChange :=
  {| sc_kind := STATE_CHANGE; sc_changed := changed; sc_extra := [] |}.

Definition changed_codec : codec (btmap Id TypeState) := map_codec (map_codec str_codec).

Definition state_change_names : list text := [lit "@type"; lit "changed"].

Definition state_change_fields (c : StateChange) : list (text * option Value) :=
  [(lit "@type", Some (String (sc_kind c))); (lit "changed", Some (enc changed_codec (sc_changed c)))].

Definition state_change_to_value (c : StateChange) : Value := Object (object_of (state_change_fields c) (sc_extra c)).

Definition state_change_from_value (v : Value) : option StateChange :=
  let! m := as_object v in
  let! kind := read_field str_codec (lit "@type") m in
  let! changed := read_field changed_codec (lit "changed") m in
  Some {| sc_kind := kind; sc_changed := changed; sc_extra := read_extra state_change_names m |}.

(** Maps in key order, extra members apart from the named ones. *)
Definition state_change_ok (c : StateChange) : Prop :=
  map_ok (map_ok (fun _ => True)) (sc_changed c) /\ extra_ok state_change_names (sc_extra c).

Lemma state_change_new_ok changed : map_ok (map_ok (fun _ => True)) changed -> state_change_ok (state_change_new changed).
Proof. intros H. split; [done|]. cbn [state_change_new sc_extra]. split_and!; constructor. Qed.

Lemma state_change_reads c : state_change_ok c -> state_change_from_value (state_change_to_value c) = Some c.
Proof.
  intros [Hc (He&Ha&_)]. assert (codec_ok changed_codec (map_ok (map_ok (fun _ => True)))) as Hk by (apply map_codec_ok, map_codec_ok, str_codec_ok).
  assert (NoDup (state_change_fields c).*1) as Hn by by_decide. change state_change_names with (state_change_fields c).*1 in Ha.
  unfold state_change_to_value, state_change_from_value. cbn [as_object mbind option_bind]. unfold read_field.
  rewrite (object_get _ _ Hn He Ha (lit "@type") (Some (String (sc_kind c)))) by done. cbn [mbind option_bind dec str_codec as_str].
  rewrite (object_get _ _ Hn He Ha (lit "changed") (Some (enc changed_codec (sc_changed c)))) by done. cbn [mbind option_bind].
  rewrite (enc_dec _ _ Hk) by done. cbn [mbind option_bind]. change state_change_names with (state_change_fields c).*1. rewrite object_extra by done. by destruct c.
Qed.

Lemma state_change_value_ok c : state_change_ok c -> value_ok (state_change_to_value c).
Proof.
  intros [Hc (_&_&Hv)]. apply object_of_value_ok; [|done]. repeat constructor; intros v; cbn; [by intros [= <-]|].
  intros [= <-]. eapply (enc_ok changed_codec); [apply map_codec_ok, map_codec_ok, str_codec_ok|done].
Qed.
