(* ===== verification/EventStream.v ===== *)
(** The stream of push events (jmap-client/src/eventsource.rs): bounded lines, the head of the
    response, the chunked body and the events in it. *)

From Stdlib Require Import Ascii String.
From stdpp Require Import prelude strings.
From S2P Require Import Prelude BTree Text Strings Octets Json IoRead PushProto.

Local Open Scope rust_scope.

Definition MAX_LINE_BYTES : N := 1048576.

(** What a subscription delivers. *)
Inductive EventSourceItem :=
  | StateItem (change : StateChange)
  | Reconnected (last_event_id : option text) (reconnect_count : N).

(** The sending half of a channel: what was sent, and after how many items, if ever, the
    receiver is gone. *)
Record Sender := { sd_items : list EventSourceItem; sd_hangs_up : option nat }.

Definition send (item : EventSourceItem) (s : Sender) : bool * Sender :=
  if match sd_hangs_up s with Some n => n <=? length (sd_items s) | None => false end then (false, s)
  else (true, {| sd_items := sd_items s ++ [item]; sd_hangs_up := sd_hangs_up s |}).

Definition safe_header_value (value : text) : bool :=
  forallb (fun byte => bool_decide (byte = TAB) || ((32 <=? N_of_ascii byte)%N && (N_of_ascii byte <? 127)%N) || (128 <=? N_of_ascii byte)%N) value.

Definition is_line_end (c : ascii) : bool := bool_decide (c = CR) || bool_decide (c = LF).

Section lines.
Context {R : Type} `{BufRead R}.

(** The line is returned; every caller appends it to an empty string. *)
Definition read_bounded_line (r : R) : result text IoError * R :=
  match read_until MAX_LINE_BYTES r with
  | (Err e, r) => (Err e, r)
  | (Ok bytes, r) =>
      if (N.of_nat (length bytes) =? MAX_LINE_BYTES)%N && negb (bool_decide (last bytes = Some LF)) then (Err LineTooLong, r)
      else (ok_or (from_utf8 bytes) NotUtf8, r)
  end.

(** Whether the header lines so far say that the body is chunked. *)
Definition header_chunked (chunked : bool) (line : text) : bool :=
  match split_once ":" line with
  | Some (name, value) =>
      if eq_ignore_ascii_case name (lit "transfer-encoding") && str_contains (lit "chunked") (to_ascii_lowercase value) then true else chunked
  | None => chunked
  end.

Definition head_round (s : bool * R) : (bool * R) + (result unit IoError * R) :=
  let '(chunked, r) := s in
  match read_bounded_line r with
  | (Err e, r) => inr (Err e, r)
  | (Ok line, r) =>
      if bool_decide (trim_end_matches is_line_end line = []) then inr (if chunked then Ok tt else Err NotChunked, r)
      else inl (header_chunked chunked line, r)
  end.

Definition read_response_head (r : R) : result unit IoError * R :=
  match read_bounded_line r with
  | (Err e, r) => (Err e, r)
  | (Ok status_line, r) =>
      if negb (str_contains (lit " 200 ") status_line) then (Err (RequestFailed (trim_end status_line)), r)
      else match loop_pos head_round rounds (false, r) with
        | inr out => out
        | inl (_, r) => (Err Endless, r)
        end
  end.
End lines.

(** ** The chunked body *)
Record ChunkedBody (R : Type) := { cb_inner : R; cb_remaining_in_chunk : N; cb_finished : bool }.
Arguments cb_inner {R} _.
Arguments cb_remaining_in_chunk {R} _.
Arguments cb_finished {R} _.
Arguments Build_ChunkedBody {R} _ _ _.

Section chunked.
Context {R : Type} `{BufRead R}.

Definition chunked_new (r : R) : ChunkedBody R := Build_ChunkedBody r 0 false.

(** The trailer after the last chunk, up to its blank line. *)
Definition trailer_round (r : R) : R + (result unit IoError * R) :=
  match read_bounded_line r with
  | (Err e, r) => inr (Err e, r)
  | (Ok trailer, r) => if bool_decide (trim_end_matches is_line_end trailer = []) then inr (Ok tt, r) else inl r
  end.

Definition read_trailer (r : R) : result unit IoError * R :=
  match loop_pos trailer_round rounds r with inr out => out | inl r => (Err Endless, r) end.

(** The size of a chunk in its line, without the extension. *)
Definition chunk_size (size_line : text) : result N IoError :=
  let size_str := trim (hd [] (split_on ";" (trim_end_matches is_line_end size_line))) in
  ok_or (from_str_radix_16 size_str) (MalformedChunkSize size_str).

(** The octets of a chunk, and the line end after its last ones. *)
Definition read_in_chunk (want : nat) (remaining : N) (r : R) : result text IoError * ChunkedBody R :=
  match read (N.to_nat (N.min (N.of_nat want) remaining)) r with
  | (Err e, r) => (Err e, Build_ChunkedBody r remaining false)
  | (Ok [], r) => (Ok [], Build_ChunkedBody r remaining true)
  | (Ok got, r) =>
      let remaining := (remaining - N.of_nat (length got))%N in
      if (remaining =? 0)%N
      then match read_exact 2 r with
        | (Err e, r) => (Err e, Build_ChunkedBody r remaining false)
        | (Ok _, r) => (Ok got, Build_ChunkedBody r remaining false)
        end
      else (Ok got, Build_ChunkedBody r remaining false)
  end.

Definition chunked_read (want : nat) (b : ChunkedBody R) : result text IoError * ChunkedBody R :=
  if cb_finished b || bool_decide (want = 0) then (Ok [], b)
  else if (cb_remaining_in_chunk b =? 0)%N
  then match read_bounded_line (cb_inner b) with
    | (Err e, r) => (Err e, Build_ChunkedBody r 0 false)
    | (Ok [], r) => (Ok [], Build_ChunkedBody r 0 true)
    | (Ok size_line, r) =>
        match chunk_size size_line with
        | Err e => (Err e, Build_ChunkedBody r 0 false)
        | Ok size =>
            if (size =? 0)%N
            then match read_trailer r with
              | (Err e, r) => (Err e, Build_ChunkedBody r 0 false)
              | (Ok _, r) => (Ok [], Build_ChunkedBody r 0 true)
              end
            else read_in_chunk want size r
        end
    end
  else read_in_chunk want (cb_remaining_in_chunk b) (cb_inner b).
End chunked.

#[export] Instance ChunkedBody_Read {R} `{BufRead R} : Read (ChunkedBody R) := chunked_read.

(** ** Events *)
Section events.
Context (from_str : text -> option Value) {R : Type} `{BufRead R} (cancelled : nat -> bool).

(** [serde_json::from_str::<StateChange>(&data)]. *)
Definition parse_state_change (data : text) : option StateChange :=
  let! v := from_str data in state_change_from_value v.

(** The fields of the frame that is being read, the last event id, the channel, and how often
    the cancel flag was looked at. *)
Record Streaming := {
  se_event : text;
  se_data : text;
  se_frame_id : option (option text);
  se_last_id : option text;
  se_sender : Sender;
  se_looks : nat;
}.

Definition with_looks (n : nat) (s : Streaming) : Streaming :=
  {| se_event := se_event s; se_data := se_data s; se_frame_id := se_frame_id s; se_last_id := se_last_id s; se_sender := se_sender s; se_looks := n |}.

(** A blank line ends the frame: [inr] is a receiver that is gone. *)
Definition end_frame (s : Streaming) : Streaming + Streaming :=
  let last_id := match se_frame_id s with Some maybe_id => maybe_id | None => se_last_id s end in
  let '(sent, sender) :=
    match (if bool_decide (se_event s = lit "state") then parse_state_change (se_data s) else None) with
    | Some change => send (StateItem change) (se_sender s)
    | None => (true, se_sender s)
    end in
  let next := {| se_event := []; se_data := []; se_frame_id := None; se_last_id := last_id; se_sender := sender; se_looks := se_looks s |} in
  if sent then inl next
  else inr {| se_event := se_event s; se_data := se_data s; se_frame_id := None; se_last_id := last_id; se_sender := sender; se_looks := se_looks s |}.

(** A line of a frame. *)
Definition field_line (trimmed : text) (s : Streaming) : Streaming :=
  let with_id id := {| se_event := se_event s; se_data := se_data s; se_frame_id := Some id; se_last_id := se_last_id s; se_sender := se_sender s; se_looks := se_looks s |} in
  match strip_prefix (lit "event:") trimmed with
  | Some value => {| se_event := trim value; se_data := se_data s; se_frame_id := se_frame_id s; se_last_id := se_last_id s; se_sender := se_sender s; se_looks := se_looks s |}
  | None =>
      match strip_prefix (lit "data:") trimmed with
      | Some value => {| se_event := se_event s; se_data := trim value; se_frame_id := se_frame_id s; se_last_id := se_last_id s; se_sender := se_sender s; se_looks := se_looks s |}
      | None =>
          match strip_prefix (lit "id:") trimmed with
          | Some value =>
              let val := trim value in
              if bool_decide (val = []) then with_id None else if safe_header_value val then with_id (Some val) else s
          | None => if bool_decide (trimmed = lit "id") then with_id None else s
          end
      end
  end.

Definition event_line (line : text) (s : Streaming) : Streaming + Streaming :=
  let trimmed := trim_end_matches is_line_end line in
  if bool_decide (trimmed = []) then end_frame s else inl (field_line trimmed s).

Definition stream_round (p : Streaming * R) : (Streaming * R) + (result unit IoError * Streaming * R) :=
  let '(s, r) := p in
  if cancelled (se_looks s) then inr (Ok tt, s, r)
  else
    let s := with_looks (S (se_looks s)) s in
    match read_bounded_line r with
    | (Err e, r) => inr (Err e, s, r)
    | (Ok [], r) => inr (Ok tt, s, r)
    | (Ok line, r) => match event_line line s with inl s => inl (s, r) | inr s => inr (Ok tt, s, r) end
    end.

Definition streaming_new (last_id : option text) (sender : Sender) (looks : nat) : Streaming :=
  {| se_event := []; se_data := []; se_frame_id := None; se_last_id := last_id; se_sender := sender; se_looks := looks |}.

Definition stream_events (last_id : option text) (sender : Sender) (looks : nat) (r : R) : result unit IoError * Streaming * R :=
  match loop_pos stream_round rounds (streaming_new last_id sender looks, r) with
  | inr out => out
  | inl (s, r) => (Err Endless, s, r)
  end.
End events.

(** ** One connection, from the head of the response on

    The last event id and the number of reconnects outlive the connection. *)
Record ConnectionContext := { cx_last_id : option text; cx_reconnect_count : N }.

Definition note_reconnect (cx : ConnectionContext) (sender : Sender) : ConnectionContext * Sender :=
  let count := wrap_u64 (cx_reconnect_count cx + 1) in
  ({| cx_last_id := cx_last_id cx; cx_reconnect_count := count |}, (send (Reconnected (cx_last_id cx) count) sender).2).

Definition receive_events (from_str : text -> option Value) (cancelled : nat -> bool) (is_reconnect : bool)
    (cx : ConnectionContext) (sender : Sender) (looks : nat) (conn : Conn) : result unit IoError * ConnectionContext * Sender * nat :=
  match read_response_head (bufreader_new conn) with
  | (Err e, _) => (Err e, cx, sender, looks)
  | (Ok _, reader) =>
      let '(cx, sender) := if is_reconnect then note_reconnect cx sender else (cx, sender) in
      let '(out, s, _) := stream_events from_str cancelled (cx_last_id cx) sender looks (bufreader_new (chunked_new reader)) in
      (out, {| cx_last_id := se_last_id s; cx_reconnect_count := cx_reconnect_count cx |}, se_sender s, se_looks s)
  end.
