(* ===== verification/MockPush.v ===== *)
(** The push endpoint of the mock server: the subscribers (jmap-mock/src/state.rs), the changes
    that a request pushes (jmap-mock/src/dispatch.rs) and the chunked stream of events
    (jmap-mock/src/eventsource.rs). *)

From Stdlib Require Import Ascii String.
From stdpp Require Import prelude strings.
From S2P Require Import Prelude BTree Text Strings Octets Json Wire Proto PushProto.

Local Open Scope rust_scope.

(** ** Parameters of a subscription *)
Record EventSourceParams := { ep_types : option (list text); ep_close_after_state : bool; ep_ping_interval : option N }.

Definition parse_params (query : text) : EventSourceParams :=
  let fields := bt_of_list (omap (split_once "=") (filter (fun pair => pair <> []) (split_on "&" query))) in
  {| ep_types :=
       let! value := bt_get (lit "types") fields in
       if bool_decide (value = lit "*") then None
       else Some (bs_of_list (filter (fun name => name <> []) (split_on "," value)));
     ep_close_after_state := bool_decide (bt_get (lit "closeafter") fields = Some (lit "state"));
     ep_ping_interval :=
       let! value := bt_get (lit "ping") fields in
       let! seconds := parse_u64 value in
       if (0 <? seconds)%N then Some seconds else None |}.

(** ** Changes *)

(** State counters by account and data type. *)
Abbreviation TypeStateSnapshot := (btmap Id (btmap text N)) (only parsing).

Definition changed_types (before : option (btmap text N)) (after : btmap text N) : btmap text State :=
  fold_left (fun types entry =>
    let prior := let! before := before in bt_get entry.1 before in
    if bool_decide (prior = Some entry.2) then types else bt_insert entry.1 (to_dec entry.2) types) after [].

Definition state_change_since (before after : TypeStateSnapshot) : option StateChange :=
  let changed := fold_left (fun changed entry =>
    let types := changed_types (bt_get entry.1 before) entry.2 in
    if bool_decide (types = []) then changed else bt_insert entry.1 types changed) after [] in
  if bool_decide (changed = []) then None else Some (state_change_new changed).

(** The change narrowed to the subscribed types. *)
Definition narrowed (types : list text) (state : btmap text State) : btmap text State :=
  bt_of_list (filter (fun e => bs_contains e.1 types = true) state).

Definition filter_for (change : StateChange) (types : option (list text)) : option StateChange :=
  match types with
  | None => Some change
  | Some types =>
      let changed := bt_of_list (omap (fun entry =>
        if bool_decide (narrowed types entry.2 = []) then None else Some (entry.1, narrowed types entry.2)) (sc_changed change)) in
      if bool_decide (changed = []) then None else Some (state_change_new changed)
  end.

Section stream.
Context (to_string : Value -> text).

Definition format_state_event (change : StateChange) : text :=
  lit "event: state" ++ [LF] ++ lit "data: " ++ to_string (state_change_to_value change) ++ [LF; LF].

Definition quoted (t : text) : text := ["034"%char] ++ t ++ ["034"%char].

Definition format_ping_event (interval : N) : text :=
  lit "event: ping" ++ [LF] ++ lit "data: {" ++ quoted (lit "interval") ++ lit ":" ++ to_dec interval ++ lit "}" ++ [LF; LF].

(** The event of the scenario with an unknown account and unknown types. *)
Definition hostile_event : text :=
  lit "event: state" ++ [LF] ++ lit "data: {" ++ quoted (lit "@type") ++ lit ":" ++ quoted (lit "StateChange") ++ lit "," ++
  quoted (lit "changed") ++ lit ":{" ++ quoted (lit "unknown-account-XYZ") ++ lit ":{" ++
  quoted (lit "UnknownType123") ++ lit ":" ++ quoted (lit "state-999") ++ lit "," ++
  quoted (lit "SuperMaliciousType") ++ lit ":" ++ quoted (lit "state-888") ++ lit "}}}" ++ [LF; LF].

(** ** The hub

    A subscriber is the channel that [subscribe] made, with what was sent on it and whether
    its receiver is still there. *)
Record Subscriber := { sb_id : nat; sb_types : option (list text); sb_sent : list text; sb_open : bool }.
Record EventSourceHub := { hub_subscribers : list Subscriber; hub_next : nat }.

Definition subscribe (types : option (list text)) (hub : EventSourceHub) : nat * EventSourceHub :=
  (hub_next hub,
   {| hub_subscribers := hub_subscribers hub ++ [{| sb_id := hub_next hub; sb_types := types; sb_sent := []; sb_open := true |}];
      hub_next := S (hub_next hub) |}).

Definition broadcast_to (change : StateChange) (s : Subscriber) : option Subscriber :=
  match filter_for change (sb_types s) with
  | Some filtered =>
      if sb_open s
      then Some {| sb_id := sb_id s; sb_types := sb_types s; sb_sent := sb_sent s ++ [format_state_event filtered]; sb_open := true |}
      else None
  | None => Some s
  end.

Definition broadcast (change : StateChange) (hub : EventSourceHub) : EventSourceHub :=
  {| hub_subscribers := omap (broadcast_to change) (hub_subscribers hub); hub_next := hub_next hub |}.

(** ** The stream *)

(** What was written, and how many octets the connection still takes. *)
Record Writer := { wr_out : text; wr_room : option nat }.

Definition write_all (data : text) (w : Writer) : bool * Writer :=
  match wr_room w with
  | None => (true, {| wr_out := wr_out w ++ data; wr_room := None |})
  | Some room => (length data <=? room, {| wr_out := wr_out w ++ take room data; wr_room := Some (room - length data) |})
  end.

Definition write_chunk (data : text) (w : Writer) : bool * Writer :=
  let '(ok, w) := write_all (to_hex (N.of_nat (length data)) ++ [CR; LF]) w in
  if ok then
    let '(ok, w) := write_all data w in
    if ok then write_all [CR; LF] w else (false, w)
  else (false, w).

Definition end_chunked_body (w : Writer) : Writer := (write_all (lit "0" ++ [CR; LF; CR; LF]) w).2.

(** What [recv] and [recv_timeout] give: a chunk, or a timeout, which is only there with a ping
    interval. After the last one the channel is disconnected. *)
Inductive Arrival := Pushed (chunk : text) | TimedOut.

Definition arrival_bytes (ping_interval : option N) (arrival : Arrival) : option text :=
  match arrival with Pushed chunk => Some chunk | TimedOut => format_ping_event <$> ping_interval end.

Fixpoint stream_loop (ping_interval : option N) (close_after_state : bool) (arrivals : list Arrival) (w : Writer) : Writer :=
  match arrivals with
  | [] => w
  | arrival :: arrivals =>
      match arrival_bytes ping_interval arrival with
      | None => stream_loop ping_interval close_after_state arrivals w
      | Some bytes =>
          let '(ok, w) := write_chunk bytes w in
          if negb ok then w
          else if match arrival with Pushed _ => close_after_state | TimedOut => false end then end_chunked_body w
          else stream_loop ping_interval close_after_state arrivals w
      end
  end.

Definition server_stream (ping_interval : option N) (close_after_state hostile_unknown : bool) (arrivals : list Arrival) (w : Writer) : Writer :=
  if hostile_unknown then
    let '(ok, w) := write_chunk hostile_event w in
    if negb ok then w
    else if close_after_state then end_chunked_body w
    else stream_loop ping_interval close_after_state arrivals w
  else stream_loop ping_interval close_after_state arrivals w.

Definition response_head : text :=
  lit "HTTP/1.1 200 OK" ++ [CR; LF] ++ lit "Content-Type: text/event-stream" ++ [CR; LF] ++
  lit "Cache-Control: no-cache" ++ [CR; LF] ++ lit "Transfer-Encoding: chunked" ++ [CR; LF] ++ [CR; LF].

(** The thread of a subscriber. *)
Definition respond (params : EventSourceParams) (hostile_unknown : bool) (arrivals : list Arrival) (w : Writer) : Writer :=
  let '(ok, w) := write_all response_head w in
  if ok then server_stream (ep_ping_interval params) (ep_close_after_state params) hostile_unknown arrivals w else w.
End stream.
