(* ===== verification/EventFrames.v ===== *)
(** The lines of a push stream, however the network cuts them (jmap-client/src/eventsource.rs),
    and the events of the mock server in them: a frame is one item, whatever follows it, and a
    frame that is cut off is none. *)

From Stdlib Require Import Ascii String.
From stdpp Require Import prelude strings.
From S2P Require Import Prelude BTree Text Strings Octets Json Wire FolderDisk IoRead PushProto EventStream MockPush.

Local Open Scope rust_scope.

(** ** Lines *)

(** The next line of the octets [t], and what follows it. *)
Definition next_line (t : text) (e : option IoError) : result (text * text) IoError :=
  let? out := until_line (N.to_nat MAX_LINE_BYTES) t e in
  if (N.of_nat (length out.1) =? MAX_LINE_BYTES)%N && negb (bool_decide (last out.1 = Some LF)) then Err LineTooLong
  else let? line := ok_or (from_utf8 out.1) NotUtf8 in Ok (line, out.2).

(** Octets that fit into a line with its end. *)
Definition line_ok (line : text) : Prop := (LF ∉ line) /\ (N.of_nat (length line) < MAX_LINE_BYTES)%N /\ utf8_valid line = true.

Section lines.
Context {R : Type} `{BufRead R} (holds : R -> text -> option IoError -> Prop) `{!BufSource holds}.

Lemma read_bounded_line_law r t e :
  holds r t e ->
  match next_line t e with
  | Ok (line, rest) => exists r', read_bounded_line r = (Ok line, r') /\ holds r' rest e
  | Err x => exists r', read_bounded_line r = (Err x, r')
  end.
Proof using BufSource0.
  intros Hh. pose proof (read_until_law holds MAX_LINE_BYTES r t e Hh ltac:(done)) as Hu. unfold next_line, read_bounded_line.
  destruct (until_line _ t e) as [[bytes rest]|x]; cbn [rbind fst snd].
  - destruct Hu as (r'&->&Hh'). destruct (_ && _); [eauto|]. destruct (from_utf8 bytes); cbn [ok_or rbind]; eauto.
  - destruct Hu as (r'&->). eauto.
Qed.
End lines.

Lemma utf8_snoc_lf line : utf8_valid line = true -> utf8_valid (line ++ [LF]) = true.
Proof. intros Hu. by rewrite utf8_app. Qed.

Lemma next_line_found line rest e : line_ok line -> next_line (line ++ LF :: rest) e = Ok (line ++ [LF], rest).
Proof.
  intros (Hn&Hl&Hu). unfold next_line. rewrite until_line_found by (done || lia). cbn [rbind fst snd].
  rewrite last_snoc, bool_decide_eq_true_2, andb_false_r by done. by rewrite from_utf8_ok by by apply utf8_snoc_lf.
Qed.

(** A line is a piece of the text up to its next line feed. *)
Lemma next_line_piece t e line rest :
  next_line t e = Ok (line, rest) -> t = [] /\ line = [] /\ rest = [] \/ split_inclusive LF t = line :: split_inclusive LF rest /\ t = line ++ rest /\ line <> [].
Proof.
  unfold next_line, until_line. destruct (split_once LF (take _ t)) as [[before after]|] eqn:E.
  - apply split_once_Some in E as [E Hb]. assert (exists rest', t = before ++ LF :: rest') as [rest' ->].
    { exists (after ++ drop (N.to_nat MAX_LINE_BYTES) t). rewrite <- (take_drop (N.to_nat MAX_LINE_BYTES) t) at 1. rewrite E, <- app_assoc. done. }
    cbn [rbind fst snd]. rewrite last_snoc, bool_decide_eq_true_2, andb_false_r by done. destruct (from_utf8 (before ++ [LF])) as [l|] eqn:Ef; [|done].
    cbn [ok_or rbind]. intros [= <- <-]. unfold from_utf8 in Ef. case_match; [|done]. injection Ef as <-. right.
    replace (S (length before)) with (length before + 1) by lia. rewrite drop_app_add. cbn [drop]. rewrite split_inclusive_app by done.
    split_and!; [done|by rewrite <- app_assoc|by destruct before].
  - apply split_once_None in E. destruct (Nat.leb_spec (N.to_nat MAX_LINE_BYTES) (length t)) as [Hl|Hl].
    + cbn [rbind fst snd]. rewrite length_take, Nat.min_l by done. rewrite N2Nat.id, N.eqb_refl. cbn [andb].
      destruct (bool_decide_reflect (last (take (N.to_nat MAX_LINE_BYTES) t) = Some LF)) as [Hlast|]; [|done].
      exfalso. apply E. by apply last_Some_elem_of.
    + rewrite take_ge in E by lia. destruct e as [x|]; [done|]. cbn [rbind fst snd]. destruct (_ && _); [done|].
      destruct (from_utf8 t) as [l|] eqn:Ef; [|done]. cbn [ok_or rbind]. intros [= <- <-]. unfold from_utf8 in Ef. case_match; [|done]. injection Ef as <-.
      destruct t as [|c t]; [by left|]. right. rewrite app_nil_r. split_and!; [|done..]. by apply split_inclusive_none.
Qed.

Lemma next_line_last t e line rest : next_line t e = Ok (line, rest) -> LF ∉ t -> rest = [].
Proof.
  intros En Ht. destruct (next_line_piece _ _ _ _ En) as [(_&_&?)|(Hs&->&Hne)]; [done|]. rewrite split_inclusive_none in Hs by (done || by destruct line).
  apply (f_equal tail) in Hs. cbn in Hs. destruct rest as [|c rest]; [done|]. pose proof (concat_split_inclusive LF (c :: rest)) as Hc. by rewrite <- Hs in Hc.
Qed.


(** ** What the printer of serde_json promises

    Compact text of an object: one line of UTF-8 in braces, read back as the same value, up to
    the limit of nesting. *)
Class JsonText (to_string : Value -> text) (from_str : text -> option Value) : Prop := {
  json_reads : forall v, value_ok v -> nesting v < 128 -> from_str (to_string v) = Some v;
  json_line : forall v, (LF ∉ to_string v) /\ (CR ∉ to_string v);
  json_utf8 : forall v, utf8_valid (to_string v) = true;
  json_braces : forall m, exists inner, to_string (Object m) = lit "{" ++ inner ++ lit "}" }.

Lemma trim_space t : strip_space t = None -> strip_space_end t = None -> t <> [] -> trim (" "%char :: t) = t.
Proof.
  intros Hs He Hn. unfold trim. assert (trim_start (" "%char :: t) = t) as ->; [|by apply strip_all_id].
  unfold trim_start. cbn [length]. assert (strip_space (" "%char :: t) = Some t) as Hsp by reflexivity. cbn [strip_all]. rewrite Hsp. by apply strip_all_id.
Qed.

Lemma trim_line_end line : LF ∉ line -> CR ∉ line -> trim_end_matches is_line_end (line ++ [LF]) = line.
Proof.
  intros Hl Hc. unfold trim_end_matches. rewrite reverse_snoc. cbn [trim_start_matches]. change (is_line_end LF) with true. cbn iota.
  destruct (reverse line) as [|c l] eqn:E; cbn [trim_start_matches].
  - apply (f_equal reverse) in E. by rewrite reverse_involutive in E.
  - assert (is_line_end c = false) as ->.
    { assert (c ∈ line) by (apply elem_of_reverse; rewrite E; by left). unfold is_line_end.
      rewrite !bool_decide_eq_false_2; [done|by intros ->..]. }
    rewrite <- E. apply reverse_involutive.
Qed.

Lemma prefix_app_cases {A} (x a b : list A) : x `prefix_of` a ++ b -> x `prefix_of` a \/ exists y, x = a ++ y /\ y `prefix_of` b.
Proof.
  revert x. induction a as [|c a IH]; intros x Hx; [right; by exists x|]. destruct x as [|d x]; [left; apply prefix_nil|].
  pose proof (prefix_cons_inv_1 _ _ _ _ Hx) as ->. apply prefix_cons_inv_2 in Hx. destruct (IH x Hx) as [Hl|(y&->&Hy)].
  - left. by apply prefix_cons.
  - right. by exists y.
Qed.

(** Octets in which no line ends a frame. *)
Definition no_frame_end (t : text) : Prop := Forall (fun p => trim_end_matches is_line_end p <> []) (split_inclusive LF t).

Lemma no_frame_end_line a : LF ∉ a -> CR ∉ a -> no_frame_end a.
Proof.
  intros Hl Hc. unfold no_frame_end. destruct (decide (a = [])) as [->|Hn]; [constructor|]. rewrite split_inclusive_none by done. repeat constructor.
  destruct (trim_end_matches_spec is_line_end a) as (post&Ha&Hp&_). intros Ht. rewrite Ht in Ha. cbn [app] in Ha. subst post.
  destruct a as [|c a]; [done|]. apply Forall_cons in Hp as [Hcc _]. unfold is_line_end in Hcc.
  rewrite !bool_decide_eq_false_2 in Hcc; [done|intros ->; apply Hl; by left|intros ->; apply Hc; by left].
Qed.

(** A frame that is cut off has no end. *)
Lemma cut_frame a b x :
  a <> [] -> LF ∉ a -> CR ∉ a -> b <> [] -> LF ∉ b -> CR ∉ b ->
  x `prefix_of` a ++ [LF] ++ b ++ [LF; LF] -> x <> a ++ [LF] ++ b ++ [LF; LF] -> no_frame_end x.
Proof.
  intros Ha Hal Hac Hb Hbl Hbc Hp Hne. assert (forall l, LF ∉ l -> CR ∉ l -> forall x, x `prefix_of` l -> no_frame_end x) as Hpre.
  { intros l Hl Hc y [z ->]. apply not_elem_of_app in Hl as [Hl _]. apply not_elem_of_app in Hc as [Hc _]. by apply no_frame_end_line. }
  assert (forall l y, l <> [] -> LF ∉ l -> CR ∉ l -> no_frame_end y -> no_frame_end (l ++ LF :: y)) as Hline.
  { intros l y Hl0 Hl Hc Hy. unfold no_frame_end. rewrite split_inclusive_app by done. constructor; [|done]. by rewrite trim_line_end. }
  destruct (prefix_app_cases _ _ _ Hp) as [Hx|(y&->&Hy)]; [by eapply (Hpre a)|]. destruct y as [|c y]; [rewrite app_nil_r; by apply no_frame_end_line|].
  pose proof (prefix_cons_inv_1 _ _ _ _ Hy) as ->. apply prefix_cons_inv_2 in Hy. cbn [app] in Hy. apply Hline; [done..|].
  destruct (prefix_app_cases _ _ _ Hy) as [Hx|(z&->&Hz)]; [by eapply (Hpre b)|]. destruct z as [|d z]; [rewrite app_nil_r; by apply no_frame_end_line|].
  pose proof (prefix_cons_inv_1 _ _ _ _ Hz) as ->. apply prefix_cons_inv_2 in Hz. apply Hline; [done..|].
  destruct z as [|d z]; [constructor|]. exfalso. apply Hne. pose proof (prefix_cons_inv_1 _ _ _ _ Hz) as ->.
  apply prefix_cons_inv_2, prefix_nil_inv in Hz as ->. done.
Qed.

(** A change that serde_json can carry on one line. *)
Definition pushable (to_string : Value -> text) (c : StateChange) : Prop :=
  state_change_ok c /\ nesting (state_change_to_value c) < 128 /\
  (N.of_nat (length (to_string (state_change_to_value c))) + 6 < MAX_LINE_BYTES)%N.

Definition sent (item : EventSourceItem) (s : Sender) : Sender := {| sd_items := sd_items s ++ [item]; sd_hangs_up := sd_hangs_up s |}.

Section frames.
Context (to_string : Value -> text) (from_str : text -> option Value) `{!JsonText to_string from_str}.
Context {R : Type} `{BufRead R} (holds : R -> text -> option IoError -> Prop) `{!BufSource holds}.
Context (cancelled : nat -> bool) (running : forall n, cancelled n = false).

Abbreviation round := (stream_round from_str cancelled) (only parsing).

Lemma stream_line s r line rest e :
  holds r (line ++ LF :: rest) e -> line_ok line ->
  exists r', holds r' rest e /\
    round (s, r) = match event_line from_str (line ++ [LF]) (with_looks (S (se_looks s)) s) with inl s => inl (s, r') | inr s => inr (Ok tt, s, r') end.
Proof using BufSource0 running.
  intros Hh Hl. pose proof (read_bounded_line_law holds r _ e Hh) as Hr. rewrite next_line_found in Hr by done. destruct Hr as (r'&Hr&Hh').
  exists r'. split; [done|]. unfold stream_round. rewrite running, Hr. by destruct line.
Qed.

(** *** The lines of a frame *)
Definition with_event (event : text) (s : Streaming) : Streaming :=
  {| se_event := event; se_data := se_data s; se_frame_id := se_frame_id s; se_last_id := se_last_id s; se_sender := se_sender s; se_looks := se_looks s |}.
Definition with_data (data : text) (s : Streaming) : Streaming :=
  {| se_event := se_event s; se_data := data; se_frame_id := se_frame_id s; se_last_id := se_last_id s; se_sender := se_sender s; se_looks := se_looks s |}.

Lemma event_state_line s : event_line from_str (lit "event: state" ++ [LF]) s = inl (with_event (lit "state") s).
Proof using Type. reflexivity. Qed.

Lemma event_ping_line s : event_line from_str (lit "event: ping" ++ [LF]) s = inl (with_event (lit "ping") s).
Proof using Type. reflexivity. Qed.

Lemma blank_line s : event_line from_str ([] ++ [LF]) s = end_frame from_str s.
Proof using Type. reflexivity. Qed.

Lemma data_line json s :
  (exists inner, json = lit "{" ++ inner ++ lit "}") -> LF ∉ json -> CR ∉ json ->
  event_line from_str ((lit "data: " ++ json) ++ [LF]) s = inl (with_data json s).
Proof using Type.
  intros [inner Hj] Hl Hc. unfold event_line. rewrite trim_line_end.
  2: { apply not_elem_of_app. split; [by_decide|done]. }
  2: { apply not_elem_of_app. split; [by_decide|done]. }
  rewrite bool_decide_eq_false_2 by done. unfold field_line.
  change (strip_prefix (lit "event:") (lit "data: " ++ json)) with (@None text). cbn iota.
  change (strip_prefix (lit "data:") (lit "data: " ++ json)) with (Some (" "%char :: json)). cbn iota. rewrite trim_space; [done|..].
  - rewrite Hj. by apply solid_start.
  - rewrite Hj, app_assoc. by apply solid_end.
  - by rewrite Hj.
Qed.

Lemma loop_line n s r line rest e s' :
  holds r (line ++ LF :: rest) e -> line_ok line -> event_line from_str (line ++ [LF]) (with_looks (S (se_looks s)) s) = inl s' ->
  exists r', holds r' rest e /\ loop_nat round (S n) (s, r) = loop_nat round n (s', r').
Proof using BufSource0 running.
  intros Hh Hl He. destruct (stream_line s r line rest e Hh Hl) as (r'&Hh'&Hr). exists r'. split; [done|]. cbn [loop_nat]. by rewrite Hr, He.
Qed.

(** A frame of an event line and a data line. *)
Lemma loop_frame n event name json last sender looks r rest e s' :
  (forall s, event_line from_str (event ++ [LF]) s = inl (with_event name s)) -> line_ok event ->
  (exists inner, json = lit "{" ++ inner ++ lit "}") -> LF ∉ json -> CR ∉ json -> line_ok (lit "data: " ++ json) ->
  end_frame from_str (with_data json (with_event name (streaming_new last sender (3 + looks)))) = inl s' ->
  holds r (event ++ [LF] ++ (lit "data: " ++ json) ++ [LF; LF] ++ rest) e ->
  exists r', holds r' rest e /\ loop_nat round (3 + n) (streaming_new last sender looks, r) = loop_nat round n (s', r').
Proof using BufSource0 running.
  intros He Hle Hb Hlf Hcr Hld Hend Hh.
  destruct (loop_line (2 + n) (streaming_new last sender looks) r event ((lit "data: " ++ json) ++ LF :: [] ++ LF :: rest) e _ Hh Hle (He _)) as (r1&Hh1&E1).
  destruct (loop_line (1 + n) (with_event name (streaming_new last sender (1 + looks))) r1 _ ([] ++ LF :: rest) e _ Hh1 Hld (data_line json _ Hb Hlf Hcr)) as (r2&Hh2&E2).
  destruct (loop_line n (with_data json (with_event name (streaming_new last sender (2 + looks)))) r2 [] rest e s' Hh2) as (r3&Hh3&E3).
  { by split_and!; [apply not_elem_of_nil|..]. }
  { rewrite blank_line. exact Hend. }
  exists r3. split; [done|]. change (3 + n) with (S (2 + n)). rewrite E1. change (2 + n) with (S (1 + n)). etransitivity; [exact E2|exact E3].
Qed.

Lemma loop_state n last sender looks r c rest e :
  pushable to_string c -> sd_hangs_up sender = None -> holds r (format_state_event to_string c ++ rest) e ->
  exists r', holds r' rest e /\
    loop_nat round (3 + n) (streaming_new last sender looks, r) = loop_nat round n (streaming_new last (sent (StateItem c) sender) (3 + looks), r').
Proof using All.
  intros (Hok&Hn&Hlen) Hopen Hh. destruct (json_line (state_change_to_value c)) as [Hlf Hcr].
  eapply (loop_frame n (lit "event: state") (lit "state") (to_string (state_change_to_value c))); try done.
  - split_and!; [by_decide|done|done].
  - apply json_braces.
  - split_and!; [apply not_elem_of_app; split; [by_decide|done]|rewrite length_app; cbn [length lit]; cbn; lia|]. rewrite utf8_app by done. apply json_utf8.
  - unfold end_frame. cbn. unfold parse_state_change. rewrite json_reads by (done || by apply state_change_value_ok). cbn [mbind option_bind].
    rewrite state_change_reads by done. unfold send. rewrite bool_decide_eq_true_2 by done. unfold sent. by rewrite Hopen.
  - unfold format_state_event in Hh. rewrite <- !app_assoc in Hh. rewrite <- !app_assoc. exact Hh.
Qed.

Lemma loop_ping n interval last sender looks r rest e :
  (interval <= u64_max)%N -> holds r (format_ping_event interval ++ rest) e ->
  exists r', holds r' rest e /\
    loop_nat round (3 + n) (streaming_new last sender looks, r) = loop_nat round n (streaming_new last sender (3 + looks), r').
Proof using BufSource0 running.
  intros Hi Hh. set (json := lit "{" ++ quoted (lit "interval") ++ lit ":" ++ to_dec interval ++ lit "}").
  assert (forall c, is_digit c = false -> c ∉ lit "{" ++ quoted (lit "interval") ++ lit ":" ++ lit "}" -> c ∉ json) as Hnot.
  { intros c Hc Hn Hin. pose proof (digits_not c (to_dec interval) (to_dec_digits interval) Hc). unfold json in Hin. rewrite !elem_of_app in Hin. rewrite !not_elem_of_app in Hn. tauto. }
  eapply (loop_frame n (lit "event: ping") (lit "ping") json); try done.
  - split_and!; [by_decide|done|done].
  - exists (quoted (lit "interval") ++ lit ":" ++ to_dec interval). unfold json. by rewrite !app_assoc.
  - apply Hnot; [done|by_decide].
  - apply Hnot; [done|by_decide].
  - split_and!; [apply not_elem_of_app; split; [by_decide|apply Hnot; [done|by_decide]]|..].
    + pose proof (to_dec_length interval). pose proof (size_u64 interval Hi). unfold json. rewrite !length_app. cbn. unfold MAX_LINE_BYTES. lia.
    + rewrite utf8_app by done. apply utf8_ascii. unfold json. rewrite !Forall_app. split_and!; [by_decide|by_decide|by_decide| |by_decide].
      eapply Forall_impl; [apply to_dec_digits|]. intros c. unfold is_digit, is_ascii. intros [_ Hhi%N.leb_le]%andb_true_iff. apply N.ltb_lt. lia.
  - unfold format_ping_event in Hh. unfold json. rewrite <- !app_assoc in Hh. rewrite <- !app_assoc. exact Hh.
Qed.

Lemma field_line_sender t s : se_sender (field_line t s) = se_sender s.
Proof using Type. unfold field_line. repeat case_match; done. Qed.

(** What has no end of a frame sends nothing, whether it ends, breaks or cannot be read. *)
Lemma loop_tail s r t e :
  holds r t e -> no_frame_end t ->
  exists n out s' r', n <= S (length t) /\ loop_nat round n (s, r) = inr (out, s', r') /\ se_sender s' = se_sender s.
Proof using BufSource0 running.
  remember (length t) as k eqn:Hk. revert s r t Hk. induction (lt_wf k) as [k _ IH]. intros s r t -> Hh Ht.
  pose proof (read_bounded_line_law holds r t e Hh) as Hr. destruct (next_line t e) as [[line rest]|x] eqn:En.
  2: { destruct Hr as (r'&Hr). exists 1, (Err x), (with_looks (S (se_looks s)) s), r'. split; [lia|]. cbn [loop_nat]. unfold stream_round. by rewrite running, Hr. }
  destruct Hr as (r'&Hr&Hh'). destruct (next_line_piece _ _ _ _ En) as [(->&->&->)|(Hs&->&Hne)].
  { exists 1, (Ok tt), (with_looks (S (se_looks s)) s), r'. split; [lia|]. cbn [loop_nat]. unfold stream_round. by rewrite running, Hr. }
  unfold no_frame_end in Ht. rewrite Hs in Ht. apply Forall_cons in Ht as [Hl Ht]. rewrite length_app in *.
  assert (0 < length line) by (destruct line; [done|cbn; lia]).
  set (s1 := field_line (trim_end_matches is_line_end line) (with_looks (S (se_looks s)) s)).
  destruct (IH (length rest) ltac:(lia) s1 r' rest eq_refl Hh' Ht) as (n&out&s'&r2&Hn&Hloop&Hsend).
  exists (S n), out, s', r2. split_and!; [lia| |by rewrite Hsend; unfold s1; rewrite field_line_sender].
  assert (round (s, r) = inl (s1, r')) as Hround; [|cbn [loop_nat]; by rewrite Hround].
  unfold stream_round. rewrite running, Hr. destruct line as [|c line]; [done|]. unfold event_line. by rewrite bool_decide_eq_false_2 by done.
Qed.
End frames.
