(* ===== verification/EventChunks.v ===== *)
(** The chunked body of a push stream: what the client reads out of the chunks of the server,
    however the network cuts them, and of a body that is cut off anywhere; and the head of the
    response before it. *)

From Stdlib Require Import Ascii String.
From stdpp Require Import prelude strings.
From S2P Require Import Prelude BTree Text Strings Octets Json IoRead PushProto EventStream EventFrames MockPush.

Local Open Scope rust_scope.

(** A chunk on the wire. *)
Definition chunk (data : text) : text := to_hex (N.of_nat (length data)) ++ [CR; LF] ++ data ++ [CR; LF].

(** *** Size lines *)
Lemma hex_not c t : Forall (fun c => is_hex_digit c = true) t -> is_hex_digit c = false -> c ∉ t.
Proof. intros Ht Hc Hin. rewrite Forall_forall in Ht. by rewrite (Ht c Hin) in Hc. Qed.

Lemma hex_chars c : is_hex_digit c = true -> c ∈ lit "0123456789abcdef".
Proof.
  intros H. apply (bool_decide_unpack (c ∈ lit "0123456789abcdef")). revert H. destruct c as [[] [] [] [] [] [] [] []]; vm_compute; done.
Qed.

Lemma hex_solid c : is_hex_digit c = true -> solid c = true /\ is_line_end c = false /\ is_ascii c = true.
Proof.
  intros Hc%hex_chars. assert (Forall (fun c => solid c = true /\ is_line_end c = false /\ is_ascii c = true) (lit "0123456789abcdef")) as H
    by (repeat constructor; by vm_compute).
  rewrite Forall_forall in H. by apply H.
Qed.

Lemma chunk_size_hex n : (n <= u64_max)%N -> chunk_size (to_hex n ++ [CR; LF]) = Ok n.
Proof.
  intros Hn. pose proof (to_hex_digits n) as Hd. pose proof (to_hex_nonempty n) as He.
  assert (trim_end_matches is_line_end (to_hex n ++ [CR; LF]) = to_hex n) as Ht.
  { unfold trim_end_matches. rewrite reverse_app. change (reverse [CR; LF]) with [LF; CR]. cbn [app trim_start_matches].
    change (is_line_end LF) with true. change (is_line_end CR) with true. cbn iota.
    destruct (reverse (to_hex n)) as [|c l] eqn:E; [by apply (f_equal reverse) in E; rewrite reverse_involutive in E|].
    cbn [trim_start_matches]. destruct (hex_solid c) as (_&->&_); [|rewrite <- E; apply reverse_involutive].
    rewrite Forall_forall in Hd. apply Hd, elem_of_reverse. rewrite E. by left. }
  unfold chunk_size. rewrite Ht, split_on_none by (by eapply hex_not). cbn [hd]. rewrite trim_id.
  - by rewrite from_radix_to_hex.
  - destruct (to_hex n) as [|c t]; [done|]. apply Forall_cons in Hd as [Hc _]. apply solid_start. by apply hex_solid.
  - destruct (to_hex n) as [|c t _] using rev_ind; [done|]. apply Forall_app in Hd as [_ Hc]. apply Forall_cons in Hc as [Hc _]. apply solid_end. by apply hex_solid.
Qed.

Lemma size_line_ok n : (n <= u64_max)%N -> line_ok (to_hex n ++ [CR]).
Proof.
  intros Hn. pose proof (to_hex_digits n) as Hd. split_and!.
  - apply not_elem_of_app. split; [by eapply hex_not|by_decide].
  - pose proof (to_hex_length n). pose proof (size_u64 n Hn). rewrite length_app. cbn [length]. unfold MAX_LINE_BYTES. lia.
  - rewrite utf8_app; [done|]. apply utf8_ascii. eapply Forall_impl; [exact Hd|]. intros c Hc. by apply hex_solid.
Qed.

Section chunks.
Context {R : Type} `{BufRead R} (holds : R -> text -> option IoError -> Prop) `{!ReadSource holds} `{!BufSource holds}.

Abbreviation in_chunk r remaining := (Build_ChunkedBody (R := R) r remaining false) (only parsing).

Lemma buffer_positive : 0 < BUFFER.
Proof using Type. unfold BUFFER. lia. Qed.

Lemma chunked_read_in r remaining : (0 < remaining)%N -> read BUFFER (in_chunk r remaining) = read_in_chunk BUFFER remaining r.
Proof using Type.
  intros Hr. change (read BUFFER ?b) with (chunked_read BUFFER b). unfold chunked_read. cbn [cb_finished cb_remaining_in_chunk cb_inner orb].
  pose proof buffer_positive. rewrite bool_decide_eq_false_2 by lia. by destruct (N.eqb_spec remaining 0); [lia|].
Qed.

(** One read inside a chunk that arrived with its line end. *)
Lemma whole_step r remaining d rest e :
  holds r (d ++ [CR; LF] ++ rest) e -> N.of_nat (length d) = remaining -> d <> [] ->
  exists got d' r', d = got ++ d' /\ got <> [] /\
    read_in_chunk BUFFER remaining r = (Ok got, in_chunk r' (N.of_nat (length d'))) /\
    if decide (d' = []) then holds r' rest e else holds r' (d' ++ [CR; LF] ++ rest) e.
Proof using ReadSource0.
  intros Hh Hr Hd. pose proof buffer_positive. assert (0 < length d) by (destruct d; [done|cbn; lia]). unfold read_in_chunk.
  pose proof (read_law r _ e (N.to_nat (N.min (N.of_nat BUFFER) remaining)) Hh ltac:(lia)) as Hl. destruct (read _ r) as [[got|x] r1].
  2: { destruct Hl as [Hl _]. by destruct d. }
  destruct Hl as (Hp&Hlen&Hn&Hh1). assert (got `prefix_of` d) as [d' ->].
  { destruct (prefix_app_cases _ _ _ Hp) as [Hpd|(y&->&_)]; [done|]. rewrite length_app in Hlen. assert (y = []) as -> by (destruct y; [done|cbn in Hlen; lia]). by rewrite app_nil_r. }
  rewrite <- app_assoc, drop_app_length in Hh1. assert (got <> []) as Hg by (intros ->; destruct (Hn eq_refl) as [E _]; by destruct d').
  destruct got as [|c got]; [done|]. rewrite length_app in Hr. replace (remaining - N.of_nat (length (c :: got)))%N with (N.of_nat (length d')) by lia.
  destruct (N.eqb_spec (N.of_nat (length d')) 0) as [Hz|Hz].
  - assert (d' = []) as -> by (destruct d'; [done|cbn in Hz; lia]). cbn [app] in Hh1. pose proof (read_exact_law holds 2 r1 _ e Hh1) as He.
    rewrite decide_True in He by (cbn; lia). destruct He as (r2&->&Hh2). exists (c :: got), [], r2. rewrite decide_True by done. done.
  - exists (c :: got), d', r1. rewrite decide_False by (by intros ->). done.
Qed.

Lemma whole_drains r remaining d rest e (P : text -> option IoError -> Prop) :
  holds r (d ++ [CR; LF] ++ rest) e -> N.of_nat (length d) = remaining -> d <> [] ->
  (forall r', holds r' rest e -> exists t e', P t e' /\ drains (in_chunk r' 0%N) t e') ->
  exists t e', P t e' /\ drains (in_chunk r remaining) (d ++ t) e'.
Proof using ReadSource0.
  intros Hh <- Hd Hrest. remember (length d) as k eqn:Hk. revert r d Hk Hh Hd. induction (lt_wf k) as [k _ IH]. intros r d -> Hh Hd.
  destruct (whole_step r _ d rest e Hh eq_refl Hd) as (got&d'&r'&->&Hg&Hread&Hh'). assert (0 < length got) by (destruct got; [done|cbn; lia]).
  rewrite length_app in *. assert (exists t e', P t e' /\ drains (in_chunk r' (N.of_nat (length d'))) (d' ++ t) e') as (t&e'&HP&Hdr).
  { destruct (decide (d' = [])) as [->|Hne]; [by apply Hrest|]. by eapply (IH (length d')); [lia|..]. }
  exists t, e'. split; [done|]. rewrite <- app_assoc. econstructor; [|exact Hg|exact Hdr]. by rewrite chunked_read_in by lia.
Qed.

(** A body that has ended stays so. *)
Lemma finished_stays r remaining : read BUFFER (Build_ChunkedBody r remaining true) = (Ok [], Build_ChunkedBody (R := R) r remaining true).
Proof using Type. done. Qed.

(** Inside a chunk that is cut off: some of its octets come, never all of them. *)
Lemma cut_drains r remaining y e :
  holds r y e -> (0 < remaining)%N -> (N.of_nat (length y) < remaining + 2)%N ->
  exists x e', x `prefix_of` y /\ (N.of_nat (length x) < remaining)%N /\ drains (in_chunk r remaining) x e'.
Proof using ReadSource0.
  remember (length y) as k eqn:Hk. revert r remaining y Hk. induction (lt_wf k) as [k _ IH]. intros r remaining y -> Hh Hr Hy. pose proof buffer_positive.
  pose proof (chunked_read_in r remaining Hr) as Hread. unfold read_in_chunk in Hread.
  pose proof (read_law r _ e (N.to_nat (N.min (N.of_nat BUFFER) remaining)) Hh ltac:(lia)) as Hl. destruct (read _ r) as [[got|x] r1] in Hl, Hread.
  2: { exists [], (Some x). split_and!; [apply prefix_nil|cbn; lia|]. by econstructor. }
  destruct Hl as ([y' ->]&Hlen&Hn&Hh1). rewrite drop_app_length in Hh1. destruct got as [|c got].
  { exists [], None. split_and!; [apply prefix_nil|cbn; lia|]. econstructor; [exact Hread|apply finished_stays]. }
  rewrite length_app in *. destruct (N.eqb_spec (remaining - N.of_nat (length (c :: got))) 0) as [Hz|Hz].
  - pose proof (read_exact_law holds 2 r1 y' e Hh1) as He. rewrite decide_False in He by lia. destruct He as (r2&x&He). rewrite He in Hread.
    exists [], (Some x). split_and!; [apply prefix_nil|cbn; lia|]. by econstructor.
  - destruct (IH (length y') ltac:(cbn; lia) r1 (remaining - N.of_nat (length (c :: got)))%N y' eq_refl Hh1 ltac:(lia) ltac:(lia)) as (x&e'&[z ->]&Hx&Hdr).
    exists ((c :: got) ++ x), e'. split_and!; [exists z; by rewrite <- app_assoc|rewrite length_app; lia|]. by econstructor.
Qed.

(** *** From one chunk to the next *)
Lemma drains_same r r' (t : text) e : read BUFFER r = read BUFFER r' -> drains (R := ChunkedBody R) r t e -> drains r' t e.
Proof using Type. intros Hs Hd. destruct Hd; rewrite Hs in *; by econstructor. Qed.

Lemma next_chunk r : read BUFFER (in_chunk r 0%N) =
  match read_bounded_line r with
  | (Err e, r) => (Err e, in_chunk r 0%N)
  | (Ok [], r) => (Ok [], Build_ChunkedBody r 0 true)
  | (Ok size_line, r) =>
      match chunk_size size_line with
      | Err e => (Err e, in_chunk r 0%N)
      | Ok size =>
          if (size =? 0)%N
          then match read_trailer r with (Err e, r) => (Err e, in_chunk r 0%N) | (Ok _, r) => (Ok [], Build_ChunkedBody r 0 true) end
          else read_in_chunk BUFFER size r
      end
  end.
Proof using Type.
  change (read BUFFER ?b) with (chunked_read BUFFER b). unfold chunked_read. cbn [cb_finished cb_remaining_in_chunk cb_inner orb].
  pose proof buffer_positive. by rewrite bool_decide_eq_false_2 by lia.
Qed.

(** A size line that was read, with what follows it. *)
Lemma size_read r n rest e :
  holds r (to_hex n ++ [CR; LF] ++ rest) e -> (n <= u64_max)%N ->
  exists r', holds r' rest e /\ read_bounded_line r = (Ok (to_hex n ++ [CR; LF]), r').
Proof using BufSource0.
  intros Hh Hn. change (to_hex n ++ [CR; LF] ++ rest) with (to_hex n ++ [CR] ++ (LF :: rest)) in Hh. rewrite app_assoc in Hh.
  pose proof (read_bounded_line_law holds r _ e Hh) as Hl. rewrite next_line_found in Hl by by apply size_line_ok. destruct Hl as (r'&Hl&Hh').
  exists r'. split; [done|]. rewrite Hl. by rewrite <- app_assoc.
Qed.

Lemma enter_chunk r n rest e :
  holds r (to_hex n ++ [CR; LF] ++ rest) e -> (0 < n <= u64_max)%N ->
  exists r', holds r' rest e /\ forall t e', drains (in_chunk r' n) t e' -> drains (in_chunk r 0%N) t e'.
Proof using BufSource0.
  intros Hh Hn. destruct (size_read r n rest e Hh ltac:(lia)) as (r'&Hh'&Hl). exists r'. split; [done|]. intros t e'. apply drains_same.
  rewrite chunked_read_in by lia. rewrite next_chunk, Hl. rewrite chunk_size_hex by lia. pose proof (to_hex_nonempty n).
  destruct (N.eqb_spec n 0); [lia|]. by destruct (to_hex n).
Qed.

Lemma chunks_drain ds r tail e (P : text -> option IoError -> Prop) :
  Forall (fun d => d <> [] /\ (N.of_nat (length d) <= u64_max)%N) ds -> holds r (mjoin (chunk <$> ds) ++ tail) e ->
  (forall r', holds r' tail e -> exists t e', P t e' /\ drains (in_chunk r' 0%N) t e') ->
  exists t e', P t e' /\ drains (in_chunk r 0%N) (mjoin ds ++ t) e'.
Proof using All.
  intros Hds Hh Htail. revert r Hh. induction Hds as [|d ds [Hd Hlen] _ IH]; intros r Hh; [by apply Htail|].
  rewrite fmap_cons, !mjoin_cons in *. unfold chunk at 1 in Hh. rewrite <- !app_assoc in Hh.
  assert (0 < length d) by (destruct d; [done|cbn; lia]).
  destruct (enter_chunk r _ _ e Hh ltac:(lia)) as (r'&Hh'&Hin).
  destruct (whole_drains r' _ d (mjoin (chunk <$> ds) ++ tail) e (fun t e' => exists u, t = mjoin ds ++ u /\ P u e') Hh' eq_refl Hd) as (t&e'&(u&->&HP)&Hdr).
  { intros r2 Hr2. destruct (IH r2 Hr2) as (u&e'&HP&Hdr). exists (mjoin ds ++ u), e'. eauto. }
  exists u, e'. split; [done|]. rewrite <- app_assoc. auto.
Qed.

(** A body that ends before a size line is complete. *)
Lemma no_size_drains r t e : holds r t e -> LF ∉ t -> exists e', drains (in_chunk r 0%N) [] e'.
Proof using All.
  intros Hh Ht. pose proof (next_chunk r) as Hn. pose proof (read_bounded_line_law holds r t e Hh) as Hl.
  destruct (next_line t e) as [[line rest]|x] eqn:En; [|destruct Hl as (r'&Hl); rewrite Hl in Hn; exists (Some x); by econstructor].
  destruct Hl as (r'&Hl&Hh'). rewrite Hl in Hn. destruct (next_line_piece _ _ _ _ En) as [(->&->&->)|(Hs&->&Hne)].
  { exists None. econstructor; [exact Hn|apply finished_stays]. }
  pose proof (next_line_last _ _ _ _ En Ht) as ->.
  destruct line as [|c line]; [done|]. destruct (chunk_size (c :: line)) as [k|x]; [|exists (Some x); by econstructor].
  destruct (N.eqb_spec k 0) as [Hz|Hz].
  - destruct (read_trailer r') as [[]]; [exists None; econstructor; [exact Hn|apply finished_stays]|eexists (Some _); by econstructor].
  - destruct (cut_drains r' k [] e Hh' ltac:(lia) ltac:(cbn; lia)) as (x&e'&->%prefix_nil_inv&_&Hdr). exists e'.
    eapply drains_same; [|exact Hdr]. by rewrite Hn, chunked_read_in by lia.
Qed.

(** A chunk that is cut off: never all of its octets. *)
Lemma cut_chunk r t d e :
  holds r t e -> d <> [] -> (N.of_nat (length d) <= u64_max)%N -> t `prefix_of` chunk d -> t <> chunk d ->
  exists x e', x `prefix_of` d /\ x <> d /\ drains (in_chunk r 0%N) x e'.
Proof using All.
  intros Hh Hd Hlen Hp Hne. assert (0 < length d) by (destruct d; [done|cbn; lia]). unfold chunk in *. set (n := N.of_nat (length d)) in *.
  change ([CR; LF] ++ d ++ [CR; LF]) with ([CR] ++ ([LF] ++ d ++ [CR; LF])) in *. rewrite app_assoc in *.
  destruct (size_line_ok n Hlen) as (Hlf&_&_). destruct (prefix_app_cases _ _ _ Hp) as [[z Hz]|(y&->&Hy)].
  { destruct (no_size_drains r t e Hh) as (e'&Hdr); [rewrite Hz in Hlf; by apply not_elem_of_app in Hlf as [? _]|].
    exists [], e'. split_and!; [apply prefix_nil|by destruct d|done]. }
  destruct y as [|c y].
  { rewrite app_nil_r in Hh. destruct (no_size_drains r _ e Hh Hlf) as (e'&Hdr). exists [], e'. split_and!; [apply prefix_nil|by destruct d|done]. }
  pose proof (prefix_cons_inv_1 _ _ _ _ Hy) as ->. apply prefix_cons_inv_2 in Hy. rewrite <- app_assoc in Hh.
  destruct (enter_chunk r n y e Hh ltac:(unfold n; lia)) as (r'&Hh'&Hin). cbn [app] in Hy. pose proof (prefix_length _ _ Hy) as Hly. rewrite length_app in Hly. cbn in Hly.
  assert (length y <> length d + 2) as Hny.
  { intros E. apply Hne. f_equal. cbn [app]. f_equal. destruct Hy as [z Hz]. rewrite Hz. assert (z = []) as ->; [|by rewrite app_nil_r].
    apply (f_equal length) in Hz. rewrite !length_app in Hz. cbn in Hz. destruct z; [done|cbn in Hz; lia]. }
  destruct (cut_drains r' n y e Hh' ltac:(unfold n; lia) ltac:(unfold n; lia)) as (x&e'&Hx&Hlx&Hdr). exists x, e'. split_and!; [|intros ->; unfold n in Hlx; lia|by apply Hin].
  assert (x `prefix_of` d ++ [CR; LF]) as Hxd by by etransitivity. destruct (prefix_app_cases _ _ _ Hxd) as [?|(w&->&_)]; [done|].
  rewrite length_app in Hlx. unfold n in Hlx. lia.
Qed.

(** The end of the body, whole or cut off. *)
Lemma last_chunk r t e : holds r t e -> t `prefix_of` lit "0" ++ [CR; LF; CR; LF] -> exists e', drains (in_chunk r 0%N) [] e'.
Proof using All.
  intros Hh Hp. change (lit "0" ++ [CR; LF; CR; LF]) with ((to_hex 0 ++ [CR]) ++ [LF; CR; LF]) in Hp.
  assert (LF ∉ to_hex 0 ++ [CR]) as Hlf by (by apply (size_line_ok 0)).
  destruct (prefix_app_cases _ _ _ Hp) as [[z Hz]|(y&->&Hy)]; [eapply no_size_drains; [exact Hh|]; rewrite Hz in Hlf; by apply not_elem_of_app in Hlf as [? _]|].
  destruct y as [|c y]; [rewrite app_nil_r in Hh; by eapply no_size_drains|].
  pose proof (prefix_cons_inv_1 _ _ _ _ Hy) as ->. rewrite <- app_assoc in Hh. destruct (size_read r 0 y e Hh ltac:(done)) as (r'&_&Hl).
  pose proof (next_chunk r) as Hn. rewrite Hl, chunk_size_hex in Hn by done. destruct (to_hex 0 ++ [CR; LF]) eqn:Eh; [by destruct (to_hex 0)|]. rewrite N.eqb_refl in Hn.
  destruct (read_trailer r') as [[]]; [exists None; econstructor; [exact Hn|apply finished_stays]|eexists (Some _); by econstructor].
Qed.
End chunks.

(** ** The head of the response *)

Definition terminated (lines : list text) : text := mjoin ((fun l => l ++ [LF]) <$> lines).

Lemma terminated_cons l lines : terminated (l :: lines) = l ++ LF :: terminated lines.
Proof. unfold terminated. by rewrite fmap_cons, mjoin_cons, <- app_assoc. Qed.

Definition head_lines : list text :=
  [lit "HTTP/1.1 200 OK" ++ [CR]; lit "Content-Type: text/event-stream" ++ [CR]; lit "Cache-Control: no-cache" ++ [CR];
   lit "Transfer-Encoding: chunked" ++ [CR]].

Lemma response_head_lines : response_head = terminated (head_lines ++ [[CR]]).
Proof. reflexivity. Qed.

(** A cut through lines leaves whole lines and a part of the next. *)
Lemma cut_lines lines p :
  Forall (fun l => LF ∉ l) lines -> p `prefix_of` terminated lines ->
  exists done part, done `prefix_of` lines /\ p = terminated done ++ part /\ (LF ∉ part) /\ (done = lines -> p = terminated lines).
Proof.
  intros Hl. revert p. induction Hl as [|l lines Hl _ IH]; intros p Hp.
  { apply prefix_nil_inv in Hp as ->. exists [], []. split_and!; [done|done|apply not_elem_of_nil|done]. }
  rewrite terminated_cons in Hp. destruct (prefix_app_cases _ _ _ Hp) as [[z ->]|(y&->&Hy)].
  { exists [], p. apply not_elem_of_app in Hl as [Hl _]. split_and!; [apply prefix_nil|done|done|done]. }
  destruct y as [|c y]; [exists [], l; rewrite app_nil_r; split_and!; [apply prefix_nil|done|done|done]|].
  pose proof (prefix_cons_inv_1 _ _ _ _ Hy) as ->. apply prefix_cons_inv_2 in Hy. destruct (IH y Hy) as (done_&part&[z Hz]&->&Hpart&Hall).
  exists (l :: done_), part. split_and!; [exists z; by rewrite Hz|by rewrite terminated_cons, <- !app_assoc|done|].
  intros [= Hd]. by rewrite (Hall Hd), terminated_cons.
Qed.

Section head.
Context {R : Type} `{BufRead R} (holds : R -> text -> option IoError -> Prop) `{!BufSource holds}.

(** A header line that is not the last. *)
Definition header_ok (line : text) : Prop := line_ok line /\ trim_end_matches is_line_end (line ++ [LF]) <> [].

Lemma head_line r line rest e chunked :
  holds r (line ++ LF :: rest) e -> header_ok line ->
  exists r', holds r' rest e /\ head_round (chunked, r) = inl (header_chunked chunked (line ++ [LF]), r').
Proof using BufSource0.
  intros Hh [Hl Hb]. pose proof (read_bounded_line_law holds r _ e Hh) as Hr. rewrite next_line_found in Hr by done. destruct Hr as (r'&Hr&Hh').
  exists r'. split; [done|]. unfold head_round. by rewrite Hr, bool_decide_eq_false_2.
Qed.

(** At the end of what arrived, the head is an error or the body is empty. *)
Lemma head_nothing r e chunked :
  holds r [] e -> exists out r', loop_nat head_round 1 (chunked, r) = inr (out, r') /\ (is_ok out = true -> holds r' [] e).
Proof using BufSource0.
  intros Hh. pose proof (read_bounded_line_law holds r [] e Hh) as Hr. cbn [loop_nat]. unfold head_round.
  destruct (next_line [] e) as [[line rest]|x] eqn:En.
  - destruct Hr as (r'&Hr&Hh'). rewrite Hr. destruct (next_line_piece _ _ _ _ En) as [(_&->&->)|(_&?&?)]; [|by destruct line]. cbn. eauto.
  - destruct Hr as (r'&->). eexists _, _. split; [done|done].
Qed.

Lemma head_part r part e chunked :
  holds r part e -> LF ∉ part ->
  exists n out r', n <= 2 /\ loop_nat head_round n (chunked, r) = inr (out, r') /\ (is_ok out = true -> holds r' [] e).
Proof using BufSource0.
  intros Hh Hp. pose proof (read_bounded_line_law holds r part e Hh) as Hr. destruct (next_line part e) as [[line rest]|x] eqn:En.
  2: { destruct Hr as (r'&Hr). exists 1, (Err x), r'. split; [lia|]. cbn [loop_nat]. unfold head_round. by rewrite Hr. }
  destruct Hr as (r'&Hr&Hh'). pose proof (next_line_last _ _ _ _ En Hp) as ->.
  destruct (bool_decide (trim_end_matches is_line_end line = [])) eqn:Eb.
  - eexists 1, _, r'. split; [lia|]. cbn [loop_nat]. unfold head_round. rewrite Hr, Eb. eauto.
  - edestruct (head_nothing r' e) as (out&r2&Hloop&Hok); [done|]. exists 2, out, r2. split; [lia|]. split; [|done].
    change (loop_nat head_round 2 (chunked, r)) with (match head_round (chunked, r) with inl s => loop_nat head_round 1 s | inr a => inr a end).
    unfold head_round at 1. rewrite Hr, Eb. exact Hloop.
Qed.

Lemma head_cut lines r part e chunked :
  Forall header_ok lines -> holds r (terminated lines ++ part) e -> LF ∉ part ->
  exists n out r', n <= length lines + 2 /\ loop_nat head_round n (chunked, r) = inr (out, r') /\ (is_ok out = true -> holds r' [] e).
Proof using BufSource0.
  intros Hl. revert r chunked. induction Hl as [|line lines Hl _ IH]; intros r chunked Hh Hp; [by apply (head_part r part)|].
  rewrite terminated_cons, <- app_assoc in Hh. destruct (head_line r line (terminated lines ++ part) e chunked Hh Hl) as (r'&Hh'&Hstep).
  destruct (IH r' (header_chunked chunked (line ++ [LF])) Hh' Hp) as (n&out&r2&Hn&Hloop&Hok). exists (S n), out, r2. cbn [length]. split; [lia|]. cbn [loop_nat]. by rewrite Hstep.
Qed.

Lemma head_lines_ok : Forall header_ok head_lines.
Proof using Type. repeat constructor; unfold line_ok; (by_decide || done || (by vm_compute)). Qed.

Lemma head_loop r n chunked (out : result unit IoError) r' :
  loop_nat head_round n (chunked, r) = inr (out, r') -> (N.of_nat n <= Npos rounds)%N -> loop_pos head_round rounds (chunked, r) = inr (out, r').
Proof using Type. intros Hl Hn. eapply loop_ends; [exact Hl|by apply rounds_enough]. Qed.

(** A head that is cut off is an error, or no body follows it. *)
Lemma response_cut r p e :
  holds r p e -> p `prefix_of` response_head -> p <> response_head ->
  exists out r', read_response_head r = (out, r') /\ (is_ok out = true -> holds r' [] e).
Proof using BufSource0.
  intros Hh Hp Hne. rewrite response_head_lines in Hp, Hne.
  assert (Forall (fun l => LF ∉ l) (head_lines ++ [[CR]])) as Hlf by (repeat constructor; by_decide).
  destruct (cut_lines _ p Hlf Hp) as (lines&part&Hpre&->&Hpart&Hall).
  assert (lines `prefix_of` head_lines) as [more Hmore].
  { destruct (prefix_app_cases _ _ _ Hpre) as [?|(y&->&Hy)]; [done|]. destruct y as [|c y]; [by rewrite app_nil_r|].
    exfalso. apply Hne, Hall. f_equal. pose proof (prefix_cons_inv_1 _ _ _ _ Hy) as ->. by apply prefix_cons_inv_2, prefix_nil_inv in Hy as ->. }
  pose proof head_lines_ok as Hok. rewrite Hmore in Hok. apply Forall_app in Hok as [Hok _]. unfold read_response_head.
  pose proof (read_bounded_line_law holds r _ e Hh) as Hr.
  assert (forall r1 lines part, Forall header_ok lines -> length lines <= 4 -> LF ∉ part -> holds r1 (terminated lines ++ part) e ->
    exists out r', loop_pos head_round rounds (false, r1) = inr (out, r') /\ (is_ok out = true -> holds r' [] e)) as Hloop.
  { intros r1 ls q Hls Hlen Hq Hh1. destruct (head_cut ls r1 q e false Hls Hh1 Hq) as (n&out&r'&Hn&Hl&Hres). exists out, r'. split; [|done].
    eapply head_loop; [exact Hl|]. unfold rounds. lia. }
  destruct lines as [|line lines].
  - cbn [terminated fmap list_fmap mjoin list_join app] in Hr. destruct (next_line part e) as [[line rest]|x] eqn:En; [|destruct Hr as (r1&->); by eexists _, _].
    destruct Hr as (r1&->&Hh1). pose proof (next_line_last _ _ _ _ En Hpart) as ->. destruct (negb _); [by eexists _, _|].
    destruct (Hloop r1 [] []) as (out&r'&->&Hres); [constructor|cbn; lia|apply not_elem_of_nil|done|]. eauto.
  - rewrite terminated_cons, <- app_assoc in Hr. cbn [app] in Hr. apply Forall_cons in Hok as [Hl Hok]. rewrite next_line_found in Hr by apply Hl.
    destruct Hr as (r1&->&Hh1). destruct (negb _); [by eexists _, _|].
    destruct (Hloop r1 lines part Hok) as (out&r'&->&Hres); [apply (f_equal length) in Hmore; rewrite length_app in Hmore; cbn in Hmore; lia|done..|]. eauto.
Qed.

(** The whole head, and the body after it. *)
Lemma head_whole lines r q e chunked :
  Forall header_ok lines -> holds r (terminated lines ++ [CR] ++ LF :: q) e ->
  exists r', holds r' q e /\
    loop_nat head_round (S (length lines)) (chunked, r) =
      inr (if fold_left header_chunked ((fun l => l ++ [LF]) <$> lines) chunked then Ok tt else Err NotChunked, r').
Proof using BufSource0.
  intros Hl. revert r chunked. induction Hl as [|line lines Hl _ IH]; intros r chunked Hh.
  - pose proof (read_bounded_line_law holds r ([CR] ++ LF :: q) e Hh) as Hr. rewrite next_line_found in Hr by (split_and!; [by_decide|done|done]).
    destruct Hr as (r'&Hr&Hh'). exists r'. split; [done|]. cbn [loop_nat length]. unfold head_round. rewrite Hr. reflexivity.
  - rewrite terminated_cons, <- app_assoc in Hh. destruct (head_line r line (terminated lines ++ [CR] ++ LF :: q) e chunked Hh Hl) as (r'&Hh'&Hstep).
    destruct (IH r' (header_chunked chunked (line ++ [LF])) Hh') as (r2&Hh2&Hloop). exists r2. split; [done|]. rewrite fmap_cons. cbn [fold_left].
    rewrite <- Hloop. cbn [length]. generalize (S (length lines)) as n. intros n. cbn [loop_nat]. by rewrite Hstep.
Qed.

Lemma response_whole r q e : holds r (response_head ++ q) e -> exists r', read_response_head r = (Ok tt, r') /\ holds r' q e.
Proof using BufSource0.
  intros Hh. change (response_head ++ q) with ((lit "HTTP/1.1 200 OK" ++ [CR]) ++ LF :: terminated (tail head_lines) ++ [CR] ++ LF :: q) in Hh.
  pose proof head_lines_ok as Hok. apply Forall_cons in Hok as [Hl Hok]. pose proof (read_bounded_line_law holds r _ e Hh) as Hr.
  rewrite next_line_found in Hr by apply Hl. destruct Hr as (r1&Hr&Hh1). unfold read_response_head. rewrite Hr.
  assert (str_contains (lit " 200 ") ((lit "HTTP/1.1 200 OK" ++ [CR]) ++ [LF]) = true) as -> by by vm_compute. cbn [negb].
  destruct (head_whole (tail head_lines) r1 q e false Hok Hh1) as (r'&Hh'&Hloop). exists r'. split; [|done].
  assert (fold_left header_chunked ((fun l => l ++ [LF]) <$> tail head_lines) false = true) as E by by vm_compute. rewrite E in Hloop.
  by rewrite (head_loop _ _ _ _ _ Hloop).
Qed.
End head.
