(* ===== verification/JsonSample.v ===== *)
(** A text form of values, for examples: one with the properties that [JsonText] asks for. It
    writes the constructors and their contents as octets, and each octet as two letters, in
    braces. *)

From Stdlib Require Import Ascii String.
From stdpp Require Import prelude strings.
From S2P Require Import Prelude BTree Text Strings Octets Json FolderDisk EventFrames.

(** ** Values as octets *)
Definition pack_text (t : text) : text := (t ≫= fun c => ["1"%char; c]) ++ ["0"%char].

Definition pack_all {A} (pack_value : A -> text) (l : list A) : text := (l ≫= fun x => "1"%char :: pack_value x) ++ ["0"%char].

Fixpoint pack_value (v : Value) : text :=
  match v with
  | Null => lit "n"
  | Bool b => if b then lit "t" else lit "f"
  | Number l => "d"%char :: pack_text l
  | Json.String s => "s"%char :: pack_text s
  | Array l => "a"%char :: pack_all pack_value l
  | Object m => "o"%char :: pack_all (fun e => pack_text e.1 ++ pack_value e.2) m
  end.

Fixpoint unpack_all {A} (unpack_value : text -> option (A * text)) (n : nat) (t : text) : option (list A * text) :=
  match n, t with
  | S n, c :: t =>
      if bool_decide (c = "1"%char) then '(x, t) ← unpack_value t; '(l, t) ← unpack_all unpack_value n t; Some (x :: l, t) else Some ([], t)
  | _, _ => None
  end.

Definition unpack_octet (t : text) : option (ascii * text) := match t with c :: t => Some (c, t) | [] => None end.
Definition unpack_text (t : text) : option (text * text) := unpack_all unpack_octet (length t) t.

Fixpoint unpack_value (depth : nat) (t : text) : option (Value * text) :=
  match depth, t with
  | S depth, c :: t =>
      if bool_decide (c = "n"%char) then Some (Null, t)
      else if bool_decide (c = "t"%char) then Some (Bool true, t)
      else if bool_decide (c = "f"%char) then Some (Bool false, t)
      else if bool_decide (c = "d"%char) then prod_map Number id <$> unpack_text t
      else if bool_decide (c = "s"%char) then prod_map Json.String id <$> unpack_text t
      else if bool_decide (c = "a"%char) then prod_map Array id <$> unpack_all (unpack_value depth) (length t) t
      else prod_map Object id <$> unpack_all (fun t => '(k, t) ← unpack_text t; '(v, t) ← unpack_value depth t; Some ((k, v), t)) (length t) t
  | _, _ => None
  end.

Lemma unpack_pack_all {A} (pack_value : A -> text) unpack_value n l rest :
  (forall x t, x ∈ l -> unpack_value (pack_value x ++ t) = Some (x, t)) -> length l < n -> unpack_all unpack_value n (pack_all pack_value l ++ rest) = Some (l, rest).
Proof.
  revert n. induction l as [|x l IH]; intros [|n] Hx Hn; cbn [length] in Hn; try lia; [done|].
  assert (pack_all pack_value (x :: l) = "1"%char :: pack_value x ++ pack_all pack_value l) as ->. { unfold pack_all. by rewrite bind_cons, <- app_assoc. }
  cbn [app unpack_all]. rewrite <- app_assoc, bool_decide_eq_true_2, Hx by (done || by left). cbn [mbind option_bind].
  rewrite IH; [done| |lia]. intros y t Hy. apply Hx. by right.
Qed.

Lemma pack_all_length {A} (pack_value : A -> text) l : length l < length (pack_all pack_value l).
Proof. unfold pack_all. induction l as [|x l IH]; [cbn; lia|]. rewrite bind_cons. cbn [length app]. rewrite <- app_assoc, length_app. lia. Qed.

Lemma unpack_pack_text t rest : unpack_text (pack_text t ++ rest) = Some (t, rest).
Proof.
  unfold unpack_text. change (pack_text t) with (pack_all (fun c => [c]) t). apply unpack_pack_all; [done|]. eapply Nat.lt_le_trans; [apply (pack_all_length (fun c => [c]))|].
  rewrite length_app. apply Nat.le_add_r.
Qed.

Lemma unpack_pack v depth rest : nesting v < depth -> unpack_value depth (pack_value v ++ rest) = Some (v, rest).
Proof.
  revert depth rest. induction v as [|b|l|s|l IH|m IH] using Value_ind; intros [|depth] rest Hd; try lia.
  - done.
  - by destruct b.
  - cbn. by rewrite unpack_pack_text.
  - cbn. by rewrite unpack_pack_text.
  - cbn [pack_value app unpack_value]. rewrite !bool_decide_eq_false_2, bool_decide_eq_true_2 by done. rewrite unpack_pack_all; [done| |].
    + intros x t Hx. rewrite Forall_forall in IH. apply IH; [done|]. cbn [nesting] in Hd. pose proof (max_list_elem_of_le (nesting x) (nesting <$> l) ltac:(by apply list_elem_of_fmap_2)). lia.
    + rewrite length_app. pose proof (pack_all_length pack_value l). lia.
  - cbn [pack_value app unpack_value]. rewrite !bool_decide_eq_false_2 by done. rewrite unpack_pack_all; [done| |].
    + intros [k x] t Hx. cbn [fst snd]. rewrite <- app_assoc, unpack_pack_text. cbn [mbind option_bind]. rewrite Forall_forall in IH. rewrite (IH (k, x) Hx); [done|].
      rewrite nesting_object in Hd. pose proof (max_list_elem_of_le (nesting x) ((fun e => nesting e.2) <$> m) ltac:(by apply (list_elem_of_fmap_2 (fun e => nesting e.2) m (k, x)))). cbn. lia.
    + rewrite length_app. pose proof (pack_all_length (fun e : text * Value => pack_text e.1 ++ pack_value e.2) m). lia.
Qed.

(** ** Octets as letters *)
Definition letter (n : nat) : ascii := ascii_of_nat (97 + n).
Definition value_of (c : ascii) : nat := nat_of_ascii c - 97.

Fixpoint unpair (t : text) : text :=
  match t with a :: b :: t => ascii_of_nat (16 * value_of a + value_of b) :: unpair t | _ => [] end.

Definition letters (t : text) : text := t ≫= fun c => [letter (nat_of_ascii c / 16); letter (nat_of_ascii c mod 16)].

Lemma letters_octet c : ascii_of_nat (16 * value_of (letter (nat_of_ascii c / 16)) + value_of (letter (nat_of_ascii c mod 16))) = c.
Proof. destruct c as [[] [] [] [] [] [] [] []]; vm_compute; done. Qed.

Lemma unpair_letters t c : unpair (letters t ++ [c]) = t.
Proof. induction t as [|d t IH]; [done|]. unfold letters. rewrite bind_cons. cbn [app unpair]. rewrite letters_octet. f_equal. apply IH. Qed.

Definition is_letter (c : ascii) : bool := (97 <=? nat_of_ascii c) && (nat_of_ascii c <=? 112).

Lemma letters_letters t : Forall (fun c => is_letter c = true) (letters t).
Proof. induction t as [|c t IH]; [constructor|]. unfold letters. rewrite bind_cons. repeat constructor; [by destruct c as [[] [] [] [] [] [] [] []]..|exact IH]. Qed.

Lemma letters_not c t : is_letter c = false -> c ∉ letters t.
Proof. intros Hc Hin. pose proof (letters_letters t) as H. rewrite Forall_forall in H. specialize (H c Hin). congruence. Qed.

(** ** The text *)
Definition sample_to_string (v : Value) : text := lit "{" ++ letters (pack_value v) ++ lit "}".

Definition sample_from_str (t : text) : option Value :=
  match t with _ :: t => fst <$> unpack_value 128 (unpair t) | [] => None end.

#[export] Instance sample_json : JsonText sample_to_string sample_from_str.
Proof.
  split.
  - intros v _ Hn. unfold sample_from_str, sample_to_string. change (lit "{" ++ ?t) with ("{"%char :: t). cbv iota. rewrite (unpair_letters _ "}"%char). rewrite <- (app_nil_r (pack_value v)). by rewrite unpack_pack.
  - intros v. unfold sample_to_string. rewrite !not_elem_of_app. split; (split_and!; [by_decide|by apply letters_not|by_decide]).
  - intros v. apply utf8_ascii. unfold sample_to_string. rewrite !Forall_app. split_and!; [by repeat constructor| |by repeat constructor].
    eapply Forall_impl; [apply letters_letters|]. intros c Hc. unfold is_letter in Hc. apply andb_true_iff in Hc as [_ Hc%Nat.leb_le]. unfold is_ascii. apply N.ltb_lt. unfold nat_of_ascii in Hc. lia.
  - intros m. by eexists.
Qed.
