(* ===== verification/PushDelivery.v ===== *)
(** From the hub of the mock server to the channel of the client: every change whose chunk
    arrived is delivered once and in order, wherever the network cuts the stream. *)

From Stdlib Require Import Ascii String.
From stdpp Require Import prelude strings.
From S2P Require Import Prelude BTree Text Strings Octets Json Wire FolderDisk IoRead PushProto EventStream EventFrames MockPush EventChunks JsonSample.

Local Open Scope rust_scope.

(** ** What the server writes *)
Lemma write_all_app a b w :
  write_all (a ++ b) w = let '(ok, w1) := write_all a w in if ok then write_all b w1 else (false, w1).
Proof.
  unfold write_all. destruct (wr_room w) as [k|]; cbn [wr_room wr_out]; [|by rewrite <- app_assoc].
  rewrite length_app. destruct (Nat.leb_spec (length a) k); cbn [wr_room wr_out].
  - rewrite (take_ge a) by lia. f_equal; [destruct (Nat.leb_spec (length b) (k - length a)); destruct (Nat.leb_spec (length a + length b) k); (done || lia)|].
    f_equal; [rewrite <- app_assoc; f_equal; rewrite take_app; by rewrite (take_ge a) by lia|f_equal; lia].
  - f_equal; [by apply Nat.leb_gt; lia|]. f_equal; [by rewrite take_app_le by lia|f_equal; lia].
Qed.

Lemma write_chunk_all data w : write_chunk data w = write_all (chunk data) w.
Proof.
  unfold write_chunk, chunk. rewrite app_assoc. rewrite (write_all_app (_ ++ [CR; LF])). destruct (write_all (_ ++ [CR; LF]) w) as [[] w1]; [|done].
  rewrite write_all_app. by destruct (write_all data w1) as [[] w2].
Qed.

Lemma write_all_prefix t w : wr_out (write_all t w).2 `prefix_of` wr_out w ++ t.
Proof.
  unfold write_all. destruct (wr_room w) as [k|]; cbn; [|done]. apply prefix_app, prefix_take.
Qed.

Definition the_end : text := lit "0" ++ [CR; LF; CR; LF].

(** The body of a stream, on a connection that takes all of it. *)
Fixpoint stream_text (ping : option N) (closes : bool) (arrivals : list Arrival) : text :=
  match arrivals with
  | [] => []
  | arrival :: arrivals =>
      match arrival_bytes ping arrival with
      | None => stream_text ping closes arrivals
      | Some bytes =>
          chunk bytes ++ if match arrival with Pushed _ => closes | TimedOut => false end then the_end else stream_text ping closes arrivals
      end
  end.

Lemma stream_loop_text ping closes arrivals w : stream_loop ping closes arrivals w = (write_all (stream_text ping closes arrivals) w).2.
Proof.
  revert w. induction arrivals as [|a arrivals IH]; intros w; cbn [stream_loop stream_text].
  { unfold write_all. destruct w as [out [k|]]; cbn; rewrite ?take_nil, app_nil_r, ?Nat.sub_0_r; done. }
  destruct (arrival_bytes ping a) as [bytes|]; [|apply IH]. rewrite write_chunk_all, write_all_app.
  destruct (write_all (chunk bytes) w) as [[] w1]; cbn [negb]; [|done]. destruct (match a with Pushed _ => closes | TimedOut => false end); [done|apply IH].
Qed.

Lemma respond_prefix params arrivals room :
  wr_out (respond params false arrivals {| wr_out := []; wr_room := room |}) `prefix_of`
    response_head ++ stream_text (ep_ping_interval params) (ep_close_after_state params) arrivals.
Proof.
  unfold respond, server_stream. pose proof (write_all_app response_head (stream_text (ep_ping_interval params) (ep_close_after_state params) arrivals) {| wr_out := []; wr_room := room |}) as Hw.
  pose proof (write_all_prefix (response_head ++ stream_text (ep_ping_interval params) (ep_close_after_state params) arrivals) {| wr_out := []; wr_room := room |}) as Hp.
  rewrite Hw in Hp. destruct (write_all response_head _) as [[] w1]; [|exact Hp]. by rewrite stream_loop_text.
Qed.

Section delivery.
Context (to_string : Value -> text) (from_str : text -> option Value) `{!JsonText to_string from_str}.

(** ** What arrives

    An event of the stream: a pushed change, or a timeout. *)
Abbreviation event := (option StateChange) (only parsing).

Definition arrival_of (ev : event) : Arrival :=
  match ev with Some change => Pushed (format_state_event to_string change) | None => TimedOut end.

(** The changes whose chunk, its line end included, is in the first [received] octets of the
    body. *)
Fixpoint arrived (ping : option N) (closes : bool) (received : nat) (events : list event) : list StateChange :=
  match events with
  | [] => []
  | ev :: events =>
      match arrival_bytes ping (arrival_of ev) with
      | None => arrived ping closes received events
      | Some bytes =>
          if length (chunk bytes) <=? received
          then option_list ev ++ if closes && bool_decide (is_Some ev) then [] else arrived ping closes (received - length (chunk bytes)) events
          else []
      end
  end.

Definition frame (interval : N) (ev : event) : text :=
  match ev with Some change => format_state_event to_string change | None => format_ping_event interval end.

(** A frame that is not complete. *)
Definition cut_off (interval : N) (x : text) : Prop := x = [] \/ exists ev, x `prefix_of` frame interval ev /\ x <> frame interval ev.

(** Octets of a body: whole frames, then a chunk that is cut off or the end. *)
Definition body_tail (interval : N) (evs : list event) (tail : text) : Prop :=
  tail `prefix_of` the_end \/ exists ev, ev ∈ evs /\ tail `prefix_of` chunk (frame interval ev) /\ tail <> chunk (frame interval ev).

Lemma body_cut ping closes evs p :
  p `prefix_of` stream_text ping closes (arrival_of <$> evs) ->
  exists done tail, p = mjoin (chunk <$> (frame (default 0%N ping) <$> done)) ++ tail /\
    arrived ping closes (length p) evs = omap id done /\ (forall ev, ev ∈ done -> ev ∈ evs) /\ body_tail (default 0%N ping) evs tail.
Proof using Type.
  revert p. induction evs as [|ev evs IH]; intros p Hp; cbn [stream_text arrived] in *.
  { apply prefix_nil_inv in Hp as ->. exists [], []. split_and!; [done|done|done|left; apply prefix_nil]. }
  rewrite fmap_cons in Hp. cbn [stream_text] in Hp. destruct (arrival_bytes ping (arrival_of ev)) as [bytes|] eqn:Eb.
  2: { destruct (IH p Hp) as (dn&tail&->&Ha&Hin&Ht). exists dn, tail. split_and!; [done..|by right; apply Hin|].
    destruct Ht as [?|(ev'&?&?)]; [by left|right; exists ev'; split; [by right|done]]. }
  assert (bytes = frame (default 0%N ping) ev) as ->.
  { destruct ev; cbn in *; [by injection Eb|]. apply fmap_Some in Eb as (i&->&->). done. }
  set (c := chunk (frame (default 0%N ping) ev)) in *.
  assert (p `prefix_of` c /\ p <> c \/ exists q, p = c ++ q /\ q `prefix_of` if match arrival_of ev with Pushed _ => closes | TimedOut => false end then the_end else stream_text ping closes (arrival_of <$> evs)) as [[Hc Hne]|(q&->&Hq)].
  { destruct (prefix_app_cases _ _ _ Hp) as [Hc|?]; [|by right]. destruct (decide (p = c)) as [->|]; [|by left]. right. exists []. rewrite app_nil_r. split; [done|apply prefix_nil]. }
  - exists [], p. destruct (Nat.leb_spec (length c) (length p)) as [Hl|_].
    { exfalso. apply Hne. by apply prefix_length_eq. }
    split_and!; [done|done|by intros ? ?%not_elem_of_nil|]. right. exists ev. split; [by left|done].
  - rewrite length_app. destruct (Nat.leb_spec (length c) (length c + length q)) as [_|]; [|lia]. replace (length c + length q - length c) with (length q) by lia.
    assert (closes && bool_decide (is_Some ev) = match arrival_of ev with Pushed _ => closes | TimedOut => false end) as -> by (destruct ev, closes; done).
    destruct (match arrival_of ev with Pushed _ => closes | TimedOut => false end).
    + exists [ev], q. rewrite !fmap_cons, mjoin_cons, <- app_assoc. split_and!; [done|by destruct ev|by intros ? ->%list_elem_of_singleton; left|by left].
    + destruct (IH q Hq) as (dn&tail&->&Ha&Hin&Ht). exists (ev :: dn), tail. rewrite !fmap_cons, mjoin_cons, <- app_assoc. split_and!; [done| | |].
      * rewrite Ha. by destruct ev.
      * intros ev' [->|?]%elem_of_cons; [by left|right; auto].
      * destruct Ht as [?|(ev'&?&?)]; [by left|right; exists ev'; split; [by right|done]].
Qed.

(** ** The client *)
Context (interval : N) (interval_fits : (interval <= u64_max)%N).

Definition event_ok (ev : event) : Prop := match ev with Some change => pushable to_string change | None => True end.

Lemma frame_lines ev :
  exists a b, frame interval ev = a ++ [LF] ++ b ++ [LF; LF] /\ a <> [] /\ (LF ∉ a) /\ (CR ∉ a) /\ b <> [] /\ (LF ∉ b) /\ (CR ∉ b).
Proof using JsonText0.
  destruct ev as [c|]; cbn [frame].
  - destruct (json_line (state_change_to_value c)) as [Hl Hc]. exists (lit "event: state"), (lit "data: " ++ to_string (state_change_to_value c)).
    split_and!; [unfold format_state_event; by rewrite <- !app_assoc|done|by_decide|by_decide|done|apply not_elem_of_app; split; [by_decide|done]..].
  - exists (lit "event: ping"), (lit "data: {" ++ quoted (lit "interval") ++ lit ":" ++ to_dec interval ++ lit "}").
    split_and!; [unfold format_ping_event; by rewrite <- !app_assoc|done|by_decide|by_decide|done|..];
      rewrite !not_elem_of_app; split_and!; try by_decide; (eapply digits_not; [apply to_dec_digits|done]).
Qed.

Lemma frame_cut x : cut_off interval x -> no_frame_end x.
Proof using JsonText0.
  intros [->|(ev&Hp&Hne)]; [constructor|]. destruct (frame_lines ev) as (a&b&Hf&?&?&?&?&?&?). rewrite Hf in *. by eapply (cut_frame a b).
Qed.

Lemma frame_length ev : event_ok ev -> 3 <= length (frame interval ev) /\ (N.of_nat (length (frame interval ev)) <= 2097152)%N.
Proof using interval_fits.
  destruct ev as [c|]; cbn [frame event_ok].
  - intros (_&_&Hl). unfold format_state_event. rewrite !length_app. cbn [length lit String.list_ascii_of_string]. unfold MAX_LINE_BYTES in Hl. cbn. lia.
  - intros _. pose proof (to_dec_length interval). pose proof (size_u64 _ interval_fits). unfold format_ping_event. rewrite !length_app. cbn. lia.
Qed.

Section reading.
Context {R : Type} `{BufRead R} (holds : R -> text -> option IoError -> Prop) `{!BufSource holds}.
Context (cancelled : nat -> bool) (running : forall n, cancelled n = false).

Definition sent_all (changes : list StateChange) (s : Sender) : Sender := {| sd_items := sd_items s ++ (StateItem <$> changes); sd_hangs_up := sd_hangs_up s |}.

Lemma stream_frames done n last sender looks r x e :
  Forall event_ok done -> sd_hangs_up sender = None -> holds r (mjoin (frame interval <$> done) ++ x) e ->
  exists r', holds r' x e /\
    loop_nat (stream_round from_str cancelled) (3 * length done + n) (streaming_new last sender looks, r) =
    loop_nat (stream_round from_str cancelled) n (streaming_new last (sent_all (omap id done) sender) (3 * length done + looks), r').
Proof using All.
  intros Hok. revert sender looks r. induction Hok as [|ev done Hev _ IH]; intros sender looks r Hopen Hh.
  { exists r. split; [done|]. cbn. unfold sent_all. rewrite app_nil_r. by destruct sender. }
  rewrite fmap_cons, mjoin_cons, <- app_assoc in Hh. set (s1 := match ev with Some c => sent (StateItem c) sender | None => sender end).
  assert (exists r1, holds r1 (mjoin (frame interval <$> done) ++ x) e /\
    loop_nat (stream_round from_str cancelled) (3 + (3 * length done + n)) (streaming_new last sender looks, r) =
    loop_nat (stream_round from_str cancelled) (3 * length done + n) (streaming_new last s1 (3 + looks), r1)) as (r1&Hh1&E1).
  { destruct ev as [c|]; [by eapply loop_state|by eapply loop_ping]. }
  destruct (IH s1 (3 + looks) r1) as (r'&Hh'&E); [by destruct ev|done|]. exists r'. split; [done|].
  replace (3 * length (ev :: done) + n) with (3 + (3 * length done + n)) by (cbn [length]; lia). rewrite E1, E.
  replace (3 * length (ev :: done) + looks) with (3 * length done + (3 + looks)) by (cbn [length]; lia). do 2 f_equal. f_equal. unfold sent_all, s1.
  destruct ev as [c|]; [|done]. cbn [omap list_omap id sent sd_items sd_hangs_up]. by rewrite <- app_assoc.
Qed.

(** A stream of whole frames and one that is cut off sends the changes of the whole ones. *)
Lemma stream_delivers done last sender looks r x e :
  Forall event_ok done -> sd_hangs_up sender = None -> holds r (mjoin (frame interval <$> done) ++ x) e -> cut_off interval x ->
  (N.of_nat (3 * length done + S (length x)) <= Npos rounds)%N ->
  exists out s r', stream_events from_str cancelled last sender looks r = (out, s, r') /\ se_sender s = sent_all (omap id done) sender.
Proof using All.
  intros Hok Hopen Hh Hx Hr. destruct (stream_frames done 0 last sender looks r x e Hok Hopen Hh) as (r1&Hh1&E1). rewrite Nat.add_0_r in E1. cbn [loop_nat] in E1.
  destruct (loop_tail from_str holds cancelled running (streaming_new last (sent_all (omap id done) sender) (3 * length done + looks)) r1 x e Hh1 (frame_cut x Hx))
    as (n&out&s'&r'&Hn&E2&Hs). exists out, s', r'. split; [|exact Hs]. unfold stream_events.
  assert (loop_nat (stream_round from_str cancelled) (3 * length done + n) (streaming_new last sender looks, r) = inr (out, s', r')) as E by (by rewrite loop_nat_add, E1).
  rewrite (loop_ends _ _ _ _ rounds E); [done|]. apply rounds_enough. lia.
Qed.
End reading.
End delivery.

(** The changes among the items: what [recv_timeout] gives its caller. *)
Definition changes_of (items : list EventSourceItem) : list StateChange :=
  omap (fun item => match item with StateItem change => Some change | Reconnected _ _ => None end) items.

Lemma changes_of_sent changes s : changes_of (sd_items (sent_all changes s)) = changes_of (sd_items s) ++ changes.
Proof.
  unfold changes_of, sent_all. cbn [sd_items]. rewrite omap_app. f_equal. induction changes as [|c changes IH]; [done|]. rewrite fmap_cons. cbn. by f_equal.
Qed.

Section received.
Context (to_string : Value -> text) (from_str : text -> option Value) `{!JsonText to_string from_str}.
Context (cancelled : nat -> bool) (running : forall n, cancelled n = false).
Context (ping : option N) (ping_fits : forall i, ping = Some i -> (i <= u64_max)%N) (closes : bool).

Abbreviation interval := (default 0%N ping) (only parsing).
Abbreviation reader_holds := (buf_holds conn_holds) (only parsing).

Lemma interval_fits' : (interval <= u64_max)%N.
Proof using ping_fits. destruct ping; cbn; [by apply ping_fits|done]. Qed.

Lemma chunk_long d : 0 < length (chunk d).
Proof using Type. unfold chunk. rewrite !length_app. cbn. lia. Qed.

Lemma arrived_nothing evs : arrived to_string ping closes 0 evs = [].
Proof using Type.
  induction evs as [|ev evs IH]; [done|]. cbn [arrived]. destruct (arrival_bytes _ _) as [bytes|]; [|done].
  pose proof (chunk_long bytes). by destruct (Nat.leb_spec (length (chunk bytes)) 0); [lia|].
Qed.

(** A body of whole chunks and a tail. *)
Lemma body_delivers done tail evs r e last sender looks :
  reader_holds r (mjoin (chunk <$> (frame to_string interval <$> done)) ++ tail) e -> Forall (event_ok to_string) done -> Forall (event_ok to_string) evs ->
  body_tail to_string interval evs tail -> sd_hangs_up sender = None -> (N.of_nat (3 * length done) < 2 ^ 63)%N ->
  exists out s r', stream_events from_str cancelled last sender looks (bufreader_new (chunked_new r)) = (out, s, r') /\ se_sender s = sent_all (omap id done) sender.
Proof using All.
  intros Hh Hd Hevs Ht Hopen Hlen. pose proof interval_fits' as Hi.
  assert (forall ev, event_ok to_string ev -> frame to_string interval ev <> [] /\ (N.of_nat (length (frame to_string interval ev)) <= 2097152)%N) as Hframe.
  { intros ev Hev. destruct (frame_length to_string interval Hi ev Hev) as [Hlo Hhi]. split; [intros E; rewrite E in Hlo; cbn in Hlo; lia|done]. }
  destruct (chunks_drain reader_holds (frame to_string interval <$> done) r tail e (fun x _ => cut_off to_string interval x /\ (N.of_nat (length x) <= 2097152)%N)) as (x&e'&[Hx Hlx]&Hdr).
  - apply Forall_fmap. eapply Forall_impl; [exact Hd|]. intros ev Hev. destruct (Hframe ev Hev). split; [done|]. cbn. unfold u64_max. lia.
  - done.
  - intros r' Hr'. destruct Ht as [Hend|(ev&Hin&Hp&Hne)].
    + destruct (last_chunk reader_holds r' tail e Hr' Hend) as (e'&Hdr). exists [], e'. split; [|done]. split; [by left|cbn; lia].
    + rewrite Forall_forall in Hevs. destruct (Hframe ev (Hevs ev Hin)) as [Hn Hl].
      destruct (cut_chunk reader_holds r' tail _ e Hr' Hn ltac:(unfold u64_max; lia) Hp Hne) as (x&e'&Hx&Hxn&Hdr). exists x, e'. split; [|done].
      split; [right; by exists ev|]. apply prefix_length in Hx. lia.
  - eapply (stream_delivers to_string from_str interval Hi drain_holds cancelled running); [exact Hd|exact Hopen|by exists (mjoin (frame to_string interval <$> done) ++ x)|exact Hx|].
    unfold rounds. lia.
Qed.

(** What a connection delivers is what arrived of the stream. *)
Lemma connection_delivers evs conn is_reconnect cx sender looks :
  Forall (event_ok to_string) evs -> sd_hangs_up sender = None ->
  mjoin (cn_pieces conn) `prefix_of` response_head ++ stream_text ping closes (arrival_of to_string <$> evs) ->
  (N.of_nat (length (mjoin (cn_pieces conn))) < 2 ^ 63)%N ->
  let '(_, _, sender', _) := receive_events from_str cancelled is_reconnect cx sender looks conn in
  changes_of (sd_items sender') = changes_of (sd_items sender) ++ arrived to_string ping closes (length (mjoin (cn_pieces conn)) - length response_head) evs /\
  sd_hangs_up sender' = None.
Proof using All.
  intros Hevs Hopen Hp Hlen. set (p := mjoin (cn_pieces conn)) in *.
  assert (reader_holds (bufreader_new conn) p (cn_failure conn)) as Hh by (exists p; split; [done|by split]).
  unfold receive_events. set (noted := if is_reconnect then note_reconnect cx sender else (cx, sender)).
  assert (sd_hangs_up noted.2 = None /\ changes_of (sd_items noted.2) = changes_of (sd_items sender)) as [Hopen' Hsame].
  { unfold noted. destruct is_reconnect; [|done]. cbn [note_reconnect snd]. unfold send. rewrite Hopen. cbn. split; [done|]. unfold changes_of. rewrite omap_app. cbn. by rewrite app_nil_r. }
  assert (forall done tail r, reader_holds r (mjoin (chunk <$> (frame to_string interval <$> done)) ++ tail) (cn_failure conn) -> (forall ev, ev ∈ done -> ev ∈ evs) ->
    body_tail to_string interval evs tail -> (N.of_nat (3 * length done) < 2 ^ 63)%N ->
    let '(_, _, sender', _) := (let '(cx0, sender0) := noted in let '(out, s, _) := stream_events from_str cancelled (cx_last_id cx0) sender0 looks (bufreader_new (chunked_new r)) in
      (out, {| cx_last_id := se_last_id s; cx_reconnect_count := cx_reconnect_count cx0 |}, se_sender s, se_looks s)) in
    changes_of (sd_items sender') = changes_of (sd_items sender) ++ omap id done /\ sd_hangs_up sender' = None) as Hbody.
  { intros dn tail r Hr Hin Ht Hl. destruct noted as [cx0 sender0]. cbn [snd] in *.
    destruct (body_delivers dn tail evs r (cn_failure conn) (cx_last_id cx0) sender0 looks Hr) as (out&s&r'&->&Hs); [|done..|].
    { apply Forall_forall. intros ev Hev. rewrite Forall_forall in Hevs. auto. }
    rewrite Hs, changes_of_sent, Hsame. by split. }
  assert (p `prefix_of` response_head /\ p <> response_head \/ exists q, p = response_head ++ q /\ q `prefix_of` stream_text ping closes (arrival_of to_string <$> evs)) as [[Hc Hne]|(q&Hq&Hpq)].
  { destruct (prefix_app_cases _ _ _ Hp) as [Hc|?]; [|by right]. destruct (decide (p = response_head)) as [E|]; [|by left]. right. exists []. rewrite app_nil_r. split; [done|apply prefix_nil]. }
  - replace (length p - length response_head) with 0 by (apply prefix_length in Hc; lia). rewrite arrived_nothing.
    destruct (response_cut reader_holds (bufreader_new conn) p (cn_failure conn) Hh Hc Hne) as ([[]|x]&r'&->&Hok); [|by rewrite app_nil_r].
    apply (Hbody [] [] r'); [by apply Hok|by intros ? ?%not_elem_of_nil|left; apply prefix_nil|done].
  - rewrite Hq, length_app. replace (length response_head + length q - length response_head) with (length q) by lia. rewrite Hq in Hh, Hlen.
    destruct (response_whole reader_holds _ q (cn_failure conn) Hh) as (r'&->&Hr'). destruct (body_cut to_string ping closes evs q Hpq) as (dn&tail&->&Ha&Hin&Ht).
    rewrite Ha. apply (Hbody dn tail r' Hr' Hin Ht). rewrite !length_app in Hlen.
    assert (3 * length dn <= length (mjoin (chunk <$> (frame to_string interval <$> dn)))); [|lia].
    clear -dn. induction dn as [|ev dn IH]; [cbn; lia|]. rewrite !fmap_cons, mjoin_cons, length_app. cbn [length]. unfold chunk at 1. rewrite !length_app. cbn. lia.
Qed.

(** C8: What the client gets is what arrived. The mock server streams changes and pings as
    chunks; the network may deliver any beginning of that stream, in pieces of any size, and then
    end or fail. The client hands on exactly the changes whose chunk arrived with its line end,
    each once and in order. *)
Theorem push_stream_delivers types evs room conn is_reconnect cx sender looks :
  Forall (event_ok to_string) evs -> sd_hangs_up sender = None ->
  mjoin (cn_pieces conn) `prefix_of` 
    wr_out (respond {| ep_types := types; ep_close_after_state := closes; ep_ping_interval := ping |} false (arrival_of to_string <$> evs) {| wr_out := []; wr_room := room |}) ->
  (N.of_nat (length (mjoin (cn_pieces conn))) < 2 ^ 63)%N ->
  let '(_, _, sender', _) := receive_events from_str cancelled is_reconnect cx sender looks conn in
  changes_of (sd_items sender') = changes_of (sd_items sender) ++ arrived to_string ping closes (length (mjoin (cn_pieces conn)) - length response_head) evs.
Proof using All.
  intros Hevs Hopen Hp Hlen. pose proof (connection_delivers evs conn is_reconnect cx sender looks Hevs Hopen) as Hd.
  destruct (receive_events _ _ _ _ _ _ _) as [[[out cx'] sender'] looks']. apply Hd; [|done]. etransitivity; [exact Hp|]. apply (respond_prefix {| ep_types := types; ep_close_after_state := closes; ep_ping_interval := ping |}).
Qed.
End received.

Section push_stream_example.
Definition sample_change (state : text) : StateChange := state_change_new [(lit "A", [(lit "Email", state)])].
Definition sample_events : list (option StateChange) := [Some (sample_change (lit "7")); None; Some (sample_change (lit "8")); Some (sample_change (lit "9"))].
Definition sample_output : text :=
  wr_out (respond {| ep_types := None; ep_close_after_state := false; ep_ping_interval := Some 120%N |} false
    (arrival_of sample_to_string <$> sample_events) {| wr_out := []; wr_room := None |}).

(** Three pieces of the stream arrive, the last one cut off a few octets before its end. *)
Definition sample_conn : Conn :=
  {| cn_pieces := [take 40 sample_output; take 300 (drop 40 sample_output); take (length sample_output - 345) (drop 340 sample_output)]; cn_failure := Some (Broken 104) |}.
End push_stream_example.

Lemma push_stream_delivers_witness :
  let '(_, _, sender', _) := receive_events sample_from_str (fun _ => false) false {| cx_last_id := None; cx_reconnect_count := 0%N |} {| sd_items := []; sd_hangs_up := None |} 0 sample_conn in
  changes_of (sd_items sender') = [sample_change (lit "7"); sample_change (lit "8")].
Proof.
  assert (mjoin (cn_pieces sample_conn) = take (length sample_output - 5) sample_output) as Hp by by vm_compute.
  pose proof (push_stream_delivers sample_to_string sample_from_str (fun _ => false) (fun _ => eq_refl) (Some 120%N) ltac:(by intros i [= <-]) false
    None sample_events None sample_conn false {| cx_last_id := None; cx_reconnect_count := 0%N |} {| sd_items := []; sd_hangs_up := None |} 0) as H.
  destruct (receive_events _ _ _ _ _ _ _) as [[[? ?] sender'] ?]. rewrite H; [by vm_compute|..].
  - repeat constructor; try by vm_compute. all: by_decide.
  - done.
  - rewrite Hp. apply prefix_take.
  - rewrite Hp. by vm_compute.
Defined.
