(* ===== verification/PushRefresh.v ===== *)
(** The refresh that pushes request (jmap-mail/src/push.rs): requests are merged into one
    worker. The threads take turns at the lock, in any order. *)

From Stdlib Require Import Ascii String.
From stdpp Require Import prelude strings.
From S2P Require Import Prelude BTree Strings.

Local Open Scope rust_scope.

(** ** Work *)
Record Work := { wk_refresh_messages : bool; wk_check_folder_list : bool }.

#[export] Instance Work_eq_dec : EqDecision Work.
Proof. solve_decision. Defined.

Definition no_work : Work := {| wk_refresh_messages := false; wk_check_folder_list := false |}.

Definition work_is_empty (w : Work) : bool := negb (wk_refresh_messages w) && negb (wk_check_folder_list w).

Definition work_union (a b : Work) : Work :=
  {| wk_refresh_messages := wk_refresh_messages a || wk_refresh_messages b; wk_check_folder_list := wk_check_folder_list a || wk_check_folder_list b |}.

(** [covers b a]: [b] does at least the work of [a]. *)
Definition covers (b a : Work) : Prop :=
  (wk_refresh_messages a = true -> wk_refresh_messages b = true) /\ (wk_check_folder_list a = true -> wk_check_folder_list b = true).

(** ** Threads *)
Record Runs := { ru_running : bool; ru_pending : Work }.

Definition no_runs : Runs := {| ru_running := false; ru_pending := no_work |}.

(** A worker before a pass, in it, and after it. *)
Inductive Worker := Starting (work : Work) | Passing (work : Work) | Passed.

(** What happened, newest first. [Dropped] is a worker that did not start, or a store that is
    gone. *)
Inductive Happened := Requested (work : Work) | Started (work : Work) | Dropped.

(** The shared book-keeping, the threads that marked themselves as running and did not spawn
    their worker yet, the workers, and the history. *)
Record Refresher := { rf_runs : Runs; rf_spawning : list Work; rf_workers : list Worker; rf_history : list Happened }.

Definition refresher_new : Refresher := {| rf_runs := no_runs; rf_spawning := []; rf_workers := []; rf_history := [] |}.

(** The turns: a request under the lock; its spawn, which can fail; and a worker that takes its
    next step, on a store that is there or gone. *)
Inductive Turn :=
  | Request (work : Work)
  | Spawn (thread : nat)
  | SpawnFails (thread : nat)
  | Work_on (worker : nat) (store_is_there : bool).

Definition request_with (work : Work) (f : Refresher) : Refresher :=
  if work_is_empty work then f
  else
    let history := Requested work :: rf_history f in
    if ru_running (rf_runs f)
    then {| rf_runs := {| ru_running := true; ru_pending := work_union (ru_pending (rf_runs f)) work |};
            rf_spawning := rf_spawning f; rf_workers := rf_workers f; rf_history := history |}
    else {| rf_runs := {| ru_running := true; ru_pending := ru_pending (rf_runs f) |};
            rf_spawning := rf_spawning f ++ [work]; rf_workers := rf_workers f; rf_history := history |}.

Definition spawned (thread : nat) (f : Refresher) : option Refresher :=
  let! work := rf_spawning f !! thread in
  Some {| rf_runs := rf_runs f; rf_spawning := delete thread (rf_spawning f); rf_workers := rf_workers f ++ [Starting work]; rf_history := rf_history f |}.

Definition spawn_failed (thread : nat) (f : Refresher) : option Refresher :=
  let! _ := rf_spawning f !! thread in
  Some {| rf_runs := no_runs; rf_spawning := delete thread (rf_spawning f); rf_workers := rf_workers f; rf_history := Dropped :: rf_history f |}.

(** A worker in [run]. *)
Definition worker_turn (i : nat) (store_is_there : bool) (f : Refresher) : option Refresher :=
  let with_worker worker f := {| rf_runs := rf_runs f; rf_spawning := rf_spawning f; rf_workers := <[i := worker]> (rf_workers f); rf_history := rf_history f |} in
  let! worker := rf_workers f !! i in
  match worker with
  | Starting work =>
      if store_is_there
      then Some {| rf_runs := rf_runs f; rf_spawning := rf_spawning f; rf_workers := <[i := Passing work]> (rf_workers f); rf_history := Started work :: rf_history f |}
      else Some {| rf_runs := no_runs; rf_spawning := rf_spawning f; rf_workers := delete i (rf_workers f); rf_history := Dropped :: rf_history f |}
  | Passing _ => Some (with_worker Passed f)
  | Passed =>
      let pending := ru_pending (rf_runs f) in
      if negb (work_is_empty pending)
      then Some {| rf_runs := {| ru_running := ru_running (rf_runs f); ru_pending := no_work |}; rf_spawning := rf_spawning f;
                   rf_workers := <[i := Starting pending]> (rf_workers f); rf_history := rf_history f |}
      else Some {| rf_runs := {| ru_running := false; ru_pending := pending |}; rf_spawning := rf_spawning f;
                   rf_workers := delete i (rf_workers f); rf_history := rf_history f |}
  end.

Definition refresher_turn (t : Turn) (f : Refresher) : option Refresher :=
  match t with
  | Request work => Some (request_with work f)
  | Spawn thread => spawned thread f
  | SpawnFails thread => spawn_failed thread f
  | Work_on worker store_is_there => worker_turn worker store_is_there f
  end.

(** Turns in any order; a turn that no thread can take does not happen. *)
Definition refresher_step (f f' : Refresher) : Prop := exists t, refresher_turn t f = Some f'.

Fixpoint run_turns (turns : list Turn) (f : Refresher) : option Refresher :=
  match turns with [] => Some f | t :: turns => let! f := refresher_turn t f in run_turns turns f end.

(** ** The invariant *)

(** The work that is still to be started. *)
Definition starting (w : Worker) : option Work := match w with Starting work => Some work | _ => None end.
Definition to_start (f : Refresher) : list Work := rf_spawning f ++ omap starting (rf_workers f) ++ [ru_pending (rf_runs f)].

(** The request [work], with what happened since, newest first. *)
Definition answered (newer : list Happened) (work : Work) : Prop := Dropped ∈ newer \/ exists w, Started w ∈ newer /\ covers w work.

Record refresher_ok (f : Refresher) : Prop := {
  ro_threads : length (rf_spawning f) + length (rf_workers f) = if ru_running (rf_runs f) then 1 else 0;
  ro_idle : ru_running (rf_runs f) = false -> ru_pending (rf_runs f) = no_work;
  ro_requests : forall newer w older, rf_history f = newer ++ Requested w :: older ->
    work_is_empty w = false /\ (answered newer w \/ exists w', w' ∈ to_start f /\ covers w' w);
}.

Lemma covers_refl w : covers w w.
Proof. by split. Qed.

Lemma covers_union_l a b w : covers a w -> covers (work_union a b) w.
Proof. intros [H1 H2]. unfold covers, work_union. cbn. rewrite !orb_true_iff. auto. Qed.

Lemma covers_union_r a b w : covers b w -> covers (work_union a b) w.
Proof. intros [H1 H2]. unfold covers, work_union. cbn. rewrite !orb_true_iff. auto. Qed.

Lemma covers_nothing b w : work_is_empty b = true -> covers b w -> work_is_empty w = true.
Proof. destruct b as [[] []], w as [[] []]; cbn; intros H [H1 H2]; cbn in *; try done; try (by specialize (H1 eq_refl)); by specialize (H2 eq_refl). Qed.

Lemma answered_later h newer w : answered newer w -> answered (h :: newer) w.
Proof. intros [H|(w'&H&Hc)]; [left; by right|right; exists w'; split; [by right|done]]. Qed.

(** One more event, and the work that is still to be started. *)
Lemma requests_later f f' h :
  refresher_ok f -> rf_history f' = h :: rf_history f ->
  (forall w, h = Requested w -> work_is_empty w = false /\ exists w', w' ∈ to_start f' /\ covers w' w) ->
  (forall w, work_is_empty w = false -> (exists w', w' ∈ to_start f /\ covers w' w) -> answered [h] w \/ exists w', w' ∈ to_start f' /\ covers w' w) ->
  forall newer w older, rf_history f' = newer ++ Requested w :: older ->
    work_is_empty w = false /\ (answered newer w \/ exists w', w' ∈ to_start f' /\ covers w' w).
Proof.
  intros [_ _ Hr] Hh Hnew Hold newer w older E. rewrite Hh in E. destruct newer as [|n newer]; cbn [app] in E.
  - injection E as -> _. destruct (Hnew w eq_refl) as [He Hw]. auto.
  - injection E as <- E. destruct (Hr _ _ _ E) as [He [Ha|Hs]]; [split; [done|left; by apply answered_later]|]. split; [done|].
    destruct (Hold w He Hs) as [[Hd|(w'&Hw'&Hc)]|Hs']; [|..|by right].
    + left. left. apply list_elem_of_singleton in Hd as <-. by left.
    + left. right. exists w'. apply list_elem_of_singleton in Hw' as <-. split; [by left|done].
Qed.

Lemma requests_same f f' :
  refresher_ok f -> rf_history f' = rf_history f ->
  (forall w, work_is_empty w = false -> (exists w', w' ∈ to_start f /\ covers w' w) -> exists w', w' ∈ to_start f' /\ covers w' w) ->
  forall newer w older, rf_history f' = newer ++ Requested w :: older ->
    work_is_empty w = false /\ (answered newer w \/ exists w', w' ∈ to_start f' /\ covers w' w).
Proof. intros [_ _ Hr] Hh Hold newer w older E. rewrite Hh in E. destruct (Hr _ _ _ E) as [He [Ha|Hs]]; auto. Qed.

(** Who is running. *)
Lemma thread_cases f :
  refresher_ok f ->
  (ru_running (rf_runs f) = false /\ rf_spawning f = [] /\ rf_workers f = [] /\ ru_pending (rf_runs f) = no_work) \/
  (ru_running (rf_runs f) = true /\ (exists w, rf_spawning f = [w]) /\ rf_workers f = []) \/
  (ru_running (rf_runs f) = true /\ rf_spawning f = [] /\ exists w, rf_workers f = [w]).
Proof.
  intros [Ht Hi _]. destruct (ru_running (rf_runs f)).
  - right. destruct (rf_spawning f) as [|a [|b l]], (rf_workers f) as [|x [|y l']]; cbn in Ht; try lia; [right|left]; split_and!; eauto.
  - left. destruct (rf_spawning f), (rf_workers f); cbn in Ht; try lia. by split_and!; auto.
Qed.

Lemma request_ok work f : refresher_ok f -> refresher_ok (request_with work f).
Proof.
  intros Hok. unfold request_with. destruct (work_is_empty work) eqn:Ew; [done|]. destruct (ru_running (rf_runs f)) eqn:Er.
  - pose proof (ro_threads f Hok) as Ht. rewrite Er in Ht. split; [done|done|]. eapply requests_later; [exact Hok|done|..].
    + intros w [= <-]. split; [done|]. eexists. split; [|apply covers_union_r, covers_refl]. unfold to_start. cbn. rewrite !elem_of_app. right. right. by left.
    + intros w _ (w'&Hin&Hc). right. unfold to_start in *. cbn in *. rewrite !elem_of_app in Hin.
      destruct Hin as [Hin|[Hin|Hin]]; [exists w'; rewrite !elem_of_app; auto..|]. apply list_elem_of_singleton in Hin as ->.
      eexists. split; [rewrite !elem_of_app; right; right; by left|]. by apply covers_union_l.
  - destruct (thread_cases f Hok) as [(_&Hs&Hw&Hp)|[(?&_)|(?&_)]]; [|congruence..]. split; [cbn; by rewrite Hs, Hw|done|].
    + eapply requests_later; [exact Hok|done|..].
      * intros w [= <-]. split; [done|]. exists work. split; [|apply covers_refl]. unfold to_start. cbn. rewrite !elem_of_app. left. right. by left.
      * intros w _ (w'&Hin&Hc). right. exists w'. split; [|done]. unfold to_start in *. cbn in *. rewrite !elem_of_app in *. tauto.
Qed.

Lemma dropped_ok f : refresher_ok f -> refresher_ok {| rf_runs := no_runs; rf_spawning := []; rf_workers := []; rf_history := Dropped :: rf_history f |}.
Proof.
  intros Hok. split; [done|done|]. eapply requests_later; [exact Hok|done|done|]. intros w _ _. left. left. by left.
Qed.

Lemma spawned_ok i f f' : refresher_ok f -> spawned i f = Some f' -> refresher_ok f'.
Proof.
  intros Hok (w&Hw&[= <-])%bind_Some.
  destruct (thread_cases f Hok) as [(_&Hs&_)|[(Hr&[w0 Hs]&Hws)|(_&Hs&_)]]; rewrite Hs in Hw; [done| |done]. destruct i as [|i]; [|done]. injection Hw as ->.
  split; [cbn; by rewrite Hr, Hs, Hws|cbn; by rewrite Hr|].
  - eapply requests_same; [exact Hok|done|]. intros w' _ (w''&Hin&Hc). exists w''. split; [|done]. unfold to_start in *. cbn. rewrite Hs, Hws in *. exact Hin.
Qed.

Lemma spawn_failed_ok i f f' : refresher_ok f -> spawn_failed i f = Some f' -> refresher_ok f'.
Proof.
  intros Hok (w&Hw&[= <-])%bind_Some.
  destruct (thread_cases f Hok) as [(_&Hs&_)|[(Hr&[w0 Hs]&Hws)|(_&Hs&_)]]; rewrite Hs in Hw; [done| |done]. destruct i as [|i]; [|done].
  rewrite Hs, Hws. by apply dropped_ok.
Qed.

Lemma worker_turn_ok i there f f' : refresher_ok f -> worker_turn i there f = Some f' -> refresher_ok f'.
Proof.
  intros Hok (x&Hx&E)%bind_Some.
  destruct (thread_cases f Hok) as [(_&_&Hw&_)|[(_&_&Hw)|(Hr&Hs&[y Hw])]]; rewrite Hw in Hx; [done|done|]. destruct i as [|i]; [|done]. injection Hx as ->.
  destruct x as [work|work|]; cbn [starting] in E; rewrite ?Hw in E; cbn in E.
  - destruct there; injection E as <-; [|rewrite Hs; by apply dropped_ok]. split; [cbn; by rewrite ?Hr, ?Hs|cbn; by rewrite Hr|].
    eapply requests_later; [exact Hok|done|done|]. intros w _ (w'&Hin&Hc). unfold to_start in *. cbn. rewrite Hs, Hw in *. cbn in *.
    apply elem_of_cons in Hin as [->|Hin]; [left; right; exists work; split; [by left|done]|right; eauto].
  - injection E as <-. split; [cbn; by rewrite ?Hr, ?Hs|cbn; by rewrite Hr|].
    eapply requests_same; [exact Hok|done|]. intros w _ Hin. unfold to_start in *. cbn. by rewrite Hs, Hw in *.
  - destruct (work_is_empty (ru_pending (rf_runs f))) eqn:Ep; injection E as <-.
    + split; [cbn; by rewrite ?Hs|cbn; intros _; by destruct (ru_pending (rf_runs f)) as [[] []]|].
      eapply requests_same; [exact Hok|done|]. intros w He (w'&Hin&Hc). exfalso. unfold to_start in Hin. rewrite Hs, Hw in Hin. cbn in Hin.
      apply list_elem_of_singleton in Hin as ->. by rewrite (covers_nothing _ _ Ep Hc) in He.
    + split; [cbn; by rewrite ?Hr, ?Hs|cbn; by rewrite Hr|]. eapply requests_same; [exact Hok|done|]. intros w He (w'&Hin&Hc). exists w'. split; [|done].
      unfold to_start in *. cbn. rewrite Hs, Hw in *. cbn in *. apply list_elem_of_singleton in Hin as ->. by left.
Qed.

Lemma refresher_new_ok : refresher_ok refresher_new.
Proof. split; [done|done|]. by intros [|] ? ?. Qed.

Lemma refresher_step_ok f f' : refresher_ok f -> refresher_step f f' -> refresher_ok f'.
Proof.
  intros Hok [[work|i|i|i there] Ht]; cbn in Ht.
  - injection Ht as <-. by apply request_ok.
  - by eapply spawned_ok.
  - by eapply spawn_failed_ok.
  - by eapply worker_turn_ok.
Qed.

Lemma refresher_reachable f : rtc refresher_step refresher_new f -> refresher_ok f.
Proof.
  intros Hsteps. assert (forall a b, rtc refresher_step a b -> refresher_ok a -> refresher_ok b) as H; [|by eapply H, refresher_new_ok].
  induction 1 as [|a b c Hab _ IH]; intros Ha; [done|]. by eapply IH, refresher_step_ok.
Qed.

(** ** Coming to rest *)
Definition own_turn (t : Turn) : Prop := match t with Spawn _ => True | Work_on _ there => there = true | _ => False end.

Definition rests (f : Refresher) : Prop :=
  exists turns f', Forall own_turn turns /\ run_turns turns f = Some f' /\ ru_running (rf_runs f') = false.

Lemma rests_turn t f f1 : own_turn t -> refresher_turn t f = Some f1 -> rests f1 -> rests f.
Proof. intros Ht Hf (turns&f'&Hts&Hrun&Hr). exists (t :: turns), f'. split; [by constructor|]. cbn [run_turns]. by rewrite Hf. Qed.

Lemma rests_worker f w : rf_workers f = [w] -> rests f.
Proof.
  intros Hw. assert (forall f, rf_workers f = [Passed] -> work_is_empty (ru_pending (rf_runs f)) = true -> rests f) as Hend.
  { intros g Hg Hp. eexists [Work_on 0 true], _. split; [by repeat constructor|]. cbn [run_turns refresher_turn]. unfold worker_turn. rewrite Hg. cbn [list_lookup lookup mbind option_bind].
    by rewrite Hp. }
  assert (forall f work, rf_workers f = [Passing work] -> rests {| rf_runs := rf_runs f; rf_spawning := rf_spawning f; rf_workers := [Passed]; rf_history := rf_history f |} -> rests f) as Hpass.
  { intros g work Hg Hn. eapply (rests_turn (Work_on 0 true)); [done|cbn; unfold worker_turn; rewrite Hg; reflexivity|done]. }
  assert (forall f work, rf_workers f = [Starting work] ->
    rests {| rf_runs := rf_runs f; rf_spawning := rf_spawning f; rf_workers := [Passed]; rf_history := Started work :: rf_history f |} -> rests f) as Hstart.
  { intros g work Hg Hn. eapply (rests_turn (Work_on 0 true)); [done|cbn; unfold worker_turn; rewrite Hg; reflexivity|]. by apply (Hpass _ work). }
  assert (forall f, rf_workers f = [Passed] -> rests f) as Hpassed.
  { intros g Hg. destruct (work_is_empty (ru_pending (rf_runs g))) eqn:Ep; [by apply Hend|].
    eapply (rests_turn (Work_on 0 true)); [done|cbn; unfold worker_turn; rewrite Hg; cbn; rewrite Ep; reflexivity|]. cbn.
    eapply (Hstart _ (ru_pending (rf_runs g))); [done|]. by apply Hend. }
  destruct w as [work|work|]; [eapply Hstart|eapply Hpass|by apply Hpassed]; [done|by apply Hpassed|done|by apply Hpassed].
Qed.

Lemma refresher_rests f : refresher_ok f -> rests f.
Proof.
  intros Hok. destruct (thread_cases f Hok) as [(Hr&_)|[(_&[w Hs]&Hw)|(_&_&[w Hw])]].
  - exists [], f. by split; [constructor|].
  - eapply (rests_turn (Spawn 0)); [done|cbn; unfold spawned; rewrite Hs; reflexivity|]. eapply rests_worker. cbn. by rewrite Hw.
  - by eapply rests_worker.
Qed.

(** C19: No pushed change is forgotten and no two refreshes run at once. Requests come from any
    thread at any time, also while a worker is being spawned, runs or is about to end. There
    is never more than one worker; it comes to rest by itself; and when it rests, every
    request so far was followed by the start of a pass that does all of its work, unless a
    worker could not be spawned or the store was gone. *)
Theorem refresh_answers_requests f :
  rtc refresher_step refresher_new f ->
  length (rf_workers f) <= 1 /\ rests f /\
  (ru_running (rf_runs f) = false -> forall newer work older, rf_history f = newer ++ Requested work :: older -> answered newer work).
Proof.
  intros Hok%refresher_reachable. split_and!.
  - pose proof (ro_threads f Hok). destruct (ru_running _); lia.
  - by apply refresher_rests.
  - intros Hr newer work older E. destruct (thread_cases f Hok) as [(_&Hs&Hw&Hp)|[(?&_)|(?&_)]]; [|congruence..].
    destruct (ro_requests f Hok _ _ _ E) as [He [?|(w'&Hin&Hc)]]; [done|]. exfalso. unfold to_start in Hin. rewrite Hs, Hw, Hp in Hin.
    apply list_elem_of_singleton in Hin as ->. by rewrite (covers_nothing no_work _ eq_refl Hc) in He.
Qed.

Lemma run_turns_steps turns f f' : run_turns turns f = Some f' -> rtc refresher_step f f'.
Proof.
  revert f. induction turns as [|t turns IH]; intros f; cbn [run_turns]; [by intros [= ->]|]. intros (f1&Ht&Hr)%bind_Some. eapply rtc_l; [by exists t|by apply IH].
Qed.

(** Two changes are pushed while a pass runs; one more pass answers both. *)
Definition messages_only : Work := {| wk_refresh_messages := true; wk_check_folder_list := false |}.
Definition folders_only : Work := {| wk_refresh_messages := false; wk_check_folder_list := true |}.
Definition burst : list Turn :=
  [Request messages_only; Spawn 0; Work_on 0 true; Request folders_only; Request messages_only; Work_on 0 true; Work_on 0 true; Work_on 0 true; Work_on 0 true; Work_on 0 true].
Definition after_burst : Refresher := default refresher_new (run_turns burst refresher_new).

Lemma refresh_answers_requests_witness :
  run_turns burst refresher_new = Some after_burst /\
  answered [Started (work_union folders_only messages_only); Requested messages_only] folders_only.
Proof.
  assert (run_turns burst refresher_new = Some after_burst) as E by reflexivity. split; [exact E|].
  apply (proj2 (proj2 (refresh_answers_requests after_burst (run_turns_steps _ _ _ E))) eq_refl
    [Started (work_union folders_only messages_only); Requested messages_only] folders_only [Started messages_only; Requested messages_only]). reflexivity.
Defined.
