(* ===== verification/PushPump.v ===== *)
(** From the requests that a server handles to the refreshes that a push asks for: the pump
    (jmap-backend-core/src/push.rs), the dispatch of the mail store (jmap-mail/src/push.rs), and
    the changes that the mock server pushes. *)

From Stdlib Require Import Ascii String.
From stdpp Require Import prelude strings.
From S2P Require Import Prelude BTree Text Strings Json Wire Proto PushProto MockPush PushRefresh.

Local Open Scope rust_scope.

(** ** The pump *)
(** One candidate: is its state a new one? *)
Definition concern_step (state : btmap text State) (acc : list text * btmap text State) (name : text) : list text * btmap text State :=
  let '(matched, last_state) := acc in
  match bt_get name state with
  | Some new_state =>
      (if bool_decide (bt_get name last_state = Some new_state) then matched else matched ++ [name], bt_insert name new_state last_state)
  | None => (matched, last_state)
  end.

Definition concerns (change : StateChange) (account_id : Id) (types : list text) (last_state : btmap text State) : list text * btmap text State :=
  match bt_get account_id (sc_changed change) with
  | None => ([], last_state)
  | Some state =>
      let candidates := if bool_decide (types = []) then state.*1 else filter (fun name => bt_contains name state = true) types in
      fold_left (concern_step state) candidates ([], last_state)
  end.

(** The refreshes that the pump asks for, change after change. *)
Fixpoint pump (account_id : Id) (types : list text) (last_state : btmap text State) (changes : list StateChange) : list (list text) :=
  match changes with
  | [] => []
  | change :: changes =>
      let '(matched, last_state) := concerns change account_id types last_state in
      (if bool_decide (matched = []) then [] else [matched]) ++ pump account_id types last_state changes
  end.

(** ** The dispatch *)
Definition PUSHED_TYPES : list text := [lit "Email"; lit "EmailDelivery"].
Definition FOLDER_LIST_TYPES : list text := [lit "Mailbox"].
Definition watched : list text := PUSHED_TYPES ++ FOLDER_LIST_TYPES.

Record Actions := { ac_mark_folder_list_stale : bool; ac_request_message_refresh : bool }.

Definition actions_for (types : list text) : Actions :=
  {| ac_mark_folder_list_stale := existsb (fun name => bool_decide (name ∈ FOLDER_LIST_TYPES)) types;
     ac_request_message_refresh := existsb (fun name => bool_decide (name ∈ PUSHED_TYPES)) types |}.

Definition dispatch_work (types : list text) : Work :=
  let actions := actions_for types in
  {| wk_refresh_messages := ac_request_message_refresh actions; wk_check_folder_list := ac_mark_folder_list_stale actions |}.

Definition dispatch (types : list text) (f : Refresher) : Refresher :=
  if work_is_empty (dispatch_work types) then f else request_with (dispatch_work types) f.

(** ** What is pushed *)
Lemma get_fold_insert {V W} (skip : text * V -> bool) (value : text * V -> W) (l : btmap text V) acc k :
  NoDup l.*1 ->
  bt_get k (fold_left (fun m e => if skip e then m else bt_insert e.1 (value e) m) l acc) =
  match bt_get k l with Some x => if skip (k, x) then bt_get k acc else Some (value (k, x)) | None => bt_get k acc end.
Proof.
  revert acc. induction l as [|[k1 x] l IH]; intros acc; cbn [fmap list_fmap fold_left bt_get]; [done|]. intros [Hn Hd]%NoDup_cons. rewrite IH by done. cbn [fst].
  destruct (decide (k1 = k)) as [->|Hne].
  - rewrite (proj2 (bt_get_None_elem k l) Hn). rewrite decide_True by done. destruct (skip (k, x)); [done|]. by rewrite bt_get_insert_eq.
  - rewrite ?decide_False by done. destruct (bt_get k l) as [y|].
    + destruct (skip (k, y)), (skip (k1, x)); rewrite ?bt_get_insert_ne by done; done.
    + destruct (skip (k1, x)); rewrite ?bt_get_insert_ne by done; done.
Qed.

(** The counter of a data type in an account. *)
Definition counter (s : TypeStateSnapshot) (account_id : Id) (name : text) : option N :=
  let! types := bt_get account_id s in bt_get name types.

Definition snapshot_ok (s : TypeStateSnapshot) : Prop := map_ok bt_ok s.

(** What a change says of a data type in an account. *)
Definition told (change : StateChange) (account_id : Id) (name : text) : option State :=
  let! types := bt_get account_id (sc_changed change) in bt_get name types.

Lemma changed_types_get before after name :
  bt_ok after ->
  bt_get name (changed_types before after) =
    (let! n := bt_get name after in if bool_decide ((let! b := before in bt_get name b) = Some n) then None else Some (to_dec n)).
Proof.
  intros Hok. unfold changed_types. rewrite (get_fold_insert (fun e => bool_decide ((let! b := before in bt_get e.1 b) = Some e.2)) (fun e => to_dec e.2)) by by apply bt_ok_nodup.
  by destruct (bt_get name after).
Qed.

(** The new state of a data type after a request, if the request changed it. *)
Definition new_state (before after : TypeStateSnapshot) (account_id : Id) (name : text) : option State :=
  let! n := counter after account_id name in if bool_decide (counter before account_id name = Some n) then None else Some (to_dec n).

Definition told_by (change : option StateChange) (account_id : Id) (name : text) : option State :=
  let! change := change in told change account_id name.

Lemma told_since before after account_id name :
  snapshot_ok after -> told_by (state_change_since before after) account_id name = new_state before after account_id name.
Proof.
  intros [Hok Htypes]. unfold state_change_since. set (changed := fold_left _ after []).
  assert (forall id, bt_get id changed = let! types := bt_get id after in
    let types := changed_types (bt_get id before) types in if bool_decide (types = []) then None else Some types) as Hget.
  { intros id. unfold changed. rewrite (get_fold_insert (fun e => bool_decide (changed_types (bt_get e.1 before) e.2 = [])) (fun e => changed_types (bt_get e.1 before) e.2)) by by apply bt_ok_nodup.
    by destruct (bt_get id after). }
  assert (told (state_change_new changed) account_id name = new_state before after account_id name) as Htold.
  { unfold told, new_state, counter. cbn [sc_changed state_change_new]. rewrite Hget. destruct (bt_get account_id after) as [types|] eqn:Ea; cbn [mbind option_bind]; [|done].
    assert (bt_ok types) as Ht. { rewrite Forall_forall in Htypes. apply (Htypes (account_id, types)). by apply bt_get_Some_elem. }
    pose proof (changed_types_get (bt_get account_id before) types name Ht) as Hc. case_bool_decide as E; cbn [mbind option_bind]; [|exact Hc]. rewrite E in Hc. exact Hc. }
  case_bool_decide as E; cbn [told_by mbind option_bind]; [|exact Htold]. by rewrite E in Htold.
Qed.

(** A map with some of its values changed and some entries left out. *)
Section omapped.
Context {V W : Type} (f : text * V -> option (text * W)) (f_key : forall e w, f e = Some w -> w.1 = e.1).

Lemma omap_keys (l : btmap text V) : (omap f l).*1 `sublist_of` l.*1.
Proof using f_key.
  induction l as [|e l IH]; [done|]. cbn. destruct (f e) as [w|] eqn:E; cbn; [rewrite (f_key e w E); by constructor|by apply sublist_cons].
Qed.

Lemma get_omap (l : btmap text V) k : NoDup l.*1 -> bt_get k (bt_of_list (omap f l)) = let! v := bt_get k l in snd <$> f (k, v).
Proof using f_key.
  intros Hn. rewrite bt_get_of_list_nodup by (eapply sublist_NoDup; [exact Hn|apply omap_keys]).
  induction l as [|[k1 v] l IH]; [done|]. apply NoDup_cons in Hn as [Hk Hn]. cbn [omap list_omap bt_get]. destruct (f (k1, v)) as [[k2 w]|] eqn:E.
  - pose proof (f_key _ _ E) as Hkey. cbn in Hkey. subst k2. cbn [bt_get]. case_decide as Hc; [subst k1; cbn; by rewrite E|by apply IH].
  - case_decide as Hc; [|by apply IH]. subst k1. cbn [mbind option_bind]. rewrite E. cbn. apply bt_get_None_elem. intros Hin. apply Hk.
    eapply elem_of_submseteq; [exact Hin|]. apply sublist_submseteq, omap_keys.
Qed.
End omapped.

Lemma narrowed_get types state name : bt_ok state -> bt_get name (narrowed types state) = if bool_decide (name ∈ types) then bt_get name state else None.
Proof.
  intros Hok. unfold narrowed. rewrite bt_get_of_list_nodup by by apply bt_ok_nodup, bt_filter_ok. case_bool_decide as Hin.
  - apply (bt_get_filter_key (fun e : text * State => bs_contains e.1 types = true)). intros v. by apply bs_contains_true.
  - apply (bt_get_filter_none (fun e : text * State => bs_contains e.1 types = true)). intros v Hv. apply Hin. by apply bs_contains_true in Hv.
Qed.

Lemma filter_told change types account_id name :
  state_change_ok change -> told_by (filter_for change (Some types)) account_id name = if bool_decide (name ∈ types) then told change account_id name else None.
Proof.
  intros [[Hok Hin] _]. unfold filter_for. set (changed := bt_of_list _).
  assert (told (state_change_new changed) account_id name = if bool_decide (name ∈ types) then told change account_id name else None) as Htold.
  { unfold told, changed. cbn [sc_changed state_change_new].
    rewrite get_omap; [|intros e w; by case_bool_decide; [|intros [= <-]]|by apply bt_ok_nodup]. cbn [fst snd].
    destruct (bt_get account_id (sc_changed change)) as [state|] eqn:Es; cbn [mbind option_bind]; [|by case_bool_decide].
    assert (bt_ok state) as Hs. { rewrite Forall_forall in Hin. apply (Hin (account_id, state)). by apply bt_get_Some_elem. }
    rewrite <- (narrowed_get types state name Hs). case_bool_decide as E; cbn; [by rewrite E|done]. }
  rewrite <- Htold. destruct (bool_decide_reflect (changed = [])) as [E|E]; [by rewrite E|done].
Qed.

(** *** What the pump makes of a change *)

(** The change tells a state of the data type that is not the last one. *)
Definition is_news (state : btmap text State) (last_state : btmap text State) (name : text) : bool :=
  match bt_get name state with Some s => negb (bool_decide (bt_get name last_state = Some s)) | None => false end.

Definition seen (state : btmap text State) (last_state : btmap text State) (name : text) : option State :=
  match bt_get name state with Some s => Some s | None => bt_get name last_state end.

Lemma concern_fold state names matched last_state :
  NoDup names ->
  let out := fold_left (concern_step state) names (matched, last_state) in
  out.1 = matched ++ filter (fun name => is_news state last_state name = true) names /\
  forall name, bt_get name out.2 = if bool_decide (name ∈ names) then seen state last_state name else bt_get name last_state.
Proof.
  intros Hn. revert matched last_state. induction Hn as [|name names Hin _ IH]; intros matched last_state; cbn [fold_left].
  { rewrite app_nil_r. split; [done|]. intros name. by case_bool_decide as E; [apply not_elem_of_nil in E|]. }
  set (last' := (concern_step state (matched, last_state) name).2).
  assert (forall k, bt_get k last' = if bool_decide (k = name) then seen state last_state name else bt_get k last_state) as Hlast.
  { intros k. unfold last', seen. cbn. destruct (bt_get name state) as [s|]; cbn; [|by case_bool_decide; subst].
    rewrite bt_get_insert. case_bool_decide as E; [by rewrite decide_True|by rewrite decide_False]. }
  assert (concern_step state (matched, last_state) name = (matched ++ (if is_news state last_state name then [name] else []), last')) as ->.
  { unfold last', is_news. cbn. destruct (bt_get name state) as [s|]; [|by rewrite app_nil_r]. case_bool_decide; cbn; [by rewrite app_nil_r|done]. }
  destruct (IH (matched ++ (if is_news state last_state name then [name] else [])) last') as [H1 H2]. split.
  - rewrite H1, <- app_assoc. f_equal. rewrite filter_cons.
    assert (filter (fun k => is_news state last' k = true) names = filter (fun k => is_news state last_state k = true) names) as ->.
    { apply filter_ext_in. intros k Hk. unfold is_news. rewrite Hlast, bool_decide_eq_false_2 by (by intros ->). done. }
    by destruct (is_news state last_state name).
  - intros k. rewrite H2. unfold seen. rewrite Hlast. destruct (decide (k = name)) as [->|Hne].
    + rewrite (bool_decide_eq_false_2 (name ∈ names)) by done. rewrite !bool_decide_eq_true_2 by (done || by left). done.
    + rewrite (bool_decide_eq_false_2 (k = name)) by done. rewrite (bool_decide_ext (k ∈ names) (k ∈ name :: names)); [done|]. rewrite elem_of_cons. tauto.
Qed.

Lemma concerns_spec change account_id types last_state :
  types <> [] -> NoDup types ->
  let out := concerns change account_id types last_state in
  let state := default [] (bt_get account_id (sc_changed change)) in
  out.1 = filter (fun name => is_news state last_state name = true) types /\
  forall name, name ∈ types -> bt_get name out.2 = seen state last_state name.
Proof.
  intros Ht Hn. unfold concerns. destruct (bt_get account_id (sc_changed change)) as [state|]; cbn [default from_option Datatypes.id].
  - rewrite bool_decide_eq_false_2 by done. set (names := filter _ types). assert (NoDup names) as Hnames by by apply NoDup_filter.
    destruct (concern_fold state names [] last_state Hnames) as [H1 H2]. cbn zeta. rewrite H1. split.
    + unfold names. rewrite list_filter_filter. apply filter_ext_in. intros name _. unfold is_news, bt_contains. destruct (bt_get name state) as [l|].
      * rewrite (bool_decide_eq_true_2 (is_Some (Some l))) by (by eexists). tauto.
      * split; [by intros [_ ?]|done].
    + intros name Hname. rewrite H2. unfold seen. case_bool_decide as E; [done|]. destruct (bt_get name state) eqn:Es; [|done]. exfalso. apply E. apply list_elem_of_filter.
      split; [|done]. apply bt_contains_true. by rewrite Es.
  - split; [|done]. symmetry. apply filter_none. by intros.
Qed.

(** ** Requests, pushes and refreshes *)

(** The end of a request: what changed is broadcast. *)
Definition push_changes (to_string : Value -> text) (before after : TypeStateSnapshot) (hub : EventSourceHub) : EventSourceHub :=
  match state_change_since before after with Some change => broadcast to_string change hub | None => hub end.

Fixpoint handle_requests (to_string : Value -> text) (s : TypeStateSnapshot) (later : list TypeStateSnapshot) (hub : EventSourceHub) : EventSourceHub :=
  match later with
  | [] => hub
  | s' :: later => handle_requests to_string s' later (push_changes to_string s s' hub)
  end.

(** The changes that a subscriber to [types] is sent. *)
Definition push_of (types : option (list text)) (s s' : TypeStateSnapshot) : option StateChange :=
  let! change := state_change_since s s' in filter_for change types.

Fixpoint pushes (types : option (list text)) (s : TypeStateSnapshot) (later : list TypeStateSnapshot) : list StateChange :=
  match later with
  | [] => []
  | s' :: later => option_list (push_of types s s') ++ pushes types s' later
  end.

(** The watched types that each request changed, for the requests that changed one. *)
Fixpoint changed_each (account_id : Id) (types : list text) (s : TypeStateSnapshot) (later : list TypeStateSnapshot) : list (list text) :=
  match later with
  | [] => []
  | s' :: later =>
      let changed := filter (fun name => is_Some (new_state s s' account_id name)) types in
      (if bool_decide (changed = []) then [] else [changed]) ++ changed_each account_id types s' later
  end.

(** Accounts and their data types stay. *)
Fixpoint counters_stay (account_id : Id) (s : TypeStateSnapshot) (later : list TypeStateSnapshot) : Prop :=
  match later with
  | [] => True
  | s' :: later => snapshot_ok s' /\ (forall name, is_Some (counter s account_id name) -> is_Some (counter s' account_id name)) /\ counters_stay account_id s' later
  end.

Lemma changed_types_ok before after : bt_ok (changed_types before after).
Proof.
  unfold changed_types. generalize (bt_ok_nil (K := text) (V := State)). generalize (@nil (text * State)). induction after as [|e after IH]; intros acc Hacc; [done|].
  cbn [fold_left]. apply IH. destruct (bool_decide _); [done|]. by apply bt_insert_ok.
Qed.

Lemma state_change_since_ok before after change : state_change_since before after = Some change -> state_change_ok change.
Proof.
  unfold state_change_since. case_bool_decide; [done|]. intros [= <-]. apply state_change_new_ok.
  assert (map_ok (map_ok (fun _ : State => True)) (@nil (Id * btmap text State))) as Hnil by (split; constructor). revert Hnil. generalize (@nil (Id * btmap text State)).
  clear. induction after as [|e after IH]; intros acc Hacc; [done|]. cbn [fold_left]. apply IH. destruct (bool_decide _); [done|]. destruct Hacc as [Hok Hin].
  split; [by apply bt_insert_ok|]. apply Forall_forall. intros x [->|Hx]%elem_of_bt_insert; [|rewrite Forall_forall in Hin; auto].
  split; [apply changed_types_ok|]. apply Forall_forall. done.
Qed.

Lemma filter_for_ok change types change' : state_change_ok change -> filter_for change types = Some change' -> state_change_ok change'.
Proof.
  intros Hok. destruct types as [types|]; [|by intros [= <-]]. unfold filter_for. case_bool_decide; [done|]. intros [= <-]. apply state_change_new_ok. split; [apply bt_of_list_ok|].
  apply Forall_forall. intros x Hx%elem_of_bt_of_list. apply list_elem_of_omap in Hx as (e&_&He). case_bool_decide; [done|]. injection He as <-. cbn.
  split; [apply bt_of_list_ok|]. apply Forall_forall. done.
Qed.

(** A subscriber is sent its pushes. *)
Lemma broadcast_sends to_string change s s' :
  broadcast_to to_string change s = Some s' -> sb_open s = true ->
  sb_id s' = sb_id s /\ sb_types s' = sb_types s /\ sb_open s' = true /\ sb_sent s' = sb_sent s ++ (format_state_event to_string <$> option_list (filter_for change (sb_types s))).
Proof.
  unfold broadcast_to. destruct (filter_for change (sb_types s)) as [filtered|]; cbn.
  - intros E Ho. rewrite Ho in E. by injection E as <-.
  - intros [= ->] Ho. by rewrite app_nil_r.
Qed.

Lemma requests_sent to_string s later hub sub :
  sub ∈ hub_subscribers hub -> sb_open sub = true ->
  exists sub', sub' ∈ hub_subscribers (handle_requests to_string s later hub) /\ sb_id sub' = sb_id sub /\
    sb_sent sub' = sb_sent sub ++ (format_state_event to_string <$> pushes (sb_types sub) s later).
Proof.
  revert s hub sub. induction later as [|s' later IH]; intros s hub sub Hin Ho; cbn [handle_requests pushes].
  { exists sub. by rewrite app_nil_r. }
  assert (exists sub1, sub1 ∈ hub_subscribers (push_changes to_string s s' hub) /\ sb_id sub1 = sb_id sub /\ sb_types sub1 = sb_types sub /\ sb_open sub1 = true /\
    sb_sent sub1 = sb_sent sub ++ (format_state_event to_string <$> option_list (push_of (sb_types sub) s s'))) as (sub1&Hin1&Hid&Hty&Ho1&Hs1).
  { unfold push_changes, push_of. destruct (state_change_since s s') as [change|]; cbn [mbind option_bind]; [|exists sub; by rewrite app_nil_r].
    destruct (broadcast_to to_string change sub) as [sub1|] eqn:Eb.
    - destruct (broadcast_sends _ _ _ _ Eb Ho) as (?&?&?&?). exists sub1. split; [|done]. cbn. apply list_elem_of_omap. by exists sub.
    - exfalso. unfold broadcast_to in Eb. rewrite Ho in Eb. by destruct (filter_for change (sb_types sub)). }
  destruct (IH s' _ sub1 Hin1 Ho1) as (sub'&Hin'&Hid'&Hs'). exists sub'. split; [done|]. split; [by rewrite Hid'|]. rewrite Hs', Hs1, Hty, fmap_app. by rewrite app_assoc.
Qed.

Lemma push_told types s s' account_id name :
  snapshot_ok s' -> name ∈ types -> told_by (push_of (Some types) s s') account_id name = new_state s s' account_id name.
Proof.
  intros Hok Hin. rewrite <- (told_since s s' account_id name Hok). unfold push_of. destruct (state_change_since s s') as [change|] eqn:E; cbn [mbind option_bind]; [|done].
  rewrite filter_told by by eapply state_change_since_ok. by rewrite bool_decide_eq_true_2.
Qed.

Lemma told_get change account_id name : told change account_id name = bt_get name (default [] (bt_get account_id (sc_changed change))).
Proof. unfold told. by destruct (bt_get account_id (sc_changed change)). Qed.

(** What the pump remembers is what the server counts. *)
Definition remembers (account_id : Id) (types : list text) (s : TypeStateSnapshot) (last_state : btmap text State) : Prop :=
  forall name, name ∈ types -> bt_get name last_state = None \/ exists n, counter s account_id name = Some n /\ bt_get name last_state = Some (to_dec n).

Lemma unchanged_counter s s' account_id name n :
  new_state s s' account_id name = None -> counter s account_id name = Some n -> is_Some (counter s' account_id name) -> counter s' account_id name = Some n.
Proof. unfold new_state. intros Hn Hc [m Hm]. rewrite Hm in *. cbn in Hn. case_bool_decide as E; [|done]. congruence. Qed.

Lemma news_iff account_id types s s' last_state change name :
  remembers account_id types s last_state -> name ∈ types -> told change account_id name = new_state s s' account_id name ->
  is_news (default [] (bt_get account_id (sc_changed change))) last_state name = true <-> is_Some (new_state s s' account_id name).
Proof.
  intros Hr Hin Ht. rewrite told_get in Ht. unfold is_news. rewrite Ht. destruct (new_state s s' account_id name) as [st|] eqn:En; [|by split; [|intros [? ?]]].
  split; [by eexists|]. intros _. apply negb_true_iff, bool_decide_eq_false_2. unfold new_state in En. destruct (counter s' account_id name) as [m|] eqn:Em; cbn in En; [|done].
  case_bool_decide as Hne; [done|]. injection En as <-. destruct (Hr name Hin) as [->|(n&Hc&->)]; [done|]. intros [= E%to_dec_inj]. congruence.
Qed.

Section pumping.
Context (account_id : Id) (types subscribed : list text).
Hypothesis types_some : types <> [].
Hypothesis types_nodup : NoDup types.
Hypothesis types_subscribed : types ⊆ subscribed.

Definition changed_types_of (s s' : TypeStateSnapshot) : list text := filter (fun name => is_Some (new_state s s' account_id name)) types.

Lemma told_types s s' name :
  snapshot_ok s' -> name ∈ types -> told_by (push_of (Some subscribed) s s') account_id name = new_state s s' account_id name.
Proof using types_subscribed. intros Hok Hin. apply push_told; [done|by apply types_subscribed]. Qed.

(** A request that changed nothing that is watched. *)
Lemma pump_skips s s' last_state :
  snapshot_ok s' -> (forall name, is_Some (counter s account_id name) -> is_Some (counter s' account_id name)) ->
  remembers account_id types s last_state -> push_of (Some subscribed) s s' = None ->
  changed_types_of s s' = [] /\ remembers account_id types s' last_state.
Proof using types_subscribed.
  intros Hok Hkeep Hr Hpush. assert (forall name, name ∈ types -> new_state s s' account_id name = None) as Hnone.
  { intros name Hin. by rewrite <- told_types, Hpush by done. }
  split.
  - apply filter_none. intros name Hin [st Hst]. by rewrite Hnone in Hst.
  - intros name Hin. destruct (Hr name Hin) as [?|(n&Hc&Hl)]; [by left|right]. exists n. split; [|done].
    eapply unchanged_counter; [by apply Hnone|done|apply Hkeep; by eexists].
Qed.

(** A change is taken. *)
Lemma pump_takes s s' last_state change :
  snapshot_ok s' -> (forall name, is_Some (counter s account_id name) -> is_Some (counter s' account_id name)) ->
  remembers account_id types s last_state -> push_of (Some subscribed) s s' = Some change ->
  let '(matched, last_state') := concerns change account_id types last_state in
  matched = changed_types_of s s' /\ remembers account_id types s' last_state'.
Proof using All.
  intros Hok Hkeep Hr Hpush. assert (forall name, name ∈ types -> told change account_id name = new_state s s' account_id name) as Htold.
  { intros name Hin. by rewrite <- told_types, Hpush by done. }
  destruct (concerns_spec change account_id types last_state types_some types_nodup) as [H1 H2]. destruct (concerns change account_id types last_state) as [matched last'].
  cbn [fst snd] in *. split.
  - rewrite H1. apply filter_ext_in. intros name Hin. by apply (news_iff account_id types s s'); [..|apply Htold].
  - intros name Hin. rewrite (H2 name Hin). unfold seen. rewrite <- told_get, (Htold name Hin). destruct (new_state s s' account_id name) as [st|] eqn:En.
    + right. unfold new_state in En. destruct (counter s' account_id name) as [m|]; cbn in En; [|done]. case_bool_decide; [done|]. injection En as <-. by exists m.
    + destruct (Hr name Hin) as [?|(n&Hc&Hl)]; [by left|right]. exists n. split; [|done]. eapply unchanged_counter; [done..|apply Hkeep; by eexists].
Qed.

Lemma pump_tracks s later last_state :
  counters_stay account_id s later -> remembers account_id types s last_state ->
  pump account_id types last_state (pushes (Some subscribed) s later) = changed_each account_id types s later.
Proof using All.
  revert s last_state. induction later as [|s' later IH]; intros s last_state Hstay Hr; [done|].
  destruct Hstay as (Hok&Hkeep&Hstay). cbn [pushes changed_each]. change (filter _ types) with (changed_types_of s s').
  destruct (push_of (Some subscribed) s s') as [change|] eqn:E.
  - pose proof (pump_takes s s' last_state change Hok Hkeep Hr E) as Ht. change (option_list (Some change) ++ ?l) with (change :: l). cbn [pump].
    destruct (concerns change account_id types last_state) as [matched last']. destruct Ht as [-> Hr']. f_equal. by apply IH.
  - destruct (pump_skips s s' last_state Hok Hkeep Hr E) as [-> Hr']. by apply IH.
Qed.
End pumping.

(** C20: A push asks for a refresh exactly when a request changed something that is watched.
    Whatever requests a server handles, the subscriber is sent events from which the pump asks
    once for each request that changed a watched data type of the account, and names exactly
    the types that this request changed. *)
Theorem push_refreshes_exactly to_string account_id types subscribed s later hub sub :
  types <> [] -> NoDup types -> types ⊆ subscribed -> counters_stay account_id s later ->
  sub ∈ hub_subscribers hub -> sb_open sub = true -> sb_types sub = Some subscribed ->
  exists sub' changes, sub' ∈ hub_subscribers (handle_requests to_string s later hub) /\ sb_id sub' = sb_id sub /\
    sb_sent sub' = sb_sent sub ++ (format_state_event to_string <$> changes) /\
    pump account_id types [] changes = changed_each account_id types s later.
Proof.
  intros Hne Hnd Hsub Hstay Hin Ho Hty. destruct (requests_sent to_string s later hub sub Hin Ho) as (sub'&Hin'&Hid&Hs). rewrite Hty in Hs.
  exists sub', (pushes (Some subscribed) s later). split_and!; [done..|]. apply (pump_tracks account_id types subscribed); [done..|]. intros name _. by left.
Qed.

Definition sample_snapshot (email mailbox contact : N) : TypeStateSnapshot :=
  bt_of_list [(lit "A", bt_of_list [(lit "Email", email); (lit "Mailbox", mailbox); (lit "ContactCard", contact)])].

Lemma push_refreshes_exactly_witness :
  exists sub' changes,
    sub' ∈ hub_subscribers (handle_requests (fun _ => []) (sample_snapshot 3 1 0)
      [sample_snapshot 4 1 0; sample_snapshot 4 1 1; sample_snapshot 4 1 1; sample_snapshot 5 2 1] (subscribe (Some watched) {| hub_subscribers := []; hub_next := 0 |}).2) /\
    sb_id sub' = 0 /\ sb_sent sub' = format_state_event (fun _ => []) <$> changes /\
    pump (lit "A") watched [] changes = [[lit "Email"]; [lit "Email"; lit "Mailbox"]].
Proof.
  destruct (push_refreshes_exactly (fun _ => []) (lit "A") watched watched (sample_snapshot 3 1 0)
    [sample_snapshot 4 1 0; sample_snapshot 4 1 1; sample_snapshot 4 1 1; sample_snapshot 5 2 1] (subscribe (Some watched) {| hub_subscribers := []; hub_next := 0 |}).2
    {| sb_id := 0; sb_types := Some watched; sb_sent := []; sb_open := true |}) as (sub'&changes&Hin&Hid&Hs&Hp); try done.
  - by_decide.
  - assert (forall e m c, snapshot_ok (sample_snapshot e m c)) as Hok.
    { intros e m c. split; [apply bt_of_list_ok|]. apply Forall_forall. intros x ->%elem_of_bt_of_list%list_elem_of_singleton. apply bt_of_list_ok. }
    assert (forall e m c e' m' c' name, is_Some (counter (sample_snapshot e m c) (lit "A") name) -> is_Some (counter (sample_snapshot e' m' c') (lit "A") name)) as Hstay.
    { intros e m c e' m' c' name. assert (forall e m c, counter (sample_snapshot e m c) (lit "A") name =
        bt_get name [(lit "ContactCard", c); (lit "Email", e); (lit "Mailbox", m)]) as Hc by (intros; unfold counter; by vm_compute).
      rewrite !Hc. cbn [bt_get]. by repeat case_decide. }
    cbn [counters_stay]. split_and!; by (apply Hok || apply Hstay || done).
  - by left.
  - exists sub', changes. split_and!; [done..|]. by rewrite Hp.
Defined.
