(* ===== verification/PushSignals.v ===== *)
(** What a pass of the refresh worker tells Camel about the folder list (jmap-mail/src/push.rs:
    [refresh_folder_list_if_structural], [announce]), and what a viewer makes of it. *)

From Stdlib Require Import Ascii String.
From stdpp Require Import prelude strings.
From S2P Require Import Prelude BTree Strings Json Proto Path FolderTree FolderForest FolderEdit FolderChange.

Local Open Scope rust_scope.

(** ** Signals *)
Inductive Signal :=
  | FolderCreated (folder : FolderInfo)
  | FolderDeleted (folder : FolderInfo)
  | FolderSubscribed (folder : FolderInfo)
  | FolderUnsubscribed (folder : FolderInfo)
  | FolderInfoStale.

Definition announce_destroyed (folder : FolderInfo) : list Signal :=
  (if fh_subscribed (f_head folder) then [FolderUnsubscribed folder] else []) ++ [FolderDeleted folder].

Definition announce_created (folder : FolderInfo) : list Signal :=
  FolderCreated folder :: if fh_subscribed (f_head folder) then [FolderSubscribed folder] else [].

Definition announce_resubscribed (folder : FolderInfo) : list Signal :=
  if fh_subscribed (f_head folder) then [FolderSubscribed folder] else [FolderUnsubscribed folder].

Definition announce (delta : FolderDelta) : list Signal :=
  (fd_destroyed delta ≫= announce_destroyed) ++ (fd_created delta ≫= announce_created) ++ (fd_resubscribed delta ≫= announce_resubscribed).

Definition signals_for (change : FolderListChange) : list Signal :=
  match change with Same => [] | Delta delta => announce delta | Reshaped => [FolderInfoStale] end.

(** ** Viewers

    A viewer keeps paths. What it adds and what it takes away is said by the signals that it
    looks at: the folder tree has a row per subscribed folder, the store a folder per path. *)
Definition about_row (s : Signal) : option (text * bool) :=
  match s with FolderSubscribed f => Some (f_path f, true) | FolderUnsubscribed f => Some (f_path f, false) | _ => None end.

Definition about_folder (s : Signal) : option (text * bool) :=
  match s with FolderCreated f => Some (f_path f, true) | FolderDeleted f => Some (f_path f, false) | _ => None end.

Definition see (about : Signal -> option (text * bool)) (shown : list text) (s : Signal) : list text :=
  match about s with
  | Some (path, true) => if bool_decide (path ∈ shown) then shown else shown ++ [path]
  | Some (path, false) => filter (fun p => p <> path) shown
  | None => shown
  end.

Definition folder_paths (t : FolderTree) : list text := f_path <$> preorders t.
Definition row_paths (t : FolderTree) : list text := f_path <$> filter (fun f => fh_subscribed (f_head f) = true) (preorders t).

(** What the last signal about a path says. *)
Fixpoint last_about (about : Signal -> option (text * bool)) (path : text) (sigs : list Signal) : option bool :=
  match sigs with
  | [] => None
  | s :: sigs =>
      match last_about about path sigs with
      | Some b => Some b
      | None => match about s with Some (p, b) => if bool_decide (p = path) then Some b else None | None => None end
      end
  end.

Section viewer.
Context (about : Signal -> option (text * bool)).

Lemma see_shown shown s path :
  path ∈ see about shown s <-> match last_about about path [s] with Some b => b = true | None => path ∈ shown end.
Proof.
  unfold see. cbn. destruct (about s) as [[p b]|]; [|done]. destruct (bool_decide_reflect (p = path)) as [E|E].
  - subst p. destruct b; [case_bool_decide; [done|]; split; [done|intros _; apply elem_of_app; right; by left]|]. rewrite list_elem_of_filter. split; [by intros [? _]|done].
  - destruct b; [case_bool_decide; [done|]; rewrite elem_of_app, list_elem_of_singleton; split; [intros [?|?]; [done|congruence]|by left]|].
    rewrite list_elem_of_filter. split; [by intros [_ ?]|intros; split; [congruence|done]].
Qed.

Lemma seen_shown sigs shown path :
  path ∈ fold_left (see about) sigs shown <-> match last_about about path sigs with Some b => b = true | None => path ∈ shown end.
Proof.
  revert shown. induction sigs as [|s sigs IH]; intros shown; [done|]. cbn [fold_left last_about]. rewrite IH. destruct (last_about about path sigs); [done|]. apply see_shown.
Qed.

Lemma see_nodup shown s : NoDup shown -> NoDup (see about shown s).
Proof.
  intros Hn. unfold see. destruct (about s) as [[p []]|]; [|by apply NoDup_filter|done]. case_bool_decide; [done|]. apply NoDup_app. split_and!; [done| |apply NoDup_singleton].
  intros x Hx ->%list_elem_of_singleton. done.
Qed.

Lemma seen_nodup sigs shown : NoDup shown -> NoDup (fold_left (see about) sigs shown).
Proof. revert shown. induction sigs as [|s sigs IH]; intros shown Hn; [done|]. by apply IH, see_nodup. Qed.

Lemma last_about_app path a b :
  last_about about path (a ++ b) = match last_about about path b with Some x => Some x | None => last_about about path a end.
Proof. induction a as [|s a IH]; cbn; [by destruct (last_about about path b)|]. rewrite IH. by destruct (last_about about path b). Qed.

(** Signals of folders, each of which says at most one thing and says it about its own path. *)
Lemma last_about_bind path (tell : FolderInfo -> list Signal) (verdict : FolderInfo -> option bool) folders :
  (forall f, last_about about path (tell f) = if bool_decide (f_path f = path) then verdict f else None) ->
  match last_about about path (folders ≫= tell) with
  | Some b => exists f, f ∈ folders /\ f_path f = path /\ verdict f = Some b
  | None => forall f, f ∈ folders -> f_path f = path -> verdict f = None
  end.
Proof.
  intros Htell. induction folders as [|f folders IH]; [by intros f ?%not_elem_of_nil|]. rewrite bind_cons, last_about_app.
  destruct (last_about about path (folders ≫= tell)) as [b|]; [destruct IH as (g&?&?); exists g; split; [by right|done]|]. rewrite Htell.
  case_bool_decide as E; [destruct (verdict f) eqn:Ev; [exists f; split; [by left|done]|]|]; by intros g [->|Hg]%elem_of_cons; auto.
Qed.
End viewer.

Ltac one_signal := intros f; unfold announce_destroyed, announce_created, announce_resubscribed; destruct (fh_subscribed (f_head f)); cbn; by repeat case_bool_decide.

Lemma last_rows path d :
  match last_about about_row path (announce d) with
  | Some b =>
      (exists f, f ∈ fd_resubscribed d /\ f_path f = path /\ fh_subscribed (f_head f) = b) \/
      (b = true /\ exists f, f ∈ fd_created d /\ f_path f = path /\ fh_subscribed (f_head f) = true) \/
      (b = false /\ (exists f, f ∈ fd_destroyed d /\ f_path f = path) /\
        forall f, f ∈ fd_created d -> f_path f = path -> fh_subscribed (f_head f) = false)
  | None =>
      (forall f, f ∈ fd_resubscribed d -> f_path f <> path) /\
      (forall f, f ∈ fd_created d ++ fd_destroyed d -> f_path f = path -> fh_subscribed (f_head f) = false)
  end.
Proof.
  unfold announce. rewrite !last_about_app.
  pose proof (last_about_bind about_row path announce_resubscribed (fun f => Some (fh_subscribed (f_head f))) (fd_resubscribed d) ltac:(one_signal)) as Hr.
  pose proof (last_about_bind about_row path announce_created (fun f => if fh_subscribed (f_head f) then Some true else None) (fd_created d) ltac:(one_signal)) as Hc.
  pose proof (last_about_bind about_row path announce_destroyed (fun f => if fh_subscribed (f_head f) then Some false else None) (fd_destroyed d) ltac:(one_signal)) as Hd.
  destruct (last_about about_row path (fd_resubscribed d ≫= _)) as [b|]; [left; naive_solver|].
  destruct (last_about about_row path (fd_created d ≫= _)) as [b|].
  { right. left. destruct Hc as (f&?&?&Hv). destruct (fh_subscribed (f_head f)) eqn:E; [|done]. injection Hv as <-. split; [done|]. by exists f. }
  assert (forall f, f ∈ fd_created d -> f_path f = path -> fh_subscribed (f_head f) = false) as Hc'.
  { intros f Hf Hp. specialize (Hc f Hf Hp). by destruct (fh_subscribed (f_head f)). }
  destruct (last_about about_row path (fd_destroyed d ≫= _)) as [b|].
  - right. right. destruct Hd as (f&?&?&Hv). destruct (fh_subscribed (f_head f)); [|done]. injection Hv as <-. split_and!; [done| |done]. by exists f.
  - split; [intros f Hf Hp; by specialize (Hr f Hf Hp)|]. intros f [Hf|Hf]%elem_of_app Hp; [by apply Hc'|]. specialize (Hd f Hf Hp). by destruct (fh_subscribed (f_head f)).
Qed.

Lemma last_folders path d :
  match last_about about_folder path (announce d) with
  | Some b =>
      (b = true /\ exists f, f ∈ fd_created d /\ f_path f = path) \/
      (b = false /\ (exists f, f ∈ fd_destroyed d /\ f_path f = path) /\ forall f, f ∈ fd_created d -> f_path f <> path)
  | None => forall f, f ∈ fd_created d ++ fd_destroyed d -> f_path f <> path
  end.
Proof.
  unfold announce. rewrite !last_about_app.
  pose proof (last_about_bind about_folder path announce_resubscribed (fun f => None) (fd_resubscribed d) ltac:(one_signal)) as Hr.
  pose proof (last_about_bind about_folder path announce_created (fun f => Some true) (fd_created d) ltac:(one_signal)) as Hc.
  pose proof (last_about_bind about_folder path announce_destroyed (fun f => Some false) (fd_destroyed d) ltac:(one_signal)) as Hd.
  destruct (last_about about_folder path (fd_resubscribed d ≫= _)) as [b|]; [naive_solver|].
  destruct (last_about about_folder path (fd_created d ≫= _)) as [b|]; [left; naive_solver|].
  assert (forall f, f ∈ fd_created d -> f_path f <> path) as Hc'. { intros f Hf Hp. by specialize (Hc f Hf Hp). }
  destruct (last_about about_folder path (fd_destroyed d ≫= _)) as [b|]; [right; naive_solver|].
  intros f [Hf|Hf]%elem_of_app Hp; [by eapply Hc'|]. by specialize (Hd f Hf Hp).
Qed.

(** ** The viewer after a new listing *)
Lemma same_path_eq t f g : NoDup (folder_paths t) -> f ∈ preorders t -> g ∈ preorders t -> f_path f = f_path g -> f = g.
Proof. intros Hn Hf Hg. by apply (nodup_fmap_eq f_path (preorders t)). Qed.

Lemma elem_of_row_paths path t : path ∈ row_paths t <-> exists f, f ∈ preorders t /\ f_path f = path /\ fh_subscribed (f_head f) = true.
Proof. unfold row_paths. rewrite list_elem_of_fmap. setoid_rewrite list_elem_of_filter. naive_solver. Qed.

Lemma elem_of_folder_paths path t : path ∈ folder_paths t <-> exists f, f ∈ preorders t /\ f_path f = path.
Proof. unfold folder_paths. rewrite list_elem_of_fmap. naive_solver. Qed.
Section delta.
Context (self after : FolderTree) (before : btmap Id FolderInfo).
Hypothesis Hself : NoDup (folder_paths self).
Hypothesis Hafter : NoDup (folder_paths after).
Hypothesis Hix : indexes before self.
Hypothesis Hstays : Forall (stays_in before) (preorders after).

Abbreviation d := (the_delta self after before) (only parsing).

Lemma destroyed_elem f : f ∈ fd_destroyed d <-> exists g, f = leaf g /\ g ∈ preorders self /\ (f_id g ∉ fh_id <$> heads after).
Proof using Type. cbn. rewrite elem_of_reverse, list_elem_of_fmap. setoid_rewrite list_elem_of_filter. naive_solver. Qed.

Lemma created_elem f : f ∈ fd_created d <-> exists g, f = leaf g /\ g ∈ preorders after /\ (f_id g ∉ fh_id <$> heads self).
Proof using Hix.
  cbn. rewrite list_elem_of_fmap. setoid_rewrite list_elem_of_filter. split; intros (g&->&H1&H2).
  - exists g. split_and!; [done..|]. by apply (fresh_spec self before).
  - exists g. split_and!; [done| |done]. by apply (fresh_spec self before).
Qed.

(** A folder of the new listing is created or was there, at the same path. *)
Lemma after_cases f :
  f ∈ preorders after -> (f_id f ∉ fh_id <$> heads self) \/ exists old, old ∈ preorders self /\ f_id old = f_id f /\ f_path old = f_path f /\ bt_get (f_id f) before = Some old.
Proof using Hix Hstays.
  intros Hf. destruct (bt_get (f_id f) before) as [old|] eqn:E; [right|left; by apply (fresh_spec self before)]. pose proof E as [Hold Hid]%Hix.
  rewrite Forall_forall in Hstays. pose proof (Hstays f Hf old E) as Hp. exists old. split_and!; [done..| |done]. unfold row_place, row in Hp. cbn in Hp. by injection Hp.
Qed.

(** A folder of the old listing is destroyed or is still there, at the same path. *)
Lemma self_cases old :
  old ∈ preorders self -> (f_id old ∉ fh_id <$> heads after) \/ exists f, f ∈ preorders after /\ f_id old = f_id f /\ f_path old = f_path f /\ bt_get (f_id f) before = Some old.
Proof using Hix Hstays.
  intros Hold. destruct (decide (f_id old ∈ fh_id <$> heads after)) as [(f&Hf&Hid)%elem_of_heads_id|]; [right|by left]. exists f.
  assert (bt_get (f_id f) before = Some old) as E by by apply Hix. destruct (after_cases f Hf) as [Hn|(old'&_&_&Hp&E')].
  - exfalso. apply Hn, elem_of_heads_id. eauto.
  - rewrite E in E'. injection E' as <-. done.
Qed.

Lemma rows_follow path :
  match last_about about_row path (announce d) with Some b => b = true | None => path ∈ row_paths self end <-> path ∈ row_paths after.
Proof using Hself Hafter Hix Hstays.
  pose proof (last_rows path d) as Hl. rewrite (elem_of_row_paths path after).
  assert (forall f, f ∈ fd_resubscribed d -> exists g, f = leaf g /\ g ∈ preorders after) as Hresub.
  { intros f. cbn. rewrite list_elem_of_fmap. setoid_rewrite list_elem_of_filter. intros (g&->&_&?). by exists g. }
  assert (forall f old, f ∈ preorders after -> bt_get (f_id f) before = Some old -> (leaf f ∉ fd_resubscribed d) -> fh_subscribed (f_head old) = fh_subscribed (f_head f)) as Hsame.
  { intros f old Hf Hb Hn. apply dec_stable. intros Hs. apply Hn. cbn. apply list_elem_of_fmap_2, list_elem_of_filter. split; [by exists old|done]. }
  destruct (last_about about_row path (announce d)) as [b|].
  - destruct Hl as [(f&Hf&Hp&Hs)|[(->&f&Hf&Hp&Hs)|(->&(f&Hf&Hp)&Hnc)]].
    + destruct (Hresub f Hf) as (g&->&Hg). change (f_path g = path) in Hp. change (fh_subscribed (f_head g) = b) in Hs. subst b. split; [intros; by exists g|].
      intros (h&Hh&Hph&Hsh). assert (h = g) as -> by (apply (same_path_eq after); [done..|congruence]). done.
    + split; [|done]. intros _. apply created_elem in Hf as (g&->&Hg&_). by exists g.
    + split; [done|]. intros (h&Hh&Hph&Hsh). exfalso. apply destroyed_elem in Hf as (g&->&Hg&Hgn). change (f_path g = path) in Hp.
      destruct (after_cases h Hh) as [Hfresh|(old&Hold&Hid&Hpo&_)].
      * assert (leaf h ∈ fd_created d) as Hc by (apply created_elem; by exists h). specialize (Hnc _ Hc Hph). change (fh_subscribed (f_head h) = false) in Hnc. congruence.
      * assert (old = g) as -> by (apply (same_path_eq self); [done..|congruence]). apply Hgn, elem_of_heads_id. by exists h.
  - destruct Hl as [Hnr Hncd]. rewrite elem_of_row_paths. split.
    + intros (old&Hold&Hp&Hs). destruct (self_cases old Hold) as [Hgone|(f&Hf&Hid&Hpf&Hb)].
      * assert (leaf old ∈ fd_created d ++ fd_destroyed d) as Hd by (apply elem_of_app; right; apply destroyed_elem; by exists old).
        specialize (Hncd _ Hd Hp). change (fh_subscribed (f_head old) = false) in Hncd. congruence.
      * exists f. split_and!; [done|congruence|]. rewrite <- (Hsame f old Hf Hb); [done|]. intros Hin. apply (Hnr _ Hin). change (f_path f = path). congruence.
    + intros (f&Hf&Hp&Hs). destruct (after_cases f Hf) as [Hfresh|(old&Hold&Hid&Hpo&Hb)].
      * assert (leaf f ∈ fd_created d ++ fd_destroyed d) as Hc by (apply elem_of_app; left; apply created_elem; by exists f).
        specialize (Hncd _ Hc Hp). change (fh_subscribed (f_head f) = false) in Hncd. congruence.
      * exists old. split_and!; [done|congruence|]. rewrite (Hsame f old Hf Hb); [done|]. intros Hin. by apply (Hnr _ Hin).
Qed.

Lemma folders_follow path :
  match last_about about_folder path (announce d) with Some b => b = true | None => path ∈ folder_paths self end <-> path ∈ folder_paths after.
Proof using Hself Hafter Hix Hstays.
  pose proof (last_folders path d) as Hl. rewrite (elem_of_folder_paths path after).
  destruct (last_about about_folder path (announce d)) as [b|].
  - destruct Hl as [(->&f&Hf&Hp)|(->&(f&Hf&Hp)&Hnc)].
    + split; [|done]. intros _. apply created_elem in Hf as (g&->&Hg&_). by exists g.
    + split; [done|]. intros (h&Hh&Hph). exfalso. apply destroyed_elem in Hf as (g&->&Hg&Hgn). change (f_path g = path) in Hp.
      destruct (after_cases h Hh) as [Hfresh|(old&Hold&Hid&Hpo&_)].
      * by apply (Hnc (leaf h)); [apply created_elem; exists h|].
      * assert (old = g) as -> by (apply (same_path_eq self); [done..|congruence]). apply Hgn, elem_of_heads_id. by exists h.
  - rewrite elem_of_folder_paths. split.
    + intros (old&Hold&Hp). destruct (self_cases old Hold) as [Hgone|(f&Hf&Hid&Hpf&_)]; [|exists f; split; [done|congruence]].
      exfalso. apply (Hl (leaf old)); [|done]. apply elem_of_app. right. apply destroyed_elem. by exists old.
    + intros (f&Hf&Hp). destruct (after_cases f Hf) as [Hfresh|(old&Hold&Hid&Hpo&_)]; [|exists old; split; [done|congruence]].
      exfalso. apply (Hl (leaf f)); [|done]. apply elem_of_app. left. apply created_elem. by exists f.
Qed.
End delta.

(** ** The signals of a pass *)
Definition tree_names (t : FolderTree) : Prop := NoDup (fh_id <$> heads t) /\ NoDup (folder_paths t).

Lemma row_paths_nodup t : NoDup (folder_paths t) -> NoDup (row_paths t).
Proof. intros Hn. eapply sublist_NoDup; [exact Hn|]. apply fmap_sublist, sublist_filter. Qed.

Lemma same_rows_paths a b : rows a ≡ₚ rows b -> row_paths a ≡ₚ row_paths b /\ folder_paths a ≡ₚ folder_paths b.
Proof.
  intros Hr. rewrite !rows_preorders in Hr.
  assert (forall t, folder_paths t = (fun r : Row => r.1.1.1.2) <$> (row <$> preorders t)) as Hf by (intros t; unfold folder_paths; by rewrite <- list_fmap_compose).
  assert (forall t, row_paths t = (fun r : Row => r.1.1.1.2) <$> filter (fun r : Row => r.2 = true) (row <$> preorders t)) as Hp.
  { intros t. unfold row_paths. rewrite filter_fmap, <- list_fmap_compose. done. }
  rewrite !Hf, !Hp. split; by rewrite Hr.
Qed.

(** A viewer that had the old listing has the new one, or is told to load it again. *)
Lemma signals_follow self after shown folders :
  tree_names self -> tree_names after -> shown ≡ₚ row_paths self -> folders ≡ₚ folder_paths self ->
  signals_for (change_to self after) = [FolderInfoStale] \/
  (fold_left (see about_row) (signals_for (change_to self after)) shown ≡ₚ row_paths after /\
   fold_left (see about_folder) (signals_for (change_to self after)) folders ≡ₚ folder_paths after).
Proof.
  intros [Hsi Hsp] [Hai Hap] Hshown Hfolders. rewrite (change_to_cases self after Hsi Hai). set (before := bt_of_list _).
  pose proof (before_indexes self Hsi : indexes before self) as Hix.
  destruct (same_shape self after) eqn:Es.
  { right. cbn. destruct (same_rows_paths self after) as [H1 H2]; [by rewrite (same_shape_rows _ _ Es)|]. by rewrite Hshown, Hfolders. }
  case_decide as Hstays; [|by left]. case_decide; [by left|]. right. cbn [signals_for]. split; apply NoDup_Permutation.
  - apply seen_nodup. rewrite Hshown. by apply row_paths_nodup.
  - by apply row_paths_nodup.
  - intros path. rewrite seen_shown, <- (rows_follow self after before Hsp Hap Hix Hstays path). destruct (last_about _ _ _); [done|]. by rewrite Hshown.
  - apply seen_nodup. by rewrite Hfolders.
  - done.
  - intros path. rewrite seen_shown, <- (folders_follow self after before Hsp Hap Hix Hstays path). destruct (last_about _ _ _); [done|]. by rewrite Hfolders.
Qed.
