(* ===== verification/PushConverges.v ===== *)
(** From a change that another client makes on the mock server to the folder list that the mail
    store holds and its viewers show: the server's push, the pump, the refresh worker, the
    refresh of the listing and the folder signals, each at its own time. *)

From Stdlib Require Import Ascii String.
From stdpp Require Import prelude strings gmap.
From S2P Require Import Prelude BTree Text Strings Json Wire Proto Email MailboxWire Store SetOps Patch SetMethod MockMail MockMailSet MockMailbox MailboxForest Path FolderTree FolderForest FolderEdit FolderBuild FolderListing MailboxListing FolderChange Session Changes ChangesSync SetChunk SetSend FolderShared FolderView FolderFollow MockQuery MailListing MockClient MockReader MailFolders FolderDisk FolderStore FolderServer FolderKept FolderRefresh FolderRaces PushProto MockPush PushRefresh PushPump PushSignals.

Local Open Scope rust_scope.

(** ** The counters of the server *)

(** The counters of the stores of an account that are not mail. *)
Record OtherCounters := {
  oc_contact_cards : N; oc_address_books : N; oc_calendars : N; oc_calendar_events : N;
  oc_task_lists : N; oc_tasks : N; oc_calendar_event_notifications : N; oc_vacation_response : N;
}.

Definition account_type_states (account : AccountState) (others : OtherCounters) : btmap text N :=
  bt_of_list
    [(lit "Mailbox", store_state_counter (ma_mailboxes account));
     (lit "Email", store_state_counter (ma_emails account));
     (lit "Thread", store_state_counter (ma_threads account));
     (lit "ContactCard", oc_contact_cards others);
     (lit "AddressBook", oc_address_books others);
     (lit "Calendar", oc_calendars others);
     (lit "CalendarEvent", oc_calendar_events others);
     (lit "TaskList", oc_task_lists others);
     (lit "Task", oc_tasks others);
     (lit "ShareNotification", store_state_counter (ma_share_notifications account));
     (lit "CalendarEventNotification", oc_calendar_event_notifications others);
     (lit "VacationResponse", oc_vacation_response others)].

Definition type_state_snapshot (s : ServerState) (others : Id -> OtherCounters) : TypeStateSnapshot :=
  bt_of_list ((fun e => (e.1, account_type_states e.2 (others e.1))) <$> sv_accounts s).

Lemma account_type_states_get a others name :
  bt_get name (account_type_states a others) = bt_get name
    [(lit "Mailbox", st_state (ma_mailboxes a)); (lit "Email", st_state (ma_emails a)); (lit "Thread", st_state (ma_threads a));
     (lit "ContactCard", oc_contact_cards others); (lit "AddressBook", oc_address_books others); (lit "Calendar", oc_calendars others);
     (lit "CalendarEvent", oc_calendar_events others); (lit "TaskList", oc_task_lists others); (lit "Task", oc_tasks others);
     (lit "ShareNotification", st_state (ma_share_notifications a)); (lit "CalendarEventNotification", oc_calendar_event_notifications others);
     (lit "VacationResponse", oc_vacation_response others)].
Proof. unfold account_type_states. apply bt_get_of_list_nodup. by_decide. Qed.

Lemma snapshot_counter s others account_id a name :
  bt_ok (sv_accounts s) -> bt_get account_id (sv_accounts s) = Some a ->
  counter (type_state_snapshot s others) account_id name = bt_get name (account_type_states a (others account_id)).
Proof.
  intros Hok Ha. unfold counter, type_state_snapshot. rewrite bt_get_of_list_nodup.
  - set (l := sv_accounts s) in *. assert (bt_get account_id ((fun e => (e.1, account_type_states e.2 (others e.1))) <$> l) = Some (account_type_states a (others account_id))) as ->; [|done].
    clearbody l. clear Hok. induction l as [|[k x] l IH]; [done|]. cbn [fmap list_fmap bt_get fst snd] in *. case_decide; [subst k; by injection Ha as ->|by apply IH].
  - rewrite <- list_fmap_compose. by apply bt_ok_nodup.
Qed.

Lemma snapshot_is_ok s others : snapshot_ok (type_state_snapshot s others).
Proof.
  split; [apply bt_of_list_ok|]. apply Forall_forall. intros x Hx%elem_of_bt_of_list. apply list_elem_of_fmap in Hx as (e&->&_). apply bt_of_list_ok.
Qed.

Lemma snapshot_keeps s others s' others' account_id a a' name :
  bt_ok (sv_accounts s) -> bt_get account_id (sv_accounts s) = Some a -> bt_ok (sv_accounts s') -> bt_get account_id (sv_accounts s') = Some a' ->
  is_Some (counter (type_state_snapshot s others) account_id name) -> is_Some (counter (type_state_snapshot s' others') account_id name).
Proof.
  intros Hok Ha Hok' Ha'. rewrite (snapshot_counter s others _ a), (snapshot_counter s' others' _ a'), !account_type_states_get by done. cbn [bt_get]. by repeat case_decide.
Qed.

Lemma snapshot_mailboxes s others account_id a :
  bt_ok (sv_accounts s) -> bt_get account_id (sv_accounts s) = Some a -> counter (type_state_snapshot s others) account_id (lit "Mailbox") = Some (st_state (ma_mailboxes a)).
Proof. intros Hok Ha. by rewrite (snapshot_counter s others _ a), account_type_states_get. Qed.

(** ** The pass that is still to come *)
(** A folder list pass is asked for, or runs and did not fetch the list yet. *)
Definition pass_to_come (f : Refresher) : Prop := exists w, wk_check_folder_list w = true /\ (w ∈ to_start f \/ Passing w ∈ rf_workers f).

Lemma requested_pass work f : wk_check_folder_list work = true -> pass_to_come (request_with work f).
Proof.
  intros Hw. unfold request_with. destruct (work_is_empty work) eqn:E; [destruct work as [[] []]; done|]. unfold pass_to_come, to_start. destruct (ru_running (rf_runs f)); cbn.
  - exists (work_union (ru_pending (rf_runs f)) work). cbn. rewrite Hw, orb_true_r. split; [done|]. left. rewrite !elem_of_app. right. right. by left.
  - exists work. split; [done|]. left. rewrite !elem_of_app. left. right. by left.
Qed.

Lemma request_keeps_pass work f : pass_to_come f -> pass_to_come (request_with work f).
Proof.
  intros (w&Hw&Hin). unfold request_with. destruct (work_is_empty work); [by exists w|]. unfold pass_to_come, to_start in *. destruct (ru_running (rf_runs f)); cbn.
  - destruct Hin as [Hin|Hin]; [|by exists w; split; [|right]]. rewrite !elem_of_app in Hin. destruct Hin as [Hin|[Hin|Hin]].
    + exists w. split; [done|]. left. rewrite !elem_of_app. by left.
    + exists w. split; [done|]. left. rewrite !elem_of_app. by right; left.
    + apply list_elem_of_singleton in Hin as ->. exists (work_union (ru_pending (rf_runs f)) work). cbn. rewrite Hw. split; [done|]. left. rewrite !elem_of_app. right. right. by left.
  - exists w. split; [done|]. rewrite !elem_of_app in *. tauto.
Qed.

Lemma request_history work f h : h ∈ rf_history f -> h ∈ rf_history (request_with work f).
Proof. intros Hin. unfold request_with. destruct (work_is_empty work); [done|]. destruct (ru_running (rf_runs f)); by right. Qed.

Lemma dispatch_request types f : dispatch types f = request_with (dispatch_work types) f.
Proof. unfold dispatch. destruct (work_is_empty (dispatch_work types)) eqn:E; [|done]. unfold request_with. by rewrite E. Qed.

Lemma dispatch_mailboxes types : lit "Mailbox" ∈ types -> wk_check_folder_list (dispatch_work types) = true.
Proof. intros Hin. cbn. apply existsb_exists. exists (lit "Mailbox"). split; [by apply list_elem_of_In|]. by_decide. Qed.

(** The pass that a worker's turn is the end of. *)
Definition pass_of (t : Turn) (f : Refresher) : Work :=
  match t with
  | Work_on i _ => match rf_workers f !! i with Some (Passing work) => work | _ => no_work end
  | _ => no_work
  end.

Lemma turn_history t f f' h : refresher_turn t f = Some f' -> h ∈ rf_history f -> h ∈ rf_history f'.
Proof.
  destruct t as [work|i|i|i there]; cbn [refresher_turn]; intros Ht Hin.
  - injection Ht as <-. by apply request_history.
  - apply bind_Some in Ht as (w&_&[= <-]). done.
  - apply bind_Some in Ht as (w&_&[= <-]). by right.
  - apply bind_Some in Ht as (x&_&Ht). destruct x as [w|w|]; cbn in Ht.
    + destruct there; injection Ht as <-; by right.
    + by injection Ht as <-.
    + destruct (work_is_empty (ru_pending (rf_runs f))); cbn in Ht; by injection Ht as <-.
Qed.

Lemma turn_keeps_pass t f f' :
  refresher_ok f -> refresher_turn t f = Some f' -> pass_to_come f ->
  Dropped ∈ rf_history f' \/ pass_to_come f' \/ wk_check_folder_list (pass_of t f) = true.
Proof.
  intros Hok Ht (w&Hw&Hin). destruct t as [work|i|i|i there]; cbn [refresher_turn pass_of] in *.
  { injection Ht as <-. right. left. apply request_keeps_pass. by exists w. }
  all: apply bind_Some in Ht as (x&Hx&Ht).
  - injection Ht as <-. right. left. exists w. split; [done|]. unfold to_start in *. cbn. destruct Hin as [Hin|Hin]; [left|right; apply elem_of_app; by left].
    destruct (thread_cases f Hok) as [(_&Hs&_)|[(_&[w0 Hs]&Hws)|(_&Hs&_)]]; rewrite Hs in Hx; [done| |done]. destruct i as [|i]; [|done]. injection Hx as ->.
    rewrite Hs, Hws in *. exact Hin.
  - injection Ht as <-. left. by left.
  - destruct (thread_cases f Hok) as [(_&_&Hws&_)|[(_&_&Hws)|(_&Hs&[y Hws])]]; rewrite Hws in Hx; [done|done|]. destruct i as [|i]; [|done]. injection Hx as ->.
    unfold pass_to_come, to_start in *. rewrite Hs, Hws in *. destruct x as [work|work|].
    + destruct there; injection Ht as <-; [|left; by left]. right. left. exists w. split; [done|]. cbn in *. destruct Hin as [[->|Hin]%elem_of_cons|Hin%list_elem_of_singleton]; [right; by left|by left|done].
    + cbn in Hin |- *. destruct Hin as [Hin|Hin%list_elem_of_singleton]; [|right; right; congruence]. injection Ht as <-. right. left. exists w. split; [done|]. by left.
    + cbn in Hin. destruct Hin as [Hin%list_elem_of_singleton|Hin%list_elem_of_singleton]; [|done]. subst w. destruct (work_is_empty (ru_pending (rf_runs f))) eqn:E.
      { destruct (ru_pending (rf_runs f)) as [[] []]; done. }
      injection Ht as <-. right. left. exists (ru_pending (rf_runs f)). split; [done|]. left. by left.
Qed.

(** ** Whose turn it is *)
Section system.
Variable serde_error : Value -> text.
Variable to_value : Mailbox -> result Value Error.
Variable hash_order : gset text -> list text.
Variable limit : option nat.
Variable id_budget : IdBudget.
Variable changes_to_value : ChangesResponse -> Value.
Variable changes_from_value : Value -> result ChangesResponse text.
Hypothesis serde_roundtrip : forall r, changes_from_value (changes_to_value r) = Ok r.
Variable to_lowercase : text -> text.
Context {File : Type} (to_string : Value -> File) (from_str : File -> option Value) (replace_file : option File -> File -> option File).
Variable refresh_credentials : ServerState -> ServerState * bool.
Hypothesis refresh_keeps : forall s, (refresh_credentials s).1 = s.
Variable account_id : Id.

#[local] Instance push_client : FolderClient ServerState :=
  mock_folders serde_error to_value hash_order limit id_budget changes_to_value changes_from_value.

(** What a viewer of the folder list keeps: the rows of the subscribed folders and all folders.
    [None] is a viewer that was told to load the list again. *)
Abbreviation Viewer := (option (list text * list text)) (only parsing).

(** The server; the changes that were pushed to this account's subscription and not taken by
    the pump yet; the pump's memory; the refresh worker; the mail store; a viewer. *)
Record System := {
  sy_server : ServerState;
  sy_others : Id -> OtherCounters;
  sy_pipe : list StateChange;
  sy_last_state : btmap text State;
  sy_refresher : Refresher;
  sy_store : JmapStore File;
  sy_viewer : Viewer;
}.

Definition snapshot (y : System) : TypeStateSnapshot := type_state_snapshot (sy_server y) (sy_others y).

(** The subscription of the mail store. *)
Definition subscribed : list text := bs_of_list watched.

(** The folder list half of a pass, and the signals that it sends. *)
Definition folder_list_pass (work : Work) (st : JmapStore File) (s : ServerState) : JmapStore File * ServerState * list Signal :=
  if wk_check_folder_list work then
    let '(st, s, change) := pushed_folder_list_change to_lowercase refresh_credentials to_string from_str replace_file st s in
    (st, s, signals_for change)
  else (st, s, []).

Definition view_signals (v : Viewer) (sigs : list Signal) : Viewer :=
  match v with
  | Some (rows, folders) =>
      if existsb (fun s => match s with FolderInfoStale => true | _ => false end) sigs then None
      else Some (fold_left (see about_row) sigs rows, fold_left (see about_folder) sigs folders)
  | None => None
  end.

Definition pump_turn (y : System) : option System :=
  match sy_pipe y with
  | [] => None
  | change :: pipe =>
      let '(matched, last_state) := concerns change account_id watched (sy_last_state y) in
      Some {| sy_server := sy_server y; sy_others := sy_others y; sy_pipe := pipe; sy_last_state := last_state;
              sy_refresher := if bool_decide (matched = []) then sy_refresher y else dispatch matched (sy_refresher y);
              sy_store := sy_store y; sy_viewer := sy_viewer y |}
  end.

Definition worker_turns (t : Turn) (y : System) : option System :=
  let! f := refresher_turn t (sy_refresher y) in
  let '(st, s, sigs) := folder_list_pass (pass_of t (sy_refresher y)) (sy_store y) (sy_server y) in
  Some {| sy_server := s; sy_others := sy_others y; sy_pipe := sy_pipe y; sy_last_state := sy_last_state y;
          sy_refresher := f; sy_store := st; sy_viewer := view_signals (sy_viewer y) sigs |}.

(** The viewer loads the list again. *)
Definition viewer_turn (y : System) : System :=
  {| sy_server := sy_server y; sy_others := sy_others y; sy_pipe := sy_pipe y; sy_last_state := sy_last_state y; sy_refresher := sy_refresher y;
     sy_store := sy_store y; sy_viewer := (fun tree => (row_paths tree, folder_paths tree)) <$> held_folders (sy_store y) |}.

(** Another client's request ends. *)
Definition served (s' : ServerState) (others' : Id -> OtherCounters) (y : System) : System :=
  {| sy_server := s'; sy_others := others';
     sy_pipe := sy_pipe y ++ option_list (push_of (Some subscribed) (snapshot y) (type_state_snapshot s' others'));
     sy_last_state := sy_last_state y; sy_refresher := sy_refresher y; sy_store := sy_store y; sy_viewer := sy_viewer y |}.

(** Requests of other clients change the account, which stays one that a folder list can show. *)
Definition others_change (s s' : ServerState) : Prop :=
  bt_ok (sv_accounts s') /\ sv_changes_never_terminates s' = false /\
  exists a a', bt_get account_id (sv_accounts s) = Some a /\ bt_get account_id (sv_accounts s') = Some a' /\
    rtc store_step (ma_mailboxes a) (ma_mailboxes a') /\ mail_account_ok a' /\ presentable a'.

(** What changed since the held listing is not more than one refresh fetches. *)
Definition in_reach (st : JmapStore File) (s : ServerState) : Prop :=
  forall l a n, js_folders st = Some l -> bt_get account_id (sv_accounts s) = Some a -> lg_state l = to_dec n ->
    (st_state (ma_mailboxes a) < n + N.of_nat MAX_CHANGES_PAGES)%N /\ budget_fits id_budget (ma_mailboxes a) n.

(** The turns of the client, and all turns. *)
Inductive client_step (y : System) : System -> Prop :=
  | Step_pump y' : pump_turn y = Some y' -> client_step y y'
  | Step_worker t y' : worker_turns t y = Some y' -> client_step y y'
  | Step_viewer : client_step y (viewer_turn y).

Inductive system_step (y : System) : System -> Prop :=
  | Step_others s' others' : others_change (sy_server y) s' -> in_reach (sy_store y) s' -> system_step y (served s' others' y)
  | Step_client y' : client_step y y' -> system_step y y'.

(** ** The invariant *)
Fixpoint latest (s : TypeStateSnapshot) (later : list TypeStateSnapshot) : TypeStateSnapshot :=
  match later with [] => s | s' :: later => latest s' later end.

Definition tells_mailboxes (seen : TypeStateSnapshot) (later : list TypeStateSnapshot) : Prop :=
  exists types, types ∈ changed_each account_id watched seen later /\ lit "Mailbox" ∈ types.

Definition shown_by (v : Viewer) (tree : FolderTree) : Prop :=
  match v with Some (rows, folders) => rows ≡ₚ row_paths tree /\ folders ≡ₚ folder_paths tree | None => True end.

(** [a] is the account now, [a0] the account that the held listing [l] shows, and the pump took
    the changes up to [seen]. *)
Record follows (y : System) (a a0 : AccountState) (l : Listing) (seen : TypeStateSnapshot) (later : list TypeStateSnapshot) : Prop := {
  fo_accounts : bt_ok (sv_accounts (sy_server y));
  fo_account : bt_get account_id (sv_accounts (sy_server y)) = Some a;
  fo_ok : mail_account_ok a;
  fo_presentable : presentable a;
  fo_terminates : sv_changes_never_terminates (sy_server y) = false;
  fo_wf : store_wf (ma_mailboxes a0);
  fo_steps : rtc store_step (ma_mailboxes a0) (ma_mailboxes a);
  fo_connection : js_connection (sy_store y) = Some account_id;
  fo_listing : js_folders (sy_store y) = Some l;
  fo_state : lg_state l = store_state (ma_mailboxes a0);
  fo_shows : shows_folders (listed a0) (lg_tree l);
  fo_reach : in_reach (sy_store y) (sy_server y);
  fo_pipe : sy_pipe y = pushes (Some subscribed) seen later;
  fo_stay : counters_stay account_id seen later;
  fo_latest : latest seen later = snapshot y;
  fo_remembers : remembers account_id watched seen (sy_last_state y);
  fo_refresher : refresher_ok (sy_refresher y);
  fo_viewer : shown_by (sy_viewer y) (lg_tree l);
  fo_stale : st_state (ma_mailboxes a0) <> st_state (ma_mailboxes a) ->
    Dropped ∈ rf_history (sy_refresher y) \/ tells_mailboxes seen later \/ pass_to_come (sy_refresher y);
}.

Lemma watched_subscribed : watched ⊆ subscribed.
Proof using Type. intros name Hin. apply bs_contains_true. unfold subscribed. by apply bs_of_list_contains. Qed.

Lemma watched_nodup : NoDup watched.
Proof using Type. by_decide. Qed.

Lemma pushes_app types s later s' : pushes types s (later ++ [s']) = pushes types s later ++ option_list (push_of types (latest s later) s').
Proof using Type. revert s. induction later as [|s1 later IH]; intros s; cbn [pushes latest app]; [by rewrite app_nil_r|]. by rewrite IH, app_assoc. Qed.

Lemma changed_each_app types s later s' :
  changed_each account_id types s (later ++ [s']) = changed_each account_id types s later ++ changed_each account_id types (latest s later) [s'].
Proof using Type. revert s. induction later as [|s1 later IH]; intros s; [done|]. cbn [changed_each latest app] in *. by rewrite IH, app_assoc. Qed.

Lemma counters_stay_app s later s' :
  counters_stay account_id s later -> snapshot_ok s' ->
  (forall name, is_Some (counter (latest s later) account_id name) -> is_Some (counter s' account_id name)) -> counters_stay account_id s (later ++ [s']).
Proof using Type. revert s. induction later as [|s1 later IH]; intros s; cbn [counters_stay latest app]; [done|]. intros (?&?&?) ? ?. split_and!; [done..|]. by apply IH. Qed.

Lemma latest_app s later s' : latest s (later ++ [s']) = s'.
Proof using Type. revert s. induction later as [|s1 later IH]; intros s; [done|]. apply IH. Qed.

(** Another client's request. *)
Lemma served_follows y a a0 l seen later s' others' :
  follows y a a0 l seen later -> others_change (sy_server y) s' -> in_reach (sy_store y) s' ->
  exists a' later', follows (served s' others' y) a' a0 l seen later'.
Proof using Type.
  intros [] (Hacc'&Hterm'&a1&a'&Ha1&Ha'&Hsteps'&Hok'&Hp') Hreach. rewrite fo_account0 in Ha1. injection Ha1 as <-.
  exists a', (later ++ [type_state_snapshot s' others']). split; cbn [served sy_server sy_others sy_pipe sy_last_state sy_refresher sy_store sy_viewer]; try done.
  - by etransitivity.
  - by rewrite pushes_app, fo_pipe0, fo_latest0.
  - apply counters_stay_app; [done|apply snapshot_is_ok|]. rewrite fo_latest0. intros name. by eapply snapshot_keeps.
  - by rewrite latest_app.
  - intros Hne. destruct (decide (st_state (ma_mailboxes a) = st_state (ma_mailboxes a'))) as [E|E].
    + destruct fo_stale0 as [?|[(types&Hin&Hm)|?]]; [by rewrite E|by left| |by right; right]. right. left. exists types. split; [|done]. rewrite changed_each_app. apply elem_of_app. by left.
    + right. left. assert (is_Some (new_state (snapshot y) (type_state_snapshot s' others') account_id (lit "Mailbox"))) as Hnew.
      { unfold new_state. rewrite (snapshot_mailboxes s' others' _ a') by done. cbn. unfold snapshot. rewrite (snapshot_mailboxes _ _ _ a) by done.
        rewrite bool_decide_eq_false_2 by congruence. by eexists. }
      assert (lit "Mailbox" ∈ filter (fun name => is_Some (new_state (snapshot y) (type_state_snapshot s' others') account_id name)) watched) as Hin.
      { apply list_elem_of_filter. split; [done|]. by_decide. }
      eexists. split; [|exact Hin]. rewrite changed_each_app, fo_latest0. apply elem_of_app. right. cbn [changed_each]. rewrite app_nil_r.
      rewrite bool_decide_eq_false_2; [by left|]. intros E'. rewrite E' in Hin. by apply not_elem_of_nil in Hin.
Qed.

(** The pump takes a change. *)
Lemma pump_advances seen later last_state change pipe :
  counters_stay account_id seen later -> remembers account_id watched seen last_state -> pushes (Some subscribed) seen later = change :: pipe ->
  exists s' later', pipe = pushes (Some subscribed) s' later' /\ counters_stay account_id s' later' /\ latest seen later = latest s' later' /\
    let '(matched, last_state') := concerns change account_id watched last_state in
    remembers account_id watched s' last_state' /\
    changed_each account_id watched seen later = (if bool_decide (matched = []) then [] else [matched]) ++ changed_each account_id watched s' later'.
Proof using Type.
  revert seen. induction later as [|s1 later IH]; intros seen Hstay Hr Hp; [done|]. destruct Hstay as (Hok&Hkeep&Hstay). cbn [pushes] in Hp.
  cbn [changed_each latest]. change (filter _ watched) with (changed_types_of account_id watched seen s1).
  destruct (push_of (Some subscribed) seen s1) as [c|] eqn:E.
  - injection Hp as -> <-. exists s1, later. split_and!; [done..|].
    pose proof (pump_takes account_id watched subscribed ltac:(done) watched_nodup watched_subscribed seen s1 last_state change Hok Hkeep Hr E) as Ht.
    destruct (concerns change account_id watched last_state) as [matched last']. destruct Ht as [-> Hr']. done.
  - destruct (pump_skips account_id watched subscribed watched_subscribed seen s1 last_state Hok Hkeep Hr E) as [-> Hr']. by apply IH.
Qed.

Lemma pump_follows y y' a a0 l seen later :
  follows y a a0 l seen later -> pump_turn y = Some y' -> exists seen' later', follows y' a a0 l seen' later'.
Proof using Type.
  intros [] Hy. unfold pump_turn in Hy. destruct (sy_pipe y) as [|change pipe] eqn:Ep; [done|].
  destruct (pump_advances seen later (sy_last_state y) change pipe fo_stay0 fo_remembers0 ltac:(by rewrite <- fo_pipe0)) as (s'&later'&Hpipe&Hstay&Hlatest&Hc).
  destruct (concerns change account_id watched (sy_last_state y)) as [matched last']. destruct Hc as [Hr Hch]. injection Hy as <-. exists s', later'.
  set (f' := if bool_decide (matched = []) then sy_refresher y else dispatch matched (sy_refresher y)).
  assert (refresher_ok f' /\ (Dropped ∈ rf_history (sy_refresher y) -> Dropped ∈ rf_history f') /\ (pass_to_come (sy_refresher y) -> pass_to_come f') /\
    (lit "Mailbox" ∈ matched -> pass_to_come f')) as (Hok'&Hd'&Hp'&Hm').
  { unfold f'. rewrite dispatch_request. case_bool_decide as E; [split_and!; [done..|]; rewrite E; by intros ?%not_elem_of_nil|]. split_and!.
    - by apply request_ok.
    - apply request_history.
    - apply request_keeps_pass.
    - intros Hin. by apply requested_pass, dispatch_mailboxes. }
  split; cbn [sy_server sy_others sy_pipe sy_last_state sy_refresher sy_store sy_viewer]; try done.
  - by rewrite <- Hlatest.
  - intros Hne. destruct (fo_stale0 Hne) as [?|[(types&Hin&Hm)|?]]; [by left; apply Hd'| |by right; right; apply Hp'].
    right. rewrite Hch in Hin. apply elem_of_app in Hin as [Hin|Hin]; [right|left; by exists types].
    destruct (bool_decide (matched = [])); [by apply not_elem_of_nil in Hin|]. apply list_elem_of_singleton in Hin as ->. by apply Hm'.
Qed.

Lemma shown_names tree roots : shows_folders tree roots -> tree_names roots.
Proof using Type.
  intros (tree0&[Hok _]&_). pose proof (tree_ok_paths _ Hok) as Hp. destruct Hok as [_ Hn]. split; [done|].
  unfold folder_paths. unfold heads in Hp. by rewrite <- list_fmap_compose in Hp.
Qed.

Lemma own_state_reach a : store_wf (ma_mailboxes a) ->
  (st_state (ma_mailboxes a) < st_state (ma_mailboxes a) + N.of_nat MAX_CHANGES_PAGES)%N /\ budget_fits id_budget (ma_mailboxes a) (st_state (ma_mailboxes a)).
Proof using Type. intros Hwf. split; [unfold MAX_CHANGES_PAGES; lia|]. unfold budget_fits, ChangesSync.logged. rewrite changes_since_state by done. cbn. lia. Qed.

(** A folder list pass. *)
Lemma pass_shows y a a0 l seen later work :
  follows y a a0 l seen later -> wk_check_folder_list work = true ->
  exists st' l' sigs, folder_list_pass work (sy_store y) (sy_server y) = (st', sy_server y, sigs) /\
    js_connection st' = Some account_id /\ js_folders st' = Some l' /\ lg_state l' = store_state (ma_mailboxes a) /\
    shows_folders (listed a) (lg_tree l') /\ shown_by (view_signals (sy_viewer y) sigs) (lg_tree l').
Proof using serde_roundtrip refresh_keeps.
  intros [] Hw. destruct (fo_reach0 l a (st_state (ma_mailboxes a0)) fo_listing0 fo_account0 fo_state0) as [Hpages Hfit].
  destruct (refresh_shows_now serde_error to_value hash_order limit id_budget changes_to_value changes_from_value serde_roundtrip to_lowercase to_string from_str replace_file
    refresh_credentials refresh_keeps account_id (sy_store y) (sy_server y) a a0 l) as (st'&tree&generation&Hf&Hl'&Hs'&Hc'); [done..|].
  unfold folder_list_pass. rewrite Hw. unfold pushed_folder_list_change, held_folders. rewrite fo_listing0. cbn [fmap option_fmap option_map].
  change (@push_client) with (@refresh_client serde_error to_value hash_order limit id_budget changes_to_value changes_from_value). rewrite Hf.
  eexists st', _, _. split_and!; [done|done|exact Hl'|done|done|]. cbn [lg_tree]. unfold view_signals. destruct (sy_viewer y) as [[rows folders]|]; [|done].
  destruct fo_viewer0 as [Hrows Hfolders]. destruct (signals_follow (lg_tree l) tree rows folders) as [->|Hsig]; [by eapply shown_names|by eapply shown_names|done|done|done|].
  by destruct (existsb _ _).
Qed.

Lemma worker_follows t y y' a a0 l seen later :
  follows y a a0 l seen later -> worker_turns t y = Some y' -> exists a0' l', follows y' a a0' l' seen later.
Proof using serde_roundtrip refresh_keeps.
  intros Hfo (f&Ht&Hy)%bind_Some. destruct (wk_check_folder_list (pass_of t (sy_refresher y))) eqn:Hw.
  - destruct (pass_shows y a a0 l seen later _ Hfo Hw) as (st'&l'&sigs&Hp&Hc&Hl&Hst&Hs&Hv). rewrite Hp in Hy. injection Hy as <-. destruct Hfo.
    assert (store_wf (ma_mailboxes a)) as Hwf by by eapply store_steps_wf.
    exists a, l'. split; cbn [sy_server sy_others sy_pipe sy_last_state sy_refresher sy_store sy_viewer]; try done.
    + intros l1 a1 n Hl1 Ha1 Hn. rewrite Hl in Hl1. injection Hl1 as <-. rewrite fo_account0 in Ha1. injection Ha1 as <-. rewrite Hst in Hn. apply to_dec_inj in Hn as <-. by apply own_state_reach.
    + eapply refresher_step_ok; [done|by exists t].
  - unfold folder_list_pass in Hy. rewrite Hw in Hy. injection Hy as <-. exists a0, l. destruct Hfo.
    split; cbn [sy_server sy_others sy_pipe sy_last_state sy_refresher sy_store sy_viewer]; try done.
    + eapply refresher_step_ok; [done|by exists t].
    + unfold view_signals. cbn. by destruct (sy_viewer y) as [[??]|].
    + intros Hne. destruct (fo_stale0 Hne) as [?|[?|Hp]]; [left; by eapply turn_history|by right; left|].
      destruct (turn_keeps_pass t _ f fo_refresher0 Ht Hp) as [?|[?|?]]; [by left|by right; right|congruence].
Qed.

Lemma viewer_follows y a a0 l seen later : follows y a a0 l seen later -> follows (viewer_turn y) a a0 l seen later.
Proof using Type.
  intros []. split; cbn [viewer_turn sy_server sy_others sy_pipe sy_last_state sy_refresher sy_store sy_viewer]; try done. unfold held_folders. by rewrite fo_listing0.
Qed.

Definition in_step (y : System) : Prop := exists a a0 l seen later, follows y a a0 l seen later.

Lemma client_step_keeps y y' : client_step y y' -> in_step y -> in_step y'.
Proof using serde_roundtrip refresh_keeps.
  intros Hst (a&a0&l&seen&later&Hfo). destruct Hst as [y' Hy|t y' Hy|].
  - destruct (pump_follows _ _ _ _ _ _ _ Hfo Hy) as (seen'&later'&?). by exists a, a0, l, seen', later'.
  - destruct (worker_follows _ _ _ _ _ _ _ _ Hfo Hy) as (a0'&l'&?). by exists a, a0', l', seen, later.
  - exists a, a0, l, seen, later. by apply viewer_follows.
Qed.

Lemma system_step_keeps y y' : system_step y y' -> in_step y -> in_step y'.
Proof using serde_roundtrip refresh_keeps.
  intros [s' others' Hs Hr|y1 Hc] Hin; [|by eapply client_step_keeps]. destruct Hin as (a&a0&l&seen&later&Hfo).
  destruct (served_follows _ _ _ _ _ _ s' others' Hfo Hs Hr) as (a'&later'&?). by exists a', a0, l, seen, later'.
Qed.

(** ** At rest *)
Definition at_rest (y : System) : Prop := sy_pipe y = [] /\ ru_running (rf_runs (sy_refresher y)) = false.

(** The listing is the one of the server, and the viewer shows it. *)
Definition synced (y : System) : Prop :=
  exists a l, bt_get account_id (sv_accounts (sy_server y)) = Some a /\ js_folders (sy_store y) = Some l /\
    lg_state l = store_state (ma_mailboxes a) /\ shows_folders (listed a) (lg_tree l) /\ shown_by (sy_viewer y) (lg_tree l).

Lemma same_state_values (s s' : Store Mailbox) id : store_wf s -> rtc store_step s s' -> st_state s = st_state s' -> store_get s' id = store_get s id.
Proof using Type. intros Hwf Hsteps E. apply store_steps_values; [done..|]. rewrite <- E. intros (c&_&_&Hc). lia. Qed.

Lemma rest_synced y : in_step y -> at_rest y -> Dropped ∉ rf_history (sy_refresher y) -> synced y.
Proof using Type.
  intros (a&a0&l&seen&later&[]) [Hpipe Hrun] Hd.
  destruct (decide (st_state (ma_mailboxes a0) = st_state (ma_mailboxes a))) as [E|E].
  - exists a, l. split_and!; [done|done|by rewrite fo_state0; unfold store_state; rewrite E| |done].
    eapply shows_folders_same; [exact fo_shows0|]. intros id. by apply same_state_values.
  - exfalso. destruct (fo_stale0 E) as [?|[(types&Hin&_)|(w&Hw&Hin)]]; [done|..].
    + assert (changed_each account_id watched seen later = []) as Hc; [|rewrite Hc in Hin; by apply not_elem_of_nil in Hin].
      rewrite <- (pump_tracks account_id watched subscribed ltac:(done) watched_nodup watched_subscribed seen later (sy_last_state y)) by done.
      by rewrite <- fo_pipe0, Hpipe.
    + destruct (thread_cases _ fo_refresher0) as [(_&Hs&Hws&Hp)|[(?&_)|(?&_)]]; [|congruence..]. unfold to_start in Hin. rewrite Hs, Hws, Hp in Hin.
      destruct Hin as [Hin%list_elem_of_singleton|Hin]; [by subst w|by apply not_elem_of_nil in Hin].
Qed.

(** *** Coming to rest *)
Lemma request_drops work f : Dropped ∉ rf_history f -> Dropped ∉ rf_history (request_with work f).
Proof using Type. intros Hn. unfold request_with. destruct (work_is_empty work); [done|]. destruct (ru_running (rf_runs f)); cbn; by intros [?|?]%elem_of_cons. Qed.

Lemma own_turn_drops t f f' : own_turn t -> refresher_turn t f = Some f' -> Dropped ∉ rf_history f -> Dropped ∉ rf_history f'.
Proof using Type.
  intros Ho Ht Hn. destruct t as [work|i|i|i there]; cbn [own_turn refresher_turn] in *; try done.
  - apply bind_Some in Ht as (w&_&[= <-]). done.
  - subst there. apply bind_Some in Ht as (x&_&Ht). destruct x as [w|w|]; cbn in Ht; [injection Ht as <-; cbn; by intros [?|?]%elem_of_cons|by injection Ht as <-|].
    destruct (work_is_empty (ru_pending (rf_runs f))); cbn in Ht; by injection Ht as <-.
Qed.

(** The client gets from [y] to [y'] by itself. *)
Definition client_reaches (y y' : System) : Prop :=
  rtc client_step y y' /\ sy_server y' = sy_server y /\ (Dropped ∉ rf_history (sy_refresher y) -> Dropped ∉ rf_history (sy_refresher y')).

Lemma client_reaches_refl y : client_reaches y y.
Proof using Type. by split_and!. Qed.

Lemma client_reaches_trans y1 y2 y3 : client_reaches y1 y2 -> client_reaches y2 y3 -> client_reaches y1 y3.
Proof using Type. intros (?&?&?) (?&?&?). split_and!; [by etransitivity|congruence|auto]. Qed.

Lemma pump_empties y : exists y', client_reaches y y' /\ sy_pipe y' = [].
Proof using Type.
  remember (sy_pipe y) as pipe eqn:Hp. revert y Hp. induction pipe as [|change pipe IH]; intros y Hp; [exists y; split; [apply client_reaches_refl|done]|].
  destruct (pump_turn y) as [y1|] eqn:E; unfold pump_turn in E; rewrite <- Hp in E.
  2: by destruct (concerns _ _ _ _).
  destruct (concerns change account_id watched (sy_last_state y)) as [matched last'] eqn:Ec. injection E as E.
  destruct (IH y1 ltac:(by rewrite <- E)) as (y'&Hr&Hp'). exists y'. split; [|done]. subst y1.
  eapply client_reaches_trans; [|exact Hr]. split_and!; [apply rtc_once, Step_pump; unfold pump_turn; by rewrite <- Hp, Ec|done|].
  cbn [sy_refresher]. intros Hn. case_bool_decide; [done|]. rewrite dispatch_request. by apply request_drops.
Qed.

Lemma worker_runs turns y f' :
  in_step y -> Forall own_turn turns -> run_turns turns (sy_refresher y) = Some f' ->
  exists y', client_reaches y y' /\ sy_refresher y' = f' /\ sy_pipe y' = sy_pipe y.
Proof using serde_roundtrip refresh_keeps.
  revert y. induction turns as [|t turns IH]; intros y Hin Ho Hr; cbn [run_turns] in Hr.
  { injection Hr as <-. exists y. split; [apply client_reaches_refl|done]. }
  apply bind_Some in Hr as (f1&Ht&Hr). apply Forall_cons in Ho as [Ho Hos]. destruct (worker_turns t y) as [y1|] eqn:E.
  2: { unfold worker_turns in E. rewrite Ht in E. cbn in E. by destruct (folder_list_pass _ _ _) as [[??]?]. }
  assert (sy_refresher y1 = f1 /\ sy_pipe y1 = sy_pipe y /\ sy_server y1 = sy_server y) as (Hf1&Hp1&Hs1).
  { unfold worker_turns in E. rewrite Ht in E. cbn [mbind option_bind] in E. destruct Hin as (a&a0&l&seen&later&Hfo).
    destruct (wk_check_folder_list (pass_of t (sy_refresher y))) eqn:Hw.
    - destruct (pass_shows y a a0 l seen later _ Hfo Hw) as (st'&l'&sigs&Hp&_). rewrite Hp in E. by injection E as <-.
    - unfold folder_list_pass in E. rewrite Hw in E. by injection E as <-. }
  assert (client_step y y1) as Hstep by by eapply Step_worker. destruct (IH y1) as (y'&Hr'&Hf'&Hp'); [by eapply client_step_keeps|done|by rewrite Hf1|].
  exists y'. split; [|split; [done|congruence]]. eapply client_reaches_trans; [|exact Hr']. split_and!; [by apply rtc_once|done|]. intros Hn. rewrite Hf1. by eapply own_turn_drops.
Qed.

Lemma comes_to_rest y : in_step y -> exists y', client_reaches y y' /\ at_rest y' /\ is_Some (sy_viewer y').
Proof using serde_roundtrip refresh_keeps.
  assert (forall y y', rtc client_step y y' -> in_step y -> in_step y') as Hkeep.
  { induction 1 as [|y1 y2 y3 H12 _ IH]; [done|]. intros H1. by eapply IH, client_step_keeps. }
  intros Hin. destruct (pump_empties y) as (y1&Hr1&Hp1). assert (in_step y1) as Hin1 by (eapply Hkeep; [apply Hr1|done]).
  assert (refresher_ok (sy_refresher y1)) as Hok1 by by destruct Hin1 as (?&?&?&?&?&[]).
  destruct (refresher_rests _ Hok1) as (turns&f'&Ho&Hrun&Hidle). destruct (worker_runs turns y1 f' Hin1 Ho Hrun) as (y2&Hr2&Hf2&Hp2).
  exists (viewer_turn y2). split_and!.
  - eapply client_reaches_trans; [exact Hr1|]. eapply client_reaches_trans; [exact Hr2|]. split_and!; [apply rtc_once, Step_viewer|done|done].
  - split; cbn; [congruence|by rewrite Hf2].
  - assert (in_step y2) as (?&?&?&?&?&[]) by (eapply Hkeep; [apply Hr2|done]). cbn. unfold held_folders. rewrite fo_listing0. by eexists.
Qed.

(** The store connected, listed the folders and subscribed; nothing happened yet. *)
Record starts (y : System) (a : AccountState) (l : Listing) : Prop := {
  so_accounts : bt_ok (sv_accounts (sy_server y));
  so_account : bt_get account_id (sv_accounts (sy_server y)) = Some a;
  so_ok : mail_account_ok a;
  so_presentable : presentable a;
  so_terminates : sv_changes_never_terminates (sy_server y) = false;
  so_connection : js_connection (sy_store y) = Some account_id;
  so_listing : js_folders (sy_store y) = Some l;
  so_state : lg_state l = store_state (ma_mailboxes a);
  so_shows : shows_folders (listed a) (lg_tree l);
  so_pipe : sy_pipe y = [];
  so_last_state : sy_last_state y = [];
  so_refresher : sy_refresher y = refresher_new;
  so_viewer : shown_by (sy_viewer y) (lg_tree l);
}.

Lemma starts_in_step y a l : starts y a l -> in_step y.
Proof using Type.
  intros []. assert (store_wf (ma_mailboxes a)) as Hwf by apply (mao_store _ so_ok0). exists a, a, l, (snapshot y), []. split; try done.
  - intros l1 a1 n Hl1 Ha1 Hn. rewrite so_listing0 in Hl1. injection Hl1 as <-. rewrite so_account0 in Ha1. injection Ha1 as <-. rewrite so_state0 in Hn. apply to_dec_inj in Hn as <-. by apply own_state_reach.
  - rewrite so_last_state0. intros name _. by left.
  - rewrite so_refresher0. apply refresher_new_ok.
Qed.

(** C5: The folder list follows the server. Other clients create, rename, move and destroy
    mailboxes at any time; the server's pushes, the pump, the refresh worker and the viewer take
    their turns in any order. Whenever no push is under way and no pass runs, the held listing
    is the one of the server's mailboxes and the viewer shows it; and from every state the
    client gets there by itself. What changes between two refreshes must not be more than one
    refresh fetches, and no worker may have been dropped. *)
Theorem push_converges y0 a0 l0 y :
  starts y0 a0 l0 -> rtc system_step y0 y -> Dropped ∉ rf_history (sy_refresher y) ->
  (at_rest y -> synced y) /\
  exists y', rtc client_step y y' /\ sy_server y' = sy_server y /\ at_rest y' /\ synced y' /\ is_Some (sy_viewer y').
Proof using serde_roundtrip refresh_keeps.
  intros Hs Hsteps Hd. assert (in_step y) as Hin.
  { apply starts_in_step in Hs. clear Hd. induction Hsteps as [|y1 y2 y3 H12 _ IH]; [done|]. by eapply IH, system_step_keeps. }
  split; [intros Hr; by apply rest_synced|]. destruct (comes_to_rest y Hin) as (y'&(Hsteps'&Hserver&Hd')&Hr'&Hv'). exists y'. split_and!; [done..| |done].
  apply rest_synced; [|done|by apply Hd']. clear -Hsteps' Hin serde_roundtrip refresh_keeps. induction Hsteps' as [|y1 y2 y3 H12 _ IH]; [done|]. by eapply IH, client_step_keeps.
Qed.
End system.

(** ** An example: another client renames a mailbox and makes a new one *)
Definition no_others (id : Id) : OtherCounters :=
  {| oc_contact_cards := 1; oc_address_books := 1; oc_calendars := 1; oc_calendar_events := 1; oc_task_lists := 1; oc_tasks := 1;
     oc_calendar_event_notifications := 1; oc_vacation_response := 1 |}.

Definition listed_system : @System Value :=
  {| sy_server := refreshed_view.2; sy_others := no_others; sy_pipe := []; sy_last_state := []; sy_refresher := refresher_new; sy_store := refreshed_view.1;
     sy_viewer := Some (row_paths (lg_tree held_listing), folder_paths (lg_tree held_listing)) |}.

Abbreviation small_worker_turns :=
  (worker_turns no_error_text (fun _ => Ok Null) elements None budget_per_sync changes_to_value changes_from_value (fun t => t) file_text file_value file_replaced no_refresh).
Abbreviation small_system_step :=
  (system_step no_error_text (fun _ => Ok Null) elements None budget_per_sync changes_to_value changes_from_value (fun t => t) file_text file_value file_replaced no_refresh (lit "A")).

Definition pushed_system : System := served after_server no_others listed_system.
Definition pumped_system : System := default pushed_system (pump_turn (lit "A") pushed_system).

(** The worker starts, passes and ends, and the viewer loads the list again. *)
Definition worked (turns : list Turn) (y : System) : System := fold_left (fun y t => default y (small_worker_turns t y)) turns y.
Fixpoint all_work (turns : list Turn) (y : System) : bool :=
  match turns with [] => true | t :: turns => match small_worker_turns t y with Some y' => all_work turns y' | None => false end end.

Lemma worked_steps turns y : all_work turns y = true -> rtc small_system_step y (worked turns y).
Proof.
  unfold worked. revert y. induction turns as [|t turns IH]; intros y; cbn [all_work fold_left]; [done|]. destruct (small_worker_turns t y) as [y'|] eqn:E; [|done].
  intros Hw. eapply rtc_l; [eapply Step_client, Step_worker, E|]. by apply IH.
Qed.

Definition worker_script : list Turn := [Spawn 0; Work_on 0 true; Work_on 0 true; Work_on 0 true].
Definition rested_system : System := viewer_turn (worked worker_script pumped_system).

Lemma listed_system_starts : starts (lit "A") listed_system before_account held_listing.
Proof.
  pose proof refreshed_view_ok as [Hc Ha Hok Hp Hs]. split.
  - assert (sv_accounts (sy_server listed_system) = bt_insert (lit "A") before_account []) as -> by (vm_compute; reflexivity). apply bt_insert_ok, bt_ok_nil.
  - exact Ha.
  - exact Hok.
  - exact Hp.
  - vm_compute. reflexivity.
  - exact Hc.
  - vm_compute. reflexivity.
  - vm_compute. reflexivity.
  - apply shows_shows_folders, Hs. vm_compute. reflexivity.
  - reflexivity.
  - reflexivity.
  - reflexivity.
  - split; reflexivity.
Qed.

Lemma rested_system_reached : rtc small_system_step listed_system rested_system.
Proof.
  pose proof refreshed_view_ok as [_ Ha Hok _ _]. destruct other_client_ok as [Hr Hc].
  eapply rtc_l; [apply (Step_others _ _ _ _ _ _ _ _ _ _ _ _ _ listed_system after_server no_others)|].
  - split; [assert (sv_accounts after_server = bt_insert (lit "A") after_account []) as -> by (vm_compute; reflexivity); apply bt_insert_ok, bt_ok_nil|].
    split; [vm_compute; reflexivity|]. exists before_account, after_account. split; [exact Ha|]. split; [vm_compute; reflexivity|]. split_and!.
    + apply (mailbox_set_account_spec no_error_text false true None before_account other_client (mao_store _ Hok) (mao_forest _ Hok) Hr Hc).
    + by apply mail_account_kept.
    + apply presentable_few; [vm_compute; lia|]. by_decide.
  - intros l a n Hl Ha' Hn. assert (l = held_listing) as -> by (vm_compute in Hl |- *; by injection Hl as <-). assert (a = after_account) as -> by (vm_compute in Ha' |- *; by injection Ha' as <-).
    assert (n = st_state (ma_mailboxes before_account)) as -> by (apply to_dec_inj; rewrite <- Hn; by vm_compute). split; [by vm_compute|]. split; by vm_compute.
  - eapply rtc_l; [apply Step_client, (Step_pump _ _ _ _ _ _ _ _ _ _ _ _ _ _ pumped_system); by vm_compute|].
    etransitivity; [apply (worked_steps worker_script); by vm_compute|]. apply rtc_once, Step_client, Step_viewer.
Qed.

Lemma push_converges_witness :
  at_rest rested_system /\ synced (lit "A") rested_system /\
  sy_viewer rested_system = Some ([lit "News"; lit "Office"], [lit "Home"; lit "News"; lit "Office"]).
Proof.
  assert (at_rest rested_system) as Hrest by (split; vm_compute; reflexivity). split; [exact Hrest|]. split; [|vm_compute; reflexivity].
  apply (push_converges no_error_text (fun _ => Ok Null) elements None budget_per_sync changes_to_value changes_from_value changes_roundtrip (fun t => t)
    file_text file_value file_replaced no_refresh (fun s => eq_refl) (lit "A") listed_system before_account held_listing rested_system).
  - exact listed_system_starts.
  - exact rested_system_reached.
  - vm_compute. intros Hin. repeat (apply elem_of_cons in Hin as [Hin|Hin]; [discriminate Hin|]). by apply not_elem_of_nil in Hin.
  - exact Hrest.
Defined.
