(* ===== verification/IpAddr.v ===== *)
(** [std::net::IpAddr]: reading an address from its text, and the loopback addresses. *)

From Stdlib Require Import Ascii String.
From stdpp Require Import prelude strings.
From S2P Require Import Prelude Strings.

Local Open Scope rust_scope.

(** ** Numbers *)

(** [char::to_digit]. *)
Definition to_digit (radix : N) (c : ascii) : option N :=
  let n := N_of_ascii c in
  let! d := (if is_ascii_digit c then Some (n - 48)
             else if is_ascii_lower c then Some (n - 97 + 10)
             else if is_ascii_upper c then Some (n - 65 + 10) else None)%N in
  if (d <? radix)%N then Some d else None.

(** The digits from here on: how many, their value, and what follows. *)
Fixpoint read_digits (radix : N) (max_digits count : nat) (result : N) (t : text) : option (nat * N * text) :=
  match t with
  | [] => Some (count, result, t)
  | c :: t' =>
      match to_digit radix c with
      | Some d => if max_digits <? S count then None else read_digits radix max_digits (S count) (result * radix + d) t'
      | None => Some (count, result, t)
      end
  end.

Definition read_number (radix : N) (max_digits : nat) (allow_zero_prefix : bool) (max : N) (t : text) : option (N * text) :=
  let! r := read_digits radix max_digits 0 0 t in
  let '(count, result, rest) := r in
  if count =? 0 then None
  else if negb allow_zero_prefix && starts_with (lit "0") t && (1 <? count) then None
  else if (result <=? max)%N then Some (result, rest) else None.

(** A separator before every item but the first one. *)
Definition read_separator {A} (sep : ascii) (index : nat) (inner : text -> option (A * text)) (t : text) : option (A * text) :=
  match index, t with
  | O, _ => inner t
  | S _, c :: t => if bool_decide (c = sep) then inner t else None
  | S _, [] => None
  end.

(** ** Addresses *)
Fixpoint read_octets (slots index : nat) (t : text) : option (list N * text) :=
  match slots with
  | O => Some ([], t)
  | S slots =>
      let! r := read_separator "."%char index (read_number 10 3 false 255) t in
      let '(octet, t) := r in
      let! r := read_octets slots (S index) t in
      let '(octets, t) := r in
      Some (octet :: octets, t)
  end.

Definition read_ipv4_addr (t : text) : option (list N * text) := read_octets 4 0 t.

(** At most [slots] groups: the groups, whether the last two of them were an IPv4 address, and
    what follows. *)
Fixpoint read_groups (slots index : nat) (t : text) : list N * bool * text :=
  match slots with
  | O => ([], false, t)
  | S slots =>
      match (if 0 <? slots then read_separator ":"%char index read_ipv4_addr t else None) with
      | Some ([one; two; three; four], t) => ([one * 256 + two; three * 256 + four]%N, true, t)
      | _ =>
          match read_separator ":"%char index (read_number 16 4 true 65535) t with
          | Some (group, t) => let '(groups, ipv4, t) := read_groups slots (S index) t in (group :: groups, ipv4, t)
          | None => ([], false, t)
          end
      end
  end.

Definition read_ipv6_addr (t : text) : option (list N * text) :=
  let '(head, head_ipv4, t) := read_groups 8 0 t in
  if length head =? 8 then Some (head, t)
  else if head_ipv4 then None
  else
    let! t := strip_prefix (lit "::") t in
    let '(tail, _, t) := read_groups (8 - (length head + 1)) 0 t in
    Some (head ++ replicate (8 - length head - length tail) 0%N ++ tail, t).

Inductive IpAddr := V4 (octets : list N) | V6 (groups : list N).

Definition parse_ipv6_addr (t : text) : option (list N) :=
  match read_ipv6_addr t with Some (groups, []) => Some groups | _ => None end.

Definition parse_ip_addr (t : text) : option IpAddr :=
  match (match read_ipv4_addr t with Some (octets, t) => Some (V4 octets, t) | None => prod_map V6 id <$> read_ipv6_addr t end) with
  | Some (address, []) => Some address
  | _ => None
  end.

Definition ip_is_loopback (address : IpAddr) : bool :=
  match address with
  | V4 octets => bool_decide (octets !! 0 = Some 127%N)
  | V6 groups => bool_decide (groups = [0; 0; 0; 0; 0; 0; 0; 1]%N)
  end.

(** ** The characters of an address *)
Definition is_ip_char (c : ascii) : bool :=
  bool_decide (is_Some (to_digit 16 c)) || bool_decide (c = ":"%char) || bool_decide (c = "."%char).

(** [rest] is what follows address characters in [t]. *)
Definition after_ip_chars (t rest : text) : Prop := exists used, t = used ++ rest /\ Forall (fun c => is_ip_char c = true) used.

Lemma after_refl t : after_ip_chars t t.
Proof. by exists []. Qed.

Lemma after_trans a b c : after_ip_chars a b -> after_ip_chars b c -> after_ip_chars a c.
Proof. intros (u&->&Hu) (v&->&Hv). exists (u ++ v). split; [by rewrite app_assoc|by apply Forall_app]. Qed.

Lemma after_char c t rest : is_ip_char c = true -> after_ip_chars t rest -> after_ip_chars (c :: t) rest.
Proof. intros Hc (u&->&Hu). exists (c :: u). split; [done|by constructor]. Qed.

Lemma digit_ip_char radix c d : (radix <= 16)%N -> to_digit radix c = Some d -> is_ip_char c = true.
Proof.
  intros Hr Hd. unfold is_ip_char. rewrite bool_decide_eq_true_2; [done|]. unfold to_digit in *. apply bind_Some in Hd as (x&Hx&Hd). rewrite Hx. cbn.
  destruct (N.ltb_spec x radix); [|done]. rewrite (proj2 (N.ltb_lt x 16)) by lia. by eexists.
Qed.

Lemma read_digits_after radix max count result t r : (radix <= 16)%N -> read_digits radix max count result t = Some r -> after_ip_chars t r.2.
Proof.
  intros Hr. revert count result. induction t as [|c t IH]; intros count result; cbn [read_digits]; [intros [= <-]; apply after_refl|].
  destruct (to_digit radix c) as [d|] eqn:Ed; [|intros [= <-]; apply after_refl]. destruct (max <? S count); [done|]. intros Hread. apply after_char; [by eapply digit_ip_char|by eapply IH].
Qed.

Lemma read_number_after radix max_digits zero max t r : (radix <= 16)%N -> read_number radix max_digits zero max t = Some r -> after_ip_chars t r.2.
Proof.
  intros Hr ([[count result] rest]&Hd&H)%bind_Some. apply read_digits_after in Hd; [|done]. cbn in Hd.
  destruct (count =? 0); [done|]. destruct (_ && _); [done|]. destruct (_ <=? _)%N; [|done]. by injection H as <-.
Qed.

Lemma read_separator_after {A} sep index (inner : text -> option (A * text)) t r :
  is_ip_char sep = true -> (forall t r, inner t = Some r -> after_ip_chars t r.2) -> read_separator sep index inner t = Some r -> after_ip_chars t r.2.
Proof.
  intros Hs Hi. unfold read_separator. destruct index; [by apply Hi|]. destruct t as [|c t]; [done|]. case_bool_decide; [|done]. subst c. intros Hr. apply after_char; [done|by apply Hi].
Qed.

Lemma number_after sep index radix max_digits zero max t r :
  is_ip_char sep = true -> (radix <= 16)%N -> read_separator sep index (read_number radix max_digits zero max) t = Some r -> after_ip_chars t r.2.
Proof. intros Hs Hr. apply read_separator_after; [done|]. intros ? ?. by apply read_number_after. Qed.

Lemma read_octets_after slots index t r : read_octets slots index t = Some r -> after_ip_chars t r.2.
Proof.
  revert index t r. induction slots as [|slots IH]; intros index t r; cbn [read_octets]; [intros [= <-]; apply after_refl|].
  intros ([octet t1]&H1&([octets t2]&H2&[= <-])%bind_Some)%bind_Some. eapply after_trans; [|by eapply IH in H2].
  apply number_after in H1; done.
Qed.

Lemma read_groups_after slots index t : after_ip_chars t (read_groups slots index t).2.
Proof.
  revert index t. induction slots as [|slots IH]; intros index t; cbn [read_groups]; [apply after_refl|].
  destruct (if 0 <? slots then read_separator _ _ _ _ else None) as [[octets t1]|] eqn:E4.
  2: { destruct (read_separator _ _ (read_number _ _ _ _) t) as [[g t1]|] eqn:E; [|apply after_refl].
    specialize (IH (S index) t1). destruct (read_groups slots (S index) t1) as [[gs v4] t2]. eapply after_trans; [|exact IH].
    apply number_after in E; done. }
  destruct (0 <? slots); [|done]. apply read_separator_after in E4; [|done|intros ? ? ?; by eapply read_octets_after]. cbn in E4.
  assert (after_ip_chars t (match read_separator ":"%char index (read_number 16 4 true 65535) t with
    | Some (group, t) => let '(groups, ipv4, t) := read_groups slots (S index) t in (group :: groups, ipv4, t) | None => ([], false, t) end).2) as Hrest.
  { destruct (read_separator _ _ (read_number _ _ _ _) t) as [[g t2]|] eqn:E; [|apply after_refl].
    specialize (IH (S index) t2). destruct (read_groups slots (S index) t2) as [[gs v4] t3]. eapply after_trans; [|exact IH].
    apply number_after in E; done. }
  by destruct octets as [|? [|? [|? [|? [|? ?]]]]].
Qed.

Lemma parse_ipv6_chars t groups : parse_ipv6_addr t = Some groups -> Forall (fun c => is_ip_char c = true) t.
Proof.
  unfold parse_ipv6_addr. destruct (read_ipv6_addr t) as [[gs [|c rest]]|] eqn:E; [|done..]. intros _. assert (after_ip_chars t []) as (u&Hu&Hc); [|by rewrite Hu, app_nil_r].
  unfold read_ipv6_addr in E. pose proof (read_groups_after 8 0 t) as H1. destruct (read_groups 8 0 t) as [[head v4] t1]. cbn in H1.
  destruct (length head =? 8); [injection E as _ ->; exact H1|]. destruct v4; [done|].
  apply bind_Some in E as (t2&->%strip_prefix_Some&E). pose proof (read_groups_after (8 - (length head + 1)) 0 t2) as H2.
  destruct (read_groups (8 - (length head + 1)) 0 t2) as [[tail v] t3]. injection E as _ ->. eapply after_trans; [exact H1|]. apply after_char; [done|]. by apply after_char.
Qed.

Lemma parse_ip_chars t address : parse_ip_addr t = Some address -> Forall (fun c => is_ip_char c = true) t.
Proof.
  unfold parse_ip_addr. destruct (read_ipv4_addr t) as [[octets rest]|] eqn:E4.
  - destruct rest; [|done]. intros _. apply read_octets_after in E4 as (u&Hu&Hc). cbn in Hu. by rewrite Hu, app_nil_r.
  - destruct (read_ipv6_addr t) as [[groups [|]]|] eqn:E6; [|done..]. intros _. apply (parse_ipv6_chars t groups). unfold parse_ipv6_addr. by rewrite E6.
Qed.
