(* ===== verification/Url.v ===== *)
(** URLs (jmap-client/src/url.rs): origins, loopback hosts, which endpoints may have the
    credentials, redirects, and values in URL templates. *)

From Stdlib Require Import Ascii String.
From stdpp Require Import prelude strings.
From S2P Require Import Prelude Text Strings Octets IpAddr.

Local Open Scope rust_scope.

(** ** Standard library: searching *)

(** [str::find] of a text: what is before the first match, and the text from it on. *)
Fixpoint find_text (needle t : text) : option (text * text) :=
  if starts_with needle t then Some ([], t)
  else match t with [] => None | c :: t => (fun '(a, b) => (c :: a, b)) <$> find_text needle t end.

Lemma find_text_first needle a b :
  needle <> [] -> (forall c, c ∈ a -> head needle <> Some c) -> find_text needle (a ++ needle ++ b) = Some (a, needle ++ b).
Proof.
  intros Hn. induction a as [|c a IH]; intros Ha; cbn [app].
  - destruct needle as [|x needle]; [done|]. cbn [find_text app]. assert (starts_with (x :: needle) (x :: needle ++ b) = true) as ->; [|done].
    apply starts_with_true. by exists b.
  - cbn [find_text]. destruct (starts_with needle (c :: a ++ needle ++ b)) eqn:E.
    { apply starts_with_true in E as [r E]. destruct needle as [|x needle]; [done|]. injection E as -> _. exfalso. by apply (Ha x); [left|]. }
    rewrite IH; [done|]. intros x Hx. apply Ha. by right.
Qed.

(** ** Schemes *)
Definition split_http_scheme (url : text) : option (bool * text) :=
  if eq_ignore_ascii_case (take 8 url) (lit "https://") then Some (true, drop 8 url)
  else if eq_ignore_ascii_case (take 7 url) (lit "http://") then Some (false, drop 7 url)
  else None.

Definition on_tls (url : text) : bool := match split_http_scheme url with Some (tls, _) => tls | None => false end.

(** A redirect that leaves TLS behind. *)
Definition downgrades (current next : text) : bool := on_tls current && negb (on_tls next).

Definition has_uri_scheme (url : text) : bool :=
  let head := match find_split (fun c => bool_decide (c ∈ lit "/?#")) url with Some (a, _) => a | None => url end in
  match split_once ":"%char head with
  | None => false
  | Some (scheme, _) =>
      match scheme with
      | [] => false
      | c :: rest => is_ascii_alphabetic c && forallb (fun c => is_ascii_alphanumeric c || bool_decide (c ∈ lit "+-.")) rest
      end
  end.

(** ** Origins *)
Definition BACKSLASH : ascii := "092"%char.

(** Where an authority ends. *)
Definition ends_authority (c : ascii) : bool := bool_decide (c ∈ lit "/?#") || bool_decide (c = BACKSLASH).

Definition authority_of (after_scheme : text) : text :=
  match find_split ends_authority after_scheme with Some (a, _) => a | None => after_scheme end.

Definition host_and_port (host_port : text) : option (text * option text) :=
  if starts_with (lit "[") host_port then
    let! r := split_once "]"%char host_port in
    let '(host, rest) := r in
    Some (host ++ lit "]", strip_prefix (lit ":") rest)
  else
    Some (match rsplit_once ":"%char host_port with Some (host, port) => (host, Some port) | None => (host_port, None) end).

Definition without_root_dot (host : text) : text :=
  if (1 <? length host) && ends_with (lit ".") host && negb (ends_with (lit "..") host) then take (length host - 1) host else host.

Definition default_port (scheme : text) : option text :=
  if eq_ignore_ascii_case scheme (lit "http") then Some (lit "80")
  else if eq_ignore_ascii_case scheme (lit "https") then Some (lit "443")
  else None.

Definition origin (url : text) : text :=
  match find_text (lit "://") url with
  | None => url
  | Some (scheme, from) =>
      let authority := authority_of (drop 3 from) in
      let host_port := match rsplit_once "@"%char authority with Some (_, rest) => rest | None => authority end in
      match host_and_port host_port with
      | None => url
      | Some (host, port) =>
          if bool_decide (host = []) then url
          else
            let normalized_host := without_root_dot host in
            let normalized_port := match port with
              | Some p => if negb (bool_decide (p = [])) && negb (bool_decide (default_port scheme = Some p)) then Some p else None
              | None => None
              end in
            let changed := existsb is_ascii_upper scheme || existsb is_ascii_upper normalized_host || negb (bool_decide (normalized_host = host))
              || negb (bool_decide (port = normalized_port)) || negb (length host_port =? length authority) in
            if negb changed then scheme ++ lit "://" ++ authority
            else to_ascii_lowercase scheme ++ lit "://" ++ to_ascii_lowercase normalized_host ++
                 match normalized_port with Some p => lit ":" ++ p | None => [] end
      end
  end.

Definition same_origin (a b : text) : bool := bool_decide (origin a = origin b).

Definition rebase_origin (url origin : text) : text :=
  if bool_decide (url = []) then []
  else
    let base := trim_end_matches (fun c => bool_decide (c = "/"%char)) origin in
    match find_text (lit "://") url with
    | Some (_, from) =>
        match find_split ends_authority (drop 3 from) with
        | Some (_, tail) => if starts_with (lit "/") tail then base ++ tail else base ++ lit "/" ++ tail
        | None => base
        end
    | None => if starts_with (lit "/") url then base ++ url else base ++ lit "/" ++ url
    end.

(** ** Loopback *)

(** The host that [is_loopback] reads. *)
Definition loopback_host (url : text) : option text :=
  let! r := find_text (lit "://") url in
  let authority := authority_of (drop 3 r.2) in
  let host_port := match rsplit_once "@"%char authority with Some (_, rest) => rest | None => authority end in
  match strip_prefix (lit "[") host_port with
  | Some bracketed => fst <$> split_once "]"%char bracketed
  | None => Some (match rsplit_once ":"%char host_port with Some (host, _) => host | None => host_port end)
  end.

Definition host_is_loopback (host : text) : bool :=
  let host := default host (strip_suffix (lit ".") host) in
  eq_ignore_ascii_case host (lit "localhost") || eq_ignore_ascii_case host (lit "localhost.localdomain")
  || match parse_ip_addr host with Some address => ip_is_loopback address | None => false end.

Definition is_loopback (url : text) : bool := match loopback_host url with Some host => host_is_loopback host | None => false end.

Definition may_carry_credentials (session_url endpoint : text) : bool :=
  bool_decide (endpoint = []) || on_tls endpoint || is_loopback endpoint || (negb (on_tls session_url) && same_origin session_url endpoint).

(** ** Redirects *)
Definition resolve_redirect (current_url location : text) : result text text :=
  match split_http_scheme location with
  | Some _ => Ok location
  | None =>
      if has_uri_scheme location then Err (lit "unsupported redirect scheme in " ++ location)
      else
        match find_text (lit "://") current_url with
        | None => Err (lit "current URL lacks scheme")
        | Some (scheme, _) =>
            match strip_prefix (lit "//") location with
            | Some network_ref => Ok (scheme ++ lit "://" ++ network_ref)
            | None =>
                if starts_with (lit "/") location then Ok (origin current_url ++ location)
                else
                  let path_start := length scheme + 3 in
                  let url_without_query := match split_once "?"%char current_url with Some (a, _) => a | None => current_url end in
                  match (if path_start <=? length url_without_query then rsplit_once "/"%char (drop path_start url_without_query) else None) with
                  | Some (before, _) => Ok (take (path_start + length before + 1) current_url ++ location)
                  | None => Ok (current_url ++ lit "/" ++ location)
                  end
            end
        end
  end.

(** ** SRV targets *)
Definition valid_srv_target (host : text) (port : N) : option (text * N) :=
  if (port =? 0)%N then None
  else
    let host := default host (strip_suffix (lit ".") host) in
    if negb (bool_decide (host = [])) && negb (starts_with (lit ".") host) && negb (starts_with (lit "-") host) && negb (str_contains (lit "..") host)
       && forallb (fun c => is_ascii_alphanumeric c || bool_decide (c ∈ lit ".-_")) host
    then Some (host, port) else None.

(** ** Values in templates *)

(** Third-party: percent-encoding. Each octet in the set, and each octet that is not ASCII, is
    written as a percent sign and two upper-case hexadecimal digits; the others stay. *)
Definition percent_octet (c : ascii) : text :=
  let digit (n : N) : ascii := ascii_of_N (if (n <? 10)%N then 48 + n else 55 + n)%N in
  ["%"%char; digit (N_of_ascii c / 16)%N; digit (N_of_ascii c mod 16)%N].

Class PercentEncoding (utf8_percent_encode : (ascii -> bool) -> text -> text) : Prop := {
  pe_nil : forall escaped, utf8_percent_encode escaped [] = [];
  pe_cons : forall escaped c t, utf8_percent_encode escaped (c :: t) =
    (if escaped c || negb (is_ascii c) then percent_octet c else [c]) ++ utf8_percent_encode escaped t;
}.

(** Everything but letters, digits and [- . _ ~]. *)
Definition UNRESERVED (c : ascii) : bool := negb (is_ascii_alphanumeric c || bool_decide (c ∈ lit "-._~")).

Definition encode_template_value (utf8_percent_encode : (ascii -> bool) -> text -> text) (value : text) : text :=
  if bool_decide (value = lit ".") then lit "%2E"
  else if bool_decide (value = lit "..") then lit "%2E%2E"
  else utf8_percent_encode UNRESERVED value.
