(* ===== verification/EventUrl.v ===== *)
(** The URL of an event source (jmap-client/src/eventsource.rs: [parse_url], [expand_url]): the
    host that is dialed is the host that was checked. *)

From Stdlib Require Import Ascii String.
From stdpp Require Import prelude strings.
From S2P Require Import Prelude Text Strings Octets IpAddr Url.

Local Open Scope rust_scope.

(** ** Taking a URL apart *)
Record UrlParts := { up_tls : bool; up_authority : text; up_dial : text; up_host : text; up_path_and_query : text }.

Definition is_slash (c : ascii) : bool := bool_decide (c = "/"%char).
Definition refused_octet (c : ascii) : bool := (N_of_ascii c <=? 32)%N || (N_of_ascii c =? 127)%N.
Definition host_char (c : ascii) : bool := is_ascii_alphanumeric c || bool_decide (c ∈ lit "-._").

Definition split_authority (authority : text) : option (text * option text) :=
  match strip_prefix (lit "[") authority with
  | Some bracketed =>
      let! r := split_once "]"%char bracketed in
      let '(literal, after) := r in
      let! _ := parse_ipv6_addr literal in
      let! port := match after with [] => Some None | _ => Some <$> strip_prefix (lit ":") after end in
      Some (literal, port)
  | None => Some (match split_once ":"%char authority with Some (host, port) => (host, Some port) | None => (authority, None) end)
  end.

Definition port_number (tls : bool) (port : option text) : option N :=
  match port with
  | Some digits => if negb (bool_decide (digits = [])) && forallb is_ascii_digit digits then parse_u16 digits else None
  | None => Some (if tls then 443 else 80)%N
  end.

Definition dial_text (authority host : text) (port : N) : text :=
  (if starts_with (lit "[") authority then lit "[" ++ host ++ lit "]" else host) ++ lit ":" ++ to_dec port.

Definition parse_url (url : text) : option UrlParts :=
  if existsb refused_octet url then None
  else
    let! r := split_http_scheme url in
    let '(tls, rest) := r in
    let '(authority, path_and_query) := match find_split is_slash rest with Some (a, b) => (a, b) | None => (rest, lit "/") end in
    let! hp := split_authority authority in
    let '(host, port) := hp in
    if bool_decide (host = []) || negb (starts_with (lit "[") authority || forallb host_char host) then None
    else
      let! port := port_number tls port in
      Some {| up_tls := tls; up_authority := authority; up_dial := dial_text authority host port; up_host := host; up_path_and_query := path_and_query |}.

(** ** Texts *)
Lemma forallb_Forall_true {A} (P : A -> bool) l : forallb P l = true <-> Forall (fun x => P x = true) l.
Proof. induction l as [|x l IH]; cbn; [by split|]. by rewrite andb_true_iff, Forall_cons, IH. Qed.

Lemma find_split_Some P t a b : find_split P t = Some (a, b) -> t = a ++ b /\ Forall (fun c => P c = false) a /\ exists c b', b = c :: b' /\ P c = true.
Proof.
  revert a b. induction t as [|c t IH]; intros a b; cbn [find_split]; [done|]. destruct (P c) eqn:E.
  - intros [= <- <-]. split_and!; [done|constructor|by exists c, t].
  - intros ([a' b']&Hf&[= -> ->])%fmap_Some. destruct (IH _ _ Hf) as (->&Ha&Hb). split_and!; [done|by constructor|done].
Qed.

Lemma find_split_None P t : find_split P t = None -> Forall (fun c => P c = false) t.
Proof. induction t as [|c t IH]; cbn [find_split]; [constructor|]. destruct (P c) eqn:E; [done|]. intros Hf%fmap_None. constructor; auto. Qed.

Lemma find_split_first P a b :
  Forall (fun c => P c = false) a -> find_split P (a ++ b) = match b with [] => None | c :: _ => if P c then Some (a, b) else (fun '(x, y) => (a ++ x, y)) <$> find_split P b end.
Proof.
  induction 1 as [|c a Hc _ IH]; cbn [app find_split].
  - destruct b as [|c b]; [done|]. cbn [find_split]. destruct (P c) eqn:E; [done|]. by destruct (find_split P b) as [[??]|].
  - rewrite Hc, IH. destruct b as [|d b]; [done|]. destruct (P d); [done|]. by destruct (find_split P (d :: b)) as [[??]|].
Qed.

(** *** The scheme *)
Lemma lower_plain c d : ascii_lower c = d -> is_ascii_alphabetic d = false -> c = d.
Proof. intros <-. destruct c as [[] [] [] [] [] [] [] []]; vm_compute; congruence. Qed.

Lemma lower_plain_text t u : to_ascii_lowercase t = u -> forallb (fun c => negb (is_ascii_alphabetic c)) u = true -> t = u.
Proof.
  revert u. induction t as [|c t IH]; intros u <-; cbn; [done|]. rewrite andb_true_iff, negb_true_iff. intros [Hc Ht].
  f_equal; [by apply lower_plain|by apply IH].
Qed.

Lemma lower_not_in c t : c ∉ to_ascii_lowercase t -> ascii_lower c = c -> c ∉ t.
Proof. intros Hn Hc Hin. apply Hn. rewrite <- Hc. unfold to_ascii_lowercase. by apply list_elem_of_fmap_2. Qed.

Definition scheme_name (tls : bool) : text := if tls then lit "https" else lit "http".

Lemma scheme_cut n url scheme :
  to_ascii_lowercase (take (n + 3) url) = scheme ++ lit "://" -> length scheme = n ->
  exists s, url = s ++ lit "://" ++ drop (n + 3) url /\ to_ascii_lowercase s = scheme.
Proof.
  intros Ht Hn. exists (take n url). rewrite <- (take_drop n (take (n + 3) url)) in Ht. unfold to_ascii_lowercase in *. rewrite fmap_app in Ht.
  rewrite take_take, Nat.min_l in Ht by lia.
  apply app_inj_1 in Ht as [H1 H2].
  2: { apply (f_equal length) in Ht. rewrite length_app, !length_fmap, !length_app, length_drop, !length_take in Ht. rewrite length_fmap, length_take. cbn in Ht. lia. }
  split; [|done]. apply lower_plain_text in H2; [|done]. rewrite <- H2.
  rewrite <- (take_drop n url) at 1. f_equal. rewrite <- (take_drop 3 (drop n url)) at 1. rewrite drop_drop. f_equal. rewrite skipn_firstn_comm. f_equal. lia.
Qed.

Lemma split_http_scheme_inv url tls rest :
  split_http_scheme url = Some (tls, rest) -> exists s, url = s ++ lit "://" ++ rest /\ to_ascii_lowercase s = scheme_name tls.
Proof.
  unfold split_http_scheme, eq_ignore_ascii_case. case_bool_decide as E8; [|case_bool_decide as E7; [|done]]; intros [= <- <-].
  - by apply (scheme_cut 5).
  - by apply (scheme_cut 4).
Qed.

Lemma scheme_no_colon s tls : to_ascii_lowercase s = scheme_name tls -> ":"%char ∉ s.
Proof. intros Hs. apply lower_not_in; [|done]. rewrite Hs. destruct tls; by_decide. Qed.

Lemma find_scheme s tls rest : to_ascii_lowercase s = scheme_name tls -> find_text (lit "://") (s ++ lit "://" ++ rest) = Some (s, lit "://" ++ rest).
Proof. intros Hs. apply find_text_first; [done|]. intros c Hc [= <-]. by apply (scheme_no_colon s tls). Qed.

(** *** The authority *)
Definition auth_char (c : ascii) : bool := is_ascii_alphanumeric c || bool_decide (c ∈ lit "-._:[]").

Ltac each_octet c := destruct c as [[] [] [] [] [] [] [] []]; vm_compute; (done || congruence).

Lemma auth_char_plain c : auth_char c = true -> ends_authority c = false /\ c <> "@"%char /\ is_slash c = false.
Proof. each_octet c. Qed.

Lemma host_auth_char c : host_char c = true -> auth_char c = true /\ c <> ":"%char /\ c <> "["%char /\ c <> "]"%char.
Proof. each_octet c. Qed.

Lemma ip_auth_char c : is_ip_char c = true -> auth_char c = true /\ c <> "]"%char /\ c <> "["%char.
Proof. each_octet c. Qed.

Lemma digit_auth_char c : is_ascii_digit c = true -> auth_char c = true /\ c <> ":"%char /\ c <> "]"%char.
Proof. each_octet c. Qed.

(** What an accepted authority looks like: a name or an IPv4 address, or an IPv6 address in
    brackets, and a port. *)
Definition host_text (bracketed : bool) (host : text) : text := if bracketed then lit "[" ++ host ++ lit "]" else host.
Definition port_text (port : option text) : text := match port with Some digits => lit ":" ++ digits | None => [] end.

Record plain_authority (authority : text) (bracketed : bool) (host : text) (port : option text) : Prop := {
  pa_text : authority = host_text bracketed host ++ port_text port;
  pa_host : host <> [];
  pa_chars : Forall (fun c => (if bracketed then is_ip_char c else host_char c) = true) host;
  pa_port : forall digits, port = Some digits -> digits <> [] /\ Forall (fun c => is_ascii_digit c = true) digits;
}.

Record parsed (url : text) (p : UrlParts) (scheme rest : text) (bracketed : bool) (port : option text) (number : N) : Prop := {
  ps_url : url = scheme ++ lit "://" ++ up_authority p ++ rest;
  ps_lower : to_ascii_lowercase scheme = scheme_name (up_tls p);
  ps_tail : rest = [] \/ exists t, rest = "/"%char :: t;
  ps_path : up_path_and_query p = match rest with [] => lit "/" | _ => rest end;
  ps_authority : plain_authority (up_authority p) bracketed (up_host p) port;
  ps_number : port_number (up_tls p) port = Some number;
  ps_dial : up_dial p = host_text bracketed (up_host p) ++ lit ":" ++ to_dec number;
  ps_octets : Forall (fun c => refused_octet c = false) url;
}.

Lemma port_number_digits tls port n :
  port_number tls port = Some n -> forall digits, port = Some digits -> digits <> [] /\ Forall (fun c => is_ascii_digit c = true) digits.
Proof.
  intros Hn digits ->. cbn in Hn. destruct (negb _ && _) eqn:E; [|done]. apply andb_true_iff in E as [E1%negb_true_iff%bool_decide_eq_false E2].
  split; [done|]. by apply forallb_Forall_true.
Qed.

Lemma split_authority_plain authority host port tls n :
  split_authority authority = Some (host, port) -> host <> [] -> (starts_with (lit "[") authority || forallb host_char host) = true -> port_number tls port = Some n ->
  plain_authority authority (starts_with (lit "[") authority) host port.
Proof.
  intros Hs Hh Hc Hn. unfold split_authority in Hs. destruct (strip_prefix (lit "[") authority) as [b|] eqn:Eb.
  - apply strip_prefix_Some in Eb as ->. assert (starts_with (lit "[") (lit "[" ++ b) = true) as -> by (apply starts_with_true; by exists b).
    apply bind_Some in Hs as ([literal after]&[-> Hl]%split_once_Some&(groups&Hip&(port'&Hp&[= -> ->])%bind_Some)%bind_Some).
    split; [|done|by eapply parse_ipv6_chars|by eapply port_number_digits]. unfold host_text. rewrite <- !app_assoc. do 2 f_equal. cbn [app]. f_equal.
    destruct after as [|c after]; [by injection Hp as <-|]. apply fmap_Some in Hp as (d&Hd&->). by apply strip_prefix_Some in Hd as ->.
  - assert (starts_with (lit "[") authority = false) as E. { unfold starts_with. rewrite Eb. by apply bool_decide_eq_false_2, is_Some_None. }
    rewrite E in *. cbn [orb] in Hc. injection Hs as Hs. split; [|done| |by eapply port_number_digits].
    + destruct (split_once ":"%char authority) as [[h p]|] eqn:Es; injection Hs as <- <-; [|by rewrite app_nil_r]. apply split_once_Some in Es as [-> _]. done.
    + by apply forallb_Forall_true.
Qed.

Lemma parse_url_parsed url p : parse_url url = Some p -> exists scheme rest bracketed port number, parsed url p scheme rest bracketed port number.
Proof.
  unfold parse_url. destruct (existsb refused_octet url) eqn:Eo; [done|]. intros ([tls rest]&Hs&H)%bind_Some.
  destruct (split_http_scheme_inv _ _ _ Hs) as (scheme&Hurl&Hlow).
  destruct (match find_split is_slash rest with Some (a, b) => (a, b) | None => (rest, lit "/") end) as [authority path] eqn:Ef.
  apply bind_Some in H as ([host port]&Hsp&H). destruct (bool_decide (host = []) || _) eqn:Eg; [done|]. apply orb_false_iff in Eg as [Eh%bool_decide_eq_false Ec%negb_false_iff].
  apply bind_Some in H as (n&Hn&[= <-]). pose proof (split_authority_plain _ _ _ _ _ Hsp Eh Ec Hn) as Hpa.
  exists scheme, (match find_split is_slash rest with Some (_, b) => b | None => [] end), (starts_with (lit "[") authority), port, n.
  split; cbn [up_tls up_authority up_dial up_host up_path_and_query]; try done.
  - rewrite Hurl at 1. do 2 f_equal. destruct (find_split is_slash rest) as [[a b]|] eqn:E; injection Ef as <- <-; [by apply find_split_Some in E as [-> _]|by rewrite app_nil_r].
  - destruct (find_split is_slash rest) as [[a b]|] eqn:E; [right|by left]. apply find_split_Some in E as (_&_&c&b'&->&Hc%bool_decide_eq_true). subst c. by exists b'.
  - destruct (find_split is_slash rest) as [[a b]|] eqn:E; injection Ef as <- <-; [|done]. apply find_split_Some in E as (_&_&c&b'&->&_). done.
  - apply Forall_forall. intros c Hc. apply not_true_iff_false. intros Hr. apply not_true_iff_false in Eo. apply Eo, existsb_exists. exists c. by rewrite <- list_elem_of_In.
Qed.

(** *** The host that is dialed *)
Lemma plain_authority_chars authority bracketed host port : plain_authority authority bracketed host port -> Forall (fun c => auth_char c = true) authority.
Proof.
  intros [-> _ Hc Hp]. apply Forall_app. split.
  - unfold host_text. destruct bracketed; [rewrite !Forall_app; split_and!; [by repeat constructor| |by repeat constructor]|];
      (eapply Forall_impl; [exact Hc|]; intros c H; cbn in H); [by apply ip_auth_char|by apply host_auth_char].
  - unfold port_text. destruct port as [digits|]; [|constructor]. destruct (Hp digits eq_refl) as [_ Hd]. apply Forall_app. split; [by repeat constructor|].
    eapply Forall_impl; [exact Hd|]. intros c H. by apply digit_auth_char.
Qed.

Lemma plain_authority_of authority bracketed host port rest :
  plain_authority authority bracketed host port -> rest = [] \/ (exists t, rest = "/"%char :: t) -> authority_of (authority ++ rest) = authority.
Proof.
  intros Hpa Hr. unfold authority_of. rewrite find_split_first.
  2: { eapply Forall_impl; [by eapply plain_authority_chars|]. intros c Hc. by apply auth_char_plain. }
  destruct Hr as [->|[t ->]]; [by rewrite app_nil_r|done].
Qed.

Lemma plain_authority_no_user authority bracketed host port : plain_authority authority bracketed host port -> rsplit_once "@"%char authority = None.
Proof.
  intros Hpa. apply rsplit_once_None. intros Hin. pose proof (plain_authority_chars _ _ _ _ Hpa) as Hc. rewrite Forall_forall in Hc. apply Hc, auth_char_plain in Hin as (_&?&_). done.
Qed.

Lemma port_no_colon port : (forall digits, port = Some digits -> digits <> [] /\ Forall (fun c => is_ascii_digit c = true) digits) -> forall digits, port = Some digits -> ":"%char ∉ digits.
Proof. intros Hp digits Hd Hin. destruct (Hp digits Hd) as [_ Hf]. rewrite Forall_forall in Hf. apply Hf in Hin. done. Qed.

Lemma name_no_colon host : Forall (fun c => host_char c = true) host -> ":"%char ∉ host.
Proof. intros Hf Hin. rewrite Forall_forall in Hf. apply Hf in Hin. done. Qed.

Lemma checked_host url p scheme rest bracketed port number : parsed url p scheme rest bracketed port number -> loopback_host url = Some (up_host p).
Proof.
  intros []. unfold loopback_host. rewrite ps_url0, find_scheme with (tls := up_tls p) by done. cbn [mbind option_bind snd]. change (drop 3 (lit "://" ++ ?t)) with t.
  rewrite (plain_authority_of _ _ _ _ _ ps_authority0 ps_tail0), (plain_authority_no_user _ _ _ _ ps_authority0). destruct ps_authority0 as [Ht Hh Hc Hp]. rewrite Ht. destruct bracketed; cbn [host_text].
  - rewrite <- app_assoc. cbn [lit String.list_ascii_of_string app strip_prefix]. rewrite decide_True by done. rewrite <- app_assoc. cbn [app].
    assert (split_once "]"%char (up_host p ++ "]"%char :: port_text port) = Some (up_host p, port_text port)) as ->; [|done]. apply split_once_Some. split; [done|].
    intros Hin. rewrite Forall_forall in Hc. apply Hc, ip_auth_char in Hin as (_&?&_). done.
  - assert (strip_prefix (lit "[") (up_host p ++ port_text port) = None) as ->.
    { destruct (up_host p) as [|c h] eqn:E; [done|]. apply Forall_cons in Hc as [Hc _]. cbn. rewrite decide_False; [done|]. intros <-. done. }
    f_equal. destruct port as [digits|]; cbn [port_text].
    + change (lit ":" ++ digits) with (":"%char :: digits). by rewrite rsplit_once_app by by eapply port_no_colon.
    + rewrite app_nil_r. by rewrite (proj2 (rsplit_once_None _ _)) by by apply name_no_colon.
Qed.

(** *** Origins *)
Definition default_port_text (tls : bool) : text := if tls then lit "443" else lit "80".

(** The port as an origin has it. *)
Definition origin_port (tls : bool) (port : option text) : option text :=
  match port with Some d => if bool_decide (d = default_port_text tls) then None else Some d | None => None end.

(** The host as an origin has it. *)
Definition origin_host (bracketed : bool) (host : text) : text := to_ascii_lowercase (without_root_dot (host_text bracketed host)).

Lemma no_upper_lower t : existsb is_ascii_upper t = false -> to_ascii_lowercase t = t.
Proof.
  induction t as [|c t IH]; [done|]. cbn. rewrite orb_false_iff. intros [Hc Ht]. f_equal; [|by apply IH]. unfold ascii_lower. by rewrite Hc.
Qed.

Lemma default_port_scheme scheme tls : to_ascii_lowercase scheme = scheme_name tls -> default_port scheme = Some (default_port_text tls).
Proof.
  intros Hs. unfold default_port, eq_ignore_ascii_case. rewrite Hs. by destruct tls.
Qed.

Lemma host_and_port_plain authority bracketed host port :
  plain_authority authority bracketed host port -> host_and_port authority = Some (host_text bracketed host, port).
Proof.
  intros [-> Hh Hc Hp]. unfold host_and_port. destruct bracketed; cbn [host_text].
  - assert (starts_with (lit "[") ((lit "[" ++ host ++ lit "]") ++ port_text port) = true) as ->. { apply starts_with_true. exists (host ++ lit "]" ++ port_text port). by rewrite <- !app_assoc. }
    assert (split_once "]"%char ((lit "[" ++ host ++ lit "]") ++ port_text port) = Some (lit "[" ++ host, port_text port)) as ->.
    { apply split_once_Some. rewrite <- !app_assoc. split; [done|]. apply not_elem_of_app. split; [by_decide|].
      intros Hin. rewrite Forall_forall in Hc. apply Hc, ip_auth_char in Hin as (_&?&_). done. }
    cbn [mbind option_bind]. rewrite <- app_assoc. do 2 f_equal. destruct port as [digits|]; [|done]. by apply strip_prefix_Some.
  - assert (starts_with (lit "[") (host ++ port_text port) = false) as ->.
    { destruct host as [|c h] eqn:E; [done|]. apply Forall_cons in Hc as [Hc _]. rewrite <- app_comm_cons. change (lit "[") with ["["%char]. rewrite starts_with_one. apply bool_decide_eq_false_2. intros <-. done. }
    f_equal. destruct port as [digits|]; cbn [port_text].
    + change (lit ":" ++ digits) with (":"%char :: digits). by rewrite rsplit_once_app by by eapply port_no_colon.
    + rewrite app_nil_r. by rewrite (proj2 (rsplit_once_None _ _)) by by apply name_no_colon.
Qed.

Lemma host_text_some bracketed host : host <> [] -> host_text bracketed host <> [].
Proof. by destruct bracketed. Qed.

Lemma origin_parsed url p scheme rest bracketed port number :
  parsed url p scheme rest bracketed port number ->
  origin url = scheme_name (up_tls p) ++ lit "://" ++ origin_host bracketed (up_host p) ++ port_text (origin_port (up_tls p) port).
Proof.
  intros []. unfold origin. rewrite ps_url0, find_scheme with (tls := up_tls p) by done. change (drop 3 (lit "://" ++ ?t)) with t.
  rewrite (plain_authority_of _ _ _ _ _ ps_authority0 ps_tail0), (plain_authority_no_user _ _ _ _ ps_authority0), (host_and_port_plain _ _ _ _ ps_authority0).
  rewrite (bool_decide_eq_false_2 (host_text _ _ = [])) by (apply host_text_some, ps_authority0). rewrite (default_port_scheme _ _ ps_lower0).
  assert (match port with Some p0 => if negb (bool_decide (p0 = [])) && negb (bool_decide (Some (default_port_text (up_tls p)) = Some p0)) then Some p0 else None | None => None end
    = origin_port (up_tls p) port) as ->.
  { unfold origin_port. destruct port as [d|]; [|done]. destruct (pa_port _ _ _ _ ps_authority0 d eq_refl) as [Hd _]. rewrite (bool_decide_eq_false_2 (d = [])) by done. cbn.
    repeat case_bool_decide; cbn; (done || congruence). }
  destruct (negb _) eqn:E.
  - apply negb_true_iff in E. rewrite !orb_false_iff, !negb_false_iff, !bool_decide_eq_true in E. destruct E as ((((Es&Eh)&En)&Ep)&_).
    rewrite <- ps_lower0, (no_upper_lower _ Es). do 2 f_equal. unfold origin_host. rewrite (no_upper_lower _ Eh), En, <- Ep. apply ps_authority0.
  - rewrite ps_lower0. done.
Qed.

Lemma origin_host_plain host : host <> [] -> Forall (fun c => host_char c = true) host -> exists c h, origin_host false host = c :: h /\ c <> "["%char /\ (":"%char ∉ c :: h).
Proof.
  intros Hh Hc. unfold origin_host, host_text. assert (Forall (fun c => host_char c = true) (without_root_dot host) /\ without_root_dot host <> []) as [Hw Hne].
  { unfold without_root_dot. destruct (_ && _ && _) eqn:E; [|done]. split; [by apply Forall_take|]. apply andb_true_iff in E as [[E%Nat.ltb_lt _]%andb_true_iff _].
    destruct host as [|c [|d host]]; cbn in *; [done|lia|done]. }
  assert (Forall (fun c => c <> "["%char /\ c <> ":"%char) (to_ascii_lowercase (without_root_dot host))) as Hl.
  { unfold to_ascii_lowercase. apply Forall_fmap. eapply Forall_impl; [exact Hw|]. intros c H. cbn. clear -H. each_octet c. }
  destruct (to_ascii_lowercase (without_root_dot host)) as [|c h] eqn:E; [destruct (without_root_dot host); done|]. exists c, h. split_and!; [done|by apply Forall_cons in Hl as [[? _] _]|].
  intros Hin. rewrite Forall_forall in Hl. apply Hl in Hin as [_ ?]. done.
Qed.

Lemma origin_host_bracketed host : origin_host true host = lit "[" ++ to_ascii_lowercase host ++ lit "]".
Proof.
  unfold origin_host, host_text, without_root_dot. rewrite app_assoc. assert (ends_with (lit ".") ((lit "[" ++ host) ++ lit "]") = false) as ->.
  { unfold ends_with. apply bool_decide_eq_false_2. intros [x Hx%strip_suffix_Some]. change (lit "]") with ["]"%char] in Hx. change (lit ".") with ["."%char] in Hx. apply (f_equal last) in Hx. rewrite !last_snoc in Hx. done. }
  rewrite andb_false_r. cbn [andb]. unfold to_ascii_lowercase. by rewrite !fmap_app, <- app_assoc.
Qed.

Lemma lower_ip_no_bracket host : Forall (fun c => is_ip_char c = true) host -> "]"%char ∉ to_ascii_lowercase host.
Proof.
  intros Hc Hin. unfold to_ascii_lowercase in Hin. apply list_elem_of_fmap in Hin as (c&Hl&Hin). rewrite Forall_forall in Hc. specialize (Hc c Hin). clear -Hl Hc. revert Hl Hc. each_octet c.
Qed.

(** Host and port are read off an origin. *)
Lemma origin_tail_inj b1 h1 p1 b2 h2 p2 a1 a2 q1 q2 :
  plain_authority a1 b1 h1 q1 -> plain_authority a2 b2 h2 q2 ->
  origin_host b1 h1 ++ port_text p1 = origin_host b2 h2 ++ port_text p2 -> b1 = b2 /\ origin_host b1 h1 = origin_host b2 h2 /\ p1 = p2.
Proof.
  intros H1 H2 E. assert (forall p p', port_text p = port_text p' -> p = p') as Hport. { intros [d|] [d'|]; cbn; congruence. }
  destruct b1, b2.
  - rewrite !origin_host_bracketed in *. rewrite <- !app_assoc in E. apply app_inv_head in E.
    pose proof (lower_ip_no_bracket _ (pa_chars _ _ _ _ H1)) as N1. pose proof (lower_ip_no_bracket _ (pa_chars _ _ _ _ H2)) as N2.
    assert (split_once "]"%char (to_ascii_lowercase h1 ++ lit "]" ++ port_text p1) = Some (to_ascii_lowercase h1, port_text p1)) as S1 by by apply split_once_Some.
    assert (split_once "]"%char (to_ascii_lowercase h2 ++ lit "]" ++ port_text p2) = Some (to_ascii_lowercase h2, port_text p2)) as S2 by by apply split_once_Some.
    rewrite E, S2 in S1. injection S1 as -> Hp. split_and!; [done|done|symmetry; by apply Hport].
  - exfalso. rewrite origin_host_bracketed in E. destruct (origin_host_plain h2 (pa_host _ _ _ _ H2) (pa_chars _ _ _ _ H2)) as (c&h&Hh&Hc&_). rewrite Hh in E. injection E as E _. by apply Hc.
  - exfalso. rewrite (origin_host_bracketed h2) in E. destruct (origin_host_plain h1 (pa_host _ _ _ _ H1) (pa_chars _ _ _ _ H1)) as (c&h&Hh&Hc&_). rewrite Hh in E. injection E as E _. by apply Hc.
  - destruct (origin_host_plain h1 (pa_host _ _ _ _ H1) (pa_chars _ _ _ _ H1)) as (c&t1&E1&_&N1). destruct (origin_host_plain h2 (pa_host _ _ _ _ H2) (pa_chars _ _ _ _ H2)) as (c'&t2&E2&_&N2).
    rewrite <- E1 in N1. rewrite <- E2 in N2. clear E1 E2.
    assert (forall h p, ":"%char ∉ h -> split_once ":"%char (h ++ port_text p) = (fun d => (h, d)) <$> p) as Hsplit.
    { intros h [d|] Hn; cbn [port_text fmap option_fmap option_map]; [by apply split_once_Some|]. rewrite app_nil_r. by apply split_once_None. }
    pose proof (Hsplit _ p1 N1) as S1. pose proof (Hsplit _ p2 N2) as S2. rewrite E, S2 in S1.
    destruct p1 as [d1|], p2 as [d2|]; cbn in S1; try done; [by injection S1 as -> ->|]. cbn [port_text] in E. rewrite !app_nil_r in E. by rewrite E.
Qed.

Lemma origin_port_number tls p1 p2 n1 n2 : port_number tls p1 = Some n1 -> port_number tls p2 = Some n2 -> origin_port tls p1 = origin_port tls p2 -> n1 = n2.
Proof.
  assert (forall p n, port_number tls p = Some n -> origin_port tls p = None -> n = if tls then 443%N else 80%N) as Hdef.
  { intros [d|] n; cbn [origin_port]; [|by intros [= <-]]. case_bool_decide; [|done]. subst d. destruct tls; vm_compute; congruence. }
  intros H1 H2 E. destruct (origin_port tls p1) as [d|] eqn:E1; [|rewrite (Hdef p1 n1), (Hdef p2 n2); done].
  assert (forall p, origin_port tls p = Some d -> p = Some d) as Hd. { intros [x|]; cbn; [|done]. by case_bool_decide. }
  rewrite (Hd p1 E1) in H1. rewrite (Hd p2 (eq_sym E)) in H2. congruence.
Qed.

(** What a client dials: TLS or not, a host without case and root dot, and a port. *)
Definition dialed (p : UrlParts) (bracketed : bool) (number : N) : bool * text * N := (up_tls p, origin_host bracketed (up_host p), number).

Lemma same_origin_dials a b pa pb s1 r1 b1 q1 n1 s2 r2 b2 q2 n2 :
  parsed a pa s1 r1 b1 q1 n1 -> parsed b pb s2 r2 b2 q2 n2 -> same_origin a b = true -> dialed pa b1 n1 = dialed pb b2 n2 /\ b1 = b2.
Proof.
  intros H1 H2 Hs. apply bool_decide_eq_true in Hs. rewrite (origin_parsed _ _ _ _ _ _ _ H1), (origin_parsed _ _ _ _ _ _ _ H2) in Hs.
  assert (up_tls pa = up_tls pb) as Ht. { destruct (up_tls pa), (up_tls pb); cbn in Hs; congruence. }
  rewrite Ht in Hs. do 2 apply app_inv_head in Hs.
  destruct (origin_tail_inj _ _ _ _ _ _ _ _ _ _ (ps_authority _ _ _ _ _ _ _ H1) (ps_authority _ _ _ _ _ _ _ H2) Hs) as (Hb&Hh&Hp).
  split; [|done]. unfold dialed. rewrite Ht, Hh. f_equal. apply (origin_port_number (up_tls pb) q1 q2); [rewrite <- Ht; apply (ps_number _ _ _ _ _ _ _ H1)|apply (ps_number _ _ _ _ _ _ _ H2)|done].
Qed.
