(* ===== verification/EventExpand.v ===== *)
(** The subscription URL (jmap-client/src/eventsource.rs: [expand_url], and its callers in client.rs
    and jmap-backend-core/src/push.rs, which trim the template): what a template may
    make of the host that gets the credentials, and what the server reads of it. *)

From Stdlib Require Import Ascii String.
From stdpp Require Import prelude strings.
From S2P Require Import Prelude Text Strings Octets IpAddr Url EventUrl.

Local Open Scope rust_scope.

(** ** Expanding a template *)
Definition ALL_TYPES : text := lit "*".

Definition KEEP (c : ascii) : bool := negb (is_ascii_alphanumeric c || bool_decide (c ∈ lit "-._~,*")).

Definition substitute (acc : text * bool) (variable : text * text) : text * bool :=
  if str_contains variable.1 acc.1 then (replace variable.1 variable.2 acc.1, true) else acc.

Definition types_value (utf8_percent_encode : (ascii -> bool) -> text -> text) (types : list text) : text :=
  utf8_percent_encode KEEP (if bool_decide (types = []) then ALL_TYPES else join (lit ",") types).

Definition expand_url (utf8_percent_encode : (ascii -> bool) -> text -> text) (template : text) (types : list text) (close_after_state : bool) (ping_seconds : N) : text :=
  let types := types_value utf8_percent_encode types in
  let closeafter := if close_after_state then lit "state" else lit "no" in
  let ping := to_dec ping_seconds in
  let '(expanded, substituted) := fold_left substitute [(lit "{types}", types); (lit "{closeafter}", closeafter); (lit "{ping}", ping)] (template, false) in
  if substituted then expanded
  else expanded ++ (if str_contains (lit "?") expanded then lit "&" else lit "?") ++
       lit "types=" ++ types ++ lit "&closeafter=" ++ closeafter ++ lit "&ping=" ++ ping.

(** The URL of a subscription: the template of the session without the white space around it,
    filled in.  A session without a template has no event source. *)
Definition subscription_url (utf8_percent_encode : (ascii -> bool) -> text -> text) (event_source_url : text) (types : list text) (ping_seconds : N) : option text :=
  let template := trim event_source_url in
  if bool_decide (template = []) then None else Some (expand_url utf8_percent_encode template types false ping_seconds).

(** ** Replacing *)
Definition OPEN : ascii := "{"%char.

(** A pattern that starts with a brace and has none of the characters that structure a URL. *)
Definition variable_pattern (pat : text) : Prop := exists name, pat = OPEN :: name /\ (OPEN ∉ name).

Lemma replace_absent pat to t : str_contains pat t = false -> pat <> [] -> replace pat to t = t.
Proof.
  intros Hn Hp. unfold replace. induction t as [|c t IH]; [done|]. cbn [str_contains replace_from] in *. apply orb_false_iff in Hn as [-> Hn]. f_equal. by apply IH.
Qed.

(** The text between two places where a pattern cannot be is replaced by itself. *)
Lemma replace_from_app pat to k a c b :
  c ∉ pat -> pat <> [] -> k <= length a -> replace_from pat to k (a ++ c :: b) = replace_from pat to k a ++ c :: replace pat to b.
Proof.
  intros Hc Hp. assert (forall a, a <> [] -> starts_with pat (a ++ c :: b) = starts_with pat a) as Hstart.
  { intros a' Ha. destruct (starts_with pat a') eqn:E.
    - apply starts_with_true in E as [r ->]. apply starts_with_true. exists (r ++ c :: b). by rewrite app_assoc.
    - apply not_true_iff_false. intros [r Hr]%starts_with_true. apply not_true_iff_false in E. apply E. apply starts_with_true.
      destruct (decide (length pat <= length a')) as [Hl|Hl].
      + exists (take (length a' - length pat) r). apply (f_equal (take (length a'))) in Hr. rewrite take_app_length in Hr. rewrite Hr at 1. rewrite take_app, (take_ge pat) by lia. done.
      + exfalso. apply Hc. apply (f_equal (fun l => l !! length a')) in Hr. rewrite list_lookup_middle in Hr by done. rewrite lookup_app_l in Hr by lia. by eapply list_elem_of_lookup_2. }
  revert k. induction a as [|d a IH]; intros k Hk.
  - destruct k; [|cbn in Hk; lia]. cbn [app replace_from]. assert (starts_with pat (c :: b) = false) as ->; [|done].
    apply not_true_iff_false. intros [r Hr]%starts_with_true. destruct pat as [|p pat]; [done|]. injection Hr as -> _. apply Hc. by left.
  - destruct k as [|k]; [|cbn [app replace_from]; apply IH; cbn in Hk; lia]. cbn [app replace_from]. change (d :: a ++ c :: b) with ((d :: a) ++ c :: b). rewrite Hstart by done.
    destruct (starts_with pat (d :: a)) eqn:E; [|rewrite <- app_comm_cons; f_equal; apply IH; lia]. rewrite <- app_assoc. f_equal. apply IH.
    apply starts_with_true in E as [r Hr]. apply (f_equal length) in Hr. rewrite length_app in Hr. cbn in Hr. destruct pat; [done|]. cbn in *. lia.
Qed.

Lemma replace_app pat to a c b : c ∉ pat -> pat <> [] -> replace pat to (a ++ c :: b) = replace pat to a ++ c :: replace pat to b.
Proof. intros. apply replace_from_app; [done..|lia]. Qed.

Lemma replace_closed pat to t : variable_pattern pat -> OPEN ∉ t -> replace pat to t = t.
Proof.
  intros (name&->&_) Hn. apply replace_absent; [|done]. apply not_true_iff_false. intros (a&b&->)%str_contains_true. apply Hn. rewrite elem_of_app. right. by left.
Qed.

(** Which characters a replacement can bring in. *)
Lemma replace_from_chars (P : ascii -> Prop) pat to k t : Forall P t -> Forall P to -> Forall P (replace_from pat to k t).
Proof.
  intros Ht Hto. revert k. induction Ht as [|c t Hc _ IH]; intros k; cbn [replace_from]; [constructor|]. destruct k; [|apply IH].
  destruct (starts_with pat (c :: t)); [apply Forall_app; split; [done|apply IH]|constructor; [done|apply IH]].
Qed.

Lemma replace_chars (P : ascii -> Prop) pat to t : Forall P t -> Forall P to -> Forall P (replace pat to t).
Proof. apply replace_from_chars. Qed.

(** ** Filling the variables in *)
Definition filled (variables : list (text * text)) (t : text) : text := fold_left (fun t v => replace v.1 v.2 t) variables t.

(** A character that a value can have. *)
Definition value_char (c : ascii) : bool := is_ascii_alphanumeric c || bool_decide (c ∈ lit "-._~,*%").

(** A character of a URL that no variable and no value has. *)
Definition structural (c : ascii) : bool := bool_decide (c ∈ lit ":/?#@[]") || bool_decide (c = BACKSLASH).

Definition variable_ok (v : text * text) : Prop :=
  variable_pattern v.1 /\ Forall (fun c => structural c = false) v.1 /\ v.2 <> [] /\ Forall (fun c => value_char c = true) v.2.

Lemma value_not_structural c : value_char c = true -> structural c = false /\ c <> OPEN.
Proof. each_octet c. Qed.

Lemma pattern_nonempty v : variable_ok v -> v.1 <> [].
Proof. intros [(name&E&_) _]. rewrite E. done. Qed.

Lemma filled_app variables a c b : Forall variable_ok variables -> structural c = true -> filled variables (a ++ c :: b) = filled variables a ++ c :: filled variables b.
Proof.
  intros Hok Hc. revert a b. unfold filled. induction Hok as [|v vs Hv _ IH]; intros a b; [done|]. cbn [fold_left]. rewrite replace_app; [by apply IH| |by apply pattern_nonempty].
  destruct Hv as (_&Hs&_). intros Hin. rewrite Forall_forall in Hs. apply Hs in Hin. congruence.
Qed.

Lemma filled_closed variables t : Forall variable_ok variables -> OPEN ∉ t -> filled variables t = t.
Proof.
  intros Hok Ht. unfold filled. induction Hok as [|v vs Hv _ IH]; [done|]. cbn [fold_left]. rewrite replace_closed; [apply IH|apply Hv|done].
Qed.

Lemma filled_chars variables (P : ascii -> Prop) t : Forall variable_ok variables -> (forall c, value_char c = true -> P c) -> Forall P t -> Forall P (filled variables t).
Proof.
  intros Hok HP. revert t. unfold filled. induction Hok as [|v vs Hv _ IH]; intros t Ht; [done|]. cbn [fold_left]. apply IH, replace_chars; [done|].
  destruct Hv as (_&_&_&Hc). eapply Forall_impl; [exact Hc|]. done.
Qed.

Lemma filled_without variables c t : Forall variable_ok variables -> structural c = true -> c ∉ t -> c ∉ filled variables t.
Proof.
  intros Hok Hc Ht Hin. assert (Forall (fun d => d <> c) (filled variables t)) as Hf.
  { apply filled_chars; [done|intros d Hd ->; apply value_not_structural in Hd as [? _]; congruence|]. apply Forall_forall. intros d Hd ->. done. }
  rewrite Forall_forall in Hf. by apply (Hf c).
Qed.

Lemma filled_nil variables : Forall variable_ok variables -> filled variables [] = [].
Proof. intros Hok. apply filled_closed; [done|apply not_elem_of_nil]. Qed.

(** What starts with another character than [d] and is not empty stays so. *)
Definition starts_other (d : ascii) (t : text) : Prop := exists c t', t = c :: t' /\ c <> d.

Lemma filled_other variables d t : Forall variable_ok variables -> structural d = true -> starts_other d t -> starts_other d (filled variables t).
Proof.
  intros Hok Hd. revert t. unfold filled. induction Hok as [|v vs Hv _ IH]; intros t Ht; [done|]. cbn [fold_left]. apply IH. destruct Ht as (c&t'&->&Hc). destruct Hv as (_&_&Hne&Hvc).
  unfold replace. cbn [replace_from]. destruct (starts_with v.1 (c :: t')); [|by exists c, (replace_from v.1 v.2 0 t')].
  destruct v.2 as [|x to]; [done|]. apply Forall_cons in Hvc as [Hx _]. eexists x, _. split; [done|]. intros ->. apply value_not_structural in Hx as [? _]. congruence.
Qed.

Lemma filled_slash variables t y r : Forall variable_ok variables -> filled variables t ++ y = "/"%char :: r -> t <> [] -> exists t', t = "/"%char :: t' /\ filled variables t' ++ y = r.
Proof.
  intros Hok. destruct t as [|c t]; [done|]. intros E _. destruct (decide (c = "/"%char)) as [->|Hc].
  - exists t. split; [done|]. pose proof (filled_app variables [] "/"%char t Hok eq_refl) as Hf. cbn [app] in Hf. rewrite filled_nil in Hf by done. rewrite Hf in E. by injection E.
  - destruct (filled_other variables "/"%char (c :: t) Hok eq_refl) as (d&t'&Hf&Hd); [by exists c, t|]. rewrite Hf in E. by injection E as ->.
Qed.

Lemma find_text_Some needle t a b :
  find_text needle t = Some (a, b) -> t = a ++ b /\ (exists r, b = needle ++ r) /\ forall a1 a2, a = a1 ++ a2 -> a2 <> [] -> starts_with needle (a2 ++ b) = false.
Proof.
  revert a b. induction t as [|c t IH]; intros a b; cbn [find_text]; destruct (starts_with needle _) eqn:E.
  - intros [= <- <-]. apply starts_with_true in E as [r E]. split_and!; [done|by exists r|]. intros a1 a2 Ha Hn. symmetry in Ha. apply app_nil in Ha as [_ ->]. done.
  - done.
  - intros [= <- <-]. apply starts_with_true in E as [r E]. split_and!; [done|by exists r|]. intros a1 a2 Ha Hn. symmetry in Ha. apply app_nil in Ha as [_ ->]. done.
  - intros ([a' b']&Hf&[= -> ->])%fmap_Some. destruct (IH _ _ Hf) as (->&Hr&Hfirst). split_and!; [done|done|].
    intros [|x a1] a2 Ha Hn; cbn in Ha; [by subst a2|]. injection Ha as _ ->. by eapply Hfirst.
Qed.

(** The scheme and the authority of an expanded template are those of the template, filled in. *)
Lemma filled_scheme variables scheme rest suffix s' tail :
  Forall variable_ok variables ->
  (forall a1 a2, scheme = a1 ++ a2 -> a2 <> [] -> starts_with (lit "://") (a2 ++ lit "://" ++ rest) = false) ->
  ":"%char ∉ s' -> filled variables (scheme ++ lit "://" ++ rest) ++ suffix = s' ++ lit "://" ++ tail ->
  filled variables scheme = s' /\ filled variables rest ++ suffix = tail.
Proof.
  intros Hv Hfirst Hs E. assert (filled variables (scheme ++ lit "://" ++ rest) = filled variables scheme ++ lit "://" ++ filled variables rest) as Hf.
  { change (lit "://" ++ rest) with (":"%char :: ["/"%char] ++ "/"%char :: rest). rewrite !filled_app by done. rewrite (filled_closed variables ["/"%char] Hv) by by_decide. done. }
  rewrite Hf, <- app_assoc in E. clear Hf. destruct (split_once ":"%char scheme) as [[u v]|] eqn:Es.
  - exfalso. apply split_once_Some in Es as [-> Hu]. rewrite filled_app, <- app_assoc in E by done.
    assert (Some (filled variables u, filled variables v ++ (lit "://" ++ filled variables rest) ++ suffix) = Some (s', lit "//" ++ tail)) as Eq.
    { transitivity (split_once ":"%char (s' ++ lit "://" ++ tail)); [|by apply split_once_Some]. rewrite <- E. symmetry. apply split_once_Some. split; [done|]. by apply filled_without. }
    injection Eq as _ E2. destruct (decide (v = [])) as [->|Hv1]; [rewrite filled_nil in E2 by done; by cbn in E2|].
    destruct (filled_slash variables _ _ _ Hv E2 Hv1) as (v1&->&E3). destruct (decide (v1 = [])) as [->|Hv2]; [rewrite filled_nil in E3 by done; by cbn in E3|].
    destruct (filled_slash variables _ _ _ Hv E3 Hv2) as (v2&->&_). specialize (Hfirst u (":"%char :: "/"%char :: "/"%char :: v2) eq_refl ltac:(done)).
    apply not_true_iff_false in Hfirst. apply Hfirst, starts_with_true. by eexists.
  - apply split_once_None in Es.
    assert (Some (filled variables scheme, lit "//" ++ filled variables rest ++ suffix) = Some (s', lit "//" ++ tail)) as Eq.
    { transitivity (split_once ":"%char (s' ++ lit "://" ++ tail)); [|by apply split_once_Some]. rewrite <- E. symmetry. apply split_once_Some. split; [by rewrite <- !app_assoc|]. by apply filled_without. }
    injection Eq as -> E2. split; [done|]. done.
Qed.

Lemma authority_of_split rest :
  exists tail, rest = authority_of rest ++ tail /\ Forall (fun c => ends_authority c = false) (authority_of rest) /\ (tail = [] \/ exists c t, tail = c :: t /\ ends_authority c = true).
Proof.
  unfold authority_of. destruct (find_split ends_authority rest) as [[a b]|] eqn:E.
  - apply find_split_Some in E as (->&Ha&c&b'&->&Hc). exists (c :: b'). split_and!; [done|done|right; by exists c, b'].
  - exists []. split_and!; [by rewrite app_nil_r|by apply find_split_None|by left].
Qed.

Lemma authority_of_cut a b : Forall (fun c => ends_authority c = false) a -> (b = [] \/ exists c t, b = c :: t /\ ends_authority c = true) -> authority_of (a ++ b) = a.
Proof.
  intros Ha Hb. unfold authority_of. rewrite find_split_first by done. destruct Hb as [->|(c&t&->&Hc)]; [by rewrite app_nil_r|by rewrite Hc].
Qed.

Lemma ends_structural c : ends_authority c = true -> structural c = true.
Proof. each_octet c. Qed.

Lemma value_not_end c : value_char c = true -> ends_authority c = false.
Proof. each_octet c. Qed.

Lemma contains_char c t : str_contains [c] t = true <-> c ∈ t.
Proof.
  rewrite str_contains_true. split; [intros (a&b&->); rewrite elem_of_app; right; by left|]. intros (a&b&->)%list_elem_of_split. by exists a, b.
Qed.

(** What is added to a template without variables. *)
Definition added (expanded suffix : text) : Prop := suffix = [] \/ exists x, suffix = (if str_contains (lit "?") expanded then lit "&" else lit "?") ++ x.

Lemma filled_authority variables scheme rest suffix url p s' r b q n :
  Forall variable_ok variables -> find_text (lit "://") (scheme ++ lit "://" ++ rest) = Some (scheme, lit "://" ++ rest) ->
  url = filled variables (scheme ++ lit "://" ++ rest) ++ suffix -> added (filled variables (scheme ++ lit "://" ++ rest)) suffix ->
  parsed url p s' r b q n -> up_authority p = filled variables (authority_of rest).
Proof.
  intros Hv Hfind Hurl Hadd [Hu Hlow Htail _ Hpa _ _ _]. apply find_text_Some in Hfind as (_&_&Hfirst).
  pose proof (scheme_no_colon _ _ Hlow) as Hcolon. rewrite Hurl in Hu.
  assert (filled variables scheme = s' /\ filled variables rest ++ suffix = up_authority p ++ r) as [Hs Hr].
  { apply (filled_scheme variables scheme rest suffix s'); [done|done|done|]. exact Hu. }
  rewrite <- (plain_authority_of _ _ _ _ r Hpa Htail). rewrite <- Hr. destruct (authority_of_split rest) as (tail&Hrest&Hends&Ht).
  rewrite Hrest at 1. assert (Forall (fun c => ends_authority c = false) (filled variables (authority_of rest))) as Hf.
  { apply filled_chars; [done| |done]. intros c Hc. by apply value_not_end. }
  destruct Ht as [->|(c&t&->&Hc)].
  - rewrite app_nil_r. apply authority_of_cut; [done|]. destruct Hadd as [->|[x ->]]; [by left|right].
    assert (str_contains (lit "?") (filled variables (scheme ++ lit "://" ++ rest)) = false) as ->; [|by exists "?"%char, x].
    apply not_true_iff_false. change (lit "?") with ["?"%char]. rewrite contains_char.
    change (lit "://" ++ rest) with (":"%char :: ["/"%char] ++ "/"%char :: rest). rewrite !filled_app by done. rewrite (filled_closed variables ["/"%char] Hv) by by_decide.
    rewrite Hs, Hrest, app_nil_r. cbn [app]. rewrite elem_of_app, !elem_of_cons. intros [Hin|[?|[?|[?|Hin]]]]; [|done..|].
    + revert Hin. apply lower_not_in; [|done]. rewrite Hlow. destruct (up_tls p); by_decide.
    + rewrite Forall_forall in Hf. apply Hf in Hin. done.
  - rewrite filled_app by (done || by apply ends_structural). rewrite <- app_assoc. apply authority_of_cut; [done|]. right. by exists c, (filled variables t ++ suffix).
Qed.

Lemma filled_head variables c t : Forall variable_ok variables -> c <> OPEN -> exists t', filled variables (c :: t) = c :: t'.
Proof.
  intros Hv Ho. unfold filled. revert t. induction Hv as [|v vs Hv _ IH]; intros t; [by exists t|]. cbn [fold_left].
  destruct Hv as ((name&Hn&_)&_). rewrite replace_step; [apply IH|]. apply not_true_iff_false. intros [r Hr]%starts_with_true. rewrite Hn in Hr. by injection Hr.
Qed.

(** ** Loopback hosts *)
Definition loop_char (c : ascii) : bool := is_ascii_alphanumeric c || bool_decide (c ∈ lit ":.").

Lemma ip_loop_char c : is_ip_char c = true -> loop_char c = true.
Proof. each_octet c. Qed.

Lemma lower_loop_char c : loop_char (ascii_lower c) = true -> loop_char c = true.
Proof. each_octet c. Qed.

Lemma loop_char_plain c : loop_char c = true -> c <> OPEN /\ c <> "["%char.
Proof. each_octet c. Qed.

Lemma loopback_chars host : host_is_loopback host = true -> host <> [] /\ Forall (fun c => loop_char c = true) host.
Proof.
  unfold host_is_loopback. intros Hl. assert (exists h, (host = h \/ host = h ++ lit ".") /\ h <> [] /\ Forall (fun c => loop_char c = true) h) as (h&Hh&Hne&Hc).
  { exists (default host (strip_suffix (lit ".") host)). split.
    - destruct (strip_suffix (lit ".") host) as [h|] eqn:E; [right; by apply strip_suffix_Some in E|by left].
    - assert (forall h name, eq_ignore_ascii_case h name = true -> name <> [] -> Forall (fun c => loop_char c = true) (to_ascii_lowercase name) -> h <> [] /\ Forall (fun c => loop_char c = true) h) as Hname.
      { intros h name E%bool_decide_eq_true Hn Hc. rewrite <- E in Hc. split; [intros ->; by destruct name|]. unfold to_ascii_lowercase in Hc. apply Forall_fmap in Hc.
        eapply Forall_impl; [exact Hc|]. intros c. apply lower_loop_char. }
      apply orb_true_iff in Hl as [[Hl|Hl]%orb_true_iff|Hl]; [eapply Hname; [exact Hl|done|by repeat constructor]..|].
      destruct (parse_ip_addr _) as [address|] eqn:E; [|done]. split; [intros E'; by rewrite E' in E|].
      eapply Forall_impl; [by eapply parse_ip_chars|]. intros c. apply ip_loop_char. }
  destruct Hh as [->| ->]; [done|]. split; [by destruct h|]. apply Forall_app. split; [done|by repeat constructor].
Qed.

Lemma chars_without (P : ascii -> bool) c t : Forall (fun c => P c = true) t -> P c = false -> c ∉ t.
Proof. intros Hf Hc Hin. rewrite Forall_forall in Hf. apply Hf in Hin. congruence. Qed.

(** The host of an accepted URL, from the host of the template. *)
Lemma filled_host variables authority auth b host q h :
  Forall variable_ok variables -> plain_authority auth b host q -> auth = filled variables authority ->
  Forall (fun c => loop_char c = true) h -> h <> [] ->
  match strip_prefix (lit "[") authority with
  | Some bracketed => fst <$> split_once "]"%char bracketed
  | None => Some (match rsplit_once ":"%char authority with Some (host, _) => host | None => authority end)
  end = Some h ->
  host = h.
Proof.
  intros Hv [Ht Hne Hc Hp] -> Hh Hhne E. assert (filled variables h = h) as Hfh by (apply filled_closed; [done|]; by eapply chars_without).
  destruct (strip_prefix (lit "[") authority) as [bt|] eqn:Eb.
  - apply strip_prefix_Some in Eb as ->. apply fmap_Some in E as ([h0 after]&[-> Hno]%split_once_Some&E0). cbn in E0. subst h0.
    change (lit "[" ++ h ++ "]"%char :: after) with ([] ++ "["%char :: h ++ "]"%char :: after) in Ht. rewrite filled_app, filled_nil, filled_app, Hfh in Ht by done. cbn [app] in Ht.
    destruct b; cbn [host_text] in Ht.
    + rewrite <- !app_assoc in Ht. injection Ht as Ht. assert (Some (h, filled variables after) = Some (host, port_text q)) as Eq; [|by injection Eq].
      transitivity (split_once "]"%char (h ++ "]"%char :: filled variables after)); [symmetry; by apply split_once_Some|]. rewrite Ht. apply split_once_Some. split; [done|].
      by eapply chars_without.
    + destruct host as [|c host]; [done|]. injection Ht as <- _. apply Forall_cons in Hc as [Hc _]. done.
  - assert (b = false) as ->.
    { destruct b; [|done]. exfalso. cbn [host_text] in Ht. rewrite <- app_assoc in Ht. destruct authority as [|c authority]; [by rewrite filled_nil in Ht|].
      assert (c <> "["%char) as Hbr. { intros ->. by cbn in Eb. }
      injection E as E. assert (c <> OPEN) as Ho.
      { intros ->. destruct (rsplit_once ":"%char (OPEN :: authority)) as [[x y]|] eqn:Er; [|subst h; by apply Forall_cons in Hh as [? _]].
        subst x. apply rsplit_once_Some in Er as [Ex _].
        destruct h as [|x h]; [done|]. injection Ex as <- _. by apply Forall_cons in Hh as [? _]. }
      destruct (filled_head variables c authority Hv Ho) as [t Hft]. rewrite Hft in Ht. injection Ht as -> _. done. }
    cbn [host_text] in Ht. injection E as E. pose proof (name_no_colon _ Hc) as Hnc.
    destruct (rsplit_once ":"%char authority) as [[x y]|] eqn:Er.
    + subst x. apply rsplit_once_Some in Er as [-> Hy].
      rewrite filled_app, Hfh in Ht by done. destruct q as [d|]; cbn [port_text] in Ht.
      * assert (Some (h, filled variables y) = Some (host, d)) as Eq; [|by injection Eq].
        transitivity (rsplit_once ":"%char (h ++ ":"%char :: filled variables y)); [symmetry; apply rsplit_once_app; by apply filled_without|]. rewrite Ht. apply rsplit_once_app. by eapply port_no_colon.
      * exfalso. rewrite app_nil_r in Ht. apply Hnc. rewrite <- Ht. apply elem_of_app. right. by left.
    + subst h. rewrite Hfh in Ht. destruct q as [d|]; cbn [port_text] in Ht; [|by rewrite app_nil_r in Ht].
      exfalso. apply rsplit_once_None in Er. apply Er. rewrite Ht. apply elem_of_app. right. by left.
Qed.

(** ** Trimming *)
Definition white_octet (c : ascii) : bool := existsb (fun sp => bool_decide (c ∈ sp)) white_spaces.

Lemma white_octet_plain c : white_octet c = true ->
  structural c = false /\ loop_char c = false /\ auth_char c = false /\ ends_authority c = false /\ is_ascii_alphanumeric (ascii_lower c) = false.
Proof. each_octet c. Qed.

Lemma white_without c t : Forall (fun c => white_octet c = true) t -> structural c = true -> c ∉ t.
Proof. intros Hw Hs Hin. rewrite Forall_forall in Hw. apply Hw, white_octet_plain in Hin as [? _]. congruence. Qed.

Lemma white_space_octets sp : sp ∈ white_spaces -> Forall (fun c => white_octet c = true) sp.
Proof.
  intros Hsp. apply Forall_forall. intros c Hc. apply existsb_exists. exists sp. split; [by apply list_elem_of_In|by apply bool_decide_eq_true].
Qed.

Lemma strip_space_inv t t' : strip_space t = Some t' -> exists sp, t = sp ++ t' /\ Forall (fun c => white_octet c = true) sp.
Proof.
  unfold strip_space, first_Some. intros (sp&Hsp&E%strip_prefix_Some)%head_Some_elem_of%list_elem_of_omap.
  exists sp. split; [done|]. by apply white_space_octets.
Qed.

Lemma strip_space_end_inv t t' : strip_space_end t = Some t' -> exists sp, t = t' ++ sp /\ Forall (fun c => white_octet c = true) sp.
Proof.
  unfold strip_space_end, first_Some. intros (sp&Hsp&E%strip_suffix_Some)%head_Some_elem_of%list_elem_of_omap.
  exists sp. split; [done|]. by apply white_space_octets.
Qed.

Lemma strip_front n t : exists l, t = l ++ strip_all strip_space n t /\ Forall (fun c => white_octet c = true) l.
Proof.
  revert t. induction n as [|n IH]; intros t; cbn [strip_all]; [by exists []|]. destruct (strip_space t) as [t'|] eqn:E; [|by exists []].
  apply strip_space_inv in E as (sp&->&Hsp). destruct (IH t') as (l&E&Hl).
  exists (sp ++ l). rewrite <- app_assoc, <- E. split; [done|]. by apply Forall_app.
Qed.

Lemma strip_back n t : exists r, t = strip_all strip_space_end n t ++ r /\ Forall (fun c => white_octet c = true) r.
Proof.
  revert t. induction n as [|n IH]; intros t; cbn [strip_all]; [exists []; by rewrite app_nil_r|].
  destruct (strip_space_end t) as [t'|] eqn:E; [|exists []; by rewrite app_nil_r].
  apply strip_space_end_inv in E as (sp&->&Hsp). destruct (IH t') as (r&E&Hr).
  exists (r ++ sp). rewrite app_assoc, <- E. split; [done|]. by apply Forall_app.
Qed.

(** Only white space is trimmed off. *)
Lemma trim_parts t :
  exists l r, t = l ++ trim t ++ r /\ Forall (fun c => white_octet c = true) l /\ Forall (fun c => white_octet c = true) r.
Proof.
  unfold trim, trim_end, trim_start. destruct (strip_front (length t) t) as (l&Hl&Hwl). revert Hl.
  generalize (strip_all strip_space (length t) t). intros u Hl. destruct (strip_back (length u) u) as (r&Hr&Hwr).
  exists l, r. by rewrite <- Hr.
Qed.

Lemma starts_with_long pat t x : length pat <= length t -> starts_with pat (t ++ x) = starts_with pat t.
Proof.
  intros Hl. destruct (starts_with pat t) eqn:E.
  - apply starts_with_true in E as [r ->]. apply starts_with_true. exists (r ++ x). by rewrite app_assoc.
  - apply not_true_iff_false. intros [r Hr]%starts_with_true. apply not_true_iff_false in E. apply E, starts_with_true.
    exists (take (length t - length pat) r). apply (f_equal (take (length t))) in Hr. rewrite take_app_length in Hr. rewrite Hr at 1. by rewrite take_app, (take_ge pat) by lia.
Qed.

(** No scheme mark starts in [scheme]. *)
Definition first_mark (scheme : text) : Prop := forall a1 a2, scheme = a1 ++ a2 -> a2 <> [] -> starts_with (lit "://") (a2 ++ lit "://") = false.

Lemma first_mark_before (a2 x : text) : a2 <> [] -> starts_with (lit "://") (a2 ++ lit "://" ++ x) = starts_with (lit "://") (a2 ++ lit "://").
Proof. intros Ha. rewrite app_assoc, starts_with_long; [done|]. rewrite length_app. cbn. lia. Qed.

Lemma find_mark scheme rest : find_text (lit "://") (scheme ++ lit "://" ++ rest) = Some (scheme, lit "://" ++ rest) <-> first_mark scheme.
Proof.
  split.
  - intros (_&_&Hf)%find_text_Some a1 a2 Ha Hn. rewrite <- (first_mark_before a2 rest Hn). by eapply Hf.
  - induction scheme as [|c scheme IH]; intros Hf; [done|].
    pose proof (Hf [] (c :: scheme) eq_refl ltac:(done)) as Hc. rewrite <- (first_mark_before _ rest) in Hc by done.
    cbn [app find_text] in *. rewrite Hc, IH; [done|]. intros a1 a2 -> Hn. by apply (Hf (c :: a1)).
Qed.

Lemma find_mark_None x y : find_text (lit "://") (x ++ lit "://" ++ y) <> None.
Proof.
  induction x as [|c x IH]; [done|]. cbn [app find_text]. destruct (starts_with _ _); [done|]. by destruct (find_text (lit "://") (x ++ lit "://" ++ y)).
Qed.

(** The scheme mark of a text is the mark of the trimmed text. *)
Lemma trim_mark t scheme rest :
  find_text (lit "://") t = Some (scheme, lit "://" ++ rest) ->
  exists l r scheme' rest', Forall (fun c => white_octet c = true) l /\ Forall (fun c => white_octet c = true) r /\
    scheme = l ++ scheme' /\ rest = rest' ++ r /\ trim t = scheme' ++ lit "://" ++ rest' /\ first_mark scheme'.
Proof.
  intros Hf. pose proof (find_text_Some _ _ _ _ Hf) as (Ht&_&_). rewrite Ht in Hf. apply find_mark in Hf.
  destruct (trim_parts t) as (l&r&Hp&Hl&Hr). rewrite Hp in Ht.
  assert (exists scheme', scheme = l ++ scheme' /\ trim t ++ r = scheme' ++ lit "://" ++ rest) as (scheme'&->&E).
  { apply app_eq_inv in Ht as [(k&->&E)|(k&->&E)]; [|by exists k]. destruct k as [|c k]; [exists []; by rewrite !app_nil_r|].
    exfalso. injection E as <- _. apply (white_without ":"%char _ Hl eq_refl). apply elem_of_app. right. by left. }
  rewrite app_assoc in E. apply app_eq_inv in E as [(k&E1&E2)|(k&E1&E2)].
  - exists l, r, scheme', k. split_and!; [done|done|done|done|by rewrite E1, <- app_assoc|].
    intros a1 a2 -> Hn. apply (Hf (l ++ a1)); [by rewrite app_assoc|done].
  - destruct k as [|c k _] using rev_ind.
    + rewrite app_nil_r in E1. cbn in E2. subst r. exists l, rest, scheme', []. rewrite app_nil_r. split_and!; [done..|].
      intros a1 a2 -> Hn. apply (Hf (l ++ a1)); [by rewrite app_assoc|done].
    + exfalso. change (lit "://") with (lit ":/" ++ ["/"%char]) in E1. rewrite !app_assoc in E1. apply app_inj_tail in E1 as [_ <-].
      apply (white_without "/"%char _ Hr eq_refl). rewrite E2, !elem_of_app. left. right. by left.
Qed.

Lemma split_once_more c a r : c ∉ r -> split_once c (a ++ r) = (fun '(x, y) => (x, y ++ r)) <$> split_once c a.
Proof.
  intros Hr. destruct (split_once c a) as [[x y]|] eqn:E; cbn.
  - apply split_once_Some in E as [-> Hx]. apply split_once_Some. split; [by rewrite <- app_assoc|done].
  - apply split_once_None in E. apply split_once_None. by apply not_elem_of_app.
Qed.

Lemma rsplit_once_more c a r : c ∉ r -> rsplit_once c (a ++ r) = (fun '(x, y) => (x, y ++ r)) <$> rsplit_once c a.
Proof.
  intros Hr. destruct (rsplit_once c a) as [[x y]|] eqn:E; cbn.
  - apply rsplit_once_Some in E as [-> Hx]. rewrite <- app_assoc. apply rsplit_once_app. by apply not_elem_of_app.
  - apply rsplit_once_None in E. apply rsplit_once_None. by apply not_elem_of_app.
Qed.

(** White space at the end is part of the authority or after it. *)
Lemma authority_white rest r :
  Forall (fun c => white_octet c = true) r -> exists r', authority_of (rest ++ r) = authority_of rest ++ r' /\ Forall (fun c => white_octet c = true) r'.
Proof.
  intros Hr. destruct (authority_of_split rest) as (tail&E&Ha&Ht).
  assert (authority_of (rest ++ r) = authority_of (authority_of rest ++ tail ++ r)) as -> by (by rewrite app_assoc, <- E). destruct Ht as [->|(c&t&->&Hc)].
  - exists r. split; [|done]. cbn [app]. rewrite <- (app_nil_r (_ ++ r)) at 1. apply authority_of_cut; [|by left]. apply Forall_app. split; [done|].
    eapply Forall_impl; [exact Hr|]. intros c Hc. by apply white_octet_plain in Hc as (_&_&_&?&_).
  - exists []. rewrite app_nil_r. split; [|constructor]. apply authority_of_cut; [done|]. right. by exists c, (t ++ r).
Qed.

(** A template with a loopback host still has it after trimming. *)
Lemma trim_loopback t host : loopback_host t = Some host -> host_is_loopback host = true -> loopback_host (trim t) = Some host.
Proof.
  intros Hl Hloop. destruct (loopback_chars host Hloop) as [Hne Hc]. unfold loopback_host in Hl. apply bind_Some in Hl as ([scheme from]&Hfind&Hl).
  destruct (find_text_Some _ _ _ _ Hfind) as (_&[rest ->]&_). cbn [snd] in Hl. change (drop 3 (lit "://" ++ ?t)) with t in Hl.
  destruct (trim_mark _ _ _ Hfind) as (l&r&scheme'&rest'&_&Hr&->&->&Ht&Hmark). unfold loopback_host. rewrite Ht, (proj2 (find_mark _ _) Hmark).
  cbn [mbind option_bind snd]. change (drop 3 (lit "://" ++ ?t)) with t. destruct (authority_white rest' r Hr) as (w&Hw&Hww). rewrite Hw in Hl. clear Hw.
  rewrite rsplit_once_more in Hl by (by apply white_without).
  assert (exists a, match rsplit_once "@"%char (authority_of rest') with Some (_, rest) => rest | None => authority_of rest' end = a /\
    match (fun '(x, y) => (x, y ++ w)) <$> rsplit_once "@"%char (authority_of rest') with Some (_, rest) => rest | None => authority_of rest' ++ w end = a ++ w) as (a&->&E).
  { destruct (rsplit_once "@"%char (authority_of rest')) as [[??]|]; cbn; eauto. }
  rewrite E in Hl. clear E. assert (forall c, c ∈ w -> c ∉ host) as Hwh.
  { intros c Hin Hh. rewrite Forall_forall in Hww, Hc. apply Hww, white_octet_plain in Hin as (_&?&_). apply Hc in Hh. congruence. }
  destruct a as [|c a].
  - exfalso. cbn [app] in Hl. assert (strip_prefix (lit "[") w = None) as E.
    { destruct (strip_prefix (lit "[") w) as [x|] eqn:E; [|done]. apply strip_prefix_Some in E as ->. exfalso. eapply (white_without "["%char); [done|done|]. by left. }
    rewrite E, (proj2 (rsplit_once_None ":"%char w)) in Hl by (by apply white_without). injection Hl as <-. destruct w as [|c w]; [done|]. by apply (Hwh c); left.
  - assert (strip_prefix (lit "[") ((c :: a) ++ w) = (.++ w) <$> strip_prefix (lit "[") (c :: a)) as E. { cbn. by case_decide. }
    rewrite E in Hl. clear E. destruct (strip_prefix (lit "[") (c :: a)) as [b|]; cbn [fmap option_fmap option_map] in Hl.
    + rewrite split_once_more in Hl by (by apply white_without). by destruct (split_once "]"%char b) as [[??]|].
    + rewrite rsplit_once_more in Hl by (by apply white_without). destruct (rsplit_once ":"%char (c :: a)) as [[x y]|]; [done|]. injection Hl as <-.
      destruct w as [|d w]; [by rewrite app_nil_r|]. exfalso. apply (Hwh d); [by left|]. right. apply elem_of_app. right. by left.
Qed.

(** ** Origins *)

(** The port as [origin] keeps it. *)
Definition normal_port (tls : bool) (port : option text) : option text :=
  match port with Some p => if negb (bool_decide (p = [])) && negb (bool_decide (Some (default_port_text tls) = Some p)) then Some p else None | None => None end.

Lemma normal_port_plain tls port :
  (forall digits, port = Some digits -> digits <> []) -> normal_port tls port = origin_port tls port.
Proof.
  intros Hp. destruct port as [d|]; [|done]. cbn. rewrite (bool_decide_eq_false_2 (d = [])) by (by apply Hp). cbn.
  repeat case_bool_decide; cbn; (done || congruence).
Qed.

(** An origin is a URL with a plain authority. *)
Lemma origin_plain tls authority b h q :
  plain_authority authority b h q -> exists h', host_text b h' = origin_host b h /\
    plain_authority (origin_host b h ++ port_text (origin_port tls q)) b h' (origin_port tls q).
Proof.
  intros [_ Hh Hc Hp]. assert (forall d, origin_port tls q = Some d -> d <> [] /\ Forall (fun c => is_ascii_digit c = true) d) as Hd.
  { destruct q as [d|]; cbn; [|done]. case_bool_decide; [done|]. intros d' [= <-]. by apply Hp. }
  destruct b.
  - exists (to_ascii_lowercase h). rewrite origin_host_bracketed. split; [done|]. split; [done|by destruct h| |done].
    unfold to_ascii_lowercase. apply Forall_fmap. eapply Forall_impl; [exact Hc|]. intros c H. cbn in *. clear -H. revert H. each_octet c.
  - exists (origin_host false h). split; [done|]. split; [done| | |done].
    + destruct (origin_host_plain h Hh Hc) as (c&t&->&_). done.
    + unfold origin_host, to_ascii_lowercase, host_text. apply Forall_fmap. unfold without_root_dot. destruct (_ && _ && _); [apply Forall_take|];
        (eapply Forall_impl; [exact Hc|]; intros c H; cbn in *; clear -H; revert H; each_octet c).
Qed.

Lemma first_mark_lower scheme : first_mark scheme -> first_mark (to_ascii_lowercase scheme).
Proof.
  intros Hf a1 a2 Ha Hn. unfold to_ascii_lowercase in Ha. apply fmap_app_inv in Ha as (b1&b2&->&->&->).
  assert (b2 <> []) as Hb by (by intros ->). specialize (Hf b1 b2 eq_refl Hb). apply not_true_iff_false. intros [r Hr]%starts_with_true.
  apply not_true_iff_false in Hf. apply Hf, starts_with_true. exists (drop 3 (b2 ++ lit "://")). rewrite <- (take_drop 3 (b2 ++ lit "://")) at 1. f_equal.
  apply (lower_plain_text _ (lit "://")); [|done]. unfold to_ascii_lowercase. rewrite fmap_take, fmap_app. change (ascii_lower <$> lit "://") with (lit "://"). by rewrite Hr.
Qed.

(** A mark that no colon precedes is the first. *)
Lemma mark_unique a x b y : first_mark a -> ":"%char ∉ b -> a ++ lit "://" ++ x = b ++ lit "://" ++ y -> a = b /\ x = y.
Proof.
  intros Ha Hb E. pose proof (proj2 (find_mark a x) Ha) as H1. rewrite E in H1.
  rewrite find_text_first in H1; [|done|intros c Hc [= <-]; done]. by injection H1 as <- ->.
Qed.

(** What a text of the origin of a readable URL looks like. *)
Lemma origin_reads s ps ss rs bs qs ns t :
  parsed s ps ss rs bs qs ns -> origin t = origin s ->
  exists scheme rest host port,
    find_text (lit "://") t = Some (scheme, lit "://" ++ rest) /\ to_ascii_lowercase scheme = scheme_name (up_tls ps) /\
    host_and_port (match rsplit_once "@"%char (authority_of rest) with Some (_, rest) => rest | None => authority_of rest end) = Some (host, port) /\
    to_ascii_lowercase (without_root_dot host) ++ port_text (normal_port (up_tls ps) port) = origin_host bs (up_host ps) ++ port_text (origin_port (up_tls ps) qs).
Proof.
  intros Hs E. rewrite (origin_parsed _ _ _ _ _ _ _ Hs) in E. destruct (origin_plain (up_tls ps) _ _ _ _ (ps_authority _ _ _ _ _ _ _ Hs)) as (h&Hh&Hpa).
  set (tail := origin_host bs (up_host ps) ++ port_text (origin_port (up_tls ps) qs)) in *.
  pose proof (plain_authority_of _ _ _ _ [] Hpa ltac:(by left)) as Ha. rewrite app_nil_r in Ha. pose proof (plain_authority_no_user _ _ _ _ Hpa) as Hu.
  pose proof (host_and_port_plain _ _ _ _ Hpa) as Hhp. rewrite Hh in Hhp. assert (origin_host bs (up_host ps) <> []) as Hne by (rewrite <- Hh; apply host_text_some, Hpa).
  assert (":"%char ∉ scheme_name (up_tls ps)) as Hcolon by (destruct (up_tls ps); by_decide).
  assert (to_ascii_lowercase (scheme_name (up_tls ps)) = scheme_name (up_tls ps)) as Hlow by (by destruct (up_tls ps)).
  unfold origin in E. destruct (find_text (lit "://") t) as [[scheme from]|] eqn:Hf; [|rewrite E in Hf; by apply find_mark_None in Hf].
  destruct (find_text_Some _ _ _ _ Hf) as (Ht&[rest ->]&_). rewrite Ht in Hf. apply find_mark in Hf as Hm. change (drop 3 (lit "://" ++ ?t)) with t in E.
  exists scheme, rest. assert (t = scheme_name (up_tls ps) ++ lit "://" ++ tail -> scheme = scheme_name (up_tls ps) /\ rest = tail) as Hsame.
  { intros E'. rewrite Ht in E'. by apply mark_unique. }
  destruct (host_and_port _) as [[host port]|] eqn:Ehp.
  2: { destruct (Hsame E) as [-> ->]. by rewrite Ha, Hu, Hhp in Ehp. }
  exists host, port. case_bool_decide as Eh.
  { destruct (Hsame E) as [-> ->]. rewrite Ha, Hu, Hhp in Ehp. injection Ehp as <- <-. done. }
  destruct (negb _) eqn:Ec; cycle 1.
  - apply mark_unique in E as [Es E]; [|by apply first_mark_lower|done]. split_and!; [done..|].
    rewrite <- E, (default_port_scheme _ _ Es). fold (normal_port (up_tls ps) port). by destruct (normal_port (up_tls ps) port).
  - apply mark_unique in E as [-> E]; [|done|done]. rewrite E, Hu, Hhp in Ehp. injection Ehp as <- <-. split_and!; [done..|].
    apply negb_true_iff in Ec. rewrite !orb_false_iff, !negb_false_iff, !bool_decide_eq_true in Ec. destruct Ec as ((((_&Ecase)&Edot)&Eport)&_).
    rewrite (default_port_scheme _ _ Hlow) in Eport. fold (normal_port (up_tls ps) (origin_port (up_tls ps) qs)) in Eport.
    by rewrite (no_upper_lower _ Ecase), Edot, <- Eport.
Qed.

(** What an authority can have, no variable and no white space is. *)
Lemma auth_closed variables t w :
  Forall variable_ok variables -> Forall (fun c => white_octet c = true) w -> Forall (fun c => auth_char c = true) (t ++ w) -> w = [] /\ filled variables t = t.
Proof.
  intros Hv Hw [Ht Ha]%Forall_app. split.
  - destruct w as [|c w]; [done|]. apply Forall_cons in Hw as [(_&_&?&_)%white_octet_plain _]. apply Forall_cons in Ha as [? _]. congruence.
  - apply filled_closed; [done|]. by eapply chars_without.
Qed.

Lemma filled_port variables tls y w :
  Forall variable_ok variables -> Forall (fun c => white_octet c = true) w -> filled variables y <> [] ->
  Forall (fun c => auth_char c = true) (port_text (normal_port tls (Some (y ++ w)))) ->
  normal_port tls (Some (y ++ w)) = origin_port tls (Some (filled variables y)).
Proof.
  intros Hv Hw Hd Ha. assert (y <> []) as Hy by (intros ->; by rewrite filled_nil in Hd).
  assert (Forall (fun c => auth_char c = true) (y ++ w)) as Hyw.
  { unfold normal_port in Ha. rewrite (bool_decide_eq_false_2 (y ++ w = [])) in Ha by (by destruct y). cbn [negb andb] in Ha.
    case_bool_decide as E; [injection E as <-; destruct tls; by repeat constructor|]. cbn [negb port_text] in Ha. by apply Forall_cons in Ha as [_ ?]. }
  destruct (auth_closed variables y w Hv Hw Hyw) as [-> ->]. rewrite app_nil_r. apply normal_port_plain. by intros d [= <-].
Qed.

Lemma auth_lower host : Forall (fun c => auth_char c = true) (to_ascii_lowercase (without_root_dot host)) -> Forall (fun c => auth_char c = true) host.
Proof.
  intros Hl. assert (Forall (fun c => auth_char c = true) (without_root_dot host)) as Hw.
  { unfold to_ascii_lowercase in Hl. apply Forall_fmap in Hl. eapply Forall_impl; [exact Hl|]. intros c. cbn. clear. each_octet c. }
  unfold without_root_dot in Hw. destruct (_ && _ && _) eqn:E; [|done]. apply andb_true_iff in E as [[_ He%bool_decide_eq_true]%andb_true_iff _].
  destruct He as [x ->%strip_suffix_Some]. rewrite length_app in Hw. change (length (lit ".")) with 1 in Hw. rewrite Nat.add_sub, take_app_length in Hw.
  apply Forall_app. split; [done|by repeat constructor].
Qed.

(** The authority of an expanded template, when the template has the host and port of an origin. *)
Lemma filled_origin variables tls authority w host port b h q tail :
  Forall variable_ok variables -> Forall (fun c => white_octet c = true) w -> plain_authority (filled variables authority) b h q ->
  host_and_port (authority ++ w) = Some (host, port) -> Forall (fun c => auth_char c = true) tail ->
  to_ascii_lowercase (without_root_dot host) ++ port_text (normal_port tls port) = tail ->
  origin_host b h ++ port_text (origin_port tls q) = tail.
Proof.
  intros Hv Hw Hpa Hhp Htail E. rewrite <- E in Htail. apply Forall_app in Htail as [Hhost%auth_lower Hport].
  assert (host = host_text b h /\ normal_port tls port = origin_port tls q) as [-> <-]; [|done]. clear E tail.
  pose proof (host_and_port_plain _ _ _ _ Hpa) as Hplain. unfold host_and_port in Hhp.
  assert (exists c a, authority = c :: a) as (c&a&Ea).
  { destruct authority as [|c a]; [|eauto]. destruct Hpa as [Ht Hne _ _]. rewrite filled_nil in Ht by done. by destruct b, h. }
  assert (starts_with (lit "[") (authority ++ w) = bool_decide (c = "["%char)) as Hbr.
  { rewrite Ea. change (lit "[") with ["["%char]. rewrite <- app_comm_cons, starts_with_one. apply bool_decide_ext. naive_solver. }
  rewrite Hbr in Hhp. case_bool_decide as Hc.
  - rewrite split_once_more in Hhp by (by apply white_without). apply bind_Some in Hhp as ([x y']&Hsp&Hxy).
    apply fmap_Some in Hsp as ([x0 y]&[Exy Hx]%split_once_Some&[= -> ->]).
    assert (host = x0 ++ lit "]" /\ port = strip_prefix (lit ":") (y ++ w)) as [-> ->] by (by injection Hxy as <- <-).
    apply Forall_app in Hhost as [Hx0 _]. destruct (auth_closed variables x0 [] Hv ltac:(constructor)) as [_ Hfx]; [by rewrite app_nil_r|].
    assert (filled variables authority = x0 ++ "]"%char :: filled variables y) as Hfa by (by rewrite Exy, filled_app, Hfx).
    assert (starts_with (lit "[") (filled variables authority) = true) as Hstart.
    { rewrite Hfa. destruct x0 as [|d x0]; rewrite Ea in Exy; [by rewrite Hc in Exy|]. injection Exy as <- _. rewrite Hc. by apply starts_with_true; eexists. }
    unfold host_and_port in Hplain. rewrite Hstart, Hfa, (proj2 (split_once_Some _ _ _ _) (conj eq_refl Hx)) in Hplain. cbn [mbind option_bind] in Hplain.
    injection Hplain as Hht Hq. split; [done|]. pose proof (pa_text _ _ _ _ Hpa) as Ht. rewrite Hfa, <- Hht, <- app_assoc in Ht. apply app_inv_head in Ht. injection Ht as Ht.
    destruct y as [|d y].
    + rewrite filled_nil in Hq by done. subst q. assert (strip_prefix (lit ":") ([] ++ w) = None) as ->; [|done].
      destruct (strip_prefix (lit ":") ([] ++ w)) as [z|] eqn:Ew; [|done]. apply strip_prefix_Some in Ew as Ew. cbn in Ew.
      exfalso. apply (white_without ":"%char w Hw eq_refl). rewrite Ew. by left.
    + destruct (decide (d = ":"%char)) as [->|Hd].
      * pose proof (filled_app variables [] ":"%char y Hv eq_refl) as Hfy. rewrite filled_nil in Hfy by done. cbn [app] in Hfy. rewrite Hfy in Hq. cbn in Hq. subst q.
        change (strip_prefix (lit ":") ((":"%char :: y) ++ w)) with (Some (y ++ w)) in Hport |- *. apply filled_port; [done|done| |done]. by apply (pa_port _ _ _ _ Hpa).
      * exfalso. destruct (filled_other variables ":"%char (d :: y) Hv eq_refl) as (e&t&Hf&He); [by exists d, y|]. rewrite Hf in Ht. destruct q; [|done]. by injection Ht as ->.
  - assert (starts_with (lit "[") (filled variables authority) = false) as Hstart.
    { destruct (filled_other variables "["%char authority Hv eq_refl) as (e&t&Hf&He); [by exists c, a|]. rewrite Hf. change (lit "[") with ["["%char].
      rewrite starts_with_one. apply bool_decide_eq_false_2. congruence. }
    unfold host_and_port in Hplain. rewrite Hstart in Hplain. injection Hplain as Hplain. injection Hhp as Hhp.
    rewrite rsplit_once_more in Hhp by (by apply white_without). destruct (rsplit_once ":"%char authority) as [[x y]|] eqn:Er; cbn in Hhp; injection Hhp as <- <-.
    + apply rsplit_once_Some in Er as [Exy Hy]. destruct (auth_closed variables x [] Hv ltac:(constructor)) as [_ Hfx]; [by rewrite app_nil_r|].
      rewrite Exy, filled_app, Hfx, rsplit_once_app in Hplain by (done || by apply filled_without). injection Hplain as Hht Hq. split; [done|]. rewrite <- Hq.
      apply filled_port; [done|done| |done]. by apply (pa_port _ _ _ _ Hpa).
    + destruct (auth_closed variables authority w Hv Hw Hhost) as [-> Hfa]. rewrite Hfa, Er in Hplain. injection Hplain as <- <-. by rewrite app_nil_r.
Qed.

(** ** What is dialed *)

(** Where a connection goes: on TLS or not, the host without case and root dot, and the port. *)
Definition dial_target (p : UrlParts) : bool * text * option text :=
  (up_tls p, origin_host (starts_with (lit "[") (up_authority p)) (up_host p), snd <$> rsplit_once ":"%char (up_dial p)).

Lemma dial_target_parsed url p s r b q n : parsed url p s r b q n -> dial_target p = (up_tls p, origin_host b (up_host p), Some (to_dec n)).
Proof.
  intros Hp. unfold dial_target. rewrite (ps_dial _ _ _ _ _ _ _ Hp). assert (starts_with (lit "[") (up_authority p) = b) as ->.
  { destruct (ps_authority _ _ _ _ _ _ _ Hp) as [-> Hh Hc _]. destruct b; cbn [host_text]; [apply starts_with_true; rewrite <- app_assoc; by eexists|].
    destruct (up_host p) as [|c h]; [done|]. apply Forall_cons in Hc as [Hc _]. rewrite <- app_comm_cons. change (lit "[") with ["["%char]. rewrite starts_with_one.
    apply bool_decide_eq_false_2. intros <-. done. }
  do 2 f_equal. change (lit ":" ++ to_dec n) with (":"%char :: to_dec n). rewrite rsplit_once_app; [done|].
  intros Hin. pose proof (to_dec_digits n) as Hd. rewrite Forall_forall in Hd. apply Hd in Hin. done.
Qed.

Lemma parse_url_tls url p : parse_url url = Some p -> on_tls url = up_tls p.
Proof.
  unfold parse_url, on_tls. destruct (existsb refused_octet url); [done|]. intros ([tls rest]&->&H)%bind_Some. destruct (match find_split is_slash rest with Some (a, b) => _ | None => _ end) as [authority path].
  apply bind_Some in H as ([host port]&_&H). destruct (bool_decide (host = []) || _); [done|]. by apply bind_Some in H as (?&_&[= <-]).
Qed.

Section dialing.
Context (utf8_percent_encode : (ascii -> bool) -> text -> text) `{!PercentEncoding utf8_percent_encode}.

Lemma percent_octet_chars c : Forall (fun c => value_char c = true) (percent_octet c).
Proof using Type. destruct c as [[] [] [] [] [] [] [] []]; repeat constructor. Qed.

Lemma encoded_chars t : Forall (fun c => value_char c = true) (utf8_percent_encode KEEP t).
Proof using PercentEncoding0.
  induction t as [|c t IH]; [rewrite pe_nil; constructor|]. rewrite pe_cons. apply Forall_app. split; [|done]. destruct (KEEP c || negb (is_ascii c)) eqn:E; [apply percent_octet_chars|].
  apply orb_false_iff in E as [E _]. constructor; [|constructor]. revert E. clear. each_octet c.
Qed.

Lemma encoded_nonempty t : t <> [] -> utf8_percent_encode KEEP t <> [].
Proof using PercentEncoding0. destruct t as [|c t]; [done|]. intros _. rewrite pe_cons. by destruct (KEEP c || _). Qed.

Definition variables_of (types : list text) (close_after_state : bool) (ping_seconds : N) : list (text * text) :=
  [(lit "{types}", types_value utf8_percent_encode types); (lit "{closeafter}", if close_after_state then lit "state" else lit "no"); (lit "{ping}", to_dec ping_seconds)].

Lemma join_nonempty (types : list text) : types <> [] -> Forall (fun name => name <> []) types -> join (lit ",") types <> [].
Proof using Type. destruct types as [|a [|b types]]; [done|intros _ [? _]%Forall_cons; done|]. intros _ [Ha _]%Forall_cons. rewrite join_cons by done. by destruct a. Qed.

Lemma variables_are_ok types close_after_state ping_seconds :
  Forall (fun name => name <> []) types -> Forall variable_ok (variables_of types close_after_state ping_seconds).
Proof using PercentEncoding0.
  intros Htypes. assert (forall name, (OPEN ∉ name) -> variable_pattern (OPEN :: name)) as Hpat by (intros name Hn; by exists name). repeat constructor.
  - apply (Hpat (lit "types}")). by_decide.
  - apply encoded_nonempty. case_bool_decide; [done|by apply join_nonempty].
  - apply encoded_chars.
  - apply (Hpat (lit "closeafter}")). by_decide.
  - by destruct close_after_state.
  - destruct close_after_state; by repeat constructor.
  - apply (Hpat (lit "ping}")). by_decide.
  - apply to_dec_nonempty.
  - eapply Forall_impl; [apply to_dec_digits|]. intros c Hc. cbn in Hc. revert Hc. clear. each_octet c.
Qed.

Lemma substituted_filled variables t b : Forall (fun v => v.1 <> []) variables -> (fold_left substitute variables (t, b)).1 = filled variables t.
Proof using Type.
  intros Hv. revert t b. induction Hv as [|v vs Hn _ IH]; intros t b; [done|]. cbn [fold_left filled]. unfold substitute at 2. cbn [fst snd].
  destruct (str_contains v.1 t) eqn:E; [apply IH|]. rewrite IH. unfold filled. cbn [fold_left]. by rewrite replace_absent.
Qed.

Lemma expand_filled template types close_after_state ping_seconds :
  exists suffix, expand_url utf8_percent_encode template types close_after_state ping_seconds = filled (variables_of types close_after_state ping_seconds) template ++ suffix /\
    added (filled (variables_of types close_after_state ping_seconds) template) suffix.
Proof using Type.
  unfold expand_url. fold (variables_of types close_after_state ping_seconds).
  pose proof (substituted_filled (variables_of types close_after_state ping_seconds) template false ltac:(by repeat constructor)) as Hs.
  destruct (fold_left substitute _ _) as [expanded substituted]. cbn in Hs. subst expanded.
  destruct substituted; [exists []; split; [by rewrite app_nil_r|by left]|]. eexists. split; [done|]. right. by eexists.
Qed.

(** A template and the URL that it expands to have the same scheme. *)
Lemma expanded_scheme s tls rest types close_after_state ping_seconds p :
  Forall (fun name => name <> []) types -> to_ascii_lowercase s = scheme_name tls ->
  parse_url (expand_url utf8_percent_encode (s ++ lit "://" ++ rest) types close_after_state ping_seconds) = Some p -> up_tls p = tls.
Proof using PercentEncoding0.
  intros Htypes Hlow Hp. destruct (parse_url_parsed _ _ Hp) as (s'&r&b&q&n&Hpar).
  pose proof (variables_are_ok types close_after_state ping_seconds Htypes) as Hv. destruct (expand_filled (s ++ lit "://" ++ rest) types close_after_state ping_seconds) as (suffix&Hexp&_).
  pose proof (find_text_Some _ _ _ _ (find_scheme s tls rest Hlow)) as (_&_&Hfirst). destruct Hpar as [Hu Hlow' _ _ _ _ _ _].
  destruct (filled_scheme _ s rest suffix s' (up_authority p ++ r) Hv Hfirst (scheme_no_colon _ _ Hlow')) as [Hfs _]; [by rewrite <- Hexp|].
  rewrite filled_closed in Hfs; [|done|apply lower_not_in; [rewrite Hlow; destruct tls; by_decide|done]]. subst s'. rewrite Hlow in Hlow'. by destruct tls, (up_tls p).
Qed.

(** A template with a loopback host expands to a URL with that host. *)
Lemma expanded_loopback endpoint host types close_after_state ping_seconds p :
  Forall (fun name => name <> []) types -> loopback_host endpoint = Some host -> host_is_loopback host = true ->
  parse_url (expand_url utf8_percent_encode endpoint types close_after_state ping_seconds) = Some p -> up_host p = host.
Proof using PercentEncoding0.
  intros Htypes Hl Hloop Hp. destruct (loopback_chars host Hloop) as [Hne Hc]. destruct (parse_url_parsed _ _ Hp) as (s'&r&b&q&n&Hpar).
  pose proof (variables_are_ok types close_after_state ping_seconds Htypes) as Hv. unfold loopback_host in Hl. apply bind_Some in Hl as ([scheme from]&Hfind&Hl).
  destruct (find_text_Some _ _ _ _ Hfind) as (->&[rest ->]&_). cbn [snd] in Hl. change (drop 3 (lit "://" ++ ?t)) with t in Hl.
  destruct (expand_filled (scheme ++ lit "://" ++ rest) types close_after_state ping_seconds) as (suffix&Hexp&Hadd).
  pose proof (filled_authority _ scheme rest suffix _ p s' r b q n Hv Hfind Hexp Hadd Hpar) as Hauth. pose proof (ps_authority _ _ _ _ _ _ _ Hpar) as Hpa.
  assert (rsplit_once "@"%char (authority_of rest) = None) as Hat.
  { apply rsplit_once_None. intros Hin. apply list_elem_of_split in Hin as (x&y&Hxy). pose proof (plain_authority_no_user _ _ _ _ Hpa) as Hn%rsplit_once_None. apply Hn.
    rewrite Hauth, Hxy, filled_app by done. apply elem_of_app. right. by left. }
  rewrite Hat in Hl. by eapply filled_host.
Qed.

(** What is left of a scheme after trimming. *)
Lemma white_scheme l s tls : Forall (fun c => white_octet c = true) l -> to_ascii_lowercase (l ++ s) = scheme_name tls -> l = [].
Proof using Type.
  intros Hl Hs. destruct l as [|c l]; [done|]. exfalso. apply Forall_cons in Hl as [(_&_&_&_&Hc)%white_octet_plain _].
  cbn in Hs. destruct tls; injection Hs as Hs _; by rewrite Hs in Hc.
Qed.

(** A template of the origin of a readable URL is dialed as that URL is. *)
Lemma expanded_origin session_url ps ss rs bs qs ns endpoint types close_after_state ping_seconds p s r b q n :
  Forall (fun name => name <> []) types -> parsed session_url ps ss rs bs qs ns -> same_origin session_url endpoint = true ->
  parse_url (expand_url utf8_percent_encode (trim endpoint) types close_after_state ping_seconds) = Some p ->
  parsed (expand_url utf8_percent_encode (trim endpoint) types close_after_state ping_seconds) p s r b q n ->
  dialed p b n = dialed ps bs ns.
Proof using PercentEncoding0.
  intros Htypes Hs Ho%bool_decide_eq_true Hparse Hp. symmetry in Ho.
  destruct (origin_reads _ _ _ _ _ _ _ _ Hs Ho) as (scheme&rest&host&port&Hfind&Hlow&Hhp&Htail).
  destruct (trim_mark _ _ _ Hfind) as (l&r'&scheme'&rest'&Hl&Hr'&->&->&Ht&Hmark). rewrite (white_scheme _ _ _ Hl Hlow) in Hlow. cbn [app] in Hlow. rewrite Ht in *.
  pose proof (expanded_scheme _ _ _ _ _ _ _ Htypes Hlow Hparse) as Htls. pose proof (variables_are_ok types close_after_state ping_seconds Htypes) as Hv.
  destruct (expand_filled (scheme' ++ lit "://" ++ rest') types close_after_state ping_seconds) as (suffix&Hexp&Hadd).
  pose proof (filled_authority _ scheme' rest' suffix _ p s r b q n Hv (proj2 (find_mark _ _) Hmark) Hexp Hadd Hp) as Hauth.
  pose proof (ps_authority _ _ _ _ _ _ _ Hp) as Hpa. rewrite Hauth in Hpa. destruct (authority_white rest' r' Hr') as (w&Hw&Hww). rewrite Hw in Hhp.
  assert ("@"%char ∉ authority_of rest') as Hat.
  { intros Hin. apply list_elem_of_split in Hin as (x&y&Hxy). pose proof (plain_authority_no_user _ _ _ _ Hpa) as Hn%rsplit_once_None. apply Hn.
    rewrite Hxy, filled_app by done. apply elem_of_app. right. by left. }
  rewrite rsplit_once_more, (proj2 (rsplit_once_None _ _) Hat) in Hhp by (by apply white_without). cbn [fmap option_fmap option_map] in Hhp.
  destruct (origin_plain (up_tls ps) _ _ _ _ (ps_authority _ _ _ _ _ _ _ Hs)) as (h&_&Hplain).
  pose proof (filled_origin _ (up_tls ps) _ w _ _ _ _ _ _ Hv Hww Hpa Hhp (plain_authority_chars _ _ _ _ Hplain) Htail) as E.
  destruct (origin_tail_inj _ _ _ _ _ _ _ _ _ _ Hpa (ps_authority _ _ _ _ _ _ _ Hs) E) as (_&Hhost&Hport).
  unfold dialed. rewrite Htls, Hhost. f_equal. apply (origin_port_number (up_tls ps) q qs); [rewrite <- Htls; apply (ps_number _ _ _ _ _ _ _ Hp)|apply (ps_number _ _ _ _ _ _ _ Hs)|done].
Qed.

(** C12: A push subscription takes the credentials nowhere that was not checked. The check of the
    session accepts the template of the event source as the server sent it; the subscription
    trims the template, fills it in, parses the result and dials it. Whatever the template is,
    the connection is on TLS, or its host is a loopback host, or the session URL is on plain HTTP
    and the connection goes to its host and port. The session URL is one that [parse_url] reads,
    and no type name is empty. *)
Theorem push_dials_accepted session_url configured event_source_url types ping_seconds url p :
  parse_url session_url = Some configured -> Forall (fun name => name <> []) types ->
  may_carry_credentials session_url event_source_url = true ->
  subscription_url utf8_percent_encode event_source_url types ping_seconds = Some url -> parse_url url = Some p ->
  up_tls p = true \/ host_is_loopback (up_host p) = true \/ (up_tls configured = false /\ dial_target p = dial_target configured).
Proof using PercentEncoding0.
  intros Hsession Htypes Hc Hurl Hp. unfold subscription_url in Hurl. case_bool_decide as Hempty; [done|]. injection Hurl as <-.
  unfold may_carry_credentials in Hc. rewrite !orb_true_iff, andb_true_iff, negb_true_iff in Hc. destruct Hc as [[[Hc|Hc]|Hc]|[Hplain Hc]].
  - apply bool_decide_eq_true in Hc as ->. by destruct Hempty.
  - left. unfold on_tls in Hc. destruct (split_http_scheme event_source_url) as [[tls rest]|] eqn:E; [|done]. subst tls.
    destruct (split_http_scheme_inv _ _ _ E) as (s&Hs&Hlow). pose proof (find_scheme s true rest Hlow) as Hfind. rewrite <- Hs in Hfind.
    destruct (trim_mark _ _ _ Hfind) as (l&r&scheme'&rest'&Hl&_&->&_&Ht&_). rewrite (white_scheme _ _ _ Hl Hlow) in Hlow. rewrite Ht in Hp. by eapply expanded_scheme.
  - right; left. unfold is_loopback in Hc. destruct (loopback_host event_source_url) as [host|] eqn:E; [|done].
    by rewrite (expanded_loopback _ _ _ _ _ _ Htypes (trim_loopback _ _ E Hc) Hc Hp).
  - right; right. rewrite <- (parse_url_tls _ _ Hsession). split; [done|].
    destruct (parse_url_parsed _ _ Hsession) as (ss&rs&bs&qs&ns&Hs). destruct (parse_url_parsed _ _ Hp) as (s&r&b&q&n&Hpar).
    pose proof (expanded_origin _ _ _ _ _ _ _ _ _ _ _ _ _ _ _ _ _ Htypes Hs Hc Hp Hpar) as E.
    rewrite (dial_target_parsed _ _ _ _ _ _ _ Hpar), (dial_target_parsed _ _ _ _ _ _ _ Hs). unfold dialed in E. by injection E as -> -> ->.
Qed.
End dialing.

(** Percent-encoding, octet by octet. *)
Definition sample_percent_encode (escaped : ascii -> bool) (t : text) : text :=
  t ≫= fun c => if escaped c || negb (is_ascii c) then percent_octet c else [c].

#[export] Instance sample_percent : PercentEncoding sample_percent_encode.
Proof. split; [done|]. intros. unfold sample_percent_encode. by rewrite bind_cons. Qed.

(** A template on the plain origin of the session, with a blank after it, an upper-case scheme and
    the port written out. *)
Lemma push_dials_accepted_witness :
  exists url p, subscription_url sample_percent_encode (lit "HTTP://Jmap.Example.org.:80/es?t={types}&c={closeafter}&p={ping} ") [lit "Email"; lit "Mailbox"] 12 = Some url /\
    url = lit "HTTP://Jmap.Example.org.:80/es?t=Email,Mailbox&c=no&p=12" /\
    parse_url url = Some p /\ dial_target p = (false, lit "jmap.example.org", Some (lit "80")).
Proof.
  set (session := {| up_tls := false; up_authority := lit "jmap.example.org"; up_dial := lit "jmap.example.org:80"; up_host := lit "jmap.example.org"; up_path_and_query := lit "/.well-known/jmap" |}).
  set (p := {| up_tls := false; up_authority := lit "Jmap.Example.org.:80"; up_dial := lit "Jmap.Example.org.:80"; up_host := lit "Jmap.Example.org.";
      up_path_and_query := lit "/es?t=Email,Mailbox&c=no&p=12" |}).
  eexists _, p. split; [vm_compute; reflexivity|]. split; [vm_compute; reflexivity|]. split; [vm_compute; reflexivity|].
  destruct (push_dials_accepted sample_percent_encode (lit "http://jmap.example.org/.well-known/jmap") session
    (lit "HTTP://Jmap.Example.org.:80/es?t={types}&c={closeafter}&p={ping} ") [lit "Email"; lit "Mailbox"] 12
    (lit "HTTP://Jmap.Example.org.:80/es?t=Email,Mailbox&c=no&p=12") p) as [H|[H|[_ H]]];
    [vm_compute; reflexivity|by repeat constructor|vm_compute; reflexivity..|discriminate H|vm_compute in H; discriminate H|].
  rewrite H. vm_compute. reflexivity.
Defined.
