(* ===== verification/HttpClient.v ===== *)
(** HTTP requests of the client (jmap-client/src/transport.rs: [UreqTransport::execute];
    jmap-client/src/client.rs: [execute_within], [execute_idempotent_within]): redirects, retries
    and where the credentials go. *)

From Stdlib Require Import Ascii String.
From stdpp Require Import prelude strings.
From S2P Require Import Prelude BTree Text Strings Octets Json Wire Proto IpAddr Url EventUrl.

Local Open Scope rust_scope.

(** ** Requests and replies *)
Inductive HttpMethod := Get | Post.

#[export] Instance HttpMethod_eq_dec : EqDecision HttpMethod.
Proof. solve_decision. Defined.

Abbreviation Headers := (list (text * text)) (only parsing).

(** A request on the wire. *)
Record Sent := { sn_method : HttpMethod; sn_url : text; sn_headers : Headers; sn_body : option text }.

Inductive TransportError := TransportCancelled | Failed (message : text) | ResponseTooLong (limit : N).

(** A reply; reading its body can fail. *)
Record Reply := {
  rp_status : N; rp_location : option text; rp_content_type : option text; rp_retry_after : option text; rp_body : result text TransportError;
}.

Record HttpResponse := { hr_status : N; hr_content_type : option text; hr_body : text; hr_final_url : text }.

(** What was sent, how often the cancellation was looked at, the observed Retry-After in
    milliseconds, and the sleeps. *)
Record HttpState := { ht_sent : list Sent; ht_looks : nat; ht_retry_after : option N; ht_slept : list N }.

Definition parse_retry_after (header_value : text) : option N := (fun seconds => seconds * 1000)%N <$> parse_u64 (trim header_value).

Definition is_redirect (status : N) : bool := bool_decide (status ∈ [301; 302; 303; 307; 308]%N).

Definition without_header (name : text) (headers : Headers) : Headers := filter (fun h => eq_ignore_ascii_case h.1 name = false) headers.

Lemma redirect_with_body status : is_redirect status = true -> status ∉ [301; 302; 303]%N -> status ∈ [307; 308]%N.
Proof. unfold is_redirect. rewrite bool_decide_eq_true, !elem_of_cons, !elem_of_nil. tauto. Qed.

(** The network: what answers a request depends on all that was sent before. *)
Section http.
Variable respond : list Sent -> result Reply text.
Variable cancelled : nat -> bool.

Definition look (s : HttpState) : bool * HttpState :=
  (cancelled (ht_looks s), {| ht_sent := ht_sent s; ht_looks := S (ht_looks s); ht_retry_after := ht_retry_after s; ht_slept := ht_slept s |}).

Definition with_sent (q : Sent) (s : HttpState) : HttpState :=
  {| ht_sent := ht_sent s ++ [q]; ht_looks := ht_looks s; ht_retry_after := ht_retry_after s; ht_slept := ht_slept s |}.

Definition set_observed_retry_after (d : option N) (s : HttpState) : HttpState :=
  {| ht_sent := ht_sent s; ht_looks := ht_looks s; ht_retry_after := d; ht_slept := ht_slept s |}.

Definition with_slept (chunk : N) (s : HttpState) : HttpState :=
  {| ht_sent := ht_sent s; ht_looks := ht_looks s; ht_retry_after := ht_retry_after s; ht_slept := ht_slept s ++ [chunk] |}.

(** A reply that is not followed. *)
Definition finish (url : text) (reply : Reply) (s : HttpState) : HttpState * result HttpResponse TransportError :=
  let s := set_observed_retry_after (let! v := rp_retry_after reply in parse_retry_after v) s in
  (s, let? body := rp_body reply in
      Ok {| hr_status := rp_status reply; hr_content_type := rp_content_type reply; hr_body := body; hr_final_url := url |}).

(** The next request after a redirect. *)
Definition follow_redirect (status : N) (url location : text) (method : HttpMethod) (headers : Headers)
  : result (text * HttpMethod * Headers) TransportError :=
  let? next_url := map_err Failed (resolve_redirect url location) in
  if downgrades url next_url then Err (Failed (lit "refused a redirect from TLS to " ++ origin next_url))
  else
    let same := same_origin url next_url in
    if negb same && bool_decide (status ∈ [307; 308]%N) && bool_decide (method = Post)
    then Err (Failed (lit "refused a " ++ to_dec status ++ lit " redirect of a request body to " ++ origin next_url))
    else
      let headers := if same then headers else without_header (lit "authorization") headers in
      if bool_decide (status ∈ [301; 302; 303]%N) && bool_decide (method = Post)
      then Ok (next_url, Get, without_header (lit "content-length") (without_header (lit "content-type") headers))
      else Ok (next_url, method, headers).

(** Up to [left_redirects] more redirects are followed. *)
Fixpoint execute_loop (left_redirects : nat) (body : option text) (url : text) (method : HttpMethod) (headers : Headers) (s : HttpState)
  : HttpState * result HttpResponse TransportError :=
  let '(stop, s) := look s in
  if stop then (s, Err TransportCancelled)
  else
    let s := with_sent {| sn_method := method; sn_url := url; sn_headers := headers;
                          sn_body := match method with Get => None | Post => Some (default [] body) end |} s in
    match respond (ht_sent s) with
    | Err message => (s, Err (Failed message))
    | Ok reply =>
        if is_redirect (rp_status reply) then
          match left_redirects with
          | O => (s, Err (Failed (lit "too many redirects")))
          | S left_redirects =>
              match rp_location reply with
              | None => finish url reply s
              | Some location =>
                  match follow_redirect (rp_status reply) url location method headers with
                  | Err e => (s, Err e)
                  | Ok (next_url, method, headers) => execute_loop left_redirects body next_url method headers s
                  end
              end
          end
        else finish url reply s
    end.

Definition transport_execute (method : HttpMethod) (url : text) (headers : Headers) (body : option text) (s : HttpState)
  : HttpState * result HttpResponse TransportError :=
  execute_loop 10 body url method headers s.

(** ** The client *)
Record Client := {
  cl_authorization : option text;
  cl_session_url : text;
  cl_max_rate_limit_retries : N;
  (** In milliseconds. *)
  cl_max_retry_after : N;
}.

Variable client : Client.
Variable problem_from_slice : text -> option RequestError.

(** The headers of a request: the credentials only for the origin of the session, and only on
    TLS or to a loopback host. *)
Definition request_headers (url : text) (content_type : option text) (accept : text) : Headers :=
  [(lit "Accept", accept)] ++
  match content_type with Some content_type => [(lit "Content-Type", content_type)] | None => [] end ++
  match cl_authorization client with
  | Some authorization =>
      if same_origin (cl_session_url client) url && (on_tls url || is_loopback url) then [(lit "Authorization", authorization)] else []
  | None => []
  end.

Definition is_authorization (h : text * text) : bool := eq_ignore_ascii_case h.1 (lit "authorization").

Definition transport_error (e : TransportError) : Error :=
  match e with TransportCancelled => Cancelled | Failed message => Transport message | ResponseTooLong limit => ResponseTooLarge limit end.

(** The request limiter waits for a slot, and looks at the cancellation before it takes one. *)
Definition execute_within (method : HttpMethod) (url : text) (body content_type : option text) (accept : text) (s : HttpState)
  : HttpState * result HttpResponse Error :=
  let '(stop, s) := look s in
  if stop then (s, Err Cancelled)
  else
    let '(stop, s) := look s in
    if stop then (s, Err Cancelled)
    else
      let headers := request_headers url content_type accept in
      match transport_execute method url headers body (set_observed_retry_after None s) with
      | (s, Err e) => (s, Err (transport_error e))
      | (s, Ok response) =>
          (s, if (hr_status response =? 401)%N && existsb is_authorization headers && negb (same_origin url (hr_final_url response))
              then Err (RedirectCredentialsWithheld (origin url) (origin (hr_final_url response)))
              else if negb ((200 <=? hr_status response) && (hr_status response <? 300))%N
              then Err (Http (hr_status response) (problem_from_slice (hr_body response)))
              else Ok response)
      end.

(** [extract_problem_retry_after], in milliseconds. *)
Definition extract_problem_retry_after (problem : RequestError) : option N :=
  let! v := match bt_get (lit "retryAfter") (re_extra problem) with Some v => Some v | None => bt_get (lit "retry_after") (re_extra problem) end in
  (fun seconds => seconds * 1000)%N <$> match as_u64 v with Some n => Some n | None => let! t := as_str v in parse_u64 t end.

(** In milliseconds; the product overflows a [u64] when the shift is large. *)
Definition compute_backoff (retry_after : option N) (attempt : N) : run N :=
  match retry_after with
  | Some duration => Done (N.min duration (cl_max_retry_after client))
  | None =>
      let factor := if (attempt - 1 <? 64)%N then N.shiftl 1 (attempt - 1) else 8%N in
      if (500 * factor <=? u64_max)%N then Done (N.min (500 * factor) (cl_max_retry_after client)) else Panic
  end.

(** The sleep in chunks of at most 20 milliseconds; each takes the time that it is asked for. *)
Fixpoint sleep_chunks (chunks : nat) (remaining : N) (s : HttpState) : HttpState * result unit Error :=
  let '(stop, s) := look s in
  if stop then (s, Err Cancelled)
  else
    match chunks with
    | O => (s, Ok tt)
    | S chunks => sleep_chunks chunks (remaining - N.min remaining 20) (with_slept (N.min remaining 20) s)
    end.

Definition sleep_with_cancel (duration : N) (s : HttpState) : HttpState * result unit Error :=
  let '(stop, s) := look s in
  if stop then (s, Err Cancelled)
  else if (duration =? 0)%N then (s, Ok tt)
  else sleep_chunks (N.to_nat ((duration + 19) / 20)) duration s.

Fixpoint idempotent_loop (attempts_left : nat) (attempt : N) (method : HttpMethod) (url : text) (body content_type : option text) (accept : text) (s : HttpState)
  : run (HttpState * result HttpResponse Error) :=
  match execute_within method url body content_type accept s with
  | (s, Err (Http status problem)) =>
      if (status =? 429)%N then
        let retry_after := match ht_retry_after s with Some d => Some d | None => let! problem := problem in extract_problem_retry_after problem end in
        match attempts_left with
        | S attempts_left =>
            match compute_backoff retry_after attempt with
            | Panic => Panic
            | Done backoff =>
                match sleep_with_cancel backoff s with
                | (s, Err e) => Done (s, Err e)
                | (s, Ok _) => idempotent_loop attempts_left (attempt + 1) method url body content_type accept s
                end
            end
        | O => Done (s, Err (RateLimited retry_after None problem))
        end
      else Done (s, Err (Http status problem))
  | (s, r) => Done (s, r)
  end.

Definition execute_idempotent_within (method : HttpMethod) (url : text) (body content_type : option text) (accept : text) (s : HttpState)
  : run (HttpState * result HttpResponse Error) :=
  idempotent_loop (N.to_nat (N.max 1 (cl_max_rate_limit_retries client) - 1)) 1 method url body content_type accept s.

(** ** Where requests go *)
Definition authorized (headers : Headers) : bool := existsb is_authorization headers.

(** A request that follows from one to [url0] with credentials only if they were [granted]:
    credentials and a body stay with its origin, and TLS is not left. *)
Record follows_from (granted : Prop) (url0 : text) (method : HttpMethod) (url : text) (headers : Headers) : Prop := {
  ff_authorized : authorized headers = true -> granted /\ same_origin url0 url = true;
  ff_post : method = Post -> same_origin url0 url = true;
  ff_tls : on_tls url0 = true -> on_tls url = true;
}.

Lemma same_origin_trans a b c : same_origin a b = true -> same_origin b c = true -> same_origin a c = true.
Proof using Type. unfold same_origin. rewrite !bool_decide_eq_true. congruence. Qed.

Lemma same_origin_refl a : same_origin a a = true.
Proof using Type. by apply bool_decide_eq_true. Qed.

Lemma authorized_elem headers : authorized headers = true <-> exists h, h ∈ headers /\ is_authorization h = true.
Proof using Type. unfold authorized. rewrite existsb_exists. by setoid_rewrite list_elem_of_In. Qed.

Lemma without_header_authorized name headers : authorized (without_header name headers) = true -> authorized headers = true.
Proof using Type. rewrite !authorized_elem. intros (h&[_ Hin]%list_elem_of_filter&Ha). by exists h. Qed.

Lemma without_authorization headers : authorized (without_header (lit "authorization") headers) = false.
Proof using Type. apply not_true_iff_false. rewrite authorized_elem. intros (h&[Hn _]%list_elem_of_filter&Ha). unfold is_authorization in Ha. congruence. Qed.

Lemma follow_redirect_follows granted url0 status url location method headers next_url method' headers' :
  is_redirect status = true -> follows_from granted url0 method url headers ->
  follow_redirect status url location method headers = Ok (next_url, method', headers') -> follows_from granted url0 method' next_url headers'.
Proof using Type.
  intros Hr [Ha Hp Ht]. unfold follow_redirect. intros (next&_&H)%rbind_ok. destruct (downgrades url next) eqn:Ed; [done|].
  destruct (negb (same_origin url next) && _ && _) eqn:Ecross; [done|].
  assert (on_tls url0 = true -> on_tls next = true) as Ht'.
  { intros H0. unfold downgrades in Ed. rewrite (Ht H0) in Ed. cbn in Ed. by apply negb_false_iff in Ed. }
  set (headers1 := if same_origin url next then headers else without_header (lit "authorization") headers) in *.
  assert (authorized headers1 = true -> granted /\ same_origin url0 next = true) as Ha1.
  { unfold headers1. destruct (same_origin url next) eqn:Es; [intros H1; destruct (Ha H1); split; [done|by eapply same_origin_trans]|by rewrite without_authorization]. }
  destruct (bool_decide (status ∈ [301; 302; 303]%N) && bool_decide (method = Post)) eqn:Eget; injection H as <- <- <-.
  - split; [intros H1; by apply Ha1; do 2 apply without_header_authorized in H1|done|done].
  - split; [done| |done]. intros ->. rewrite (bool_decide_eq_true_2 (Post = Post)), !andb_true_r in * by done.
    apply bool_decide_eq_false in Eget. rewrite (bool_decide_eq_true_2 (status ∈ [307; 308]%N)), andb_true_r in Ecross; [|by apply redirect_with_body].
    apply negb_false_iff in Ecross. eapply same_origin_trans; [by apply Hp|done].
Qed.

(** What was sent after [before]: at most [n] requests, each with [P]. *)
Definition sent_after (before : list Sent) (n : nat) (P : Sent -> Prop) (s : HttpState) : Prop :=
  exists new, ht_sent s = before ++ new /\ length new <= n /\ Forall P new.

Definition sent_follows (granted : Prop) (url0 : text) (q : Sent) : Prop :=
  follows_from granted url0 (sn_method q) (sn_url q) (sn_headers q) /\ (is_Some (sn_body q) -> sn_method q = Post).

Lemma execute_loop_sent granted url0 n body url method headers s :
  follows_from granted url0 method url headers -> sent_after (ht_sent s) (S n) (sent_follows granted url0) (execute_loop n body url method headers s).1.
Proof using Type.
  revert url method headers s. induction n as [|n IH]; intros url method headers s Hf; cbn [execute_loop look]; destruct (cancelled (ht_looks s)).
  1,3: exists []; cbn; rewrite app_nil_r; split_and!; [done|lia|constructor].
  all: set (q := Build_Sent _ _ _ _).
  all: assert (sent_follows granted url0 q) as Hq by (split; [done|]; cbn; by destruct method; [intros [? ?]|]).
  all: assert (forall r (s' : HttpState), ht_sent s' = ht_sent s ++ [q] -> sent_after (ht_sent s) (S r) (sent_follows granted url0) s') as Hone
    by (intros r s' E; exists [q]; split_and!; [done|cbn; lia|by apply Forall_singleton]).
  all: destruct (respond _) as [reply|message]; [|by apply Hone].
  all: destruct (is_redirect (rp_status reply)) eqn:Er; [|by apply Hone].
  - by apply Hone.
  - destruct (rp_location reply) as [location|]; [|by apply Hone]. destruct (follow_redirect _ _ _ _ _) as [[[next_url method'] headers']|e] eqn:Ef; [|by apply Hone].
    pose proof (follow_redirect_follows _ _ _ _ _ _ _ _ _ _ Er Hf Ef) as Hf'. destruct (IH next_url method' headers' (with_sent q (look s).2) Hf') as (new&E&Hl&Hall).
    exists (q :: new). split_and!; [|cbn; lia|by constructor]. etransitivity; [exact E|]. cbn. by rewrite <- app_assoc.
Qed.

(** ** Calls *)
Record Call := { ca_retried : bool; ca_method : HttpMethod; ca_url : text; ca_body : option text; ca_content_type : option text; ca_accept : text }.

Definition make_call (c : Call) (s : HttpState) : run (HttpState * result HttpResponse Error) :=
  (if ca_retried c then execute_idempotent_within (ca_method c) (ca_url c) (ca_body c) (ca_content_type c) (ca_accept c) s
   else Done (execute_within (ca_method c) (ca_url c) (ca_body c) (ca_content_type c) (ca_accept c) s)).

Fixpoint make_calls (calls : list Call) (s : HttpState) : run HttpState :=
  match calls with
  | [] => Done s
  | c :: calls => match make_call c s with Done (s, _) => make_calls calls s | Panic => Panic end
  end.

(** A request that the call to [url] made. *)
Definition stays_with (url : text) (q : Sent) : Prop :=
  (authorized (sn_headers q) = true ->
    same_origin (cl_session_url client) url = true /\ same_origin url (sn_url q) = true /\ (on_tls (sn_url q) = true \/ is_loopback url = true)) /\
  (is_Some (sn_body q) -> same_origin url (sn_url q) = true) /\
  (on_tls url = true -> on_tls (sn_url q) = true).

Lemma request_headers_authorized url content_type accept :
  authorized (request_headers url content_type accept) = true -> same_origin (cl_session_url client) url = true /\ (on_tls url = true \/ is_loopback url = true).
Proof using Type.
  rewrite authorized_elem. intros (h&Hin&Ha). unfold request_headers in Hin. rewrite !elem_of_app in Hin. destruct Hin as [Hin|[Hin|Hin]].
  - apply list_elem_of_singleton in Hin as ->. done.
  - destruct content_type; [apply list_elem_of_singleton in Hin as ->; done|by apply not_elem_of_nil in Hin].
  - destruct (cl_authorization client); [|by apply not_elem_of_nil in Hin]. destruct (same_origin _ _ && _) eqn:E; [|by apply not_elem_of_nil in Hin].
    apply andb_true_iff in E as [? E%orb_true_iff]. done.
Qed.

Lemma sent_none before n P s : ht_sent s = before -> sent_after before n P s.
Proof using Type. intros <-. exists []. rewrite app_nil_r. split_and!; [done|cbn; lia|constructor]. Qed.

Lemma sent_after_mono before n m (P Q : Sent -> Prop) s : sent_after before n P s -> n <= m -> (forall q, P q -> Q q) -> sent_after before m Q s.
Proof using Type. intros (new&E&Hl&Hall) Hm HPQ. exists new. split_and!; [done|lia|by eapply Forall_impl]. Qed.

Lemma sent_after_trans before n m P s s' : sent_after before n P s -> sent_after (ht_sent s) m P s' -> sent_after before (n + m) P s'.
Proof using Type.
  intros (new&E&Hl&Hall) (new'&E'&Hl'&Hall'). exists (new ++ new'). rewrite length_app, Forall_app. split_and!; [|lia|done|done]. by rewrite E', E, app_assoc.
Qed.

Lemma sent_follows_stays granted url q :
  sent_follows granted url q -> (granted -> same_origin (cl_session_url client) url = true /\ (on_tls url = true \/ is_loopback url = true)) -> stays_with url q.
Proof using Type.
  intros [[Ha Hp Ht] Hb] Hg. split_and!; [|intros H; auto|done]. intros H. destruct (Ha H) as [G Hs]. destruct (Hg G) as [? [?|?]]; split_and!; auto.
Qed.

Lemma execute_within_sent method url body content_type accept s :
  sent_after (ht_sent s) 11 (stays_with url) (execute_within method url body content_type accept s).1.
Proof using Type.
  unfold execute_within, transport_execute. cbn [look]. destruct (cancelled (ht_looks s)); [apply sent_none; reflexivity|].
  cbn [ht_looks]. destruct (cancelled (S (ht_looks s))); [apply sent_none; reflexivity|].
  set (granted := same_origin (cl_session_url client) url = true /\ (on_tls url = true \/ is_loopback url = true)).
  set (headers := request_headers url content_type accept).
  assert (follows_from granted url method url headers) as Hf.
  { split; [intros H%request_headers_authorized; split; [done|apply same_origin_refl]|intros; apply same_origin_refl|done]. }
  match goal with |- context [execute_loop 10 body url method headers ?s0] => pose proof (execute_loop_sent granted url 10 body url method headers s0 Hf) as Hs end.
  cbn [ht_sent set_observed_retry_after] in Hs. destruct (execute_loop _ _ _ _ _ _) as [s' [response|e]];
    (eapply sent_after_mono; [exact Hs|lia|]); (intros q Hq; by apply (sent_follows_stays granted)).
Qed.

Lemma sleep_chunks_sent chunks remaining s : ht_sent (sleep_chunks chunks remaining s).1 = ht_sent s.
Proof using Type.
  revert remaining s. induction chunks as [|chunks IH]; intros remaining s; cbn [sleep_chunks look]; destruct (cancelled _); try reflexivity. by rewrite IH.
Qed.

Lemma sleep_with_cancel_sent duration s : ht_sent (sleep_with_cancel duration s).1 = ht_sent s.
Proof using Type.
  unfold sleep_with_cancel. cbn [look]. destruct (cancelled _); [reflexivity|]. destruct (duration =? 0)%N; [reflexivity|]. by rewrite sleep_chunks_sent.
Qed.

Lemma idempotent_loop_sent left_attempts attempt method url body content_type accept s s' r :
  idempotent_loop left_attempts attempt method url body content_type accept s = Done (s', r) ->
  sent_after (ht_sent s) (11 * S left_attempts) (stays_with url) s'.
Proof using Type.
  revert attempt s. induction left_attempts as [|n IH]; intros attempt s; cbn [idempotent_loop];
    pose proof (execute_within_sent method url body content_type accept s) as Hs; destruct (execute_within _ _ _ _ _ _) as [s1 [response|e]]; cbn in Hs.
  1,3: intros [= <- <-]; by eapply sent_after_mono; [exact Hs|lia|].
  - destruct e; try (intros [= <- <-]; by eapply sent_after_mono; [exact Hs|lia|]).
    destruct (_ =? 429)%N; intros [= <- <-]; (by eapply sent_after_mono; [exact Hs|lia|]).
  - destruct e; try (intros [= <- <-]; by eapply sent_after_mono; [exact Hs|lia|]).
    destruct (_ =? 429)%N; [|intros [= <- <-]; by eapply sent_after_mono; [exact Hs|lia|]].
    destruct (compute_backoff _ _) as [backoff|]; [|done]. pose proof (sleep_with_cancel_sent backoff s1) as E.
    destruct (sleep_with_cancel backoff s1) as [s2 [[]|e]]; cbn in E.
    + intros H%IH. rewrite E in H. replace (11 * S (S n)) with (11 + 11 * S n) by lia. by eapply sent_after_trans.
    + intros [= <- <-]. destruct Hs as (new&E'&Hl&Hall). exists new. rewrite E. split_and!; [done|lia|done].
Qed.

Definition attempts : nat := S (N.to_nat (N.max 1 (cl_max_rate_limit_retries client) - 1)).

Lemma make_call_sent c s s' r : make_call c s = Done (s', r) -> sent_after (ht_sent s) (11 * attempts) (stays_with (ca_url c)) s'.
Proof using Type.
  unfold make_call. destruct (ca_retried c); [apply idempotent_loop_sent|].
  pose proof (execute_within_sent (ca_method c) (ca_url c) (ca_body c) (ca_content_type c) (ca_accept c) s) as Hs.
  intros [= E]. rewrite E in Hs. eapply sent_after_mono; [exact Hs|unfold attempts; lia|done].
Qed.

Lemma make_calls_sent calls s s' :
  make_calls calls s = Done s' -> sent_after (ht_sent s) (11 * attempts * length calls) (fun q => exists c, c ∈ calls /\ stays_with (ca_url c) q) s'.
Proof using Type.
  revert s. induction calls as [|c calls IH]; intros s; cbn [make_calls].
  - intros [= <-]. by apply sent_none.
  - destruct (make_call c s) as [[s1 r]|] eqn:E; [|done]. intros H%IH. cbn [length]. replace (11 * attempts * S (length calls)) with (11 * attempts + 11 * attempts * length calls) by lia.
    eapply sent_after_trans.
    + eapply sent_after_mono; [exact (make_call_sent _ _ _ _ E)|lia|]. intros q Hq. exists c. by split; [apply list_elem_of_here|].
    + eapply sent_after_mono; [exact H|lia|]. intros q (c'&Hin&Hq). exists c'. by split; [apply list_elem_of_further|].
Qed.

(** The backoff before attempt [attempt + 1] is exact up to 56 attempts. *)
Lemma compute_backoff_done retry_after attempt :
  (1 <= attempt <= 56)%N ->
  compute_backoff retry_after attempt = Done (N.min (match retry_after with Some d => d | None => 500 * 2 ^ (attempt - 1) end) (cl_max_retry_after client)).
Proof using Type.
  intros H. unfold compute_backoff. destruct retry_after; [done|]. rewrite (proj2 (N.ltb_lt _ _)) by lia. rewrite N.shiftl_1_l.
  pose proof (N.pow_le_mono_r 2 (attempt - 1) 55 ltac:(lia) ltac:(lia)) as Hp. change (2 ^ 55)%N with 36028797018963968%N in Hp.
  rewrite (proj2 (N.leb_le _ _)); [done|]. change u64_max with 18446744073709551615%N. lia.
Qed.

Lemma idempotent_loop_done left_attempts attempt method url body content_type accept s :
  (1 <= attempt)%N -> (attempt + N.of_nat left_attempts <= 57)%N ->
  exists s' r, idempotent_loop left_attempts attempt method url body content_type accept s = Done (s', r).
Proof using Type.
  revert attempt s. induction left_attempts as [|n IH]; intros attempt s H1 Hn; cbn [idempotent_loop]; destruct (execute_within _ _ _ _ _ _) as [s1 [response|e]]; try (by eexists _, _).
  all: destruct e; try (by eexists _, _). all: destruct (_ =? 429)%N; try (by eexists _, _).
  rewrite compute_backoff_done by lia. destruct (sleep_with_cancel _ s1) as [s2 [[]|e]]; [|by eexists _, _]. apply IH; lia.
Qed.

Lemma make_calls_done calls s : (cl_max_rate_limit_retries client <= 57)%N -> exists s', make_calls calls s = Done s'.
Proof using Type.
  intros Hr. revert s. induction calls as [|c calls IH]; intros s; cbn [make_calls]; [by eexists|].
  assert (exists s' r, make_call c s = Done (s', r)) as (s'&r&->); [|apply IH].
  unfold make_call. destruct (ca_retried c); [apply idempotent_loop_done; lia|]. destruct (execute_within _ _ _ _ _ _) as [s1 r]. by eexists _, _.
Qed.

(** C11: The credentials stay with the server they are for. On any network, whatever the servers
    answer and wherever they redirect to, a sequence of calls with up to 57 attempts each ends,
    and each request that is sent belongs to one of the calls, at most 11 for each attempt. A
    request with an Authorization header goes to the origin of the configured session and of the
    URL that the caller named, on TLS or from a URL of a loopback host; a request body goes only
    to the origin that the caller named; and a call that starts on TLS stays on TLS. *)
Theorem credentials_stay calls s :
  (cl_max_rate_limit_retries client <= 57)%N ->
  exists s', make_calls calls s = Done s' /\
    sent_after (ht_sent s) (11 * attempts * length calls) (fun q => exists c, c ∈ calls /\ stays_with (ca_url c) q) s'.
Proof using Type. intros Hr. destruct (make_calls_done calls s Hr) as [s' E]. exists s'. by split; [|apply make_calls_sent]. Qed.

(** From the 57th attempt on, the product of the backoff does not fit 64 bits. *)
Lemma compute_backoff_overflows : compute_backoff None 57 = Panic.
Proof using Type. reflexivity. Qed.
End http.

(** A server that is busy once, then redirects a GET to another origin. *)
Definition sample_answer (sent : list Sent) : result Reply text :=
  let reply status location retry := Ok {| rp_status := status; rp_location := location; rp_content_type := None; rp_retry_after := retry; rp_body := Ok (lit "{}") |} in
  match last sent with
  | Some q =>
      if same_origin (sn_url q) (lit "https://cdn.example.net/") then reply 200%N None None
      else if (length sent =? 1)%nat then reply 429%N None (Some (lit " 1 ")) else reply 302%N (Some (lit "//cdn.example.net/session")) None
  | None => Err (lit "no request")
  end.

Definition sample_client : Client :=
  {| cl_authorization := Some (lit "Bearer secret"); cl_session_url := lit "https://jmap.example.org/.well-known/jmap"; cl_max_rate_limit_retries := 3; cl_max_retry_after := 40 |}.

Definition sample_call : Call :=
  {| ca_retried := true; ca_method := Get; ca_url := lit "https://JMAP.example.org:443/session"; ca_body := None; ca_content_type := None; ca_accept := lit "application/json" |}.

Lemma credentials_stay_witness :
  exists s', make_calls sample_answer (fun _ => false) sample_client (fun _ => None) [sample_call] {| ht_sent := []; ht_looks := 0; ht_retry_after := None; ht_slept := [] |} = Done s' /\
    ((fun q => (sn_url q, authorized (sn_headers q))) <$> ht_sent s') =
      [(lit "https://JMAP.example.org:443/session", true); (lit "https://JMAP.example.org:443/session", true); (lit "https://cdn.example.net/session", false)] /\
    ht_slept s' = [20; 20]%N /\
    Forall (stays_with sample_client (ca_url sample_call)) (ht_sent s').
Proof.
  destruct (credentials_stay sample_answer (fun _ => false) sample_client (fun _ => None) [sample_call] {| ht_sent := []; ht_looks := 0; ht_retry_after := None; ht_slept := [] |})
    as (s'&E&new&Hnew&_&Hall); [by_decide|].
  exists s'. split; [exact E|]. vm_compute in E. injection E as E. rewrite <- E at 1 2. split; [by vm_compute|]. split; [by vm_compute|].
  cbn [ht_sent app] in Hnew. rewrite Hnew. eapply Forall_impl; [exact Hall|]. cbn. intros q (c&Hc%list_elem_of_singleton&Hq). by rewrite Hc in Hq.
Defined.
