(* ===== verification/PushConnect.v ===== *)
(** The push connection (jmap-client/src/eventsource.rs: [connect_and_stream], [run]): the
    request that it writes, and the loop that connects again. *)

From Stdlib Require Import Ascii String.
From stdpp Require Import prelude strings.
From S2P Require Import Prelude BTree Text Strings Octets Json IoRead PushProto EventStream IpAddr Url EventUrl.

Local Open Scope rust_scope.

(** In milliseconds. *)
Definition INITIAL_BACKOFF : N := 500.
Definition MAX_BACKOFF : N := 30000.
Definition CANCEL_POLL_INTERVAL : N := 50.

Definition token_char (byte : ascii) : bool := is_ascii_alphanumeric byte || bool_decide (byte ∈ lit "!#$%&'*+-.^_`|~").

Definition safe_header_name (name : text) : bool := negb (bool_decide (name = [])) && forallb token_char name.

Definition CRLF : text := [CR; LF].

Definition is_last_event_id (h : text * text) : bool := eq_ignore_ascii_case h.1 (lit "last-event-id").

Definition request_text (parts : UrlParts) (headers : list (text * text)) (last_event_id : option text) : text :=
  lit "GET " ++ up_path_and_query parts ++ lit " HTTP/1.1" ++ CRLF ++ lit "Host: " ++ up_authority parts ++ CRLF ++ lit "Accept: text/event-stream" ++ CRLF ++
  (headers ≫= fun h => h.1 ++ lit ": " ++ h.2 ++ CRLF) ++
  (if existsb is_last_event_id headers then [] else match last_event_id with Some id => lit "Last-Event-ID: " ++ id ++ CRLF | None => [] end) ++ CRLF.

Inductive ConnectError :=
  | UnusableUrl (url : text)
  | UnsafeHeader (name : text)
  | CouldNotResolve (dial : text)
  | Io (e : IoError).

(** What the network does in one attempt: the addresses of the host and whether each can be
    connected to, the calls that set up the socket, TLS for the host, the write of the request,
    and what is then received. *)
Record Network := {
  nw_addrs : result (list (result unit IoError)) IoError;
  nw_socket : result unit IoError;
  nw_tls : text -> result unit IoError;
  nw_write : result unit IoError;
  nw_conn : Conn;
}.

(** The context of the connections, the channel, how often the cancel flag was looked at, the
    requests that were written to a socket, and the backoffs. *)
Record Pushing := {
  pg_context : ConnectionContext;
  pg_sender : Sender;
  pg_looks : nat;
  pg_requests : list (UrlParts * text);
  pg_slept : list N;
}.

Definition looked (n : nat) (s : Pushing) : Pushing :=
  {| pg_context := pg_context s; pg_sender := pg_sender s; pg_looks := n; pg_requests := pg_requests s; pg_slept := pg_slept s |}.

Definition wrote (parts : UrlParts) (request : text) (s : Pushing) : Pushing :=
  {| pg_context := pg_context s; pg_sender := pg_sender s; pg_looks := pg_looks s; pg_requests := pg_requests s ++ [(parts, request)]; pg_slept := pg_slept s |}.

Definition slept (duration : N) (s : Pushing) : Pushing :=
  {| pg_context := pg_context s; pg_sender := pg_sender s; pg_looks := pg_looks s; pg_requests := pg_requests s; pg_slept := pg_slept s ++ [duration] |}.

Section connecting.
Variable from_str : text -> option Value.
Variable cancelled : nat -> bool.

(** The addresses in order: [None] is a cancellation. *)
Fixpoint dial_addrs (addrs : list (result unit IoError)) (last_error : option IoError) (looks : nat) : option (result unit (option IoError)) * nat :=
  match addrs with
  | [] => (Some (Err last_error), looks)
  | addr :: addrs =>
      if cancelled looks then (None, S looks)
      else match addr with Ok _ => (Some (Ok tt), S looks) | Err e => dial_addrs addrs (Some e) (S looks) end
  end.

(** From the socket on. *)
Definition stream_over (parts : UrlParts) (headers : list (text * text)) (is_reconnect : bool) (network : Network) (s : Pushing) : result unit ConnectError * Pushing :=
  match nw_socket network with
  | Err e => (Err (Io e), s)
  | Ok _ =>
      let stop := cancelled (pg_looks s) in
      let s := looked (S (pg_looks s)) s in
      if stop then (Ok tt, s)
      else
        match (if up_tls parts then nw_tls network (up_host parts) else Ok tt) with
        | Err e => (Err (Io e), s)
        | Ok _ =>
            let s := wrote parts (request_text parts headers (cx_last_id (pg_context s))) s in
            match nw_write network with
            | Err e => (Err (Io e), s)
            | Ok _ =>
                let '(out, context, sender, looks) := receive_events from_str cancelled is_reconnect (pg_context s) (pg_sender s) (pg_looks s) (nw_conn network) in
                (map_err Io out, {| pg_context := context; pg_sender := sender; pg_looks := looks; pg_requests := pg_requests s; pg_slept := pg_slept s |})
            end
        end
  end.

Definition connect_and_stream (url : text) (headers : list (text * text)) (is_reconnect : bool) (network : Network) (s : Pushing) : result unit ConnectError * Pushing :=
  match parse_url url with
  | None => (Err (UnusableUrl url), s)
  | Some parts =>
      match find (fun h => negb (safe_header_name h.1) || negb (safe_header_value h.2)) headers with
      | Some (name, _) => (Err (UnsafeHeader name), s)
      | None =>
          match nw_addrs network with
          | Err e => (Err (Io e), s)
          | Ok addrs =>
              match dial_addrs addrs None (pg_looks s) with
              | (None, looks) => (Ok tt, looked looks s)
              | (Some (Err last_error), looks) => (Err (match last_error with Some e => Io e | None => CouldNotResolve (up_dial parts) end), looked looks s)
              | (Some (Ok _), looks) => stream_over parts headers is_reconnect network (looked looks s)
              end
          end
      end
  end.

(** The rounds of [sleep_cancellable]; each sleep takes the time that it is asked for. *)
Fixpoint poll_rounds (polls : nat) (s : Pushing) : Pushing :=
  match polls with
  | O => s
  | S polls =>
      let stop := cancelled (pg_looks s) in
      let s := looked (S (pg_looks s)) s in
      if stop then s else poll_rounds polls s
  end.

Definition sleep_cancellable (duration : N) (s : Pushing) : Pushing :=
  poll_rounds (N.to_nat ((duration + CANCEL_POLL_INTERVAL - 1) / CANCEL_POLL_INTERVAL)) (slept duration s).

(** The loop of [run] for as many attempts as [attempts] has, each with the headers of its time
    and with what the network does in it. *)
Fixpoint run_attempts (url : text) (backoff connection_attempts : N) (attempts : list (list (text * text) * Network)) (s : Pushing) : Pushing :=
  match attempts with
  | [] => s
  | (headers, network) :: attempts =>
      let stop := cancelled (pg_looks s) in
      let s := looked (S (pg_looks s)) s in
      if stop then s
      else
        let '(out, s) := connect_and_stream url headers (0 <? connection_attempts)%N network s in
        let backoff := match out with Ok _ => INITIAL_BACKOFF | Err _ => backoff end in
        let stop := cancelled (pg_looks s) in
        let s := looked (S (pg_looks s)) s in
        if stop then s
        else run_attempts url (N.min (backoff * 2) MAX_BACKOFF) (connection_attempts + 1) attempts (sleep_cancellable backoff s)
  end.

Definition push_run (url : text) (attempts : list (list (text * text) * Network)) (sender : Sender) : Pushing :=
  run_attempts url INITIAL_BACKOFF 0 attempts
    {| pg_context := {| cx_last_id := None; cx_reconnect_count := 0 |}; pg_sender := sender; pg_looks := 0; pg_requests := []; pg_slept := [] |}.

(** ** The last event id

    Only an id that is safe in a header is kept, whatever the server sends. *)
Definition id_ok (id : option text) : Prop := forall v, id = Some v -> safe_header_value v = true.

Definition ids_ok (s : Streaming) : Prop := id_ok (se_last_id s) /\ forall id, se_frame_id s = Some id -> id_ok id.

Lemma id_ok_none : id_ok None.
Proof using Type. done. Qed.

Lemma field_line_ids trimmed s : ids_ok s -> ids_ok (field_line trimmed s).
Proof using Type.
  intros [Hl Hf]. unfold field_line. destruct (strip_prefix (lit "event:") trimmed); [done|]. destruct (strip_prefix (lit "data:") trimmed); [done|].
  destruct (strip_prefix (lit "id:") trimmed) as [value|].
  - case_bool_decide; [by split; [|intros id [= <-]]|]. destruct (safe_header_value (trim value)) eqn:E; [|done]. split; [done|]. by intros id [= <-] v [= <-].
  - case_bool_decide; [|done]. by split; [|intros id [= <-]].
Qed.

Lemma end_frame_ids s : ids_ok s -> match end_frame from_str s with inl s' | inr s' => ids_ok s' end.
Proof using Type.
  intros [Hl Hf]. unfold end_frame. assert (id_ok (match se_frame_id s with Some id => id | None => se_last_id s end)) as Hid.
  { destruct (se_frame_id s) as [id|]; [by apply Hf|done]. }
  destruct (if bool_decide _ then _ else _) as [change|]; [destruct (send _ _) as [[] sender]|]; by split.
Qed.

Lemma stream_round_ids {R} `{BufRead R} s (r : R) :
  ids_ok s -> match stream_round from_str cancelled (s, r) with inl (s', _) => ids_ok s' | inr (_, s', _) => ids_ok s' end.
Proof using Type.
  intros Hs. unfold stream_round. destruct (cancelled (se_looks s)); [done|]. destruct (read_bounded_line r) as [[[|c line]|e] r']; try done.
  unfold event_line. case_bool_decide; [|by apply field_line_ids].
  pose proof (end_frame_ids (with_looks (S (se_looks s)) s) Hs). by destruct (end_frame _ _).
Qed.

Lemma stream_events_ids {R} `{BufRead R} last_id sender looks (r : R) :
  id_ok last_id -> ids_ok (stream_events from_str cancelled last_id sender looks r).1.2.
Proof using Type.
  intros Hl. unfold stream_events. rewrite loop_pos_nat. generalize (Pos.to_nat rounds). intros n.
  assert (ids_ok (streaming_new last_id sender looks)) as Hs by done. revert Hs. generalize (streaming_new last_id sender looks). intros s. revert s r.
  induction n as [|n IH]; intros s r Hs; [done|]. cbn [loop_nat]. pose proof (stream_round_ids s r Hs) as Hr.
  destruct (stream_round _ _ _) as [[s' r']|[[out s'] r']]; [by apply IH|done].
Qed.

Lemma receive_events_ids is_reconnect cx sender looks conn :
  id_ok (cx_last_id cx) -> id_ok (cx_last_id (receive_events from_str cancelled is_reconnect cx sender looks conn).1.1.2).
Proof using Type.
  intros Hc. unfold receive_events. destruct (read_response_head _) as [[[]|e] reader]; [|done].
  destruct (if is_reconnect then note_reconnect cx sender else (cx, sender)) as [cx' sender'] eqn:E.
  assert (cx_last_id cx' = cx_last_id cx) as El by (destruct is_reconnect; [unfold note_reconnect in E|]; by injection E as <- <-).
  rewrite <- El in Hc. pose proof (stream_events_ids (cx_last_id cx') sender' looks (bufreader_new (chunked_new reader)) Hc) as [Hs _].
  by destruct (stream_events _ _ _ _ _ _) as [[out s] r].
Qed.

(** ** Requests *)
Definition request_lines (parts : UrlParts) (headers : list (text * text)) (last_event_id : option text) : list text :=
  [lit "GET " ++ up_path_and_query parts ++ lit " HTTP/1.1"; lit "Host: " ++ up_authority parts; lit "Accept: text/event-stream"] ++
  ((fun h => h.1 ++ lit ": " ++ h.2) <$> headers) ++
  (if existsb is_last_event_id headers then [] else match last_event_id with Some id => [lit "Last-Event-ID: " ++ id] | None => [] end).

Definition one_line (line : text) : Prop := line <> [] /\ Forall (fun c => is_line_end c = false) line.

(** What a server reads: lines that end in CR LF, then a blank line, and nothing more. *)
Record well_formed (url : text) (parts : UrlParts) (request : text) : Prop := {
  wf_url : parse_url url = Some parts;
  wf_lines : exists headers last_event_id,
    split_on LF request = ((fun l => l ++ [CR]) <$> request_lines parts headers last_event_id) ++ [[CR]; []] /\
    Forall one_line (request_lines parts headers last_event_id) /\
    Forall (fun h => safe_header_name h.1 = true /\ safe_header_value h.2 = true) headers /\
    id_ok last_event_id;
  wf_path : " "%char ∉ up_path_and_query parts;
}.

Lemma request_text_lines parts headers last_event_id :
  request_text parts headers last_event_id = mjoin ((fun l => l ++ CRLF) <$> request_lines parts headers last_event_id) ++ CRLF.
Proof using Type.
  unfold request_text, request_lines. rewrite !fmap_app, !join_app. cbn [fmap list_fmap]. rewrite !mjoin_cons. change (mjoin []) with (@nil ascii). rewrite <- !app_assoc. do 8 f_equal.
  cbn [app]. f_equal. f_equal.
  - induction headers as [|h headers IH]; [done|]. rewrite bind_cons, !fmap_cons, mjoin_cons, IH. by rewrite <- !app_assoc.
  - f_equal. destruct (existsb _ _); [done|]. destruct last_event_id; [|done]. cbn [fmap list_fmap]. rewrite mjoin_cons. change (mjoin []) with (@nil ascii). by rewrite <- !app_assoc, app_nil_r.
Qed.

Definition not_line_end (c : ascii) : Prop := is_line_end c = false.

Lemma safe_value_line value : safe_header_value value = true -> Forall not_line_end value.
Proof using Type. unfold safe_header_value. rewrite forallb_Forall_true. intros Hv. eapply Forall_impl; [exact Hv|]. intros c. unfold not_line_end. each_octet c. Qed.

Lemma safe_name_line name : safe_header_name name = true -> name <> [] /\ Forall not_line_end name.
Proof using Type.
  unfold safe_header_name. rewrite andb_true_iff, negb_true_iff, bool_decide_eq_false, forallb_Forall_true. intros [Hne Hn]. split; [done|].
  eapply Forall_impl; [exact Hn|]. intros c. unfold not_line_end. each_octet c.
Qed.

Lemma octet_not_line_end c : refused_octet c = false -> not_line_end c /\ c <> " "%char.
Proof using Type. intros H. split; [revert H; unfold not_line_end; each_octet c|revert H; each_octet c]. Qed.

Lemma parsed_octets url parts :
  parse_url url = Some parts -> Forall (fun c => not_line_end c /\ c <> " "%char) (up_authority parts) /\ Forall (fun c => not_line_end c /\ c <> " "%char) (up_path_and_query parts).
Proof using Type.
  intros (s&r&b&q&n&[Hu _ _ Hp _ _ _ Ho])%parse_url_parsed. rewrite Hu, !Forall_app in Ho. destruct Ho as (_&_&Ha&Hr).
  split; [eapply Forall_impl; [exact Ha|apply octet_not_line_end]|]. rewrite Hp. destruct r as [|c r]; [by repeat constructor|].
  eapply Forall_impl; [exact Hr|apply octet_not_line_end].
Qed.

Lemma request_lines_ok url parts headers last_event_id :
  parse_url url = Some parts -> Forall (fun h => safe_header_name h.1 = true /\ safe_header_value h.2 = true) headers -> id_ok last_event_id ->
  Forall one_line (request_lines parts headers last_event_id).
Proof using Type.
  intros [Ha Hp]%parsed_octets Hh Hid. unfold request_lines, one_line. fold not_line_end.
  assert (forall P Q : ascii -> Prop, forall t, Forall (fun c => P c /\ Q c) t -> Forall P t) as Hleft by (intros P Q t Ht; eapply Forall_impl; [exact Ht|by intros ? []]).
  apply Hleft in Hp, Ha. apply Forall_app. split.
  { repeat (apply Forall_cons; split; [split; [done|rewrite ?Forall_app; repeat split; first [done|by repeat constructor]]|]). constructor. }
  apply Forall_app. split.
  - apply Forall_fmap. eapply Forall_impl; [exact Hh|]. intros [name value] [Hn Hv]. cbn in *. apply safe_name_line in Hn as [Hne Hn]. apply safe_value_line in Hv.
    split; [by destruct name|]. rewrite !Forall_app. split; [done|by do 2 (constructor; [done|])].
  - destruct (existsb _ _); [constructor|]. destruct last_event_id as [id|]; [|constructor]. apply Forall_singleton. split; [done|].
    rewrite Forall_app. split; [by repeat constructor|]. by apply safe_value_line, Hid.
Qed.

Lemma split_on_lines lines : Forall one_line lines -> split_on LF (mjoin ((fun l => l ++ CRLF) <$> lines) ++ CRLF) = ((fun l => l ++ [CR]) <$> lines) ++ [[CR]; []].
Proof using Type.
  induction 1 as [|line lines [_ Hl] _ IH]; [by vm_compute|]. rewrite !fmap_cons, mjoin_cons. unfold CRLF at 1. change [CR; LF] with ([CR] ++ [LF]). rewrite <- !app_assoc.
  rewrite (app_assoc line [CR]). cbn [app]. rewrite split_on_app; [by rewrite IH|]. rewrite not_elem_of_app. split; [|by intros ?%list_elem_of_singleton].
  intros Hin. rewrite Forall_forall in Hl. by specialize (Hl LF Hin).
Qed.

Lemma request_well_formed url parts headers last_event_id :
  parse_url url = Some parts -> Forall (fun h => safe_header_name h.1 = true /\ safe_header_value h.2 = true) headers -> id_ok last_event_id ->
  well_formed url parts (request_text parts headers last_event_id).
Proof using Type.
  intros Hp Hh Hid. pose proof (request_lines_ok _ _ _ _ Hp Hh Hid) as Hl. split; [done| |].
  - exists headers, last_event_id. split_and!; try done. by rewrite request_text_lines, split_on_lines.
  - destruct (parsed_octets _ _ Hp) as [_ Hpath]. intros Hin. rewrite Forall_forall in Hpath. by destruct (Hpath _ Hin).
Qed.

(** ** The loop *)
Record push_ok (url : text) (n : nat) (s : Pushing) : Prop := {
  po_id : id_ok (cx_last_id (pg_context s));
  po_requests : Forall (fun r => well_formed url r.1 r.2) (pg_requests s);
  po_slept : Forall (fun d => INITIAL_BACKOFF <= d <= MAX_BACKOFF)%N (pg_slept s);
  po_length : length (pg_requests s) <= n;
}.

Lemma looked_ok url n looks s : push_ok url n s -> push_ok url n (looked looks s).
Proof using Type. by intros []. Qed.

Lemma push_ok_later url n s : push_ok url n s -> push_ok url (S n) s.
Proof using Type. intros []. split; try done. lia. Qed.

Lemma stream_over_ok url n parts headers is_reconnect network s :
  parse_url url = Some parts -> Forall (fun h => safe_header_name h.1 = true /\ safe_header_value h.2 = true) headers ->
  push_ok url n s -> push_ok url (S n) (stream_over parts headers is_reconnect network s).2.
Proof using Type.
  intros Hp Hh Hs. unfold stream_over. destruct (nw_socket network); [|by apply push_ok_later]. apply (looked_ok _ _ (S (pg_looks s))) in Hs.
  destruct (cancelled (pg_looks s)); [by apply push_ok_later|]. destruct (if up_tls parts then _ else _); [|by apply push_ok_later].
  assert (push_ok url (S n) (wrote parts (request_text parts headers (cx_last_id (pg_context (looked (S (pg_looks s)) s)))) (looked (S (pg_looks s)) s))) as [H1 H2 H3 H4].
  { destruct Hs as [H1 H2 H3 H4]. split; cbn [wrote pg_context pg_requests pg_slept]; [done| |done|rewrite length_app; cbn in *; lia].
    apply Forall_app. split; [done|]. apply Forall_singleton. by apply request_well_formed. }
  destruct (nw_write network); [|done]. pose proof (receive_events_ids is_reconnect _ (pg_sender s) (S (pg_looks s)) (nw_conn network) H1) as Hid.
  cbn [wrote looked pg_sender pg_looks] in *. by destruct (receive_events _ _ _ _ _ _ _) as [[[out context] sender] looks].
Qed.

Lemma find_none_all {A} (P : A -> bool) l : find P l = None -> Forall (fun x => P x = false) l.
Proof using Type. intros H. apply Forall_forall. intros x Hx%list_elem_of_In. by eapply find_none. Qed.

Lemma connect_and_stream_ok url n headers is_reconnect network s : push_ok url n s -> push_ok url (S n) (connect_and_stream url headers is_reconnect network s).2.
Proof using Type.
  intros Hs. pose proof (push_ok_later _ _ _ Hs) as Hs'. unfold connect_and_stream. destruct (parse_url url) as [parts|] eqn:Hp; [|done].
  destruct (find _ headers) as [[name value]|] eqn:Hf; [done|]. destruct (nw_addrs network) as [addrs|e]; [|done].
  destruct (dial_addrs addrs None (pg_looks s)) as [[[[]|e]|] looks]; [|by apply looked_ok|by apply looked_ok].
  apply stream_over_ok; [done| |by apply looked_ok]. apply find_none_all in Hf. eapply Forall_impl; [exact Hf|].
  intros h [?%negb_false_iff ?%negb_false_iff]%orb_false_iff. done.
Qed.

Lemma sleep_cancellable_ok url n duration s : (INITIAL_BACKOFF <= duration <= MAX_BACKOFF)%N -> push_ok url n s -> push_ok url n (sleep_cancellable duration s).
Proof using Type.
  intros Hd [H1 H2 H3 H4]. unfold sleep_cancellable. assert (push_ok url n (slept duration s)) as Hs.
  { split; try done. cbn. apply Forall_app. split; [done|by apply Forall_singleton]. }
  revert Hs. generalize (slept duration s). generalize (N.to_nat ((duration + CANCEL_POLL_INTERVAL - 1) / CANCEL_POLL_INTERVAL)). clear. intros polls s. revert s.
  induction polls as [|polls IH]; intros s Hs; cbn [poll_rounds]; [done|]. apply (looked_ok _ _ (S (pg_looks s))) in Hs. destruct (cancelled _); [done|by apply IH].
Qed.

Lemma run_attempts_ok url backoff connection_attempts attempts n s :
  (INITIAL_BACKOFF <= backoff <= MAX_BACKOFF)%N -> push_ok url n s -> push_ok url (n + length attempts) (run_attempts url backoff connection_attempts attempts s).
Proof using Type.
  revert backoff connection_attempts n s. induction attempts as [|[headers network] attempts IH]; intros backoff connection_attempts n s Hb Hs; cbn [run_attempts length].
  { by rewrite Nat.add_0_r. }
  rewrite Nat.add_succ_r. apply (looked_ok _ _ (S (pg_looks s))) in Hs.
  assert (forall m, push_ok url n (looked m s) -> push_ok url (S (n + length attempts)) (looked m s)) as Hmore by (intros m []; split; try done; lia).
  destruct (cancelled (pg_looks s)); [by apply Hmore|]. apply (connect_and_stream_ok _ _ headers (0 <? connection_attempts)%N network) in Hs.
  destruct (connect_and_stream _ _ _ _ _) as [out s1]. cbn in Hs. apply (looked_ok _ _ (S (pg_looks s1))) in Hs. destruct (cancelled (pg_looks s1)).
  { destruct Hs. split; try done. lia. }
  set (b := match out with Ok _ => INITIAL_BACKOFF | Err _ => backoff end). assert (INITIAL_BACKOFF <= b <= MAX_BACKOFF)%N as Hb' by (subst b; destruct out; [by_decide|done]).
  change (S (n + length attempts)) with (S n + length attempts). apply IH; [unfold INITIAL_BACKOFF, MAX_BACKOFF in *; lia|]. by apply sleep_cancellable_ok.
Qed.

(** C13: A push connection writes only its own request. Whatever the servers answer, whichever
    event ids they send and however often the client connects again, each attempt writes at most
    one request, and its octets are the lines of that request and no others: the request line
    with the path of the URL, which has no space, the host of the URL, the headers of the
    client, the last event id, and the blank line at the end. The pauses between two attempts
    are between half a second and 30 seconds. *)
Theorem push_requests_well_formed url attempts sender :
  let s := push_run url attempts sender in
  Forall (fun r => well_formed url r.1 r.2) (pg_requests s) /\ length (pg_requests s) <= length attempts /\
  Forall (fun d => INITIAL_BACKOFF <= d <= MAX_BACKOFF)%N (pg_slept s).
Proof using Type.
  unfold push_run. cbn zeta. set (s0 := Build_Pushing _ _ _ _ _). assert (push_ok url 0 s0) as Hs by by split; [done|constructor|constructor|cbn; lia].
  by destruct (run_attempts_ok url INITIAL_BACKOFF 0 attempts 0 s0 ltac:(by_decide) Hs).
Qed.
End connecting.

(** A server that sends an id with a line end, and then a plain one. *)
Definition sample_network (body : text) : Network :=
  {| nw_addrs := Ok [Err (Broken 111); Ok tt]; nw_socket := Ok tt; nw_tls := fun _ => Ok tt; nw_write := Ok tt;
     nw_conn := {| cn_pieces := [lit "HTTP/1.1 200 OK" ++ CRLF ++ lit "Transfer-Encoding: chunked" ++ CRLF ++ CRLF; to_hex (N.of_nat (length body)) ++ CRLF; body ++ CRLF]; cn_failure := None |} |}.

Lemma push_requests_example :
  let network := sample_network (lit "id: 6" ++ [CR] ++ lit "X-Evil: 1" ++ [LF; LF] ++ lit "id: 7" ++ [LF; LF] ++ lit "id: 8" ++ [CR] ++ lit "X" ++ [LF; LF]) in
  let s := push_run (fun _ => None) (fun _ => false) (lit "http://localhost/es?types=*") [([(lit "Authorization", lit "Bearer t")], network); ([], network)] {| sd_items := []; sd_hangs_up := None |} in
  (pg_requests s).*2 =
    [lit "GET /es?types=* HTTP/1.1" ++ CRLF ++ lit "Host: localhost" ++ CRLF ++ lit "Accept: text/event-stream" ++ CRLF ++ lit "Authorization: Bearer t" ++ CRLF ++ CRLF;
     lit "GET /es?types=* HTTP/1.1" ++ CRLF ++ lit "Host: localhost" ++ CRLF ++ lit "Accept: text/event-stream" ++ CRLF ++ lit "Last-Event-ID: 7" ++ CRLF ++ CRLF] /\
  sd_items (pg_sender s) = [Reconnected (Some (lit "7")) 1] /\ pg_slept s = [500; 500]%N.
Proof. by vm_compute. Qed.
