(* ===== verification/Collections.v ===== *)
(** The address books and calendars of a login (the crate jmap-collection-sync): which accounts
    serve them, which child sources they become, and which children are obsolete. *)

From Stdlib Require Import Ascii String.
From stdpp Require Import prelude strings.
From S2P Require Import Prelude BTree Text Strings Json Wire Proto Session SetChunk.

Local Open Scope rust_scope.

(** ** Objects of jmap-proto, as far as the crate reads them *)
Record AddressBookRights := { abr_may_write : option bool; abr_may_delete : option bool }.
Record AddressBookObject := {
  ab_id : option Id; ab_name : text; ab_sort_order : option N; ab_is_default : option bool; ab_is_subscribed : option bool; ab_my_rights : option AddressBookRights;
}.
Record CalendarRights := { car_may_write_all : option bool; car_may_write_own : option bool; car_may_delete : option bool }.
Record CalendarObject := {
  ca_id : option Id; ca_name : text; ca_color : option text; ca_sort_order : option N; ca_is_default : option bool; ca_is_subscribed : option bool; ca_my_rights : option CalendarRights;
}.

Definition address_book_is_writable (r : AddressBookRights) : bool := default false (abr_may_write r).
Definition calendar_is_writable (r : CalendarRights) : bool := default false (car_may_write_all r) || default false (car_may_write_own r).

Inductive ChildKind := AddressBook | Calendar.

#[export] Instance ChildKind_eq_dec : EqDecision ChildKind.
Proof. solve_decision. Defined.

(** ** layout.rs *)
Definition CAPABILITY_SUBMISSION : text := lit "urn:ietf:params:jmap:submission".
Definition CAPABILITY_CONTACTS : text := lit "urn:ietf:params:jmap:contacts".
Definition CAPABILITY_CALENDARS : text := lit "urn:ietf:params:jmap:calendars".

Record ServiceAccount := { sa_id : Id; sa_name : text; sa_read_only : bool }.
Record MailService := { mv_account : ServiceAccount; mv_can_send : bool }.
Record CollectionLayout := { cy_mail : option MailService; cy_contacts : option ServiceAccount; cy_calendars : option ServiceAccount }.

Definition service_account (id : Id) (account : Account) : ServiceAccount :=
  {| sa_id := id; sa_name := ac_name account; sa_read_only := ac_is_read_only account |}.

Definition service (session : Session) (capability : text) : option ServiceAccount :=
  let! id := resolve_primary_account session capability in
  let! account := bt_get id (ss_accounts session) in
  Some (service_account id account).

Definition from_session (session : Session) : CollectionLayout :=
  {| cy_mail := (fun account =>
       {| mv_account := account; mv_can_send := match service session CAPABILITY_SUBMISSION with Some submission => bool_decide (sa_id submission = sa_id account) | None => false end |})
       <$> service session CAPABILITY_MAIL;
     cy_contacts := service session CAPABILITY_CONTACTS; cy_calendars := service session CAPABILITY_CALENDARS |}.

Definition account_for (layout : CollectionLayout) (kind : ChildKind) : option ServiceAccount :=
  match kind with AddressBook => cy_contacts layout | Calendar => cy_calendars layout end.

Definition serves_kind (layout : CollectionLayout) (kind : ChildKind) : bool := bool_decide (is_Some (account_for layout kind)).

Record SharedService := { ssv_account : ServiceAccount; ssv_contacts : bool; ssv_calendars : bool }.

Definition shared_offers (s : SharedService) (kind : ChildKind) : bool := match kind with AddressBook => ssv_contacts s | Calendar => ssv_calendars s end.

Definition account_offers (session : Session) (id : Id) (capability : text) : bool :=
  bt_contains capability (ss_capabilities session) &&
  match bt_get id (ss_accounts session) with Some account => bt_contains capability (ac_account_capabilities account) | None => false end &&
  negb (bool_decide (resolve_primary_account session capability = Some id)).

Definition shared_service (session : Session) (entry : Id * Account) : option SharedService :=
  if ac_is_personal entry.2 then None
  else
    let shared := {| ssv_account := service_account entry.1 entry.2; ssv_contacts := account_offers session entry.1 CAPABILITY_CONTACTS;
                     ssv_calendars := account_offers session entry.1 CAPABILITY_CALENDARS |} in
    if ssv_contacts shared || ssv_calendars shared then Some shared else None.

Definition shared_accounts (session : Session) : list SharedService := omap (shared_service session) (ss_accounts session).

(** ** parts.rs: the parts that the user switched on *)
Record Parts := { pt_mail : bool; pt_contacts : bool; pt_calendars : bool }.

Definition PARTS_ALL : Parts := {| pt_mail := true; pt_contacts := true; pt_calendars := true |}.
Definition PARTS_NONE : Parts := {| pt_mail := false; pt_contacts := false; pt_calendars := false |}.

Definition parts_from_collection (source_enabled : bool) (collection : option Parts) : Parts :=
  if source_enabled then default PARTS_ALL collection else PARTS_NONE.

Definition parts_wants (p : Parts) (kind : ChildKind) : bool := match kind with AddressBook => pt_contacts p | Calendar => pt_calendars p end.

(** ** resources.rs *)
Record Resource := { rs_id : Id; rs_name : text; rs_is_default : bool; rs_color : option text; rs_writable : option bool; rs_deletable : option bool }.
Record SharedListing := { sl_account : ServiceAccount; sl_address_books : option (list Resource); sl_calendars : option (list Resource) }.
Record Fanout := { fa_parts : Parts; fa_layout : CollectionLayout; fa_address_books : list Resource; fa_calendars : list Resource; fa_shared : list SharedListing }.

Definition listing_of (l : SharedListing) (kind : ChildKind) : option (list Resource) := match kind with AddressBook => sl_address_books l | Calendar => sl_calendars l end.

Definition shown_name (name : text) (id : Id) : text := if bool_decide (trim name = []) then id else name.

(** What an address book and a calendar share. *)
Class Collection (C : Type) := {
  co_id : C -> option Id; co_name : C -> text; co_sort_order : C -> N; co_is_default : C -> option bool; co_is_subscribed : C -> option bool;
  co_color : C -> option text; co_writable : C -> option bool; co_deletable : C -> option bool;
}.

#[export] Instance AddressBook_Collection : Collection AddressBookObject := {|
  co_id := ab_id; co_name := ab_name; co_sort_order c := default 0%N (ab_sort_order c); co_is_default := ab_is_default; co_is_subscribed := ab_is_subscribed;
  co_color _ := None; co_writable c := address_book_is_writable <$> ab_my_rights c; co_deletable c := let! r := ab_my_rights c in abr_may_delete r;
|}.

#[export] Instance Calendar_Collection : Collection CalendarObject := {|
  co_id := ca_id; co_name := ca_name; co_sort_order c := default 0%N (ca_sort_order c); co_is_default := ca_is_default; co_is_subscribed := ca_is_subscribed;
  co_color := ca_color; co_writable c := calendar_is_writable <$> ca_my_rights c; co_deletable c := let! r := ca_my_rights c in car_may_delete r;
|}.

Inductive Subscription := Honoured | Ignored.

Definition resource_of `{Collection C} (c : C) : option (N * Resource) :=
  let! id := co_id c in
  Some (co_sort_order c, {| rs_id := id; rs_name := shown_name (co_name c) id; rs_is_default := bool_decide (co_is_default c = Some true); rs_color := co_color c;
                            rs_writable := co_writable c; rs_deletable := co_deletable c |}).

Definition resource_cmp (a b : N * Resource) : comparison :=
  then_with (N.compare a.1 b.1) (then_with (text_cmp (rs_name a.2) (rs_name b.2)) (text_cmp (rs_id a.2) (rs_id b.2))).

Definition is_shown `{Collection C} (subscription : Subscription) (c : C) : bool :=
  match subscription with Ignored => true | Honoured => negb (bool_decide (co_is_subscribed c = Some false)) end.

Definition resources `{Collection C} (listing : list C) (subscription : Subscription) : list Resource :=
  snd <$> sort_by resource_cmp (omap resource_of (filter (fun c => is_shown subscription c = true) listing)).

Definition shared_resources `{Collection C} (listing : result (list C) Error) : option (list Resource) :=
  match listing with Ok listing => Some (resources listing Ignored) | Err _ => None end.

(** ** The calls of the client

    A create asks for a name and for the subscription; a destroy also removes the contents. *)
Class CollectionClient (W : Type) := {
  cc_session : W -> Session;
  cc_address_books : W -> Id -> W * result (list AddressBookObject) Error;
  cc_calendars : W -> Id -> W * result (list CalendarObject) Error;
  cc_address_book_create : W -> Id -> AddressBookObject -> W * result AddressBookObject Error;
  cc_calendar_create : W -> Id -> CalendarObject -> W * result CalendarObject Error;
  cc_address_book_destroy : W -> Id -> Id -> W * result (SetResponse AddressBookObject) Error;
  cc_calendar_destroy : W -> Id -> Id -> W * result (SetResponse CalendarObject) Error;
}.

Section client.
Context {W : Type} `{!CollectionClient W}.

(** The user's own collections of one kind. *)
Definition own_resources `{Collection C} (call : W -> Id -> W * result (list C) Error) (account : option ServiceAccount) (wanted : bool) (w : W) : W * result (list Resource) Error :=
  match account with
  | Some account =>
      if wanted then let '(w, listing) := call w (sa_id account) in (w, let? listing := listing in Ok (resources listing Honoured)) else (w, Ok [])
  | None => (w, Ok [])
  end.

Definition shared_collections `{Collection C} (call : W -> Id -> W * result (list C) Error) (account : ServiceAccount) (asked : bool) (w : W) : W * option (list Resource) :=
  if asked then let '(w, listing) := call w (sa_id account) in (w, shared_resources listing) else (w, None).

Definition shared_listing (parts : Parts) (s : SharedService) (w : W) : W * SharedListing :=
  let '(w, address_books) := shared_collections cc_address_books (ssv_account s) (ssv_contacts s && pt_contacts parts) w in
  let '(w, calendars) := shared_collections cc_calendars (ssv_account s) (ssv_calendars s && pt_calendars parts) w in
  (w, {| sl_account := ssv_account s; sl_address_books := address_books; sl_calendars := calendars |}).

Fixpoint shared_listings (parts : Parts) (services : list SharedService) (w : W) : W * list SharedListing :=
  match services with
  | [] => (w, [])
  | s :: services =>
      let '(w, listing) := shared_listing parts s w in
      let '(w, listings) := shared_listings parts services w in
      (w, listing :: listings)
  end.

Definition discover (parts : Parts) (w : W) : W * result Fanout Error :=
  let session := cc_session w in
  let layout := from_session session in
  match own_resources cc_address_books (cy_contacts layout) (pt_contacts parts) w with
  | (w, Err e) => (w, Err e)
  | (w, Ok address_books) =>
      match own_resources cc_calendars (cy_calendars layout) (pt_calendars parts) w with
      | (w, Err e) => (w, Err e)
      | (w, Ok calendars) =>
          let '(w, shared) := shared_listings parts (shared_accounts session) w in
          (w, Ok {| fa_parts := parts; fa_layout := layout; fa_address_books := address_books; fa_calendars := calendars; fa_shared := shared |})
      end
  end.
End client.

(** ** children.rs *)
Definition kind_prefix (kind : ChildKind) : text := match kind with AddressBook => lit "addressbook" | Calendar => lit "calendar" end.

Definition kind_resource_id (kind : ChildKind) (collection : Id) : text := kind_prefix kind ++ lit ":" ++ collection.

Definition shared_resource_id (kind : ChildKind) (account collection : Id) : text := kind_prefix kind ++ lit ":" ++ account ++ lit "/" ++ collection.

(** [jmap_proto::id::split_shared_identity]. *)
Definition split_shared_identity (identity : text) : option (text * text) :=
  let! r := split_once "/"%char identity in
  let '(account, collection) := r in
  if negb (bool_decide (account = [])) && negb (bool_decide (collection = [])) && negb (bool_decide ("/"%char ∈ collection)) then Some (account, collection) else None.

Record Child := {
  ch_resource_id : text; ch_kind : ChildKind; ch_display_name : text; ch_account_id : Id; ch_collection_id : Id;
  ch_is_default : bool; ch_color : option text; ch_read_only : bool; ch_remote_deletable : bool;
}.

Definition for_resource (kind : ChildKind) (account : ServiceAccount) (resource : Resource) : Child :=
  {| ch_resource_id := kind_resource_id kind (rs_id resource); ch_kind := kind; ch_display_name := rs_name resource; ch_account_id := sa_id account; ch_collection_id := rs_id resource;
     ch_is_default := rs_is_default resource; ch_color := rs_color resource; ch_read_only := sa_read_only account || bool_decide (rs_writable resource = Some false);
     ch_remote_deletable := default true (rs_deletable resource) |}.

(** The octets of the characters that [plain] takes out, if the text starts with one: controls
    (also U+0080 to U+009F), U+061C, U+200E, U+200F, U+2028 to U+202E and U+2066 to U+2069. *)
Definition octets_between (low high : N) (c : ascii) : bool := (low <=? N_of_ascii c)%N && (N_of_ascii c <=? high)%N.

Definition moves_text (t : text) : option nat :=
  match t with
  | a :: b :: c :: _ =>
      if octets_between 0 31 a || octets_between 127 127 a then Some 1
      else if (octets_between 194 194 a && octets_between 128 159 b) || (octets_between 216 216 a && octets_between 156 156 b) then Some 2
      else if octets_between 226 226 a && ((octets_between 128 128 b && (octets_between 142 143 c || octets_between 168 174 c)) || (octets_between 129 129 b && octets_between 166 169 c)) then Some 3
      else None
  | a :: b :: _ =>
      if octets_between 0 31 a || octets_between 127 127 a then Some 1
      else if (octets_between 194 194 a && octets_between 128 159 b) || (octets_between 216 216 a && octets_between 156 156 b) then Some 2 else None
  | a :: _ => if octets_between 0 31 a || octets_between 127 127 a then Some 1 else None
  | [] => None
  end.

Fixpoint plain_from (skip : nat) (t : text) : text :=
  match t with
  | [] => []
  | c :: rest =>
      match skip with
      | S skip => plain_from skip rest
      | O => match moves_text t with Some n => plain_from (pred n) rest | None => c :: plain_from 0 rest end
      end
  end.

Definition plain (name : text) : text := plain_from 0 name.

Definition for_shared_resource (kind : ChildKind) (account : ServiceAccount) (resource : Resource) : Child :=
  let own := for_resource kind account resource in
  {| ch_resource_id := shared_resource_id kind (sa_id account) (rs_id resource); ch_kind := ch_kind own;
     ch_display_name := plain (sa_name account) ++ lit ": " ++ plain (rs_name resource); ch_account_id := ch_account_id own; ch_collection_id := ch_collection_id own;
     ch_is_default := ch_is_default own; ch_color := ch_color own; ch_read_only := ch_read_only own; ch_remote_deletable := bool_decide (rs_deletable resource = Some true) |}.

Definition child_identity (c : Child) : text := match split_once ":"%char (ch_resource_id c) with Some (_, identity) => identity | None => ch_collection_id c end.

Definition own_children (f : Fanout) (kind : ChildKind) : list Child :=
  match account_for (fa_layout f) kind with
  | Some account =>
      if parts_wants (fa_parts f) kind then for_resource kind account <$> match kind with AddressBook => fa_address_books f | Calendar => fa_calendars f end else []
  | None => []
  end.

Definition shared_children (f : Fanout) (listing : SharedListing) : list Child :=
  filter (fun kind => parts_wants (fa_parts f) kind = true) [AddressBook; Calendar] ≫= fun kind =>
    for_shared_resource kind (sl_account listing) <$> default [] (listing_of listing kind).

Definition all_children (f : Fanout) : list Child := own_children f AddressBook ++ own_children f Calendar ++ (fa_shared f ≫= shared_children f).

(** The first child with a resource id wins. *)
Fixpoint first_of_each (seen : list text) (l : list Child) : list Child :=
  match l with
  | [] => []
  | c :: l => if bool_decide (ch_resource_id c ∈ seen) then first_of_each seen l else c :: first_of_each (seen ++ [ch_resource_id c]) l
  end.

Definition children (f : Fanout) : list Child := first_of_each [] (all_children f).

Definition parse_resource_id (resource_id : text) : option (ChildKind * Id) :=
  let! r := split_once ":"%char resource_id in
  let '(prefix, collection) := r in
  let! kind := if bool_decide (prefix = lit "addressbook") then Some AddressBook else if bool_decide (prefix = lit "calendar") then Some Calendar else None in
  if bool_decide (collection = []) then None else Some (kind, collection).

(** ** parts.rs: obsolete children *)
Definition listed_kind (f : Fanout) (kind : ChildKind) : bool := parts_wants (fa_parts f) kind && serves_kind (fa_layout f) kind.

Definition no_child (f : Fanout) (resource_id : text) : bool := forallb (fun c => negb (bool_decide (ch_resource_id c = resource_id))) (children f).

Definition is_obsolete (f : Fanout) (resource_id : text) : bool :=
  match parse_resource_id resource_id with
  | None => false
  | Some (kind, identity) =>
      match split_shared_identity identity with
      | Some (account, _) =>
          parts_wants (fa_parts f) kind &&
          match find (fun listing => bool_decide (sa_id (sl_account listing) = account)) (fa_shared f) with
          | None => true
          | Some listing => bool_decide (is_Some (listing_of listing kind)) && no_child f resource_id
          end
      | None => listed_kind f kind && no_child f resource_id
      end
  end.

(** ** child_source.rs *)
Definition BACKEND_NAME : text := lit "jmap".
Definition EXTENSION_ADDRESS_BOOK : text := lit "Address Book".
Definition EXTENSION_CALENDAR : text := lit "Calendar".
Definition EXTENSION_DATA_SOURCE : text := lit "Data Source".
Definition EXTENSION_RESOURCE : text := lit "Resource".
Definition EXTENSION_AUTHENTICATION : text := lit "Authentication".
Definition EXTENSION_SECURITY : text := lit "Security".

Record Connection := { cn_host : text; cn_port : option N; cn_user : option text; cn_auth_method : option text; cn_secure : bool }.
Record Setting := { sg_group : text; sg_key : text; sg_value : text }.

Definition kind_extension (kind : ChildKind) : text := match kind with AddressBook => EXTENSION_ADDRESS_BOOK | Calendar => EXTENSION_CALENDAR end.

Definition from_extension (extension : text) : option ChildKind :=
  if bool_decide (extension = EXTENSION_ADDRESS_BOOK) then Some AddressBook else if bool_decide (extension = EXTENSION_CALENDAR) then Some Calendar else None.

Definition child_settings (c : Child) (connection : Connection) : list Setting :=
  [{| sg_group := EXTENSION_DATA_SOURCE; sg_key := lit "DisplayName"; sg_value := ch_display_name c |};
   {| sg_group := kind_extension (ch_kind c); sg_key := lit "BackendName"; sg_value := BACKEND_NAME |};
   {| sg_group := EXTENSION_RESOURCE; sg_key := lit "Identity"; sg_value := child_identity c |};
   {| sg_group := EXTENSION_AUTHENTICATION; sg_key := lit "Host"; sg_value := cn_host connection |}] ++
  option_list ((fun port => {| sg_group := EXTENSION_AUTHENTICATION; sg_key := lit "Port"; sg_value := to_dec port |}) <$> cn_port connection) ++
  option_list ((fun user => {| sg_group := EXTENSION_AUTHENTICATION; sg_key := lit "User"; sg_value := user |}) <$> cn_user connection) ++
  option_list ((fun method => {| sg_group := EXTENSION_AUTHENTICATION; sg_key := lit "Method"; sg_value := method |}) <$> cn_auth_method connection) ++
  [{| sg_group := EXTENSION_SECURITY; sg_key := lit "Method"; sg_value := if cn_secure connection then lit "tls" else lit "none" |}] ++
  match ch_kind c with
  | Calendar => option_list ((fun color => {| sg_group := EXTENSION_CALENDAR; sg_key := lit "Color"; sg_value := color |}) <$> ch_color c)
  | AddressBook => []
  end.

Definition resource_id_for (extension identity : text) : option text :=
  if bool_decide (identity = []) then None
  else
    let! kind := from_extension extension in
    Some (kind_prefix kind ++ lit ":" ++ identity).

(** ** create.rs and delete.rs *)
Record Requested := { rq_kind : ChildKind; rq_display_name : text }.

Inductive CollectionFailure := Unserved (kind : ChildKind) | Unshared (kind : ChildKind) | ClientFailure (e : Error).

Definition created_resource (id : option Id) (server_name requested_name : text) (is_default : option bool) (color : option text) (writable deletable : option bool) : option Resource :=
  let! id := id in
  let name := if bool_decide (trim server_name = []) then requested_name else server_name in
  Some {| rs_id := id; rs_name := shown_name name id; rs_is_default := bool_decide (is_default = Some true); rs_color := color; rs_writable := writable; rs_deletable := deletable |}.

Definition missing_id (kind : ChildKind) : Error :=
  Protocol (lit "the server created " ++ match kind with AddressBook => lit "an address book" | Calendar => lit "a calendar" end ++ lit " and reported no id for it").

Definition new_address_book (name : text) : AddressBookObject :=
  {| ab_id := None; ab_name := name; ab_sort_order := None; ab_is_default := None; ab_is_subscribed := Some true; ab_my_rights := None |}.
Definition new_calendar (name : text) : CalendarObject :=
  {| ca_id := None; ca_name := name; ca_color := None; ca_sort_order := None; ca_is_default := None; ca_is_subscribed := Some true; ca_my_rights := None |}.

Record Doomed := { dm_kind : ChildKind; dm_collection_id : Id }.

Section writes.
Context {W : Type} `{!CollectionClient W}.

Definition created_from `{Collection C} (requested : Requested) (account : ServiceAccount) (created : result C Error) : result Child CollectionFailure :=
  let? created := map_err ClientFailure created in
  let? resource :=
    ok_or (created_resource (co_id created) (co_name created) (rq_display_name requested) (co_is_default created) (co_color created) (co_writable created) (co_deletable created))
      (ClientFailure (missing_id (rq_kind requested))) in
  Ok (for_resource (rq_kind requested) account resource).

Definition create_collection (requested : Requested) (w : W) : W * result Child CollectionFailure :=
  match account_for (from_session (cc_session w)) (rq_kind requested) with
  | None => (w, Err (Unserved (rq_kind requested)))
  | Some account =>
      match rq_kind requested with
      | AddressBook => let '(w, created) := cc_address_book_create w (sa_id account) (new_address_book (rq_display_name requested)) in (w, created_from requested account created)
      | Calendar => let '(w, created) := cc_calendar_create w (sa_id account) (new_calendar (rq_display_name requested)) in (w, created_from requested account created)
      end
  end.

(** The account and the collection that a delete is for. *)
Definition doomed_target (session : Session) (doomed : Doomed) : result (Id * Id) CollectionFailure :=
  match split_shared_identity (dm_collection_id doomed) with
  | Some (shared, collection) =>
      match find (fun s => bool_decide (sa_id (ssv_account s) = shared) && shared_offers s (dm_kind doomed)) (shared_accounts session) with
      | Some s => Ok (sa_id (ssv_account s), collection)
      | None => Err (Unshared (dm_kind doomed))
      end
  | None =>
      match account_for (from_session session) (dm_kind doomed) with
      | Some account => Ok (sa_id account, dm_collection_id doomed)
      | None => Err (Unserved (dm_kind doomed))
      end
  end.

Definition delete_collection (doomed : Doomed) (w : W) : W * result unit CollectionFailure :=
  match doomed_target (cc_session w) doomed with
  | Err e => (w, Err e)
  | Ok (account, collection) =>
      match dm_kind doomed with
      | AddressBook => let '(w, response) := cc_address_book_destroy w account collection in (w, map_err ClientFailure (let? response := response in expect_destroyed response collection))
      | Calendar => let '(w, response) := cc_calendar_destroy w account collection in (w, map_err ClientFailure (let? response := response in expect_destroyed response collection))
      end
  end.
End writes.

(** ** Ids

    RFC 8620, section 1.2: letters, digits, hyphens and underscores. *)
Definition id_char (c : ascii) : bool := is_ascii_alphanumeric c || bool_decide (c ∈ lit "-_").
Definition rfc_id (id : Id) : Prop := id <> [] /\ Forall (fun c => id_char c = true) id.

Lemma id_char_plain c : id_char c = true -> c <> ":"%char /\ c <> "/"%char /\ c <> "000"%char.
Proof. destruct c as [[] [] [] [] [] [] [] []]; vm_compute; try done; intros; repeat split; congruence. Qed.

Lemma rfc_id_without id : rfc_id id -> (":"%char ∉ id) /\ ("/"%char ∉ id) /\ ("000"%char ∉ id).
Proof.
  intros [_ Hid]. rewrite Forall_forall in Hid. split_and!; intros Hin; destruct (id_char_plain _ (Hid _ Hin)) as (?&?&?); done.
Qed.

Lemma kind_prefix_no_colon kind : ":"%char ∉ kind_prefix kind.
Proof. destruct kind; by_decide. Qed.

Lemma split_kind_prefix kind rest : split_once ":"%char (kind_prefix kind ++ lit ":" ++ rest) = Some (kind_prefix kind, rest).
Proof. apply split_once_Some. split; [done|apply kind_prefix_no_colon]. Qed.

Lemma parse_kind_prefix kind rest : rest <> [] -> parse_resource_id (kind_prefix kind ++ lit ":" ++ rest) = Some (kind, rest).
Proof.
  intros Hne. unfold parse_resource_id. rewrite split_kind_prefix. cbn [mbind option_bind].
  assert ((if bool_decide (kind_prefix kind = lit "addressbook") then Some AddressBook else if bool_decide (kind_prefix kind = lit "calendar") then Some Calendar else None) = Some kind) as ->
    by (destruct kind; by vm_compute).
  by rewrite bool_decide_eq_false_2.
Qed.

Lemma parse_resource_id_Some rid kind identity : parse_resource_id rid = Some (kind, identity) -> rid = kind_prefix kind ++ lit ":" ++ identity /\ identity <> [].
Proof.
  unfold parse_resource_id. intros ([prefix rest]&[-> _]%split_once_Some&(k&Hk&H)%bind_Some)%bind_Some. case_bool_decide as Hne; [done|]. injection H as <- <-.
  split; [|done]. case_bool_decide as E1; [injection Hk as <-; by subst|]. case_bool_decide as E2; [injection Hk as <-; by subst|done].
Qed.

Lemma split_bare identity : "/"%char ∉ identity -> split_shared_identity identity = None.
Proof. intros Hn. unfold split_shared_identity. by rewrite (proj2 (split_once_None _ _)). Qed.

Lemma split_pair account collection : rfc_id account -> rfc_id collection -> split_shared_identity (account ++ lit "/" ++ collection) = Some (account, collection).
Proof.
  intros Ha Hc. destruct (rfc_id_without _ Ha) as (_&Hs&_), (rfc_id_without _ Hc) as (_&Hs'&_). unfold split_shared_identity.
  assert (split_once "/"%char (account ++ lit "/" ++ collection) = Some (account, collection)) as -> by by apply split_once_Some.
  cbn [mbind option_bind]. by rewrite !bool_decide_eq_false_2 by (done || apply Ha || apply Hc).
Qed.

Lemma split_shared_identity_Some identity account collection : split_shared_identity identity = Some (account, collection) -> identity = account ++ lit "/" ++ collection.
Proof.
  unfold split_shared_identity. intros ([a c]&[-> _]%split_once_Some&H)%bind_Some. destruct (_ && _); [|done]. by injection H as <- <-.
Qed.

Lemma split_collection identity account collection : split_shared_identity identity = Some (account, collection) -> "/"%char ∉ collection.
Proof.
  unfold split_shared_identity. intros ([a c]&_&H)%bind_Some. destruct (_ && _) eqn:E; [|done]. injection H as <- <-.
  apply andb_true_iff in E as [_ E%negb_true_iff]. by apply bool_decide_eq_false in E.
Qed.

Lemma kind_prefix_inj kind kind' rest rest' : kind_prefix kind ++ lit ":" ++ rest = kind_prefix kind' ++ lit ":" ++ rest' -> kind = kind' /\ rest = rest'.
Proof.
  intros H. pose proof (split_kind_prefix kind rest) as E. rewrite H, split_kind_prefix in E. injection E as Hk ->. split; [|done]. by destruct kind, kind'.
Qed.

(** ** Children *)
Definition own_listing (f : Fanout) (kind : ChildKind) : list Resource := match kind with AddressBook => fa_address_books f | Calendar => fa_calendars f end.

Record fanout_ok (f : Fanout) : Prop := {
  fo_own : forall kind r, r ∈ own_listing f kind -> rfc_id (rs_id r);
  fo_shared : forall l kind rs r, l ∈ fa_shared f -> listing_of l kind = Some rs -> r ∈ rs -> rfc_id (rs_id r);
  fo_accounts : forall l, l ∈ fa_shared f -> rfc_id (sa_id (sl_account l));
  fo_distinct : NoDup ((fun l => sa_id (sl_account l)) <$> fa_shared f);
}.

(** Where a child comes from. *)
Inductive comes_from (f : Fanout) : Child -> Prop :=
  | From_own kind account r : account_for (fa_layout f) kind = Some account -> parts_wants (fa_parts f) kind = true -> r ∈ own_listing f kind -> comes_from f (for_resource kind account r)
  | From_shared kind l rs r : l ∈ fa_shared f -> parts_wants (fa_parts f) kind = true -> listing_of l kind = Some rs -> r ∈ rs -> comes_from f (for_shared_resource kind (sl_account l) r).

Lemma own_children_from f kind c : c ∈ own_children f kind -> comes_from f c.
Proof.
  unfold own_children. destruct (account_for (fa_layout f) kind) as [account|] eqn:Ea; [|by intros ?%not_elem_of_nil]. destruct (parts_wants _ _) eqn:Ew; [|by intros ?%not_elem_of_nil].
  intros (r&->&Hr)%list_elem_of_fmap. by econstructor.
Qed.

Lemma shared_children_from f l c : l ∈ fa_shared f -> c ∈ shared_children f l -> comes_from f c.
Proof.
  intros Hl. unfold shared_children. intros (kind&(r&->&Hr)%list_elem_of_fmap&[Hw _]%list_elem_of_filter)%list_elem_of_bind.
  destruct (listing_of l kind) as [rs|] eqn:E; [by econstructor|by apply not_elem_of_nil in Hr].
Qed.

Lemma all_children_from f c : c ∈ all_children f <-> comes_from f c.
Proof.
  unfold all_children. split.
  - rewrite !elem_of_app. intros [?|[?|(l&Hc&Hl)%list_elem_of_bind]]; [by eapply own_children_from..|by eapply shared_children_from].
  - destruct 1 as [kind account r Ha Hw Hr|kind l rs r Hl Hw Hs Hr]; rewrite !elem_of_app.
    + assert (for_resource kind account r ∈ own_children f kind) as Hin by (unfold own_children; rewrite Ha, Hw; by apply list_elem_of_fmap_2). destruct kind; auto.
    + right. right. apply list_elem_of_bind. exists l. split; [|done]. apply list_elem_of_bind. exists kind. split; [rewrite Hs; by apply list_elem_of_fmap_2|].
      apply list_elem_of_filter. split; [done|]. destruct kind; set_solver.
Qed.

Lemma first_of_each_spec seen l :
  (forall c, c ∈ first_of_each seen l -> c ∈ l /\ ch_resource_id c ∉ seen) /\ NoDup (ch_resource_id <$> first_of_each seen l) /\
  (forall c, c ∈ l -> ch_resource_id c ∉ seen -> ch_resource_id c ∈ ch_resource_id <$> first_of_each seen l).
Proof.
  revert seen. induction l as [|c l IH]; intros seen; cbn [first_of_each].
  { split_and!; [by intros ? ?%not_elem_of_nil|constructor|by intros ? ?%not_elem_of_nil]. }
  case_bool_decide as Hseen.
  - destruct (IH seen) as (H1&H2&H3). split_and!; [|done|].
    + intros c' [? ?]%H1. split; [by right|done].
    + intros c' [->|Hin]%elem_of_cons Hn; [done|by apply H3].
  - destruct (IH (seen ++ [ch_resource_id c])) as (H1&H2&H3). split_and!.
    + intros c' [->|[? Hn]%H1]%elem_of_cons; [by split; [left|]|]. split; [by right|]. intros ?. apply Hn, elem_of_app. by left.
    + rewrite fmap_cons. apply NoDup_cons. split; [|done]. intros (c'&E&[_ Hn]%H1)%list_elem_of_fmap. apply Hn, elem_of_app. right. rewrite <- E. by apply list_elem_of_singleton.
    + intros c' Hin Hn. rewrite fmap_cons. destruct (decide (ch_resource_id c' = ch_resource_id c)) as [->|Hne]; [by left|right]. apply elem_of_cons in Hin as [->|Hin]; [done|].
      apply H3; [done|]. rewrite elem_of_app, list_elem_of_singleton. tauto.
Qed.

Lemma exists_some_pair {A B} (a : A) (b : B) (P : A -> B -> Prop) : (exists x y, Some (a, b) = Some (x, y) /\ P x y) <-> P a b.
Proof. split; [by intros (?&?&[= <- <-]&?)|]. intros. by exists a, b. Qed.

Section fanout.
Context (f : Fanout) (Hf : fanout_ok f).

(** The identity of a child, and what it is read as. *)
Lemma child_named c :
  comes_from f c -> ch_resource_id c = kind_prefix (ch_kind c) ++ lit ":" ++ child_identity c /\ child_identity c <> [] /\ ("000"%char ∉ child_identity c) /\
    match split_shared_identity (child_identity c) with
    | Some (account, collection) => account = ch_account_id c /\ collection = ch_collection_id c /\ exists l, l ∈ fa_shared f /\ account = sa_id (sl_account l) /\ is_Some (listing_of l (ch_kind c))
    | None => child_identity c = ch_collection_id c /\ exists account, account_for (fa_layout f) (ch_kind c) = Some account /\ ch_account_id c = sa_id account
    end.
Proof using Hf.
  destruct 1 as [kind account r Ha Hw Hr|kind l rs r Hl Hw Hs Hr].
  - pose proof (fo_own _ Hf _ _ Hr) as Hid. destruct (rfc_id_without _ Hid) as (_&Hslash&Hnul). unfold child_identity. cbn [for_resource ch_resource_id ch_kind ch_collection_id ch_account_id].
    unfold kind_resource_id. rewrite split_kind_prefix. split_and!; [done|apply Hid|done|]. rewrite split_bare by done. eauto.
  - pose proof (fo_shared _ Hf _ _ _ _ Hl Hs Hr) as Hid. pose proof (fo_accounts _ Hf _ Hl) as Hacc. destruct (rfc_id_without _ Hid) as (_&_&Hnul), (rfc_id_without _ Hacc) as (_&_&Hnul').
    unfold child_identity. cbn [for_shared_resource for_resource ch_resource_id ch_kind ch_collection_id ch_account_id]. unfold shared_resource_id. rewrite split_kind_prefix. split_and!; [done| | |].
    + destruct Hacc as [? _]. by destruct (sa_id (sl_account l)).
    + rewrite !not_elem_of_app. split_and!; [done|by intros ?%list_elem_of_singleton|done].
    + rewrite split_pair by done. split_and!; [done|done|]. exists l. rewrite Hs. eauto.
Qed.

Lemma children_from c : c ∈ children f -> comes_from f c.
Proof using Type. intros Hc. apply all_children_from. by apply (proj1 (first_of_each_spec [] (all_children f))). Qed.

Lemma no_child_false c : comes_from f c -> no_child f (ch_resource_id c) = false.
Proof using Type.
  intros Hc%all_children_from. apply not_true_iff_false. unfold no_child. rewrite forallb_forall. intros Hall.
  pose proof (proj2 (proj2 (first_of_each_spec [] (all_children f))) c Hc (not_elem_of_nil _)) as (c'&E&Hin%list_elem_of_In)%list_elem_of_fmap. specialize (Hall _ Hin).
  by rewrite bool_decide_eq_true_2 in Hall.
Qed.

Lemma no_child_true rid : no_child f rid = true <-> forall c, comes_from f c -> ch_resource_id c <> rid.
Proof using Type.
  split.
  - intros Hn c Hc <-. by rewrite no_child_false in Hn.
  - intros H. unfold no_child. apply forallb_forall. intros c Hc%list_elem_of_In. rewrite bool_decide_eq_false_2; [done|]. by apply H, children_from.
Qed.

Lemma find_account account :
  match find (fun listing => bool_decide (sa_id (sl_account listing) = account)) (fa_shared f) with
  | Some l => l ∈ fa_shared f /\ sa_id (sl_account l) = account /\ forall l', l' ∈ fa_shared f -> sa_id (sl_account l') = account -> l' = l
  | None => forall l, l ∈ fa_shared f -> sa_id (sl_account l) <> account
  end.
Proof using Hf.
  destruct (find _ _) as [l|] eqn:E.
  - apply find_some in E as [Hin%list_elem_of_In Heq%bool_decide_eq_true]. split_and!; [done|done|]. intros l' Hin' Heq'. pose proof (fo_distinct _ Hf) as Hd.
    apply list_elem_of_lookup in Hin as [i Hi]. apply list_elem_of_lookup in Hin' as [j Hj]. assert (i = j) as <-; [|congruence].
    eapply NoDup_lookup; [exact Hd| |]; rewrite list_lookup_fmap; [by rewrite Hi|]. rewrite Hj. cbn. congruence.
  - intros l Hl Heq. eapply find_none in E; [|by apply list_elem_of_In]. by rewrite bool_decide_eq_true_2 in E.
Qed.

(** What shows that a cached child has no collection any more. *)
Definition proven_gone (kind : ChildKind) (identity : text) : Prop :=
  parts_wants (fa_parts f) kind = true /\
  match split_shared_identity identity with
  | Some (account, collection) => forall l, l ∈ fa_shared f -> sa_id (sl_account l) = account -> exists rs, listing_of l kind = Some rs /\ (collection ∉ rs_id <$> rs)
  | None => is_Some (account_for (fa_layout f) kind) /\ (identity ∉ rs_id <$> own_listing f kind)
  end.

Lemma own_absent kind identity :
  parts_wants (fa_parts f) kind = true -> is_Some (account_for (fa_layout f) kind) -> split_shared_identity identity = None ->
  no_child f (kind_prefix kind ++ lit ":" ++ identity) = true <-> identity ∉ rs_id <$> own_listing f kind.
Proof using Hf.
  intros Hw [account Ha] Hs. rewrite no_child_true. split.
  - intros H (r&->&Hr)%list_elem_of_fmap. by apply (H (for_resource kind account r)); [by apply From_own|].
  - intros Hn c Hc. destruct Hc as [kind' account' r Ha' Hw' Hr|kind' l rs r Hl Hw' Hls Hr]; intros [-> <-]%kind_prefix_inj.
    + apply Hn. by apply list_elem_of_fmap_2.
    + by rewrite split_pair in Hs by (by apply (fo_accounts _ Hf)||by eapply (fo_shared _ Hf)).
Qed.

Lemma shared_absent kind l rs collection :
  parts_wants (fa_parts f) kind = true -> l ∈ fa_shared f -> listing_of l kind = Some rs -> "/"%char ∉ collection ->
  no_child f (kind_prefix kind ++ lit ":" ++ sa_id (sl_account l) ++ lit "/" ++ collection) = true <-> collection ∉ rs_id <$> rs.
Proof using Hf.
  intros Hw Hl Hls Hslash. rewrite no_child_true. split.
  - intros H (r&->&Hr)%list_elem_of_fmap. by apply (H (for_shared_resource kind (sl_account l) r)); [by eapply From_shared|].
  - intros Hn c Hc. destruct Hc as [kind' account' r Ha' Hw' Hr|kind' l' rs' r Hl' Hw' Hls' Hr]; intros [-> E]%kind_prefix_inj.
    + destruct (rfc_id_without _ (fo_own _ Hf _ _ Hr)) as (_&Hn'&_). apply Hn'. rewrite E, !elem_of_app. right. left. by apply list_elem_of_singleton.
    + assert (split_shared_identity (sa_id (sl_account l) ++ lit "/" ++ collection) = Some (sa_id (sl_account l'), rs_id r)) as Hsp
        by (rewrite <- E; apply split_pair; [by apply (fo_accounts _ Hf)|by eapply (fo_shared _ Hf)]).
      apply split_shared_identity_Some in Hsp. assert (split_once "/"%char (sa_id (sl_account l) ++ lit "/" ++ collection) = Some (sa_id (sl_account l), collection)) as H1.
      { apply split_once_Some. split; [done|]. apply (rfc_id_without _ (fo_accounts _ Hf _ Hl)). }
      assert (split_once "/"%char (sa_id (sl_account l) ++ lit "/" ++ collection) = Some (sa_id (sl_account l'), rs_id r)) as H2.
      { apply split_once_Some. split; [done|]. apply (rfc_id_without _ (fo_accounts _ Hf _ Hl')). }
      rewrite H1 in H2. injection H2 as Hacc ->. apply Hn. pose proof (find_account (sa_id (sl_account l))) as Hfind.
      assert (l' = l) as ->; [|rewrite Hls in Hls'; injection Hls' as <-; by apply list_elem_of_fmap_2].
      destruct (find _ _) as [l0|]; [destruct Hfind as (_&_&Hu); rewrite (Hu l), (Hu l'); done|by destruct (Hfind l)].
Qed.

Lemma child_not_obsolete c : comes_from f c -> is_obsolete f (ch_resource_id c) = false.
Proof using Hf.
  intros Hc. destruct (child_named c Hc) as (Hrid&Hne&_&Hid). unfold is_obsolete. rewrite Hrid, parse_kind_prefix, <- Hrid by done. rewrite (no_child_false _ Hc), !andb_false_r.
  destruct (split_shared_identity (child_identity c)) as [[account collection]|]; [|done]. destruct Hid as (_&_&l&Hl&->&_). pose proof (find_account (sa_id (sl_account l))) as Hfind.
  destruct (find _ _) as [l'|]; [by rewrite !andb_false_r|by destruct (Hfind l)].
Qed.

Lemma is_obsolete_spec rid : is_obsolete f rid = true <-> exists kind identity, parse_resource_id rid = Some (kind, identity) /\ proven_gone kind identity.
Proof using Hf.
  unfold is_obsolete. destruct (parse_resource_id rid) as [[kind identity]|] eqn:Ep; [|by split; [|intros (?&?&?&_)]].
  rewrite (exists_some_pair kind identity (fun kind identity => proven_gone kind identity)). unfold proven_gone.
  destruct (parse_resource_id_Some _ _ _ Ep) as [-> Hne]. destruct (split_shared_identity identity) as [[account collection]|] eqn:Es.
  - pose proof (find_account account) as Hfind. destruct (find _ _) as [l|].
    + destruct Hfind as (Hl&<-&Huniq). rewrite !andb_true_iff, bool_decide_eq_true. split.
      * intros (Hw&[rs Hrs]&Hno). split; [done|]. intros l' Hl' Hacc. rewrite (Huniq _ Hl' Hacc). exists rs. split; [done|].
        rewrite (split_shared_identity_Some _ _ _ Es) in Hno. eapply (shared_absent kind l); [done..|by eapply split_collection|done].
      * intros [Hw H]. destruct (H l Hl eq_refl) as (rs&Hrs&Hn). split_and!; [done|by rewrite Hrs|].
        rewrite (split_shared_identity_Some _ _ _ Es). eapply (shared_absent kind l); [done..|by eapply split_collection|done].
    + rewrite andb_true_r. split; [|by intros [? _]]. intros Hw. split; [done|]. intros l Hl Hacc. by destruct (Hfind l Hl).
  - unfold listed_kind, serves_kind. rewrite !andb_true_iff, bool_decide_eq_true. split.
    + intros [[Hw Ha] Hno]. split_and!; [done|done|]. by apply own_absent.
    + intros (Hw&Ha&Hn). split_and!; [done|done|]. by apply own_absent.
Qed.
End fanout.

(** ** What a discovery finds *)
Definition session_ids_ok (session : Session) : Prop := bt_ok (ss_accounts session) /\ Forall (fun e => rfc_id e.1) (ss_accounts session).

Definition ids_ok `{Collection C} (listing : list C) : Prop := forall c id, c ∈ listing -> co_id c = Some id -> rfc_id id.

Lemma resources_ids `{Collection C} (listing : list C) subscription r : ids_ok listing -> r ∈ resources listing subscription -> rfc_id (rs_id r).
Proof.
  intros Hids. unfold resources. intros ([n r']&->&Hin)%list_elem_of_fmap. rewrite sort_by_perm in Hin. apply list_elem_of_omap in Hin as (c&[_ Hc]%list_elem_of_filter&E).
  unfold resource_of in E. apply bind_Some in E as (id&Hid&[= <- <-]). by apply (Hids c).
Qed.

Lemma shared_service_Some session e s :
  shared_service session e = Some s -> ssv_account s = service_account e.1 e.2 /\ ac_is_personal e.2 = false.
Proof. unfold shared_service. destruct (ac_is_personal e.2); [done|]. destruct (_ || _); [|done]. by intros [= <-]. Qed.

Lemma shared_accounts_ids session : session_ids_ok session -> NoDup ((fun s => sa_id (ssv_account s)) <$> shared_accounts session) /\ Forall (fun s => rfc_id (sa_id (ssv_account s))) (shared_accounts session).
Proof.
  intros [Hok Hids]. apply bt_ok_nodup in Hok. unfold shared_accounts. revert Hok Hids. generalize (ss_accounts session). intros accounts.
  induction accounts as [|e accounts IH]; cbn [omap list_omap]; [split; constructor|]. rewrite fmap_cons, NoDup_cons, Forall_cons. intros [Hn Hd] [He Hids]. destruct (IH Hd Hids) as [IH1 IH2].
  destruct (shared_service session e) as [s|] eqn:E; [|done]. apply shared_service_Some in E as [E _]. rewrite fmap_cons, NoDup_cons, Forall_cons, E. cbn [service_account sa_id].
  split_and!; [|done|done|done]. intros (s'&Heq&(e'&He'&[E' _]%shared_service_Some)%list_elem_of_omap)%list_elem_of_fmap. rewrite E' in Heq. cbn in Heq. apply Hn. rewrite Heq. by apply list_elem_of_fmap_2.
Qed.

Section discovery.
Context {W : Type} `{!CollectionClient W}.
Hypothesis books_ids : forall w account w' listing, cc_address_books w account = (w', Ok listing) -> ids_ok listing.
Hypothesis calendars_ids : forall w account w' listing, cc_calendars w account = (w', Ok listing) -> ids_ok listing.

Lemma own_resources_ids `{Collection C} (call : W -> Id -> W * result (list C) Error) account wanted w w' rs :
  (forall w account w' (listing : list C), call w account = (w', Ok listing) -> ids_ok listing) -> own_resources call account wanted w = (w', Ok rs) -> Forall (fun r => rfc_id (rs_id r)) rs.
Proof using Type.
  intros Hcall. unfold own_resources. destruct account as [account|]; [|intros [= _ <-]; constructor]. destruct wanted; [|intros [= _ <-]; constructor].
  destruct (call w (sa_id account)) as [w1 [listing|e]] eqn:E; [|done]. intros [= _ <-]. apply Forall_forall. intros r. apply resources_ids. by eapply Hcall.
Qed.

Lemma shared_collections_ids `{Collection C} (call : W -> Id -> W * result (list C) Error) account asked w w' rs :
  (forall w account w' (listing : list C), call w account = (w', Ok listing) -> ids_ok listing) -> shared_collections call account asked w = (w', Some rs) ->
  asked = true /\ Forall (fun r => rfc_id (rs_id r)) rs.
Proof using Type.
  intros Hcall. unfold shared_collections. destruct asked; [|done]. destruct (call w (sa_id account)) as [w1 [listing|e]] eqn:E; [|done]. intros [= _ <-].
  split; [done|]. apply Forall_forall. intros r. apply resources_ids. by eapply Hcall.
Qed.

(** A listing, and the shared account that it is of. *)
Definition lists_service (parts : Parts) (s : SharedService) (l : SharedListing) : Prop :=
  sl_account l = ssv_account s /\ forall kind rs, listing_of l kind = Some rs -> shared_offers s kind = true /\ parts_wants parts kind = true /\ Forall (fun r => rfc_id (rs_id r)) rs.

Lemma shared_listings_of parts services w w' listings :
  shared_listings parts services w = (w', listings) -> Forall2 (lists_service parts) services listings.
Proof using books_ids calendars_ids.
  revert w listings. induction services as [|s services IH]; intros w listings; cbn [shared_listings]; [intros [= _ <-]; constructor|].
  unfold shared_listing. destruct (shared_collections cc_address_books _ _ w) as [w1 books] eqn:Eb. destruct (shared_collections cc_calendars _ _ w1) as [w2 cals] eqn:Ec.
  destruct (shared_listings parts services w2) as [w3 rest] eqn:Er. intros [= -> <-]. constructor; [|exact (IH _ _ Er)]. split; [done|].
  intros [] rs; cbn [listing_of sl_address_books sl_calendars]; intros ->.
  - by pose proof (shared_collections_ids _ _ _ _ _ _ books_ids Eb) as [[? ?]%andb_true_iff ?].
  - by pose proof (shared_collections_ids _ _ _ _ _ _ calendars_ids Ec) as [[? ?]%andb_true_iff ?].
Qed.

Lemma discover_found parts w w' f :
  discover parts w = (w', Ok f) ->
  fa_parts f = parts /\ fa_layout f = from_session (cc_session w) /\ (forall kind, Forall (fun r => rfc_id (rs_id r)) (own_listing f kind)) /\
    Forall2 (lists_service parts) (shared_accounts (cc_session w)) (fa_shared f).
Proof using books_ids calendars_ids.
  unfold discover. destruct (own_resources cc_address_books _ _ w) as [w1 [books|e]] eqn:Eb; [|done]. destruct (own_resources cc_calendars _ _ w1) as [w2 [cals|e]] eqn:Ec; [|done].
  destruct (shared_listings _ _ w2) as [w3 shared] eqn:Es. intros [= _ <-]. split_and!; [done|done| |by eapply shared_listings_of].
  intros []; [exact (own_resources_ids _ _ _ _ _ _ books_ids Eb)|exact (own_resources_ids _ _ _ _ _ _ calendars_ids Ec)].
Qed.

Lemma discover_ok parts w w' f : session_ids_ok (cc_session w) -> discover parts w = (w', Ok f) -> fanout_ok f.
Proof using books_ids calendars_ids.
  intros Hses (_&_&Hown&Hsh)%discover_found. destruct (shared_accounts_ids _ Hses) as [Hnd Hids].
  assert (forall l, l ∈ fa_shared f -> exists s, s ∈ shared_accounts (cc_session w) /\ lists_service parts s l) as Hl.
  { intros l Hin. apply list_elem_of_lookup in Hin as [i Hi]. destruct (Forall2_lookup_r _ _ _ _ _ Hsh Hi) as (s&Hs&?). exists s. split; [by eapply list_elem_of_lookup_2|done]. }
  split.
  - intros kind r Hr. specialize (Hown kind). rewrite Forall_forall in Hown. by apply Hown.
  - intros l kind rs r (s&_&_&Hk)%Hl Hrs Hr. destruct (Hk _ _ Hrs) as (_&_&Hall). rewrite Forall_forall in Hall. by apply Hall.
  - intros l (s&Hs&->&_)%Hl. rewrite Forall_forall in Hids. by apply Hids.
  - assert ((fun l => sa_id (sl_account l)) <$> fa_shared f = (fun s => sa_id (ssv_account s)) <$> shared_accounts (cc_session w)) as ->; [|done].
    clear -Hsh. induction Hsh as [|s l ss ls [E _] _ IH]; [done|]. by rewrite !fmap_cons, IH, E.
Qed.
Lemma child_target parts w w' f c :
  session_ids_ok (cc_session w) -> discover parts w = (w', Ok f) -> comes_from f c ->
  doomed_target (cc_session w) {| dm_kind := ch_kind c; dm_collection_id := child_identity c |} = Ok (ch_account_id c, ch_collection_id c).
Proof using books_ids calendars_ids.
  intros Hses Hd Hc. pose proof (discover_ok _ _ _ _ Hses Hd) as Hf. destruct (discover_found _ _ _ _ Hd) as (_&Hlay&_&Hsh). destruct (child_named f Hf c Hc) as (_&_&_&Hid).
  unfold doomed_target. cbn [dm_kind dm_collection_id]. destruct (split_shared_identity (child_identity c)) as [[account collection]|].
  - destruct Hid as (->&->&l&Hl&Hacc&[rs Hrs]). apply list_elem_of_lookup in Hl as [i Hi]. destruct (Forall2_lookup_r _ _ _ _ _ Hsh Hi) as (s&Hs%list_elem_of_lookup_2&El&Hk).
    destruct (Hk _ _ Hrs) as (Hoff&_&_). destruct (find _ _) as [s'|] eqn:Efind.
    + apply find_some in Efind as [_ [E%bool_decide_eq_true _]%andb_true_iff]. by rewrite E.
    + eapply find_none in Efind; [|by apply list_elem_of_In]. rewrite Hoff, andb_true_r in Efind. apply bool_decide_eq_false in Efind. by rewrite Hacc, El in Efind.
  - destruct Hid as (->&account&Ha&->). by rewrite <- Hlay, Ha.
Qed.

(** C18: A child source leads back to its collection. On any server whose ids are JMAP ids, the
    children of a discovery have resource ids of their own; a resource id is read back from the
    extension and the identity of its source, as it is after a restart; a child of the discovery
    is never obsolete by it; and a delete of the child destroys its own collection in its own
    account, also for a shared collection. *)
Theorem children_lead_back parts w w' f :
  session_ids_ok (cc_session w) -> discover parts w = (w', Ok f) ->
  NoDup (ch_resource_id <$> children f) /\
  Forall (fun c =>
    resource_id_for (kind_extension (ch_kind c)) (child_identity c) = Some (ch_resource_id c) /\
    parse_resource_id (ch_resource_id c) = Some (ch_kind c, child_identity c) /\
    is_obsolete f (ch_resource_id c) = false /\
    doomed_target (cc_session w) {| dm_kind := ch_kind c; dm_collection_id := child_identity c |} = Ok (ch_account_id c, ch_collection_id c)) (children f).
Proof using books_ids calendars_ids.
  intros Hses Hd. pose proof (discover_ok _ _ _ _ Hses Hd) as Hf. split; [apply first_of_each_spec|]. apply Forall_forall. intros c Hc%children_from.
  destruct (child_named f Hf c Hc) as (Hrid&Hne&_&_). split_and!; [| |by apply child_not_obsolete|by eapply child_target].
  - unfold resource_id_for. rewrite bool_decide_eq_false_2 by done. rewrite Hrid. by destruct (ch_kind c).
  - rewrite Hrid at 1. by apply parse_kind_prefix.
Qed.
End discovery.

(** ** A login with a shared calendar *)
Definition sample_account (name : text) (personal : bool) : Account :=
  {| ac_name := name; ac_is_personal := personal; ac_is_read_only := false; ac_account_capabilities := [(CAPABILITY_CALENDARS, Null); (CAPABILITY_CONTACTS, Null)]; ac_extra := [] |}.

Definition sample_session : Session :=
  {| ss_capabilities := [(CAPABILITY_CALENDARS, Null); (CAPABILITY_CONTACTS, Null)]; ss_accounts := [(lit "A", sample_account (lit "me") true); (lit "B", sample_account (lit "boss") false)];
     ss_primary_accounts := []; ss_username := lit "me"; ss_api_url := []; ss_download_url := []; ss_upload_url := []; ss_event_source_url := []; ss_state := lit "0"; ss_extra := [] |}.

Definition sample_book (id : Id) : AddressBookObject :=
  {| ab_id := Some id; ab_name := lit "People"; ab_sort_order := None; ab_is_default := Some true; ab_is_subscribed := None; ab_my_rights := None |}.
Definition sample_calendar (id : Id) (name : text) : CalendarObject :=
  {| ca_id := Some id; ca_name := name; ca_color := None; ca_sort_order := Some 2%N; ca_is_default := None; ca_is_subscribed := Some false; ca_my_rights := None |}.

(** The calendars of the other account can be listed; its address books cannot. *)
Definition sample_collections : CollectionClient Session := {|
  cc_session w := w;
  cc_address_books w account := (w, if bool_decide (account = lit "A") then Ok [sample_book (lit "1"); sample_book (lit "1")] else Err Cancelled);
  cc_calendars w account := (w, if bool_decide (account = lit "A") then Ok [sample_calendar (lit "1") (lit "Work")] else Ok [sample_calendar (lit "1") (lit "Work")]);
  cc_address_book_create w _ book := (w, Ok book); cc_calendar_create w _ calendar := (w, Ok calendar);
  cc_address_book_destroy w _ _ := (w, Err Cancelled); cc_calendar_destroy w _ _ := (w, Err Cancelled);
|}.

Lemma sample_id_ok : rfc_id (lit "1").
Proof. split; [done|by repeat constructor]. Qed.

Lemma children_lead_back_witness :
  exists f, (discover (CollectionClient0 := sample_collections) PARTS_ALL sample_session).2 = Ok f /\
    (fun c => (ch_resource_id c, ch_display_name c, ch_account_id c)) <$> children f =
      [(lit "addressbook:1", lit "People", lit "A"); (lit "calendar:B/1", lit "boss: Work", lit "B")] /\
    Forall (fun c => doomed_target sample_session {| dm_kind := ch_kind c; dm_collection_id := child_identity c |} = Ok (ch_account_id c, ch_collection_id c)) (children f).
Proof.
  destruct (discover (CollectionClient0 := sample_collections) PARTS_ALL sample_session) as [w' [f|e]] eqn:E; [|vm_compute in E; discriminate E].
  exists f. split; [reflexivity|]. split; [vm_compute in E; injection E as <- <-; vm_compute; reflexivity|].
  destruct (children_lead_back (CollectionClient0 := sample_collections)) with (parts := PARTS_ALL) (w := sample_session) (w' := w') (f := f) as [_ Hall].
  - intros w account w1 listing. cbn. case_bool_decide; intros [= _ <-]; intros c id Hc; repeat (apply elem_of_cons in Hc as [->|Hc]; [intros [= <-]; exact sample_id_ok|]); by apply not_elem_of_nil in Hc.
  - intros w account w1 listing. cbn. case_bool_decide; intros [= _ <-]; intros c id Hc; repeat (apply elem_of_cons in Hc as [->|Hc]; [intros [= <-]; exact sample_id_ok|]); by apply not_elem_of_nil in Hc.
  - split; [by_decide|by repeat constructor].
  - exact E.
  - eapply Forall_impl; [exact Hall|]. by intros c (_&_&_&?).
Defined.
