(* ===== verification/CollectionFanout.v ===== *)
(** Populate, and a discovered fan-out applied to the child sources of an account
    (jmap-backend-collection: populate.rs, fan_out.rs, removal.rs, resource_id.rs,
    child_source.rs). *)

From Stdlib Require Import Ascii String.
From stdpp Require Import prelude strings.
From S2P Require Import Prelude BTree Text Strings Json Wire Proto Session Collections.

Local Open Scope rust_scope.

(** ** Evolution's registry

    The calls of evolution-data-server that the code makes on a collection, on its registry and on
    a source, and what can be observed of them: the children that it lists, the sources of earlier
    sessions that are not claimed yet, and the count of populate freezes. *)
Class Eds (W S : Type) := {
  eds_new_child : W -> text -> W * option S;
  eds_is_new : W -> S -> bool;
  eds_set : W -> S -> text -> text -> text -> W;
  eds_has_extension : W -> S -> text -> bool;
  eds_identity : W -> S -> option text;
  eds_publish : W -> S -> W;
  eds_set_remote_deletable : W -> S -> bool -> W;
  eds_children : W -> list S;
  eds_remove : W -> S -> W * result unit text;
  eds_freeze : W -> W * bool;
  eds_thaw : W -> W;
  eds_chain_up : W -> W;
  eds_claim_all : W -> W * list S;
  eds_request_credentials : W -> W;
  eds_authenticate_anonymously : W -> W;
  eds_offer_creation : W -> bool -> W;
  eds_allow_rename : W -> W;
  eds_cached : W -> list S;
  eds_freezes : W -> N;
}.

Definition KIND_EXTENSIONS : list text := [EXTENSION_ADDRESS_BOOK; EXTENSION_CALENDAR].

Inductive UnwritableSetting := UnknownProperty (group key : text) | WrongType (group key value : text).

Inductive Adopted := Written (published : bool) | Uncreated | AbandonedChild (setting : UnwritableSetting).

Record Populated := { pd_children : list text; pd_uncreated : list text; pd_abandoned : list (text * UnwritableSetting); pd_not_removed : list (text * text) }.

Inductive Asked := AskedNothing | AskedCredentials | AskedAnonymously | AskedSilently.

Record Restored := { rd_children : list text; rd_unidentified : N; rd_asked : Asked; rd_creatable : bool }.

(** [cstring_lossy]: up to the first NUL. *)
Definition cstring_lossy (t : text) : text := match split_once "000"%char t with Some (a, _) => a | None => t end.

(** The value that a setting writes, where there is a property for it. *)
Definition written_value (setting : Setting) : result text UnwritableSetting :=
  let value := cstring_lossy (sg_value setting) in
  let unknown := Err (UnknownProperty (sg_group setting) (sg_key setting)) in
  if bool_decide (sg_group setting = EXTENSION_DATA_SOURCE) && bool_decide (sg_key setting = lit "DisplayName") then Ok value
  else if bool_decide (sg_key setting = lit "BackendName") then (if bool_decide (sg_group setting ∈ KIND_EXTENSIONS) then Ok value else unknown)
  else if bool_decide (sg_group setting = EXTENSION_RESOURCE) && bool_decide (sg_key setting = lit "Identity") then Ok value
  else if bool_decide (sg_group setting = EXTENSION_AUTHENTICATION) && bool_decide (sg_key setting ∈ [lit "Host"; lit "User"; lit "Method"]) then Ok value
  else if bool_decide (sg_group setting = EXTENSION_AUTHENTICATION) && bool_decide (sg_key setting = lit "Port")
  then match parse_u16 (sg_value setting) with Some port => Ok (to_dec port) | None => Err (WrongType (sg_group setting) (sg_key setting) (sg_value setting)) end
  else if bool_decide (sg_group setting = EXTENSION_SECURITY) && bool_decide (sg_key setting = lit "Method") then Ok value
  else if bool_decide (sg_group setting = EXTENSION_CALENDAR) && bool_decide (sg_key setting = lit "Color") then Ok value
  else unknown.

Section eds.
Context {W S : Type} `{HS : EqDecision S, !Eds W S}.

Definition kind_extension_of (w : W) (s : S) : option text := find (eds_has_extension w s) KIND_EXTENSIONS.

Definition resource_id_of (w : W) (s : S) : option text :=
  let! extension := kind_extension_of w s in
  let! identity := eds_identity w s in
  resource_id_for extension identity.

Fixpoint apply_settings (settings : list Setting) (s : S) (w : W) : W * result unit UnwritableSetting :=
  match settings with
  | [] => (w, Ok tt)
  | setting :: settings =>
      match written_value setting with
      | Err e => (w, Err e)
      | Ok value => apply_settings settings s (eds_set w s (sg_group setting) (sg_key setting) value)
      end
  end.

(** A resource id with a NUL is not one that a C string can name. *)
Definition new_child (w : W) (resource_id : text) : W * option S :=
  if bool_decide ("000"%char ∈ resource_id) then (w, None) else eds_new_child w resource_id.

Definition adopt (resource_id : text) (settings : list Setting) (remote_deletable : bool) (w : W) : W * Adopted :=
  match new_child w resource_id with
  | (w, None) => (w, Uncreated)
  | (w, Some s) =>
      let is_new := eds_is_new w s in
      match apply_settings settings s w with
      | (w, Ok _) =>
          let w := if is_new then eds_publish w s else w in
          (eds_set_remote_deletable w s remote_deletable, Written is_new)
      | (w, Err setting) => (w, AbandonedChild setting)
      end
  end.

Fixpoint adopt_all (connection : Connection) (l : list Child) (report : Populated) (w : W) : W * Populated :=
  match l with
  | [] => (w, report)
  | c :: l =>
      let '(w, adopted) := adopt (ch_resource_id c) (child_settings c connection) (ch_remote_deletable c) w in
      adopt_all connection l
        {| pd_children := pd_children report ++ match adopted with Written _ => [ch_resource_id c] | _ => [] end;
           pd_uncreated := pd_uncreated report ++ match adopted with Uncreated => [ch_resource_id c] | _ => [] end;
           pd_abandoned := pd_abandoned report ++ match adopted with AbandonedChild setting => [(ch_resource_id c, setting)] | _ => [] end;
           pd_not_removed := pd_not_removed report |} w
  end.

Definition named_obsolete (f : Fanout) (sources : list S) (w : W) : list (S * text) :=
  omap (fun s => let! resource_id := resource_id_of w s in if is_obsolete f resource_id then Some (s, resource_id) else None) sources.

Fixpoint remove_all (obsolete : list (S * text)) (w : W) : W * list (text * text) :=
  match obsolete with
  | [] => (w, [])
  | (s, resource_id) :: obsolete =>
      let '(w, removed) := eds_remove w s in
      let '(w, not_removed) := remove_all obsolete w in
      (w, match removed with Ok _ => not_removed | Err message => (resource_id, message) :: not_removed end)
  end.

Definition remove_obsolete (f : Fanout) (sources : list S) (w : W) : W * list (text * text) := remove_all (named_obsolete f sources w) w.

Definition apply_fanout (f : Fanout) (connection : Connection) (w : W) : W * Populated :=
  let existing := eds_children w in
  let '(w, report) := adopt_all connection (children f) {| pd_children := []; pd_uncreated := []; pd_abandoned := []; pd_not_removed := [] |} w in
  let '(w, not_removed) := remove_obsolete f existing w in
  (w, {| pd_children := pd_children report; pd_uncreated := pd_uncreated report; pd_abandoned := pd_abandoned report; pd_not_removed := not_removed |}).

Fixpoint restore_all (l : list S) (ids : list text) (unidentified : N) (w : W) : W * (list text * N) :=
  match l with
  | [] => (w, (ids, unidentified))
  | s :: l =>
      match resource_id_of w s with
      | Some resource_id => restore_all l (ids ++ [resource_id]) unidentified (eds_publish w s)
      | None => restore_all l ids (unidentified + 1)%N w
      end
  end.

(** The thaw is the destructor of the guard, on both ways out. *)
Definition populate (parts : Parts) (user : option text) (uses_oauth2 : bool) (w : W) : W * option Restored :=
  let '(w, held) := eds_freeze w in
  if negb held then (eds_thaw w, None)
  else
    let w := eds_chain_up w in
    let '(w, claimed) := eds_claim_all w in
    let '(w, (ids, unidentified)) := restore_all claimed [] 0 w in
    let creatable := parts_wants parts AddressBook || parts_wants parts Calendar in
    let w := eds_offer_creation w creatable in
    let w := eds_allow_rename w in
    let '(w, asked) :=
      if creatable then
        if uses_oauth2 then (eds_authenticate_anonymously w, AskedSilently)
        else match user with Some _ => (eds_request_credentials w, AskedCredentials) | None => (eds_authenticate_anonymously w, AskedAnonymously) end
      else (w, AskedNothing) in
    (eds_thaw w, Some {| rd_children := ids; rd_unidentified := unidentified; rd_asked := asked; rd_creatable := creatable |}).

(** ** What evolution-data-server documents *)
Definition same_source (w w' : W) (s : S) : Prop :=
  (forall e, e ∈ KIND_EXTENSIONS -> eds_has_extension w' s e = eds_has_extension w s e) /\ eds_identity w' s = eds_identity w s.

(** Nothing changes but, perhaps, the source [s]. *)
Record touches_only (s : S) (w w' : W) : Prop := {
  to_others : forall s', s' <> s -> same_source w w' s' /\ (s' ∈ eds_children w' <-> s' ∈ eds_children w);
  to_cached : eds_cached w' = eds_cached w;
  to_freezes : eds_freezes w' = eds_freezes w;
}.

Record untouched (w w' : W) : Prop := {
  un_source : forall s, same_source w w' s;
  un_children : forall s, s ∈ eds_children w' <-> s ∈ eds_children w;
  un_cached : eds_cached w' = eds_cached w;
}.

Class EdsLaws : Prop := {
  (** Once the sources of earlier sessions are claimed, the source of a resource id is the child
      that has it, or else a new, empty one. *)
  el_new_child : forall w resource_id w' o, eds_cached w = [] -> eds_new_child w resource_id = (w', o) ->
    match o with
    | None => untouched w w' /\ eds_freezes w' = eds_freezes w
    | Some s =>
        (s ∈ eds_children w /\ resource_id_of w s = Some resource_id /\ untouched w w' /\ eds_freezes w' = eds_freezes w) \/
        ((s ∉ eds_children w) /\ (forall s', s' ∈ eds_children w -> resource_id_of w s' <> Some resource_id) /\ eds_is_new w' s = true /\
          (forall e, e ∈ KIND_EXTENSIONS -> eds_has_extension w' s e = false) /\ touches_only s w w')
    end;
  (** A property is written to its extension, which is there from then on. *)
  el_set : forall w s group key value, touches_only s w (eds_set w s group key value) /\ (s ∈ eds_children w -> s ∈ eds_children (eds_set w s group key value));
  el_set_extension : forall w s group key value e, e ∈ KIND_EXTENSIONS -> eds_has_extension (eds_set w s group key value) s e = eds_has_extension w s e || bool_decide (e = group);
  el_set_identity : forall w s group key value, eds_identity (eds_set w s group key value) s =
    if bool_decide (group = EXTENSION_RESOURCE) && bool_decide (key = lit "Identity") then Some value else eds_identity w s;
  (** An exported address book or calendar is listed. *)
  el_publish : forall w s, touches_only s w (eds_publish w s) /\ same_source w (eds_publish w s) s /\ (is_Some (kind_extension_of w s) -> s ∈ eds_children (eds_publish w s));
  el_deletable : forall w s b, untouched w (eds_set_remote_deletable w s b) /\ eds_freezes (eds_set_remote_deletable w s b) = eds_freezes w;
  (** A removal that succeeds takes the source away, and nothing else. *)
  el_remove : forall w s w' r, eds_remove w s = (w', r) -> (forall s', same_source w w' s') /\ eds_freezes w' = eds_freezes w /\
    forall s', s' ∈ eds_children w' <-> s' ∈ eds_children w /\ (r = Ok tt -> s' <> s);
  (** The freeze counts, for the caller who does not get it too. *)
  el_freeze : forall w w' held, eds_freeze w = (w', held) -> untouched w w' /\ eds_freezes w' = (eds_freezes w + 1)%N /\ held = bool_decide (eds_freezes w = 0%N);
  el_thaw : forall w, untouched w (eds_thaw w) /\ eds_freezes (eds_thaw w) = (eds_freezes w - 1)%N;
  (** The cached sources can be claimed once. *)
  el_claim_all : forall w w' l, eds_claim_all w = (w', l) -> l = eds_cached w /\ eds_cached w' = [] /\ eds_freezes w' = eds_freezes w /\
    forall s, same_source w w' s /\ (s ∈ eds_children w' <-> s ∈ eds_children w);
  el_account : forall w w' b, w' ∈ [eds_chain_up w; eds_request_credentials w; eds_authenticate_anonymously w; eds_offer_creation w b; eds_allow_rename w] ->
    untouched w w' /\ eds_freezes w' = eds_freezes w;
}.

(** ** Reading a source *)
Lemma resource_id_of_same w w' s : same_source w w' s -> resource_id_of w' s = resource_id_of w s.
Proof using Type.
  intros [He Hi]. unfold resource_id_of, kind_extension_of, KIND_EXTENSIONS. cbn [find]. rewrite Hi, !He by (by_decide). done.
Qed.

Lemma same_source_trans w w1 w2 s : same_source w w1 s -> same_source w1 w2 s -> same_source w w2 s.
Proof using Type. intros [E1 I1] [E2 I2]. split; [|by rewrite I2]. intros e He. by rewrite E2, E1. Qed.

Lemma untouched_refl w : untouched w w.
Proof using Type. by repeat split. Qed.

Lemma untouched_trans w w1 w2 : untouched w w1 -> untouched w1 w2 -> untouched w w2.
Proof using Type.
  intros [H1 H2 H3] [H1' H2' H3']. split; [|intros; by rewrite H2', H2|by rewrite H3', H3].
  intros s. by eapply same_source_trans.
Qed.

Lemma touches_only_trans s w w1 w2 : touches_only s w w1 -> touches_only s w1 w2 -> touches_only s w w2.
Proof using Type.
  intros [H1 H2 H3] [H1' H2' H3']. split; [|congruence..].
  intros s' Hne. destruct (H1 _ Hne) as [? Hc], (H1' _ Hne) as [? Hc']. split; [by eapply same_source_trans|by rewrite Hc', Hc].
Qed.

Lemma untouched_touches s w w' : untouched w w' -> eds_freezes w' = eds_freezes w -> touches_only s w w'.
Proof using Type. intros [] ?. by split. Qed.

(** ** Writing a child *)
Definition is_identity (setting : Setting) : bool := bool_decide (sg_group setting = EXTENSION_RESOURCE) && bool_decide (sg_key setting = lit "Identity").

Context (laws : EdsLaws).

Lemma apply_settings_ok s settings w :
  Forall (fun setting => exists value, written_value setting = Ok value) settings ->
  exists w', apply_settings settings s w = (w', Ok tt) /\ touches_only s w w' /\ (s ∈ eds_children w -> s ∈ eds_children w') /\
    (forall e, e ∈ KIND_EXTENSIONS -> eds_has_extension w' s e = eds_has_extension w s e || existsb (fun setting => bool_decide (e = sg_group setting)) settings) /\
    eds_identity w' s = fold_left (fun identity setting => if is_identity setting then match written_value setting with Ok value => Some value | Err _ => None end else identity) settings (eds_identity w s).
Proof.
  intros Hall. revert w. induction Hall as [|setting settings [value Hv] _ IH]; intros w; cbn [apply_settings existsb fold_left].
  { exists w. split_and!; [done|by repeat split|done|intros; by rewrite orb_false_r|done]. }
  rewrite Hv. destruct (IH (eds_set w s (sg_group setting) (sg_key setting) value)) as (w'&->&Ht&Hc&He&Hi). destruct (el_set w s (sg_group setting) (sg_key setting) value) as [Ht0 Hc0].
  exists w'. split_and!; [done|by eapply touches_only_trans|auto| |].
  - intros e Hin. rewrite He, el_set_extension by done. by rewrite orb_assoc.
  - rewrite Hi, el_set_identity. done.
Qed.

Lemma cstring_lossy_id t : "000"%char ∉ t -> cstring_lossy t = t.
Proof using Type. intros Hn. unfold cstring_lossy. by rewrite (proj2 (split_once_None _ _)). Qed.

Definition port_ok (connection : Connection) : Prop := forall port, cn_port connection = Some port -> (port <= u16_max)%N.

Lemma child_settings_written c connection : port_ok connection -> Forall (fun setting => exists value, written_value setting = Ok value) (child_settings c connection).
Proof using Type.
  intros Hport. unfold child_settings. repeat (apply Forall_app; split).
  - repeat (constructor; [destruct (ch_kind c); eexists; reflexivity|]). constructor.
  - destruct (cn_port connection) as [port|] eqn:E; cbn; [|constructor]. constructor; [|constructor]. eexists. unfold written_value. cbn [sg_value sg_group sg_key].
    unfold parse_u16. rewrite parse_uint_to_dec by auto. reflexivity.
  - destruct (cn_user connection); cbn; [constructor; [by eexists|]|]; constructor.
  - destruct (cn_auth_method connection); cbn; [constructor; [by eexists|]|]; constructor.
  - constructor; [by eexists|constructor].
  - destruct (ch_kind c); [constructor|]. destruct (ch_color c); cbn; [constructor; [by eexists|]|]; constructor.
Qed.

(** The settings name the extension of the kind, and not that of the other one. *)
Lemma child_settings_extension c connection e :
  e ∈ KIND_EXTENSIONS -> existsb (fun setting => bool_decide (e = sg_group setting)) (child_settings c connection) = bool_decide (e = kind_extension (ch_kind c)).
Proof using Type.
  intros He. unfold child_settings. repeat (apply elem_of_cons in He as [->|He]); [..|by apply not_elem_of_nil in He];
    destruct (ch_kind c), (cn_port connection), (cn_user connection), (cn_auth_method connection), (ch_color c); reflexivity.
Qed.

Lemma child_settings_identity c connection o :
  "000"%char ∉ child_identity c ->
  fold_left (fun identity setting => if is_identity setting then match written_value setting with Ok value => Some value | Err _ => None end else identity) (child_settings c connection) o = Some (child_identity c).
Proof using Type.
  intros Hn. rewrite <- (cstring_lossy_id _ Hn). unfold child_settings.
  destruct (ch_kind c), (cn_port connection), (cn_user connection), (cn_auth_method connection), (ch_color c); reflexivity.
Qed.

Lemma calendar_not_book w s rest : resource_id_of w s = Some (kind_prefix Calendar ++ lit ":" ++ rest) -> eds_has_extension w s EXTENSION_ADDRESS_BOOK = false.
Proof using Type.
  unfold resource_id_of, kind_extension_of. cbn [find KIND_EXTENSIONS]. destruct (eds_has_extension w s EXTENSION_ADDRESS_BOOK); [|done].
  cbn [mbind option_bind]. intros (identity&_&H)%bind_Some. unfold resource_id_for in H. case_bool_decide; [done|].
  change (Some (kind_prefix AddressBook ++ lit ":" ++ identity) = Some (kind_prefix Calendar ++ lit ":" ++ rest)) in H. apply (inj Some) in H. by apply (kind_prefix_inj AddressBook Calendar) in H as [? _].
Qed.

Definition named (c : Child) : Prop := ch_resource_id c = kind_prefix (ch_kind c) ++ lit ":" ++ child_identity c /\ child_identity c <> [] /\ "000"%char ∉ child_identity c.

Lemma child_written w w' s c :
  named c -> (ch_kind c = Calendar -> eds_has_extension w s EXTENSION_ADDRESS_BOOK = false) ->
  (forall e, e ∈ KIND_EXTENSIONS -> eds_has_extension w' s e = eds_has_extension w s e || bool_decide (e = kind_extension (ch_kind c))) ->
  eds_identity w' s = Some (child_identity c) -> resource_id_of w' s = Some (ch_resource_id c).
Proof using Type.
  intros (->&Hne&_) Hbook He Hi. unfold resource_id_of, kind_extension_of. cbn [find KIND_EXTENSIONS]. rewrite !He, Hi by by_decide.
  destruct (ch_kind c); [|rewrite Hbook by done].
  - assert (bool_decide (EXTENSION_ADDRESS_BOOK = kind_extension AddressBook) = true) as -> by done. rewrite orb_true_r. cbn [mbind option_bind]. unfold resource_id_for. by rewrite bool_decide_eq_false_2.
  - assert (bool_decide (EXTENSION_ADDRESS_BOOK = kind_extension Calendar) = false) as -> by done. assert (bool_decide (EXTENSION_CALENDAR = kind_extension Calendar) = true) as -> by done.
    rewrite orb_true_r. cbn [mbind option_bind orb]. unfold resource_id_for. by rewrite bool_decide_eq_false_2.
Qed.

(** No two listed children have one resource id. *)
Definition distinct (w : W) : Prop :=
  forall s s' resource_id, s ∈ eds_children w -> s' ∈ eds_children w -> resource_id_of w s = Some resource_id -> resource_id_of w s' = Some resource_id -> s = s'.

(** The children of [w] are kept, and those of [ids] are there. *)
Record grown (ids : list text) (w w' : W) : Prop := {
  gr_kept : forall s, s ∈ eds_children w -> s ∈ eds_children w' /\ resource_id_of w' s = resource_id_of w s;
  gr_from : forall s, s ∈ eds_children w' -> s ∈ eds_children w \/ exists resource_id, resource_id ∈ ids /\ resource_id_of w' s = Some resource_id;
  gr_there : forall resource_id, resource_id ∈ ids -> exists s, s ∈ eds_children w' /\ resource_id_of w' s = Some resource_id;
  gr_distinct : distinct w -> distinct w';
  gr_cached : eds_cached w' = eds_cached w;
  gr_freezes : eds_freezes w' = eds_freezes w;
}.

Lemma grown_trans ids ids' w w1 w2 : grown ids w w1 -> grown ids' w1 w2 -> grown (ids ++ ids') w w2.
Proof using Type.
  intros [K1 F1 T1 D1 C1 Z1] [K2 F2 T2 D2 C2 Z2]. split; [| | |auto|congruence..].
  - intros s [H1 E1]%K1. destruct (K2 _ H1) as [H2 E2]. split; [done|congruence].
  - intros s [H1|(r&Hr&E)]%F2; [|right; exists r; rewrite elem_of_app; auto]. destruct (K2 _ H1) as [_ E2]. destruct (F1 _ H1) as [?|(r&Hr&E)]; [by left|right].
    exists r. rewrite elem_of_app, E2. auto.
  - intros r [(s&H1&E1)%T1|H2]%elem_of_app; [|auto]. exists s. destruct (K2 _ H1) as [H2 E2]. split; [done|congruence].
Qed.

Lemma grown_untouched w w' : untouched w w' -> eds_freezes w' = eds_freezes w -> grown [] w w'.
Proof using Type.
  intros [Hs Hc Hca] Hz. assert (forall s, resource_id_of w' s = resource_id_of w s) as Hr by (intros; by apply resource_id_of_same).
  split; [intros s Hin; by rewrite Hc, Hr|intros s Hin; left; by apply Hc|by intros ? ?%not_elem_of_nil| |done|done].
  intros Hd s s' r. rewrite !Hc, !Hr. apply Hd.
Qed.

(** One source takes the resource id: the one that had it, or a new one where none had it. *)
Lemma grown_one s rid w w' :
  touches_only s w w' -> s ∈ eds_children w' -> resource_id_of w' s = Some rid ->
  (s ∈ eds_children w /\ resource_id_of w s = Some rid) \/ ((s ∉ eds_children w) /\ forall s', s' ∈ eds_children w -> resource_id_of w s' <> Some rid) ->
  grown [rid] w w'.
Proof using HS.
  intros [Ho Hca Hz] Hin Hrid Hcase. assert (forall s', s' <> s -> resource_id_of w' s' = resource_id_of w s') as Hr by (intros s' Hne; apply resource_id_of_same, (Ho _ Hne)).
  assert (forall s', s' ∈ eds_children w -> s' ∈ eds_children w' /\ resource_id_of w' s' = resource_id_of w s') as Hk.
  { intros s' Hs'. destruct (decide (s' = s)) as [->|Hne]; [|by split; [apply (Ho _ Hne)|apply Hr]]. split; [done|]. destruct Hcase as [[_ E]|[Hn _]]; [congruence|done]. }
  assert (forall s', s' ∈ eds_children w' -> s' <> s -> s' ∈ eds_children w /\ resource_id_of w s' = resource_id_of w' s') as Hback by (intros s' Hs' Hne; split; [by apply (Ho _ Hne)|by rewrite Hr]).
  assert (forall s', distinct w -> s' ∈ eds_children w' -> resource_id_of w' s' = Some rid -> s' = s) as Huniq.
  { intros s' Hd Hs' E. destruct (decide (s' = s)) as [|Hne]; [done|]. destruct (Hback _ Hs' Hne) as [Hs0 E0]. rewrite E in E0.
    destruct Hcase as [[Hs Er]|[_ Hno]]; [by apply (Hd _ _ rid)|by destruct (Hno _ Hs0)]. }
  split; [done| | | |done|done].
  - intros s' Hs'. destruct (decide (s' = s)) as [->|Hne]; [right|left; by apply (Ho _ Hne)]. exists rid. split; [by left|done].
  - intros r ->%list_elem_of_singleton. by exists s.
  - intros Hd a b r Ha Hb Ea Eb. destruct (decide (a = s)) as [->|Hna]; [symmetry; apply Huniq; [done..|congruence]|]. destruct (decide (b = s)) as [->|Hnb]; [apply Huniq; [done..|congruence]|].
    destruct (Hback _ Ha Hna) as [Ha0 Ea0], (Hback _ Hb Hnb) as [Hb0 Eb0]. apply (Hd _ _ r); congruence.
Qed.

Lemma adopt_grown c connection w w' adopted :
  named c -> port_ok connection -> eds_cached w = [] -> adopt (ch_resource_id c) (child_settings c connection) (ch_remote_deletable c) w = (w', adopted) ->
  (adopted = Uncreated /\ grown [] w w') \/ (exists published, adopted = Written published /\ grown [ch_resource_id c] w w').
Proof using laws HS.
  intros Hc Hport Hcached. unfold adopt, new_child. case_bool_decide; [intros [= <- <-]; left; split; [done|by apply grown_untouched; [apply untouched_refl|]]|].
  destruct (eds_new_child w _) as [w1 o] eqn:Enew. pose proof (el_new_child _ _ _ _ Hcached Enew) as Hnew. destruct o as [s|]; [|destruct Hnew; intros [= <- <-]; left; split; [done|by apply grown_untouched]].
  destruct (apply_settings_ok s _ w1 (child_settings_written c connection Hport)) as (w2&->&Ht&Hin&He&Hi). intros [= <- <-]. right. eexists. split; [done|].
  rewrite child_settings_identity in Hi by apply Hc. set (w3 := if eds_is_new w1 s then eds_publish w2 s else w2). destruct (el_deletable w3 s (ch_remote_deletable c)) as [Hd Hz].
  replace [ch_resource_id c] with ([ch_resource_id c] ++ []) by done. eapply grown_trans; [|by apply grown_untouched].
  assert (touches_only s w w1 /\ (ch_kind c = Calendar -> eds_has_extension w1 s EXTENSION_ADDRESS_BOOK = false)) as [Ht0 Hb].
  { destruct Hnew as [(_&Hr&Hu&Hz')|(_&_&_&Hb&Ht')]; [|split; [done|intros _; apply Hb; by_decide]]. split; [by apply untouched_touches|]. intros Ek.
    destruct Hc as (Hrid&_). rewrite Hrid, Ek in Hr. apply (calendar_not_book _ _ (child_identity c)). by rewrite (resource_id_of_same _ _ _ (un_source _ _ Hu s)). }
  assert (resource_id_of w2 s = Some (ch_resource_id c)) as Hr2.
  { apply (child_written w1); [done|done| |done]. intros e Hek. by rewrite He, child_settings_extension. }
  assert (is_Some (kind_extension_of w2 s)) as Hkind by (unfold resource_id_of in Hr2; destruct (kind_extension_of w2 s); [done|discriminate]).
  destruct (el_publish w2 s) as (Htp&Hsp&Hpin).
  assert (touches_only s w2 w3 /\ resource_id_of w3 s = Some (ch_resource_id c) /\ (s ∈ eds_children w2 -> s ∈ eds_children w3)) as (Ht3&Hr3&Hin3).
  { subst w3. destruct (eds_is_new w1 s); [|split_and!; [apply untouched_touches; [apply untouched_refl|done]|done|done]]. split_and!; [done|by rewrite (resource_id_of_same _ _ _ Hsp)|auto]. }
  apply (grown_one s); [by eapply touches_only_trans; [|eapply touches_only_trans]| |done|].
  - destruct Hnew as [(Hw&_&Hu&_)|(_&_&Hn&_)]; [apply Hin3, Hin, Hu, Hw|]. subst w3. rewrite Hn. auto.
  - destruct Hnew as [(Hw&Hr&_)|(Hw&Hr&_)]; auto.
Qed.

Lemma adopt_all_uncreated connection l report w : exists more, pd_uncreated (adopt_all connection l report w).2 = pd_uncreated report ++ more.
Proof using Type.
  revert report w. induction l as [|c l IH]; intros report w; cbn [adopt_all]; [exists []; by rewrite app_nil_r|]. destruct (adopt _ _ _ w) as [w1 adopted].
  match goal with |- context [adopt_all _ _ ?r w1] => destruct (IH r w1) as [more Hm] end. rewrite Hm. cbn [pd_uncreated]. rewrite <- app_assoc. by eexists.
Qed.

Lemma adopt_all_grown connection l report w w' report' :
  Forall named l -> port_ok connection -> eds_cached w = [] -> adopt_all connection l report w = (w', report') ->
  exists written, grown written w w' /\ pd_children report' = pd_children report ++ written /\ pd_abandoned report' = pd_abandoned report /\
    (forall r, r ∈ written -> r ∈ ch_resource_id <$> l) /\
    forall c, c ∈ l -> ch_resource_id c ∈ written \/ ch_resource_id c ∈ pd_uncreated report'.
Proof using laws HS.
  intros Hl Hport. revert report w.
  induction Hl as [|c l Hc Hl IH]; intros report w Hcached.
  { cbn. intros [= <- <-]. exists []. split_and!; [by apply grown_untouched; [apply untouched_refl|]|by rewrite app_nil_r|done|by intros ? ?%not_elem_of_nil|by intros ? ?%not_elem_of_nil]. }
  cbn [adopt_all]. destruct (adopt _ _ _ w) as [w1 adopted] eqn:Ea. intros Hrest. destruct (adopt_grown _ _ _ _ _ Hc Hport Hcached Ea) as [[-> Hg]|(published&->&Hg)];
    destruct (IH _ w1 ltac:(by rewrite (gr_cached _ _ _ Hg)) Hrest) as (written&Hg'&Hch&Hab&Hsub&Hcov).
  - exists written. split_and!; [by eapply (grown_trans []) in Hg'|by rewrite Hch; cbn; rewrite app_nil_r|by rewrite Hab; cbn; rewrite app_nil_r|intros r Hr; right; auto|].
    intros c' [->|Hin]%elem_of_cons; [right|auto]. match type of Hrest with adopt_all _ _ ?rep _ = _ => destruct (adopt_all_uncreated connection l rep w1) as [more Hm] end.
    rewrite Hrest in Hm. cbn in Hm. rewrite Hm, !elem_of_app, list_elem_of_singleton. auto.
  - exists (ch_resource_id c :: written). split_and!; [by eapply (grown_trans [_]) in Hg'|by rewrite Hch; cbn; rewrite <- app_assoc|by rewrite Hab; cbn; rewrite app_nil_r| |].
    + intros r [->|Hr]%elem_of_cons; [by left|right; auto].
    + intros c' [->|Hin]%elem_of_cons; [left; by left|]. destruct (Hcov _ Hin); [left; by right|by right].
Qed.

(** ** Removing *)
Lemma remove_all_spec obsolete w w' not_removed :
  remove_all obsolete w = (w', not_removed) ->
  (forall s, same_source w w' s) /\ eds_freezes w' = eds_freezes w /\ (forall s, s ∈ eds_children w' -> s ∈ eds_children w) /\
  (forall s, s ∈ eds_children w -> s ∈ eds_children w' \/ exists r, (s, r) ∈ obsolete) /\
  (forall s r, (s, r) ∈ obsolete -> (s ∉ eds_children w') \/ exists message, (r, message) ∈ not_removed).
Proof using laws HS.
  revert w not_removed. induction obsolete as [|[s r] obsolete IH]; intros w not_removed; cbn [remove_all].
  { intros [= <- <-]. split_and!; [done|done|done|auto|by intros ? ? ?%not_elem_of_nil]. }
  destruct (eds_remove w s) as [w1 removed] eqn:Er. destruct (remove_all obsolete w1) as [w2 not_removed1] eqn:Erest. intros [= <- <-].
  destruct (el_remove _ _ _ _ Er) as (Hs1&Hz1&Hc1). destruct (IH _ _ Erest) as (Hs2&Hz2&Hc2&Hk2&Ho2). split_and!.
  - intros s'. by eapply same_source_trans.
  - congruence.
  - intros s' H%Hc2. by apply Hc1.
  - intros s' Hin. assert (s' = s \/ s' ∈ eds_children w1) as [->|Hin1]; [|right; exists r; by left|].
    + destruct removed as [[]|]; [|right; by apply Hc1]. destruct (decide (s' = s)); [by left|right]. by apply Hc1.
    + destruct (Hk2 _ Hin1) as [?|[r' Hr']]; [by left|right; exists r'; by right].
  - intros s' r' [[= -> ->]|Hin]%elem_of_cons; [|destruct (Ho2 _ _ Hin) as [?|[m Hm]]; [by left|right; exists m; destruct removed; [done|by right]]].
    destruct removed as [[]|m]; [left|right; exists m; by left]. intros [_ Hne]%Hc2%Hc1. by apply Hne.
Qed.

Lemma named_obsolete_spec f sources w s r : (s, r) ∈ named_obsolete f sources w <-> s ∈ sources /\ resource_id_of w s = Some r /\ is_obsolete f r = true.
Proof using Type.
  unfold named_obsolete. rewrite list_elem_of_omap. split.
  - intros (s'&Hin&(r'&Hr&H)%bind_Some). destruct (is_obsolete f r') eqn:E; [|done]. by injection H as -> ->.
  - intros (Hin&Hr&Ho). exists s. split; [done|]. rewrite Hr. cbn. by rewrite Ho.
Qed.

(** ** The populate *)
Lemma restore_all_spec l ids unidentified w :
  let w' := (restore_all l ids unidentified w).1 in
  (forall s, same_source w w' s) /\ eds_cached w' = eds_cached w /\ eds_freezes w' = eds_freezes w /\
  (forall s, s ∈ eds_children w -> s ∈ eds_children w') /\
  (forall s, s ∈ l -> is_Some (resource_id_of w s) -> s ∈ eds_children w') /\ (forall s, s ∈ eds_children w' -> s ∈ eds_children w \/ s ∈ l).
Proof using laws HS.
  revert ids unidentified w. induction l as [|s l IH]; intros ids unidentified w; cbn [restore_all].
  { cbn. split_and!; [done|done|done|done|by intros ? ?%not_elem_of_nil|auto]. }
  destruct (resource_id_of w s) as [r|] eqn:Er; cbn zeta.
  - destruct (IH (ids ++ [r]) unidentified (eds_publish w s)) as (Hs&Hca&Hz&Hk&Hl&Hf). destruct (el_publish w s) as ([Ho Hca' Hz']&Hsame&Hin).
    assert (forall s', same_source w (eds_publish w s) s') as Hall by (intros s'; destruct (decide (s' = s)) as [->|Hne]; [done|apply (Ho _ Hne)]).
    assert (forall s', resource_id_of (eds_publish w s) s' = resource_id_of w s') as Hr by (intros; by apply resource_id_of_same).
    assert (s ∈ eds_children (eds_publish w s)) as Hpub by (apply Hin; unfold resource_id_of in Er; destruct (kind_extension_of w s); [done|discriminate]).
    assert (forall s', s' ∈ eds_children (eds_publish w s) <-> s' ∈ eds_children w \/ s' = s) as Hpc.
    { intros s'. destruct (decide (s' = s)) as [->|Hne]; [tauto|]. rewrite (proj2 (Ho _ Hne)). tauto. }
    split_and!; [|congruence|congruence| | |].
    + intros s'. by eapply same_source_trans.
    + intros s' Hin'. apply Hk, Hpc. by left.
    + intros s' [->|Hin']%elem_of_cons Hsome; [by apply Hk|apply Hl; [done|by rewrite Hr]].
    + intros s' [[?| ->]%Hpc|?]%Hf; [by left|right; by left|right; by right].
  - destruct (IH ids (unidentified + 1)%N w) as (Hs&Hca&Hz&Hk&Hl&Hf). split_and!; [done|done|done|done| |].
    + intros s' [->|Hin']%elem_of_cons Hsome; [rewrite Er in Hsome; by destruct Hsome|auto].
    + intros s' [?|?]%Hf; [by left|right; by right].
Qed.

Lemma account_untouched w w1 w2 b :
  untouched w w1 /\ eds_freezes w1 = eds_freezes w -> w2 ∈ [eds_chain_up w1; eds_request_credentials w1; eds_authenticate_anonymously w1; eds_offer_creation w1 b; eds_allow_rename w1] ->
  untouched w w2 /\ eds_freezes w2 = eds_freezes w.
Proof using laws. intros [Hu Hz] [Hu' Hz']%el_account. split; [by eapply untouched_trans|congruence]. Qed.

Lemma populate_spec parts user uses_oauth2 w :
  eds_freezes w = 0%N ->
  exists w' r, populate parts user uses_oauth2 w = (w', Some r) /\ eds_cached w' = [] /\ eds_freezes w' = 0%N /\ (forall s, same_source w w' s) /\
    (forall s, s ∈ eds_children w -> s ∈ eds_children w') /\ (forall s, s ∈ eds_cached w -> is_Some (resource_id_of w s) -> s ∈ eds_children w') /\
    (forall s, s ∈ eds_children w' -> s ∈ eds_children w ++ eds_cached w).
Proof using laws HS.
  intros Hz0. unfold populate. destruct (eds_freeze w) as [w1 held] eqn:Ef. destruct (el_freeze _ _ _ Ef) as (Hu1&Hz1&->). rewrite bool_decide_eq_true_2 by done. cbn [negb].
  destruct (el_account w1 (eds_chain_up w1) false) as [Hu2 Hz2]; [by left|]. set (w2 := eds_chain_up w1) in *. destruct (eds_claim_all w2) as [w3 claimed] eqn:Ec.
  destruct (el_claim_all _ _ _ Ec) as (->&Hca3&Hz3&Hs3). pose proof (untouched_trans _ _ _ Hu1 Hu2) as Hu.
  pose proof (restore_all_spec (eds_cached w2) [] 0 w3) as Hrest. cbn zeta in Hrest. destruct (restore_all _ _ _ w3) as [w4 [ids unidentified]]. cbn [fst] in Hrest.
  destruct Hrest as (Hs4&Hca4&Hz4&Hk4&Hl4&Hf4). set (creatable := _ || _).
  set (w5 := eds_allow_rename (eds_offer_creation w4 creatable)).
  assert (untouched w4 w5 /\ eds_freezes w5 = eds_freezes w4) as H5.
  { eapply (account_untouched _ (eds_offer_creation w4 creatable) _ false); [|by rewrite !elem_of_cons; auto 7]. eapply (account_untouched _ w4 _ creatable); [split; [apply untouched_refl|done]|by rewrite !elem_of_cons; auto 7]. }
  match goal with |- context [let '(_, _) := ?x in _] => assert (exists w6 asked, x = (w6, asked) /\ untouched w4 w6 /\ eds_freezes w6 = eds_freezes w4) as (w6&asked&->&Hu6&Hz6) end.
  { destruct creatable; [|by exists w5, AskedNothing]. destruct uses_oauth2; [|destruct user]; do 2 eexists; (split; [reflexivity|]); eapply (account_untouched _ w5 _ false); [done|by rewrite !elem_of_cons; auto 7|done|by rewrite !elem_of_cons; auto 7|done|by rewrite !elem_of_cons; auto 7]. }
  destruct (el_thaw w6) as [Hu7 Hz7]. pose proof (untouched_trans _ _ _ Hu6 Hu7) as Hu47. destruct Hu as [Us Uc Uca], Hu47 as [Vs Vc Vca].
  assert (forall s, same_source w w3 s) as Hs03 by (intros s; eapply same_source_trans; [apply Us|apply Hs3]).
  assert (forall s, resource_id_of w3 s = resource_id_of w s) as Hr by (intros; by apply resource_id_of_same).
  do 2 eexists. split; [reflexivity|]. split_and!; [congruence|lia| | | |].
  - intros s. eapply same_source_trans; [apply Hs03|]. by eapply same_source_trans.
  - intros s Hin. by apply Vc, Hk4, Hs3, Uc.
  - intros s Hin Hsome. apply Vc, Hl4; [by rewrite Uca|by rewrite Hr].
  - intros s [Hin|Hin]%Vc%Hf4; apply elem_of_app; [left; by apply Uc, Hs3|right; by rewrite <- Uca].
Qed.

(** ** The fan-out *)

(** A child that goes by [f] is one whose collection the listings prove gone. *)
Definition goes (f : Fanout) (resource_id : text) : Prop := exists kind identity, parse_resource_id resource_id = Some (kind, identity) /\ proven_gone f kind identity.

Record fans_out (f : Fanout) (w w' : W) (report : Populated) : Prop := {
  fn_written : forall c, c ∈ children f ->
    (ch_resource_id c ∈ pd_children report /\ exists s, s ∈ eds_children w' /\ resource_id_of w' s = Some (ch_resource_id c)) \/ ch_resource_id c ∈ pd_uncreated report;
  fn_kept : forall s, s ∈ eds_children w -> (s ∈ eds_children w' /\ resource_id_of w' s = resource_id_of w s) \/ exists r, resource_id_of w s = Some r /\ goes f r;
  fn_gone : forall s r, s ∈ eds_children w -> resource_id_of w s = Some r -> goes f r -> (s ∉ eds_children w') \/ exists message, (r, message) ∈ pd_not_removed report;
  fn_from : forall s, s ∈ eds_children w' -> s ∈ eds_children w \/ exists c, c ∈ children f /\ resource_id_of w' s = Some (ch_resource_id c);
  fn_whole : pd_abandoned report = [];
  fn_distinct : distinct w -> distinct w';
}.

Lemma apply_fanout_spec f connection w w' report :
  fanout_ok f -> port_ok connection -> eds_cached w = [] -> apply_fanout f connection w = (w', report) -> fans_out f w w' report /\ eds_freezes w' = eds_freezes w.
Proof using laws HS.
  intros Hf Hport Hca. unfold apply_fanout. destruct (adopt_all _ _ _ w) as [w1 report1] eqn:Ea. unfold remove_obsolete. destruct (remove_all _ w1) as [w2 not_removed] eqn:Er. intros [= <- <-].
  assert (Forall named (children f)) as Hnamed.
  { apply Forall_forall. intros c Hc%children_from. by destruct (child_named f Hf c Hc) as (?&?&?&_). }
  destruct (adopt_all_grown _ _ _ _ _ _ Hnamed Hport Hca Ea) as (written&[Gk Gf Gt Gd Gc Gz]&Hch&Hab&Hsub&Hcov). cbn [pd_children pd_abandoned] in *.
  destruct (remove_all_spec _ _ _ _ Er) as (Rs&Rz&Rc&Rk&Ro). assert (forall s, resource_id_of w2 s = resource_id_of w1 s) as Hr by (intros; by apply resource_id_of_same).
  assert (forall r, goes f r <-> is_obsolete f r = true) as Hgoes by (intros r; symmetry; by apply is_obsolete_spec).
  split; [|congruence]. split; cbn [pd_children pd_uncreated pd_abandoned pd_not_removed].
  - intros c Hc. destruct (Hcov c Hc) as [Hw|Hu]; [left|by right]. rewrite Hch. split; [done|]. destruct (Gt _ Hw) as (s&Hs&Hrs). exists s. rewrite Hr. split; [|done].
    destruct (Rk _ Hs) as [?|[r (_&Er'&Ho)%named_obsolete_spec]]; [done|]. rewrite Hrs in Er'. injection Er' as <-. by rewrite (child_not_obsolete f Hf c (children_from f c Hc)) in Ho.
  - intros s Hs. destruct (Gk _ Hs) as [Hs1 Er1]. destruct (Rk _ Hs1) as [Hs2|[r (_&Er'&Ho)%named_obsolete_spec]]; [left; by rewrite Hr, Er1|right]. exists r. rewrite <- Er1. by rewrite Hgoes.
  - intros s r Hs Hrs Ho%Hgoes. destruct (Gk _ Hs) as [_ Er1]. apply Ro. apply named_obsolete_spec. by rewrite Er1.
  - intros s [?|(r&Hr'%Hsub&E)]%Rc%Gf; [by left|right]. apply list_elem_of_fmap in Hr' as (c&->&Hc). exists c. by rewrite Hr.
  - by rewrite Hab.
  - intros Hd s s' r Hs%Rc Hs'%Rc. rewrite !Hr. by apply Gd.
Qed.

(** C14: The start of an account. With no other populate under way, a populate exports every source
    of earlier sessions that has a resource id, and the fan-out of the login's discovery then
    writes every child of it to a source with its resource id, or reports that Evolution refused
    one; no child is left half-written. A source that was there stays, with its resource id, unless
    the listings prove that its collection is gone, and then it is removed or reported. Nothing else
    is listed, no two sources come to share a resource id, and no freeze is left behind. *)
Theorem startup_fans_out `{!CollectionClient C} parts user uses_oauth2 connection (c c' : C) f w :
  (forall c account c' listing, cc_address_books c account = (c', Ok listing) -> ids_ok listing) -> (forall c account c' listing, cc_calendars c account = (c', Ok listing) -> ids_ok listing) ->
  session_ids_ok (cc_session c) -> discover parts c = (c', Ok f) -> port_ok connection -> eds_freezes w = 0%N ->
  let old := eds_children w ++ eds_cached w in
  (forall s s' r, s ∈ old -> s' ∈ old -> resource_id_of w s = Some r -> resource_id_of w s' = Some r -> s = s') ->
  exists w1 restored w2 report, populate parts user uses_oauth2 w = (w1, Some restored) /\ apply_fanout f connection w1 = (w2, report) /\
    (forall c, c ∈ children f ->
      (ch_resource_id c ∈ pd_children report /\ exists s, s ∈ eds_children w2 /\ resource_id_of w2 s = Some (ch_resource_id c)) \/ ch_resource_id c ∈ pd_uncreated report) /\
    pd_abandoned report = [] /\
    (forall s r, s ∈ old -> resource_id_of w s = Some r ->
      ((s ∈ eds_children w2 /\ resource_id_of w2 s = Some r) \/ goes f r) /\ (goes f r -> (s ∉ eds_children w2) \/ exists message, (r, message) ∈ pd_not_removed report)) /\
    (forall s, s ∈ eds_children w2 -> s ∈ old \/ exists c, c ∈ children f /\ resource_id_of w2 s = Some (ch_resource_id c)) /\
    (forall s s' r, s ∈ eds_children w2 -> s' ∈ eds_children w2 -> resource_id_of w2 s = Some r -> resource_id_of w2 s' = Some r -> s = s') /\
    eds_freezes w2 = 0%N.
Proof using laws HS.
  intros Hbooks Hcals Hses Hdisc Hport Hz old Hold. pose proof (discover_ok Hbooks Hcals _ _ _ _ Hses Hdisc) as Hf.
  destruct (populate_spec parts user uses_oauth2 w Hz) as (w1&restored&->&Hca&Hz1&Hs&Hk&Hl&Hfrom). destruct (apply_fanout f connection w1) as [w2 report] eqn:Ea.
  destruct (apply_fanout_spec _ _ _ _ _ Hf Hport Hca Ea) as [[Fw Fk Fg Ff Fa Fd] Fz]. assert (forall s, resource_id_of w1 s = resource_id_of w s) as Hr by (intros; by apply resource_id_of_same).
  exists w1, restored, w2, report. split_and!; [done|done|done|done| | | |congruence].
  - intros s r Hin Hid. assert (s ∈ eds_children w1) as Hin1 by (apply elem_of_app in Hin as [?|?]; [auto|apply Hl; [done|by rewrite Hid]]). split.
    + destruct (Fk _ Hin1) as [[? E]|(r'&E&Hg)]; [left; by rewrite E, Hr|right]. rewrite Hr, Hid in E. by injection E as <-.
    + apply (Fg s); [done|by rewrite Hr].
  - intros s [Hin|?]%Ff; [left; by apply Hfrom|by right].
  - apply Fd. intros s s' r Hin%Hfrom Hin'%Hfrom. rewrite !Hr. by apply Hold.
Qed.
End eds.

(** ** A registry *)
Record Source := { so_book : bool; so_calendar : bool; so_identity : option text }.
Record Registry := { rg_children : list nat; rg_cached : list nat; rg_source : nat -> Source; rg_new : list nat; rg_freezes : N }.

Definition source_id (s : Source) : option text :=
  let! extension := if so_book s then Some EXTENSION_ADDRESS_BOOK else if so_calendar s then Some EXTENSION_CALENDAR else None in
  let! identity := so_identity s in
  resource_id_for extension identity.

Definition write_source (w : Registry) (i : nat) (s : Source) : nat -> Source := fun j => if bool_decide (j = i) then s else rg_source w j.

Definition set_property (s : Source) (group key value : text) : Source :=
  {| so_book := so_book s || bool_decide (EXTENSION_ADDRESS_BOOK = group); so_calendar := so_calendar s || bool_decide (EXTENSION_CALENDAR = group);
     so_identity := if bool_decide (group = EXTENSION_RESOURCE) && bool_decide (key = lit "Identity") then Some value else so_identity s |}.

Definition with_freezes (w : Registry) (n : N) : Registry := {| rg_children := rg_children w; rg_cached := rg_cached w; rg_source := rg_source w; rg_new := rg_new w; rg_freezes := n |}.
Definition with_children (w : Registry) (l : list nat) : Registry := {| rg_children := l; rg_cached := rg_cached w; rg_source := rg_source w; rg_new := rg_new w; rg_freezes := rg_freezes w |}.

Definition sample_new_child (w : Registry) (resource_id : text) : Registry * option nat :=
  match find (fun i => bool_decide (source_id (rg_source w i) = Some resource_id)) (rg_children w) with
  | Some i => (w, Some i)
  | None =>
      let i := S (max_list (rg_children w ++ rg_cached w)) in
      ({| rg_children := rg_children w; rg_cached := rg_cached w; rg_source := write_source w i {| so_book := false; so_calendar := false; so_identity := None |};
          rg_new := i :: rg_new w; rg_freezes := rg_freezes w |}, Some i)
  end.

Definition sample_registry : Eds Registry nat := {|
  eds_new_child := sample_new_child; eds_is_new w i := bool_decide (i ∈ rg_new w);
  eds_set w i group key value := {| rg_children := rg_children w; rg_cached := rg_cached w; rg_source := write_source w i (set_property (rg_source w i) group key value); rg_new := rg_new w; rg_freezes := rg_freezes w |};
  eds_has_extension w i e := if bool_decide (e = EXTENSION_ADDRESS_BOOK) then so_book (rg_source w i) else if bool_decide (e = EXTENSION_CALENDAR) then so_calendar (rg_source w i) else false;
  eds_identity w i := so_identity (rg_source w i); eds_publish w i := with_children w (rg_children w ++ [i]); eds_set_remote_deletable w _ _ := w; eds_children := rg_children;
  eds_remove w i := (with_children w (filter (fun j => j <> i) (rg_children w)), Ok tt);
  eds_freeze w := (with_freezes w (rg_freezes w + 1)%N, bool_decide (rg_freezes w = 0%N)); eds_thaw w := with_freezes w (rg_freezes w - 1)%N; eds_chain_up w := w;
  eds_claim_all w := ({| rg_children := rg_children w; rg_cached := []; rg_source := rg_source w; rg_new := rg_new w; rg_freezes := rg_freezes w |}, rg_cached w);
  eds_request_credentials w := w; eds_authenticate_anonymously w := w; eds_offer_creation w _ := w; eds_allow_rename w := w; eds_cached := rg_cached; eds_freezes := rg_freezes;
|}.

Lemma sample_id w i : resource_id_of (Eds0 := sample_registry) w i = source_id (rg_source w i).
Proof. unfold resource_id_of, kind_extension_of, source_id. cbn. by destruct (so_book _), (so_calendar _). Qed.

Lemma write_other w i s j : j <> i -> write_source w i s j = rg_source w j.
Proof. intros. unfold write_source. by rewrite bool_decide_eq_false_2. Qed.

Lemma write_same w i s : write_source w i s i = s.
Proof. unfold write_source. by rewrite bool_decide_eq_true_2. Qed.

Lemma sample_written w w' i s : rg_source w' = write_source w i s -> rg_children w' = rg_children w -> rg_cached w' = rg_cached w -> rg_freezes w' = rg_freezes w ->
  touches_only (Eds0 := sample_registry) i w w'.
Proof.
  intros Hs Hc Hca Hz. split; [|done|done]. intros j Hne. cbn. rewrite Hc. split; [|done]. split; cbn; [intros e _|]; by rewrite Hs, write_other.
Qed.

Lemma sample_laws : EdsLaws (Eds0 := sample_registry).
Proof.
  split.
  - intros w r w' o Hca Hnew. change (sample_new_child w r = (w', o)) in Hnew. unfold sample_new_child in Hnew. destruct (find _ _) as [i|] eqn:E; injection Hnew as <- <-.
    + left. apply find_some in E as [Hin%list_elem_of_In Hid%bool_decide_eq_true]. by rewrite sample_id.
    + right. split_and!.
      * intros Hin. assert (S (max_list (rg_children w ++ rg_cached w)) <= max_list (rg_children w ++ rg_cached w)); [|lia]. apply max_list_elem_of_le, elem_of_app. by left.
      * intros j Hj. rewrite sample_id. eapply find_none in E; [|by apply list_elem_of_In]. by apply bool_decide_eq_false in E.
      * apply bool_decide_eq_true. by left.
      * intros e _. cbn. rewrite write_same. cbn. by repeat case_bool_decide.
      * by eapply sample_written.
  - intros w i group key value. split; [by eapply sample_written|done].
  - intros w i group key value e He. cbn. rewrite write_same. repeat (apply elem_of_cons in He as [->|He]); [done|done|by apply not_elem_of_nil in He].
  - intros w i group key value. cbn. by rewrite write_same.
  - intros w i. split_and!; [|done|intros _; cbn; rewrite elem_of_app, list_elem_of_singleton; auto]. split; [|done|done]. intros j Hne. split; [done|]. cbn. rewrite elem_of_app, list_elem_of_singleton. tauto.
  - done.
  - intros w i w' r. cbn. intros [= <- <-]. split_and!; [done|done|]. intros j. cbn. rewrite list_elem_of_filter. split; [intros [??]; by split|]. intros [? Hne]. split; [by apply Hne|done].
  - intros w w' held. cbn. by intros [= <- <-].
  - done.
  - intros w w' l. cbn. by intros [= <- <-].
  - intros w w' b Hin. repeat (apply elem_of_cons in Hin as [->|Hin]; [done|]). by apply not_elem_of_nil in Hin.
Qed.

(** An address book to keep, one that was deleted, and a calendar of an account no longer shared. *)
Definition sample_sources : Registry := {|
  rg_children := []; rg_cached := [1; 2; 3]; rg_new := []; rg_freezes := 0;
  rg_source i := match i with
    | 1 => {| so_book := true; so_calendar := false; so_identity := Some (lit "1") |}
    | 2 => {| so_book := true; so_calendar := false; so_identity := Some (lit "9") |}
    | 3 => {| so_book := false; so_calendar := true; so_identity := Some (lit "Z/1") |}
    | _ => {| so_book := false; so_calendar := false; so_identity := None |}
    end |}.

Definition sample_connection : Connection := {| cn_host := lit "example.org"; cn_port := Some 443%N; cn_user := Some (lit "me"); cn_auth_method := None; cn_secure := true |}.

Lemma startup_fans_out_witness :
  exists f w1 restored w2 report, (discover (CollectionClient0 := sample_collections) PARTS_ALL sample_session).2 = Ok f /\
    populate (Eds0 := sample_registry) PARTS_ALL (Some (lit "me")) false sample_sources = (w1, Some restored) /\ apply_fanout (Eds0 := sample_registry) f sample_connection w1 = (w2, report) /\
    rg_children w2 = [1; 4] /\ (fun i => source_id (rg_source w2 i)) <$> rg_children w2 = [Some (lit "addressbook:1"); Some (lit "calendar:B/1")] /\
    (forall s s' r, s ∈ rg_children w2 -> s' ∈ rg_children w2 -> source_id (rg_source w2 s) = Some r -> source_id (rg_source w2 s') = Some r -> s = s').
Proof.
  destruct (discover (CollectionClient0 := sample_collections) PARTS_ALL sample_session) as [c' [f|e]] eqn:E; [|vm_compute in E; discriminate E].
  destruct (startup_fans_out (Eds0 := sample_registry) sample_laws (CollectionClient0 := sample_collections) PARTS_ALL (Some (lit "me")) false sample_connection sample_session c' f sample_sources)
    as (w1&restored&w2&report&H1&H2&_&_&_&_&Hd&_).
  - intros w account w1 listing. cbn. case_bool_decide; intros [= _ <-]; intros c id Hc; repeat (apply elem_of_cons in Hc as [->|Hc]; [intros [= <-]; exact sample_id_ok|]); by apply not_elem_of_nil in Hc.
  - intros w account w1 listing. cbn. case_bool_decide; intros [= _ <-]; intros c id Hc; repeat (apply elem_of_cons in Hc as [->|Hc]; [intros [= <-]; exact sample_id_ok|]); by apply not_elem_of_nil in Hc.
  - split; [by_decide|by repeat constructor].
  - exact E.
  - intros port [= <-]. by_decide.
  - reflexivity.
  - intros s s' r Hs Hs'. rewrite !sample_id. cbn in Hs, Hs'. repeat (apply elem_of_cons in Hs as [->|Hs]); repeat (apply elem_of_cons in Hs' as [->|Hs']); (try (by apply not_elem_of_nil in Hs)); (try (by apply not_elem_of_nil in Hs')); vm_compute; congruence.
  - exists f, w1, restored, w2, report. split_and!; [reflexivity|exact H1|exact H2| | |].
    + vm_compute in E. injection E as <- <-. vm_compute in H1. injection H1 as <- <-. apply (f_equal (fun x => rg_children x.1)) in H2. cbn [fst] in H2. rewrite <- H2. vm_compute. reflexivity.
    + vm_compute in E. injection E as <- <-. vm_compute in H1. injection H1 as <- <-. apply (f_equal (fun x => (fun i => source_id (rg_source x.1 i)) <$> rg_children x.1)) in H2. cbn [fst] in H2. rewrite <- H2. vm_compute. reflexivity.
    + intros s s' r Hs Hs' Hi Hi'. apply (Hd s s' r); [done|done|by rewrite sample_id|by rewrite sample_id].
Defined.
