(* ===== verification/PendingDelete.v ===== *)
(** The undo window of a collection delete (jmap-collection-sync/src/pending.rs) and the threads
    that keep it (jmap-backend-collection/src/deferred_delete.rs), as the steps of one child
    source: times are nanoseconds, the wall clock from the Unix epoch. *)

From Stdlib Require Import ZArith.
From stdpp Require Import prelude.
From S2P Require Import Prelude.

Local Open Scope Z_scope.

Definition NANOS : Z := 1000000000.
Definition i64_max : Z := 9223372036854775807.
Definition u64_modulus : Z := 18446744073709551616.

Definition UNDO_WINDOW : Z := 60 * NANOS.

Definition after_window (now : Z) : Z :=
  let since_epoch := Z.max 0 now + UNDO_WINDOW in
  let seconds := Z.min (u64_modulus - 1) (since_epoch / NANOS + (if bool_decide (0 < since_epoch mod NANOS) then 1 else 0)) in
  Z.min seconds i64_max.

Definition from_stamp (stamp : Z) : option Z := if bool_decide (0 < stamp) then Some stamp else None.

Inductive Pending := NotPending | Undone | Wait (remaining : Z) | Destroy.

Definition decide_pending (enabled : bool) (due : option Z) (now : Z) : Pending :=
  match due with
  | None => NotPending
  | Some due =>
      if enabled then Undone
      else if bool_decide (now < 0) then Wait UNDO_WINDOW
      else
        let remaining := Z.abs due * NANOS - now in
        if bool_decide (0 < remaining) then Wait (Z.min remaining UNDO_WINDOW) else Destroy
  end.

Inductive Settled := SettledNotPending | SettledGone | SettledUndone | SettledWait (remaining : Z) | SettledDestroyed | SettledRestored | SettledStale.

Inductive Checked := CheckedDone (settled : Settled) | CheckedDue.

(** A thread of [start]: asleep until [wake] with the end of its wait and the restarts it has seen;
    or in [destroy], after it gave up the lock; or at its end. *)
Inductive Thread :=
  | Watching (ends : option Z) (restarts : Z) (wake : Z)
  | Sending
  | Enabling
  | Removing
  | Clearing (settled : Settled)
  | Finished (settled : Settled)
  | Panicked.

(** The child source and its stamp, the entry of [WATCHED] for its uid, the threads of the
    process, and the two clocks. [wl_loaded]: this process has had [child_added] for it. The last
    three say when the last delete was, and how many there were. *)
Record World := {
  wl_present : bool;
  wl_enabled : bool;
  wl_stamp : Z;
  wl_watched : option Z;
  wl_threads : list Thread;
  wl_loaded : bool;
  wl_wall : Z;
  wl_mono : Z;
  wl_deleted_wall : Z;
  wl_deleted_mono : Z;
  wl_deletes : Z;
}.

Definition with_source (w : World) (present enabled : bool) (stamp : Z) : World :=
  {| wl_present := present; wl_enabled := enabled; wl_stamp := stamp; wl_watched := wl_watched w; wl_threads := wl_threads w; wl_loaded := wl_loaded w; wl_wall := wl_wall w;
     wl_mono := wl_mono w; wl_deleted_wall := wl_deleted_wall w; wl_deleted_mono := wl_deleted_mono w; wl_deletes := wl_deletes w |}.

Definition with_threads (w : World) (watched : option Z) (threads : list Thread) : World :=
  {| wl_present := wl_present w; wl_enabled := wl_enabled w; wl_stamp := wl_stamp w; wl_watched := watched; wl_threads := threads; wl_loaded := wl_loaded w; wl_wall := wl_wall w;
     wl_mono := wl_mono w; wl_deleted_wall := wl_deleted_wall w; wl_deleted_mono := wl_deleted_mono w; wl_deletes := wl_deletes w |}.

Definition with_loaded (w : World) (loaded : bool) : World :=
  {| wl_present := wl_present w; wl_enabled := wl_enabled w; wl_stamp := wl_stamp w; wl_watched := wl_watched w; wl_threads := wl_threads w; wl_loaded := loaded; wl_wall := wl_wall w;
     wl_mono := wl_mono w; wl_deleted_wall := wl_deleted_wall w; wl_deleted_mono := wl_deleted_mono w; wl_deletes := wl_deletes w |}.

Definition with_time (w : World) (wall mono : Z) : World :=
  {| wl_present := wl_present w; wl_enabled := wl_enabled w; wl_stamp := wl_stamp w; wl_watched := wl_watched w; wl_threads := wl_threads w; wl_loaded := wl_loaded w; wl_wall := wall;
     wl_mono := mono; wl_deleted_wall := wl_deleted_wall w; wl_deleted_mono := wl_deleted_mono w; wl_deletes := wl_deletes w |}.

(** The stamp first, then the disable. *)
Definition defer (w : World) : World :=
  {| wl_present := wl_present w; wl_enabled := false; wl_stamp := after_window (wl_wall w); wl_watched := wl_watched w; wl_threads := wl_threads w; wl_loaded := wl_loaded w;
     wl_wall := wl_wall w; wl_mono := wl_mono w; wl_deleted_wall := wl_wall w; wl_deleted_mono := wl_mono w; wl_deletes := wl_deletes w + 1 |}.

Definition clear_due (w : World) : World := with_source w (wl_present w) (wl_enabled w) 0.
Definition enable (w : World) : World := with_source w (wl_present w) true (wl_stamp w).

(** [undo] of the info bar, written to the registry as one source. *)
Definition undo (w : World) : World := clear_due (enable w).

Definition check (w : World) : World * Checked :=
  if negb (wl_present w) then (w, CheckedDone SettledGone)
  else
    match decide_pending (wl_enabled w) (from_stamp (wl_stamp w)) (wl_wall w) with
    | NotPending => (w, CheckedDone SettledNotPending)
    | Undone => (clear_due w, CheckedDone SettledUndone)
    | Wait remaining => (w, CheckedDone (SettledWait remaining))
    | Destroy => (w, CheckedDue)
    end.

(** [spawned]: whether the system gave a thread. *)
Definition start (spawned : bool) (w : World) : World :=
  match wl_watched w with
  | Some _ => w
  | None => if spawned then with_threads w (Some 0) (wl_threads w ++ [Watching None 0 (wl_mono w)]) else with_threads w None (wl_threads w)
  end.

Definition delete_later (spawned : bool) (w : World) : World :=
  let w := defer w in
  match wl_watched w with
  | Some restarts => with_threads w (Some ((restarts + 1) mod u64_modulus)) (wl_threads w)
  | None => start spawned w
  end.

(** One turn of the loop of a thread, under the lock. *)
Definition turn (i : nat) (ends : option Z) (restarts : Z) (w : World) : World :=
  let '(ends, restarts) := match wl_watched w with Some count => if bool_decide (count <> restarts) then (None, count) else (ends, restarts) | None => (ends, restarts) end in
  let '(w, checked) := check w in
  let leave (next : Thread) := with_threads w None (<[i := next]> (wl_threads w)) in
  match checked with
  | CheckedDue => leave Sending
  | CheckedDone (SettledWait remaining) =>
      let now := wl_mono w in
      let e := default (now + remaining) ends in
      if bool_decide (now < e) then with_threads w (wl_watched w) (<[i := Watching (Some e) restarts (now + Z.min remaining (e - now))]> (wl_threads w)) else leave Sending
  | CheckedDone settled => leave (Finished settled)
  end.

(** The next call of a thread in [destroy]; [ok] is the answer of the server, or of Evolution. *)
Definition proceed (i : nat) (ok : bool) (w : World) : option World :=
  let goto (w : World) (next : Thread) := Some (with_threads w (wl_watched w) (<[i := next]> (wl_threads w))) in
  match wl_threads w !! i with
  | Some Sending => if ok then goto w Removing else goto w Enabling
  | Some Enabling => goto (enable w) (Clearing SettledRestored)
  | Some Removing => if ok then goto (with_source w false (wl_enabled w) (wl_stamp w)) (Finished SettledDestroyed) else goto w (Clearing SettledStale)
  | Some (Clearing settled) => goto (clear_due w) (Finished settled)
  | _ => None
  end.

Inductive Event :=
  | Tick (elapsed wall : Z)
  | Delete (spawned : bool)
  | ChildAdded (spawned : bool)
  | Undo
  | SetEnabled (enabled : bool)
  | Wake (i : nat)
  | Proceed (i : nat) (ok : bool)
  | Panic (i : nat)
  | Restart.

Definition step (e : Event) (w : World) : option World :=
  match e with
  | Tick elapsed wall => if bool_decide (0 <= elapsed) then Some (with_time w wall (wl_mono w + elapsed)) else None
  | Delete spawned => if wl_present w && wl_loaded w then Some (delete_later spawned w) else None
  | ChildAdded spawned =>
      if wl_present w then Some (with_loaded (match from_stamp (wl_stamp w) with Some _ => start spawned w | None => w end) true) else None
  | Undo => Some (undo w)
  | SetEnabled enabled => Some (with_source w (wl_present w) enabled (wl_stamp w))
  | Wake i =>
      match wl_threads w !! i with
      | Some (Watching ends restarts wake) => if bool_decide (wake <= wl_mono w) then Some (turn i ends restarts w) else None
      | _ => None
      end
  | Proceed i ok => proceed i ok w
  | Panic i =>
      match wl_threads w !! i with
      | Some (Watching _ _ _) => Some (with_threads w None (<[i := Panicked]> (wl_threads w)))
      | Some (Finished _) | Some Panicked | None => None
      | Some _ => Some (with_threads w (wl_watched w) (<[i := Panicked]> (wl_threads w)))
      end
  | Restart => Some (with_loaded (with_threads w None []) false)
  end.

(** ** What holds at every step *)

(** The wall clock can be set back, and not forward; seconds fit their width. *)
Definition steady (w : World) (e : Event) : Prop :=
  match e with Tick elapsed wall => wall - wl_wall w <= elapsed /\ wall + UNDO_WINDOW + NANOS <= i64_max * NANOS | _ => True end.

Inductive reach (ok : World -> Event -> Prop) (w : World) : World -> Prop :=
  | Reach_here : reach ok w w
  | Reach_step w1 e w2 : reach ok w w1 -> ok w1 e -> step e w1 = Some w2 -> reach ok w w2.

(** A child without a pending delete. *)
Record fresh (w : World) : Prop := {
  fr_stamp : wl_stamp w = 0;
  fr_watched : wl_watched w = None;
  fr_threads : wl_threads w = [];
  fr_deletes : wl_deletes w = 0;
  fr_wall : wl_wall w + UNDO_WINDOW + NANOS <= i64_max * NANOS;
  fr_deleted : wl_deleted_wall w = wl_wall w /\ wl_deleted_mono w = wl_mono w;
}.

Definition watching_at (threads : list Thread) (i : nat) : Prop := exists ends restarts wake, threads !! i = Some (Watching ends restarts wake).

(** One thread watches where [WATCHED] has the uid, and none where it has not. *)
Definition watched_ok (watched : option Z) (threads : list Thread) : Prop :=
  match watched with
  | Some _ => exists i, watching_at threads i /\ forall j, watching_at threads j -> j = i
  | None => forall i, ~ watching_at threads i
  end.

(** A thread that sleeps wakes within one window, and not after the end it has set. *)
Definition wakes (mono : Z) (threads : list Thread) : Prop :=
  forall i ends restarts wake, threads !! i = Some (Watching ends restarts wake) ->
    wake <= mono + UNDO_WINDOW /\ forall e, ends = Some e -> wake <= e <= mono + UNDO_WINDOW.

(** The stamp is of the last delete; a thread that has seen it ends a window after it at least. *)
Record timed (w : World) : Prop := {
  ti_stamp : 0 < wl_stamp w -> wl_stamp w = after_window (wl_deleted_wall w);
  ti_since : wl_deleted_mono w <= wl_mono w;
  ti_clock : wl_wall w - wl_deleted_wall w <= wl_mono w - wl_deleted_mono w;
  ti_wall : wl_wall w + UNDO_WINDOW + NANOS <= i64_max * NANOS /\ wl_deleted_wall w + UNDO_WINDOW + NANOS <= i64_max * NANOS;
  ti_deletes : 0 <= wl_deletes w;
  ti_count : forall n, wl_watched w = Some n -> 0 <= n <= wl_deletes w;
  ti_ends : forall i ends restarts wake n, wl_threads w !! i = Some (Watching ends restarts wake) -> wl_watched w = Some n ->
    restarts <= n /\ (restarts = n -> forall e, ends = Some e -> wl_deleted_mono w + UNDO_WINDOW <= e);
}.

Definition active (t : Thread) : Prop := match t with Finished _ | Panicked => False | _ => True end.

(** A pending delete has a thread, once the child is there. *)
Definition attended (w : World) : Prop :=
  wl_loaded w = true -> wl_present w = true -> 0 < wl_stamp w -> exists i t, wl_threads w !! i = Some t /\ active t.

(** The system gives the threads asked for, and none of them panics. *)
Definition orderly (w : World) (e : Event) : Prop := match e with Delete spawned | ChildAdded spawned => spawned = true | Panic _ => False | _ => True end.

(** ** The window *)
Lemma after_window_late now : now + UNDO_WINDOW + NANOS <= i64_max * NANOS -> Z.max 0 now + UNDO_WINDOW <= after_window now * NANOS /\ 0 < after_window now.
Proof.
  intros Hmax. unfold after_window. set (since := Z.max 0 now + UNDO_WINDOW). assert (0 < since) as Hpos by (unfold since, UNDO_WINDOW, NANOS; lia).
  assert (since <= since / NANOS * NANOS + (if bool_decide (0 < since mod NANOS) then 1 else 0) * NANOS) as Hup.
  { pose proof (Z.div_mod since NANOS ltac:(done)) as Hdm. pose proof (Z.mod_pos_bound since NANOS ltac:(done)). case_bool_decide; lia. }
  assert (since / NANOS + 1 <= i64_max) as Hfit.
  { assert (since / NANOS < i64_max); [|lia]. apply Z.div_lt_upper_bound; [done|]. unfold since, UNDO_WINDOW, NANOS, i64_max in *. lia. }
  assert (i64_max < u64_modulus - 1) by done. assert (0 <= since / NANOS) by (apply Z.div_pos; done || lia). unfold NANOS, i64_max, u64_modulus in *. case_bool_decide; lia.
Qed.

(** A wait is positive, at most a window, and reaches a window after the delete. *)
Lemma decide_late w :
  timed w -> match decide_pending (wl_enabled w) (from_stamp (wl_stamp w)) (wl_wall w) with
    | Wait remaining => 0 < remaining <= UNDO_WINDOW /\ wl_deleted_mono w + UNDO_WINDOW <= wl_mono w + remaining /\ wl_enabled w = false /\ 0 < wl_stamp w
    | Destroy => wl_deleted_mono w + UNDO_WINDOW <= wl_mono w /\ wl_enabled w = false /\ 0 < wl_stamp w
    | Undone => wl_enabled w = true
    | NotPending => wl_stamp w <= 0
    end.
Proof.
  intros [Hs Hsi Hc [_ Hw] _ _ _]. destruct (after_window_late _ Hw) as [Hlate Hpos]. unfold decide_pending, from_stamp. case_bool_decide as Hst; [|lia]. rewrite (Hs Hst) in *.
  destruct (wl_enabled w); [done|]. assert (0 < UNDO_WINDOW) by done. case_bool_decide as Hneg; [split_and!; [lia|lia|lia|done|done]|]. rewrite (Z.abs_eq (after_window _)) by lia.
  case_bool_decide as Hleft; split_and!; try done; lia.
Qed.

Lemma decide_wait enabled due now remaining : decide_pending enabled due now = Wait remaining -> 0 < remaining <= UNDO_WINDOW.
Proof.
  assert (0 < UNDO_WINDOW) by done. unfold decide_pending. destruct due as [due|]; [|done]. destruct enabled; [done|]. case_bool_decide; [intros [= <-]; lia|].
  case_bool_decide; intros [= <-]. lia.
Qed.

(** ** One watcher *)
Lemma watching_insert threads i t j : watching_at (<[i := t]> threads) j -> (j = i /\ exists a b c, t = Watching a b c) \/ (j <> i /\ watching_at threads j).
Proof.
  intros (a&b&c&H). apply list_lookup_insert_Some in H as [(->&->&_)|(Hne&H)]; [left; eauto|right]. split; [done|]. by exists a, b, c.
Qed.

Lemma watching_at_lookup threads i ends restarts wake : threads !! i = Some (Watching ends restarts wake) -> watching_at threads i.
Proof. intros. by exists ends, restarts, wake. Qed.

(** A thread that watches is found in [WATCHED]. *)
Lemma watched_some watched threads i : watched_ok watched threads -> watching_at threads i -> is_Some watched /\ forall j, watching_at threads j -> j = i.
Proof.
  destruct watched; cbn; [|by intros H ?%H]. intros (k&_&Hone) Hi. split; [done|]. intros j Hj. rewrite (Hone _ Hj). symmetry. by apply Hone.
Qed.

Lemma watched_leave watched threads i t : watched_ok watched threads -> watching_at threads i -> (forall a b c, t <> Watching a b c) -> watched_ok None (<[i := t]> threads).
Proof.
  intros Hok Hi Ht j Hj. destruct (watching_insert _ _ _ _ Hj) as [(->&a&b&c&->)|[Hne Hj']]; [by destruct (Ht a b c)|]. by destruct (watched_some _ _ _ Hok Hi) as [_ H]; apply Hne, H.
Qed.

Lemma watched_stay watched threads i a b c : watched_ok watched threads -> watching_at threads i -> watched_ok watched (<[i := Watching a b c]> threads).
Proof.
  intros Hok Hi. destruct (watched_some _ _ _ Hok Hi) as [[n ->] Hone]. exists i. split.
  - exists a, b, c. destruct Hi as (?&?&?&Hi). apply list_lookup_insert_eq. by eapply lookup_lt_Some.
  - intros j [[-> _]|[_ Hj]]%watching_insert; [done|by apply Hone].
Qed.

Lemma watched_other watched threads i t t' :
  watched_ok watched threads -> threads !! i = Some t -> (forall a b c, t <> Watching a b c) -> (forall a b c, t' <> Watching a b c) -> watched_ok watched (<[i := t']> threads).
Proof.
  intros Hok Hi Ht Ht'. assert (forall j, watching_at (<[i := t']> threads) j <-> watching_at threads j) as Heq.
  { intros j. split; [intros [(->&a&b&c&->)|[_ Hj]]%watching_insert; [by destruct (Ht' a b c)|done]|]. intros (a&b&c&Hj). exists a, b, c. rewrite list_lookup_insert_ne; [done|]. intros ->.
    rewrite Hi in Hj. injection Hj as ->. by destruct (Ht a b c). }
  destruct watched; cbn in *; [|intros j; rewrite Heq; apply Hok]. destruct Hok as (k&Hk&Hone). exists k. split; [by apply Heq|]. intros j. rewrite Heq. apply Hone.
Qed.

Lemma watched_start threads n wake : watched_ok None threads -> watched_ok (Some n) (threads ++ [Watching None 0 wake]).
Proof.
  intros Hno. exists (length threads). split; [exists None, 0, wake; by rewrite lookup_app_r, Nat.sub_diag|]. intros j (a&b&c&Hj).
  destruct (lookup_app_Some threads [Watching None 0 wake] j (Watching a b c)) as [Happ _]. destruct (Happ Hj) as [H|[Hle H]]; [by destruct (Hno j); exists a, b, c|].
  apply lookup_lt_Some in H. cbn in H. lia.
Qed.

Lemma wakes_insert mono threads i t :
  wakes mono threads -> (forall ends restarts wake, t = Watching ends restarts wake -> wake <= mono + UNDO_WINDOW /\ forall e, ends = Some e -> wake <= e <= mono + UNDO_WINDOW) -> wakes mono (<[i := t]> threads).
Proof. intros Hw Ht j ends restarts wake H. apply list_lookup_insert_Some in H as [(->&->&_)|(_&H)]; [by eapply Ht|by eapply Hw]. Qed.

Lemma wakes_start mono threads n : wakes mono threads -> wakes mono (threads ++ [Watching None n mono]).
Proof.
  intros Hw j ends restarts wake [H|[_ H]]%lookup_app_Some; [by eapply Hw|]. apply list_lookup_singleton_Some in H as [_ [= <- <- <-]]. split; [unfold UNDO_WINDOW, NANOS; lia|done].
Qed.

(** ** A turn of the loop *)
Definition seen (w : World) (ends : option Z) (restarts : Z) : option Z * Z :=
  match wl_watched w with Some count => if bool_decide (count <> restarts) then (None, count) else (ends, restarts) | None => (ends, restarts) end.

Inductive turned (i : nat) (ends : option Z) (restarts : Z) (w : World) : World -> Prop :=
  | Turned_done settled : wl_present w = false \/ wl_stamp w <= 0 -> turned i ends restarts w (with_threads w None (<[i := Finished settled]> (wl_threads w)))
  | Turned_undone : turned i ends restarts w (with_threads (clear_due w) None (<[i := Finished SettledUndone]> (wl_threads w)))
  | Turned_due : wl_present w = true ->
      (decide_pending (wl_enabled w) (from_stamp (wl_stamp w)) (wl_wall w) = Destroy \/
        exists remaining e, decide_pending (wl_enabled w) (from_stamp (wl_stamp w)) (wl_wall w) = Wait remaining /\ (seen w ends restarts).1 = Some e /\ e <= wl_mono w) ->
      turned i ends restarts w (with_threads w None (<[i := Sending]> (wl_threads w)))
  | Turned_wait remaining e : decide_pending (wl_enabled w) (from_stamp (wl_stamp w)) (wl_wall w) = Wait remaining -> e = default (wl_mono w + remaining) (seen w ends restarts).1 -> wl_mono w < e ->
      turned i ends restarts w (with_threads w (wl_watched w) (<[i := Watching (Some e) (seen w ends restarts).2 (wl_mono w + Z.min remaining (e - wl_mono w))]> (wl_threads w))).

Lemma turn_turned i ends restarts w : turned i ends restarts w (turn i ends restarts w).
Proof.
  unfold turn. fold (seen w ends restarts). destruct (seen w ends restarts) as [ends' restarts'] eqn:Es. unfold check. destruct (wl_present w) eqn:Ep; cbn [negb]; [|apply Turned_done; auto].
  destruct (decide_pending _ _ _) as [| |remaining|] eqn:Ed.
  - apply Turned_done. right. unfold decide_pending, from_stamp in Ed. case_bool_decide; [|lia]. destruct (wl_enabled w); [done|]. repeat case_bool_decide; done.
  - exact (Turned_undone i ends restarts w).
  - case_bool_decide as Hlt.
    + assert (restarts' = (seen w ends restarts).2) as -> by by rewrite Es. eapply Turned_wait; [exact Ed|by rewrite Es|done].
    + apply Turned_due; [done|right]. exists remaining, (default (wl_mono w + remaining) ends'). rewrite Es. split_and!; [done| |lia]. destruct ends'; [done|]. apply decide_wait in Ed. cbn in Hlt. lia.
  - apply Turned_due; auto.
Qed.

(** ** The invariants *)
Record inv (w : World) : Prop := { in_watched : watched_ok (wl_watched w) (wl_threads w); in_wakes : wakes (wl_mono w) (wl_threads w) }.

Lemma seen_ends w ends restarts e : (seen w ends restarts).1 = Some e -> ends = Some e.
Proof. unfold seen. destruct (wl_watched w); [case_bool_decide|]; done. Qed.

Lemma turned_inv i ends restarts wake w w' : inv w -> wl_threads w !! i = Some (Watching ends restarts wake) -> turned i ends restarts w w' -> inv w'.
Proof.
  intros [Ho Hw] Hl Ht. pose proof (watching_at_lookup _ _ _ _ _ Hl) as Hi.
  destruct Ht as [settled Hs| |Hp Hd|remaining e Hd He Hlt]; (split; cbn [with_threads clear_due with_source wl_watched wl_threads wl_mono]); try (by eapply watched_leave); try (by apply wakes_insert).
  - by apply watched_stay.
  - apply wakes_insert; [done|]. intros ? ? ? [= <- <- <-]. apply decide_wait in Hd. destruct (Hw _ _ _ _ Hl) as [_ Hends].
    assert (e <= wl_mono w + UNDO_WINDOW) by (subst e; destruct (seen w ends restarts).1 as [e|] eqn:E; cbn in *; [apply (Hends _ (seen_ends _ _ _ _ E))|lia]).
    split; [lia|]. intros ? [= <-]. lia.
Qed.

Lemma watch_start_inv spawned w : inv w -> inv (start spawned w).
Proof.
  intros [Ho Hw]. unfold start. destruct (wl_watched w) as [n|] eqn:En; [split; by rewrite ?En|]. destruct spawned; [|by split].
  split; [by apply watched_start|by apply wakes_start].
Qed.

Lemma proceed_inv i ok w w' : inv w -> proceed i ok w = Some w' -> inv w'.
Proof.
  intros [Ho Hw] H. unfold proceed in H. destruct (wl_threads w !! i) as [[| | | | | |]|] eqn:El; try discriminate; try destruct ok; injection H as <-;
    (split; cbn [with_threads with_source clear_due enable wl_watched wl_threads wl_mono]; [by eapply watched_other|by apply wakes_insert]).
Qed.

Lemma step_inv e w w' : inv w -> step e w = Some w' -> inv w'.
Proof.
  intros Hinv. destruct e as [elapsed wall|spawned|spawned| |b|i|i ok|i|]; cbn [step].
  - case_bool_decide as Hpos; intros [= <-]. destruct Hinv as [Ho Hw]. split; [done|]. cbn. intros i ends restarts wake Hl. destruct (Hw _ _ _ _ Hl) as [H1 H2]. split; [lia|]. intros e He. specialize (H2 _ He). lia.
  - destruct (_ && _); intros [= <-]. unfold delete_later. destruct (wl_watched (defer w)) as [n|] eqn:En; [|by apply watch_start_inv; destruct Hinv; split].
    destruct Hinv as [Ho Hw]. cbn in En. rewrite En in Ho. by split.
  - destruct (wl_present w); intros [= <-]. assert (inv (match from_stamp (wl_stamp w) with Some _ => start spawned w | None => w end)) as [] by (destruct (from_stamp _); [by apply watch_start_inv|done]). by split.
  - intros [= <-]. destruct Hinv. by split.
  - intros [= <-]. destruct Hinv. by split.
  - destruct (wl_threads w !! i) as [[ends restarts wake| | | | | |]|] eqn:El; try discriminate. case_bool_decide; intros [= <-]. eapply turned_inv; [done|done|apply turn_turned].
  - by apply proceed_inv.
  - destruct Hinv as [Ho Hw]. destruct (wl_threads w !! i) as [[ends restarts wake| | | | | |]|] eqn:El; try discriminate; intros [= <-]; split; cbn; try (by apply wakes_insert); try (by eapply watched_other).
    eapply watched_leave; [done|by eapply watching_at_lookup|done].
  - intros [= <-]. split; cbn; [intros i (?&?&?&?); by rewrite lookup_nil in *|intros i ? ? ? H; by rewrite lookup_nil in H].
Qed.

(** ** The times *)
Definition ends_ok (w : World) (watched : option Z) (threads : list Thread) : Prop :=
  forall i ends restarts wake n, threads !! i = Some (Watching ends restarts wake) -> watched = Some n ->
    restarts <= n /\ (restarts = n -> forall e, ends = Some e -> wl_deleted_mono w + UNDO_WINDOW <= e).

Lemma timed_threads w watched threads : timed w -> (forall n, watched = Some n -> 0 <= n <= wl_deletes w) -> ends_ok w watched threads -> timed (with_threads w watched threads).
Proof. intros [] Hc He. by split. Qed.

Lemma timed_leave w threads : timed w -> timed (with_threads w None threads).
Proof. intros Ht. apply timed_threads; [done|done|]. by intros ?. Qed.

Lemma timed_source w present enabled stamp : timed w -> stamp = wl_stamp w \/ stamp = 0 -> timed (with_source w present enabled stamp).
Proof. intros [] [->| ->]; by split. Qed.

Lemma timed_insert w i t : timed w -> (forall a b c, t <> Watching a b c) -> timed (with_threads w (wl_watched w) (<[i := t]> (wl_threads w))).
Proof.
  intros Ht Hn. apply timed_threads; [done|apply Ht|]. intros j ends restarts wake n H. apply list_lookup_insert_Some in H as [(_&->&_)|(_&H)]; [by destruct (Hn ends restarts wake)|].
  by eapply (ti_ends _ Ht j).
Qed.

Lemma timed_start spawned w : inv w -> timed w -> timed (start spawned w).
Proof.
  intros [Ho _] Ht. unfold start. destruct (wl_watched w) as [n|] eqn:En; [done|]. destruct spawned; [|by apply timed_leave]. apply timed_threads; [done| |].
  - intros n [= <-]. pose proof (ti_deletes _ Ht). lia.
  - intros i ends restarts wake n [H|[_ H]]%lookup_app_Some [= <-]; [by destruct (Ho i); eapply watching_at_lookup|]. by apply list_lookup_singleton_Some in H as [_ [= <- <- <-]].
Qed.

Lemma timed_delete spawned w : inv w -> timed w -> wl_deletes w + 1 < u64_modulus -> timed (delete_later spawned w).
Proof.
  intros Hinv [Hs Hsi Hc [Hw Hw'] Hd Hn He] Hfew. assert (wl_watched w = None -> timed (defer w)) as Hdefer.
  { intros En. split; cbn; [done|lia|lia|done|lia|by rewrite En|by rewrite En]. }
  unfold delete_later. cbn [defer wl_watched]. destruct (wl_watched w) as [n|] eqn:En; [|apply timed_start; [destruct Hinv; by split|auto]].
  destruct (Hn n eq_refl) as [Hn0 Hn1]. split; cbn; [done|lia|lia|done|lia| |].
  - intros m [= <-]. rewrite Z.mod_small by lia. lia.
  - intros i ends restarts wake m Hl [= <-]. rewrite Z.mod_small by lia. destruct (He _ _ _ _ _ Hl eq_refl) as [Hle _]. split; lia.
Qed.

Lemma timed_turned i ends restarts wake w w' : inv w -> timed w -> wl_threads w !! i = Some (Watching ends restarts wake) -> turned i ends restarts w w' -> timed w'.
Proof.
  intros [Ho _] Ht Hl Hturn. pose proof (watching_at_lookup _ _ _ _ _ Hl) as Hi. destruct (watched_some _ _ _ Ho Hi) as [[n En] Hone].
  destruct Hturn as [settled Hs| |Hp Hd|remaining e Hd He Hlt]; try (by apply timed_leave).
  - apply timed_leave, timed_source; auto.
  - apply timed_threads; [done|apply Ht|]. intros j ends' restarts' wake' m H Em. rewrite En in Em. injection Em as <-. apply list_lookup_insert_Some in H as [(_&[= <- <- <-]&_)|(Hne&H)].
    + pose proof (decide_late _ Ht) as Hlate. rewrite Hd in Hlate. destruct (ti_ends _ Ht _ _ _ _ _ Hl En) as [_ Hold]. unfold seen in *. rewrite En in *. cbn [fst snd] in *.
      case_bool_decide as Hc; cbn in *; [split; [lia|]; intros _ e' [= <-]; lia|]. assert (n = restarts) as <- by lia. split; [lia|]. intros _ e' [= <-].
      destruct ends as [e0|]; cbn in He; subst e; [by apply Hold|lia].
    + destruct Hne. symmetry. apply Hone. by eapply watching_at_lookup.
Qed.

Lemma step_timed e w w' : inv w -> timed w -> steady w e -> wl_deletes w' < u64_modulus -> step e w = Some w' -> timed w'.
Proof.
  intros Hinv Ht Hst Hfew. destruct e as [elapsed wall|spawned|spawned| |b|i|i ok|i|]; cbn [step].
  - case_bool_decide as Hpos; intros [= <-]. destruct Ht as [Hs Hsi Hc Hw Hd Hn He]. cbn in Hst. split; cbn; [done|lia|lia|lia|done|done|done].
  - destruct (_ && _); intros [= <-]. apply timed_delete; [done|done|]. unfold delete_later, start in Hfew. cbn in Hfew. by destruct (wl_watched w); [|destruct spawned].
  - destruct (wl_present w); intros [= <-]. assert (timed (match from_stamp (wl_stamp w) with Some _ => start spawned w | None => w end)) as [] by (destruct (from_stamp _); [by apply timed_start|done]). by split.
  - intros [= <-]. apply timed_source; [|auto]. apply timed_source; auto.
  - intros [= <-]. apply timed_source; auto.
  - destruct (wl_threads w !! i) as [[ends restarts wake| | | | | |]|] eqn:El; try discriminate. case_bool_decide; intros [= <-]. eapply timed_turned; [done..|apply turn_turned].
  - unfold proceed. destruct (wl_threads w !! i) as [[| | | | | |]|] eqn:El; try discriminate; try destruct ok; intros [= <-];
      apply (timed_insert (with_source w _ _ _)) || apply timed_insert; try done; apply timed_source; auto.
  - destruct (wl_threads w !! i) as [[ends restarts wake| | | | | |]|] eqn:El; try discriminate; intros [= <-]; (by apply timed_leave) || (by apply timed_insert).
  - intros [= <-]. destruct (timed_leave w [] Ht). by split.
Qed.

Lemma step_deletes e w w' : step e w = Some w' -> wl_deletes w <= wl_deletes w'.
Proof.
  destruct e as [elapsed wall|spawned|spawned| |b|i|i ok|i|]; cbn [step].
  - case_bool_decide; intros [= <-]. done.
  - destruct (_ && _); intros [= <-]. unfold delete_later, start. cbn. destruct (wl_watched w); [cbn; lia|destruct spawned; cbn; lia].
  - destruct (wl_present w); intros [= <-]. unfold start. destruct (from_stamp _), (wl_watched w), spawned; done.
  - by intros [= <-].
  - by intros [= <-].
  - destruct (wl_threads w !! i) as [[ends restarts wake| | | | | |]|]; try discriminate. case_bool_decide; intros [= <-]. by destruct (turn_turned i ends restarts w).
  - unfold proceed. destruct (wl_threads w !! i) as [[| | | | | |]|]; try discriminate; try destruct ok; by intros [= <-].
  - destruct (wl_threads w !! i) as [[| | | | | |]|]; try discriminate; by intros [= <-].
  - by intros [= <-].
Qed.

Lemma reach_inv ok w0 w : fresh w0 -> reach ok w0 w -> inv w.
Proof.
  intros [_ Hw Ht _ _ _]. induction 1 as [|w1 e w2 _ IH _ Hs]; [|by eapply step_inv]. split; rewrite ?Hw, Ht; [intros i (?&?&?&?); by rewrite lookup_nil in *|intros i ? ? ? H; by rewrite lookup_nil in H].
Qed.

Lemma reach_timed w0 w : fresh w0 -> reach steady w0 w -> wl_deletes w < u64_modulus -> timed w.
Proof.
  intros Hf. induction 1 as [|w1 e w2 Hr IH Hok Hs]; intros Hfew.
  - destruct Hf as [Hst Hw Ht Hd Hwall [Hdw Hdm]]. split; [lia|lia|lia|lia|lia|by rewrite Hw|by rewrite Hw].
  - eapply step_timed; [by eapply reach_inv| |done|done|done]. apply IH. pose proof (step_deletes _ _ _ Hs). lia.
Qed.

(** ** The destroy *)
Lemma sending_insert (threads : list Thread) i t j : t <> Sending -> <[i := t]> threads !! j = Some Sending -> threads !! j = Some Sending.
Proof. intros Ht H. by apply list_lookup_insert_Some in H as [(_&->&_)|(_&H)]. Qed.

Lemma sending_start spawned w j : wl_threads (start spawned w) !! j = Some Sending -> wl_threads w !! j = Some Sending.
Proof.
  unfold start. destruct (wl_watched w), spawned; cbn; try done. intros [H|[_ H]]%lookup_app_Some; [done|]. by apply list_lookup_singleton_Some in H as [_ ?].
Qed.

Lemma step_sending e w w' i :
  step e w = Some w' -> wl_threads w !! i <> Some Sending -> wl_threads w' !! i = Some Sending ->
  exists ends restarts wake, wl_threads w !! i = Some (Watching ends restarts wake) /\ w' = with_threads w None (<[i := Sending]> (wl_threads w)) /\ turned i ends restarts w w'.
Proof.
  intros Hs Hno Hyes. destruct e as [elapsed wall|spawned|spawned| |b|j|j ok|j|]; cbn [step] in Hs.
  - case_bool_decide; [|done]. by injection Hs as <-.
  - destruct (_ && _); [|done]. injection Hs as <-. destruct Hno. unfold delete_later in Hyes. destruct (wl_watched (defer w)); [done|by apply (sending_start spawned (defer w))].
  - destruct (wl_present w); [|done]. injection Hs as <-. destruct Hno. destruct (from_stamp _); [by apply (sending_start spawned)|done].
  - by injection Hs as <-.
  - by injection Hs as <-.
  - destruct (wl_threads w !! j) as [[ends restarts wake| | | | | |]|] eqn:El; try discriminate. case_bool_decide; [|done]. injection Hs as <-. pose proof (turn_turned j ends restarts w) as Ht.
    destruct (decide (i = j)) as [->|Hne].
    + exists ends, restarts, wake. split_and!; [done| |done]. destruct Ht; cbn in Hyes; try done; apply sending_insert in Hyes; done.
    + destruct Hno. destruct Ht; cbn in Hyes; by rewrite list_lookup_insert_ne in Hyes.
  - unfold proceed in Hs. destruct Hno. destruct (wl_threads w !! j) as [[| | | | | |]|] eqn:El; try discriminate; try destruct ok; injection Hs as <-; cbn in Hyes; by apply sending_insert in Hyes.
  - destruct Hno. destruct (wl_threads w !! j) as [[| | | | | |]|] eqn:El; try discriminate; injection Hs as <-; cbn in Hyes; by apply sending_insert in Hyes.
  - injection Hs as <-. cbn in Hyes. by rewrite lookup_nil in Hyes.
Qed.

(** C15: No destroy within the undo window. In every run of the threads, the user, restarts and the
    clocks in which the wall clock is never set forward (set back it may be), a thread goes on to
    send a destroy only where it finds, in the same lock, the source there, disabled and stamped,
    and a full window after the last delete of it by the monotonic clock, also for a delete after an
    undo while the thread of the earlier delete still sleeps. *)
Theorem no_early_destroy w0 w e w' i :
  fresh w0 -> reach steady w0 w -> wl_deletes w < u64_modulus -> step e w = Some w' -> wl_threads w !! i <> Some Sending -> wl_threads w' !! i = Some Sending ->
  wl_present w = true /\ wl_enabled w = false /\ 0 < wl_stamp w /\ wl_deleted_mono w + UNDO_WINDOW <= wl_mono w.
Proof.
  intros Hf Hr Hfew Hs Hno Hyes. destruct (step_sending _ _ _ _ Hs Hno Hyes) as (ends&restarts&wake&Hl&Heq&Ht). pose proof (reach_timed _ _ Hf Hr Hfew) as Htimed.
  pose proof (reach_inv _ _ _ Hf Hr) as [Ho _]. pose proof (decide_late _ Htimed) as Hlate. destruct (watched_some _ _ _ Ho (watching_at_lookup _ _ _ _ _ Hl)) as [[n En] _].
  inversion Ht as [settled ? E|E|Hp Hd E|remaining e' ? ? ? E]; subst w'; apply (f_equal wl_threads) in E; cbn in E.
  - apply (f_equal (lookup i)) in E. rewrite !list_lookup_insert_eq in E by (by eapply lookup_lt_Some). done.
  - apply (f_equal (lookup i)) in E. rewrite !list_lookup_insert_eq in E by (by eapply lookup_lt_Some). done.
  - destruct Hd as [Hd|(remaining&e'&Hd&Hseen&Hend)]; rewrite Hd in Hlate; [tauto|]. destruct Hlate as (_&_&Hen&Hst). split_and!; [done|done|done|].
    destruct (ti_ends _ Htimed _ _ _ _ _ Hl En) as [_ Hends]. unfold seen in Hseen. rewrite En in Hseen. case_bool_decide as Hc; [done|]. etrans; [|exact Hend]. apply Hends; [lia|done].
  - apply (f_equal (lookup i)) in E. rewrite !list_lookup_insert_eq in E by (by eapply lookup_lt_Some). done.
Qed.

(** ** The threads *)
Lemma attended_start w : inv w -> exists i t, wl_threads (start true w) !! i = Some t /\ active t.
Proof.
  intros [Ho _]. unfold start. destruct (wl_watched w) as [n|] eqn:En.
  - destruct Ho as (i&(a&b&c&Hi)&_). by exists i, (Watching a b c).
  - exists (length (wl_threads w)), (Watching None 0 (wl_mono w)). cbn. by rewrite lookup_app_r, Nat.sub_diag.
Qed.

Lemma attended_insert w (threads : list Thread) i t t' : threads !! i = Some t -> active t' -> wl_threads w = <[i := t']> threads -> attended w.
Proof. intros Hi Ha Hw _ _ _. exists i, t'. rewrite Hw. split; [|done]. apply list_lookup_insert_eq. by eapply lookup_lt_Some. Qed.

Lemma attended_source w present enabled : attended w -> (present = true -> wl_present w = true) -> attended (with_source w present enabled (wl_stamp w)).
Proof. intros Ha Hp Hl Hpr Hst. apply Ha; [done|by apply Hp|done]. Qed.

Lemma step_attended e w w' : inv w -> attended w -> orderly w e -> step e w = Some w' -> attended w'.
Proof.
  intros Hinv Ha Ho. destruct e as [elapsed wall|spawned|spawned| |b|i|i ok|i|]; cbn [step].
  - case_bool_decide; intros [= <-]. exact Ha.
  - cbn in Ho. subst spawned. destruct (_ && _); intros [= <-] _ _ _. unfold delete_later. destruct (wl_watched (defer w)) as [n|] eqn:En; [|by apply attended_start; destruct Hinv; split].
    destruct Hinv as [Hwo _]. cbn in En. rewrite En in Hwo. destruct Hwo as (i&(a&b&c&Hi)&_). by exists i, (Watching a b c).
  - cbn in Ho. subst spawned. destruct (wl_present w); intros [= <-] _ _ Hst. unfold from_stamp in *. case_bool_decide as Hc; [by apply attended_start|done].
  - intros [= <-] _ _ Hst. cbn in Hst. lia.
  - intros [= <-]. by apply attended_source.
  - destruct (wl_threads w !! i) as [[ends restarts wake| | | | | |]|] eqn:El; try discriminate. case_bool_decide; intros [= <-]. destruct (turn_turned i ends restarts w) as [settled [Hs|Hs]| |Hp Hd|remaining e Hd He Hlt].
    + intros _ Hp. cbn in Hp. congruence.
    + intros _ _ Hst. cbn in Hst. lia.
    + intros _ _ Hst. cbn in Hst. lia.
    + by eapply (attended_insert _ (wl_threads w) i); [exact El| |reflexivity].
    + by eapply (attended_insert _ (wl_threads w) i); [exact El| |reflexivity].
  - unfold proceed. destruct (wl_threads w !! i) as [[| | | | | |]|] eqn:El; try discriminate; try destruct ok; intros [= <-]; try (by eapply (attended_insert _ (wl_threads w) i); [exact El| |reflexivity]).
    1: by intros _ Hp. all: intros _ _ Hst; cbn in Hst; lia.
  - done.
  - intros [= <-] Hl. done.
Qed.

(** The end of a wait is the end: the thread leaves, whatever the wall clock says. *)
Lemma wake_ends w i restarts wake e wall mono :
  wl_threads w !! i = Some (Watching (Some e) restarts wake) -> wl_watched w = Some restarts -> wake <= e <= mono ->
  exists w', step (Wake i) (with_time w wall mono) = Some w' /\ ~ watching_at (wl_threads w') i.
Proof.
  intros Hl Hw He. cbn [step with_time wl_threads wl_mono]. rewrite Hl, bool_decide_eq_true_2 by lia. eexists. split; [reflexivity|].
  assert (forall t, (forall a b c, t <> Watching a b c) -> ~ watching_at (<[i := t]> (wl_threads w)) i) as Hleft.
  { intros t Ht [(_&a&b&c&->)|[? _]]%watching_insert; [by destruct (Ht a b c)|done]. }
  destruct (turn_turned i (Some e) restarts (with_time w wall mono)) as [settled Hs| |Hp Hd|remaining e' Hd He' Hlt]; cbn [with_threads clear_due with_source with_time wl_threads]; try (by apply Hleft).
  unfold seen in He'. cbn [with_time wl_watched wl_mono] in He', Hlt. rewrite Hw, bool_decide_eq_false_2 in He' by lia. cbn in He'. lia.
Qed.

(** C21: A pending delete is settled. While the system gives the threads asked for and none panics, a
    child that is stamped has a thread, after a restart as soon as the child is added again; at
    most one thread watches, and then [WATCHED] has its uid. A thread that watches wakes within one
    window; an end that it has set is at most one window away; and once that is past it leaves the
    wait, whatever the wall clock says, if there was no further delete. *)
Theorem pending_settles w0 w :
  fresh w0 -> reach orderly w0 w -> wl_loaded w = true -> wl_present w = true -> 0 < wl_stamp w ->
  exists i t, wl_threads w !! i = Some t /\ active t /\
  forall i ends restarts wake, wl_threads w !! i = Some (Watching ends restarts wake) ->
    is_Some (wl_watched w) /\ (forall j, watching_at (wl_threads w) j -> j = i) /\ wake <= wl_mono w + UNDO_WINDOW /\
    forall e, ends = Some e -> e <= wl_mono w + UNDO_WINDOW /\
      (wl_watched w = Some restarts -> forall wall mono, e <= mono -> exists w', step (Wake i) (with_time w wall mono) = Some w' /\ ~ watching_at (wl_threads w') i).
Proof.
  intros Hf Hr Hl Hp Hst. assert (attended w) as Ha.
  { clear Hl Hp Hst. induction Hr as [|w1 e w2 Hr IH Hok Hs]; [intros _ _; destruct Hf; lia|]. eapply step_attended; [by eapply reach_inv|done..]. }
  destruct (Ha Hl Hp Hst) as (i&t&Hi&Ht). exists i, t. split_and!; [done|done|]. intros k ends restarts wake Hk. destruct (reach_inv _ _ _ Hf Hr) as [Ho Hw].
  destruct (watched_some _ _ _ Ho (watching_at_lookup _ _ _ _ _ Hk)) as [Hsome Hone]. destruct (Hw _ _ _ _ Hk) as [Hwake Hends]. split_and!; [done|done|done|].
  intros e ->. destruct (Hends e eq_refl) as [H1 H2]. split; [done|]. intros Hn wall mono Hm. by eapply wake_ends.
Qed.

(** ** Runs *)
Definition sample_child : World :=
  {| wl_present := true; wl_enabled := true; wl_stamp := 0; wl_watched := None; wl_threads := []; wl_loaded := true; wl_wall := 1700000000 * NANOS; wl_mono := 5 * NANOS;
     wl_deleted_wall := 1700000000 * NANOS; wl_deleted_mono := 5 * NANOS; wl_deletes := 0 |}.

Fixpoint run_events (l : list Event) (w : World) : option World :=
  match l with [] => Some w | e :: l => match step e w with Some w => run_events l w | None => None end end.

Lemma sample_fresh : fresh sample_child.
Proof. by split. Qed.

Lemma reach_trans ok w w1 w2 : reach ok w w1 -> reach ok w1 w2 -> reach ok w w2.
Proof. intros H1 H2. induction H2; [done|by eapply Reach_step]. Qed.

Lemma reach_first ok w e w1 w2 : ok w e -> step e w = Some w1 -> reach ok w1 w2 -> reach ok w w2.
Proof. intros Hok Hs. apply reach_trans. eapply Reach_step; [apply Reach_here|done|done]. Qed.

Fixpoint ok_run (ok : World -> Event -> Prop) (l : list Event) (w : World) : Prop :=
  match l with [] => True | e :: l => ok w e /\ match step e w with Some w => ok_run ok l w | None => True end end.

Lemma reach_run ok l w w' : run_events l w = Some w' -> ok_run ok l w -> reach ok w w'.
Proof.
  revert w. induction l as [|e l IH]; intros w; cbn; [intros [= ->] _; apply Reach_here|]. destruct (step e w) as [w1|] eqn:Es; [|done]. intros Hl [Hok Hrest].
  eapply reach_first; [done|done|by apply IH].
Qed.

(** A delete that is undone, and a second delete while the first thread sleeps; the wall clock is set back an hour meanwhile. *)
Definition sample_run : list Event :=
  [Delete true; Wake 0; Tick (20 * NANOS) (1700000020 * NANOS); Undo; Delete true; Tick (50 * NANOS) (1699996470 * NANOS); Wake 0; Tick (60 * NANOS) (1699996530 * NANOS)].

Lemma no_early_destroy_witness :
  exists w w', run_events sample_run sample_child = Some w /\ step (Wake 0) w = Some w' /\ wl_threads w' = [Sending] /\ wl_deleted_mono w + UNDO_WINDOW <= wl_mono w.
Proof.
  destruct (run_events sample_run sample_child) as [w|] eqn:E; [|vm_compute in E; discriminate E]. destruct (step (Wake 0) w) as [w'|] eqn:Es; [|vm_compute in E; injection E as <-; vm_compute in Es; discriminate Es].
  exists w, w'. assert (wl_threads w' = [Sending] /\ wl_threads w !! 0%nat <> Some Sending /\ wl_deletes w < u64_modulus) as (H1&H2&H3)
    by (vm_compute in E; injection E as <-; vm_compute in Es; injection Es as <-; split_and!; vm_compute; congruence).
  split_and!; [reflexivity|exact Es|done|]. apply (no_early_destroy sample_child w (Wake 0) w' 0); [exact sample_fresh| |done|done|done|by rewrite H1].
  eapply reach_run; [exact E|]. vm_compute. repeat split; congruence.
Defined.

Lemma pending_settles_witness :
  exists w i t, run_events [Delete true; Wake 0; Restart; ChildAdded true] sample_child = Some w /\ wl_threads w !! i = Some t /\ active t.
Proof.
  destruct (run_events [Delete true; Wake 0; Restart; ChildAdded true] sample_child) as [w|] eqn:E; [|vm_compute in E; discriminate E].
  destruct (pending_settles sample_child w) as (i&t&Hi&Ht&_).
  - exact sample_fresh.
  - eapply reach_run; [exact E|]. vm_compute. by repeat split.
  - vm_compute in E. injection E as <-. reflexivity.
  - vm_compute in E. injection E as <-. reflexivity.
  - vm_compute in E. injection E as <-. reflexivity.
  - exists w, i, t. split_and!; [reflexivity|exact Hi|exact Ht].
Defined.

(** The writes after a refused destroy are not under the lock: a delete between the enable and the
    clear loses its stamp, and leaves the child disabled with nothing pending. *)
Lemma refused_destroy_race :
  exists w, run_events [Delete true; Wake 0; Tick (60 * NANOS) (1700000060 * NANOS); Wake 0; Proceed 0 false; Proceed 0 true; Delete true; Proceed 0 true; Wake 1] sample_child = Some w /\
    wl_present w = true /\ wl_enabled w = false /\ from_stamp (wl_stamp w) = None /\ wl_watched w = None /\ wl_threads w = [Finished SettledRestored; Finished SettledNotPending].
Proof. eexists. vm_compute. split_and!; reflexivity. Qed.
